(* ===== verification/_CoqProject ===== *)
-Q . S2P
Prelude.v
GoStd.v
GoPath.v
GoFile.v
FileChecks.v
FileAcl.v
Termsafe.v
Sanitize.v
Label.v
GoNetip.v
GoCrypto.v
AuditKey.v
GoRegexp.v
Redact.v
Json.v
JsonCompact.v
JsonMarshal.v
JsonStruct.v
YamlStrict.v
Schema.v
ReqState.v
Scrub.v
Stderr.v
ToolClass.v
Command.v
CommandPattern.v
ServerProfile.v
Values.v
ConfigPayload.v
Classifier.v
Policy.v
Evaluate.v
Inventory.v
InventoryCsv.v
GateArgs.v
GateText.v
Gate.v
PolicyTest.v
TestArguments.v
Names.v
Prompts.v
SessionKeys.v
Hints.v
Attribution.v
RefusalLog.v
Progress.v
Forward.v
ProxyGate.v
Routing.v
Startup.v
Listener.v
Bind.v
ListenTokens.v
ChildEnv.v
Flags.v
ServeArgs.v
Pipeline.v
PolicyEval.v
ServeRun.v
InventoryCmd.v
TestRun.v
Closing.v
Commands.v
CallLimits.v
Sessions.v
SessionRun.v
SessionInv.v
SessionProps.v
HttpRequest.v
Dispatch.v
AuditEvent.v
AuditLog.v
AuditFile.v
