(* ===== verification/Prelude.v ===== *)
(** * Fathomgate: a verification library for the policy checkpoint

    Fathomgate stands between an AI agent and network-automation MCP servers.
    For every tools/call it reads the arguments, classifies what the call would
    do, evaluates a policy over the class and the targeted devices, and forwards
    the call or answers with a refusal.  This library models that program in
    Rocq: the command line and the files it starts from, the listener and the
    agents' sessions, the path of a call from its bytes to the verdict and on to
    the upstream, what comes back, and the audit log.  Each file's own header
    says more; what follows is the plan of the whole.

    ** Parts and files

    The language's library, as far as the program uses it:
    - Prelude: results, list and boolean lemmas, [breflect], [split_matches].
    - GoStd: strings, unicode/utf8, strconv and sorting.  A Go string is a
      [string] of bytes, a rune a [Z].  GoPath is path.Match, GoNetip
      netip.ParseAddr, GoCrypto SHA-256, HMAC, hex and base64, GoRegexp package
      regexp: a parser of the patterns and a leftmost-first matcher.
    - Json (scanner, decoder and encoder), JsonCompact, JsonMarshal (HTML
      escapes) and JsonStruct (decoding into a struct): encoding/json.
    - Flags: package flag, with the command's own text for its errors.
    - GoFile: what the program sees of a Unix file system, and what other users
      can do to it between two system calls.

    Text that is shown or hidden:
    - Termsafe (internal/termsafe), Sanitize, Label (internal/proxy/sanitize.go,
      label.go): quoting, escaping, and the check that an upstream does not
      pretend to be someone else.
    - Scrub, Stderr (scrub.go, sanitize.go): passed secrets in a log stream.
    - Redact (internal/redact): secrets in device output, by pattern.

    Classification, policy and the gate:
    - ToolClass, Command, CommandPattern, ServerProfile, Values, ConfigPayload,
      Classifier (internal/classify: class.go, command.go, profile.go, config.go,
      normalize.go).
    - YamlStrict (internal/yamlstrict): one document, and errors that do not
      quote the file.
    - Policy, Evaluate (internal/policy); Inventory, InventoryCsv
      (internal/inventory).
    - GateArgs, GateText, Gate (internal/gate): [parseArguments], target names
      and caps, the agent-visible text, [Decide] and [Explain].
    - PolicyTest, TestArguments (internal/policytest): the cases of policy test
      files, what their YAML may hold, and what they assert.

    The proxy, internal/proxy:
    - Names (name.go), Startup (the connection to an upstream: proxy.go, era.go),
      Hints (hints.go), Routing (New and the routes: proxy.go).
    - ProxyGate (gate.go): the size cap, the session counters and their lock,
      the re-encoding.  Class [GateIface] is the Go interface Gate, [gate_iface]
      its implementation by Gate, [DeviceCap] the law the counters rely on.
    - Forward (proxy.go): a call's rounds with the upstream.  Prompts, Schema,
      ReqState (input.go, schema.go, state.go): the prompts an upstream may put
      to a human, and the sealed state of a stateless retry.  Attribution,
      SessionKeys, RefusalLog (input.go): which call a prompt belongs to, and
      the lines about refused ones.  Progress (progress.go): progress relayed.
    - Dispatch: the handler of a route, which composes all of these.
    - Listener, Sessions, SessionRun, SessionInv, SessionProps (http.go): the
      checks of a request, the caps, the idle clocks and eviction, over time.
      HttpRequest (http.go): one request among the others, and the deadlines of
      its connection.  CallLimits (calls.go): the calls in flight.
    - Closing (proxy.go): Close, the exit watchers and the tracked goroutines.

    The command, cmd/fathomgate:
    - ServeArgs, ListenTokens, Bind, ChildEnv, Pipeline (serve.go,
      listen_token.go, listen.go, serve_policy.go, and internal/proxy/command.go
      and internal/configset): what serve accepts, binds, passes on and loads.
    - ServeRun (serve.go, listen.go): serve from its arguments to its exit, as
      the sequence of what it binds, starts, serves and closes.
    - PolicyEval (policy.go): policy eval.  InventoryCmd (inventory.go): lint,
      resolve and import.  TestRun (internal/policytest/run.go): a policy test
      from its files to its results.  Commands (main.go, policy.go, redact.go):
      which command runs, policy test, the lines policy eval prints, and redact.

    Files and keys:
    - FileChecks (internal/configfile, internal/secretfile), FileAcl
      (internal/fileacl): reading configuration and secrets, and macOS lists.
    - AuditKey (internal/audit/key.go, key_unix.go): writing and loading keys.

    The audit log, internal/audit: AuditEvent, AuditLog (records, the verifier,
    the writer), AuditFile (opening the log, and audit verify and keygen).

    serve: ServeRun, over Flags, ServeArgs, ListenTokens, Bind, Pipeline (with YamlStrict,
    Policy, Inventory, ServerProfile), Startup, Hints, Routing.  A call:
    Listener, HttpRequest, Sessions, Dispatch, which goes through CallLimits, Names,
    ProxyGate, Gate (GateArgs, Classifier, Inventory, Evaluate), back to
    ProxyGate, and to Forward (Prompts, ReqState, Attribution, Progress).

    ** Conventions

    Definitions keep the Go names; an argument that Go mutates is threaded, and
    objects that are shared through pointers (calls in flight, sessions, slots)
    are a heap with explicit addresses.  What runs concurrently is a step
    relation or a list of events, each of which the code runs under one lock.
    An [error] is an inductive type per package, or [option] where only its
    presence matters; a panic is [None] or a result of its own.  A Go map is a
    [gmap]; where iteration order cannot show, it is left out.  [int] is [Z];
    where a sum could wrap, the wrap is written out ([int64] in Evaluate).

    ** What the theorems show

    - Classification: a command or call classed as a read passed every check
      (Command, Classifier); the hand-written command checks are the patterns of
      the source (CommandPattern).
    - Policy: [Evaluate] is the documented first-match semantics, stated as a
      relation ([Evaluate_refines]).
    - Gate: [Decide] forwards only calls that passed every check
      ([Decide_forward_sound]); arguments, target names and caps are exact; what
      policy eval and policy tests say is what serve does ([eval_as_serve],
      [policy_test_as_serve]), and a test's arguments are what its YAML shows
      ([arguments_as_written]).
    - Proxy: only an authenticated, admitted call with a forward verdict reaches
      the upstream ([handler_gated]), with the object the gate checked
      ([reencode_faithful]); concurrent calls are decided as in a sequential
      run and never pass the device cap ([decide_linearizable], [session_cap]);
      a forwarded call ends, within its limits of rounds and prompts
      ([forward_terminates], [forward_bounds]), and only labelled forms reach a
      human, of the right session ([forward_safe], [upstreamElicitation_safe],
      [resume_bound]); the newest progress is delivered ([progress_delivered]).
    - Listener: the front's checks are exact; the caps and counts hold over any
      run, and only idle sessions are evicted (SessionProps); a request gives
      back all it took whatever the others do ([request_gives_back]).
    - Start: an upstream gets only allow-listed and configured variables, only
      loopback sockets are bound, a policy always gets a gate, and the warnings
      name what is not enforced (ServeArgs, Bind, Pipeline); at most two
      processes are started and none is left behind (Startup); serve starts
      nothing before its checks and closes what it opened ([serve_lifecycle]),
      and Close can always finish ([close_completes]); what lint and resolve say
      of an inventory is what serve does with it ([inventory_as_serve]).
    - Files: the bytes of a configuration or secret file are those of a file no
      other user can change, or read ([config_Read_integrity],
      [secret_Read_private]); a log is the user's alone ([log_owner_only]); keys
      are written without overwriting, and read back ([WriteKeyPair_outcomes],
      [keys_roundtrip]).
    - Secrets: a secret in any encoded form is scrubbed however the stream is
      cut ([stream_scrubbed]); redaction replaces exactly the captures of the
      claiming rule ([Redact_exact]).
    - Audit: two logs that verify with one last hash hold the same events unless
      SHA-256 collides ([verified_log_binding]); what the writer appends
      verifies and is read back ([session_verifies]).

    ** Bounds and fuel

    - path.Match recurses on fuel bounded by the lengths of pattern and name,
      shown to be enough in GoPath.  A pattern of length n is parsed with fuel
      3 (n + 1), every pattern of the source parses (the examples of GoRegexp,
      Redact and YamlStrict); a repetition that consumes text gets one round
      more than the bytes left and [find_all] one more than the text has, shown
      to be enough in GoRegexp.
    - A forwarded call gets 11 rounds, shown to be enough ([forward_terminates]);
      a reservation evicts at most once per live session
      ([reservation_evicts_idle]); drawing a fresh key tries once more than
      there are keys; binding both loopback families tries 8 times, as the code.
    - Interspersed flags are parsed with one step more than there are arguments.
    - [maxNestingDepth] is encoding/json's 10000.

    ** Parameters

    Class [Unicode] holds the tables of package unicode outside ASCII; [GoFloat]
    says which number literals are in float64's range and how such a float
    prints.  [Ed25519] with [Ed25519Laws] is crypto/ed25519, [AEAD] with its laws
    the AES-GCM of the standard library.  The environment of Forward ([Env] with
    [EnvLaws]) is the upstream and agent sessions of go-sdk, the clock and the
    calls beside the one at hand.  The YAML parser and decoder, file reads, the
    patterns of an inventory file, CSV record splitting, encoding/pem's decoder,
    crypto/x509, go-sdk's own checks and what the operating system answers to
    listen, spawn and file calls are arguments of the definitions that use them.
    FileChecks lets other users do between two system calls all that the mode,
    owner and list of a file allow; it assumes that none of them holds a write
    descriptor opened while the file still allowed it.  Each has a concrete instance in the examples.

    ** Not modelled

    - Operating-system code: the Windows halves of the file checks, the
      fgetattrlist call of macOS, process groups and job objects (tree*.go),
      socket options.
    - net/http and go-sdk: header and idle timeouts and the transport itself.
    - Printing: usage text, JSON output, what audit verify and version print,
      and log lines.  In ProxyGate and Forward the decision line is left out.
    - Writing an inventory file.
    - Embedded data, benchmarks and test helpers. *)

From stdpp Require Export base tactics list gmap strings sorting pretty.
From Stdlib Require Export ZArith Lia String Ascii.

#[export] Set Default Goal Selector "!".

Declare Scope go_scope.
Delimit Scope go_scope with go.

(** Byte values.  A Go string is a [string], one [ascii] per byte. *)
Definition bz (c : ascii) : Z := Z.of_N (N_of_ascii c).
Definition zb (z : Z) : ascii := ascii_of_N (Z.to_N z).

Definition in_range (lo hi z : Z) : bool := (lo <=? z)%Z && (z <=? hi)%Z.

(** stdpp blocks the reduction of [String.append]; the string lemmas here
    compute with it. *)
#[global] Arguments String.append : simpl nomatch.

(** ** Automation *)

Create HintDb go.
Create Rewrite HintDb go.

(** Split every [match] and [if] of the context and the goal, discharging
    the contradictory cases. *)
Ltac split_matches := repeat (case_match; simplify_eq/=; try done).

(** Turn boolean conjunctions, disjunctions, negations and comparisons of
    hypotheses into propositions. *)
Ltac breflect :=
  repeat match goal with
  | H : (_ && _)%bool = true |- _ => apply andb_prop in H as [? ?]
  | H : (_ || _)%bool = false |- _ => apply orb_false_elim in H as [? ?]
  | H : negb _ = true |- _ => apply negb_true_iff in H
  | H : negb _ = false |- _ => apply negb_false_iff in H
  | H : bool_decide _ = true |- _ => apply bool_decide_eq_true in H
  | H : bool_decide _ = false |- _ => apply bool_decide_eq_false in H
  | H : (_ <=? _)%Z = true |- _ => apply Z.leb_le in H
  | H : (_ <=? _)%Z = false |- _ => apply Z.leb_gt in H
  | H : (_ <? _)%Z = true |- _ => apply Z.ltb_lt in H
  | H : (_ <? _)%Z = false |- _ => apply Z.ltb_ge in H
  | H : (_ =? _)%Z = true |- _ => apply Z.eqb_eq in H
  | H : (_ =? _)%Z = false |- _ => apply Z.eqb_neq in H
  | H : (_ <=? _)%nat = true |- _ => apply Nat.leb_le in H
  | H : (_ <=? _)%nat = false |- _ => apply Nat.leb_gt in H
  | H : (_ <? _)%nat = true |- _ => apply Nat.ltb_lt in H
  | H : (_ <? _)%nat = false |- _ => apply Nat.ltb_ge in H
  | H : String.eqb _ _ = true |- _ => apply String.eqb_eq in H
  | H : String.eqb _ _ = false |- _ => apply String.eqb_neq in H
  | H : Ascii.eqb _ _ = true |- _ => apply Ascii.eqb_eq in H
  | H : Ascii.eqb _ _ = false |- _ => apply Ascii.eqb_neq in H
  end.

(** ** Results *)

(** A computation that returns a value or a Go error. *)
Inductive result (E A : Type) : Type :=
  | Ok (a : A)
  | Err (e : E).
Arguments Ok {E A} a.
Arguments Err {E A} e.

#[export] Instance result_ret {E} : MRet (result E) := λ A a, Ok a.
#[export] Instance result_bind {E} : MBind (result E) := λ A B f r,
  match r with Ok a => f a | Err e => Err e end.

Definition is_ok {E A} (r : result E A) : bool :=
  match r with Ok _ => true | Err _ => false end.

(** The first element of [l] the function rejects, as Go's validation loops
    return the first error. *)
Fixpoint first_error {A E} (f : A → option E) (l : list A) : option E :=
  match l with
  | [] => None
  | x :: l => match f x with Some e => Some e | None => first_error f l end
  end.

Lemma first_error_None {A E} (f : A → option E) l :
  first_error f l = None ↔ ∀ x, x ∈ l → f x = None.
Proof.
  induction l as [|y l IH]; simpl.
  { split; [intros _ x Hx; by apply not_elem_of_nil in Hx | done]. }
  destruct (f y) eqn:Hy.
  - split; [done|]. intros H. specialize (H y (list_elem_of_here _ _)). congruence.
  - rewrite IH. split; intros H x Hx.
    + apply elem_of_cons in Hx as [->|?]; auto.
    + apply H. by right.
Qed.

Lemma first_error_Some {A E} (f : A → option E) l e :
  first_error f l = Some e →
  ∃ l1 x l2, l = l1 ++ x :: l2 ∧ f x = Some e ∧ first_error f l1 = None.
Proof.
  induction l as [|y l IH]; simpl; [done|].
  destruct (f y) eqn:Hy; intros H; simplify_eq.
  - exists [], y, l. by rewrite Hy.
  - destruct (IH H) as (l1 & x & l2 & -> & ? & ?).
    exists (y :: l1), x, l2. simpl. by rewrite Hy.
Qed.

(** ** Boolean list tests and their propositions *)

Lemma forallb_elem {A} (p : A → bool) l :
  forallb p l = true ↔ ∀ x, x ∈ l → p x = true.
Proof.
  rewrite forallb_forall. split; intros H x Hx; apply H; by apply list_elem_of_In.
Qed.

Lemma existsb_elem {A} (p : A → bool) l :
  existsb p l = true ↔ ∃ x, x ∈ l ∧ p x = true.
Proof.
  rewrite existsb_exists. split; intros (x & Hx & Hp); exists x;
    (split; [by apply list_elem_of_In | done]).
Qed.

Lemma existsb_false_elem {A} (p : A → bool) l :
  existsb p l = false ↔ ∀ x, x ∈ l → p x = false.
Proof.
  split.
  - intros H x Hx. destruct (p x) eqn:E; [|done].
    assert (existsb p l = true) by (apply existsb_elem; eauto). congruence.
  - intros H. destruct (existsb p l) eqn:E; [|done].
    apply existsb_elem in E as (x & Hx & Hp). by rewrite H in Hp.
Qed.

Definition mem {A} `{EqDecision A} (x : A) (l : list A) : bool := bool_decide (x ∈ l).

Lemma mem_true {A} `{EqDecision A} (x : A) l : mem x l = true ↔ x ∈ l.
Proof. apply bool_decide_eq_true. Qed.

Lemma mem_false {A} `{EqDecision A} (x : A) l : mem x l = false ↔ x ∉ l.
Proof. apply bool_decide_eq_false. Qed.

#[export] Hint Rewrite @mem_true @mem_false : go.

(** A function that fixes every element fixes the list. *)
Lemma map_id_on {A} (f : A → A) l : (∀ x, x ∈ l → f x = x) → map f l = l.
Proof.
  induction l as [|x l IH]; intros Hl; [done|]. cbn. rewrite Hl by (by left). f_equal. apply IH. intros y Hy. apply Hl. by right.
Qed.
