(* ===== verification/GoStd.v ===== *)
(** * The Go standard library operations the source uses

    Byte and rune level definitions of [strings], [unicode/utf8], [strconv]
    and [sort] as the modelled code calls them.  A Go string is its byte
    sequence; a rune is a [Z].  The Unicode property tables above ASCII
    (letter case, printability, the format and mark categories) are the one
    part that is data rather than code: they are the fields of [Unicode]. *)

From S2P Require Import Prelude.

Open Scope Z_scope.

(** ** Unicode tables, used only for runes of 0x80 and above *)
Class Unicode := {
  uni_lower : Z → Z;          (* unicode.ToLower *)
  uni_upper : Z → Z;          (* unicode.ToUpper *)
  uni_print : Z → bool;       (* strconv.IsPrint *)
  uni_Cf : Z → bool;          (* unicode.In(r, unicode.Cf) *)
  uni_Mn_Me : Z → bool;       (* unicode.In(r, unicode.Mn, unicode.Me) *)
}.

(** Tables with no case pairs and no format characters: what the witnesses
    evaluate with, since every concrete input is ASCII. *)
Definition ascii_tables : Unicode := {|
  uni_lower := λ r, r; uni_upper := λ r, r; uni_print := λ _, true;
  uni_Cf := λ _, false; uni_Mn_Me := λ _, false |}.

(** ** Bytes *)
Definition is_upper_b (c : ascii) : bool := in_range 65 90 (bz c).
Definition is_lower_b (c : ascii) : bool := in_range 97 122 (bz c).
Definition is_digit_b (c : ascii) : bool := in_range 48 57 (bz c).

Definition lower_b (c : ascii) : ascii := if is_upper_b c then zb (bz c + 32) else c.

Fixpoint s_all (p : ascii → bool) (s : string) : bool :=
  match s with EmptyString => true | String c s => p c && s_all p s end.

Definition is_ascii (s : string) : bool := s_all (λ c, bz c <? 128) s.

Fixpoint s_map (f : ascii → ascii) (s : string) : string :=
  match s with EmptyString => EmptyString | String c s => String (f c) (s_map f s) end.

Fixpoint s_take (n : nat) (s : string) : string :=
  match n, s with S n, String c s => String c (s_take n s) | _, _ => EmptyString end.

Fixpoint s_drop (n : nat) (s : string) : string :=
  match n, s with S n, String _ s => s_drop n s | _, _ => s end.

(** [s[i]], when in range. *)
Definition s_get (s : string) (i : nat) : option ascii := String.get i s.

Definition slen (s : string) : Z := Z.of_nat (String.length s).

(** ** [strings.HasPrefix], [CutPrefix], [TrimPrefix], [HasSuffix] *)
Fixpoint cut_prefix (p s : string) : option string :=
  match p, s with
  | EmptyString, _ => Some s
  | String a p, String b s => if Ascii.eqb a b then cut_prefix p s else None
  | String _ _, EmptyString => None
  end.

Definition has_prefix (s p : string) : bool :=
  match cut_prefix p s with Some _ => true | None => false end.

Definition trim_prefix (s p : string) : string := default s (cut_prefix p s).

Fixpoint s_rev_onto (s acc : string) : string :=
  match s with EmptyString => acc | String c s => s_rev_onto s (String c acc) end.

Definition s_rev (s : string) : string := s_rev_onto s EmptyString.

Definition has_suffix (s p : string) : bool := has_prefix (s_rev s) (s_rev p).

(** ** [strings.Contains], [IndexByte], [Count] of one byte *)
Fixpoint contains (s sub : string) : bool :=
  has_prefix s sub ||
  match s with EmptyString => false | String _ s => contains s sub end.

Fixpoint contains_b (c : ascii) (s : string) : bool :=
  match s with EmptyString => false | String d s => Ascii.eqb c d || contains_b c s end.

Fixpoint count_b (c : ascii) (s : string) : Z :=
  match s with
  | EmptyString => 0
  | String d s => (if Ascii.eqb c d then 1 else 0) + count_b c s
  end.

(** ** [strings.Trim], [TrimLeft], [TrimRight] with an ASCII cutset *)
Fixpoint trim_left (cut : ascii → bool) (s : string) : string :=
  match s with
  | EmptyString => EmptyString
  | String c s' => if cut c then trim_left cut s' else s
  end.

Fixpoint trim_right (cut : ascii → bool) (s : string) : string :=
  match s with
  | EmptyString => EmptyString
  | String c s' =>
      match trim_right cut s' with
      | EmptyString => if cut c then EmptyString else String c EmptyString
      | t => String c t
      end
  end.

Definition trim (cut : ascii → bool) (s : string) : string := trim_right cut (trim_left cut s).

Definition cutset (cs : string) (c : ascii) : bool := contains_b c cs.

(** ** [strings.Split] on a one byte separator, [Join], [Cut] *)
Fixpoint split_b (sep : ascii) (s : string) : list string :=
  match s with
  | EmptyString => [EmptyString]
  | String c s =>
      if Ascii.eqb c sep then EmptyString :: split_b sep s
      else match split_b sep s with
           | [] => [String c EmptyString]
           | w :: ws => String c w :: ws
           end
  end.

Fixpoint join (sep : string) (l : list string) : string :=
  match l with
  | [] => EmptyString
  | [x] => x
  | x :: l => (x ++ sep ++ join sep l)%string
  end.

Fixpoint cut_b (sep : ascii) (s : string) : option (string * string) :=
  match s with
  | EmptyString => None
  | String c s =>
      if Ascii.eqb c sep then Some (EmptyString, s)
      else match cut_b sep s with
           | Some (a, b) => Some (String c a, b)
           | None => None
           end
  end.

(** [strings.ReplaceAll] for a non-empty [old]; [skip] counts the bytes of a
    replaced occurrence still to be passed over. *)
Fixpoint replace_all_from (skip : nat) (s old new : string) : string :=
  match s with
  | EmptyString => EmptyString
  | String c s' =>
      match skip with
      | S k => replace_all_from k s' old new
      | O =>
          if has_prefix s old
          then (new ++ replace_all_from (String.length old - 1) s' old new)%string
          else String c (replace_all_from 0 s' old new)
      end
  end.
Definition replace_all (s old new : string) : string := replace_all_from 0 s old new.

(** ** [unicode/utf8] *)
Definition RuneError : Z := 65533.
Definition MaxRune : Z := 1114111.

Definition cont_byte (lo hi : Z) (s : string) (i : nat) : option Z :=
  match String.get i s with
  | Some c => if in_range lo hi (bz c) then Some (bz c) else None
  | None => None
  end.

(** [utf8.DecodeRuneInString]: the rune and its size in bytes, [(RuneError, 1)]
    on an invalid encoding and [(RuneError, 0)] on the empty string. *)
Definition decode_rune (s : string) : Z * nat :=
  match s with
  | EmptyString => (RuneError, 0%nat)
  | String c t =>
      let b := bz c in
      if b <? 128 then (b, 1%nat)
      else if in_range 194 223 b then
        match cont_byte 128 191 t 0 with
        | Some b1 => ((b - 192) * 64 + (b1 - 128), 2%nat)
        | None => (RuneError, 1%nat)
        end
      else if in_range 224 239 b then
        let lo := if b =? 224 then 160 else 128 in
        let hi := if b =? 237 then 159 else 191 in
        match cont_byte lo hi t 0, cont_byte 128 191 t 1 with
        | Some b1, Some b2 => ((b - 224) * 4096 + (b1 - 128) * 64 + (b2 - 128), 3%nat)
        | _, _ => (RuneError, 1%nat)
        end
      else if in_range 240 244 b then
        let lo := if b =? 240 then 144 else 128 in
        let hi := if b =? 244 then 143 else 191 in
        match cont_byte lo hi t 0, cont_byte 128 191 t 1, cont_byte 128 191 t 2 with
        | Some b1, Some b2, Some b3 =>
            ((b - 240) * 262144 + (b1 - 128) * 4096 + (b2 - 128) * 64 + (b3 - 128), 4%nat)
        | _, _, _ => (RuneError, 1%nat)
        end
      else (RuneError, 1%nat)
  end.

Definition valid_rune (r : Z) : bool := in_range 0 55295 r || in_range 57344 1114111 r.

(** [utf8.AppendRune]: an invalid rune is written as U+FFFD. *)
Definition encode_rune (r0 : Z) : string :=
  let r := if valid_rune r0 then r0 else RuneError in
  if r <? 128 then String (zb r) EmptyString
  else if r <? 2048 then
    String (zb (192 + r / 64)) (String (zb (128 + r mod 64)) EmptyString)
  else if r <? 65536 then
    String (zb (224 + r / 4096)) (String (zb (128 + (r / 64) mod 64))
      (String (zb (128 + r mod 64)) EmptyString))
  else
    String (zb (240 + r / 262144)) (String (zb (128 + (r / 4096) mod 64))
      (String (zb (128 + (r / 64) mod 64)) (String (zb (128 + r mod 64)) EmptyString))).

(** The runes of a [for ... range] loop over a string, each with the bytes it
    was decoded from; [skip] counts the bytes of the current rune still to be
    passed over. *)
Fixpoint runes_from (skip : nat) (s : string) : list (Z * string) :=
  match s with
  | EmptyString => []
  | String _ t =>
      match skip with
      | S k => runes_from k t
      | O => let '(r, n) := decode_rune s in (r, s_take n s) :: runes_from (n - 1) t
      end
  end.
Definition runes (s : string) : list (Z * string) := runes_from 0 s.

(** A rune decoded from an invalid byte. *)
Definition bad_rune (p : Z * string) : bool :=
  (fst p =? RuneError) && (String.length (snd p) =? 1)%nat.

(** [utf8.ValidString]. *)
Definition valid_utf8 (s : string) : bool := forallb (λ p, negb (bad_rune p)) (runes s).

Definition concat_str (l : list string) : string := foldr String.append EmptyString l.

(** [utf8.RuneStart]. *)
Definition rune_start (c : ascii) : bool := negb (in_range 128 191 (bz c)).

(** ** [unicode.IsSpace], [strings.TrimSpace], [strings.Fields] *)
Definition is_space (r : Z) : bool :=
  in_range 9 13 r || (r =? 32) || (r =? 133) || (r =? 160) || (r =? 5760) ||
  in_range 8192 8202 r || (r =? 8232) || (r =? 8233) || (r =? 8239) ||
  (r =? 8287) || (r =? 12288).

Fixpoint drop_spaces (l : list (Z * string)) : list (Z * string) :=
  match l with
  | [] => []
  | p :: l' => if is_space (fst p) then drop_spaces l' else l
  end.

Definition trim_space (s : string) : string :=
  concat_str (map snd (rev (drop_spaces (rev (drop_spaces (runes s)))))).

(** [strings.FieldsFunc] on decoded runes. *)
Fixpoint fields_of (sep : Z → bool) (l : list (Z * string)) (cur : string) : list string :=
  match l with
  | [] => if (String.length cur =? 0)%nat then [] else [cur]
  | p :: l =>
      if sep (fst p)
      then (if (String.length cur =? 0)%nat then [] else [cur]) ++ fields_of sep l EmptyString
      else fields_of sep l (cur ++ snd p)%string
  end.
Definition fields_func (sep : Z → bool) (s : string) : list string :=
  fields_of sep (runes s) EmptyString.
Definition fields (s : string) : list string := fields_func is_space s.

(** ** [strings.ToLower], [strings.ToUpper], [strings.Map] *)
Section Case.
Context `{Unicode}.

Definition rune_lower (r : Z) : Z :=
  if r <? 128 then (if in_range 65 90 r then r + 32 else r) else uni_lower r.
Definition rune_upper (r : Z) : Z :=
  if r <? 128 then (if in_range 97 122 r then r - 32 else r) else uni_upper r.

(** [strings.Map]: [None] drops the rune, as a negative result does. *)
Definition map_runes (f : Z → option Z) (s : string) : string :=
  concat_str (map (λ p, match f (fst p) with Some r => encode_rune r | None => EmptyString end)
                  (runes s)).

Definition to_lower (s : string) : string := map_runes (λ r, Some (rune_lower r)) s.
Definition to_upper (s : string) : string := map_runes (λ r, Some (rune_upper r)) s.

(** [strconv.IsPrint]. *)
Definition is_print (r : Z) : bool := if r <? 128 then in_range 32 126 r else uni_print r.
End Case.

(** ** [strconv] *)
Definition itoa (z : Z) : string := pretty z.

Definition hex_digit (z : Z) : ascii := if z <? 10 then zb (48 + z) else zb (87 + z).

(** The low [n] hexadecimal digits of [z], most significant first ("%0nx"). *)
Fixpoint hex_n (n : nat) (z : Z) : string :=
  match n with
  | O => EmptyString
  | S n => String (hex_digit ((z / 16 ^ Z.of_nat n) mod 16)) (hex_n n z)
  end.

Section Quote.
Context `{Unicode}.

Definition backslash : ascii := "092"%char.
Definition dquote : ascii := "034"%char.

(** [strconv.appendEscapedRune] with the double quote. *)
Definition escape_rune (ascii_only : bool) (r : Z) : string :=
  if (r =? 34) || (r =? 92) then String backslash (String (zb r) EmptyString)
  else if (if ascii_only then (r <? 128) && is_print r else is_print r) then encode_rune r
  else if r =? 7 then String backslash "a" else if r =? 8 then String backslash "b"
  else if r =? 12 then String backslash "f" else if r =? 10 then String backslash "n"
  else if r =? 13 then String backslash "r" else if r =? 9 then String backslash "t"
  else if r =? 11 then String backslash "v"
  else if (r <? 32) || (r =? 127) then String backslash (String "x" (hex_n 2 r))
  else if negb (valid_rune r) then String backslash (String "u" (hex_n 4 RuneError))
  else if r <? 65536 then String backslash (String "u" (hex_n 4 r))
  else String backslash (String "U" (hex_n 8 r)).

Definition quote_with (ascii_only : bool) (s : string) : string :=
  String dquote
    (concat_str (map (λ p, if bad_rune p
                           then match snd p with
                                | String c _ => String backslash (String "x" (hex_n 2 (bz c)))
                                | EmptyString => EmptyString
                                end
                           else escape_rune ascii_only (fst p)) (runes s))
     ++ String dquote EmptyString)%string.

Definition quote : string → string := quote_with false.
Definition quote_to_ascii : string → string := quote_with true.
End Quote.

(** [fmt]'s %v of a []string. *)
Definition show_strings (l : list string) : string := ("[" ++ join " " l ++ "]")%string.

(** ** [sort.Strings] *)
Definition str_le (a b : string) : Prop := String.leb a b = true.
#[export] Instance str_le_dec a b : Decision (str_le a b).
Proof. unfold str_le. apply _. Defined.

Definition sort_strings (l : list string) : list string := merge_sort str_le l.

(** [slices.Compact]: drop adjacent repeats. *)
Fixpoint compact (l : list string) : list string :=
  match l with
  | [] => []
  | x :: l' =>
      match compact l' with
      | [] => [x]
      | y :: r => if String.eqb x y then y :: r else x :: y :: r
      end
  end.

(** ** Facts about bytes *)

Lemma bz_range c : 0 <= bz c < 256.
Proof.
  unfold bz. pose proof (N_ascii_bounded c). lia.
Qed.

Lemma zb_bz c : zb (bz c) = c.
Proof. unfold zb, bz. rewrite N2Z.id. apply ascii_N_embedding. Qed.

Lemma bz_zb z : 0 <= z < 256 → bz (zb z) = z.
Proof. intros. unfold zb, bz. rewrite N_ascii_embedding by lia. lia. Qed.

Lemma bz_inj c d : bz c = bz d → c = d.
Proof. intros H. rewrite <- (zb_bz c), <- (zb_bz d). by rewrite H. Qed.

Lemma lower_b_idemp c : lower_b (lower_b c) = lower_b c.
Proof.
  unfold lower_b, is_upper_b, in_range. pose proof (bz_range c).
  destruct ((65 <=? bz c) && (bz c <=? 90)) eqn:E; [|by rewrite E].
  breflect. rewrite bz_zb by lia.
  destruct ((65 <=? bz c + 32) && (bz c + 32 <=? 90)) eqn:E2; [|done].
  breflect. lia.
Qed.

Lemma s_all_app p s t : s_all p (s ++ t)%string = s_all p s && s_all p t.
Proof. induction s as [|c s IH]; simpl; [done|]. by rewrite IH, andb_assoc. Qed.

Lemma s_all_impl (p q : ascii → bool) s :
  (∀ c, p c = true → q c = true) → s_all p s = true → s_all q s = true.
Proof.
  intros Hpq. induction s as [|c s IH]; simpl; [done|].
  intros [Hc Hs]%andb_prop. by rewrite Hpq, IH.
Qed.

Lemma app_nil_r_str s : (s ++ "")%string = s.
Proof. induction s as [|c s IH]; simpl; [done|]. by rewrite IH. Qed.

Lemma app_assoc_str s t u : (s ++ (t ++ u))%string = ((s ++ t) ++ u)%string.
Proof. induction s as [|c s IH]; simpl; [done|]. by rewrite IH. Qed.

Lemma length_app_str s t :
  String.length (s ++ t) = (String.length s + String.length t)%nat.
Proof. induction s as [|c s IH]; simpl; [done|]. by rewrite IH. Qed.

(** ** Facts about prefixes *)

Lemma cut_prefix_Some p s t : cut_prefix p s = Some t ↔ s = (p ++ t)%string.
Proof.
  revert s. induction p as [|a p IH]; intros s; simpl.
  { split; intros; congruence. }
  destruct s as [|b s]; [done|]. destruct (Ascii.eqb a b) eqn:E; breflect.
  - subst. rewrite IH. split; intros; congruence.
  - split; [done|]. intros H. congruence.
Qed.

Lemma has_prefix_spec s p : has_prefix s p = true ↔ ∃ t, s = (p ++ t)%string.
Proof.
  unfold has_prefix. destruct (cut_prefix p s) as [t|] eqn:E.
  - apply cut_prefix_Some in E as ->. split; eauto.
  - split; [done|]. intros [t H]. apply cut_prefix_Some in H. congruence.
Qed.

Lemma has_prefix_app p t : has_prefix (p ++ t)%string p = true.
Proof. apply has_prefix_spec. eauto. Qed.

Lemma cut_prefix_app p t : cut_prefix p (p ++ t)%string = Some t.
Proof. by apply cut_prefix_Some. Qed.

Lemma trim_prefix_app p t : trim_prefix (p ++ t)%string p = t.
Proof. unfold trim_prefix. by rewrite cut_prefix_app. Qed.

Lemma contains_spec s sub :
  contains s sub = true ↔ ∃ a b, s = (a ++ sub ++ b)%string.
Proof.
  split.
  - induction s as [|c s IH]; cbn [contains]; intros H;
      apply orb_true_iff in H as [H|H]; try done.
    + apply has_prefix_spec in H as [t Ht]. by exists EmptyString, t.
    + apply has_prefix_spec in H as [t Ht]. by exists EmptyString, t.
    + destruct (IH H) as (a & b & ->). by exists (String c a), b.
  - intros (a & b & ->). induction a as [|c a IH]; simpl.
    + destruct sub; simpl; [by destruct b|].
      pose proof (has_prefix_app (String a sub) b) as H. simpl in H. by rewrite H.
    + by rewrite IH, orb_true_r.
Qed.

Lemma cut_b_spec sep s :
  match cut_b sep s with
  | Some (a, b) => s = (a ++ String sep b)%string ∧ contains_b sep a = false
  | None => contains_b sep s = false
  end.
Proof.
  induction s as [|c s IH]; [done|]. cbn [cut_b]. destruct (Ascii.eqb_spec c sep) as [->|Hne]; [done|].
  destruct (cut_b sep s) as [ [a b]|].
  - destruct IH as [-> Ha]. split; [done|]. cbn [contains_b]. rewrite Ha. destruct (Ascii.eqb_spec sep c); [congruence|done].
  - cbn [contains_b]. rewrite IH. destruct (Ascii.eqb_spec sep c); [congruence|done].
Qed.

Lemma cut_b_first sep a b : contains_b sep a = false → cut_b sep (a ++ String sep b) = Some (a, b).
Proof.
  induction a as [|c a IH]; [cbn; by rewrite Ascii.eqb_refl|]. cbn [contains_b]. intros [Hc Ha]%orb_false_iff.
  cbn. rewrite Ascii.eqb_sym, Hc, IH; done.
Qed.

Lemma contains_b_all c s : contains_b c s = false ↔ s_all (λ d, negb (Ascii.eqb c d)) s = true.
Proof.
  induction s as [|d s IH]; simpl; [done|].
  destruct (Ascii.eqb c d); simpl; [split; done | apply IH].
Qed.

Lemma s_all_take p n s : s_all p s = true → s_all p (s_take n s) = true.
Proof.
  revert s. induction n as [|n IH]; intros [|c s]; cbn; try done. intros [? ?]%andb_prop.
  apply andb_true_intro. auto.
Qed.

Lemma contains_b_app c s t : contains_b c (s ++ t) = contains_b c s || contains_b c t.
Proof. induction s as [|d s IH]; [done|]. cbn. rewrite IH. by destruct (Ascii.eqb c d). Qed.

Lemma concat_str_app l1 l2 : concat_str (l1 ++ l2) = (concat_str l1 ++ concat_str l2)%string.
Proof. unfold concat_str. induction l1 as [|x l1 IH]; [done|]. cbn [app foldr]. by rewrite IH, app_assoc_str. Qed.

(** ** Facts about [strings.Split] and [Join] *)

Lemma split_b_cons sep s : ∃ w ws, split_b sep s = w :: ws.
Proof.
  destruct s as [|c s]; simpl; [eauto|]. destruct (Ascii.eqb c sep); [eauto|].
  destruct (split_b sep s); eauto.
Qed.

Lemma join_split sep s : join (String sep EmptyString) (split_b sep s) = s.
Proof.
  induction s as [|c s IH]; [done|]. simpl split_b.
  destruct (split_b_cons sep s) as (w & ws & E). rewrite E in IH |- *.
  destruct (Ascii.eqb c sep) eqn:Ec; breflect.
  - subst. simpl. by f_equal.
  - destruct ws; simpl in *; by f_equal.
Qed.

Lemma split_b_nosep sep s w : w ∈ split_b sep s → contains_b sep w = false.
Proof.
  revert w. induction s as [|c s IH]; simpl; intros w Hw.
  { apply list_elem_of_singleton in Hw. by subst. }
  destruct (split_b_cons sep s) as (v & vs & E). rewrite E in IH, Hw.
  destruct (Ascii.eqb c sep) eqn:Ec; breflect.
  - apply elem_of_cons in Hw as [->|Hw]; [done|]. by apply IH.
  - apply elem_of_cons in Hw as [->|Hw].
    + simpl. rewrite IH by set_solver. destruct (Ascii.eqb sep c) eqn:E2; breflect; [congruence|done].
    + apply IH. set_solver.
Qed.

Lemma split_b_app_sep sep a b : split_b sep (a ++ String sep b)%string = split_b sep a ++ split_b sep b.
Proof.
  induction a as [|c a IH]; cbn [String.append split_b]; [by rewrite Ascii.eqb_refl|]. rewrite IH.
  destruct (Ascii.eqb c sep); [done|]. by destruct (split_b_cons sep a) as (w & ws & ->).
Qed.

Lemma split_b_none sep s : contains_b sep s = false → split_b sep s = [s].
Proof.
  induction s as [|c s IH]; [done|]. cbn. rewrite Ascii.eqb_sym. destruct (Ascii.eqb c sep); [done|].
  intros Hs. by rewrite (IH Hs).
Qed.

Lemma split_join sep l :
  l ≠ [] → (∀ x, x ∈ l → contains_b sep x = false) → split_b sep (join (String sep EmptyString) l) = l.
Proof.
  induction l as [|x [|y l] IH]; intros Hl Hc; [done| |].
  - cbn. apply split_b_none, Hc. by left.
  - change (join (String sep EmptyString) (x :: y :: l)) with
      (x ++ String sep (join (String sep EmptyString) (y :: l)))%string.
    rewrite split_b_app_sep, (split_b_none _ x) by (apply Hc; by left).
    rewrite IH; [done..|]. intros z Hz. apply Hc. by right.
Qed.

(** ** Facts about [sort.Strings] *)

Lemma str_le_total a b : str_le a b ∨ str_le b a.
Proof.
  unfold str_le, String.leb. rewrite (String.compare_antisym a b).
  destruct (String.compare b a); simpl; auto.
Qed.
#[export] Instance str_le_Total : Total str_le := str_le_total.

Lemma itoa_inj a b : itoa a = itoa b → a = b.
Proof. apply (inj pretty). Qed.

Lemma sort_strings_perm l : sort_strings l ≡ₚ l.
Proof. apply merge_sort_Permutation. Qed.

Lemma sort_strings_sorted l : Sorted str_le (sort_strings l).
Proof. apply Sorted_merge_sort. apply _. Qed.

Lemma elem_of_sort_strings x l : x ∈ sort_strings l ↔ x ∈ l.
Proof. by rewrite sort_strings_perm. Qed.

Lemma sort_strings_nil l : sort_strings l = [] ↔ l = [].
Proof.
  split; [|by intros ->]. intros H. pose proof (sort_strings_perm l) as Hp.
  rewrite H in Hp. by apply Permutation_nil in Hp.
Qed.

(** ** Facts about ASCII strings *)

Definition chars (s : string) : list ascii := String.list_ascii_of_string s.

Lemma decode_rune_ascii c s : bz c < 128 → decode_rune (String c s) = (bz c, 1%nat).
Proof. intros H. unfold decode_rune. by destruct (Z.ltb_spec (bz c) 128); [|lia]. Qed.

Lemma runes_cons_ascii c s :
  bz c < 128 → runes (String c s) = (bz c, String c EmptyString) :: runes s.
Proof.
  intros H. unfold runes. cbn [runes_from]. rewrite decode_rune_ascii by done. done.
Qed.

Lemma runes_ascii s :
  is_ascii s = true → runes s = map (λ c, (bz c, String c EmptyString)) (chars s).
Proof.
  induction s as [|c s IH]; simpl; [done|].
  intros [Hc Hs]%andb_prop. breflect. rewrite runes_cons_ascii by done. by rewrite IH.
Qed.

Lemma concat_chars s : concat_str (map (λ c, String c EmptyString) (chars s)) = s.
Proof. induction s as [|c s IH]; simpl; [done|]. by f_equal. Qed.

Lemma encode_rune_ascii r : 0 <= r < 128 → encode_rune r = String (zb r) EmptyString.
Proof.
  intros H. unfold encode_rune, valid_rune, in_range.
  destruct (Z.leb_spec 0 r), (Z.leb_spec r 55295); try lia. simpl.
  destruct (Z.ltb_spec r 128); [done|lia].
Qed.

Lemma to_lower_ascii `{Unicode} s : is_ascii s = true → to_lower s = s_map lower_b s.
Proof.
  unfold to_lower, map_runes. induction s as [|c s IH]; [done|].
  intros [Hc Hs]%andb_prop. cbn [s_map]. rewrite runes_cons_ascii by (by apply Z.ltb_lt).
  cbn [map concat_str foldr]. rewrite <- IH by done.
  apply Z.ltb_lt in Hc. pose proof (bz_range c).
  unfold rune_lower, lower_b, is_upper_b. cbn [fst].
  destruct (Z.ltb_spec (bz c) 128); [|lia].
  destruct (in_range 65 90 (bz c)) eqn:E; simpl.
  - unfold in_range in E. breflect. rewrite encode_rune_ascii by lia. done.
  - rewrite encode_rune_ascii by lia. by rewrite zb_bz.
Qed.

Lemma s_map_is_ascii f s :
  (∀ c, bz c < 128 → bz (f c) < 128) → is_ascii s = true → is_ascii (s_map f s) = true.
Proof.
  intros Hf. unfold is_ascii. induction s as [|c s IH]; simpl; [done|].
  intros [Hc Hs]%andb_prop. rewrite IH, andb_true_r by done.
  apply Z.ltb_lt, Hf. by apply Z.ltb_lt.
Qed.

Lemma lower_b_is_ascii c : bz c < 128 → bz (lower_b c) < 128.
Proof.
  intros H. unfold lower_b, is_upper_b, in_range. pose proof (bz_range c).
  destruct ((65 <=? bz c) && (bz c <=? 90)) eqn:E; [|done]. breflect.
  rewrite bz_zb; lia.
Qed.

(** ** Facts about [strings.Fields] *)

Lemma s_length_zero s : (String.length s =? 0)%nat = true ↔ s = EmptyString.
Proof. by destruct s. Qed.

(** On ASCII text every field is non-empty and holds no separator. *)
Lemma fields_of_ascii sep (l : list ascii) cur w :
  s_all (λ c, negb (sep (bz c))) cur = true →
  w ∈ fields_of sep (map (λ c, (bz c, String c EmptyString)) l) cur →
  w ≠ EmptyString ∧ s_all (λ c, negb (sep (bz c))) w = true.
Proof.
  revert cur. induction l as [|c l IH]; intros cur Hcur Hw; simpl in Hw.
  - destruct (String.length cur =? 0)%nat eqn:E.
    { by apply not_elem_of_nil in Hw. }
    apply list_elem_of_singleton in Hw as ->. split; [|done].
    intros ->. done.
  - destruct (sep (bz c)) eqn:Es.
    + apply elem_of_app in Hw as [Hw|Hw].
      * destruct (String.length cur =? 0)%nat eqn:E; [by apply not_elem_of_nil in Hw|].
        apply list_elem_of_singleton in Hw as ->. split; [|done]. by intros ->.
      * by apply (IH EmptyString).
    + eapply IH; [|done]. rewrite s_all_app, Hcur. simpl. by rewrite Es.
Qed.

Lemma fields_ascii s w :
  is_ascii s = true → w ∈ fields s →
  w ≠ EmptyString ∧ s_all (λ c, negb (is_space (bz c))) w = true.
Proof.
  unfold fields, fields_func. intros Hs. rewrite runes_ascii by done.
  by apply fields_of_ascii.
Qed.

Lemma s_map_app f s t : s_map f (s ++ t)%string = (s_map f s ++ s_map f t)%string.
Proof. induction s as [|c s IH]; simpl; [done|]. by rewrite IH. Qed.

Lemma s_map_length f s : String.length (s_map f s) = String.length s.
Proof. induction s as [|c s IH]; simpl; [done|]. by rewrite IH. Qed.

Lemma s_map_idemp f s : (∀ c, f (f c) = f c) → s_map f (s_map f s) = s_map f s.
Proof. intros Hf. induction s as [|c s IH]; simpl; [done|]. by rewrite Hf, IH. Qed.

Lemma trim_left_map f cut s :
  (∀ c, cut (f c) = cut c) → trim_left cut (s_map f s) = s_map f (trim_left cut s).
Proof.
  intros Hf. induction s as [|c s IH]; simpl; [done|]. rewrite Hf. by destruct (cut c).
Qed.

Lemma trim_right_map f cut s :
  (∀ c, cut (f c) = cut c) → trim_right cut (s_map f s) = s_map f (trim_right cut s).
Proof.
  intros Hf. induction s as [|c s IH]; simpl; [done|]. rewrite IH.
  destruct (trim_right cut s); simpl; [|done]. rewrite Hf. by destruct (cut c).
Qed.

Lemma trim_map f cut s :
  (∀ c, cut (f c) = cut c) → trim cut (s_map f s) = s_map f (trim cut s).
Proof. intros Hf. unfold trim. by rewrite trim_left_map, trim_right_map. Qed.

(** ** Facts about UTF-8 *)

Lemma runes_from_drop k s : runes_from k s = runes (s_drop k s).
Proof.
  revert k. induction s as [|c s IH]; intros [|k]; try done. simpl. by rewrite IH.
Qed.

Lemma decode_rune_size s r n :
  decode_rune s = (r, n) → s ≠ EmptyString → (1 <= n <= String.length s)%nat.
Proof.
  destruct s as [|c t]; [done|]. unfold decode_rune, cont_byte. intros Hd _.
  destruct t as [|c1 [|c2 [|c3 t]]]; simpl in Hd |- *; repeat case_match; simplify_eq; lia.
Qed.

Lemma runes_cons c t :
  runes (String c t) =
  (let '(r, n) := decode_rune (String c t) in
   (r, s_take n (String c t)) :: runes (s_drop n (String c t))).
Proof.
  unfold runes at 1. cbn [runes_from].
  destruct (decode_rune (String c t)) as [r n] eqn:E.
  apply decode_rune_size in E; [|done]. f_equal.
  destruct n as [|n]; [lia|]. cbn [s_drop]. rewrite runes_from_drop. f_equal. f_equal. lia.
Qed.

Lemma take_drop_str n s : (s_take n s ++ s_drop n s)%string = s.
Proof.
  revert s. induction n as [|n IH]; intros [|c s]; try done. simpl. by rewrite IH.
Qed.

Lemma s_drop_length n s : String.length (s_drop n s) = (String.length s - n)%nat.
Proof. revert s. induction n as [|n IH]; intros [|c s]; simpl; auto. Qed.

(** Induction over the runes of a string. *)
Lemma runes_ind (P : string → Prop) :
  P EmptyString →
  (∀ c t r n, decode_rune (String c t) = (r, n) → P (s_drop n (String c t)) → P (String c t)) →
  ∀ s, P s.
Proof.
  intros H0 Hs s. remember (String.length s) as k eqn:Hk. revert s Hk.
  induction (lt_wf k) as [k _ IH]. intros [|c t] Hk; [done|].
  destruct (decode_rune (String c t)) as [r n] eqn:E. eapply Hs; [done|].
  apply decode_rune_size in E; [|done].
  eapply IH; [|done]. rewrite s_drop_length. simpl in *. lia.
Qed.

Lemma runes_concat s : concat_str (map snd (runes s)) = s.
Proof.
  induction s as [|c t r n E IH] using runes_ind; [done|].
  rewrite runes_cons, E. cbn [map concat_str foldr snd].
  fold (concat_str (map snd (runes (s_drop n (String c t))))). rewrite IH.
  apply take_drop_str.
Qed.

(** Trimming adds no byte. *)
Lemma drop_spaces_suffix l : ∃ l', l = l' ++ drop_spaces l.
Proof.
  induction l as [|p l [l' E]]; [by exists []|]. cbn. destruct (is_space (fst p)); [|by exists []].
  exists (p :: l'). by rewrite E at 1.
Qed.

Lemma trim_space_no c s : contains_b c s = false → contains_b c (trim_space s) = false.
Proof.
  intros Hs. rewrite <- (runes_concat s) in Hs. unfold trim_space.
  destruct (drop_spaces_suffix (runes s)) as [l1 E1].
  destruct (drop_spaces_suffix (rev (drop_spaces (runes s)))) as [l2 E2].
  apply (f_equal (@rev _)) in E2. rewrite rev_involutive, rev_app_distr in E2.
  rewrite E1, E2, !map_app, !concat_str_app, !contains_b_app in Hs.
  apply orb_false_elim in Hs as [_ [? _]%orb_false_elim]. done.
Qed.

(** A decoded rune re-encodes to the bytes it came from, and a rune above
    ASCII comes from bytes above ASCII. *)
Definition good_piece (p : Z * string) : Prop :=
  encode_rune (fst p) = snd p ∧
  (fst p < 128 → 0 <= fst p ∧ snd p = String (zb (fst p)) EmptyString) ∧
  (128 <= fst p → s_all (λ c, 128 <=? bz c) (snd p) = true).

Lemma valid_rune_intro r : 0 <= r <= 55295 ∨ 57344 <= r <= 1114111 → valid_rune r = true.
Proof.
  intros Hr. unfold valid_rune, in_range. apply orb_true_iff.
  destruct Hr; [left|right]; apply andb_true_iff; split; apply Z.leb_le; lia.
Qed.

Lemma encode_rune_2 a b :
  194 <= a <= 223 → 128 <= b <= 191 →
  encode_rune ((a - 192) * 64 + (b - 128)) = String (zb a) (String (zb b) EmptyString).
Proof.
  intros Ha Hb. unfold encode_rune. rewrite valid_rune_intro by lia.
  destruct (Z.ltb_spec ((a - 192) * 64 + (b - 128)) 128); [lia|].
  destruct (Z.ltb_spec ((a - 192) * 64 + (b - 128)) 2048); [|lia].
  repeat f_equal; Z.to_euclidean_division_equations; lia.
Qed.

Lemma encode_rune_3 a b c :
  224 <= a <= 239 → 128 <= b <= 191 → 128 <= c <= 191 →
  (a = 224 → 160 <= b) → (a = 237 → b <= 159) →
  encode_rune ((a - 224) * 4096 + (b - 128) * 64 + (c - 128)) =
  String (zb a) (String (zb b) (String (zb c) EmptyString)).
Proof.
  intros Ha Hb Hc H1 H2. unfold encode_rune. rewrite valid_rune_intro by lia.
  set (r := (a - 224) * 4096 + (b - 128) * 64 + (c - 128)).
  destruct (Z.ltb_spec r 128); [lia|]. destruct (Z.ltb_spec r 2048); [lia|].
  destruct (Z.ltb_spec r 65536); [|lia].
  unfold r; repeat f_equal; Z.to_euclidean_division_equations; lia.
Qed.

Lemma encode_rune_4 a b c d :
  240 <= a <= 244 → 128 <= b <= 191 → 128 <= c <= 191 → 128 <= d <= 191 →
  (a = 240 → 144 <= b) → (a = 244 → b <= 143) →
  encode_rune ((a - 240) * 262144 + (b - 128) * 4096 + (c - 128) * 64 + (d - 128)) =
  String (zb a) (String (zb b) (String (zb c) (String (zb d) EmptyString))).
Proof.
  intros Ha Hb Hc Hd H1 H2. unfold encode_rune. rewrite valid_rune_intro by lia.
  set (r := (a - 240) * 262144 + (b - 128) * 4096 + (c - 128) * 64 + (d - 128)).
  destruct (Z.ltb_spec r 128); [lia|]. destruct (Z.ltb_spec r 2048); [lia|].
  destruct (Z.ltb_spec r 65536); [lia|].
  unfold r; repeat f_equal; Z.to_euclidean_division_equations; lia.
Qed.

Lemma cont_byte_Some lo hi t i b :
  cont_byte lo hi t i = Some b → ∃ d, String.get i t = Some d ∧ b = bz d ∧ lo <= b <= hi.
Proof.
  unfold cont_byte, in_range. destruct (String.get i t) as [d|]; [|done].
  destruct ((lo <=? bz d) && (bz d <=? hi)) eqn:E; [|done].
  intros [= <-]. breflect. by exists d.
Qed.

(** Closes the three parts of [good_piece] for a multi-byte sequence. *)
Ltac multi_byte :=
  split; [done|]; split; [intros; exfalso; lia|];
  intros _; simpl; rewrite !andb_true_iff; repeat split; apply Z.leb_le; lia.

Lemma decode_rune_good c t r n :
  decode_rune (String c t) = (r, n) → bad_rune (r, s_take n (String c t)) = false →
  good_piece (r, s_take n (String c t)).
Proof.
  unfold decode_rune. pose proof (bz_range c). intros Hd Hbad.
  assert (Hb1 : ¬ (r = RuneError ∧ n = 1%nat)) by (intros [-> ->]; done). clear Hbad.
  unfold good_piece. cbn [fst snd].
  destruct (Z.ltb_spec (bz c) 128).
  { simplify_eq. rewrite encode_rune_ascii, zb_bz by lia. cbn [s_take].
    split; [done|]. split; [intros _; split; [lia|done] | lia]. }
  destruct (in_range 194 223 (bz c)) eqn:E2; [|destruct (in_range 224 239 (bz c)) eqn:E3;
    [|destruct (in_range 240 244 (bz c)) eqn:E4; [|exfalso; naive_solver]]];
    repeat match type of Hd with context [cont_byte ?lo ?hi t ?i] =>
      let b := fresh "b" in let d := fresh "d" in let C := fresh "C" in let G := fresh "G" in
      destruct (cont_byte lo hi t i) as [b|] eqn:C; [|exfalso; naive_solver];
      apply cont_byte_Some in C as (d & G & -> & ?)
    end; unfold in_range in *; breflect; simplify_eq.
  - destruct t as [|x1 t]; [done|]. cbn [String.get] in *. simplify_eq. cbn [s_take].
    rewrite encode_rune_2, !zb_bz by lia. multi_byte.
  - destruct t as [|x1 [|x2 t]]; [done..|]. cbn [String.get] in *. simplify_eq. cbn [s_take].
    destruct (Z.eqb_spec (bz c) 224), (Z.eqb_spec (bz c) 237);
    (rewrite encode_rune_3, !zb_bz by lia; multi_byte).
  - destruct t as [|x1 [|x2 [|x3 t]]]; [done..|]. cbn [String.get] in *. simplify_eq.
    cbn [s_take].
    destruct (Z.eqb_spec (bz c) 240), (Z.eqb_spec (bz c) 244);
    (rewrite encode_rune_4, !zb_bz by lia; multi_byte).
Qed.

Lemma runes_good s p : p ∈ runes s → bad_rune p = false → good_piece p.
Proof.
  induction s as [|c t r n E IH] using runes_ind; [by intros ?%not_elem_of_nil|].
  rewrite runes_cons, E. intros [->|Hp]%elem_of_cons Hb; [by apply decode_rune_good | auto].
Qed.

Lemma valid_utf8_spec s : valid_utf8 s = true ↔ ∀ p, p ∈ runes s → bad_rune p = false.
Proof.
  unfold valid_utf8. rewrite forallb_elem.
  split; intros Hp p Hin; specialize (Hp p Hin); by apply negb_true_iff.
Qed.

Lemma ascii_valid_utf8 s : is_ascii s = true → valid_utf8 s = true.
Proof.
  intros Hs. apply valid_utf8_spec. rewrite runes_ascii by done. unfold is_ascii in Hs.
  intros p (c & -> & Hc)%list_elem_of_fmap. unfold bad_rune. cbn [fst snd].
  assert (bz c < 128).
  { clear -Hs Hc. induction s as [|d s IH]; simpl in *; [by apply not_elem_of_nil in Hc|].
    apply andb_prop in Hs as [Hd Hs]. apply elem_of_cons in Hc as [->|Hc]; [by apply Z.ltb_lt|auto]. }
  destruct (Z.eqb_spec (bz c) RuneError); [unfold RuneError in *; lia | done].
Qed.

(** *** Concatenation *)

Lemma cont_byte_app lo hi t u i b :
  cont_byte lo hi t i = Some b → cont_byte lo hi (t ++ u) i = Some b.
Proof.
  unfold cont_byte. destruct (String.get i t) as [d|] eqn:E; [|done].
  assert (String.get i (t ++ u) = Some d) as ->; [|done].
  revert i E. induction t as [|x t IH]; intros [|i] E; cbn in *; auto; done.
Qed.

(** A complete rune decodes the same whatever follows it. *)
Lemma decode_rune_app c t u r n :
  decode_rune (String c t) = (r, n) → bad_rune (r, s_take n (String c t)) = false →
  decode_rune (String c (t ++ u)) = (r, n).
Proof.
  unfold decode_rune. intros Hd Hbad.
  assert (Hb1 : (r, n) ≠ (RuneError, 1%nat)) by (intros [= -> ->]; done). clear Hbad.
  destruct (bz c <? 128); [done|].
  destruct (in_range 194 223 (bz c)); [|destruct (in_range 224 239 (bz c));
    [|destruct (in_range 240 244 (bz c)); [|by destruct Hb1]]];
    repeat match type of Hd with context [cont_byte ?lo ?hi t ?i] =>
      let C := fresh "C" in
      destruct (cont_byte lo hi t i) eqn:C; [|by destruct Hb1];
      apply (cont_byte_app _ _ _ u) in C; rewrite C
    end; done.
Qed.

Lemma s_take_app n s u : (n <= String.length s)%nat → s_take n (s ++ u) = s_take n s.
Proof.
  revert n. induction s as [|c s IH]; intros [|n] Hn; cbn in *; try done; [lia|].
  by rewrite IH by lia.
Qed.

Lemma s_drop_app n s u : (n <= String.length s)%nat → s_drop n (s ++ u) = (s_drop n s ++ u)%string.
Proof.
  revert n. induction s as [|c s IH]; intros [|n] Hn; cbn in *; try done; [lia|].
  by rewrite IH by lia.
Qed.

Lemma runes_app a b : valid_utf8 a = true → runes (a ++ b) = runes a ++ runes b.
Proof.
  rewrite valid_utf8_spec. induction a as [|c t r n E IH] using runes_ind; [done|].
  intros Hv. change (String c t ++ b)%string with (String c (t ++ b)). rewrite !runes_cons, E.
  rewrite runes_cons, E in Hv.
  pose proof (decode_rune_size _ _ _ E) as Hn. specialize (Hn ltac:(done)).
  rewrite (decode_rune_app c t b r n) by (done || (apply Hv; by left)).
  change (String c (t ++ b)) with (String c t ++ b)%string.
  rewrite s_take_app, s_drop_app by lia. cbn [app]. f_equal. apply IH.
  intros p Hp. apply Hv. by right.
Qed.

Lemma valid_utf8_app a b : valid_utf8 a = true → valid_utf8 b = true → valid_utf8 (a ++ b) = true.
Proof.
  intros Ha Hb. unfold valid_utf8. rewrite runes_app by done. rewrite forallb_app.
  fold (valid_utf8 a) (valid_utf8 b). by rewrite Ha, Hb.
Qed.

Lemma valid_utf8_join sep l :
  valid_utf8 sep = true → (∀ x, x ∈ l → valid_utf8 x = true) → valid_utf8 (join sep l) = true.
Proof.
  intros Hs. induction l as [|x l IH]; intros Hl; [done|]. destruct l as [|y l].
  - apply Hl. by left.
  - change (join sep (x :: y :: l)) with (x ++ sep ++ join sep (y :: l))%string.
    apply valid_utf8_app; [apply Hl; by left|]. apply valid_utf8_app; [done|].
    apply IH. intros z Hz. apply Hl. by right.
Qed.

(** A valid text between two ASCII bytes that are not spaces is trimmed
    already. *)
Lemma trim_space_id c m d :
  bz c < 128 → bz d < 128 → is_space (bz c) = false → is_space (bz d) = false →
  valid_utf8 m = true →
  trim_space (String c (m ++ String d EmptyString)) = String c (m ++ String d EmptyString).
Proof.
  intros Hc Hd Hsc Hsd Hm. unfold trim_space.
  assert (Hr : runes (String c (m ++ String d EmptyString)) =
    (bz c, String c EmptyString) :: runes m ++ [(bz d, String d EmptyString)]).
  { rewrite runes_cons_ascii by done. f_equal. rewrite runes_app by done. f_equal.
    by rewrite runes_cons_ascii by done. }
  rewrite Hr. cbn [drop_spaces fst]. rewrite Hsc. cbn [rev]. rewrite rev_app_distr. cbn [rev app drop_spaces fst].
  rewrite Hsd.
  replace (rev ((bz d, String d EmptyString) :: rev (runes m) ++ [(bz c, String c EmptyString)]))
    with (runes (String c (m ++ String d EmptyString))); [apply runes_concat|].
  rewrite Hr. cbn [rev]. rewrite rev_app_distr, rev_involutive. done.
Qed.

(** A complete rune decodes the same without what follows it. *)
Lemma decode_rune_take c t r n :
  decode_rune (String c t) = (r, n) → bad_rune (r, s_take n (String c t)) = false →
  decode_rune (s_take n (String c t)) = (r, n).
Proof.
  unfold decode_rune. intros Hd Hbad.
  assert (Hb1 : (r, n) ≠ (RuneError, 1%nat)) by (intros [= -> ->]; done). clear Hbad.
  destruct (bz c <? 128) eqn:E1; [simplify_eq; cbn [s_take]; by rewrite E1|].
  destruct (in_range 194 223 (bz c)) eqn:E2; [|destruct (in_range 224 239 (bz c)) eqn:E3;
    [|destruct (in_range 240 244 (bz c)) eqn:E4; [|by destruct Hb1]]];
    repeat match type of Hd with context [cont_byte ?lo ?hi t ?i] =>
      let C := fresh "C" in
      destruct (cont_byte lo hi t i) eqn:C; [|by destruct Hb1]
    end; simplify_eq; unfold cont_byte in *;
    destruct t as [|x1 [|x2 [|x3 t]]]; cbn [String.get s_take] in *; try done;
    rewrite E1, E2, ?E3, ?E4; repeat match goal with H : (if _ then _ else _) = Some _ |- _ => rewrite H; clear H end; done.
Qed.

Lemma s_take_length n s : (n <= String.length s)%nat → String.length (s_take n s) = n.
Proof.
  revert n. induction s as [|x s IH]; intros [|n] Hn; cbn in *; try lia. by rewrite IH by lia.
Qed.

Lemma runes_piece s p : p ∈ runes s → bad_rune p = false → runes (snd p) = [p].
Proof.
  induction s as [|c t r n E IH] using runes_ind; [by intros ?%not_elem_of_nil|].
  rewrite runes_cons, E. intros [->|Hp]%elem_of_cons Hb; [|auto]. cbn [snd].
  pose proof (decode_rune_take c t r n E Hb) as Ht.
  pose proof (decode_rune_size _ _ _ E ltac:(done)) as Hn.
  destruct (s_take n (String c t)) as [|d u] eqn:Eu; [destruct n; [lia|done]|].
  rewrite runes_cons, Ht.
  assert (Hlen : String.length (String d u) = n).
  { rewrite <- Eu. apply s_take_length. lia. }
  assert (s_take n (String d u) = String d u ∧ s_drop n (String d u) = EmptyString) as [-> ->]; [|done].
  rewrite <- Hlen. generalize (String d u). clear. induction s as [|x s [IH1 IH2]]; [done|].
  cbn. by rewrite IH1, IH2.
Qed.

Lemma valid_utf8_piece s p : p ∈ runes s → bad_rune p = false → valid_utf8 (snd p) = true.
Proof.
  intros Hp Hb. apply valid_utf8_spec. rewrite (runes_piece s p Hp Hb).
  intros q ->%list_elem_of_singleton. done.
Qed.

Lemma valid_utf8_concat l : (∀ x, x ∈ l → valid_utf8 x = true) → valid_utf8 (concat_str l) = true.
Proof.
  induction l as [|x l IH]; intros Hl; [done|]. cbn [concat_str foldr].
  apply valid_utf8_app; [apply Hl; by left|]. apply IH. intros y Hy. apply Hl. by right.
Qed.

(** A byte that is not a continuation byte starts a new rune. *)
Lemma decode_rune_start c t d u :
  rune_start d = true → decode_rune (String c (t ++ String d u)) = decode_rune (String c t).
Proof.
  intros Hd. unfold rune_start in Hd. apply negb_true_iff in Hd.
  assert (Hr : ∀ lo hi, 128 <= lo → hi <= 191 → in_range lo hi (bz d) = false).
  { intros lo hi Hlo Hhi. unfold in_range in *. apply andb_false_iff in Hd as [Hd|Hd]; breflect;
      apply andb_false_iff; [left|right]; apply Z.leb_gt; lia. }
  assert (Hlo : 128 <= (if bz c =? 224 then 160 else 128)) by (clear; destruct (bz c =? 224); lia).
  assert (Hhi : (if bz c =? 237 then 159 else 191) <= 191) by (clear; destruct (bz c =? 237); lia).
  assert (Hlo4 : 128 <= (if bz c =? 240 then 144 else 128)) by (clear; destruct (bz c =? 240); lia).
  assert (Hhi4 : (if bz c =? 244 then 143 else 191) <= 191) by (clear; destruct (bz c =? 244); lia).
  unfold decode_rune, cont_byte.
  destruct (bz c <? 128); [done|]. destruct (in_range 194 223 (bz c)).
  { destruct t as [|x1 t]; cbn [String.append String.get]; [|done]. by rewrite (Hr 128 191) by done. }
  destruct (in_range 224 239 (bz c)).
  { destruct t as [|x1 [|x2 t]]; cbn [String.append String.get]; [| |done].
    - cbv zeta. by rewrite (Hr _ _ Hlo Hhi).
    - by rewrite (Hr 128 191) by done. }
  destruct (in_range 240 244 (bz c)); [|done].
  destruct t as [|x1 [|x2 [|x3 t]]]; cbn [String.append String.get]; [| | |done].
  - cbv zeta. by rewrite (Hr _ _ Hlo4 Hhi4).
  - by rewrite (Hr 128 191) by done.
  - by rewrite (Hr 128 191) by done.
Qed.

Lemma runes_app_start a d u :
  rune_start d = true → runes (a ++ String d u) = runes a ++ runes (String d u).
Proof.
  intros Hd. induction a as [|c t r n E IH] using runes_ind; [done|].
  change (String c t ++ String d u)%string with (String c (t ++ String d u)).
  rewrite !(runes_cons c), decode_rune_start, E by done.
  pose proof (decode_rune_size _ _ _ E ltac:(done)) as Hn.
  change (String c (t ++ String d u)) with (String c t ++ String d u)%string.
  rewrite s_take_app, s_drop_app by lia. cbn [app]. f_equal. apply IH.
Qed.

Lemma elem_of_compact x l : x ∈ compact l ↔ x ∈ l.
Proof.
  induction l as [|y l IH]; [done|]. cbn [compact]. rewrite elem_of_cons, <- IH.
  destruct (compact l) as [|z r]; [rewrite list_elem_of_singleton, elem_of_nil; naive_solver|].
  destruct (String.eqb_spec y z) as [->|]; rewrite !elem_of_cons; naive_solver.
Qed.

(** Two equal texts with ends of one length split at the same place. *)
Lemma app_same_length a b p q :
  (a ++ p)%string = (b ++ q)%string → String.length p = String.length q → a = b.
Proof.
  revert b. induction a as [|c a IH]; intros [|d b] E Hl; cbn in E; [done| | |].
  - subst p. cbn in Hl. rewrite length_app_str in Hl. lia.
  - subst q. cbn in Hl. rewrite length_app_str in Hl. lia.
  - injection E as -> E. f_equal. by apply IH.
Qed.

Lemma runes_nonempty s p : p ∈ runes s → (1 <= String.length (snd p))%nat.
Proof.
  induction s as [|c t r n E IH] using runes_ind; [by intros ?%not_elem_of_nil|]. rewrite runes_cons, E.
  intros [->|Hp]%elem_of_cons; [|by apply IH]. apply decode_rune_size in E as [Hn _]; [|done].
  destruct n as [|n]; [lia|]. cbn. lia.
Qed.

(** ** Printable ASCII *)

Definition printable (s : string) : bool := s_all (λ c, in_range 32 126 (bz c)) s.

Lemma printable_app a b : printable (a ++ b) = printable a && printable b.
Proof. apply s_all_app. Qed.

Lemma printable_valid s : printable s = true → valid_utf8 s = true.
Proof.
  intros Hs. apply ascii_valid_utf8. eapply s_all_impl; [|exact Hs].
  intros c. unfold in_range. intros Hc. breflect. apply Z.ltb_lt. lia.
Qed.

Lemma hex_digit_printable d : 0 <= d < 16 → in_range 32 126 (bz (hex_digit d)) = true.
Proof.
  intros Hd. unfold hex_digit, in_range. destruct (Z.ltb_spec d 10); rewrite bz_zb by lia; apply andb_true_iff; rewrite !Z.leb_le; lia.
Qed.

Lemma hex_n_printable n z : printable (hex_n n z) = true.
Proof.
  induction n as [|n IH]; [done|]. unfold printable in *. cbn [hex_n s_all]. rewrite IH, andb_true_r.
  apply hex_digit_printable, Z.mod_pos_bound. lia.
Qed.

(** A decoded rune is not negative. *)
Lemma runes_pos s p : p ∈ runes s → 0 <= fst p.
Proof.
  intros Hp. destruct (bad_rune p) eqn:Hb.
  - unfold bad_rune in Hb. apply andb_prop in Hb as [Hb _]. apply Z.eqb_eq in Hb. rewrite Hb. unfold RuneError. lia.
  - destruct (runes_good s p Hp Hb) as (_ & Hlow & _). destruct (Z.lt_ge_cases (fst p) 128) as [Hl|Hl]; [by apply Hlow|lia].
Qed.

(** ** Encoding a rune and decoding it *)

Lemma decode_encode_2 r : 128 <= r < 2048 →
  decode_rune (String (zb (192 + r / 64)) (String (zb (128 + r mod 64)) EmptyString)) = (r, 2%nat).
Proof.
  intros Hr. pose proof (Z.div_mod r 64 ltac:(lia)). pose proof (Z.mod_pos_bound r 64 ltac:(lia)).
  assert (2 <= r / 64 < 32) by (split; [apply Z.div_le_lower_bound|apply Z.div_lt_upper_bound]; lia).
  unfold decode_rune, cont_byte. cbn [String.get]. rewrite !bz_zb by lia.
  repeat match goal with |- context [?a <? ?b] => destruct (Z.ltb_spec a b); [lia|] end.
  assert (in_range 194 223 (192 + r / 64) = true) as -> by (unfold in_range; apply andb_true_iff; rewrite !Z.leb_le; lia).
  assert (in_range 128 191 (128 + r mod 64) = true) as -> by (unfold in_range; apply andb_true_iff; rewrite !Z.leb_le; lia).
  f_equal. lia.
Qed.

Lemma in_range_true lo hi z : lo <= z <= hi → in_range lo hi z = true.
Proof. intros Hz. unfold in_range. apply andb_true_iff. rewrite !Z.leb_le. lia. Qed.

Lemma in_range_false lo hi z : z < lo ∨ hi < z → in_range lo hi z = false.
Proof. intros Hz. unfold in_range. apply andb_false_iff. rewrite !Z.leb_gt. lia. Qed.

Lemma decode_encode_3 r : 2048 <= r < 65536 → valid_rune r = true →
  decode_rune (String (zb (224 + r / 4096)) (String (zb (128 + (r / 64) mod 64)) (String (zb (128 + r mod 64)) EmptyString))) = (r, 3%nat).
Proof.
  intros Hr Hv. pose proof (Z.div_mod r 64 ltac:(lia)) as H1. pose proof (Z.mod_pos_bound r 64 ltac:(lia)).
  pose proof (Z.div_mod (r / 64) 64 ltac:(lia)) as H2. pose proof (Z.mod_pos_bound (r / 64) 64 ltac:(lia)).
  rewrite Z.div_div in H2 by lia. change (64 * 64) with 4096 in H2.
  set (a := r / 4096) in *. set (b := (r / 64) mod 64) in *. set (c := r mod 64) in *.
  assert (E : r = a * 4096 + b * 64 + c) by lia. assert (0 <= a < 16) by lia. clearbody a b c. clear H1 H2.
  unfold decode_rune, cont_byte. cbn [String.get]. rewrite !bz_zb by lia.
  destruct (Z.ltb_spec (224 + a) 128); [lia|]. rewrite (in_range_false 194 223), (in_range_true 224 239) by lia.
  rewrite (in_range_true 128 191 (128 + c)) by lia.
  assert (in_range (if 224 + a =? 224 then 160 else 128) (if 224 + a =? 237 then 159 else 191) (128 + b) = true) as ->.
  { unfold valid_rune, in_range in Hv. apply in_range_true.
    destruct (Z.eqb_spec (224 + a) 224); destruct (Z.eqb_spec (224 + a) 237); lia. }
  f_equal. lia.
Qed.

Lemma decode_encode_4 r : 65536 <= r <= 1114111 →
  decode_rune (String (zb (240 + r / 262144)) (String (zb (128 + (r / 4096) mod 64))
    (String (zb (128 + (r / 64) mod 64)) (String (zb (128 + r mod 64)) EmptyString)))) = (r, 4%nat).
Proof.
  intros Hr. pose proof (Z.div_mod r 64 ltac:(lia)) as H1. pose proof (Z.mod_pos_bound r 64 ltac:(lia)).
  pose proof (Z.div_mod (r / 64) 64 ltac:(lia)) as H2. pose proof (Z.mod_pos_bound (r / 64) 64 ltac:(lia)).
  pose proof (Z.div_mod (r / 4096) 64 ltac:(lia)) as H3. pose proof (Z.mod_pos_bound (r / 4096) 64 ltac:(lia)).
  rewrite Z.div_div in H2, H3 by lia. change (64 * 64) with 4096 in H2. change (4096 * 64) with 262144 in H3.
  set (a := r / 262144) in *. set (b := (r / 4096) mod 64) in *. set (c := (r / 64) mod 64) in *. set (d := r mod 64) in *.
  assert (E : r = a * 262144 + b * 4096 + c * 64 + d) by lia. assert (0 <= a < 5) by lia. clearbody a b c d. clear H1 H2 H3.
  unfold decode_rune, cont_byte. cbn [String.get]. rewrite !bz_zb by lia.
  destruct (Z.ltb_spec (240 + a) 128); [lia|].
  rewrite (in_range_false 194 223), (in_range_false 224 239), (in_range_true 240 244) by lia.
  rewrite (in_range_true 128 191 (128 + c)), (in_range_true 128 191 (128 + d)) by lia.
  assert (in_range (if 240 + a =? 240 then 144 else 128) (if 240 + a =? 244 then 143 else 191) (128 + b) = true) as ->.
  { apply in_range_true. destruct (Z.eqb_spec (240 + a) 240); destruct (Z.eqb_spec (240 + a) 244); lia. }
  f_equal. lia.
Qed.

Lemma runes_encode r : valid_rune r = true → runes (encode_rune r) = [(r, encode_rune r)].
Proof.
  intros Hv. assert (Hr : 0 <= r <= 1114111) by (unfold valid_rune, in_range in Hv; lia).
  unfold encode_rune. rewrite Hv.
  destruct (Z.ltb_spec r 128).
  { rewrite runes_cons_ascii by (rewrite bz_zb; lia). by rewrite bz_zb by lia. }
  destruct (Z.ltb_spec r 2048); [by rewrite runes_cons, decode_encode_2 by lia|].
  destruct (Z.ltb_spec r 65536); [by rewrite runes_cons, decode_encode_3 by (done || lia)|].
  by rewrite runes_cons, decode_encode_4 by lia.
Qed.

Lemma encode_rune_valid r : valid_utf8 (encode_rune r) = true.
Proof.
  assert (H : ∀ r, valid_rune r = true → valid_utf8 (encode_rune r) = true).
  { clear. intros r Hv. unfold valid_utf8. rewrite runes_encode by done. cbn [forallb]. rewrite andb_true_r, negb_true_iff.
    unfold bad_rune. cbn [fst snd]. destruct (Z.eqb_spec r RuneError) as [->|]; [done|done]. }
  destruct (valid_rune r) eqn:Hv; [by apply H|]. unfold encode_rune. rewrite Hv. done.
Qed.

(** The runes of a text written rune by rune. *)
Lemma runes_concat_encode l :
  (∀ r, r ∈ l → valid_rune r = true) → runes (concat_str (map encode_rune l)) = map (λ r, (r, encode_rune r)) l.
Proof.
  induction l as [|r l IH]; intros Hl; [done|]. cbn [map concat_str foldr].
  change (foldr String.append EmptyString ?x) with (concat_str x).
  rewrite runes_app by apply encode_rune_valid. rewrite runes_encode by (apply Hl; by left).
  rewrite IH by (intros x Hx; apply Hl; by right). done.
Qed.

(** A rune of a text is a valid one. *)
Lemma runes_valid_rune s p : p ∈ runes s → valid_rune (fst p) = true.
Proof.
  assert (Hd : ∀ s r n, decode_rune s = (r, n) → valid_rune r = true).
  { clear. intros s r n. destruct s as [|c t]; [by intros [= <- _]|]. pose proof (bz_range c).
    unfold decode_rune. intros Hdec.
    destruct (Z.ltb_spec (bz c) 128); [injection Hdec as <- _; apply valid_rune_intro; lia|].
    destruct (in_range 194 223 (bz c)) eqn:E1; [|destruct (in_range 224 239 (bz c)) eqn:E2; [|destruct (in_range 240 244 (bz c)) eqn:E3] ];
      [..|by injection Hdec as <- _].
    - destruct (cont_byte 128 191 t 0) as [b1|] eqn:B1; injection Hdec as <- _; [|done].
      destruct (cont_byte_Some _ _ _ _ _ B1) as (_ & _ & _ & ?). unfold in_range in *. apply valid_rune_intro. lia.
    - destruct (cont_byte _ _ t 0) as [b1|] eqn:B1; [|by injection Hdec as <- _].
      destruct (cont_byte 128 191 t 1) as [b2|] eqn:B2; injection Hdec as <- _; [|done].
      destruct (cont_byte_Some _ _ _ _ _ B1) as (_ & _ & _ & ?). destruct (cont_byte_Some _ _ _ _ _ B2) as (_ & _ & _ & ?).
      unfold in_range in *. apply valid_rune_intro.
      destruct (Z.eqb_spec (bz c) 224); destruct (Z.eqb_spec (bz c) 237); lia.
    - destruct (cont_byte _ _ t 0) as [b1|] eqn:B1; [|by injection Hdec as <- _].
      destruct (cont_byte 128 191 t 1) as [b2|] eqn:B2; [|by injection Hdec as <- _].
      destruct (cont_byte 128 191 t 2) as [b3|] eqn:B3; injection Hdec as <- _; [|done].
      destruct (cont_byte_Some _ _ _ _ _ B1) as (_ & _ & _ & ?). destruct (cont_byte_Some _ _ _ _ _ B2) as (_ & _ & _ & ?).
      destruct (cont_byte_Some _ _ _ _ _ B3) as (_ & _ & _ & ?). unfold in_range in *. apply valid_rune_intro.
      destruct (Z.eqb_spec (bz c) 240); destruct (Z.eqb_spec (bz c) 244); lia. }
  induction s as [|c t r n E IH] using runes_ind; [by intros ?%not_elem_of_nil|]. rewrite runes_cons, E.
  intros [->|Hp]%elem_of_cons; [by eapply Hd|by apply IH].
Qed.
