(* ===== verification/GoPath.v ===== *)
(** * path.Match, the glob matcher policies use

    The chunk scanner and matcher of Go's path package.  The loops consume the
    pattern, so its length is fuel enough; [match_ranges_fuel],
    [match_loop_fuel] and [glob_loop_fuel] show that more changes nothing. *)

From S2P Require Import Prelude GoStd.

Open Scope string_scope.
Open Scope Z_scope.
Open Scope list_scope.

Fixpoint skip_stars (p : string) : bool * string :=
  match p with
  | String c p' => if Ascii.eqb c "*" then (true, snd (skip_stars p')) else (false, p)
  | EmptyString => (false, EmptyString)
  end.

(** The chunk up to the next star outside a class; [esc] skips the byte after
    a backslash. *)
Fixpoint scan_from (inrange esc : bool) (p : string) : string * string :=
  match p with
  | EmptyString => (EmptyString, EmptyString)
  | String c p' =>
      let go inr e := let '(a, b) := scan_from inr e p' in (String c a, b) in
      if esc then go inrange false
      else if Ascii.eqb c backslash then go inrange true
      else if Ascii.eqb c "[" then go true false
      else if Ascii.eqb c "]" then go false false
      else if Ascii.eqb c "*" && negb inrange then (EmptyString, p)
      else go inrange false
  end.

Definition scanChunk (p : string) : bool * string * string :=
  let '(star, p) := skip_stars p in
  let '(chunk, rest) := scan_from false false p in (star, chunk, rest).

(** [getEsc]: [None] is ErrBadPattern. *)
Definition getEsc (chunk : string) : option (Z * string) :=
  match chunk with
  | EmptyString => None
  | String c rest =>
      if Ascii.eqb c "-" || Ascii.eqb c "]" then None
      else let chunk := if Ascii.eqb c backslash then rest else chunk in
      match chunk with
      | EmptyString => None
      | _ =>
          let '(r, n) := decode_rune chunk in
          if (r =? RuneError) && (n =? 1)%nat then None
          else let nchunk := s_drop n chunk in
               if String.eqb nchunk "" then None else Some (r, nchunk)
      end
  end.

(** The ranges of a class: whether [r] is in one of them, and the chunk after
    the closing bracket. *)
Fixpoint match_ranges (fuel : nat) (r : Z) (first matched : bool) (chunk : string) :
    option (bool * string) :=
  match fuel with
  | O => None
  | S fuel =>
      let step chunk :=
        match getEsc chunk with
        | None => None
        | Some (lo, chunk) =>
            match chunk with
            | String "-" chunk' =>
                match getEsc chunk' with
                | None => None
                | Some (hi, chunk) =>
                    match_ranges fuel r false (matched || ((lo <=? r) && (r <=? hi))) chunk
                end
            | _ => match_ranges fuel r false (matched || ((lo <=? r) && (r <=? lo))) chunk
            end
        end in
      match chunk with
      | String c chunk' =>
          if Ascii.eqb c "]" && negb first then Some (matched, chunk') else step chunk
      | EmptyString => step chunk
      end
  end.

Inductive chunk_res := ChunkBad | ChunkFail | ChunkOk (rest : string).

Fixpoint match_loop (fuel : nat) (failed : bool) (chunk s : string) : chunk_res :=
  match fuel with
  | O => if failed then ChunkFail else ChunkOk s
  | S fuel =>
      match chunk with
      | EmptyString => if failed then ChunkFail else ChunkOk s
      | String c chunk' =>
          let failed := failed || String.eqb s "" in
          if Ascii.eqb c "[" then
            let '(r, n) := if failed then (0, 0%nat) else decode_rune s in
            let s := s_drop n s in
            let '(negated, body) := match chunk' with
              | String "^" body => (true, body)
              | _ => (false, chunk') end in
            match match_ranges (S (String.length body)) r true false body with
            | None => ChunkBad
            | Some (matched, rest) => match_loop fuel (failed || Bool.eqb matched negated) rest s
            end
          else if Ascii.eqb c "?" then
            if failed then match_loop fuel true chunk' s
            else match_loop fuel (has_prefix s "/") chunk' (s_drop (snd (decode_rune s)) s)
          else
            let lit d rest := match s with
              | String x s' => if failed then match_loop fuel true rest s
                               else match_loop fuel (negb (Ascii.eqb d x)) rest s'
              | EmptyString => match_loop fuel true rest s end in
            if Ascii.eqb c backslash then
              match chunk' with
              | EmptyString => ChunkBad
              | String d rest => lit d rest
              end
            else lit c chunk'
      end
  end.

Definition matchChunk (chunk s : string) : chunk_res :=
  match_loop (String.length chunk) false chunk s.

(** The positions a star may stretch to: the rests of the name after skipping
    bytes other than a slash. *)
Fixpoint star_rests (name : string) : list string :=
  match name with
  | String c name' => if Ascii.eqb c "/" then [] else name' :: star_rests name'
  | EmptyString => []
  end.

Inductive star_res := StarBad | StarNone | StarAt (rest : string).

(** The first rest at which the chunk matches; the last chunk has to consume
    the name. *)
Fixpoint try_rests (chunk : string) (last : bool) (rests : list string) : star_res :=
  match rests with
  | [] => StarNone
  | t :: rests =>
      match matchChunk chunk t with
      | ChunkBad => StarBad
      | ChunkFail => try_rests chunk last rests
      | ChunkOk u => if last && negb (String.eqb u "") then try_rests chunk last rests else StarAt u
      end
  end.

(** [None] is ErrBadPattern. *)
Fixpoint rest_valid (fuel : nat) (pattern : string) : bool :=
  match fuel, pattern with
  | S fuel, String _ _ =>
      let '(_, chunk, pattern) := scanChunk pattern in
      match matchChunk chunk "" with ChunkBad => false | _ => rest_valid fuel pattern end
  | _, _ => true
  end.

Fixpoint glob_loop (fuel : nat) (pattern name : string) : option bool :=
  match fuel, pattern with
  | S fuel, String _ _ =>
      let '(star, chunk, pattern) := scanChunk pattern in
      if star && String.eqb chunk "" then Some (negb (contains_b "/" name))
      else
        let last := String.eqb pattern "" in
        let no_match := if rest_valid (String.length pattern) pattern then Some false else None in
        let stretch :=
          if star then
            match try_rests chunk last (star_rests name) with
            | StarBad => None
            | StarAt t => glob_loop fuel pattern t
            | StarNone => no_match
            end
          else no_match in
        match matchChunk chunk name with
        | ChunkOk t => if String.eqb t "" || negb last then glob_loop fuel pattern t else stretch
        | ChunkBad => None
        | ChunkFail => stretch
        end
  | _, _ => Some (String.eqb name "")
  end.

(** [path.Match]. *)
Definition path_match (pattern name : string) : option bool :=
  glob_loop (String.length pattern) pattern name.

Example ex_match : map (λ '(p, s), path_match p s)
  [("get_*", "get_config"); ("get_*", "set"); ("*.x", "a.b.x"); ("[", ""); ("a[b-d]e", "ace");
   ("a?c", "a/c"); ("*", "a/b"); ("a\*", "a*"); ("*_[^a]", "x_b"); ("abc", "abc"); ("x[", "y"); ("*a*b", "xaybb")] =
  [Some true; Some false; Some true; None; Some true; Some false; Some false; Some true; Some true; Some true; None; Some true].
Proof. vm_compute. reflexivity. Qed.

(** ** Fuel *)

Lemma getEsc_shrinks chunk r rest :
  getEsc chunk = Some (r, rest) → (String.length rest < String.length chunk)%nat.
Proof.
  unfold getEsc. destruct chunk as [|c chunk]; [done|].
  destruct (Ascii.eqb c "-" || Ascii.eqb c "]"); [done|].
  assert (Hd : ∀ d t r n, decode_rune (String d t) = (r, n) →
    (String.length (s_drop n (String d t)) < S (String.length t))%nat).
  { intros d t r' n Hr. apply decode_rune_size in Hr; [|done]. rewrite s_drop_length. cbn. lia. }
  destruct (Ascii.eqb c backslash); [destruct chunk as [|d chunk]; [done|]|];
    match goal with |- context [decode_rune ?x] => destruct (decode_rune x) as [r' n] eqn:E end;
    case_match; try done; case_match; try done; intros [= <- <-]; apply Hd in E; cbn in *; lia.
Qed.

Lemma match_ranges_fuel f1 f2 r first m chunk :
  (String.length chunk < f1)%nat → (String.length chunk < f2)%nat →
  match_ranges f1 r first m chunk = match_ranges f2 r first m chunk.
Proof.
  revert f2 first m chunk. induction f1 as [|f1 IH]; intros [|f2] first m chunk H1 H2; [lia..|].
  cbn [match_ranges].
  assert (Hstep : match getEsc chunk with
    | None => None
    | Some (lo, ch) => match ch with
        | String "-" ch' => match getEsc ch' with
            | None => None
            | Some (hi, ch) => match_ranges f1 r false (m || ((lo <=? r) && (r <=? hi))) ch end
        | _ => match_ranges f1 r false (m || ((lo <=? r) && (r <=? lo))) ch end
    end = match getEsc chunk with
    | None => None
    | Some (lo, ch) => match ch with
        | String "-" ch' => match getEsc ch' with
            | None => None
            | Some (hi, ch) => match_ranges f2 r false (m || ((lo <=? r) && (r <=? hi))) ch end
        | _ => match_ranges f2 r false (m || ((lo <=? r) && (r <=? lo))) ch end
    end).
  { destruct (getEsc chunk) as [[lo ch]|] eqn:E; [|done]. apply getEsc_shrinks in E.
    destruct ch as [|d ch]; [apply IH; lia|].
    destruct (Ascii.eqb_spec d "-") as [->|Hd].
    - destruct (getEsc ch) as [[hi ch']|] eqn:E'; [|done]. apply getEsc_shrinks in E'.
      cbn [String.length] in *. apply IH; lia.
    - assert (Hi := IH f2 false (m || ((lo <=? r) && (r <=? lo))) (String d ch)).
      cbn [String.length] in *.
      destruct d as [[] [] [] [] [] [] [] []]; try (apply Hi; lia). by destruct Hd. }
  destruct chunk as [|c chunk]; [done|]. by destruct (Ascii.eqb c "]" && negb first).
Qed.

Lemma match_ranges_shrinks f r first m chunk b rest :
  match_ranges f r first m chunk = Some (b, rest) → (String.length rest < String.length chunk)%nat.
Proof.
  revert first m chunk. induction f as [|f IH]; intros first m chunk; cbn [match_ranges]; [done|].
  set (step := match getEsc chunk with Some _ => _ | None => _ end).
  assert (Hstep : step = Some (b, rest) → (String.length rest < String.length chunk)%nat).
  { unfold step. destruct (getEsc chunk) as [[lo ch]|] eqn:E; [|done]. apply getEsc_shrinks in E.
    assert (Hsame : match_ranges f r false (m || ((lo <=? r) && (r <=? lo))) ch = Some (b, rest) →
      (String.length rest < String.length chunk)%nat) by (intros ?%IH; lia).
    destruct ch as [|d ch]; [done|]. destruct (Ascii.eqb_spec d "-") as [->|Hd].
    - destruct (getEsc ch) as [[hi ch']|] eqn:E'; [|done]. apply getEsc_shrinks in E'.
      intros ?%IH. cbn in *. lia.
    - by destruct d as [[] [] [] [] [] [] [] []]. }
  destruct chunk as [|c chunk]; [done|]. destruct (Ascii.eqb c "]" && negb first); [|done].
  intros [= _ <-]. cbn. lia.
Qed.

Lemma match_loop_fuel f1 f2 failed chunk s :
  (String.length chunk <= f1)%nat → (String.length chunk <= f2)%nat →
  match_loop f1 failed chunk s = match_loop f2 failed chunk s.
Proof.
  revert f2 failed chunk s. induction f1 as [|f1 IH]; intros f2 failed chunk s H1 H2.
  { destruct chunk; [|cbn in H1; lia]. by destruct f2. }
  destruct chunk as [|c chunk]; [by destruct f2|]. destruct f2 as [|f2]; [cbn in H2; lia|].
  cbn [String.length] in *. cbn [match_loop]. destruct (Ascii.eqb c "[").
  - destruct (if failed || _ then _ else _) as [r n].
    destruct (match chunk with String "^" body => (true, body) | _ => (false, chunk) end)
      as [neg body] eqn:Hb.
    assert (String.length body <= String.length chunk)%nat.
    { destruct chunk as [|d ch]; [by simplify_eq|].
      destruct d as [[] [] [] [] [] [] [] []]; simplify_eq; cbn; lia. }
    destruct (match_ranges _ r true false body) as [[m rest]|] eqn:E; [|done].
    apply match_ranges_shrinks in E. apply IH; lia.
  - destruct (Ascii.eqb c "?").
    + destruct (failed || _); apply IH; lia.
    + destruct (Ascii.eqb c backslash).
      * destruct chunk as [|d rest]; [done|]. cbn [String.length] in *.
        destruct s; [apply IH; lia|]. destruct (failed || _); apply IH; lia.
      * destruct s; [apply IH; lia|]. destruct (failed || _); apply IH; lia.
Qed.

(** ** Patterns without metacharacters *)

Definition meta_glob : string := String "*" (String "?" (String "[" (String backslash EmptyString))).
Definition literal (p : string) : bool := s_all (λ c, negb (cutset meta_glob c)) p.

Lemma literal_cons c p : literal (String c p) = true →
  Ascii.eqb c "*" = false ∧ Ascii.eqb c "?" = false ∧ Ascii.eqb c "[" = false ∧
  Ascii.eqb c backslash = false ∧ literal p = true.
Proof.
  unfold literal. cbn [s_all]. intros [Hc Hp]%andb_prop. apply negb_true_iff in Hc.
  unfold cutset, meta_glob in Hc. cbn [contains_b] in Hc.
  rewrite !orb_false_iff in Hc. destruct Hc as (H1 & H2 & H3 & H4 & _).
  rewrite !(Ascii.eqb_sym c). by split_and!.
Qed.

Lemma scan_from_literal p : literal p = true → scan_from false false p = (p, EmptyString).
Proof.
  induction p as [|c p IH]; [done|]. intros (H1 & H2 & H3 & H4 & Hp)%literal_cons.
  cbn [scan_from]. rewrite H1, H3, H4, (IH Hp). cbn [andb]. by destruct (Ascii.eqb c "]").
Qed.

Lemma match_loop_literal p s f :
  literal p = true → (String.length p <= f)%nat →
  match_loop f false p s = match cut_prefix p s with Some t => ChunkOk t | None => ChunkFail end ∧
  match_loop f true p s = ChunkFail.
Proof.
  revert s f. induction p as [|c p IH]; intros s f Hl Hf; [by destruct f|].
  apply literal_cons in Hl as (H1 & H2 & H3 & H4 & Hp). destruct f as [|f]; [cbn in Hf; lia|].
  cbn [String.length] in Hf. cbn [match_loop]. rewrite H2, H3, H4.
  destruct s as [|x s]; cbn [orb String.eqb cut_prefix].
  - destruct (IH EmptyString f Hp) as [_ Hko]; [lia|]. done.
  - destruct (IH s f Hp) as [Hok Hko]; [lia|]. split.
    + destruct (Ascii.eqb c x); cbn [negb]; by rewrite ?Hok, ?Hko.
    + destruct (IH (String x s) f Hp) as [_ H]; [lia|done].
Qed.

(** A pattern without metacharacters matches itself only. *)
Lemma path_match_literal p s :
  literal p = true → path_match p s = Some (String.eqb p s).
Proof.
  intros Hl. unfold path_match. destruct p as [|c p]; [by destruct s|].
  assert (Hb : String.eqb (String c p) s =
    match cut_prefix (String c p) s with Some t => String.eqb t "" | None => false end).
  { destruct (cut_prefix (String c p) s) as [t|] eqn:E.
    - apply cut_prefix_Some in E as ->. destruct t as [|d t].
      + rewrite app_nil_r_str. apply String.eqb_refl.
      + apply String.eqb_neq. intros He. apply (f_equal String.length) in He.
        rewrite length_app_str in He. cbn in He. lia.
    - apply String.eqb_neq. intros <-. rewrite <- (app_nil_r_str (String c p)) in E at 2.
      by rewrite cut_prefix_app in E. }
  rewrite Hb. cbn [String.length glob_loop]. unfold scanChunk.
  pose proof Hl as (H1 & _)%literal_cons. cbn [skip_stars]. rewrite H1, scan_from_literal by done.
  unfold matchChunk.
  destruct (match_loop_literal (String c p) s (String.length (String c p)) Hl) as [-> _]; [done|].
  cbn [andb negb String.eqb]. destruct (cut_prefix (String c p) s) as [[|d t]|]; [|done..].
  cbn. by destruct (String.length p).
Qed.

Lemma scanChunk_shrinks p star chunk rest :
  scanChunk p = (star, chunk, rest) → p ≠ EmptyString →
  (String.length rest < String.length p)%nat.
Proof.
  assert (Hscan : ∀ i e q a b, scan_from i e q = (a, b) → (String.length b <= String.length q)%nat).
  { intros i e q. revert i e. induction q as [|c q IH]; intros i e a b; cbn [scan_from].
    { by intros [= <- <-]. }
    assert (Hgo : ∀ i' e', (let '(a, b) := scan_from i' e' q in (String c a, b)) = (a, b) →
      (String.length b <= String.length (String c q))%nat).
    { intros i' e'. destruct (scan_from i' e' q) as [a' b'] eqn:E. intros [= _ <-].
      apply IH in E. cbn. lia. }
    repeat (case_match; [try apply Hgo|]); try apply Hgo. by intros [= <- <-]. }
  assert (Hstars : ∀ q, (String.length (snd (skip_stars q)) <= String.length q)%nat).
  { induction q as [|c q IH]; [done|]. cbn [skip_stars]. destruct (Ascii.eqb c "*"); cbn; lia. }
  unfold scanChunk. destruct p as [|c p]; [done|]. intros Hs _. cbn [skip_stars] in Hs.
  destruct (Ascii.eqb c "*") eqn:Hc.
  - destruct (scan_from false false _) as [a b] eqn:E. apply Hscan in E. simplify_eq.
    pose proof (Hstars p). cbn [String.length]. lia.
  - cbn [scan_from] in Hs. rewrite Hc in Hs. cbn [andb] in Hs.
    repeat (case_match; simplify_eq); match goal with E : scan_from _ _ p = _ |- _ =>
      apply Hscan in E end; cbn; lia.
Qed.

Lemma rest_valid_fuel f1 f2 p :
  (String.length p <= f1)%nat → (String.length p <= f2)%nat → rest_valid f1 p = rest_valid f2 p.
Proof.
  revert f2 p. induction f1 as [|f1 IH]; intros f2 p H1 H2.
  { destruct p; [by destruct f2|cbn in H1; lia]. }
  destruct p as [|c p]; [by destruct f2|]. destruct f2 as [|f2]; [cbn in H2; lia|].
  cbn [rest_valid]. destruct (scanChunk (String c p)) as [[star chunk] rest] eqn:E.
  apply scanChunk_shrinks in E; [|done]. destruct (matchChunk chunk ""); [done|..]; apply IH;
    cbn in *; lia.
Qed.

Lemma glob_loop_fuel f1 f2 p s :
  (String.length p <= f1)%nat → (String.length p <= f2)%nat → glob_loop f1 p s = glob_loop f2 p s.
Proof.
  revert f2 p s. induction f1 as [|f1 IH]; intros f2 p s H1 H2.
  { destruct p; [by destruct f2|cbn in H1; lia]. }
  destruct p as [|c p]; [by destruct f2|]. destruct f2 as [|f2]; [cbn in H2; lia|].
  cbn [glob_loop]. destruct (scanChunk (String c p)) as [[star chunk] rest] eqn:E.
  apply scanChunk_shrinks in E; [|done]. cbn [String.length] in *.
  assert (Hr : ∀ t, glob_loop f1 rest t = glob_loop f2 rest t) by (intros; apply IH; lia).
  destruct (star && _); [done|]. destruct (matchChunk chunk s) as [| |t]; [done|..].
  - destruct star; [|done]. by destruct (try_rests _ _ _).
  - destruct (_ || _); [apply Hr|]. destruct star; [|done]. by destruct (try_rests _ _ _).
Qed.
