(* ===== verification/FileChecks.v ===== *)
(** * Files only trusted users can change: internal/configfile and secretfile

    [config_Read] and [secret_Read] open a file, check the open descriptor and
    read it, on Unix.  Other users act between the system calls, so each call
    sees a file system of its own: [fs0] when the file is opened, [fs1] when it
    is inspected, [fs2] when its access control list is read and [fs3] when it
    is read; what fails is told by [answers].

    [config_Read_integrity]: what is read is what the effective user or root
    left in the file, whatever other users do meanwhile and later.
    [secret_Read_private]: what is read was, and stays, readable by no other
    user either. *)

From S2P Require Import Prelude GoStd GoFile.

Open Scope string_scope.
Open Scope Z_scope.
Open Scope list_scope.

(** What the system calls answer: [None] is no error.  [an_owner] is whether
    the file information carries the owner. *)
Record answers := { an_open : option string; an_stat : option string; an_owner : bool; an_acl : option string; an_read : option string }.

Definition no_failure : answers := {| an_open := None; an_stat := None; an_owner := true; an_acl := None; an_read := None |}.

(** [io.ReadAll(io.LimitReader(f, limit+1))]: the sum is an int64. *)
Definition read_limit (limit : Z) (data : string) : string :=
  let n := (limit + 1 + 2 ^ 63) mod 2 ^ 64 - 2 ^ 63 in
  if n <=? 0 then "" else s_take (Z.to_nat n) data.

Lemma s_take_min n s : String.length (s_take n s) = Nat.min n (String.length s).
Proof. revert n. induction s as [|c s IH]; intros [|n]; cbn; [done..|]. by rewrite IH. Qed.

Lemma s_take_full n s : (String.length s <= n)%nat → s_take n s = s.
Proof. revert n. induction s as [|c s IH]; intros [|n]; cbn; intros; [done|done|lia|]. f_equal. apply IH. lia. Qed.

Lemma read_limit_len limit data : 0 < limit < 2 ^ 63 - 1 → slen (read_limit limit data) <= limit → read_limit limit data = data.
Proof.
  intros Hl. unfold read_limit. replace ((limit + 1 + 2 ^ 63) mod 2 ^ 64 - 2 ^ 63) with (limit + 1) by (rewrite Z.mod_small; lia).
  destruct (Z.leb_spec (limit + 1) 0); [lia|]. unfold slen. rewrite s_take_min. intros Hn. apply s_take_full. lia.
Qed.

Lemma read_limit_short limit data : 0 < limit < 2 ^ 63 - 1 → slen data <= limit → read_limit limit data = data.
Proof. intros Hl Hd. apply read_limit_len; [done|]. unfold read_limit, slen in *. case_match; [cbn; lia|]. rewrite s_take_min. lia. Qed.

(** ** internal/configfile *)

Inductive config_error :=
  | CfgLimit | CfgOpen (e : errno) | CfgStat (e : string) | CfgNotDirectory | CfgIsDirectory | CfgNotRegular | CfgNoOwner
  | CfgOwner (uid : Z) | CfgMode (perm : Z) | CfgAclUnread (e : string) | CfgAcl | CfgUnread (e : string) | CfgTooLarge.

(** [errors.Is(err, ErrUnsafe)]. *)
Definition config_refusal (e : config_error) : bool :=
  match e with CfgNotRegular | CfgNoOwner | CfgOwner _ | CfgMode _ | CfgAclUnread _ | CfgAcl => true | _ => false end.

Definition is_regular (k : fkind) : bool := match k with KRegular => true | _ => false end.
Definition is_directory (k : fkind) : bool := match k with KDirectory => true | _ => false end.

Section Checks.
Context (euid : Z).

(** [check]: [nd1] is what stat showed, [nd2] the inode when its list is read. *)
Definition config_check (a : answers) (dir : bool) (nd1 nd2 : inode) : option config_error :=
  match an_stat a with
  | Some e => Some (CfgStat e)
  | None =>
      if dir && negb (is_directory (nd_kind nd1)) then Some CfgNotDirectory
      else if negb dir && is_directory (nd_kind nd1) then Some CfgIsDirectory
      else if negb dir && negb (is_regular (nd_kind nd1)) then Some CfgNotRegular
      else if negb (an_owner a) then Some CfgNoOwner
      else if negb (nd_uid nd1 =? euid) && negb (nd_uid nd1 =? 0) then Some (CfgOwner (nd_uid nd1))
      else if negb (Z.land (nd_perm nd1) write_bits =? 0) then Some (CfgMode (nd_perm nd1))
      else match an_acl a with
      | Some e => Some (CfgAclUnread e)
      | None => if nd_acl nd2 then Some CfgAcl else None
      end
  end.

(** [open]. *)
Definition config_open (a : answers) (fs0 fs1 fs2 : filesys) (path : string) (dir : bool) : result config_error Z :=
  match an_open a with
  | Some e => Err (CfgOpen (ESYS e))
  | None =>
      match open_follow fs0 path with
      | Err e => Err (CfgOpen e)
      | Ok i =>
          match fs_nodes fs1 !! i, fs_nodes fs2 !! i with
          | Some nd1, Some nd2 => match config_check a dir nd1 nd2 with Some e => Err e | None => Ok i end
          | _, _ => Err (CfgStat "bad file descriptor")
          end
      end
  end.

(** [Read]. *)
Definition config_Read (a : answers) (fs0 fs1 fs2 fs3 : filesys) (path : string) (limit : Z) : result config_error string :=
  if limit <=? 0 then Err CfgLimit
  else match config_open a fs0 fs1 fs2 path false with
  | Err e => Err e
  | Ok i =>
      match an_read a with
      | Some e => Err (CfgUnread e)
      | None =>
          let b := read_limit limit (from_option nd_data "" (fs_nodes fs3 !! i)) in
          if limit <? slen b then Err CfgTooLarge else Ok b
      end
  end.

Definition CheckDir (a : answers) (fs0 fs1 fs2 : filesys) (path : string) : option config_error :=
  match config_open a fs0 fs1 fs2 path true with Err e => Some e | Ok _ => None end.

(** ** internal/secretfile *)

Inductive secret_error :=
  | SecLimit | SecSymlink | SecOpen (e : errno) | SecStat (e : string) | SecNotRegular | SecNoOwner | SecLinks (n : Z)
  | SecOwner (uid : Z) | SecMode (perm : Z) | SecAclUnread (e : string) | SecAcl | SecUnread (e : string) | SecTooLarge.

Definition secret_refusal (e : secret_error) : bool :=
  match e with SecSymlink | SecNotRegular | SecNoOwner | SecLinks _ | SecOwner _ | SecMode _ | SecAclUnread _ | SecAcl => true | _ => false end.

(** 0o077. *)
Definition other_bits : Z := 63.

Definition secret_check (a : answers) (nd1 nd2 : inode) : option secret_error :=
  match an_stat a with
  | Some e => Some (SecStat e)
  | None =>
      if negb (is_regular (nd_kind nd1)) then Some SecNotRegular
      else if negb (an_owner a) then Some SecNoOwner
      else if negb (nd_nlink nd1 =? 1) then Some (SecLinks (nd_nlink nd1))
      else if negb (nd_uid nd1 =? euid) then Some (SecOwner (nd_uid nd1))
      else if negb (Z.land (nd_perm nd1) other_bits =? 0) then Some (SecMode (nd_perm nd1))
      else match an_acl a with
      | Some e => Some (SecAclUnread e)
      | None => if nd_acl nd2 then Some SecAcl else None
      end
  end.

Definition readCapped (a : answers) (nd : option inode) (limit : Z) : result secret_error string :=
  match an_read a with
  | Some e => Err (SecUnread e)
  | None =>
      let b := read_limit limit (from_option nd_data "" nd) in
      if limit <? slen b then Err SecTooLarge else Ok b
  end.

(** [Read] and [read]. *)
Definition secret_Read (a : answers) (fs0 fs1 fs2 fs3 : filesys) (path : string) (limit : Z) : result secret_error string :=
  if limit <=? 0 then Err SecLimit
  else match an_open a with
  | Some e => Err (SecOpen (ESYS e))
  | None =>
      match open_nofollow fs0 path with
      | Err ELOOP => Err SecSymlink
      | Err e => Err (SecOpen e)
      | Ok i =>
          match fs_nodes fs1 !! i, fs_nodes fs2 !! i with
          | Some nd1, Some nd2 => match secret_check a nd1 nd2 with Some e => Err e | None => readCapped a (fs_nodes fs3 !! i) limit end
          | _, _ => Err (SecStat "bad file descriptor")
          end
      end
  end.

(** ** What is read *)

Lemma config_check_ok a dir nd1 nd2 : config_check a dir nd1 nd2 = None ↔
  an_stat a = None ∧ an_owner a = true ∧ an_acl a = None ∧
  nd_kind nd1 ≠ (if dir then KRegular else KDirectory) ∧ nd_kind nd1 ≠ KOther ∧
  trusted euid (nd_uid nd1) = true ∧ Z.land (nd_perm nd1) write_bits = 0 ∧ nd_acl nd2 = false.
Proof.
  unfold config_check, trusted.
  destruct (an_stat a), dir, (nd_kind nd1), (an_owner a), (an_acl a), (nd_acl nd2), (Z.eqb_spec (nd_uid nd1) euid),
    (Z.eqb_spec (nd_uid nd1) 0), (Z.eqb_spec (Z.land (nd_perm nd1) write_bits) 0); cbn; naive_solver.
Qed.

Lemma secret_check_ok a nd1 nd2 : secret_check a nd1 nd2 = None ↔
  an_stat a = None ∧ an_owner a = true ∧ an_acl a = None ∧ nd_kind nd1 = KRegular ∧ nd_nlink nd1 = 1 ∧
  nd_uid nd1 = euid ∧ Z.land (nd_perm nd1) other_bits = 0 ∧ nd_acl nd2 = false.
Proof.
  unfold secret_check.
  destruct (an_stat a), (nd_kind nd1), (an_owner a), (an_acl a), (nd_acl nd2), (Z.eqb_spec (nd_uid nd1) euid),
    (Z.eqb_spec (nd_nlink nd1) 1), (Z.eqb_spec (Z.land (nd_perm nd1) other_bits) 0); cbn; naive_solver.
Qed.

Lemma other_bits_sub perm : Z.land perm other_bits = 0 → Z.land perm write_bits = 0 ∧ Z.land perm read_bits = 0.
Proof.
  intros H. change write_bits with (Z.land other_bits write_bits). change read_bits with (Z.land other_bits read_bits).
  rewrite !Z.land_assoc, H. done.
Qed.
End Checks.

(** ** Under the acts of other users *)

Section Reads.
Context (euid : Z).

(** Nobody but the effective user and root can change the inode. *)
Definition guarded (nd : inode) : Prop := others_write euid nd = false.
Definition owner_only (nd : inode) : Prop := guarded nd ∧ others_read euid nd = false ∧ nd_uid nd = euid.

Lemma guarded_iff nd : guarded nd ↔ trusted euid (nd_uid nd) = true ∧ Z.land (nd_perm nd) write_bits = 0 ∧ nd_acl nd = false.
Proof.
  unfold guarded, others_write.
  destruct (trusted euid (nd_uid nd)), (nd_acl nd), (Z.eqb_spec (Z.land (nd_perm nd) write_bits) 0); cbn; naive_solver.
Qed.

(** What the checks saw at two moments held from the first one on. *)
Lemma checked_between fs1 fs2 i nd1 nd2 :
  others euid fs1 fs2 → fs_nodes fs1 !! i = Some nd1 → fs_nodes fs2 !! i = Some nd2 →
  trusted euid (nd_uid nd1) = true → Z.land (nd_perm nd1) write_bits = 0 → nd_acl nd2 = false →
  guarded nd1 ∧ nd_data nd2 = nd_data nd1.
Proof.
  intros Hs H1 H2 Ht Hp Ha. destruct (trusted_before _ _ _ _ _ _ Hs H1 H2) as (_ & _ & Hk).
  destruct (Hk Ht) as (_ & Ea & Hd). assert (Hg : guarded nd1) by (apply guarded_iff; split_and!; [done..|congruence]).
  split; [done|]. by apply Hd.
Qed.

Lemma config_Read_content a fs0 fs1 fs2 fs3 path limit b :
  limit < 2 ^ 63 - 1 → others euid fs0 fs1 → others euid fs1 fs2 → others euid fs2 fs3 →
  config_Read euid a fs0 fs1 fs2 fs3 path limit = Ok b →
  slen b <= limit ∧
  ∃ i nd, open_follow fs0 path = Ok i ∧ fs_nodes fs1 !! i = Some nd ∧ nd_kind nd = KRegular ∧ guarded nd ∧ nd_data nd = b ∧
    ∀ fs', others euid fs1 fs' → ∃ nd', fs_nodes fs' !! i = Some nd' ∧ nd_data nd' = b ∧ guarded nd'.
Proof.
  intros Hlim H01 H12 H23. unfold config_Read, config_open. destruct (Z.leb_spec limit 0); [done|].
  destruct (an_open a); [done|]. destruct (open_follow fs0 path) as [i|]; [|done].
  destruct (fs_nodes fs1 !! i) as [nd1|] eqn:E1; [|done]. destruct (fs_nodes fs2 !! i) as [nd2|] eqn:E2; [|done].
  destruct (config_check euid a false nd1 nd2) eqn:Ec; [done|]. apply config_check_ok in Ec as (_ & _ & _ & Hk & Hk' & Ht & Hp & Ha).
  destruct (an_read a); [done|]. destruct (checked_between _ _ _ _ _ H12 E1 E2 Ht Hp Ha) as [Hg Hd].
  assert (Hstay : ∀ fs', others euid fs1 fs' → ∃ nd', fs_nodes fs' !! i = Some nd' ∧ nd_data nd' = nd_data nd1 ∧ guarded nd').
  { intros fs' Hs. destruct (protected_stays _ _ _ _ _ Hs E1 Hg) as (nd' & Hn' & Hsame). exists nd'. split; [done|].
    apply same_node_fields in Hsame as (_ & Eu & Ep & Ea & Ed). split; [done|]. apply guarded_iff. rewrite <- Eu, <- Ep, <- Ea. by apply guarded_iff. }
  destruct (Hstay fs3) as (nd3 & E3 & Ed & _); [by etrans|]. rewrite E3. cbn [from_option]. rewrite Ed.
  destruct (Z.ltb_spec limit (slen (read_limit limit (nd_data nd1)))) as [|Hle]; [done|]. intros [= Hb]. rewrite read_limit_len in Hb by (try done; lia).
  rewrite read_limit_len in Hle by (try done; lia). subst b. split; [done|]. exists i, nd1. split_and!; try done. by destruct (nd_kind nd1).
Qed.

(** C20: The bytes configfile reads are those of a file only the effective user
    and root can change.  Whatever other users do between the system calls and
    afterwards, if Read succeeds then the inode it opened was, when it was
    inspected, a regular file that no other user could change, the bytes are
    that file's at that moment, whole and within the limit, and the file keeps
    them under everything other users can still do. *)
Theorem config_Read_integrity a fs0 fs1 fs2 fs3 path limit b :
  limit < 2 ^ 63 - 1 → others euid fs0 fs1 → others euid fs1 fs2 → others euid fs2 fs3 →
  config_Read euid a fs0 fs1 fs2 fs3 path limit = Ok b →
  slen b <= limit ∧
  ∃ i nd, open_follow fs0 path = Ok i ∧ fs_nodes fs1 !! i = Some nd ∧ nd_kind nd = KRegular ∧ guarded nd ∧ nd_data nd = b ∧
    ∀ fs', others euid fs1 fs' → ∃ nd', fs_nodes fs' !! i = Some nd' ∧ nd_data nd' = b ∧ guarded nd'.
Proof. apply config_Read_content. Qed.

(** C19: A secret is read only from a file no other user can read or replace.
    Whatever other users do between the system calls and afterwards, if Read
    succeeds then the path was no symbolic link, the inode was, when it was
    inspected, a regular file of the effective user with one link that no other
    user can read or write, the bytes are that file's, whole and within the
    limit, and it stays so under everything other users can still do. *)
Theorem secret_Read_private a fs0 fs1 fs2 fs3 path limit b :
  limit < 2 ^ 63 - 1 → others euid fs0 fs1 → others euid fs1 fs2 → others euid fs2 fs3 →
  secret_Read euid a fs0 fs1 fs2 fs3 path limit = Ok b →
  slen b <= limit ∧
  ∃ i nd, fs_names fs0 !! path = Some (Hard i) ∧ fs_nodes fs1 !! i = Some nd ∧ nd_kind nd = KRegular ∧ nd_nlink nd = 1 ∧
    owner_only nd ∧ nd_data nd = b ∧
    ∀ fs', others euid fs1 fs' → ∃ nd', fs_nodes fs' !! i = Some nd' ∧ nd_data nd' = b ∧ owner_only nd'.
Proof.
  intros Hlim H01 H12 H23. unfold secret_Read. destruct (Z.leb_spec limit 0); [done|].
  destruct (an_open a); [done|]. unfold open_nofollow. destruct (fs_names fs0 !! path) as [[t|i]|] eqn:E0; [done| |done].
  destruct (fs_nodes fs1 !! i) as [nd1|] eqn:E1; [|done]. destruct (fs_nodes fs2 !! i) as [nd2|] eqn:E2; [|done].
  destruct (secret_check euid a nd1 nd2) eqn:Ec; [done|]. apply secret_check_ok in Ec as (_ & _ & _ & Hk & Hn & Hu & Hp & Ha).
  assert (Ht : trusted euid (nd_uid nd1) = true) by (unfold trusted; rewrite Hu, Z.eqb_refl; done).
  destruct (other_bits_sub _ Hp) as [Hw Hr]. destruct (checked_between _ _ _ _ _ H12 E1 E2 Ht Hw Ha) as [Hg Hd].
  assert (Ho : ∀ nd, same_node nd1 nd → owner_only nd ∧ nd_data nd = nd_data nd1).
  { intros nd (_ & Eu & Ep & Ea & Ed)%same_node_fields. apply guarded_iff in Hg as (_ & _ & Hacl).
    split; [|done]. unfold owner_only. rewrite guarded_iff. unfold others_read. rewrite <- Eu, <- Ep, <- Ea, Ht, Hr, Hacl. done. }
  unfold readCapped. destruct (an_read a); [done|].
  destruct (protected_stays euid fs1 fs3 i nd1) as (nd3 & E3 & Hs3); [by etrans|done|done|].
  rewrite E3. cbn [from_option]. rewrite (proj2 (Ho _ Hs3)).
  destruct (Z.ltb_spec limit (slen (read_limit limit (nd_data nd1)))) as [|Hle]; [done|]. intros [= Hb].
  rewrite read_limit_len in Hb by (try done; lia). rewrite read_limit_len in Hle by (try done; lia). subst b. split; [done|].
  exists i, nd1. split_and!; try done; [by apply Ho|].
  intros fs' Hs. destruct (protected_stays _ _ _ _ _ Hs E1 Hg) as (nd' & Hn' & Hsame). exists nd'. split; [done|].
  destruct (Ho _ Hsame). done.
Qed.
End Reads.

(** ** What is accepted *)

(** With no failed call and an unchanged file system, a configuration file is
    read exactly when it is regular, guarded and short enough. *)
Lemma config_Read_accepts euid fs path limit b : 0 < limit < 2 ^ 63 - 1 →
  config_Read euid no_failure fs fs fs fs path limit = Ok b ↔
  ∃ i nd, open_follow fs path = Ok i ∧ fs_nodes fs !! i = Some nd ∧ nd_kind nd = KRegular ∧ guarded euid nd ∧ nd_data nd = b ∧ slen b <= limit.
Proof.
  intros Hlim. split.
  - intros H. apply config_Read_content in H as (Hl & i & nd & H1 & H2 & H3 & H4 & H5 & _); [|lia|by apply rtc_refl..].
    exists i, nd. split_and!; done.
  - intros (i & nd & Ho & Hn & Hk & Hg & <- & Hl). unfold config_Read, config_open. destruct (Z.leb_spec limit 0); [lia|].
    cbn [an_open no_failure]. rewrite Ho, Hn. apply guarded_iff in Hg as (Ht & Hp & Ha).
    assert (Hc : config_check euid no_failure false nd nd = None) by (apply config_check_ok; rewrite Hk; split_and!; [done|done|done|discriminate|discriminate|exact Ht|exact Hp|exact Ha]).
    rewrite Hc. cbn [an_read no_failure]. rewrite Hn. cbn [from_option]. rewrite (read_limit_short _ _ Hlim Hl). cbv zeta. destruct (Z.ltb_spec limit (slen (nd_data nd))); [lia|done].
Qed.

(** And a secret when it is moreover no symbolic link and owner-only. *)
Lemma secret_Read_accepts euid fs path limit b : 0 < limit < 2 ^ 63 - 1 → 
  (∃ i nd, fs_names fs !! path = Some (Hard i) ∧ fs_nodes fs !! i = Some nd ∧ nd_kind nd = KRegular ∧ nd_nlink nd = 1 ∧
    nd_uid nd = euid ∧ Z.land (nd_perm nd) other_bits = 0 ∧ nd_acl nd = false ∧ nd_data nd = b ∧ slen b <= limit) →
  secret_Read euid no_failure fs fs fs fs path limit = Ok b.
Proof.
  intros Hlim (i & nd & Ho & Hn & Hk & Hl1 & Hu & Hp & Ha & <- & Hl). unfold secret_Read. destruct (Z.leb_spec limit 0); [lia|].
  cbn [an_open no_failure]. unfold open_nofollow. rewrite Ho, Hn.
  assert (Hc : secret_check euid no_failure nd nd = None) by (apply secret_check_ok; split_and!; try done).
  rewrite Hc. unfold readCapped. cbn [an_read no_failure from_option]. rewrite (read_limit_short _ _ Hlim Hl). cbv zeta.
  destruct (Z.ltb_spec limit (slen (nd_data nd))); [lia|done].
Qed.

(** ** Worked cases: a name is replaced under the reader *)

Definition file_of (uid perm : Z) (data : string) : inode :=
  {| nd_kind := KRegular; nd_uid := uid; nd_perm := perm; nd_nlink := 1; nd_acl := false; nd_data := data |}.

(** User 1000's policy (mode 0o644) and token (0o600), beside a file of user 1001. *)
Definition shared_dir : filesys :=
  {| fs_names := {[ "p.yaml" := Hard 1; "token" := Hard 2; "evil" := Hard 3; "link" := Symlink "token" ]};
     fs_nodes := {[ 1 := file_of 1000 420 "deny: all"; 2 := file_of 1000 384 "s3cret"; 3 := file_of 1001 420 "allow: all" ]} |}.
Definition swapped_dir : filesys :=
  {| fs_names := {[ "p.yaml" := Hard 3; "token" := Hard 3 ]}; fs_nodes := fs_nodes shared_dir |}.

Lemma swapped : others 1000 shared_dir swapped_dir.
Proof. apply rtc_once, (OtherNames 1000 shared_dir). Qed.

Example ex_swapped :
  config_Read 1000 no_failure shared_dir swapped_dir swapped_dir swapped_dir "p.yaml" 64 = Ok "deny: all" ∧
  config_Read 1000 no_failure swapped_dir swapped_dir swapped_dir swapped_dir "p.yaml" 64 = Err (CfgOwner 1001) ∧
  config_Read 1000 no_failure shared_dir shared_dir shared_dir shared_dir "p.yaml" 4 = Err CfgTooLarge ∧
  secret_Read 1000 no_failure shared_dir swapped_dir swapped_dir swapped_dir "token" 64 = Ok "s3cret" ∧
  secret_Read 1000 no_failure shared_dir shared_dir shared_dir shared_dir "link" 64 = Err SecSymlink ∧
  secret_Read 1000 no_failure shared_dir shared_dir shared_dir shared_dir "p.yaml" 64 = Err (SecMode 420).
Proof. vm_compute. done. Qed.

Lemma config_Read_integrity_witness : ∃ i nd,
  open_follow shared_dir "p.yaml" = Ok i ∧ fs_nodes swapped_dir !! i = Some nd ∧ guarded 1000 nd ∧ nd_data nd = "deny: all".
Proof.
  destruct (config_Read_integrity 1000 no_failure shared_dir swapped_dir swapped_dir swapped_dir "p.yaml" 64 "deny: all")
    as (_ & i & nd & H1 & H2 & _ & H3 & H4 & _).
  - vm_compute. reflexivity.
  - exact swapped.
  - apply rtc_refl.
  - apply rtc_refl.
  - vm_compute. reflexivity.
  - exists i, nd. exact (conj H1 (conj H2 (conj H3 H4))).
Defined.

Lemma secret_Read_private_witness : ∃ i nd,
  fs_names shared_dir !! "token" = Some (Hard i) ∧ fs_nodes swapped_dir !! i = Some nd ∧ owner_only 1000 nd ∧ nd_data nd = "s3cret".
Proof.
  destruct (secret_Read_private 1000 no_failure shared_dir swapped_dir swapped_dir swapped_dir "token" 64 "s3cret")
    as (_ & i & nd & H1 & H2 & _ & _ & H3 & H4 & _).
  - vm_compute. reflexivity.
  - exact swapped.
  - apply rtc_refl.
  - apply rtc_refl.
  - vm_compute. reflexivity.
  - exists i, nd. exact (conj H1 (conj H2 (conj H3 H4))).
Defined.
