(* ===== verification/FileAcl.v ===== *)
(** * Extended access control lists on macOS: internal/fileacl

    [parseAttrBuf] reads the buffer the kernel filled for fgetattrlist; indexing
    a slice out of range is a Go panic, [None].  Theorems: no buffer makes it
    panic; it answers yes exactly when the buffer holds a list with an entry, in
    either byte order; what the kernel writes for a list of any length is read
    as it is meant. *)

From S2P Require Import Prelude GoStd.

Open Scope string_scope.
Open Scope Z_scope.
Open Scope list_scope.

(** ** Words of 32 bits *)

(** The byte of index [i]; callers check the range. *)
Definition byte_at (s : string) (i : Z) : Z := from_option bz 0 (s_get s (Z.to_nat i)).

(** [order.Uint32(s[off:off+4])]; [little] is the byte order. *)
Definition Uint32 (little : bool) (s : string) (off : Z) : option Z :=
  if (0 <=? off) && (off + 4 <=? slen s) then
    let b i := byte_at s (off + i) in
    Some (if little then b 0 + 2 ^ 8 * b 1 + 2 ^ 16 * b 2 + 2 ^ 24 * b 3
          else b 3 + 2 ^ 8 * b 2 + 2 ^ 16 * b 1 + 2 ^ 24 * b 0)
  else None.

(** [order.PutUint32]. *)
Definition PutUint32 (little : bool) (v : Z) : string :=
  let b k := zb (Z.shiftr v (8 * k) mod 256) in
  let l := [b 0; b 1; b 2; b 3] in
  String.string_of_list_ascii (if little then l else rev l).

(** bits.ReverseBytes32. *)
Definition ReverseBytes32 (v : Z) : Z :=
  let b k := Z.shiftr v (8 * k) mod 256 in
  b 3 + 2 ^ 8 * b 2 + 2 ^ 16 * b 1 + 2 ^ 24 * b 0.

(** [int32(v)] of a uint32. *)
Definition int32 (v : Z) : Z := if v <? 2 ^ 31 then v else v - 2 ^ 32.

(** ** Constants of the kernel's headers *)

Definition attrCmnReturnedAttrs : Z := 2147483648.
Definition attrCmnExtendedSecurity : Z := 4194304.
Definition kauthFilesecMagic : Z := 19710317.
Definition kauthFilesecNoACL : Z := 4294967295.
Definition filesecHeader : Z := 4 + 16 + 16 + 4.
Definition attrBitMapCount : Z := 5.
Definition refOffset : Z := 4 + attrBitMapCount * 4.

Inductive acl_error := errMalformed.

(** The end of parseAttrBuf: the header of the filesec at [start]. *)
Definition parse_filesec (little : bool) (buf : string) (start : Z) : option (result acl_error bool) :=
  count ← Uint32 little buf (start + filesecHeader - 4);
  magic ← Uint32 little buf start;
  let answer c := Some (Ok (negb (c =? 0) && negb (c =? kauthFilesecNoACL))) in
  if magic =? kauthFilesecMagic then answer count
  else if magic =? ReverseBytes32 kauthFilesecMagic then answer (ReverseBytes32 count)
  else Some (Err errMalformed).

Definition parseAttrBuf (little : bool) (buf : string) : option (result acl_error bool) :=
  if slen buf <? refOffset then Some (Err errMalformed)
  else
    total ← Uint32 little buf 0;
    if (total <? refOffset) || (slen buf <? total) then Some (Err errMalformed)
    else
      attrs ← Uint32 little buf 4;
      if Z.land attrs attrCmnExtendedSecurity =? 0 then Some (Ok false)
      else if (slen buf <? refOffset + 8) || (total <? refOffset + 8) then Some (Err errMalformed)
      else
        ref ← Uint32 little buf refOffset;
        n ← Uint32 little buf (refOffset + 4);
        let off := int32 ref in
        if n =? 0 then Some (Ok false)
        else
          let start := refOffset + off in
          if (off <? 8) || (n <? filesecHeader) || (slen buf <? start + filesecHeader) then Some (Err errMalformed)
          else parse_filesec little buf start.

(** [Extended]: [darwin] is the system; the call's own error, or the buffer. *)
Definition Extended (darwin little : bool) (call : result string string) : option (result (string + acl_error) bool) :=
  if darwin then
    match call with
    | Err e => Some (Err (inl e))
    | Ok buf =>
        r ← parseAttrBuf little buf;
        Some (match r with Ok x => Ok x | Err e => Err (inr e) end)
    end
  else Some (Ok false).

(** ** Words *)

Lemma Uint32_some little s off : 0 <= off → off + 4 <= slen s → ∃ v, Uint32 little s off = Some v.
Proof.
  intros H1 H2. unfold Uint32. destruct (Z.leb_spec 0 off); [|lia]. destruct (Z.leb_spec (off + 4) (slen s)); [|lia]. cbn. by eexists.
Qed.

Lemma Uint32_app little a b off : slen a = off → Uint32 little (a ++ b) off = Uint32 little b 0.
Proof.
  intros <-. unfold Uint32, slen. rewrite length_app_str.
  replace (Z.of_nat (String.length a) + 4 <=? Z.of_nat (String.length a + String.length b)) with (0 + 4 <=? Z.of_nat (String.length b))
    by (apply eq_true_iff_eq; rewrite !Z.leb_le; lia).
  replace (0 <=? Z.of_nat (String.length a)) with (0 <=? 0) by (symmetry; apply Z.leb_le; lia).
  assert (Hb : ∀ i, 0 <= i → byte_at (a ++ b) (Z.of_nat (String.length a) + i) = byte_at b (0 + i)).
  { intros i Hi. unfold byte_at, s_get. f_equal. rewrite Z.add_0_l. replace (Z.to_nat (Z.of_nat (String.length a) + i)) with (String.length a + Z.to_nat i)%nat by lia.
    induction a as [|c a IH]; [done|]. exact IH. }
  rewrite !Hb by lia. done.
Qed.

Lemma digit_shift v k : 0 <= k → Z.shiftr v (8 * k) mod 256 = v / 2 ^ (8 * k) mod 256.
Proof. intros Hk. by rewrite Z.shiftr_div_pow2 by lia. Qed.

Lemma split_word v : 0 <= v < 2 ^ 32 →
  v mod 256 + 2 ^ 8 * (v / 2 ^ 8 mod 256) + 2 ^ 16 * (v / 2 ^ 16 mod 256) + 2 ^ 24 * (v / 2 ^ 24 mod 256) = v.
Proof.
  intros Hv. change (2 ^ 8) with 256. replace (2 ^ 16) with (256 * 256) by done. replace (2 ^ 24) with (256 * 256 * 256) by done.
  rewrite <- !Z.div_div by lia. change (2 ^ 32) with 4294967296 in Hv.
  assert (H1 : 0 <= v / 256 < 16777216) by (split; [apply Z.div_pos; lia|apply Z.div_lt_upper_bound; lia]).
  assert (H2 : 0 <= v / 256 / 256 < 65536) by (split; [apply Z.div_pos; lia|apply Z.div_lt_upper_bound; lia]).
  assert (H3 : 0 <= v / 256 / 256 / 256 < 256) by (split; [apply Z.div_pos; lia|apply Z.div_lt_upper_bound; lia]).
  rewrite (Z.mod_small (v / 256 / 256 / 256)) by lia.
  pose proof (Z.div_mod v 256). pose proof (Z.div_mod (v / 256) 256). pose proof (Z.div_mod (v / 256 / 256) 256). lia.
Qed.

Lemma PutUint32_length little v : String.length (PutUint32 little v) = 4%nat.
Proof. by destruct little. Qed.

Lemma digit_bound v k : 0 <= Z.shiftr v (8 * k) mod 256 < 256.
Proof. apply Z.mod_pos_bound. lia. Qed.

Lemma byte_put little v rest k : 0 <= k < 4 →
  byte_at (PutUint32 little v ++ rest) k = v / 2 ^ (8 * if little then k else 3 - k) mod 256.
Proof.
  intros Hk. assert (Hc : k = 0 ∨ k = 1 ∨ k = 2 ∨ k = 3) by lia.
  assert (Hb : ∀ j, 0 <= j → bz (zb (Z.shiftr v (8 * j) mod 256)) = v / 2 ^ (8 * j) mod 256).
  { intros j Hj. rewrite bz_zb by apply digit_bound. by apply digit_shift. }
  destruct Hc as [-> | [-> | [-> | ->] ] ], little; apply Hb; lia.
Qed.

Lemma Uint32_Put little v rest : 0 <= v < 2 ^ 32 → Uint32 little (PutUint32 little v ++ rest) 0 = Some v.
Proof.
  intros Hv. unfold Uint32, slen. rewrite length_app_str, PutUint32_length. destruct (Z.leb_spec (0 + 4) (Z.of_nat (4 + String.length rest))); [|lia].
  change (0 <=? 0) with true. cbn [andb]. rewrite !byte_put by lia. f_equal. etransitivity; [|exact (split_word v Hv)].
  destruct little; rewrite <- (Z.div_1_r v) at 5; reflexivity.
Qed.

(** A word read in the other byte order. *)
Lemma Uint32_swapped little v rest : 0 <= v < 2 ^ 32 → Uint32 little (PutUint32 (negb little) v ++ rest) 0 = Some (ReverseBytes32 v).
Proof.
  intros Hv. unfold Uint32, slen. rewrite length_app_str, PutUint32_length. destruct (Z.leb_spec (0 + 4) (Z.of_nat (4 + String.length rest))); [|lia].
  change (0 <=? 0) with true. cbn [andb]. rewrite !byte_put by lia. f_equal. unfold ReverseBytes32. rewrite !digit_shift by lia.
  by destruct little.
Qed.

Lemma ReverseBytes32_bound v : 0 <= ReverseBytes32 v < 2 ^ 32.
Proof.
  unfold ReverseBytes32. pose proof (digit_bound v 0). pose proof (digit_bound v 1). pose proof (digit_bound v 2). pose proof (digit_bound v 3). lia.
Qed.

Lemma ReverseBytes32_twice v : 0 <= v < 2 ^ 32 → ReverseBytes32 (ReverseBytes32 v) = v.
Proof.
  intros Hv. pose proof (Uint32_swapped true (ReverseBytes32 v) "" (ReverseBytes32_bound v)) as H.
  assert (Hp : PutUint32 false (ReverseBytes32 v) = PutUint32 true v).
  { unfold PutUint32. cbn [rev app]. f_equal.
    assert (Hd : ∀ k, 0 <= k < 4 → Z.shiftr (ReverseBytes32 v) (8 * k) mod 256 = Z.shiftr v (8 * (3 - k)) mod 256).
    { intros k Hk. assert (Hc : k = 0 ∨ k = 1 ∨ k = 2 ∨ k = 3) by lia. rewrite digit_shift by lia. unfold ReverseBytes32.
      pose proof (digit_bound v 0). pose proof (digit_bound v 1). pose proof (digit_bound v 2). pose proof (digit_bound v 3).
      set (b0 := Z.shiftr v (8 * 0) mod 256) in *. set (b1 := Z.shiftr v (8 * 1) mod 256) in *.
      set (b2 := Z.shiftr v (8 * 2) mod 256) in *. set (b3 := Z.shiftr v (8 * 3) mod 256) in *.
      destruct Hc as [-> | [-> | [-> | ->] ] ]; symmetry.
      - change (Z.shiftr v (8 * (3 - 0)) mod 256) with b3. change (2 ^ (8 * 0)) with 1. rewrite Z.div_1_r. apply (Z.mod_unique _ _ (b2 + 2 ^ 8 * b1 + 2 ^ 16 * b0)); lia.
      - change (Z.shiftr v (8 * (3 - 1)) mod 256) with b2.
        replace (b3 + 2 ^ 8 * b2 + 2 ^ 16 * b1 + 2 ^ 24 * b0) with (b3 + (b2 + 2 ^ 8 * b1 + 2 ^ 16 * b0) * 2 ^ (8 * 1)) by lia.
        rewrite Z.div_add, (Z.div_small b3) by lia. apply (Z.mod_unique _ _ (b1 + 2 ^ 8 * b0)); lia.
      - change (Z.shiftr v (8 * (3 - 2)) mod 256) with b1.
        replace (b3 + 2 ^ 8 * b2 + 2 ^ 16 * b1 + 2 ^ 24 * b0) with ((b3 + 2 ^ 8 * b2) + (b1 + 2 ^ 8 * b0) * 2 ^ (8 * 2)) by lia.
        rewrite Z.div_add, (Z.div_small (b3 + 2 ^ 8 * b2)) by lia. apply (Z.mod_unique _ _ b0); lia.
      - change (Z.shiftr v (8 * (3 - 3)) mod 256) with b0.
        replace (b3 + 2 ^ 8 * b2 + 2 ^ 16 * b1 + 2 ^ 24 * b0) with ((b3 + 2 ^ 8 * b2 + 2 ^ 16 * b1) + b0 * 2 ^ (8 * 3)) by lia.
        rewrite Z.div_add, (Z.div_small (b3 + 2 ^ 8 * b2 + 2 ^ 16 * b1)) by lia. symmetry. by apply Z.mod_small. }
    by rewrite !Hd by lia. }
  cbn [negb] in H. rewrite Hp, Uint32_Put in H by done. congruence.
Qed.

(** ** No panic *)

Lemma Uint32_bound little s off v : Uint32 little s off = Some v → 0 <= v < 2 ^ 32.
Proof.
  unfold Uint32. case_match; [|done]. intros [= <-].
  assert (Hb : ∀ i, 0 <= byte_at s i < 256).
  { intros i. unfold byte_at. destruct (s_get s (Z.to_nat i)); cbn; [apply bz_range|lia]. }
  pose proof (Hb (off + 0)). pose proof (Hb (off + 1)). pose proof (Hb (off + 2)). pose proof (Hb (off + 3)). destruct little; lia.
Qed.

Lemma parse_filesec_some little buf start : 0 <= start → start + filesecHeader <= slen buf → is_Some (parse_filesec little buf start).
Proof.
  unfold filesecHeader. intros H1 H2. unfold parse_filesec.
  destruct (Uint32_some little buf (start + filesecHeader - 4)) as [c ->]; [unfold filesecHeader; lia..|].
  destruct (Uint32_some little buf start) as [m ->]; [lia..|]. cbn [mbind option_bind]. repeat case_match; by eexists.
Qed.

(** No buffer makes the parser index out of range. *)
Lemma parseAttrBuf_total little buf : is_Some (parseAttrBuf little buf).
Proof.
  unfold parseAttrBuf, refOffset, attrBitMapCount. destruct (Z.ltb_spec (slen buf) (4 + 5 * 4)); [by eexists|].
  destruct (Uint32_some little buf 0) as [total ->]; [lia..|]. cbn [mbind option_bind].
  destruct (_ || _); [by eexists|]. destruct (Uint32_some little buf 4) as [attrs ->]; [lia..|]. cbn [mbind option_bind].
  destruct (_ =? 0); [by eexists|]. destruct (Z.ltb_spec (slen buf) (4 + 5 * 4 + 8)); [by eexists|]. cbn [orb].
  destruct (total <? _); [by eexists|]. destruct (Uint32_some little buf (4 + 5 * 4)) as [ref ->]; [lia..|]. cbn [mbind option_bind].
  destruct (Uint32_some little buf (4 + 5 * 4 + 4)) as [n ->]; [lia..|]. cbn [mbind option_bind]. destruct (n =? 0); [by eexists|].
  destruct (Z.ltb_spec (int32 ref) 8); [by eexists|]. destruct (n <? filesecHeader); [by eexists|]. cbn [orb].
  destruct (Z.ltb_spec (slen buf) (4 + 5 * 4 + int32 ref + filesecHeader)); [by eexists|]. apply parse_filesec_some; lia.
Qed.

(** ** What the kernel writes *)

(** The buffer for a file with the security attribute: the total length, the
    attributes returned, the reference to the filesec [gap] bytes further, and
    the filesec with the list's entry count, in host order or [swapped]. *)
Definition kernel_buffer (little swapped : bool) (total n : Z) (set gap guids : string) (count : Z) (entries : string) : string :=
  let order := if swapped then negb little else little in
  (PutUint32 little total ++ PutUint32 little (Z.lor attrCmnReturnedAttrs attrCmnExtendedSecurity) ++ set ++
   PutUint32 little (8 + slen gap) ++ PutUint32 little n ++ gap ++
   PutUint32 order kauthFilesecMagic ++ guids ++ PutUint32 order count ++ entries)%string.

(** And for one without. *)
Definition kernel_buffer_none (little : bool) (set rest : string) : string :=
  (PutUint32 little refOffset ++ PutUint32 little attrCmnReturnedAttrs ++ set ++ rest)%string.

Lemma slen_app a b : slen (a ++ b) = slen a + slen b.
Proof. unfold slen. rewrite length_app_str. lia. Qed.
Lemma slen_Put little v : slen (PutUint32 little v) = 4.
Proof. unfold slen. by rewrite PutUint32_length. Qed.

Lemma filesec_read little (swapped : bool) pre guids count entries :
  slen guids = 32 → 0 <= count < 2 ^ 32 →
  let order := if swapped then negb little else little in
  parse_filesec little (pre ++ PutUint32 order kauthFilesecMagic ++ guids ++ PutUint32 order count ++ entries)%string (slen pre) =
    Some (Ok (negb (count =? 0) && negb (count =? kauthFilesecNoACL))).
Proof.
  intros Hg Hc order. unfold parse_filesec.
  assert (Hm : Uint32 little (pre ++ PutUint32 order kauthFilesecMagic ++ guids ++ PutUint32 order count ++ entries)%string (slen pre) =
    Some (if swapped then ReverseBytes32 kauthFilesecMagic else kauthFilesecMagic)).
  { rewrite Uint32_app by done. destruct swapped; [by apply Uint32_swapped|by apply Uint32_Put]. }
  assert (Hn : Uint32 little (pre ++ PutUint32 order kauthFilesecMagic ++ guids ++ PutUint32 order count ++ entries)%string (slen pre + filesecHeader - 4) =
    Some (if swapped then ReverseBytes32 count else count)).
  { transitivity (Uint32 little ((pre ++ PutUint32 order kauthFilesecMagic ++ guids) ++ PutUint32 order count ++ entries)%string (slen pre + filesecHeader - 4)).
    { by rewrite !app_assoc_str. }
    rewrite Uint32_app by (rewrite !slen_app, slen_Put, Hg; unfold filesecHeader; lia).
    destruct swapped; [by apply Uint32_swapped|by apply Uint32_Put]. }
  rewrite Hm, Hn. cbn [mbind option_bind]. destruct swapped; [|done]. rewrite ReverseBytes32_twice by done. done.
Qed.

(** The access control list the kernel reports is read as it is meant, and
    no buffer is misread.  A buffer of any bytes gives an answer (no index is
    out of range); the buffer of a file without the attribute says no list; and
    that of a file with one, in either byte order, with any gap and any ids,
    says there is one exactly when it has entries. *)
Theorem parseAttrBuf_kernel little :
  (∀ buf, ∃ r, parseAttrBuf little buf = Some r) ∧
  (∀ set rest, slen set = 16 → parseAttrBuf little (kernel_buffer_none little set rest) = Some (Ok false)) ∧
  ∀ (swapped : bool) total n set gap guids count entries,
    let buf := kernel_buffer little swapped total n set gap guids count entries in
    slen set = 16 → slen gap < 2 ^ 31 - 8 → slen guids = 32 → 0 <= count < 2 ^ 32 →
    refOffset + 8 <= total <= slen buf → total < 2 ^ 32 → filesecHeader <= n < 2 ^ 32 →
    parseAttrBuf little buf = Some (Ok (negb (count =? 0) && negb (count =? kauthFilesecNoACL))).
Proof.
  split; [intros buf; by destruct (parseAttrBuf_total little buf) as [r ->]; exists r|]. split.
  - intros set rest Hset. unfold parseAttrBuf, kernel_buffer_none.
    assert (Hl : slen (PutUint32 little refOffset ++ PutUint32 little attrCmnReturnedAttrs ++ set ++ rest)%string = refOffset + slen rest).
    { rewrite !slen_app, !slen_Put, Hset. unfold refOffset, attrBitMapCount. lia. }
    rewrite Hl. assert (0 <= slen rest) by (unfold slen; lia).
    destruct (Z.ltb_spec (refOffset + slen rest) refOffset); [lia|]. rewrite Uint32_Put by done. cbn [mbind option_bind].
    rewrite Z.ltb_irrefl. destruct (Z.ltb_spec (refOffset + slen rest) refOffset); [lia|]. cbn [orb].
    rewrite (Uint32_app little (PutUint32 little refOffset) _ 4 (slen_Put _ _)). by rewrite Uint32_Put.
  - intros swapped total n set gap guids count entries buf Hset Hgap Hg Hc Ht Ht' Hn. unfold parseAttrBuf.
    assert (Hl : slen buf = refOffset + 8 + slen gap + filesecHeader + slen entries).
    { unfold buf, kernel_buffer. rewrite !slen_app, !slen_Put, Hset, Hg. unfold refOffset, attrBitMapCount, filesecHeader. lia. }
    assert (0 <= slen entries ∧ 0 <= slen gap) as [He Hp] by (unfold slen; lia). unfold refOffset, attrBitMapCount, filesecHeader in *.
    set (attrs := Z.lor attrCmnReturnedAttrs attrCmnExtendedSecurity). set (order := if swapped then negb little else little).
    set (tail := (PutUint32 order kauthFilesecMagic ++ guids ++ PutUint32 order count ++ entries)%string).
    set (head := (PutUint32 little total ++ PutUint32 little attrs ++ set)%string).
    assert (Hbuf : buf = (head ++ PutUint32 little (8 + slen gap) ++ PutUint32 little n ++ gap ++ tail)%string).
    { unfold buf, kernel_buffer, head, tail. by rewrite !app_assoc_str. }
    assert (Hh : slen head = 24) by (unfold head; rewrite !slen_app, !slen_Put, Hset; lia).
    assert (H0 : Uint32 little buf 0 = Some total) by (apply Uint32_Put; lia).
    assert (H4 : Uint32 little buf 4 = Some attrs).
    { unfold buf, kernel_buffer. rewrite (Uint32_app little (PutUint32 little total) _ 4 (slen_Put _ _)). by apply Uint32_Put. }
    assert (Hr : Uint32 little buf (4 + 5 * 4) = Some (8 + slen gap)).
    { rewrite Hbuf, (Uint32_app little head) by lia. apply Uint32_Put. lia. }
    assert (Hn' : Uint32 little buf (4 + 5 * 4 + 4) = Some n).
    { rewrite Hbuf, app_assoc_str, Uint32_app by (rewrite slen_app, slen_Put; lia). apply Uint32_Put. lia. }
    assert (Hi : int32 (8 + slen gap) = 8 + slen gap) by (unfold int32; destruct (Z.ltb_spec (8 + slen gap) (2 ^ 31)); lia).
    rewrite H0, H4, Hr, Hn'. cbn [mbind option_bind]. rewrite Hi. change (Z.land attrs attrCmnExtendedSecurity =? 0) with false.
    destruct (Z.ltb_spec (slen buf) (4 + 5 * 4)); [lia|]. destruct (Z.ltb_spec total (4 + 5 * 4)); [lia|]. destruct (Z.ltb_spec (slen buf) total); [lia|].
    destruct (Z.ltb_spec (slen buf) (4 + 5 * 4 + 8)); [lia|]. destruct (Z.ltb_spec total (4 + 5 * 4 + 8)); [lia|]. destruct (Z.eqb_spec n 0); [lia|].
    destruct (Z.ltb_spec (8 + slen gap) 8); [lia|]. destruct (Z.ltb_spec n (4 + 16 + 16 + 4)); [lia|].
    destruct (Z.ltb_spec (slen buf) (4 + 5 * 4 + (8 + slen gap) + (4 + 16 + 16 + 4))); [lia|]. cbn [orb].
    set (pre := (head ++ PutUint32 little (8 + slen gap) ++ PutUint32 little n ++ gap)%string).
    assert (Hb2 : buf = (pre ++ tail)%string) by (rewrite Hbuf; unfold pre; by rewrite !app_assoc_str).
    replace (4 + 5 * 4 + (8 + slen gap)) with (slen pre) by (unfold pre; rewrite !slen_app, !slen_Put; lia).
    rewrite Hb2. unfold tail. by apply filesec_read.
Qed.

(** TestParseAttrBuf: one entry in both byte orders, no entries, no list. *)
Definition zeros (n : nat) : string := String.string_of_list_ascii (repeat "000"%char n).
Example ex_attr_buf :
  let case swapped count := parseAttrBuf true (kernel_buffer true swapped 96 68 (zeros 16) "" (zeros 32) count (zeros 24)) in
  [case false 1; case true 1; case false 128; case true 0; case false kauthFilesecNoACL] = map (λ b, Some (Ok b)) [true; true; true; false; false] ∧
  parseAttrBuf true (zeros 4096) = Some (Err errMalformed) ∧ parseAttrBuf true (zeros 8) = Some (Err errMalformed) ∧
  parseAttrBuf false (kernel_buffer_none false (zeros 16) (zeros 9)) = Some (Ok false).
Proof. vm_compute. done. Qed.

Lemma parseAttrBuf_kernel_witness :
  parseAttrBuf true (kernel_buffer true true 96 68 (zeros 16) "" (zeros 32) 128 (zeros 24)) = Some (Ok true).
Proof.
  apply (proj2 (proj2 (parseAttrBuf_kernel true)) true 96 68 (zeros 16) "" (zeros 32) 128 (zeros 24)); vm_compute; repeat split; intros; discriminate.
Defined.
