(* ===== verification/Termsafe.v ===== *)
(** * Terminal-safe text: internal/termsafe

    Quoting of single values and escaping of whole messages, with the proof
    that neither leaves anything a terminal would act on. *)

From S2P Require Import Prelude GoStd.

Open Scope string_scope.
Open Scope Z_scope.
Open Scope list_scope.

Definition Unsafe (r : Z) : bool :=
  if (r <? 32) || (r =? 127) || ((128 <=? r) && (r <=? 159)) then true
  else if (r =? 8232) || (r =? 8233) then true
  else if (r =? 1564) || (r =? 8206) || (r =? 8207) then true
  else if ((8234 <=? r) && (r <=? 8238)) || ((8294 <=? r) && (r <=? 8297)) then true
  else false.

Section Termsafe.
Context `{Unicode}.

(** [Quote]: the loop stops at the first byte outside printable ASCII. *)
Fixpoint needs_quote (s : string) : bool :=
  match s with
  | EmptyString => false
  | String c s => if (bz c <? 32) || (127 <=? bz c) then true else needs_quote s
  end.

Definition Quote (s : string) : string := if needs_quote s then quote_to_ascii s else s.

Definition QuoteEach (l : list string) : list string := map quote_to_ascii l.

Definition List (l : list string) : string := ("[" ++ join " " (QuoteEach l) ++ "]")%string.

(** What [Text] writes for one rune; the quotes strconv.QuoteRuneToASCII puts
    around an escape are cut off. *)
Definition text_rune (r : Z) : string := if negb (Unsafe r) then encode_rune r else escape_rune true r.

Definition Text (s : string) : string :=
  if valid_utf8 s && negb (existsb (λ p, Unsafe (fst p)) (runes s)) then s
  else concat_str (map (λ p, text_rune (fst p)) (runes s)).

(** ** What is written *)

Lemma escape_rune_printable r : 0 <= r → printable (escape_rune true r) = true.
Proof.
  intros Hr. unfold escape_rune.
  assert (Hh : ∀ c n z, in_range 32 126 (bz c) = true → printable (String backslash (String c (hex_n n z))) = true).
  { intros c n z Hc. pose proof (hex_n_printable n z) as Hn. unfold printable in *. cbn [s_all]. by rewrite Hc, Hn. }
  destruct (Z.eqb_spec r 34) as [->|]; [done|]. destruct (Z.eqb_spec r 92) as [->|]; [done|]. cbn [orb].
  destruct ((r <? 128) && is_print r) eqn:Hp.
  { apply andb_prop in Hp as [Hlt Hp]. apply Z.ltb_lt in Hlt. unfold is_print in Hp.
    destruct (Z.ltb_spec r 128); [|lia]. rewrite encode_rune_ascii by lia. unfold printable. cbn [s_all].
    rewrite bz_zb by lia. by rewrite Hp. }
  repeat (match goal with |- context [if ?b then _ else _] => destruct b end; try done; try (by apply Hh)).
Qed.

Lemma quote_to_ascii_printable s : printable (quote_to_ascii s) = true.
Proof.
  unfold quote_to_ascii, quote_with. change (String dquote ?x) with (String dquote "" ++ x)%string.
  rewrite !printable_app. apply andb_true_intro. split; [done|]. rewrite andb_true_r.
  assert (Hc : ∀ l, (∀ x, x ∈ l → printable x = true) → printable (concat_str l) = true).
  { clear. intros l. induction l as [|x l IH]; intros Hl; [done|]. cbn [concat_str foldr]. rewrite printable_app.
    rewrite (Hl x) by (by left). apply IH. intros y Hy. apply Hl. by right. }
  apply Hc. intros x (p & -> & Hp)%list_elem_of_fmap. destruct (bad_rune p).
  - destruct (snd p) as [|c t]; [done|]. pose proof (hex_n_printable 2 (bz c)) as Hn. unfold printable in *.
    cbn [s_all]. by rewrite Hn.
  - apply escape_rune_printable. by eapply runes_pos.
Qed.

Lemma needs_quote_printable s : needs_quote s = false → printable s = true.
Proof.
  induction s as [|c s IH]; [done|]. cbn [needs_quote]. destruct ((bz c <? 32) || (127 <=? bz c)) eqn:E; [done|].
  intros Hs. unfold printable in *. cbn [s_all]. rewrite IH by done. apply orb_false_iff in E as [E1 E2].
  rewrite in_range_true by lia. done.
Qed.

Lemma Quote_printable s : printable (Quote s) = true.
Proof. unfold Quote. destruct (needs_quote s) eqn:E; [apply quote_to_ascii_printable|by apply needs_quote_printable]. Qed.

Lemma List_printable l : printable (List l) = true.
Proof.
  unfold List. rewrite !printable_app. assert (printable (join " " (QuoteEach l)) = true) as ->; [|done].
  induction l as [|x [|y l] IH]; [done|apply quote_to_ascii_printable|].
  change (join " " (QuoteEach (x :: y :: l))) with (quote_to_ascii x ++ " " ++ join " " (QuoteEach (y :: l)))%string.
  by rewrite !printable_app, quote_to_ascii_printable, IH.
Qed.

(** A text whose every rune is safe. *)
Definition safe_text (s : string) : Prop := valid_utf8 s = true ∧ ∀ p, p ∈ runes s → Unsafe (fst p) = false.

Lemma safe_text_app a b : safe_text a → safe_text b → safe_text (a ++ b)%string.
Proof.
  intros [Ha1 Ha2] [Hb1 Hb2]. split; [by apply valid_utf8_app|]. intros p. rewrite runes_app by done.
  intros [Hp|Hp]%elem_of_app; auto.
Qed.

Lemma printable_safe s : printable s = true → safe_text s.
Proof.
  intros Hs. split; [by apply printable_valid|]. intros p. rewrite runes_ascii.
  2:{ eapply s_all_impl; [|exact Hs]. intros c. unfold in_range. intros Hc. apply Z.ltb_lt. lia. }
  intros (c & -> & Hc)%list_elem_of_fmap. cbn [fst].
  assert (Hr : 32 <= bz c <= 126).
  { clear -Hs Hc. unfold printable in Hs. induction s as [|d s IH]; cbn in *; [by apply not_elem_of_nil in Hc|].
    apply andb_prop in Hs as [Hd Hs]. apply elem_of_cons in Hc as [->|Hc]; [|auto]. unfold in_range in Hd. lia. }
  unfold Unsafe. repeat (match goal with |- context [if ?b then _ else _] => destruct b eqn:? end; try done); lia.
Qed.

Lemma text_rune_safe r : valid_rune r = true → safe_text (text_rune r).
Proof.
  intros Hv. unfold text_rune. destruct (Unsafe r) eqn:Hu; cbn [negb].
  - apply printable_safe, escape_rune_printable. unfold valid_rune, in_range in Hv. lia.
  - split; [apply encode_rune_valid|]. intros p. rewrite runes_encode by done. by intros ->%list_elem_of_singleton.
Qed.
End Termsafe.

(** Text leaves a message as it is when it is valid UTF-8 with no unsafe
    rune, and whatever the message is, its result is valid UTF-8 with no
    unsafe rune: no control character, line break or bidirectional formatting
    reaches the terminal, and escaping twice is escaping once.  The quoting
    functions write printable ASCII only. *)
Theorem Text_correct `{Unicode} s l :
  safe_text (Text s) ∧ (safe_text s → Text s = s) ∧ Text (Text s) = Text s ∧
  printable (Quote s) = true ∧ printable (List l) = true.
Proof.
  assert (Hs : ∀ s, safe_text s → Text s = s).
  { clear. intros s [Hv Hu]. unfold Text. rewrite Hv. cbn [andb].
    assert (existsb (λ p, Unsafe (fst p)) (runes s) = false) as -> by (by apply existsb_false_elem). done. }
  assert (Ht : safe_text (Text s)).
  { unfold Text. destruct (valid_utf8 s && _) eqn:E.
    - apply andb_prop in E as [Hv He]. split; [done|]. by apply existsb_false_elem, negb_true_iff.
    - assert (Hr : ∀ p, p ∈ runes s → valid_rune (fst p) = true) by (intros p; apply runes_valid_rune).
      clear E. induction (runes s) as [|p ps IH]; [by apply printable_safe|]. cbn [map concat_str foldr].
      apply safe_text_app; [apply text_rune_safe, Hr; by left|]. apply IH. intros q Hq. apply Hr. by right. }
  split; [done|]. split; [apply Hs|]. split; [by apply Hs|]. split; [apply Quote_printable|apply List_printable].
Qed.
