(* ===== verification/Sanitize.v ===== *)
(** * Escaping of upstream text: internal/proxy/sanitize.go

    [escapeControl], which every upstream string passes before a human, a log
    or the agent sees it. *)

From S2P Require Import Prelude GoStd.

Open Scope string_scope.
Open Scope Z_scope.
Open Scope list_scope.

Section Escape.
Context `{Unicode}.

Definition in_Cf (r : Z) : bool := if r <? 128 then false else uni_Cf r.

Definition isControl (r : Z) : bool :=
  (r <? 32) || (r =? 127) || ((128 <=? r) && (r <=? 159)) || in_Cf r || (r =? 8232) || (r =? 8233).

(** "%04x": at least four digits. *)
Definition hex_04 (r : Z) : string := hex_n (if r <? 65536 then 4 else if r <? 1048576 then 5 else 6) r.

Definition backslash_u : string := String backslash "u".

(** What one character of the input becomes. *)
Definition escape_piece (p : Z * string) : string :=
  if bad_rune p then (backslash_u ++ "fffd")%string
  else if fst p =? 92 then String backslash (String backslash "")
  else if isControl (fst p) then (backslash_u ++ hex_04 (fst p))%string
  else snd p.

(** The loop: [n] bytes are written already. *)
Fixpoint escape_from (limit n : Z) (ps : list (Z * string)) : string :=
  match ps with
  | [] => ""
  | p :: ps =>
      let piece := escape_piece p in
      if (0 <? limit) && (limit <? n + slen piece) then "..."
      else (piece ++ escape_from limit (n + slen piece) ps)%string
  end.

Definition escapeControl (s : string) (limit : Z) : string := escape_from limit 0 (runes s).

(** ** Facts *)

(** A character that is shown as it is. *)
Definition plain_char (s : string) : Prop :=
  ∃ r, valid_rune r = true ∧ s = encode_rune r ∧ isControl r = false ∧ r ≠ 92.

(** An escape: a doubled backslash, or a backslash, "u" and four to six
    hexadecimal digits. *)
Definition escape_seq (s : string) : Prop :=
  s = String backslash (String backslash "") ∨
  ∃ n z, (4 <= n <= 6)%nat ∧ s = (backslash_u ++ hex_n n z)%string.

Lemma escape_piece_shape s p : p ∈ runes s → plain_char (escape_piece p) ∨ escape_seq (escape_piece p).
Proof.
  intros Hp. unfold escape_piece. destruct (bad_rune p) eqn:Hb.
  { right; right. exists 4%nat, 65533. by split; [lia|]. }
  destruct (Z.eqb_spec (fst p) 92); [by right; left|].
  destruct (isControl (fst p)) eqn:Hc.
  - right; right. unfold hex_04. destruct (fst p <? 65536); [exists 4%nat, (fst p); split; [lia|done]|].
    destruct (fst p <? 1048576); [exists 5%nat, (fst p); split; [lia|done]|exists 6%nat, (fst p); split; [lia|done]].
  - left. destruct (runes_good s p Hp Hb) as (He & _). exists (fst p). split; [by eapply runes_valid_rune|]. by rewrite He.
Qed.

(** The text is a sequence of such pieces, and "..." at the end if it was
    cut. *)
Definition escaped (t : string) : Prop :=
  ∃ ps tail, t = (concat_str ps ++ tail)%string ∧ (tail = "" ∨ tail = "...") ∧
    ∀ x, x ∈ ps → plain_char x ∨ escape_seq x.

Lemma escape_from_escaped s limit n ps : (∀ p, p ∈ ps → p ∈ runes s) → escaped (escape_from limit n ps).
Proof.
  revert n. induction ps as [|p ps IH]; intros n Hps; cbn [escape_from].
  { exists [], "". split; [done|]. split; [by left|]. by intros x ?%not_elem_of_nil. }
  destruct ((0 <? limit) && _).
  { exists [], "...". split; [done|]. split; [by right|]. by intros x ?%not_elem_of_nil. }
  destruct (IH (n + slen (escape_piece p))) as (qs & tail & -> & Ht & Hq); [intros q Hq; apply Hps; by right|].
  exists (escape_piece p :: qs), tail. split; [cbn [concat_str foldr]; by rewrite app_assoc_str|]. split; [done|].
  intros x [->|Hx]%elem_of_cons; [|auto]. eapply escape_piece_shape, Hps. by left.
Qed.

Lemma escapeControl_escaped s limit : escaped (escapeControl s limit).
Proof. by apply (escape_from_escaped s). Qed.

(** A printable ASCII text has no control character. *)
Lemma printable_no_control t : printable t = true → valid_utf8 t = true ∧ ∀ p, p ∈ runes t → isControl (fst p) = false.
Proof.
  intros Hs. split; [by apply printable_valid|]. intros p. rewrite runes_ascii.
  2:{ eapply s_all_impl; [|exact Hs]. intros c. unfold in_range. intros Hc. apply Z.ltb_lt. lia. }
  intros (c & -> & Hc)%list_elem_of_fmap. cbn [fst].
  assert (Hr : 32 <= bz c <= 126).
  { clear -Hs Hc. unfold printable in Hs. induction t as [|d t IH]; cbn in *; [by apply not_elem_of_nil in Hc|].
    apply andb_prop in Hs as [Hd Hs]. apply elem_of_cons in Hc as [->|Hc]; [|auto]. unfold in_range in Hd. lia. }
  unfold isControl, in_Cf. destruct (Z.ltb_spec (bz c) 128); lia.
Qed.

Definition no_control (t : string) : Prop := valid_utf8 t = true ∧ ∀ p, p ∈ runes t → isControl (fst p) = false.

Lemma no_control_app a b : no_control a → no_control b → no_control (a ++ b)%string.
Proof.
  intros [Ha1 Ha2] [Hb1 Hb2]. split; [by apply valid_utf8_app|]. intros p. rewrite runes_app by done.
  intros [Hp|Hp]%elem_of_app; auto.
Qed.

Lemma piece_no_control x : plain_char x ∨ escape_seq x → no_control x.
Proof.
  intros [(r & Hv & -> & Hc & _)|[->|(n & z & _ & ->)] ].
  - split; [apply encode_rune_valid|]. rewrite runes_encode by done. by intros p ->%list_elem_of_singleton.
  - by apply printable_no_control.
  - apply printable_no_control. unfold backslash_u. rewrite printable_app. by rewrite hex_n_printable.
Qed.

Lemma escaped_no_control t : escaped t → no_control t.
Proof.
  intros (ps & tail & -> & Ht & Hps). apply no_control_app; [|destruct Ht as [-> | ->]; by apply printable_no_control].
  induction ps as [|x ps IH]; [by apply printable_no_control|]. cbn [concat_str foldr].
  apply no_control_app; [apply piece_no_control, Hps; by left|]. apply IH. intros y Hy. apply Hps. by right.
Qed.

(** At most [limit] bytes, and the three of "...". *)
Lemma escape_from_length limit n ps : 0 < limit → 0 <= n <= limit → n + slen (escape_from limit n ps) <= limit + 3.
Proof.
  intros Hl. revert n. induction ps as [|p ps IH]; intros n Hn; cbn [escape_from]; [change (slen "") with 0; lia|].
  destruct (Z.ltb_spec 0 limit); [|lia]. cbn [andb]. destruct (Z.ltb_spec limit (n + slen (escape_piece p))); [change (slen "...") with 3; lia|].
  unfold slen in *. rewrite length_app_str. specialize (IH (n + Z.of_nat (String.length (escape_piece p))) ltac:(lia)). lia.
Qed.

(** Without a limit the text is unchanged exactly when nothing needs an
    escape. *)
Lemma escapeControl_id s :
  valid_utf8 s = true → (∀ p, p ∈ runes s → isControl (fst p) = false ∧ fst p ≠ 92) → escapeControl s 0 = s.
Proof.
  intros Hv Hs. unfold escapeControl. rewrite <- (runes_concat s) at 2.
  assert (Hp : ∀ p, p ∈ runes s → escape_piece p = snd p).
  { intros p Hp. destruct (Hs p Hp) as [Hc Hne]. unfold escape_piece. rewrite (proj1 (valid_utf8_spec s) Hv p Hp), Hc.
    by destruct (Z.eqb_spec (fst p) 92). }
  clear Hs Hv. generalize 0 at 2. induction (runes s) as [|p ps IH]; intros n; [done|].
  cbn [escape_from map concat_str foldr]. change (0 <? 0) with false. cbn [andb].
  rewrite Hp by (by left). f_equal. apply IH. intros q Hq. apply Hp. by right.
Qed.
End Escape.

(** Whatever an upstream sends, escapeControl returns valid UTF-8 with no
    control or format character and no line or paragraph separator, made only
    of characters shown as they are and of escapes that begin with their own
    backslash (a backslash of the input is always doubled), cut to the limit
    and an ellipsis when there is one; and a text that needs no escape comes
    back unchanged. *)
Theorem escapeControl_correct `{Unicode} s limit :
  no_control (escapeControl s limit) ∧ escaped (escapeControl s limit) ∧
  (0 < limit → slen (escapeControl s limit) <= limit + 3) ∧
  (valid_utf8 s = true → (∀ p, p ∈ runes s → isControl (fst p) = false ∧ fst p ≠ 92) → escapeControl s 0 = s).
Proof.
  split; [apply escaped_no_control, escapeControl_escaped|]. split; [apply escapeControl_escaped|].
  split; [|apply escapeControl_id]. intros Hl. pose proof (escape_from_length limit 0 (runes s) Hl). unfold escapeControl. lia.
Qed.
