(* ===== verification/GoNetip.v ===== *)
(** * netip.ParseAddr, as far as the gate asks

    Whether a string parses as an IPv4 address, or as an IPv6 address without a
    zone.  The scanner stops at the first '.', ':' or '%' to choose. *)

From S2P Require Import Prelude GoStd.

Open Scope string_scope.
Open Scope Z_scope.
Open Scope list_scope.

Definition hexByte (c : ascii) : bool :=
  in_range 48 57 (bz c) || in_range 97 102 (bz c) || in_range 65 70 (bz c).

(** [parseIPv4Fields]: [pos] octets are complete, the current one has [digLen]
    digits of value [val]; [dot] says the byte before was a dot or none. *)
Fixpoint ipv4_fields (pos digLen : nat) (val : Z) (dot : bool) (s : string) : bool :=
  match s with
  | EmptyString => (3 <=? pos)%nat
  | String c s' =>
      if is_digit_b c then
        if (digLen =? 1)%nat && (val =? 0) then false
        else let val := val * 10 + (bz c - 48) in
             if val >? 255 then false else ipv4_fields pos (S digLen) val false s'
      else if Ascii.eqb c "." then
        if dot || String.eqb s' "" then false
        else if (pos =? 3)%nat then false
        else ipv4_fields (S pos) 0 0 true s'
      else false
  end.

Definition parse_ipv4 (s : string) : bool := ipv4_fields 0 0 0 true s.

(** The leading hexadecimal digits: their number and the rest. *)
Fixpoint hex_run (s : string) : nat * string :=
  match s with
  | String c s' => if hexByte c then let '(n, r) := hex_run s' in (S n, r) else (O, s)
  | EmptyString => (O, EmptyString)
  end.

(** The end of [parseIPv6]: the text is used up, and the ellipsis stands for at
    least one group. *)
Definition ipv6_done (room : nat) (ellipsis : bool) (s : string) : bool :=
  String.eqb s "" && if ellipsis then (0 <? room)%nat else (room =? 0)%nat.

(** [room] is the number of 16-bit groups left. *)
Fixpoint ipv6_groups (room : nat) (ellipsis : bool) (s : string) : bool :=
  match room with
  | O => ipv6_done 0 ellipsis s
  | S room' =>
      let '(n, r) := hex_run s in
      if (4 <? n)%nat || (n =? 0)%nat then false
      else match r with
      | String "." _ =>
          if negb ellipsis && negb (room =? 2)%nat then false
          else if (room <? 2)%nat then false
          else parse_ipv4 s && ipv6_done (room - 2) ellipsis ""
      | EmptyString => ipv6_done room' ellipsis ""
      | String ":" s' =>
          match s' with
          | EmptyString => false
          | String ":" s'' =>
              if ellipsis then false
              else match s'' with
                   | EmptyString => ipv6_done room' true ""
                   | _ => ipv6_groups room' true s''
                   end
          | _ => ipv6_groups room' ellipsis s'
          end
      | _ => false
      end
  end.

(** [parseIPv6] on a text without a zone. *)
Definition parse_ipv6 (s : string) : bool :=
  match cut_prefix "::" s with
  | Some EmptyString => true
  | Some s' => ipv6_groups 8 true s'
  | None => ipv6_groups 8 false s
  end.

Inductive addr := Addr4 | Addr6 (zone : bool).

Fixpoint first_sep (s : string) : option ascii :=
  match s with
  | EmptyString => None
  | String c s => if Ascii.eqb c "." || Ascii.eqb c ":" || Ascii.eqb c "%" then Some c else first_sep s
  end.

(** [netip.ParseAddr]: the kind of address; [None] is an error. *)
Definition parse_addr (s : string) : option addr :=
  match first_sep s with
  | Some "."%char => if parse_ipv4 s then Some Addr4 else None
  | Some ":"%char =>
      match cut_b "%" s with
      | None => if parse_ipv6 s then Some (Addr6 false) else None
      | Some (a, zone) =>
          if String.eqb zone "" then None else if parse_ipv6 a then Some (Addr6 true) else None
      end
  | _ => None
  end.

Example ex_ipv4 : map parse_ipv4 ["127.0.0.1"; "127.1"; "010.0.0.1"; "1.2.3.256"; "1.2.3.4."; "0.0.0.0"; "1..2.3"] =
  [true; false; false; false; false; true; false].
Proof. vm_compute. reflexivity. Qed.
Example ex_ipv6 : map parse_ipv6 ["::"; "::1"; "2001:db8::1"; "1:2:3:4:5:6:7:8"; "1:2:3:4:5:6:7:8::"; "1:2:3"; "::1.2.3.4";
   "1::2::3"; "12345::"; "1:2:3:4:5:6:7::"; ":1"; "1:2:3:4:5:6:1.2.3.4"; "1:2:3:4:5:6:7:1.2.3.4"] =
  [true; true; true; true; false; false; true; false; false; true; false; true; false].
Proof. vm_compute. reflexivity. Qed.
