(* ===== verification/GoCrypto.v ===== *)
(** * Hashes and text encodings: the parts of crypto/sha256, encoding/hex and
    encoding/base64 the program uses

    SHA-256 of FIPS 180-4 on byte strings, computed on 32-bit words kept as
    integers below 2^32. *)

From S2P Require Import Prelude GoStd.

Open Scope string_scope.
Open Scope Z_scope.
Open Scope list_scope.

Definition word32 (z : Z) : Z := Z.land z 4294967295.
Definition rotr32 (n x : Z) : Z := Z.lor (Z.shiftr x n) (word32 (Z.shiftl x (32 - n))).

(** The first 32 bits of the fractional parts of the square roots and cube
    roots of the first primes. *)
Definition sha256_init : list Z :=
  [1779033703; 3144134277; 1013904242; 2773480762; 1359893119; 2600822924;
   528734635; 1541459225].

Definition sha256_k : list Z :=
  [1116352408; 1899447441; 3049323471; 3921009573; 961987163; 1508970993;
   2453635748; 2870763221; 3624381080; 310598401; 607225278; 1426881987;
   1925078388; 2162078206; 2614888103; 3248222580; 3835390401; 4022224774;
   264347078; 604807628; 770255983; 1249150122; 1555081692; 1996064986;
   2554220882; 2821834349; 2952996808; 3210313671; 3336571891; 3584528711;
   113926993; 338241895; 666307205; 773529912; 1294757372; 1396182291;
   1695183700; 1986661051; 2177026350; 2456956037; 2730485921; 2820302411;
   3259730800; 3345764771; 3516065817; 3600352804; 4094571909; 275423344;
   430227734; 506948616; 659060556; 883997877; 958139571; 1322822218;
   1537002063; 1747873779; 1955562222; 2024104815; 2227730452; 2361852424;
   2428436474; 2756734187; 3204031479; 3329325298].

(** [n] bytes of [z], the most significant first. *)
Fixpoint be_bytes (n : nat) (z : Z) : string :=
  match n with
  | O => EmptyString
  | S n => String (zb (Z.land (Z.shiftr z (8 * Z.of_nat n)) 255)) (be_bytes n z)
  end.

Fixpoint zeros (n : nat) : string :=
  match n with O => EmptyString | S n => String (zb 0) (zeros n) end.

Definition sha256_pad (s : string) : string :=
  let n := slen s in
  (s ++ String (zb 128) (zeros (Z.to_nat ((55 - n) mod 64))) ++ be_bytes 8 (8 * n))%string.

(** The big-endian words of a padded message. *)
Fixpoint be_words (s : string) : list Z :=
  match s with
  | String a (String b (String c (String d s))) =>
      (bz a * 16777216 + bz b * 65536 + bz c * 256 + bz d) :: be_words s
  | _ => []
  end.

(** The message schedule, most recent word first. *)
Fixpoint schedule (n : nat) (rev : list Z) : list Z :=
  match n with
  | O => rev
  | S n =>
      let w i := List.nth i rev 0 in
      let s0 := Z.lxor (Z.lxor (rotr32 7 (w 14%nat)) (rotr32 18 (w 14%nat))) (Z.shiftr (w 14%nat) 3) in
      let s1 := Z.lxor (Z.lxor (rotr32 17 (w 1%nat)) (rotr32 19 (w 1%nat))) (Z.shiftr (w 1%nat) 10) in
      schedule n (word32 (w 15%nat + s0 + w 6%nat + s1) :: rev)
  end.

Definition sha256_round (st : list Z) (kw : Z * Z) : list Z :=
  match st with
  | [a; b; c; d; e; f; g; h] =>
      let s1 := Z.lxor (Z.lxor (rotr32 6 e) (rotr32 11 e)) (rotr32 25 e) in
      let ch := Z.lxor (Z.land e f) (Z.land (Z.lxor e 4294967295) g) in
      let t1 := h + s1 + ch + fst kw + snd kw in
      let s0 := Z.lxor (Z.lxor (rotr32 2 a) (rotr32 13 a)) (rotr32 22 a) in
      let maj := Z.lxor (Z.lxor (Z.land a b) (Z.land a c)) (Z.land b c) in
      [word32 (t1 + s0 + maj); a; b; c; word32 (d + t1); e; f; g]
  | _ => st
  end.

Definition sha256_block (st block : list Z) : list Z :=
  let ws := List.rev (schedule 48 (List.rev block)) in
  let st' := fold_left sha256_round (List.combine sha256_k ws) st in
  map (λ p, word32 (fst p + snd p)) (List.combine st st').

(** The state after every 16-word block; [fuel] bounds the number of blocks. *)
Fixpoint sha256_blocks (fuel : nat) (st ws : list Z) : list Z :=
  match fuel, ws with
  | S fuel, _ :: _ => sha256_blocks fuel (sha256_block st (take 16 ws)) (drop 16 ws)
  | _, _ => st
  end.

(** [sha256.Sum256]: 32 bytes. *)
Definition sha256 (s : string) : string :=
  let ws := be_words (sha256_pad s) in
  concat_str (map (be_bytes 4) (sha256_blocks (List.length ws) sha256_init ws)).

(** [hmac.New(sha256.New, key)] and its Sum over one message. *)
Definition hmac_block (key : string) : string :=
  let k := if 64 <? slen key then sha256 key else key in
  (k ++ zeros (64 - String.length k))%string.

Definition xor_bytes (z : Z) : string → string := s_map (λ c, zb (Z.lxor (bz c) z)).

Definition hmac_sha256 (key msg : string) : string :=
  let k := hmac_block key in
  sha256 (xor_bytes 92 k ++ sha256 (xor_bytes 54 k ++ msg))%string.

(** [hex.EncodeToString]. *)
Fixpoint hex_encode (s : string) : string :=
  match s with
  | EmptyString => EmptyString
  | String c s => (hex_n 2 (bz c) ++ hex_encode s)%string
  end.

Definition base64url_alphabet : string :=
  "ABCDEFGHIJKLMNOPQRSTUVWXYZabcdefghijklmnopqrstuvwxyz0123456789-_".

Definition base64url_char (z : Z) : ascii := default "A"%char (String.get (Z.to_nat z) base64url_alphabet).

(** [base64.RawURLEncoding.EncodeToString]: no padding. *)
Fixpoint base64url_encode (s : string) : string :=
  match s with
  | EmptyString => EmptyString
  | String a EmptyString =>
      let v := bz a * 16 in
      String (base64url_char (v / 64)) (String (base64url_char (v mod 64)) EmptyString)
  | String a (String b EmptyString) =>
      let v := bz a * 1024 + bz b * 4 in
      String (base64url_char (v / 4096)) (String (base64url_char (v / 64 mod 64))
        (String (base64url_char (v mod 64)) EmptyString))
  | String a (String b (String c s)) =>
      let v := bz a * 65536 + bz b * 256 + bz c in
      String (base64url_char (v / 262144)) (String (base64url_char (v / 4096 mod 64))
        (String (base64url_char (v / 64 mod 64)) (String (base64url_char (v mod 64)) (base64url_encode s))))
  end.

(** The test vectors of FIPS 180-4 and RFC 4648. *)
Example ex_sha256 :
  hex_encode (sha256 "abc") = "ba7816bf8f01cfea414140de5dae2223b00361a396177a9cb410ff61f20015ad" ∧
  hex_encode (sha256 "abcdbcdecdefdefgefghfghighijhijkijkljklmklmnlmnomnopnopq") =
    "248d6a61d20638b8e5c026930c3e6039a33ce45964ff2167f6ecedd419db06c1".
Proof. split; vm_compute; reflexivity. Qed.

(** RFC 4231, test case 2. *)
Example ex_hmac :
  hex_encode (hmac_sha256 "Jefe" "what do ya want for nothing?") =
  "5bdcc146bf60754e6a042426089575c75a003f089d2739839dec58b964ec3843".
Proof. vm_compute. reflexivity. Qed.

Example ex_base64 : map base64url_encode ["f"; "fo"; "foo"; "foob"] = ["Zg"; "Zm8"; "Zm9v"; "Zm9vYg"].
Proof. reflexivity. Qed.

(** ** base64.StdEncoding *)

Definition base64_alphabet : string :=
  "ABCDEFGHIJKLMNOPQRSTUVWXYZabcdefghijklmnopqrstuvwxyz0123456789+/".

Definition base64_char (z : Z) : ascii := default "A"%char (String.get (Z.to_nat z) base64_alphabet).

Fixpoint index_in (c : ascii) (s : string) : option Z :=
  match s with
  | EmptyString => None
  | String d s => if Ascii.eqb c d then Some 0 else Z.succ <$> index_in c s
  end.

Definition base64_value (c : ascii) : option Z := index_in c base64_alphabet.

Fixpoint base64_encode (s : string) : string :=
  match s with
  | EmptyString => EmptyString
  | String a EmptyString =>
      let v := bz a * 16 in
      String (base64_char (v / 64)) (String (base64_char (v mod 64)) "==")
  | String a (String b EmptyString) =>
      let v := bz a * 1024 + bz b * 4 in
      String (base64_char (v / 4096)) (String (base64_char (v / 64 mod 64))
        (String (base64_char (v mod 64)) "="))
  | String a (String b (String c s)) =>
      let v := bz a * 65536 + bz b * 256 + bz c in
      String (base64_char (v / 262144)) (String (base64_char (v / 4096 mod 64))
        (String (base64_char (v / 64 mod 64)) (String (base64_char (v mod 64)) (base64_encode s))))
  end.

(** [DecodeString] on a text without line breaks; the unused low bits of the
    last digit are ignored, as Go's encoding is not strict. *)
Fixpoint base64_groups (s : string) : option string :=
  match s with
  | EmptyString => Some EmptyString
  | String a (String b (String c (String d s))) =>
      match base64_value a, base64_value b with
      | Some x, Some y =>
          match base64_value c, base64_value d with
          | Some z, Some w =>
              let v := x * 262144 + y * 4096 + z * 64 + w in
              match base64_groups s with
              | Some r => Some (String (zb (v / 65536)) (String (zb (v / 256 mod 256)) (String (zb (v mod 256)) r)))
              | None => None
              end
          | Some z, None =>
              if Ascii.eqb d "=" && String.eqb s "" then
                let v := (x * 4096 + y * 64 + z) / 4 in Some (String (zb (v / 256)) (String (zb (v mod 256)) EmptyString))
              else None
          | None, _ =>
              if Ascii.eqb c "=" && Ascii.eqb d "=" && String.eqb s "" then
                Some (String (zb ((x * 64 + y) / 16)) EmptyString)
              else None
          end
      | _, _ => None
      end
  | _ => None
  end.

(** Go skips CR and LF wherever they are. *)
Fixpoint drop_breaks (s : string) : string :=
  match s with
  | EmptyString => EmptyString
  | String c s => if (bz c =? 10) || (bz c =? 13) then drop_breaks s else String c (drop_breaks s)
  end.

Definition base64_decode (s : string) : option string := base64_groups (drop_breaks s).

Lemma base64_value_char z : 0 <= z < 64 → base64_value (base64_char z) = Some z.
Proof.
  intros Hz. assert (Hall : forallb (λ n, bool_decide (base64_value (base64_char (Z.of_nat n)) = Some (Z.of_nat n))) (seq 0 64) = true)
    by (by vm_compute).
  rewrite forallb_elem in Hall. specialize (Hall (Z.to_nat z)). rewrite bool_decide_eq_true in Hall.
  rewrite Z2Nat.id in Hall by lia. apply Hall. apply elem_of_seq. lia.
Qed.

Lemma base64_value_pad : base64_value "=" = None.
Proof. reflexivity. Qed.

(** Induction three bytes at a time. *)
Lemma triples_ind (P : string → Prop) :
  P EmptyString → (∀ a, P (String a EmptyString)) → (∀ a b, P (String a (String b EmptyString))) →
  (∀ a b c s, P s → P (String a (String b (String c s)))) → ∀ s, P s.
Proof.
  intros H0 H1 H2 H3. fix IH 1. intros [|a [|b [|c s]]]; [apply H0|apply H1|apply H2|apply H3, IH].
Qed.

Lemma base64_groups_encode s : base64_groups (base64_encode s) = Some s.
Proof.
  assert (Hb : ∀ v c, v = bz c → zb v = c) by (intros v c ->; apply zb_bz).
  induction s as [|a|a b|a b c s IH] using triples_ind; [done| | |].
  - pose proof (bz_range a). cbn [base64_encode base64_groups]. set (v := bz a * 16).
    assert (0 <= v / 64 < 64) by (split; [apply Z.div_pos|apply Z.div_lt_upper_bound]; lia).
    rewrite !base64_value_char by (done || (apply Z.mod_pos_bound; lia)).
    rewrite base64_value_pad. cbn [Ascii.eqb String.eqb andb].
    assert (Hv : v / 64 * 64 + v mod 64 = v) by (pose proof (Z.div_mod v 64 ltac:(lia)); lia).
    rewrite Hv. unfold v. rewrite Z.div_mul by lia. by rewrite zb_bz.
  - pose proof (bz_range a). pose proof (bz_range b). cbn [base64_encode base64_groups]. set (v := bz a * 1024 + bz b * 4).
    assert (0 <= v / 4096 < 64) by (split; [apply Z.div_pos|apply Z.div_lt_upper_bound]; lia).
    rewrite !base64_value_char by (done || (apply Z.mod_pos_bound; lia)).
    rewrite base64_value_pad. cbn [Ascii.eqb String.eqb andb].
    assert (Hv : v / 4096 * 4096 + v / 64 mod 64 * 64 + v mod 64 = v).
    { pose proof (Z.div_mod v 64 ltac:(lia)). pose proof (Z.div_mod (v / 64) 64 ltac:(lia)).
      rewrite Z.div_div in * by lia. change (64 * 64) with 4096 in *. lia. }
    rewrite Hv. assert (Hv4 : v / 4 = bz a * 256 + bz b).
    { unfold v. replace (bz a * 1024 + bz b * 4) with ((bz a * 256 + bz b) * 4) by lia. by rewrite Z.div_mul by lia. }
    rewrite Hv4. cbn. f_equal. f_equal; [|f_equal]; apply Hb.
    + rewrite Z.div_add_l by lia. rewrite Z.div_small by lia. lia.
    + rewrite Z.add_comm, Z.mod_add by lia. by apply Z.mod_small.
  - pose proof (bz_range a). pose proof (bz_range b). pose proof (bz_range c). cbn [base64_encode base64_groups].
    set (v := bz a * 65536 + bz b * 256 + bz c).
    assert (0 <= v / 262144 < 64) by (split; [apply Z.div_pos|apply Z.div_lt_upper_bound]; lia).
    rewrite !base64_value_char by (done || (apply Z.mod_pos_bound; lia)). rewrite IH.
    assert (Hv : v / 262144 * 262144 + v / 4096 mod 64 * 4096 + v / 64 mod 64 * 64 + v mod 64 = v).
    { pose proof (Z.div_mod v 64 ltac:(lia)). pose proof (Z.div_mod (v / 64) 64 ltac:(lia)).
      pose proof (Z.div_mod (v / 64 / 64) 64 ltac:(lia)).
      rewrite !Z.div_div in * by lia. change (64 * 64 * 64) with 262144 in *. change (64 * 64) with 4096 in *. lia. }
    rewrite Hv. f_equal. unfold v.
    assert (E1 : (bz a * 65536 + bz b * 256 + bz c) / 65536 = bz a).
    { replace (bz a * 65536 + bz b * 256 + bz c) with (bz a * 65536 + (bz b * 256 + bz c)) by lia.
      rewrite Z.div_add_l by lia. rewrite Z.div_small by lia. lia. }
    assert (E2 : (bz a * 65536 + bz b * 256 + bz c) / 256 mod 256 = bz b).
    { replace (bz a * 65536 + bz b * 256 + bz c) with ((bz a * 256 + bz b) * 256 + bz c) by lia.
      rewrite Z.div_add_l by lia. rewrite (Z.div_small (bz c)) by lia.
      replace (bz a * 256 + bz b + 0) with (bz b + bz a * 256) by lia. rewrite Z.mod_add by lia. by apply Z.mod_small. }
    assert (E3 : (bz a * 65536 + bz b * 256 + bz c) mod 256 = bz c).
    { replace (bz a * 65536 + bz b * 256 + bz c) with (bz c + (bz a * 256 + bz b) * 256) by lia.
      rewrite Z.mod_add by lia. by apply Z.mod_small. }
    rewrite E1, E2, E3. by rewrite !zb_bz.
Qed.

(** ** Lengths and injectivity *)

Lemma sha256_block_length st block : List.length st = 8%nat → List.length (sha256_block st block) = 8%nat.
Proof.
  intros Hst. unfold sha256_block. rewrite length_map.
  set (l := List.combine sha256_k _). clearbody l.
  assert (Hr : ∀ l st, List.length st = 8%nat → List.length (fold_left sha256_round l st) = 8%nat).
  { clear. intros l. induction l as [|kw l IH]; intros st Hst; [done|]. cbn [fold_left]. apply IH.
    by destruct st as [|? [|? [|? [|? [|? [|? [|? [|? [|? ?] ] ] ] ] ] ] ] ]. }
  pose proof (Hr l st Hst). rewrite length_combine. lia.
Qed.

Lemma sha256_length s : String.length (sha256 s) = 32%nat.
Proof.
  assert (Hb : ∀ fuel st ws, List.length st = 8%nat → List.length (sha256_blocks fuel st ws) = 8%nat).
  { intros fuel. induction fuel as [|fuel IH]; intros st ws Hst; [done|]. destruct ws as [|w ws]; [done|].
    cbn [sha256_blocks]. by apply IH, sha256_block_length. }
  unfold sha256. set (ws := be_words _).
  pose proof (Hb (List.length ws) sha256_init ws eq_refl) as H8.
  destruct (sha256_blocks _ _ _) as [|? [|? [|? [|? [|? [|? [|? [|? [|? ?] ] ] ] ] ] ] ] ]; done.
Qed.

Lemma hex_encode_length s : String.length (hex_encode s) = (2 * String.length s)%nat.
Proof. induction s as [|c s IH]; [done|]. cbn [hex_encode]. rewrite length_app_str, IH. cbn. lia. Qed.

(** The byte two hexadecimal digits stand for. *)
Definition hex_byte (s : string) : Z :=
  let v c := if bz c <? 58 then bz c - 48 else bz c - 87 in
  match s with String a (String b _) => 16 * v a + v b | _ => 0 end.

Lemma hex_byte_hex_n c : hex_byte (hex_n 2 (bz c)) = bz c.
Proof.
  assert (Hall : forallb (λ n, hex_byte (hex_n 2 (Z.of_nat n)) =? Z.of_nat n) (seq 0 256) = true) by (by vm_compute).
  rewrite forallb_elem in Hall. pose proof (bz_range c).
  specialize (Hall (Z.to_nat (bz c)) ltac:(apply elem_of_seq; lia)).
  rewrite Z2Nat.id in Hall by lia. by apply Z.eqb_eq.
Qed.

Lemma hex_encode_inj a b : hex_encode a = hex_encode b → a = b.
Proof.
  revert b. induction a as [|c a IH]; intros [|d b]; cbn [hex_encode]; try (intros H; discriminate H); [done|].
  intros H. assert (Hcd : hex_n 2 (bz c) = hex_n 2 (bz d) ∧ hex_encode a = hex_encode b).
  { cbn [hex_n String.append] in H |- *. injection H. intros -> -> ->. done. }
  destruct Hcd as [Hcd Hab]. apply IH in Hab as ->. f_equal. apply bz_inj.
  by rewrite <- (hex_byte_hex_n c), <- (hex_byte_hex_n d), Hcd.
Qed.

Lemma base64_char_no_break z : (bz (base64_char z) =? 10) || (bz (base64_char z) =? 13) = false.
Proof.
  unfold base64_char. destruct (String.get (Z.to_nat z) base64_alphabet) as [c|] eqn:E; [|done]. cbn [default].
  assert (Hall : forallb (λ n, match String.get n base64_alphabet with
    Some c => negb ((bz c =? 10) || (bz c =? 13)) | None => true end) (seq 0 64) = true) by (by vm_compute).
  destruct (Nat.lt_ge_cases (Z.to_nat z) 64) as [Hlt|Hge].
  - rewrite forallb_elem in Hall. specialize (Hall (Z.to_nat z) ltac:(apply elem_of_seq; lia)).
    rewrite E in Hall. by apply negb_true_iff in Hall.
  - assert (Hn : ∀ s n, (String.length s ≤ n)%nat → String.get n s = None).
    { clear. intros s. induction s as [|c s IH]; intros [|n] Hn; cbn in *; try done; try lia. apply IH. lia. }
    by rewrite Hn in E.
Qed.

Lemma base64_encode_no_breaks s : drop_breaks (base64_encode s) = base64_encode s.
Proof.
  induction s as [|a|a b|a b c s IH] using triples_ind; [done|..]; cbn [base64_encode drop_breaks];
    rewrite !base64_char_no_break; [done..|by rewrite IH].
Qed.

Lemma base64_decode_encode s : base64_decode (base64_encode s) = Some s.
Proof. unfold base64_decode. rewrite base64_encode_no_breaks. apply base64_groups_encode. Qed.

Lemma base64_char_ascii z : bz (base64_char z) <? 128 = true.
Proof.
  unfold base64_char. destruct (String.get (Z.to_nat z) base64_alphabet) as [c|] eqn:E; [|done]. cbn [default].
  assert (Hall : ∀ s n, s_all (λ c, bz c <? 128) s = true → String.get n s = Some c → bz c <? 128 = true).
  { clear. intros s. induction s as [|d s IH]; intros [|n]; cbn; try done; intros [Hd Hs]%andb_prop; [by intros [= <-]|]. by apply IH. }
  by apply (Hall base64_alphabet (Z.to_nat z)).
Qed.

Lemma base64_encode_ascii s : is_ascii (base64_encode s) = true.
Proof.
  unfold is_ascii. induction s as [|a|a b|a b c s IH] using triples_ind; [done|..]; cbn [base64_encode s_all];
    rewrite !base64_char_ascii; [done..|by rewrite IH].
Qed.

(** At most two characters for a byte, and two more for the padding. *)
Lemma base64_encode_length s : (String.length (base64_encode s) <= 2 * String.length s + 2)%nat.
Proof. induction s as [|a|a b|a b c s IH] using triples_ind; cbn [base64_encode String.length]; lia. Qed.

(** ** base64.RawURLEncoding.DecodeString *)

(** A digit of the URL alphabet as the standard one's; [None] for a byte that
    is no digit of it but one of the standard encoding's. *)
Definition url_digit (c : ascii) : option ascii :=
  if Ascii.eqb c "-" then Some "+"%char
  else if Ascii.eqb c "_" then Some "/"%char
  else if Ascii.eqb c "+" || Ascii.eqb c "/" || Ascii.eqb c "=" then None
  else Some c.

Fixpoint url_digits (s : string) : option string :=
  match s with
  | EmptyString => Some EmptyString
  | String c s =>
      match url_digit c, url_digits s with
      | Some d, Some t => Some (String d t)
      | _, _ => None
      end
  end.

(** The padding the encoding leaves out. *)
Definition url_padding (n : nat) : option string :=
  match (n mod 4)%nat with 0%nat => Some "" | 2%nat => Some "==" | 3%nat => Some "=" | _ => None end.

Definition base64url_decode (s : string) : option string :=
  match url_digits (drop_breaks s), url_padding (String.length (drop_breaks s)) with
  | Some t, Some pad => base64_groups (t ++ pad)%string
  | _, _ => None
  end.

Lemma base64url_char_digit z : 0 <= z < 64 →
  url_digit (base64url_char z) = Some (base64_char z) ∧
  ((bz (base64url_char z) =? 10) || (bz (base64url_char z) =? 13)) = false.
Proof.
  intros Hz.
  assert (Hall : forallb (λ n, bool_decide (url_digit (base64url_char (Z.of_nat n)) = Some (base64_char (Z.of_nat n))) &&
    negb ((bz (base64url_char (Z.of_nat n)) =? 10) || (bz (base64url_char (Z.of_nat n)) =? 13))) (seq 0 64) = true)
    by (by vm_compute).
  rewrite forallb_elem in Hall. specialize (Hall (Z.to_nat z) ltac:(apply elem_of_seq; lia)).
  rewrite Z2Nat.id in Hall by lia. apply andb_prop in Hall as [H1 H2].
  split; [by apply bool_decide_eq_true in H1|by apply negb_true_iff].
Qed.

Lemma base64url_encode_digits s :
  drop_breaks (base64url_encode s) = base64url_encode s ∧
  ∃ t pad, url_digits (base64url_encode s) = Some t ∧ url_padding (String.length (base64url_encode s)) = Some pad ∧
    (t ++ pad)%string = base64_encode s.
Proof.
  assert (Hm : ∀ v, 0 <= v mod 64 < 64) by (intros v; apply Z.mod_pos_bound; lia).
  induction s as [|a|a b|a b c s (IHd & t & pad & Ht & Hpad & IH)] using triples_ind.
  - split; [done|]. by exists "", "".
  - pose proof (bz_range a). assert (Hq : 0 <= bz a * 16 / 64 < 64) by (split; [apply Z.div_pos|apply Z.div_lt_upper_bound]; lia).
    pose proof (base64url_char_digit _ Hq) as [D1 B1]. pose proof (base64url_char_digit _ (Hm (bz a * 16))) as [D2 B2].
    cbn [base64url_encode drop_breaks url_digits]. rewrite B1, B2, D1, D2. split; [done|]. eexists _, "==". done.
  - pose proof (bz_range a). pose proof (bz_range b). set (v := bz a * 1024 + bz b * 4).
    assert (Hq : 0 <= v / 4096 < 64) by (split; [apply Z.div_pos|apply Z.div_lt_upper_bound]; lia).
    pose proof (base64url_char_digit _ Hq) as [D1 B1]. pose proof (base64url_char_digit _ (Hm (v / 64))) as [D2 B2].
    pose proof (base64url_char_digit _ (Hm v)) as [D3 B3].
    cbn [base64url_encode drop_breaks url_digits]. fold v. rewrite B1, B2, B3, D1, D2, D3. split; [done|]. eexists _, "=". done.
  - pose proof (bz_range a). pose proof (bz_range b). pose proof (bz_range c). set (v := bz a * 65536 + bz b * 256 + bz c).
    assert (Hq : 0 <= v / 262144 < 64) by (split; [apply Z.div_pos|apply Z.div_lt_upper_bound]; lia).
    pose proof (base64url_char_digit _ Hq) as [D1 B1]. pose proof (base64url_char_digit _ (Hm (v / 4096))) as [D2 B2].
    pose proof (base64url_char_digit _ (Hm (v / 64))) as [D3 B3]. pose proof (base64url_char_digit _ (Hm v)) as [D4 B4].
    cbn [base64url_encode drop_breaks url_digits base64_encode String.length]. fold v.
    rewrite B1, B2, B3, B4, D1, D2, D3, D4, IHd, Ht. split; [done|]. eexists _, pad. split; [done|]. split; [|by rewrite <- IH].
    rewrite <- Hpad. unfold url_padding.
    replace (S (S (S (S (String.length (base64url_encode s)))))) with (String.length (base64url_encode s) + 1 * 4)%nat by lia.
    by rewrite Nat.Div0.mod_add.
Qed.

Lemma base64url_decode_encode s : base64url_decode (base64url_encode s) = Some s.
Proof.
  destruct (base64url_encode_digits s) as (Hd & t & pad & Ht & Hp & E).
  unfold base64url_decode. rewrite Hd, Ht, Hp, E. apply base64_groups_encode.
Qed.

Lemma base64url_encode_inj a b : base64url_encode a = base64url_encode b → a = b.
Proof. intros H. pose proof (base64url_decode_encode a) as Ha. rewrite H, base64url_decode_encode in Ha. by injection Ha. Qed.
