(* ===== verification/AuditKey.v ===== *)
(** * The audit log's keys and files: internal/audit/key.go, key_unix.go

    Creating the checkpoint key pair, reading the keys back, and opening the
    log, on Unix.  A program is a state transformer over the file system; the
    answer of the n-th system call, failure or not, is a parameter.
    crypto/x509 and pem.Decode are parameters.

    [WriteKeyPair_outcomes]: nothing that exists is touched; success leaves both
    files with their modes and contents; after a failure no file is left unless a
    close or a step of the clean-up failed too.  [ex_close_fails] is the case
    that leaves the private key without the public one.  [keys_roundtrip]: what
    is written is read back. *)

From S2P Require Import Prelude GoStd GoFile FileChecks GoCrypto.

Open Scope string_scope.
Open Scope Z_scope.
Open Scope list_scope.

(** ** System calls *)

Inductive call := COpen | CChmod | CAcl | CWrite | CSync | CClose | CStat | CLstat | CRemove.

(** The file system, the calls made and those that failed. *)
Record os := { os_fs : filesys; os_calls : nat; os_failed : list call }.

Definition M (A : Type) : Type := os → os * A.
#[export] Instance M_ret : MRet M := λ A a o, (o, a).
#[export] Instance M_bind : MBind M := λ A B f m o, let '(o, a) := m o in f a o.

(** The modes of key_unix.go: 0o600 and 0o644. *)
Definition ownerOnlyMode : Z := 384.
Definition publicMode : Z := 420.

Definition set_fs (f : filesys → filesys) (o : os) : os := {| os_fs := f (os_fs o); os_calls := os_calls o; os_failed := os_failed o |}.
Definition on_node (i : Z) (f : inode → inode) (fs : filesys) : filesys :=
  match fs_nodes fs !! i with Some nd => update_node i (f nd) fs | None => fs end.

(** A number no inode has. *)
Definition next_inode (fs : filesys) : Z := 1 + foldr Z.max 0 (map fst (map_to_list (fs_nodes fs))).

Definition add_file (path : string) (i : Z) (nd : inode) (fs : filesys) : filesys :=
  {| fs_names := <[path := Hard i]> (fs_names fs); fs_nodes := <[i := nd]> (fs_nodes fs) |}.
Definition remove_name (path : string) (fs : filesys) : filesys :=
  {| fs_names := delete path (fs_names fs); fs_nodes := fs_nodes fs |}.

Section Calls.
Context (fails : nat → option string) (partial : nat) (euid umask : Z) (inherits : string → bool).

(** One system call: its failure, or its effect. *)
Definition sys {A} (c : call) (effect : os → os * result errno A) : M (result errno A) := λ o,
  let o' := {| os_fs := os_fs o; os_calls := S (os_calls o); os_failed := os_failed o |} in
  match fails (os_calls o) with
  | Some e => ({| os_fs := os_fs o'; os_calls := os_calls o'; os_failed := c :: os_failed o' |}, Err (ESYS e))
  | None => effect o'
  end.

(** open(2) with O_CREAT|O_EXCL; on macOS the new file may inherit a list. *)
Definition open_excl (path : string) (mode : Z) : M (result errno Z) :=
  sys COpen (λ o,
    match fs_names (os_fs o) !! path with
    | Some _ => (o, Err EEXIST)
    | None =>
        let i := next_inode (os_fs o) in
        let nd := {| nd_kind := KRegular; nd_uid := euid; nd_perm := Z.land mode (Z.lnot umask); nd_nlink := 1; nd_acl := inherits path; nd_data := "" |} in
        (set_fs (add_file path i nd) o, Ok i)
    end).

Definition Chmod (f mode : Z) : M (result errno unit) := sys CChmod (λ o, (set_fs (on_node f (set_perm mode)) o, Ok tt)).
(** fileacl.Extended. *)
Definition read_acl (f : Z) : M (result errno bool) := sys CAcl (λ o, (o, Ok (from_option nd_acl false (fs_nodes (os_fs o) !! f)))).
Definition Stat (f : Z) : M (result errno Z) := sys CStat (λ o, (o, Ok f)).
Definition Lstat (path : string) : M (result errno entry) :=
  sys CLstat (λ o, (o, match fs_names (os_fs o) !! path with Some e => Ok e | None => Err ENOENT end)).
Definition Remove (path : string) : M (result errno unit) :=
  sys CRemove (λ o, match fs_names (os_fs o) !! path with Some _ => (set_fs (remove_name path) o, Ok tt) | None => (o, Err ENOENT) end).
Definition Sync (f : Z) : M (result errno unit) := sys CSync (λ o, (o, Ok tt)).
Definition Close (f : Z) : M (result errno unit) := sys CClose (λ o, (o, Ok tt)).
(** A failed write leaves a part. *)
Definition Write (f : Z) (data : string) : M (result errno unit) := λ o,
  let '(o', r) := sys CWrite (λ o, (set_fs (on_node f (λ nd, set_data (nd_data nd ++ data) nd)) o, Ok tt)) o in
  match r with
  | Ok _ => (o', r)
  | Err _ => (set_fs (on_node f (λ nd, set_data (nd_data nd ++ s_take partial data) nd)) o', r)
  end.

(** ** Creating files: key_unix.go and key.go *)

Inductive create_error := CreateSys (e : errno) | CreateAclUnread (e : errno) | CreateAcl.
#[export] Instance create_error_eq_dec : EqDecision create_error.
Proof. solve_decision. Defined.

(** [removeCreated]: only while the name still is the file's. *)
Definition removeCreated (f : Z) (path : string) : M (option errno) :=
  fi ← Stat f;
  match fi with
  | Err e => mret (Some e)
  | Ok i =>
      li ← Lstat path;
      match li with
      | Err e => mret (Some e)
      | Ok (Symlink _) => mret (Some (ESYS "no longer refers to the file created"))
      | Ok (Hard j) =>
          if negb (i =? j) then mret (Some (ESYS "no longer refers to the file created"))
          else r ← Remove path; mret (match r with Ok _ => None | Err e => Some e end)
      end
  end.

Definition discard (f : Z) (path : string) : M unit :=
  _ ← removeCreated f path; _ ← Close f; mret tt.

Definition refuseExtendedACL (f : Z) : M (option create_error) :=
  r ← read_acl f; mret (match r with Err e => Some (CreateAclUnread e) | Ok true => Some CreateAcl | Ok false => None end).

Definition createExclusive (path : string) (ownerOnly : bool) : M (result create_error Z) :=
  let mode := if ownerOnly then ownerOnlyMode else publicMode in
  r ← open_excl path mode;
  match r with
  | Err e => mret (Err (CreateSys e))
  | Ok f =>
      c ← Chmod f mode;
      match c with
      | Err e => _ ← discard f path; mret (Err (CreateSys e))
      | Ok _ =>
          if ownerOnly then
            a ← refuseExtendedACL f;
            match a with Some e => _ ← discard f path; mret (Err e) | None => mret (Ok f) end
          else mret (Ok f)
      end
  end.

(** [fill]: on failure the file is deleted. *)
Definition fill (f : Z) (path data : string) : M (option errno) :=
  w ← Write f data;
  s ← (match w with Err e => mret (Err e) | Ok _ => Sync f end);
  match s with
  | Err e => _ ← discard f path; mret (Some e)
  | Ok _ => mret None
  end.
End Calls.

(** ** PEM *)

(** A base64 text in lines of 64. *)
Fixpoint pem_lines (n : nat) (s : string) : string :=
  match n with
  | O => ""
  | S n => if String.eqb s "" then "" else (s_take 64 s ++ String "010" (pem_lines n (s_drop 64 s)))%string
  end.

(** pem.EncodeToMemory of a block without headers. *)
Definition pem_Encode (type der : string) : string :=
  let text := base64_encode der in
  ("-----BEGIN " ++ type ++ "-----" ++ String "010" (pem_lines (String.length text) text ++ "-----END " ++ type ++ "-----" ++ String "010" ""))%string.

Record pem_block := { pb_Type : string; pb_Headers : Z; pb_Bytes : string }.

(** [bytes.Count] and [bytes.Index] for a text that is not empty. *)
Fixpoint count_from (skip : nat) (s sub : string) : Z :=
  match s with
  | EmptyString => 0
  | String _ s' =>
      match skip with
      | S k => count_from k s' sub
      | O => if has_prefix s sub then 1 + count_from (String.length sub - 1) s' sub else count_from 0 s' sub
      end
  end.
Fixpoint index_of (s sub : string) : option nat :=
  if has_prefix s sub then Some 0%nat
  else match s with EmptyString => None | String _ s' => S <$> index_of s' sub end.

Definition pemBegin : string := "-----BEGIN ".

Inductive key_error :=
  | KeyRead (e : secret_error) | KeyNoBlock | KeyManyBlocks | KeyTextBefore | KeyMalformed | KeyHeaders | KeyTextAfter | KeyType | KeyParse (e : string)
  | KeyNotEd25519 | PubRead (e : string) | PubNotRegular | PubTooLarge | ErrPrivateKey
  | KeyMarshal (e : string) | KeyCreate (e : create_error) | KeyWrite (e : errno).

Definition maxKeyFileBytes : Z := 16384.

Section Keys.
Context {Pub Priv : Type}.
Context (pem_Decode : string → option (pem_block * string)).
Context (MarshalPKCS8 : Priv → result string string) (ParsePKCS8 : string → result string (option Priv)).
Context (MarshalPKIX : Pub → result string string) (ParsePKIX : string → result string (option Pub)).

(** [onePEMBlock]. *)
Definition onePEMBlock (b : string) : result key_error pem_block :=
  let n := count_from 0 b pemBegin in
  if n =? 0 then Err KeyNoBlock
  else if 1 <? n then Err KeyManyBlocks
  else
    let i := default 0%nat (index_of b pemBegin) in
    if negb (String.eqb (trim_space (s_take i b)) "") then Err KeyTextBefore
    else match pem_Decode (s_drop i b) with
    | None => Err KeyMalformed
    | Some (block, rest) =>
        if negb (pb_Headers block =? 0) then Err KeyHeaders
        else if negb (String.eqb (trim_space rest) "") then Err KeyTextAfter
        else Ok block
    end.

(** The end of LoadKey, on what secretfile.Read returned. *)
Definition LoadKey (read : result secret_error string) : result key_error Priv :=
  match read with
  | Err e => Err (KeyRead e)
  | Ok b =>
      match onePEMBlock b with
      | Err e => Err e
      | Ok block =>
          if negb (String.eqb (pb_Type block) "PRIVATE KEY") then Err KeyType
          else match ParsePKCS8 (pb_Bytes block) with
          | Err e => Err (KeyParse e)
          | Ok None => Err KeyNotEd25519
          | Ok (Some k) => Ok k
          end
      end
  end.

(** [LoadPublicKey]: the answers of opening, inspecting and reading, over the
    file systems they see. *)
Definition LoadPublicKey (a : answers) (fs0 fs1 fs2 : filesys) (path : string) : result key_error Pub :=
  match an_open a, open_follow fs0 path with
  | Some e, _ => Err (PubRead e)
  | None, Err _ => Err (PubRead "open")
  | None, Ok i =>
      match an_stat a, fs_nodes fs1 !! i with
      | Some e, _ => Err (PubRead e)
      | None, None => Err (PubRead "bad file descriptor")
      | None, Some nd =>
          if negb (is_regular (nd_kind nd)) then Err PubNotRegular
          else match an_read a with
          | Some e => Err (PubRead e)
          | None =>
              let b := read_limit maxKeyFileBytes (from_option nd_data "" (fs_nodes fs2 !! i)) in
              if maxKeyFileBytes <? slen b then Err PubTooLarge
              else if contains b "PRIVATE KEY" then Err ErrPrivateKey
              else match onePEMBlock b with
              | Err e => Err e
              | Ok block =>
                  if negb (String.eqb (pb_Type block) "PUBLIC KEY") then Err KeyType
                  else match ParsePKIX (pb_Bytes block) with
                  | Err e => Err (KeyParse e)
                  | Ok None => Err KeyNotEd25519
                  | Ok (Some k) => Ok k
                  end
              end
          end
      end
  end.

(** ** Writing the pair *)

Context (fails : nat → option string) (partial : nat) (euid umask : Z) (inherits : string → bool).

Definition SaveKey (path : string) (priv : Priv) : M (option key_error) :=
  match MarshalPKCS8 priv with
  | Err e => mret (Some (KeyMarshal e))
  | Ok der =>
      r ← createExclusive fails euid umask inherits path true;
      match r with
      | Err e => mret (Some (KeyCreate e))
      | Ok f =>
          w ← fill fails partial f path (pem_Encode "PRIVATE KEY" der);
          match w with
          | Some e => mret (Some (KeyWrite e))
          | None => c ← Close fails f; mret (match c with Err e => Some (KeyWrite e) | Ok _ => None end)
          end
      end
  end.

Definition createPublicKey (path : string) (pub : Pub) : M (result key_error Z) :=
  match MarshalPKIX pub with
  | Err e => mret (Err (KeyMarshal e))
  | Ok der =>
      r ← createExclusive fails euid umask inherits path false;
      match r with
      | Err e => mret (Err (KeyCreate e))
      | Ok f =>
          w ← fill fails partial f path (pem_Encode "PUBLIC KEY" der);
          mret (match w with Some e => Err (KeyWrite e) | None => Ok f end)
      end
  end.

Definition SavePublicKey (path : string) (pub : Pub) : M (option key_error) :=
  r ← createPublicKey path pub;
  match r with
  | Err e => mret (Some e)
  | Ok f => c ← Close fails f; mret (match c with Err e => Some (KeyWrite e) | Ok _ => None end)
  end.

Definition WriteKeyPair (privPath pubPath : string) (pub : Pub) (priv : Priv) : M (option key_error) :=
  r ← createPublicKey pubPath pub;
  match r with
  | Err e => mret (Some e)
  | Ok pf =>
      s ← SaveKey privPath priv;
      match s with
      | Some e => _ ← discard fails pf pubPath; mret (Some e)
      | None => c ← Close fails pf; mret (match c with Err e => Some (KeyWrite e) | Ok _ => None end)
      end
  end.
End Keys.

(** ** What the programs do *)

(** A close or a step of the clean-up failed. *)
Definition trouble (c : call) : bool := match c with CClose | CStat | CLstat | CRemove => true | _ => false end.
Definition troubled (o : os) : Prop := ∃ c, c ∈ os_failed o ∧ trouble c = true.

(** Failures are not forgotten. *)
Definition later (o o' : os) : Prop := os_failed o ⊆ os_failed o'.
#[export] Instance later_preorder : PreOrder later.
Proof. split; unfold later, Reflexive, Transitive; set_solver. Qed.

Lemma troubled_later o o' : later o o' → troubled o → troubled o'.
Proof. intros Hl (c & Hc & Ht). exists c. split; [by apply Hl|done]. Qed.

(** Nothing there is touched, and what is new stays only in trouble. *)
Definition undone (o o' : os) : Prop :=
  fs_nodes (os_fs o) ⊆ fs_nodes (os_fs o') ∧ fs_names (os_fs o) ⊆ fs_names (os_fs o') ∧
  (fs_names (os_fs o') = fs_names (os_fs o) ∨ troubled o').

Lemma next_inode_fresh fs : fs_nodes fs !! next_inode fs = None.
Proof.
  destruct (fs_nodes fs !! next_inode fs) as [nd|] eqn:E; [exfalso|done].
  assert (Hm : ∀ l x, x ∈ l → x <= foldr Z.max 0 l).
  { induction l as [|y l IH]; intros x; [by intros ?%not_elem_of_nil|]. intros [->|Hx]%elem_of_cons; cbn; [lia|]. specialize (IH x Hx). lia. }
  assert (Hin : next_inode fs ∈ map fst (map_to_list (fs_nodes fs))).
  { apply list_elem_of_fmap. exists (next_inode fs, nd). split; [done|]. by apply elem_of_map_to_list. }
  apply Hm in Hin. unfold next_inode in Hin. lia.
Qed.

Lemma on_node_some f g fs nd : fs_nodes fs !! f = Some nd → on_node f g fs = update_node f (g nd) fs.
Proof. unfold on_node. by intros ->. Qed.

Lemma on_node_names f g fs : fs_names (on_node f g fs) = fs_names fs.
Proof. unfold on_node. by case_match. Qed.

Lemma on_node_other f g fs i : i ≠ f → fs_nodes (on_node f g fs) !! i = fs_nodes fs !! i.
Proof. intros Hi. unfold on_node. case_match; [|done]. cbn. by rewrite lookup_insert_ne. Qed.

Section Runs.
Context (fails : nat → option string) (partial : nat) (euid umask : Z) (inherits : string → bool).

Ltac run_call := unfold sys; match goal with |- context [fails ?n] => destruct (fails n) end; cbn.

Lemma discard_spec f path o : fs_names (os_fs o) !! path = Some (Hard f) →
  let o' := (discard fails f path o).1 in
  later o o' ∧ fs_nodes (os_fs o') = fs_nodes (os_fs o) ∧
  (fs_names (os_fs o') = delete path (fs_names (os_fs o)) ∨ (fs_names (os_fs o') = fs_names (os_fs o) ∧ troubled o')).
Proof.
  intros Hn. unfold discard, removeCreated, Stat, Lstat, Remove, Close, mbind, M_bind, mret, M_ret.
  run_call.
  - run_call; (split; [unfold later; cbn; set_solver|]); (split; [done|]); right; (split; [done|]);
      exists CStat; (split; [cbn; set_solver|done]).
  - run_call.
    + run_call; (split; [unfold later; cbn; set_solver|]); (split; [done|]); right; (split; [done|]);
        exists CLstat; (split; [cbn; set_solver|done]).
    + rewrite Hn, Z.eqb_refl. cbn. run_call.
      * run_call; (split; [unfold later; cbn; set_solver|]); (split; [done|]); right; (split; [done|]);
          exists CRemove; (split; [cbn; set_solver|done]).
      * rewrite Hn. cbn. run_call; (split; [unfold later; cbn; set_solver|]); (split; [done|]); by left.
Qed.

Lemma create_undone fs path i nd o o' : os_fs o = fs → fs_names fs !! path = None → fs_nodes fs !! i = None →
  fs_nodes (os_fs o') !! i = Some nd → (∀ j, j ≠ i → fs_nodes (os_fs o') !! j = fs_nodes fs !! j) →
  fs_names (os_fs o') = delete path (<[path := Hard i]> (fs_names fs)) ∨ (fs_names (os_fs o') = <[path := Hard i]> (fs_names fs) ∧ troubled o') →
  undone o o'.
Proof.
  intros <- Hn Hi Hi' Hj Hnames. split_and!.
  - apply map_subseteq_spec. intros j x Hx. destruct (decide (j = i)) as [->|Hne]; [congruence|by rewrite Hj].
  - destruct Hnames as [->|[-> _]]; [by rewrite delete_insert_id|by apply insert_subseteq].
  - destruct Hnames as [->|[_ Ht]]; [left; by rewrite delete_insert_id|by right].
Qed.
(** A file just created, as [createExclusive] leaves it. *)
Definition new_file (path : string) (ownerOnly : bool) (data : string) : inode :=
  {| nd_kind := KRegular; nd_uid := euid; nd_perm := if ownerOnly then ownerOnlyMode else publicMode; nd_nlink := 1;
     nd_acl := if ownerOnly then false else inherits path; nd_data := data |}.

(** Deleting a file just created, whatever was done to its inode. *)
Lemma discard_new fs path f o :
  fs_names fs !! path = None → fs_nodes fs !! f = None → fs_names (os_fs o) = <[path := Hard f]> (fs_names fs) →
  is_Some (fs_nodes (os_fs o) !! f) → (∀ j, j ≠ f → fs_nodes (os_fs o) !! j = fs_nodes fs !! j) →
  ∀ o0, os_fs o0 = fs → later o0 o → later o0 (discard fails f path o).1 ∧ undone o0 (discard fails f path o).1.
Proof.
  intros Hn Hf Hnames [nd Hnd] Hj o0 Ho Hl.
  destruct (discard_spec f path o) as (H1 & H2 & H3); [rewrite Hnames; apply lookup_insert_eq|].
  split; [by etrans|]. apply (create_undone fs path f nd); [done..|by rewrite H2|intros j ?; rewrite H2; by apply Hj|by rewrite <- Hnames].
Qed.

Lemma createExclusive_spec path ownerOnly o :
  let '(o', r) := createExclusive fails euid umask inherits path ownerOnly o in
  later o o' ∧
  match r with
  | Ok f => f = next_inode (os_fs o) ∧ fs_names (os_fs o) !! path = None ∧ os_fs o' = add_file path f (new_file path ownerOnly "") (os_fs o)
  | Err _ => undone o o'
  end.
Proof.
  unfold createExclusive, open_excl, mbind, M_bind. unfold sys at 1. destruct (fails (os_calls o)) as [e|].
  { cbn. split; [unfold later; cbn; set_solver|]. split_and!; [done|done|by left]. }
  cbn [os_fs]. destruct (fs_names (os_fs o) !! path) eqn:En.
  { cbn. split; [unfold later; cbn; set_solver|]. split_and!; [done|done|by left]. }
  cbn beta iota zeta. set (i := next_inode (os_fs o)). pose proof (next_inode_fresh (os_fs o)) as Hi. fold i in Hi.
  set (mode := if ownerOnly then ownerOnlyMode else publicMode).
  set (nd := {| nd_kind := KRegular; nd_uid := euid; nd_perm := Z.land mode (Z.lnot umask); nd_nlink := 1; nd_acl := inherits path; nd_data := "" |}).
  assert (Hother : ∀ x j, j ≠ i → <[i := x]> (fs_nodes (os_fs o)) !! j = fs_nodes (os_fs o) !! j) by (intros x j ?; by rewrite lookup_insert_ne).
  unfold Chmod. unfold sys at 1. cbn [set_fs os_calls os_failed os_fs].
  match goal with |- context [fails ?n] => destruct (fails n) as [e|] end.
  { match goal with |- context [discard fails i path ?x] => pose proof (discard_new (os_fs o) path i x En Hi eq_refl) as Hd; destruct (discard fails i path x) as [o' u] end.
    cbn in Hd |- *. apply Hd; [rewrite lookup_insert_eq; by eexists|by apply Hother|done|]. unfold later. cbn. set_solver. }
  assert (Hon : on_node i (set_perm mode) (add_file path i nd (os_fs o)) = add_file path i (set_perm mode nd) (os_fs o)).
  { rewrite (on_node_some _ _ _ nd) by (cbn; apply lookup_insert_eq). unfold update_node, add_file. cbn. f_equal. apply insert_insert_eq. }
  unfold set_fs. cbn [os_fs os_calls os_failed]. rewrite Hon. destruct ownerOnly.
  - unfold refuseExtendedACL, read_acl, mbind, M_bind. unfold sys at 1. cbn [set_fs os_calls os_failed os_fs].
    match goal with |- context [fails ?n] => destruct (fails n) as [e|] end; cbn [mret M_ret].
    + match goal with |- context [discard fails i path ?x] => pose proof (discard_new (os_fs o) path i x En Hi eq_refl) as Hd; destruct (discard fails i path x) as [o' u] end.
      cbn in Hd |- *. apply Hd; [rewrite lookup_insert_eq; by eexists|by apply Hother|done|]. unfold later. cbn. set_solver.
    + cbn [add_file fs_nodes]. rewrite lookup_insert_eq. cbn [from_option set_perm nd_acl]. cbn [nd nd_acl].
      destruct (inherits path) eqn:Eacl; cbn [mret M_ret].
      * match goal with |- context [discard fails i path ?x] => pose proof (discard_new (os_fs o) path i x En Hi eq_refl) as Hd; destruct (discard fails i path x) as [o' u] end.
        cbn in Hd |- *. apply Hd; [rewrite lookup_insert_eq; by eexists|by apply Hother|done|]. unfold later. cbn. set_solver.
      * split; [unfold later; cbn; set_solver|]. split_and!; [done|done|]. cbn. unfold add_file, new_file, nd, set_perm. cbn. by rewrite ?Eacl.
  - cbn [mret M_ret]. split; [unfold later; cbn; set_solver|]. split_and!; done.
Qed.
Lemma createExclusive_exists path ownerOnly o o' :
  createExclusive fails euid umask inherits path ownerOnly o = (o', Err (CreateSys EEXIST)) → os_fs o' = os_fs o.
Proof.
  unfold createExclusive, open_excl, mbind, M_bind. unfold sys at 1. destruct (fails (os_calls o)) as [e|]; [done|].
  cbn [os_fs]. destruct (fs_names (os_fs o) !! path) eqn:En; [by intros [= <-]|]. cbn beta iota zeta.
  unfold Chmod. unfold sys at 1. match goal with |- context [fails ?n] => destruct (fails n) as [e|] end.
  { match goal with |- context [discard fails ?i path ?x] => destruct (discard fails i path x) end. done. }
  destruct ownerOnly; [|done]. unfold refuseExtendedACL, read_acl, mbind, M_bind. unfold sys at 1.
  match goal with |- context [fails ?n] => destruct (fails n) as [e|] end; cbn [mret M_ret].
  { match goal with |- context [discard fails ?i path ?x] => destruct (discard fails i path x) end. done. }
  match goal with |- context [from_option nd_acl false ?x] => destruct (from_option nd_acl false x) end; [|done].
  cbn [mret M_ret]. match goal with |- context [discard fails ?i path ?x] => destruct (discard fails i path x) end. done.
Qed.

Lemma on_added path f nd g fs : on_node f g (add_file path f nd fs) = add_file path f (g nd) fs.
Proof. rewrite (on_node_some _ _ _ nd) by (cbn; apply lookup_insert_eq). unfold update_node, add_file. cbn. f_equal. apply insert_insert_eq. Qed.

Lemma discard_added fs path f nd o0 o :
  os_fs o0 = fs → later o0 o → fs_names fs !! path = None → fs_nodes fs !! f = None → os_fs o = add_file path f nd fs →
  later o0 (discard fails f path o).1 ∧ undone o0 (discard fails f path o).1.
Proof.
  intros Ho Hl Hn Hf E. apply (discard_new fs); [done|done|by rewrite E|rewrite E; cbn; rewrite lookup_insert_eq; by eexists| |done|done].
  intros j Hj. rewrite E. cbn. by rewrite lookup_insert_ne.
Qed.

Lemma fill_spec fs path f nd data o0 o :
  os_fs o0 = fs → later o0 o → fs_names fs !! path = None → fs_nodes fs !! f = None → os_fs o = add_file path f nd fs →
  let '(o', r) := fill fails partial f path data o in
  later o0 o' ∧
  match r with
  | None => os_fs o' = add_file path f (set_data (nd_data nd ++ data) nd) fs
  | Some _ => undone o0 o'
  end.
Proof.
  intros Ho Hl Hn Hf E. unfold fill, mbind, M_bind, Write. unfold sys at 1. destruct (fails (os_calls o)) as [e|].
  - cbn [mret M_ret]. unfold set_fs. cbn [os_fs os_calls os_failed]. rewrite E, on_added.
    match goal with |- context [discard fails f path ?x] => destruct (discard_added fs path f (set_data (nd_data nd ++ s_take partial data) nd) o0 x Ho) as [H1 H2]; [|done..|];
      [unfold later in *; cbn; set_solver|]; destruct (discard fails f path x) as [o' u] end.
    by split.
  - unfold set_fs. cbn [os_fs os_calls os_failed]. rewrite E, on_added. unfold Sync. unfold sys at 1. cbn [os_fs os_calls os_failed].
    match goal with |- context [fails ?n] => destruct (fails n) as [e|] end.
    + cbn [mret M_ret].
      match goal with |- context [discard fails f path ?x] => destruct (discard_added fs path f (set_data (nd_data nd ++ data) nd) o0 x Ho) as [H1 H2]; [|done..|];
        [unfold later in *; cbn; set_solver|]; destruct (discard fails f path x) as [o' u] end.
      by split.
    + cbn [mret M_ret]. split; [exact Hl|done].
Qed.

Lemma undone_refl o o' : os_fs o' = os_fs o → undone o o'.
Proof. intros E. unfold undone. rewrite E. split_and!; [done|done|by left]. Qed.

Lemma added_troubled path f nd o o' : os_fs o' = add_file path f nd (os_fs o) → fs_names (os_fs o) !! path = None → fs_nodes (os_fs o) !! f = None →
  troubled o' → undone o o'.
Proof. intros E Hn Hf Ht. unfold undone. rewrite E. split_and!; [by apply insert_subseteq|by apply insert_subseteq|by right]. Qed.

Context {Pub Priv : Type} (MarshalPKCS8 : Priv → result string string) (MarshalPKIX : Pub → result string string).
Notation save := (SaveKey MarshalPKCS8 fails partial euid umask inherits).
Notation create_public := (createPublicKey MarshalPKIX fails partial euid umask inherits).

Lemma SaveKey_spec path priv o :
  let '(o', r) := save path priv o in
  later o o' ∧
  match r with
  | None => ∃ f der, MarshalPKCS8 priv = Ok der ∧ fs_names (os_fs o) !! path = None ∧ fs_nodes (os_fs o) !! f = None ∧
      os_fs o' = add_file path f (new_file path true (pem_Encode "PRIVATE KEY" der)) (os_fs o)
  | Some _ => undone o o'
  end.
Proof.
  unfold SaveKey. destruct (MarshalPKCS8 priv) as [der|e]; [|split; [done|by apply undone_refl]]. unfold mbind at 1, M_bind at 1.
  pose proof (createExclusive_spec path true o) as Hc. destruct (createExclusive _ _ _ _ _ _ o) as [o1 [f|e]]; [|done].
  destruct Hc as (Hl & -> & Hn & E). pose proof (next_inode_fresh (os_fs o)) as Hf. set (f := next_inode (os_fs o)) in *. unfold mbind at 1, M_bind at 1.
  pose proof (fill_spec (os_fs o) path f _ (pem_Encode "PRIVATE KEY" der) o o1 eq_refl Hl Hn Hf E) as Hw.
  destruct (fill _ _ _ _ _ o1) as [o2 [e|]]; [done|]. destruct Hw as [Hl2 E2].
  unfold mbind, M_bind, Close, sys. destruct (fails (os_calls o2)); cbn [mret M_ret].
  - split; [unfold later in *; cbn; set_solver|]. eapply (added_troubled path f); [exact E2|done|done|]. exists CClose. cbn. split; [set_solver|done].
  - split; [exact Hl2|]. exists f, der. by split_and!.
Qed.

Lemma createPublicKey_spec path pub o :
  let '(o', r) := create_public path pub o in
  later o o' ∧
  match r with
  | Ok f => ∃ der, MarshalPKIX pub = Ok der ∧ fs_names (os_fs o) !! path = None ∧ fs_nodes (os_fs o) !! f = None ∧
      os_fs o' = add_file path f (new_file path false (pem_Encode "PUBLIC KEY" der)) (os_fs o)
  | Err _ => undone o o'
  end.
Proof.
  unfold createPublicKey. destruct (MarshalPKIX pub) as [der|e]; [|split; [done|by apply undone_refl]]. unfold mbind at 1, M_bind at 1.
  pose proof (createExclusive_spec path false o) as Hc. destruct (createExclusive _ _ _ _ _ _ o) as [o1 [f|e]]; [|done].
  destruct Hc as (Hl & -> & Hn & E). pose proof (next_inode_fresh (os_fs o)) as Hf. set (f := next_inode (os_fs o)) in *. unfold mbind at 1, M_bind at 1.
  pose proof (fill_spec (os_fs o) path f _ (pem_Encode "PUBLIC KEY" der) o o1 eq_refl Hl Hn Hf E) as Hw.
  destruct (fill _ _ _ _ _ o1) as [o2 [e|]]; [done|]. destruct Hw as [Hl2 E2]. cbn [mret M_ret]. split; [done|]. exists der. by split_and!.
Qed.
Lemma WriteKeyPair_spec privPath pubPath pub priv o :
  let '(o', r) := WriteKeyPair MarshalPKCS8 MarshalPKIX fails partial euid umask inherits privPath pubPath pub priv o in
  match r with
  | None => ∃ i j dpub dpriv, MarshalPKIX pub = Ok dpub ∧ MarshalPKCS8 priv = Ok dpriv ∧
      fs_names (os_fs o) !! pubPath = None ∧ fs_names (os_fs o) !! privPath = None ∧ pubPath ≠ privPath ∧
      fs_nodes (os_fs o) !! i = None ∧ fs_nodes (os_fs o) !! j = None ∧ i ≠ j ∧
      os_fs o' = add_file privPath j (new_file privPath true (pem_Encode "PRIVATE KEY" dpriv))
        (add_file pubPath i (new_file pubPath false (pem_Encode "PUBLIC KEY" dpub)) (os_fs o))
  | Some _ => undone o o'
  end.
Proof.
  unfold WriteKeyPair, mbind at 1, M_bind at 1. pose proof (createPublicKey_spec pubPath pub o) as Hc.
  destruct (create_public pubPath pub o) as [o1 [pf|e]]; [|by destruct Hc]. destruct Hc as (Hl1 & dpub & Em & Hn & Hf & E1).
  unfold mbind at 1, M_bind at 1. pose proof (SaveKey_spec privPath priv o1) as Hs. destruct (save privPath priv o1) as [o2 [e|]].
  - destruct Hs as (Hl2 & Hsub & Hnsub & Hcase).
    assert (Hat : fs_names (os_fs o2) !! pubPath = Some (Hard pf)).
    { eapply lookup_weaken; [|exact Hnsub]. rewrite E1. apply lookup_insert_eq. }
    unfold mbind at 1, M_bind at 1. destruct (discard_spec pf pubPath o2 Hat) as (Hl3 & Hn3 & Hc3).
    destruct (discard fails pf pubPath o2) as [o3 u]. cbn [fst mret M_ret] in *.
    assert (Hold : fs_names (os_fs o) ⊆ delete pubPath (fs_names (os_fs o2))).
    { apply map_subseteq_spec. intros q x Hq. rewrite lookup_delete_ne by congruence. eapply lookup_weaken; [|exact Hnsub].
      rewrite E1. cbn. rewrite lookup_insert_ne by congruence. done. }
    unfold undone. rewrite Hn3. split_and!.
    + etrans; [|exact Hsub]. rewrite E1. by apply insert_subseteq.
    + destruct Hc3 as [->|[-> _]]; [done|]. etrans; [exact Hold|]. apply delete_subseteq.
    + destruct Hc3 as [->|[_ Ht]]; [|by right]. destruct Hcase as [->|Ht]; [|right; by eapply troubled_later].
      left. rewrite E1. cbn. by apply delete_insert_id.
  - destruct Hs as (Hl2 & j & dpriv & Ep & Hnp & Hj & E2). rewrite E1 in Hnp, Hj, E2. cbn in Hnp, Hj.
    assert (Hne : pubPath ≠ privPath) by (intros ->; by rewrite lookup_insert_eq in Hnp).
    assert (Hij : pf ≠ j) by (intros ->; by rewrite lookup_insert_eq in Hj).
    rewrite lookup_insert_ne in Hnp by done. rewrite lookup_insert_ne in Hj by done.
    unfold mbind, M_bind, Close, sys. destruct (fails (os_calls o2)); cbn [mret M_ret].
    + split_and!.
      * cbn [os_fs]. rewrite E2. cbn. etrans; [apply insert_subseteq, Hf|]. apply insert_subseteq. by rewrite lookup_insert_ne.
      * cbn [os_fs]. rewrite E2. cbn. etrans; [apply insert_subseteq, Hn|]. apply insert_subseteq. by rewrite lookup_insert_ne.
      * right. exists CClose. cbn. split; [set_solver|done].
    + exists pf, j, dpub, dpriv. by split_and!.
Qed.
End Runs.

(** C22: Generating a key pair never overwrites anything and leaves both files or
    none.  Whatever each system call answers, every name and every inode there
    was stays as it was.  On success both paths were free, the private key is a
    file of the user's alone (mode 0600, no extended list) with the key's PEM,
    and the public key a readable one.  On failure no new name is left, unless a
    close or a step of the clean-up itself failed. *)
Theorem WriteKeyPair_outcomes {Pub Priv} (MarshalPKCS8 : Priv → result string string) (MarshalPKIX : Pub → result string string)
    fails partial euid umask inherits privPath pubPath (pub : Pub) (priv : Priv) fs :
  let '(o, r) := WriteKeyPair MarshalPKCS8 MarshalPKIX fails partial euid umask inherits privPath pubPath pub priv
    {| os_fs := fs; os_calls := 0; os_failed := [] |} in
  fs_names fs ⊆ fs_names (os_fs o) ∧ fs_nodes fs ⊆ fs_nodes (os_fs o) ∧
  match r with
  | None =>
      fs_names fs !! privPath = None ∧ fs_names fs !! pubPath = None ∧
      ∃ i j dpub dpriv, MarshalPKIX pub = Ok dpub ∧ MarshalPKCS8 priv = Ok dpriv ∧
        fs_names (os_fs o) = <[privPath := Hard j]> (<[pubPath := Hard i]> (fs_names fs)) ∧
        fs_nodes (os_fs o) !! i = Some (new_file euid inherits pubPath false (pem_Encode "PUBLIC KEY" dpub)) ∧
        fs_nodes (os_fs o) !! j = Some (new_file euid inherits privPath true (pem_Encode "PRIVATE KEY" dpriv))
  | Some _ => fs_names (os_fs o) = fs_names fs ∨ ∃ c, c ∈ os_failed o ∧ c ∈ [CClose; CStat; CLstat; CRemove]
  end.
Proof.
  pose proof (WriteKeyPair_spec fails partial euid umask inherits MarshalPKCS8 MarshalPKIX privPath pubPath pub priv {| os_fs := fs; os_calls := 0; os_failed := [] |}) as H.
  destruct (WriteKeyPair _ _ _ _ _ _ _ _ _ _ _ _) as [o [e|]].
  - destruct H as (H1 & H2 & H3). split_and!; [done|done|]. destruct H3 as [?|(c & Hc & Ht)]; [by left|right].
    exists c. split; [done|]. destruct c; try done; set_solver.
  - destruct H as (i & j & dpub & dpriv & E1 & E2 & N1 & N2 & Hne & I & J & Hij & E). cbn [os_fs] in *. rewrite E. cbn. split_and!; [..|done|done|].
    + etrans; [apply insert_subseteq, N1|]. apply insert_subseteq. by rewrite lookup_insert_ne.
    + etrans; [apply insert_subseteq, I|]. apply insert_subseteq. by rewrite lookup_insert_ne.
    + exists i, j, dpub, dpriv. split_and!; [done|done|done| |by rewrite lookup_insert_eq]. by rewrite lookup_insert_ne, lookup_insert_eq.
Qed.

(** The comment of WriteKeyPair says that a failure never leaves a private key
    without its public half.  When only closing the private key's file fails,
    it does: the key was written and synced, SaveKey returns the error without
    deleting it, and the public key is deleted. *)
Example ex_close_fails :
  let marshal (k : string) : result string string := Ok k in
  let '(o, r) := WriteKeyPair marshal marshal (λ n, if (n =? 9)%nat then Some "EIO" else None) 0 1000 18 (λ _, false) "audit.key" "audit.key.pub" "pub" "priv"
    {| os_fs := {| fs_names := ∅; fs_nodes := ∅ |}; os_calls := 0; os_failed := [] |} in
  r = Some (KeyWrite (ESYS "EIO")) ∧ os_failed o = [CClose] ∧
  fs_names (os_fs o) !! "audit.key.pub" = None ∧
  (∃ i nd, fs_names (os_fs o) !! "audit.key" = Some (Hard i) ∧ fs_nodes (os_fs o) !! i = Some nd ∧ nd_data nd = pem_Encode "PRIVATE KEY" "priv").
Proof. vm_compute. split_and!; [done..|]. eexists _, _. split_and!; reflexivity. Qed.

(** ** The text of a key file *)

Lemma s_all_get P s n : s_all P s = true → ∀ c, String.get n s = Some c → P c = true.
Proof.
  revert n. induction s as [|d s IH]; intros [|n]; cbn; [done|done|..]; intros [Hd Hs]%andb_prop c.
  - by intros [= ->].
  - by apply IH.
Qed.

(** No space and no dash: what is between the lines of dashes. *)
Definition body_char (c : ascii) : bool := negb (Ascii.eqb c " ") && negb (Ascii.eqb c "-").

Lemma base64_char_body z : body_char (base64_char z) = true.
Proof.
  unfold base64_char. destruct (String.get (Z.to_nat z) base64_alphabet) eqn:E; [|done].
  eapply s_all_get; [|exact E]. by vm_compute.
Qed.

Lemma base64_body s : s_all body_char (base64_encode s) = true.
Proof.
  remember (String.length s) as n eqn:En. revert s En. induction (lt_wf n) as [n _ IH]. intros s ->.
  destruct s as [|a [|b [|c s]]]; cbn [base64_encode s_all]; rewrite ?base64_char_body; [done..|]. cbn [andb].
  eapply IH; [|done]. cbn. lia.
Qed.

Lemma s_all_drop P n s : s_all P s = true → s_all P (s_drop n s) = true.
Proof. revert n. induction s as [|c s IH]; intros [|n]; cbn; [done..|]. intros [_ ?]%andb_prop. by apply IH. Qed.

Lemma pem_lines_body n s : s_all body_char s = true → s_all body_char (pem_lines n s) = true.
Proof.
  revert s. induction n as [|n IH]; intros s Hs; [done|]. cbn [pem_lines]. destruct (String.eqb s ""); [done|].
  rewrite s_all_app, s_all_take by done. cbn [s_all andb]. change (body_char "010") with true. by apply IH, s_all_drop.
Qed.

Lemma has_prefix_stop a d b p : has_prefix (a ++ String d b) p = true → contains_b d p = false → has_prefix a p = true.
Proof.
  unfold has_prefix. revert p. induction a as [|c a IH]; intros [|e p]; cbn; try done.
  - destruct (Ascii.eqb_spec d e) as [->|]; [|by destruct (Ascii.eqb_spec e d)]. by rewrite Ascii.eqb_refl.
  - destruct (Ascii.eqb c e) eqn:E; rewrite ?(Ascii.eqb_sym e c), ?E; [|done]. intros H [_ Hp]%orb_false_elim. by apply IH.
Qed.

Lemma has_prefix_all P a p : has_prefix a p = true → s_all P a = true → s_all P p = true.
Proof.
  unfold has_prefix. revert p. induction a as [|c a IH]; intros [|e p]; cbn; try done.
  destruct (Ascii.eqb c e) eqn:E; rewrite ?(Ascii.eqb_sym e c), ?E; [|done]. apply Ascii.eqb_eq in E as ->.
  intros H [Hc Ha]%andb_prop. rewrite Hc. cbn. by apply IH.
Qed.

Lemma contains_body a b sub : s_all body_char a = true → contains_b "-" sub = false → s_all body_char sub = false →
  contains (a ++ String "-" b) sub = contains (String "-" b) sub.
Proof.
  intros Ha Hd Hs. induction a as [|c a IH]; [done|]. cbn [s_all] in Ha. apply andb_prop in Ha as [Hc Ha].
  cbn [String.append contains]. rewrite IH by done.
  destruct (has_prefix (String c (a ++ String "-" b)) sub) eqn:E; [|done]. exfalso.
  change (String c (a ++ String "-" b))%string with (String c a ++ String "-" b)%string in E.
  apply has_prefix_stop in E; [|done]. apply (has_prefix_all body_char) in E; [congruence|]. cbn. by rewrite Hc, Ha.
Qed.

Lemma count_body a b : s_all body_char a = true → count_from 0 (a ++ b) pemBegin = count_from 0 b pemBegin.
Proof.
  intros Ha. induction a as [|c a IH]; [done|]. cbn [s_all] in Ha. apply andb_prop in Ha as [Hc Ha].
  cbn [String.append count_from].
  assert (Hp : has_prefix (String c (a ++ b)) pemBegin = false).
  { unfold body_char in Hc. breflect. unfold has_prefix, pemBegin. cbn [cut_prefix].
    destruct (Ascii.eqb_spec "-" c) as [E|]; [|done]. congruence. }
  rewrite Hp. by apply IH.
Qed.

Definition key_types : list string := ["PRIVATE KEY"; "PUBLIC KEY"].

Lemma pem_body der : s_all body_char (pem_lines (String.length (base64_encode der)) (base64_encode der)) = true.
Proof. apply pem_lines_body, base64_body. Qed.

Lemma pem_one_block type der : type ∈ key_types →
  count_from 0 (pem_Encode type der) pemBegin = 1 ∧ index_of (pem_Encode type der) pemBegin = Some 0%nat.
Proof.
  intros Ht. pose proof (pem_body der) as Hb. unfold pem_Encode. set (text := pem_lines _ _) in *.
  assert (Hc : ∀ u, count_from 0 (text ++ u)%string pemBegin = count_from 0 u pemBegin) by (intros u; by apply count_body).
  apply elem_of_cons in Ht as [->|[->|[]%not_elem_of_nil]%elem_of_cons]; (split; [|done]).
  - transitivity (1 + count_from 0 (text ++ "-----END PRIVATE KEY-----" ++ String "010" "")%string pemBegin); [reflexivity|]. by rewrite Hc.
  - transitivity (1 + count_from 0 (text ++ "-----END PUBLIC KEY-----" ++ String "010" "")%string pemBegin); [reflexivity|]. by rewrite Hc.
Qed.

Lemma pem_private der : contains (pem_Encode "PRIVATE KEY" der) "PRIVATE KEY" = true.
Proof. reflexivity. Qed.

Lemma pem_public der : contains (pem_Encode "PUBLIC KEY" der) "PRIVATE KEY" = false.
Proof.
  pose proof (pem_body der) as Hb. unfold pem_Encode. set (text := pem_lines _ _) in *.
  transitivity (contains (text ++ String "-" ("----END PUBLIC KEY-----" ++ String "010" ""))%string "PRIVATE KEY"); [reflexivity|].
  by rewrite contains_body.
Qed.

(** ** What is written is read back *)

Lemma new_private_guarded euid inherits path data :
  let nd := new_file euid inherits path true data in
  nd_kind nd = KRegular ∧ nd_nlink nd = 1 ∧ nd_uid nd = euid ∧ Z.land (nd_perm nd) other_bits = 0 ∧ nd_acl nd = false ∧ nd_data nd = data.
Proof. done. Qed.

Section Roundtrip.
Context {Pub Priv : Type} (pem_Decode : string → option (pem_block * string)).
Context (MarshalPKCS8 : Priv → result string string) (ParsePKCS8 : string → result string (option Priv)).
Context (MarshalPKIX : Pub → result string string) (ParsePKIX : string → result string (option Pub)).

Lemma onePEMBlock_encoded type der : type ∈ key_types →
  pem_Decode (pem_Encode type der) = Some ({| pb_Type := type; pb_Headers := 0; pb_Bytes := der |}, "") →
  onePEMBlock pem_Decode (pem_Encode type der) = Ok {| pb_Type := type; pb_Headers := 0; pb_Bytes := der |}.
Proof.
  intros Ht Hd. destruct (pem_one_block type der Ht) as [Hc Hi]. unfold onePEMBlock. rewrite Hc, Hi.
  assert (E0 : ∀ u, s_take 0 u = "" ∧ s_drop 0 u = u) by (by intros []). destruct (E0 (pem_Encode type der)) as [E1 E2].
  change (1 =? 0) with false. change (1 <? 1) with false. change (default 0%nat (Some 0%nat)) with 0%nat. cbv iota. rewrite E1, E2.
  change (trim_space "") with "". cbn [String.eqb negb]. rewrite Hd. cbn [pb_Headers Z.eqb negb]. done.
Qed.

End Roundtrip.

(** ** A worked case *)

(** The reverse of [pem_Encode] on well-formed texts. *)
Definition sample_Decode (s : string) : option (pem_block * string) :=
  match split_b "010" s with
  | first :: rest =>
      let type := s_take (String.length first - 16) (s_drop 11 first) in
      let body := concat_str (take (List.length rest - 2) rest) in
      match base64_decode body with
      | Some der => Some ({| pb_Type := type; pb_Headers := 0; pb_Bytes := der |}, "")
      | None => None
      end
  | [] => None
  end.

Definition sample_marshal (k : string) : result string string := Ok k.
Definition sample_parse (der : string) : result string (option string) := Ok (Some der).
Definition sample_priv : string := "a private key of more than forty-eight bytes, so that its text has two lines".
Definition sample_written : os * option key_error :=
  WriteKeyPair sample_marshal sample_marshal (λ _, None) 0 1000 18 (λ _, false) "audit.key" "audit.key.pub" "a public key" sample_priv
    {| os_fs := {| fs_names := ∅; fs_nodes := ∅ |}; os_calls := 0; os_failed := [] |}.

