(* ===== verification/GoRegexp.v ===== *)
(** * Package regexp: what the program's patterns use of it

    The patterns of the sources are kept as their text: [parse] reads the RE2
    syntax they are written in (groups, named groups, alternation, greedy and
    lazy repetition, classes, the Perl classes, anchors, the flags i and m at
    the start) into [re], and [compile] is regexp.MustCompile on it.  Matching
    is Go's leftmost-first search: [run] is a backtracking matcher over the
    decoded runes of the text, [find] the leftmost match, [find_all] the loop
    of FindAllStringSubmatchIndex.  [results] is the reference: every way a
    pattern can match at a position, in Perl's order of preference, of which
    [run] takes the first ([run_results]), and [matches] the declarative
    reading without an order ([results_matches]).

    Literals and class bounds of the patterns are ASCII, which the fold orbits
    of flag i assume.  A repetition's body must consume text ([proper], checked
    of every pattern); Go's treatment of empty iterations is then the one of
    [run]. *)

From S2P Require Import Prelude GoStd.

Open Scope string_scope.
Open Scope Z_scope.
Open Scope list_scope.

(** ** Patterns *)

Inductive assertion := BeginText | EndText | BeginLine | EndLine | WordBoundary.

(** A set of runes: ranges, all others when [negated], and with flag i every
    rune that folds to one of them. *)
Record rune_set := RuneSet {
  negated : bool;
  folded : bool;
  ranges : list (Z * Z);
}.

Inductive re :=
  | REmpty
  | RSet (s : rune_set)
  | RAssert (a : assertion)
  | RSeq (a b : re)
  | RAlt (a b : re)
  | RStar (greedy : bool) (a : re)
  | RGroup (i : nat) (a : re).

(** A compiled pattern and the names of its groups, as SubexpNames lists
    those after the first. *)
Record regexp := Regexp { body : re; names : list string }.

(** [unicode.SimpleFold] on the runes that fold with an ASCII one. *)
Definition orbit (r : Z) : list Z :=
  if (r =? 8490) || (r =? 107) || (r =? 75) then [75; 107; 8490]
  else if (r =? 383) || (r =? 115) || (r =? 83) then [83; 115; 383]
  else if in_range 65 90 r then [r; r + 32]
  else if in_range 97 122 r then [r; r - 32]
  else [r].

Definition in_ranges (l : list (Z * Z)) (r : Z) : bool :=
  existsb (λ p, in_range (fst p) (snd p) r) l.

Definition in_set (s : rune_set) (r : Z) : bool :=
  xorb (negated s)
    (if folded s then existsb (in_ranges (ranges s)) (orbit r) else in_ranges (ranges s) r).

(** ** Positions in a text: the offset in bytes, the rune before it and the
    bytes after it. *)

Record pos := Pos { off : nat; prev : option Z; rest : string }.

Definition start (s : string) : pos := Pos 0 None s.

Definition step (p : pos) : option (Z * pos) :=
  match rest p with
  | EmptyString => None
  | _ =>
      let '(r, n) := decode_rune (rest p) in
      Some (r, Pos (off p + n) (Some r) (s_drop n (rest p)))
  end.

Definition word_rune (r : Z) : bool :=
  in_range 48 57 r || in_range 65 90 r || in_range 97 122 r || (r =? 95).

Definition next (p : pos) : option Z := fst <$> step p.

Definition holds (a : assertion) (p : pos) : bool :=
  match a with
  | BeginText => (off p =? 0)%nat
  | EndText => bool_decide (next p = None)
  | BeginLine => (off p =? 0)%nat || bool_decide (prev p = Some 10)
  | EndLine => bool_decide (next p = None) || bool_decide (next p = Some 10)
  | WordBoundary => xorb (from_option word_rune false (prev p)) (from_option word_rune false (next p))
  end.

(** The captures, the last one first; a later capture of a group replaces an
    earlier one. *)
Definition caps := list (nat * (nat * nat)).

Definition cap_get (i : nat) (c : caps) : option (nat * nat) :=
  snd <$> List.find (λ e, (fst e =? i)%nat) c.

(** ** The matcher *)

Section matcher.
Context {X : Type}.
Definition kont := pos → caps → option X.

(** The first of two alternatives that leads to a match. *)
Definition either (a : option X) (b : unit → option X) : option X :=
  match a with Some x => Some x | None => b tt end.

(** [a*]: as many iterations as [fuel] allows, each of which must consume
    text; the greedy form prefers another iteration, the lazy one to stop. *)
Fixpoint star_run (m : pos → caps → kont → option X) (greedy : bool) (k : kont)
    (fuel : nat) (p : pos) (c : caps) : option X :=
  match fuel with
  | O => None
  | S fuel =>
      let more tt := m p c (λ p' c',
        if (off p' <=? off p)%nat then None else star_run m greedy k fuel p' c') in
      if greedy then either (more tt) (λ _, k p c) else either (k p c) more
  end.

Fixpoint run (r : re) (p : pos) (c : caps) (k : kont) {struct r} : option X :=
  match r with
  | REmpty => k p c
  | RSet s =>
      match step p with
      | Some (x, p') => if in_set s x then k p' c else None
      | None => None
      end
  | RAssert a => if holds a p then k p c else None
  | RSeq a b => run a p c (λ p' c', run b p' c' k)
  | RAlt a b => either (run a p c k) (λ _, run b p c k)
  | RStar g a => star_run (run a) g k (S (String.length (rest p))) p c
  | RGroup i a => run a p c (λ p' c', k p' ((i, (off p, off p')) :: c'))
  end.
End matcher.

(** The preferred match at a position: its end and its captures. *)
Definition match_at (r : regexp) (p : pos) : option (pos * caps) :=
  run (body r) p [] (λ p' c', Some (p', c')).

(** The leftmost match at or after a position. *)
Fixpoint find_from (r : regexp) (fuel : nat) (p : pos) : option (pos * (pos * caps)) :=
  match match_at r p with
  | Some m => Some (p, m)
  | None =>
      match fuel, step p with
      | S fuel, Some (_, p') => find_from r fuel p'
      | _, _ => None
      end
  end.

Definition find (r : regexp) (p : pos) : option (pos * (pos * caps)) :=
  find_from r (String.length (rest p)) p.

(** [re.MatchString]. *)
Definition MatchString (r : regexp) (s : string) : bool := bool_decide (is_Some (find r (start s))).

(** One match of FindAllStringSubmatchIndex: its bounds and its captures. *)
Record found := Found { from : nat; upto : nat; groups : caps }.

(** The loop of FindAllStringSubmatchIndex: the search goes on after the last
    match, one rune further after an empty one, and an empty match right after
    another match is not reported. *)
Fixpoint all_from (r : regexp) (fuel : nat) (p : pos) (prevEnd : option nat) : list found :=
  match fuel with
  | O => []
  | S fuel =>
      match find r p with
      | None => []
      | Some (b, (e, c)) =>
          let here := Found (off b) (off e) c in
          if (off e =? off p)%nat then
            (if bool_decide (prevEnd = Some (off b)) then [] else [here]) ++
            match step p with
            | Some (_, p') => all_from r fuel p' (Some (off e))
            | None => []
            end
          else here :: all_from r fuel e (Some (off e))
      end
  end.

Definition find_all (r : regexp) (s : string) : list found :=
  all_from r (S (String.length s)) (start s) None.

(** ** The syntax *)

Record flags := Flags { fold_case : bool; multi_line : bool }.

Definition perl_d : list (Z * Z) := [(48, 57)].
Definition perl_s : list (Z * Z) := [(9, 10); (12, 13); (32, 32)].

(** The rune an escape stands for, in or outside a class. *)
Definition escaped (c : ascii) : option Z :=
  if Ascii.eqb c "t" then Some 9
  else if Ascii.eqb c "n" then Some 10
  else if word_rune (bz c) || (128 <=? bz c) then None
  else Some (bz c).

(** One bound of a class and what follows it. *)
Definition class_rune (s : string) : option (Z * string) :=
  match s with
  | String "\" (String c s) => (λ r, (r, s)) <$> escaped c
  | String c s => Some (bz c, s)
  | EmptyString => None
  end.

(** The ranges of a class up to its closing bracket. *)
Fixpoint class_ranges (fuel : nat) (s : string) : option (list (Z * Z) * string) :=
  match fuel with
  | O => None
  | S fuel =>
      match s with
      | EmptyString => None
      | String "]" s => Some ([], s)
      | String "\" (String "d" s) =>
          '(l, s) ← class_ranges fuel s; Some (perl_d ++ l, s)
      | String "\" (String "s" s) =>
          '(l, s) ← class_ranges fuel s; Some (perl_s ++ l, s)
      | _ =>
          '(lo, s1) ← class_rune s;
          match s1 with
          | String "-" (String c t) =>
              if Ascii.eqb c "]" then '(l, s) ← class_ranges fuel s1; Some ((lo, lo) :: l, s)
              else
                '(hi, s2) ← class_rune (String c t);
                if lo <=? hi then '(l, s) ← class_ranges fuel s2; Some ((lo, hi) :: l, s) else None
          | _ => '(l, s) ← class_ranges fuel s1; Some ((lo, lo) :: l, s)
          end
      end
  end.

Definition parse_class (f : flags) (s : string) : option (re * string) :=
  let '(neg, s) := match s with String "^" s => (true, s) | _ => (false, s) end in
  '(l, s) ← class_ranges (String.length s) s;
  Some (RSet (RuneSet neg (fold_case f) l), s).

(** A decimal count in braces. *)
Fixpoint number (s : string) (acc : nat) : nat * string :=
  match s with
  | String c t => if is_digit_b c then number t (10 * acc + Z.to_nat (bz c - 48)) else (acc, s)
  | EmptyString => (acc, s)
  end.

Definition opt (greedy : bool) (a : re) : re := if greedy then RAlt a REmpty else RAlt REmpty a.

(** At most [n] copies of [a], each one only after the one before it. *)
Fixpoint up_to (greedy : bool) (a : re) (n : nat) : re :=
  match n with O => REmpty | S n => opt greedy (RSeq a (up_to greedy a n)) end.

Fixpoint copies (a : re) (n : nat) (z : re) : re :=
  match n with O => z | S n => RSeq a (copies a n z) end.

(** The repetition that follows an atom, and whether it is lazy. *)
Definition lazy_mark (s : string) : bool * string :=
  match s with String "?" s => (false, s) | _ => (true, s) end.

Definition repeated (a : re) (s : string) : option (re * string) :=
  match s with
  | String "*" s => let '(g, s) := lazy_mark s in Some (RStar g a, s)
  | String "+" s => let '(g, s) := lazy_mark s in Some (RSeq a (RStar g a), s)
  | String "?" s => let '(g, s) := lazy_mark s in Some (opt g a, s)
  | String "{" s =>
      let '(n, s) := number s 0 in
      match s with
      | String "}" s => let '(g, s) := lazy_mark s in Some (copies a n REmpty, s)
      | String "," (String "}" s) => let '(g, s) := lazy_mark s in Some (copies a n (RStar g a), s)
      | String "," s =>
          let '(m, s) := number s 0 in
          match s with
          | String "}" s => let '(g, s) := lazy_mark s in
              if (n <=? m)%nat then Some (copies a n (up_to g a (m - n)), s) else None
          | _ => None
          end
      | _ => None
      end
  | _ => Some (a, s)
  end.

(** A group's name, up to its closing bracket. *)
Definition group_name (s : string) : option (string * string) :=
  cut_b ">" s.

(** Alternatives, sequences and atoms; [ns] are the names of the groups
    opened so far. *)
Fixpoint parse_alt (f : flags) (fuel : nat) (s : string) (ns : list string) {struct fuel} :
    option (re * string * list string) :=
  match fuel with
  | O => None
  | S fuel =>
      '(a, s, ns) ← parse_seq f fuel s ns;
      match s with
      | String "|" s => '(b, s, ns) ← parse_alt f fuel s ns; Some (RAlt a b, s, ns)
      | _ => Some (a, s, ns)
      end
  end
with parse_seq (f : flags) (fuel : nat) (s : string) (ns : list string) {struct fuel} :
    option (re * string * list string) :=
  match fuel with
  | O => None
  | S fuel =>
      match s with
      | EmptyString => Some (REmpty, s, ns)
      | String "|" _ | String ")" _ => Some (REmpty, s, ns)
      | _ =>
          '(a, s, ns) ← parse_atom f fuel s ns;
          '(a, s) ← repeated a s;
          '(b, s, ns) ← parse_seq f fuel s ns;
          Some (RSeq a b, s, ns)
      end
  end
with parse_atom (f : flags) (fuel : nat) (s : string) (ns : list string) {struct fuel} :
    option (re * string * list string) :=
  match fuel with
  | O => None
  | S fuel =>
      let close (r : re) (s : string) (ns : list string) := match s with String ")" s => Some (r, s, ns) | _ => None end in
      match s with
      | String "(" (String "?" (String ":" s)) =>
          '(a, s, ns) ← parse_alt f fuel s ns; close a s ns
      | String "(" (String "?" (String "P" (String "<" s))) =>
          '(n, s) ← group_name s;
          let i := S (List.length ns) in
          '(a, s, ns) ← parse_alt f fuel s (ns ++ [n]); close (RGroup i a) s ns
      | String "(" (String "?" _) => None
      | String "(" s =>
          let i := S (List.length ns) in
          '(a, s, ns) ← parse_alt f fuel s (ns ++ [""%string]); close (RGroup i a) s ns
      | String "[" s => '(a, s) ← parse_class f s; Some (a, s, ns)
      | String "." s => Some (RSet (RuneSet true false [(10, 10)]), s, ns)
      | String "^" s => Some (RAssert (if multi_line f then BeginLine else BeginText), s, ns)
      | String "$" s => Some (RAssert (if multi_line f then EndLine else EndText), s, ns)
      | String "\" (String "b" s) => Some (RAssert WordBoundary, s, ns)
      | String "\" (String "d" s) => Some (RSet (RuneSet false false perl_d), s, ns)
      | String "\" (String "s" s) => Some (RSet (RuneSet false false perl_s), s, ns)
      | String "\" (String "S" s) => Some (RSet (RuneSet true false perl_s), s, ns)
      | String "\" (String c s) =>
          r ← escaped c; Some (RSet (RuneSet false (fold_case f) [(r, r)]), s, ns)
      | String c s =>
          if bz c <? 128 then Some (RSet (RuneSet false (fold_case f) [(bz c, bz c)]), s, ns) else None
      | EmptyString => None
      end
  end.

(** The flags at the start of a pattern. *)
Definition parse_flags (s : string) : flags * string :=
  match cut_prefix "(?i)" s, cut_prefix "(?m)" s with
  | Some s, _ => (Flags true false, s)
  | _, Some s => (Flags false true, s)
  | _, _ => (Flags false false, s)
  end.

Definition parse (s : string) : option regexp :=
  let '(f, s) := parse_flags s in
  match parse_alt f (3 * S (String.length s)) s [] with
  | Some (r, EmptyString, ns) => Some (Regexp r ns)
  | _ => None
  end.

(** [regexp.MustCompile], which panics on a pattern that does not parse; here
    such a pattern matches nothing ([parses] is checked of every pattern). *)
Definition RNever : re := RSet (RuneSet false false []).
Definition compile (s : string) : regexp := default (Regexp RNever []) (parse s).
Definition parses (s : string) : bool := bool_decide (is_Some (parse s)).

(** [regexp.QuoteMeta]. *)
Definition special (c : ascii) : bool := contains_b c "\.+*?()|[]{}^$".
Fixpoint QuoteMeta (s : string) : string :=
  match s with
  | EmptyString => EmptyString
  | String c s => if special c then String "\" (String c (QuoteMeta s)) else String c (QuoteMeta s)
  end.

(** A body that consumes text whenever it matches. *)
Fixpoint consumes (r : re) : bool :=
  match r with
  | RSet _ => true
  | RSeq a b => consumes a || consumes b
  | RAlt a b => consumes a && consumes b
  | RGroup _ a => consumes a
  | REmpty | RAssert _ | RStar _ _ => false
  end.

(** Every repetition's body consumes text. *)
Fixpoint proper (r : re) : bool :=
  match r with
  | REmpty | RSet _ | RAssert _ => true
  | RSeq a b | RAlt a b => proper a && proper b
  | RStar _ a => consumes a && proper a
  | RGroup _ a => proper a
  end.

Example ex_parse :
  parse "(?i)\bkey\s+(?P<s>\S+)" ≠ None.
Proof. vm_compute. congruence. Qed.

Example ex_find :
  find_all (compile "(?i)\bneighbor\s+\S+\s+password\s+(?:\d\s+)?(?P<s>\S+)")
    " Neighbor 10.0.0.1 paSSword 7 abc" = [Found 1 33 [(1%nat, (30%nat, 33%nat))]].
Proof. vm_compute. reflexivity. Qed.

Example ex_counts :
  map (MatchString (compile "^[A-Z][A-Z_]{2,31}$")) ["WRITE_CONFIG"; "AB"; "ABC"; "A1C"; "ABCDEFGHIJKLMNOPQRSTUVWXYZABCDEFG"]
  = [true; false; true; false; false].
Proof. vm_compute. reflexivity. Qed.

Example ex_empty : find_all (compile "a*") "baac" = [Found 0 0 []; Found 1 3 []; Found 4 4 []].
Proof. vm_compute. reflexivity. Qed.

(** ** The reference semantics: every way to match, in order of preference *)

Fixpoint star_results (m : pos → caps → list (pos * caps)) (greedy : bool) (fuel : nat)
    (p : pos) (c : caps) : list (pos * caps) :=
  match fuel with
  | O => []
  | S fuel =>
      let more := flat_map (λ x,
        if (off x.1 <=? off p)%nat then [] else star_results m greedy fuel x.1 x.2) (m p c) in
      if greedy then more ++ [(p, c)] else (p, c) :: more
  end.

Fixpoint results (r : re) (p : pos) (c : caps) {struct r} : list (pos * caps) :=
  match r with
  | REmpty => [(p, c)]
  | RSet s =>
      match step p with
      | Some (x, p') => if in_set s x then [(p', c)] else []
      | None => []
      end
  | RAssert a => if holds a p then [(p, c)] else []
  | RSeq a b => flat_map (λ x, results b x.1 x.2) (results a p c)
  | RAlt a b => results a p c ++ results b p c
  | RStar g a => star_results (results a) g (S (String.length (rest p))) p c
  | RGroup i a => map (λ x, (x.1, (i, (off p, off x.1)) :: x.2)) (results a p c)
  end.

(** The first result a continuation accepts. *)
Fixpoint first_some {X} (k : kont) (l : list (pos * caps)) : option X :=
  match l with
  | [] => None
  | x :: l => either (k x.1 x.2) (λ _, first_some k l)
  end.

Lemma first_some_app {X} (k : kont (X:=X)) l1 l2 :
  first_some k (l1 ++ l2) = either (first_some k l1) (λ _, first_some k l2).
Proof. induction l1 as [|x l1 IH]; [done|]. cbn. rewrite IH. by destruct (k x.1 x.2). Qed.

Lemma first_some_ext {X} (k1 k2 : kont (X:=X)) l :
  (∀ p c, k1 p c = k2 p c) → first_some k1 l = first_some k2 l.
Proof. intros Hk. induction l as [|x l IH]; [done|]. cbn. by rewrite Hk, IH. Qed.

Lemma first_some_flat_map {X} (k : kont (X:=X)) f l :
  first_some k (flat_map f l) = first_some (λ p c, first_some k (f (p, c))) l.
Proof.
  induction l as [|[p c] l IH]; [done|]. cbn. rewrite first_some_app, IH. done.
Qed.

Lemma first_some_map {X} (k : kont (X:=X)) f l :
  first_some k (map f l) = first_some (λ p c, k (f (p, c)).1 (f (p, c)).2) l.
Proof. induction l as [|[p c] l IH]; [done|]. cbn. by rewrite IH. Qed.

Lemma star_run_results {X} (m : pos → caps → kont → option X) ms g k fuel p c :
  (∀ p c k, m p c k = first_some k (ms p c)) →
  star_run m g k fuel p c = first_some k (star_results ms g fuel p c).
Proof.
  intros Hm. revert p c. induction fuel as [|fuel IH]; intros p c; [done|].
  cbn [star_run star_results].
  assert (Hmore : m p c (λ p' c',
      if (off p' <=? off p)%nat then None else star_run m g k fuel p' c') =
    first_some k (flat_map (λ x,
      if (off x.1 <=? off p)%nat then [] else star_results ms g fuel x.1 x.2) (ms p c))).
  { rewrite Hm, first_some_flat_map. apply first_some_ext. intros p' c'. cbn.
    rewrite IH. by destruct (_ <=? _)%nat. }
  rewrite Hmore. destruct g.
  - rewrite first_some_app. cbn. by destruct (first_some _ (flat_map _ _)), (k p c).
  - cbn. done.
Qed.

(** The backtracking matcher takes the first result its continuation accepts. *)
Lemma run_results {X} r p c (k : kont (X:=X)) : run r p c k = first_some k (results r p c).
Proof.
  revert p c k. induction r as [|s|a|r1 IH1 r2 IH2|r1 IH1 r2 IH2|g r IH|i r IH]; intros p c k; cbn [run results].
  - cbn. by destruct (k p c).
  - destruct (step p) as [[x p']|]; [|done]. destruct (in_set s x); [|done]. cbn. by destruct (k p' c).
  - destruct (holds a p); [|done]. cbn. by destruct (k p c).
  - rewrite IH1, first_some_flat_map. apply first_some_ext. intros p' c'. apply IH2.
  - rewrite IH1, IH2, first_some_app. done.
  - apply star_run_results, IH.
  - rewrite IH, first_some_map. done.
Qed.

(** ** The declarative reading *)

Inductive matches : re → pos → caps → pos → caps → Prop :=
  | M_empty p c : matches REmpty p c p c
  | M_set s p c x p' : step p = Some (x, p') → in_set s x = true → matches (RSet s) p c p' c
  | M_assert a p c : holds a p = true → matches (RAssert a) p c p c
  | M_seq a b p c p1 c1 p2 c2 :
      matches a p c p1 c1 → matches b p1 c1 p2 c2 → matches (RSeq a b) p c p2 c2
  | M_alt_l a b p c p' c' : matches a p c p' c' → matches (RAlt a b) p c p' c'
  | M_alt_r a b p c p' c' : matches b p c p' c' → matches (RAlt a b) p c p' c'
  | M_star_nil g a p c : matches (RStar g a) p c p c
  | M_star_cons g a p c p1 c1 p2 c2 :
      matches a p c p1 c1 → matches (RStar g a) p1 c1 p2 c2 → matches (RStar g a) p c p2 c2
  | M_group i a p c p' c' :
      matches a p c p' c' → matches (RGroup i a) p c p' ((i, (off p, off p')) :: c').

Lemma step_adv p x p' :
  step p = Some (x, p') →
  (off p < off p')%nat ∧ (off p + String.length (rest p) = off p' + String.length (rest p'))%nat.
Proof.
  unfold step. destruct (rest p) as [|c t] eqn:Hr; [done|].
  destruct (decode_rune (String c t)) as [r n] eqn:E. intros [= <- <-]. cbn [off rest].
  apply decode_rune_size in E as Hn; [|done]. rewrite s_drop_length. lia.
Qed.

(** A match moves forward in the text and records captures inside it. *)
Definition within (lo hi : nat) (e : nat * (nat * nat)) : Prop :=
  (lo <= e.2.1)%nat ∧ (e.2.1 <= e.2.2)%nat ∧ (e.2.2 <= hi)%nat.

Lemma within_weaken lo hi lo' hi' l :
  (lo' <= lo)%nat → (hi <= hi')%nat → Forall (within lo hi) l → Forall (within lo' hi') l.
Proof. intros ?? HF. eapply Forall_impl; [done|]. intros e (?&?&?). unfold within. lia. Qed.

Lemma matches_adv r p c p' c' :
  matches r p c p' c' →
  (off p <= off p')%nat ∧
  (off p + String.length (rest p) = off p' + String.length (rest p'))%nat ∧
  ∃ new, c' = new ++ c ∧ Forall (within (off p) (off p')) new.
Proof.
  induction 1 as [p c|s p c x p' Hs|a p c|a b p c p1 c1 p2 c2 ? IH1 ? IH2|a b p c p' c' ? IH|a b p c p' c' ? IH
    |g a p c|g a p c p1 c1 p2 c2 ? IH1 ? IH2|i a p c p' c' ? IH]; try (split_and!; [lia..|by exists []]); try done.
  - apply step_adv in Hs as [??]. split_and!; [lia..|by exists []].
  - destruct IH1 as (?&?&n1&->&F1), IH2 as (?&?&n2&->&F2). split_and!; [lia..|].
    exists (n2 ++ n1). split; [by rewrite app_assoc|].
    apply Forall_app. split; eapply within_weaken; [| |done| | |done]; lia.
  - destruct IH1 as (?&?&n1&->&F1), IH2 as (?&?&n2&->&F2). split_and!; [lia..|].
    exists (n2 ++ n1). split; [by rewrite app_assoc|].
    apply Forall_app. split; eapply within_weaken; [| |done| | |done]; lia.
  - destruct IH as (?&?&n1&->&F1). split_and!; [lia..|]. eexists (_ :: n1). split; [done|].
    constructor; [unfold within; cbn; lia|done].
Qed.

Lemma matches_consumes r p c p' c' :
  consumes r = true → matches r p c p' c' → (off p < off p')%nat.
Proof.
  intros Hc Hm. induction Hm as [p c|s p c x p' Hs|a p c|a b p c p1 c1 p2 c2 H1 IH1 H2 IH2|a b p c p' c' ? IH|a b p c p' c' ? IH
    |g a p c|g a p c p1 c1 p2 c2 ? IH1 ? IH2|i a p c p' c' ? IH]; cbn in Hc; try done.
  - by apply step_adv in Hs as [??].
  - apply matches_adv in H1 as [? _], H2 as [? _].
    apply orb_true_iff in Hc as [Hc|Hc]; [specialize (IH1 Hc)|specialize (IH2 Hc)]; lia.
  - apply andb_prop in Hc as [? ?]. auto.
  - apply andb_prop in Hc as [? ?]. auto.
  - auto.
Qed.

Lemma in_flat_map' {A B} (f : A → list B) l y : y ∈ flat_map f l ↔ ∃ x, x ∈ l ∧ y ∈ f x.
Proof. rewrite list_elem_of_In, in_flat_map. by setoid_rewrite list_elem_of_In. Qed.

(** A proper pattern's results are exactly its matches; in particular the
    fuel of a repetition is enough. *)
Lemma star_results_sound m g r fuel p c p' c' :
  (∀ p c p' c', (p', c') ∈ m p c → matches r p c p' c') →
  (p', c') ∈ star_results m g fuel p c → matches (RStar g r) p c p' c'.
Proof.
  intros Hm. revert p c. induction fuel as [|fuel IH]; intros p c; cbn [star_results].
  { by intros ?%not_elem_of_nil. }
  set (more := flat_map _ _). intros Hin.
  assert ((p', c') = (p, c) ∨ (p', c') ∈ more) as [[= -> ->]|Hx].
  { destruct g; [apply elem_of_app in Hin as [?|[?|?%not_elem_of_nil]%elem_of_cons]|apply elem_of_cons in Hin as [?|?]]; auto. done. }
  { constructor. }
  apply in_flat_map' in Hx as ([p1 c1] & H1 & H2). cbn in H2.
  destruct (off p1 <=? off p)%nat; [by apply not_elem_of_nil in H2|].
  econstructor; [by apply Hm|by apply IH].
Qed.

Lemma star_results_complete m g r fuel p c p' c' :
  consumes r = true →
  (∀ p c p' c', matches r p c p' c' → (p', c') ∈ m p c) →
  matches (RStar g r) p c p' c' → (String.length (rest p) < fuel)%nat →
  (p', c') ∈ star_results m g fuel p c.
Proof.
  intros Hc Hm Hs. remember (RStar g r) as s eqn:Es. revert fuel.
  induction Hs as [| | | | | |g' a p c|g' a p c p1 c1 p2 c2 H1 _ H2 IH2|]; try done; simplify_eq; intros fuel Hf;
    (destruct fuel as [|fuel]; [lia|]); cbn [star_results]; set (more := flat_map _ _).
  - destruct g; [apply elem_of_app; right|]; by left.
  - assert ((p2, c2) ∈ more) as Hx.
    { apply in_flat_map'. exists (p1, c1). split; [by apply Hm|]. cbn.
      apply matches_consumes in H1 as Hlt; [|done]. apply matches_adv in H1 as (_ & He & _).
      destruct (Nat.leb_spec (off p1) (off p)); [lia|]. apply IH2; [done|lia]. }
    destruct g; [apply elem_of_app; by left|by right].
Qed.

Lemma results_sound r p c p' c' : (p', c') ∈ results r p c → matches r p c p' c'.
Proof.
  revert p c p' c'. induction r as [|s|a|r1 IH1 r2 IH2|r1 IH1 r2 IH2|g r IH|i r IH]; intros p c p' c'; cbn [results].
  - intros [= -> ->]%list_elem_of_singleton. constructor.
  - destruct (step p) as [[x q]|] eqn:E; [|by intros ?%not_elem_of_nil].
    destruct (in_set s x) eqn:Ei; [|by intros ?%not_elem_of_nil].
    intros [= -> ->]%list_elem_of_singleton. by econstructor.
  - destruct (holds a p) eqn:E; [|by intros ?%not_elem_of_nil].
    intros [= -> ->]%list_elem_of_singleton. by constructor.
  - intros ([p1 c1] & H1 & H2)%in_flat_map'. econstructor; eauto.
  - intros [?|?]%elem_of_app; [apply M_alt_l|apply M_alt_r]; auto.
  - apply star_results_sound, IH.
  - intros ([p1 c1] & [= -> ->] & H1)%list_elem_of_fmap. constructor. auto.
Qed.

Lemma results_complete r p c p' c' :
  proper r = true → matches r p c p' c' → (p', c') ∈ results r p c.
Proof.
  revert p c p' c'. induction r as [|s|a|r1 IH1 r2 IH2|r1 IH1 r2 IH2|g r IH|i r IH]; intros p c p' c' Hp Hm;
    cbn [proper] in Hp; try apply andb_prop in Hp as [Hp1 Hp2]; cbn [results].
  - inversion Hm; simplify_eq. by apply list_elem_of_singleton.
  - inversion Hm as [|? ? ? x q Hs Hi| | | | | | |]; simplify_eq. rewrite Hs, Hi. by apply list_elem_of_singleton.
  - inversion Hm as [| |? ? ? Hh| | | | | |]; simplify_eq. rewrite Hh. by apply list_elem_of_singleton.
  - inversion Hm; simplify_eq. apply in_flat_map'. eexists (_, _). split; [by apply IH1|by apply IH2].
  - inversion Hm; simplify_eq; apply elem_of_app; [left|right]; auto.
  - eapply star_results_complete; eauto with lia.
  - inversion Hm; simplify_eq. apply list_elem_of_fmap. eexists (_, _). split; [done|auto].
Qed.

Lemma results_matches r p c p' c' :
  proper r = true → (p', c') ∈ results r p c ↔ matches r p c p' c'.
Proof. split; [apply results_sound|by apply results_complete]. Qed.

(** ** Searching *)

(** The positions a search from [p] goes through, from rune to rune. *)
Definition stepped (p q : pos) : Prop := ∃ x, step p = Some (x, q).
Abbreviation reaches := (rtc stepped).

Lemma match_at_results r p : match_at r p = head (results (body r) p []).
Proof.
  unfold match_at. rewrite run_results. by destruct (results _ _ _) as [|[q c] l].
Qed.

Lemma match_at_sound r p e c : match_at r p = Some (e, c) → matches (body r) p [] e c.
Proof.
  rewrite match_at_results. intros H. apply results_sound.
  destruct (results _ _ _) as [|x l]; simplify_eq/=. by left.
Qed.

Lemma match_at_none r p e c :
  proper (body r) = true → match_at r p = None → ¬ matches (body r) p [] e c.
Proof.
  rewrite match_at_results. intros Hp H Hm. apply results_complete in Hm; [|done].
  destruct (results _ _ _) as [|x l]; [by apply not_elem_of_nil in Hm|done].
Qed.

Lemma find_from_Some r fuel p b e c :
  find_from r fuel p = Some (b, (e, c)) → reaches p b ∧ matches (body r) b [] e c.
Proof.
  revert p. induction fuel as [|fuel IH]; intros p; cbn [find_from];
    destruct (match_at r p) as [[q d]|] eqn:E.
  - intros [= <- <- <-]. split; [constructor|by apply match_at_sound].
  - done.
  - intros [= <- <- <-]. split; [constructor|by apply match_at_sound].
  - destruct (step p) as [[x p']|] eqn:Es; [|done]. intros [? ?]%IH.
    split; [|done]. eapply rtc_l; [by exists x|done].
Qed.

Lemma find_from_None r fuel p q :
  (String.length (rest p) <= fuel)%nat → find_from r fuel p = None → reaches p q → match_at r q = None.
Proof.
  intros Hl Hf Hr. revert fuel Hl Hf. induction Hr as [p|p p1 q [x Hs] Hr IH]; intros fuel Hl Hf.
  - destruct fuel; cbn [find_from] in Hf; by destruct (match_at r p).
  - apply step_adv in Hs as Ha. destruct fuel as [|fuel]; [lia|]. cbn [find_from] in Hf.
    destruct (match_at r p); [done|]. rewrite Hs in Hf. eapply IH; [|done]. lia.
Qed.

Lemma reaches_off p q : reaches p q → (off p <= off q)%nat.
Proof. induction 1 as [|? ? ? [y Hy] ? ?]; [done|]. apply step_adv in Hy as [? _]. lia. Qed.

Lemma find_from_first r fuel p q b m :
  find_from r fuel p = Some (b, m) → reaches p q → (off q < off b)%nat → match_at r q = None.
Proof.
  intros Hf Hr. revert fuel Hf. induction Hr as [p|p p1 q [x Hs] Hr IH]; intros fuel Hf Hlt.
  - destruct fuel; cbn [find_from] in Hf; destruct (match_at r p); simplify_eq; try done; lia.
  - apply step_adv in Hs as Ha. apply reaches_off in Hr.
    destruct fuel as [|fuel]; cbn [find_from] in Hf; destruct (match_at r p) eqn:E; simplify_eq; try lia.
    rewrite Hs in Hf. by eapply IH.
Qed.

(** A search finds the leftmost position where the pattern matches, and fails
    only when there is none. *)
Lemma find_spec r p :
  proper (body r) = true →
  match find r p with
  | Some (b, (e, c)) =>
      reaches p b ∧ matches (body r) b [] e c ∧
      ∀ q e' c', reaches p q → (off q < off b)%nat → ¬ matches (body r) q [] e' c'
  | None => ∀ q e' c', reaches p q → ¬ matches (body r) q [] e' c'
  end.
Proof.
  intros Hp. destruct (find r p) as [[b [e c]]|] eqn:E.
  - apply find_from_Some in E as Hs. destruct Hs as [??]. split_and!; [done..|].
    intros q e' c' Hr Hlt. apply match_at_none; [done|]. by eapply find_from_first.
  - intros q e' c' Hr. apply match_at_none; [done|]. by eapply find_from_None; [|exact E|].
Qed.

(** Positions of one text. *)
Definition in_text (s : string) (p : pos) : Prop :=
  (off p <= String.length s)%nat ∧ rest p = s_drop (off p) s.

Lemma s_drop_drop n m s : s_drop n (s_drop m s) = s_drop (m + n) s.
Proof. revert s. induction m as [|m IH]; intros [|c s]; [done|done|by destruct n|apply IH]. Qed.

Lemma in_text_start s : in_text s (start s).
Proof. split; cbn; [lia|done]. Qed.

Lemma step_in_text s p x q : in_text s p → step p = Some (x, q) → in_text s q.
Proof.
  intros [Hl Hr] Hs. apply step_adv in Hs as Ha. unfold step in Hs.
  rewrite Hr, s_drop_length in Ha. destruct (rest p) as [|c t] eqn:E; [done|].
  destruct (decode_rune (String c t)) as [r n]. injection Hs as <- <-. cbn [off rest] in *. split; cbn [off rest]; [lia|].
  rewrite Hr, s_drop_drop. done.
Qed.

Lemma reaches_in_text s p q : in_text s p → reaches p q → in_text s q.
Proof. intros Ht Hr. induction Hr as [|? ? ? [x Hs] ? IH]; [done|]. eapply IH, step_in_text; eauto. Qed.

Lemma matches_reaches r p c p' c' : matches r p c p' c' → reaches p p'.
Proof.
  induction 1; try done; [|by etrans|by etrans]. eapply rtc_once. by eexists.
Qed.

(** ** All matches *)

(** One reported match of [r] in [s]. *)
Definition found_in (r : regexp) (s : string) (f : found) : Prop :=
  ∃ b e, in_text s b ∧ in_text s e ∧ off b = from f ∧ off e = upto f ∧
    matches (body r) b [] e (groups f).

(** Matches in order and apart from each other, from [lo] on. *)
Fixpoint in_order (lo : nat) (l : list found) : Prop :=
  match l with
  | [] => True
  | f :: l => (lo <= from f)%nat ∧ (from f <= upto f)%nat ∧ in_order (upto f) l
  end.

Lemma in_order_weaken lo lo' l : (lo' <= lo)%nat → in_order lo l → in_order lo' l.
Proof. destruct l; cbn; [done|]. intros ? (?&?&?). split_and!; [lia|done..]. Qed.

Lemma all_from_spec r s fuel p prevEnd :
  in_text s p →
  Forall (found_in r s) (all_from r fuel p prevEnd) ∧ in_order (off p) (all_from r fuel p prevEnd).
Proof.
  revert p prevEnd. induction fuel as [|fuel IH]; intros p prevEnd Ht; cbn [all_from]; [done|].
  destruct (find r p) as [[b [e c]]|] eqn:E; [|done].
  apply find_from_Some in E as [Hr Hm]. apply matches_reaches in Hm as Hr'.
  assert (Hb : in_text s b) by (by eapply reaches_in_text). assert (He : in_text s e) by (by eapply reaches_in_text).
  apply reaches_off in Hr, Hr'.
  assert (Hf : found_in r s (Found (off b) (off e) c)) by (exists b, e; auto).
  destruct (Nat.eqb_spec (off e) (off p)) as [Heq|Hne].
  - assert (Hrec : ∀ l, l = match step p with
        Some (_, p') => all_from r fuel p' (Some (off e)) | None => [] end →
      Forall (found_in r s) l ∧ in_order (off e) l).
    { intros l ->. destruct (step p) as [[x p']|] eqn:Es; [|done].
      apply step_adv in Es as Ha. eapply step_in_text in Es; [|done].
      specialize (IH p' (Some (off e)) Es) as [H1 H2]. split; [done|]. eapply in_order_weaken; [|done]. lia. }
    destruct (Hrec _ eq_refl) as [H1 H2]. case_bool_decide; cbn.
    + split; [done|]. eapply in_order_weaken; [|done]. lia.
    + split; [by constructor|]. split_and!; [lia|lia|done].
  - specialize (IH e (Some (off e)) He) as [H1 H2]. cbn. split; [by constructor|]. split_and!; [lia|lia|done].
Qed.

Lemma find_all_in r s : Forall (found_in r s) (find_all r s).
Proof. apply all_from_spec, in_text_start. Qed.

Lemma find_all_order r s : in_order 0 (find_all r s).
Proof. apply (all_from_spec r s _ (start s) None), in_text_start. Qed.

(** Something is reported exactly when the pattern matches somewhere. *)
Definition matches_in (r : regexp) (s : string) : Prop :=
  ∃ q e c, reaches (start s) q ∧ matches (body r) q [] e c.

Lemma MatchString_spec r s : proper (body r) = true → MatchString r s = true ↔ matches_in r s.
Proof.
  intros Hp. unfold MatchString. rewrite bool_decide_eq_true.
  generalize (find_spec r (start s) Hp). destruct (find r (start s)) as [[b [e c]]|].
  - intros (?&?&_). split; [|by eexists]. intros _. by exists b, e, c.
  - intros Hn. split; [by intros [? [=]]|]. intros (q & e & c & Hr & Hm). by edestruct Hn.
Qed.

Lemma find_all_nil r s : find_all r s = [] ↔ MatchString r s = false.
Proof.
  unfold MatchString. rewrite bool_decide_eq_false. unfold find_all. cbn [all_from].
  destruct (find r (start s)) as [[b [e c]]|] eqn:E.
  - split; [|by intros []]. destruct (off e =? off (start s))%nat; [|done].
    by rewrite bool_decide_eq_false_2.
  - split; [by intros _ [? [=]]|done].
Qed.

(** ** Captures *)

(** Every capture of group [i] is of a text that is not empty. *)
Fixpoint solid (i : nat) (r : re) : bool :=
  match r with
  | REmpty | RSet _ | RAssert _ => true
  | RSeq a b | RAlt a b => solid i a && solid i b
  | RStar _ a => solid i a
  | RGroup j a => (negb (j =? i)%nat || consumes a) && solid i a
  end.

(** Every match captures group [i]. *)
Fixpoint always (i : nat) (r : re) : bool :=
  match r with
  | REmpty | RSet _ | RAssert _ | RStar _ _ => false
  | RSeq a b => always i a || always i b
  | RAlt a b => always i a && always i b
  | RGroup j a => (j =? i)%nat || always i a
  end.

Lemma matches_solid i r p c p' c' :
  solid i r = true → matches r p c p' c' →
  Forall (λ e, e.1 = i → (e.2.1 < e.2.2)%nat) c → Forall (λ e, e.1 = i → (e.2.1 < e.2.2)%nat) c'.
Proof.
  intros Hs Hm. induction Hm as [p c|s p c x p' Hst|a p c|a b p c p1 c1 p2 c2 ? IH1 ? IH2|a b p c p' c' ? IH|a b p c p' c' ? IH
    |g a p c|g a p c p1 c1 p2 c2 ? IH1 ? IH2|j a p c p' c' Hm IH]; cbn in Hs;
    try (apply andb_prop in Hs as [Hs1 Hs2]); auto.
  intros HF. constructor; [|auto]. cbn. intros ->. rewrite Nat.eqb_refl in Hs1. cbn in Hs1. by eapply matches_consumes.
Qed.

Lemma matches_always i r p c p' c' :
  always i r = true → matches r p c p' c' → ∃ e, (i, e) ∈ c'.
Proof.
  intros Hs Hm. induction Hm as [p c|s p c x p' Hst|a p c|a b p c p1 c1 p2 c2 ? IH1 Hb IH2|a b p c p' c' ? IH|a b p c p' c' ? IH
    |g a p c|g a p c p1 c1 p2 c2 ? IH1 ? IH2|j a p c p' c' Hm IH]; cbn in Hs; try done.
  - apply orb_true_iff in Hs as [Hs|Hs]; [|auto]. destruct (IH1 Hs) as [e He]. exists e.
    apply matches_adv in Hb as (_ & _ & n & -> & _). apply elem_of_app. by right.
  - apply andb_prop in Hs as [? ?]. auto.
  - apply andb_prop in Hs as [? ?]. auto.
  - apply orb_true_iff in Hs as [->%Nat.eqb_eq|Hs]; [eexists; by left|].
    destruct (IH Hs) as [e He]. exists e. by right.
Qed.

Lemma cap_get_in i c e : cap_get i c = Some e → (i, e) ∈ c.
Proof.
  unfold cap_get. intros ([j e'] & Hf & [= ->])%fmap_Some.
  apply find_some in Hf as [Hin Hj%Nat.eqb_eq]. cbn in Hj. subst. by apply list_elem_of_In.
Qed.

Lemma cap_get_some i c e : (i, e) ∈ c → is_Some (cap_get i c).
Proof.
  intros Hin. unfold cap_get. destruct (List.find _ c) eqn:E; [by eexists|].
  eapply find_none in E; [|by apply list_elem_of_In]. cbn in E. by rewrite Nat.eqb_refl in E.
Qed.

(** A reported match's captures lie inside it. *)
Lemma found_caps r s f i a b :
  found_in r s f → cap_get i (groups f) = Some (a, b) →
  (from f <= a)%nat ∧ (a <= b)%nat ∧ (b <= upto f)%nat ∧ (upto f <= String.length s)%nat.
Proof.
  intros (p & e & Hb & [He _] & <- & Hu & Hm) Hc%cap_get_in. rewrite <- Hu.
  apply matches_adv in Hm as (_ & _ & n & Hn & HF). rewrite app_nil_r in Hn. subst n.
  rewrite Forall_forall in HF. specialize (HF _ Hc) as (?&?&?). cbn in *. lia.
Qed.

Lemma found_solid r s f i :
  solid i (body r) = true → always i (body r) = true → found_in r s f →
  ∃ a b, cap_get i (groups f) = Some (a, b) ∧ (a < b)%nat.
Proof.
  intros Hs Ha (p & e & _ & _ & _ & _ & Hm).
  destruct (matches_always _ _ _ _ _ _ Ha Hm) as [x Hx].
  apply cap_get_some in Hx as [[a b] Hc]. exists a, b. split; [done|].
  apply matches_solid with (i := i) in Hm; [|done|constructor].
  rewrite Forall_forall in Hm. apply cap_get_in in Hc. exact (Hm _ Hc eq_refl).
Qed.

(** Groups a pattern mentions, and patterns in which group [j] only captures
    after what group [i] captured. *)
Fixpoint mentions (i : nat) (r : re) : bool :=
  match r with
  | REmpty | RSet _ | RAssert _ => false
  | RSeq a b | RAlt a b => mentions i a || mentions i b
  | RStar _ a => mentions i a
  | RGroup j a => (j =? i)%nat || mentions i a
  end.

Definition apart (i j : nat) (r : re) : bool := negb (mentions i r) || negb (mentions j r).

Fixpoint ordered (i j : nat) (r : re) : bool :=
  apart i j r ||
  match r with
  | RSeq a b => (negb (mentions j a) && negb (mentions i b)) || (negb (mentions i a) && negb (mentions j a) && ordered i j b)
  | _ => false
  end.

(** The captures a match adds, all of groups the pattern mentions. *)
Lemma matches_new r p c p' c' :
  matches r p c p' c' →
  ∃ new, c' = new ++ c ∧ Forall (within (off p) (off p')) new ∧ Forall (λ e, mentions e.1 r = true) new.
Proof.
  intros Hm. apply matches_adv in Hm as Ha. destruct Ha as (_ & _ & new & Hn & HF). exists new.
  split_and!; [done..|]. clear HF. revert new Hn.
  induction Hm as [p c|s p c x p' Hst|a p c|a b p c p1 c1 p2 c2 Ha IH1 Hb IH2|a b p c p' c' ? IH|a b p c p' c' ? IH
    |g a p c|g a p c p1 c1 p2 c2 Ha IH1 Hb IH2|j a p c p' c' Hm IH]; intros new Hn;
    try (replace new with (@nil (nat * (nat * nat))) by (by apply (app_inv_tail c)); constructor).
  - apply matches_adv in Ha as (_&_&n1&->&_), Hb as (_&_&n2&->&_).
    rewrite app_assoc in Hn. apply app_inv_tail in Hn as <-. apply Forall_app. split.
    + eapply Forall_impl; [by apply IH2|]. cbn. intros e ->. apply orb_true_r.
    + eapply Forall_impl; [by apply IH1|]. cbn. by intros e ->.
  - eapply Forall_impl; [by apply IH|]. cbn. by intros e ->.
  - eapply Forall_impl; [by apply IH|]. cbn. intros e ->. apply orb_true_r.
  - apply matches_adv in Ha as (_&_&n1&->&_), Hb as (_&_&n2&->&_).
    rewrite app_assoc in Hn. apply app_inv_tail in Hn as <-. apply Forall_app. split.
    + by apply IH2.
    + by apply IH1.
  - apply matches_adv in Hm as (_&_&n1&->&_). change ((j, (off p, off p')) :: n1 ++ c) with (((j, (off p, off p')) :: n1) ++ c) in Hn.
    apply app_inv_tail in Hn as <-. constructor; [cbn; by rewrite Nat.eqb_refl|].
    eapply Forall_impl; [by apply IH|]. cbn. intros e ->. apply orb_true_r.
Qed.

Lemma apart_new i j r (new : caps) (x y : nat * nat) :
  apart i j r = true → Forall (λ e, mentions e.1 r = true) new → (i, x) ∈ new → (j, y) ∈ new → False.
Proof.
  intros Ha HF Hi Hj. rewrite Forall_forall in HF. apply HF in Hi, Hj. cbn in *.
  unfold apart in Ha. by rewrite Hi, Hj in Ha.
Qed.

Lemma matches_ordered i j r p c p' c' (new : caps) (x y : nat * nat) :
  ordered i j r = true → matches r p c p' c' → c' = new ++ c →
  (i, x) ∈ new → (j, y) ∈ new → (x.2 <= y.1)%nat.
Proof.
  revert p c p' c' new. induction r as [|s|a|r1 IH1 r2 IH2|r1 IH1 r2 IH2|g r IH|k r IH]; intros p c p' c' new Ho Hm Hn Hi Hj;
    cbn [ordered] in Ho; (destruct (apart i j _) eqn:Ea;
      [apply matches_new in Hm as (n&->&_&HF); apply app_inv_tail in Hn as ->; by exfalso; eapply apart_new|]); try done.
  cbn [orb] in Ho. inversion Hm as [| | |? ? ? ? p1 c1 ? ? H1 H2| | | | |]; simplify_eq.
  apply matches_new in H1 as (n1&->&W1&F1). apply matches_new in H2 as H2'. destruct H2' as (n2&Hc&W2&F2).
  rewrite app_assoc in Hc. apply app_inv_tail in Hc as ->.
  rewrite Forall_forall in W1, W2, F1, F2.
  assert (Habs : ∀ k (z : nat * nat) (l : caps) r, mentions k r = false → (∀ e, e ∈ l → mentions e.1 r = true) → (k, z) ∈ l → False).
  { intros k z l r Hk Hl Hin. apply Hl in Hin. cbn in Hin. congruence. }
  apply orb_true_iff in Ho as [Ho|Ho]; breflect.
  - apply elem_of_app in Hi as [Hi|Hi]; [exfalso; eapply (Habs i x n2 r2); eassumption|].
    apply elem_of_app in Hj as [Hj|Hj]; [|exfalso; eapply (Habs j y n1 r1); eassumption].
    pose proof (W1 _ Hi) as (?&?&?). pose proof (W2 _ Hj) as (?&?&?). cbn in *. lia.
  - apply elem_of_app in Hi as [Hi|Hi]; [|exfalso; eapply (Habs i x n1 r1); eassumption].
    apply elem_of_app in Hj as [Hj|Hj]; [|exfalso; eapply (Habs j y n1 r1); eassumption].
    eapply (IH2 _ _ _ _ n2); [eassumption|exact H2|by rewrite app_assoc|done|done].
Qed.

(** ** Literals: the bytes of [w] one after the other, followed by [k] *)

Definition byte_re (c : ascii) : re := RSet (RuneSet false false [(bz c, bz c)]).
Definition lit_re (w : string) (k : re) : re := foldr (λ c r, RSeq (byte_re c) r) k (chars w).
Lemma decode_rune_low c t r n :
  decode_rune (String c t) = (r, n) → r < 128 → bz c < 128 ∧ r = bz c ∧ n = 1%nat.
Proof.
  unfold decode_rune, cont_byte. intros Hd Hr.
  destruct (Z.ltb_spec (bz c) 128) as [Hc|Hc]; [by simplify_eq|].
  unfold in_range, RuneError in *. repeat case_match; simplify_eq; breflect; lia.
Qed.

(** One byte of a set of ASCII runes. *)
Lemma matches_byte (P : rune_set) (Q : ascii → bool) p c p' c' :
  (∀ r, in_set P r = true → r < 128) → (∀ a, Q a = in_set P (bz a)) →
  matches (RSet P) p c p' c' ↔ c' = c ∧ ∃ a x, Q a = true ∧ rest p = String a (rest p') ∧ step p = Some (x, p').
Proof.
  intros HP HQ. split.
  - intros Hm. inversion Hm as [|? ? ? x q Hs Hi| | | | | | |]; simplify_eq. split; [done|].
    pose proof Hs as Hs'. unfold step in Hs'. destruct (rest p) as [|a t] eqn:Er; [done|].
    destruct (decode_rune (String a t)) as [r n] eqn:E. injection Hs' as -> <-.
    apply decode_rune_low in E as (Ha & -> & ->); [|by apply HP].
    exists a, (bz a). rewrite HQ. split_and!; [done|done|]. done.
  - intros (-> & a & x & Ha & Hr & Hs). econstructor; [exact Hs|].
    rewrite HQ in Ha. assert (bz a < 128) by by apply HP.
    unfold step in Hs. rewrite Hr, decode_rune_ascii in Hs by done. by injection Hs as <- _.
Qed.

Lemma step_byte p a t :
  rest p = String a t → bz a < 128 → ∃ q, step p = Some (bz a, q) ∧ rest q = t.
Proof.
  intros Hr Ha. unfold step. rewrite Hr, decode_rune_ascii by done. eexists. split; [done|]. cbn. by destruct t.
Qed.

Lemma in_byte a r : in_set (RuneSet false false [(bz a, bz a)]) r = true ↔ r = bz a.
Proof.
  unfold in_set, in_ranges, in_range. cbn.
  destruct (Z.leb_spec (bz a) r), (Z.leb_spec r (bz a)); cbn; split; intros; try done; lia.
Qed.

Lemma byte_run a p c p' c' :
  bz a < 128 → matches (byte_re a) p c p' c' → c' = c ∧ rest p = String a (rest p').
Proof.
  intros Ha Hm. apply (matches_byte _ (λ d, Ascii.eqb d a)) in Hm as (-> & d & x & Hd & Hr & _).
  - apply Ascii.eqb_eq in Hd as ->. done.
  - by intros r ->%in_byte.
  - intros d. destruct (Ascii.eqb_spec d a) as [->|Hne]; symmetry; [by apply in_byte|].
    destruct (in_set _ _) eqn:E; [|done]. apply in_byte, bz_inj in E. done.
Qed.

(** A literal followed by [k]. *)
Lemma lit_run w k p c p' c' :
  is_ascii w = true → matches (lit_re w k) p c p' c' →
  ∃ q, rest p = (w ++ rest q)%string ∧ matches k q c p' c'.
Proof.
  revert p. unfold lit_re, chars. induction w as [|a w IH]; intros p Hw Hm; [by exists p|].
  apply andb_prop in Hw as [Ha%Z.ltb_lt Hw]. cbn in Hm.
  inversion Hm as [| | |? ? ? ? q d ? ? H1 H2| | | | |]; simplify_eq.
  apply byte_run in H1 as [-> Hr]; [|done]. destruct (IH q Hw H2) as (q' & Hq & ?).
  exists q'. split; [|done]. by rewrite Hr, Hq.
Qed.

Lemma lit_run_intro w k p c t :
  is_ascii w = true → rest p = (w ++ t)%string →
  ∃ q, rest q = t ∧ ∀ p' c', matches k q c p' c' → matches (lit_re w k) p c p' c'.
Proof.
  revert p. unfold lit_re, chars. induction w as [|a w IH]; intros p Hw Hr; [by exists p|].
  apply andb_prop in Hw as [Ha%Z.ltb_lt Hw]. cbn in Hr.
  destruct (step_byte p a _ Hr Ha) as (q & Hs & Hq). destruct (IH q Hw Hq) as (q' & Ht & Hk).
  exists q'. split; [done|]. intros p' c' H. cbn. econstructor; [|by apply Hk].
  econstructor; [exact Hs|]. by apply in_byte.
Qed.

(** What a pattern consumes, when every rune of its sets is an ASCII one that
    [P] holds of. *)
Fixpoint all_sets (Q : rune_set → Prop) (r : re) : Prop :=
  match r with
  | REmpty | RAssert _ => True
  | RSet s => Q s
  | RSeq a b | RAlt a b => all_sets Q a ∧ all_sets Q b
  | RStar _ a | RGroup _ a => all_sets Q a
  end.

Definition set_bytes (P : ascii → bool) (s : rune_set) : Prop :=
  ∀ r, in_set s r = true → r < 128 ∧ P (zb r) = true.

Lemma matches_bytes P r p c p' c' :
  all_sets (set_bytes P) r → matches r p c p' c' →
  ∃ t, rest p = (t ++ rest p')%string ∧ s_all P t = true.
Proof.
  intros HP Hm. induction Hm as [p c|s p c x p' Hs Hi|a p c|a b p c p1 c1 p2 c2 ? IH1 ? IH2|a b p c p' c' ? IH|a b p c p' c' ? IH
    |g a p c|g a p c p1 c1 p2 c2 ? IH1 ? IH2|i a p c p' c' ? IH]; cbn in HP; try (by exists EmptyString); try (by destruct HP; auto); try (by auto).
  - destruct (HP _ Hi) as [Hx HPx]. unfold step in Hs. destruct (rest p) as [|d t] eqn:Er; [done|].
    destruct (decode_rune (String d t)) as [y n] eqn:E. injection Hs as -> <-.
    apply decode_rune_low in E as (Hd & -> & ->); [|done]. exists (String d EmptyString).
    rewrite zb_bz in HPx. cbn. rewrite HPx. split; [|done]. by destruct t.
  - destruct HP as [H1 H2]. destruct (IH1 H1) as (t1 & -> & ?), (IH2 H2) as (t2 & -> & ?).
    exists (t1 ++ t2)%string. rewrite s_all_app, app_assoc_str. split; [done|]. by apply andb_true_intro.
  - destruct (IH1 HP) as (t1 & -> & ?), (IH2 HP) as (t2 & -> & ?).
    exists (t1 ++ t2)%string. rewrite s_all_app, app_assoc_str. split; [done|]. by apply andb_true_intro.
Qed.
