(* ===== verification/Redact.v ===== *)
(** * Redaction of secrets in device output: internal/redact

    The patterns of rules.go are kept as written and compiled by [compile]
    (GoRegexp); a quotation mark in a pattern is the variable [dq].  [Redact]
    replaces, line by line, what the secret groups of the first matching rule
    captured by keyed tokens.

    [Redact_exact]: what is written is the text with certain parts replaced by
    their tokens, and for every line the rule that claimed it, the parts and the
    hits are the ones the patterns' declarative reading determines. *)

From S2P Require Import Prelude GoStd GoCrypto GoRegexp.

Open Scope string_scope.
Open Scope Z_scope.
Open Scope list_scope.

(** ** Rules *)

Record Rule := MkRule { ID : string; Vendor : string; Pattern : regexp }.

Definition dq : string := String dquote EmptyString.

Definition rule (id vendor : string) (pattern : list string) : Rule :=
  MkRule id vendor (compile (concat_str pattern)).

Definition DefaultRules : list Rule := [
  rule "cisco-bgp-neighbor-password" "cisco" ["(?i)\bneighbor\s+\S+\s+password\s+(?:\d\s+)?(?P<s>\S+)"];
  rule "cisco-ospf-md5" "cisco" ["(?i)\bmessage-digest-key\s+\d+\s+md5\s+(?:\d\s+)?(?P<s>\S+)"];
  rule "cisco-ospf-auth-key" "cisco" ["(?i)\bospf\s+authentication-key\s+(?:\d\s+)?(?P<s>\S+)"];
  rule "cisco-key-string" "cisco" ["(?i)\bkey-string\s+(?:\d\s+)?(?P<s>\S+)"];
  rule "cisco-aaa-server-key" "cisco" ["(?i)\b(?:tacacs-server|radius-server)\s+(?:host\s+\S+\s+)?key\s+(?:\d\s+)?"; dq; "?(?P<s>[^"; dq; "\s]+)"; dq; "?"];
  rule "cisco-server-key" "cisco" ["(?i)^\s*key\s+\d\s+"; dq; "?(?P<s>[^"; dq; "\s]+)"; dq; "?"];
  rule "cisco-snmp-community" "cisco" ["(?i)\bsnmp-server\s+community\s+(?P<s>\S+)"];
  rule "cisco-snmp-host" "cisco" ["(?i)\bsnmp-server\s+host\s+\S+(?:\s+(?:traps|informs|version\s+\S+|vrf\s+\S+|udp-port\s+\d+|use-vrf\s+\S+))*\s+(?P<s>\S+)"];
  rule "cisco-snmp-user" "cisco" ["(?i)\bsnmp-server\s+user\s+.*?\bauth\s+(?:md5|sha|sha-256)\s+(?P<s>\S+)(?:\s+priv\s+(?:aes-128\s+)?(?P<s2>\S+))?"];
  rule "cisco-isakmp-key" "cisco" ["(?i)\bcrypto\s+isakmp\s+key\s+(?:\d\s+)?(?P<s>\S+)"];
  rule "ntp-authentication-key" "cisco" ["(?i)\bntp\s+authentication-key\s+\d+\s+(?:md5|sha1|sha2)\s+(?:\d\s+)?(?P<s>\S+)"];
  rule "cisco-password-type" "cisco" ["(?i)\b(?:password|secret)\s+\d{1,2}\s+(?P<s>\S+)"];
  rule "eos-secret-sha512" "eos" ["(?i)\b(?:secret|password)\s+(?:sha512|md5)\s+(?P<s>\S+)"];
  rule "ike-pre-shared-key" "generic" ["(?i)\bpre-shared-key(?:\s+(?:local|remote|key|ascii-text|hexadecimal|\d))*\s+"; dq; "?(?P<s>[^"; dq; "\s;]+)"; dq; "?"];
  rule "junos-encrypted-password" "junos" ["(?i)\bencrypted-password\s+"; dq; "?(?P<s>[^"; dq; "\s;]+)"; dq; "?"];
  rule "junos-secret-data" "junos" [dq; "(?P<s>[^"; dq; "]+)"; dq; "\s*;?\s*##\s*SECRET-DATA"];
  rule "junos-9-hash" "junos" ["(?P<s>\$9\$[A-Za-z0-9./\-]+)"];
  rule "panos-phash" "panos" ["(?i)\bphash\s+(?P<s>\S+)"];
  rule "panos-snmp-community" "panos" ["(?i)\bsnmp-community-string\s+(?P<s>\S+)"];
  rule "panos-encrypted-value" "panos" ["(?P<s>-AQ==[A-Za-z0-9+/=]+)"];
  rule "fortios-enc" "fortios" ["\bENC\s+(?P<s>[A-Za-z0-9+/=]{16,}|<redacted:hmac:[0-9a-f]{12}>)"];
  rule "unix-crypt-hash" "generic" ["(?P<s>\$(?:1|5|6|2[aby]?|8|14)\$[A-Za-z0-9./$]+)"];
  rule "generic-keyword" "generic" ["(?i)\b(?:password|passwd|secret|community|psk|passphrase|shared-secret|auth-key|api-key|token)(?:\s*[:=]\s*|\s+)"; dq; "?(?P<s>[^"; dq; "\s;]+)"; dq; "?"]
].

Definition RuleIDs (rules : list Rule) : list string := map ID rules.

(** ** The redactor *)

Definition TokenPrefix : string := "<redacted:hmac:".

Record Hit := MkHit { RuleID : string; hit_Count : Z }.

(** [Rules] is [None] for nil. *)
Record Redactor := MkRedactor { Key : string; Rules : option (list Rule) }.

Definition New (key : string) : Redactor := MkRedactor key (Some DefaultRules).

Definition Token (r : Redactor) (secret : string) : string :=
  (TokenPrefix ++ s_take 12 (hex_encode (hmac_sha256 (Key r) secret)) ++ ">")%string.

(** [line[a:b]]. *)
Definition substr (line : string) (a b : nat) : string := s_take (b - a) (s_drop a line).

(** The variables of applyRule's loop. *)
Record loop := Loop { b : string; last : nat; replaced : Z }.

(** The body of the loop over the groups of one match, with [hit]. *)
Definition group_step (r : Redactor) (line : string) (m : found) (x : loop * bool) (g : nat * string) :
    loop * bool :=
  if negb (has_prefix g.2 "s") then x
  else
    match cap_get g.1 (groups m) with
    | None => x
    | Some (start, end_) =>
        if (start <? last x.1)%nat || (start =? end_)%nat then x
        else
          let secret := substr line start end_ in
          if has_prefix secret TokenPrefix then (x.1, true)
          else (Loop (b x.1 ++ substr line (last x.1) start ++ Token r secret) end_ (replaced x.1 + 1), true)
    end.

(** The groups of a pattern with their numbers. *)
Definition numbered (p : regexp) : list (nat * string) :=
  imap (λ i n, (S i, n)) (names p).

(** One match: the groups in order, and whether one was a secret. *)
Definition match_step (r : Redactor) (rl : Rule) (line : string) (x : loop * Z) (m : found) : loop * Z :=
  let '(l, hit) := fold_left (group_step r line m) (numbered (Pattern rl)) (x.1, false) in
  (l, if hit then x.2 + 1 else x.2).

Definition applyRule (r : Redactor) (rl : Rule) (line : string) : string * Z * Z :=
  let '(l, matched) := fold_left (match_step r rl line) (find_all (Pattern rl) line) (Loop "" 0 0, 0) in
  if replaced l =? 0 then (line, matched, 0)
  else ((b l ++ s_drop (last l) line)%string, matched, replaced l).

(** The first rule that matches claims the line. *)
Fixpoint redact_line (r : Redactor) (rules : list Rule) (line : string) : string * option (string * Z) :=
  match rules with
  | [] => (line, None)
  | rl :: rules =>
      let '(out, matched, n) := applyRule r rl line in
      if matched =? 0 then redact_line r rules line else (out, Some (ID rl, n))
  end.

(** [counts[rule.ID] += replaced]. *)
Definition add_count (counts : gmap string Z) (c : option (string * Z)) : gmap string Z :=
  match c with
  | Some (id, n) => <[id := default 0 (counts !! id) + n]> counts
  | None => counts
  end.

Definition newline : ascii := "010".

Definition Redact (r : Redactor) (text : string) : string * list Hit :=
  let rules := default DefaultRules (Rules r) in
  let lines := map (redact_line r rules) (split_b newline text) in
  let counts := fold_left add_count (map snd lines) ∅ in
  (join (String newline EmptyString) (map fst lines),
   flat_map (λ rl, match counts !! ID rl with
     | Some n => if 0 <? n then [MkHit (ID rl) n] else []
     | None => [] end) rules).

Definition Count (hits : list Hit) : Z := foldl Z.add 0 (map hit_Count hits).

(** The rows of TestRedactSingleLines. *)
Definition single (line : string) : option (string * Z) :=
  snd (redact_line (New "fathomgate-test-key") DefaultRules line).

Example ex_lines :
  map single
    ["enable secret 9 $9$abc/def.123"; "snmp-server community s3cr3t RO SNMP-ACL"; "  key-string 7 abc123";
     "radius-server key hunter2"; " neighbor 10.0.0.1 password 7 abc"; " ip ospf message-digest-key 1 md5 7 abc";
     "snmp-server user admin network-admin auth md5 0xAAA priv 0xBBB localizedkey";
     concat_str ["encrypted-password "; dq; "$6$salt$hash"; dq; "; ## SECRET-DATA"];
     concat_str ["authentication-key "; dq; "abc def"; dq; "; ## SECRET-DATA"];
     "username admin secret sha512 $6$salt$hash"; "set mgt-config users admin phash $1$abc$def";
     "        set password ENC AAAAAAAAAAAAAAAAAAAAAAAAAAAA=="; "password: hunter2"; "psk=abc123"]
  = map (λ p, Some p)
    [("cisco-password-type", 1); ("cisco-snmp-community", 1); ("cisco-key-string", 1);
     ("cisco-aaa-server-key", 1); ("cisco-bgp-neighbor-password", 1); ("cisco-ospf-md5", 1);
     ("cisco-snmp-user", 2); ("junos-encrypted-password", 1); ("junos-secret-data", 1);
     ("eos-secret-sha512", 1); ("panos-phash", 1); ("fortios-enc", 1); ("generic-keyword", 1);
     ("generic-keyword", 1)].
Proof. vm_compute. reflexivity. Qed.

(** The lines of TestRedactNoFalsePositives. *)
Example ex_no_false_positives :
  map single
    ["service password-encryption"; "hostname core-rtr-01"; "interface GigabitEthernet0/0/0";
     "aaa authentication login default group tacacs+ local"; "set type password"; "key chain ISIS-AUTH";
     " key 1"; "snmp-server location dfw1-row3"; "!"; ""] = repeat None 10.
Proof. vm_compute. reflexivity. Qed.

(** ** What a line becomes *)

(** A line cut into what is kept and the secrets that are replaced. *)
Inductive piece := Kept (s : string) | Secret (s : string).

Definition text_of (ps : list piece) : string :=
  concat_str (map (λ p, match p with Kept s | Secret s => s end) ps).
Definition shown (r : Redactor) (ps : list piece) : string :=
  concat_str (map (λ p, match p with Kept s => s | Secret s => Token r s end) ps).

(** The pieces of the rest of a line from [lo] on, cut at the bounds given. *)
Fixpoint pieces (line : string) (lo : nat) (cuts : list (nat * nat)) : list piece :=
  match cuts with
  | [] => [Kept (s_drop lo line)]
  | (start, end_) :: cuts =>
      Kept (substr line lo start) :: Secret (substr line start end_) :: pieces line end_ cuts
  end.

(** The groups whose names make them secrets, what they captured in a match,
    and in all matches of a line. *)
Definition secret_groups (p : regexp) : list nat :=
  omap (λ g, if has_prefix g.2 "s" then Some g.1 else None) (numbered p).
Definition secret_caps (p : regexp) (m : found) : list (nat * nat) :=
  omap (λ i, cap_get i (groups m)) (secret_groups p).
Definition secrets (p : regexp) (line : string) : list (nat * nat) :=
  flat_map (secret_caps p) (find_all p line).

(** A captured text that is not a token already. *)
Definition fresh (line : string) (x : nat * nat) : Prop :=
  has_prefix (substr line x.1 x.2) TokenPrefix = false.
#[export] Instance fresh_dec line x : Decision (fresh line x).
Proof. unfold fresh. apply _. Defined.

(** What the redactor relies on of a rule's pattern: repetitions consume text,
    some secret group captures in every match, none captures the empty text,
    and each captures after those before it. *)
Fixpoint all_ordered (r : re) (gs : list nat) : bool :=
  match gs with
  | [] => true
  | i :: gs => forallb (λ j, ordered i j r) gs && all_ordered r gs
  end.

Definition rule_ok (rl : Rule) : bool :=
  let r := body (Pattern rl) in
  proper r && existsb (λ i, always i r) (secret_groups (Pattern rl)) &&
  forallb (λ i, solid i r) (secret_groups (Pattern rl)) && all_ordered r (secret_groups (Pattern rl)).

Lemma DefaultRules_ok : forallb rule_ok DefaultRules = true.
Proof. vm_compute. reflexivity. Qed.

(** Captures in order between two offsets. *)
Fixpoint chain (lo hi : nat) (l : list (nat * nat)) : Prop :=
  match l with
  | [] => (lo <= hi)%nat
  | x :: l => (lo <= x.1)%nat ∧ (x.1 < x.2)%nat ∧ chain x.2 hi l
  end.

Lemma chain_bounds lo hi l : chain lo hi l → (lo <= hi)%nat.
Proof.
  revert lo. induction l as [|x l IH]; intros lo; cbn; [done|]. intros (?&?&H%IH). lia.
Qed.

Lemma secret_caps_chain r s f gs lo hi :
  found_in r s f → all_ordered (body r) gs = true → forallb (λ i, solid i (body r)) gs = true →
  (lo <= hi)%nat → (upto f <= hi)%nat →
  (∀ i a b, i ∈ gs → cap_get i (groups f) = Some (a, b) → (lo <= a)%nat) →
  chain lo hi (omap (λ i, cap_get i (groups f)) gs).
Proof.
  intros Hf Ho Hs Hlh Hu. revert lo Hlh. induction gs as [|i gs IH]; intros lo Hlh Hlo; [done|].
  cbn in Ho, Hs. apply andb_prop in Ho as [Ho1 Ho2], Hs as [Hs1 Hs2]. cbn.
  destruct (cap_get i (groups f)) as [[a e]|] eqn:Ec.
  - apply found_caps with (i := i) (a := a) (b := e) in Hf as Hb; [|done].
    assert (Hlt : (a < e)%nat).
    { destruct Hf as (p & q & _ & _ & _ & _ & Hm). apply matches_solid with (i := i) in Hm; [|done..].
      rewrite Forall_forall in Hm. apply cap_get_in in Ec. exact (Hm _ Ec eq_refl). }
    split_and!; cbn; [by eapply Hlo; [left|]|done|]. apply IH; [done..|lia|].
    intros j x y Hj Hc. destruct Hf as (p & q & _ & _ & _ & _ & Hm).
    apply cap_get_in in Ec, Hc. assert (Ho : ordered i j (body r) = true).
    { rewrite forallb_elem in Ho1. by apply Ho1. }
    eapply (matches_ordered i j _ _ _ _ _ (groups f) (a, e) (x, y)) in Hm; [done..|by rewrite app_nil_r|done|done].
  - apply IH; [done..|]. intros j x y Hj. apply Hlo. by right.
Qed.

Lemma rule_ok_match rl line f :
  rule_ok rl = true → found_in (Pattern rl) line f →
  chain (from f) (upto f) (secret_caps (Pattern rl) f) ∧ secret_caps (Pattern rl) f ≠ [].
Proof.
  unfold rule_ok. intros Hok Hf. breflect. split.
  - assert (Hfu : (from f <= upto f)%nat).
    { destruct Hf as (p & q & _ & _ & <- & <- & Hm). by apply matches_adv in Hm as [? _]. }
    eapply secret_caps_chain; eauto. intros i a e _ Hc. by eapply found_caps in Hf as [? _].
  - match goal with H : existsb _ _ = true |- _ => apply existsb_elem in H as (i & Hi & Ha) end.
    match goal with H : forallb _ _ = true |- _ => rewrite forallb_elem in H; specialize (H i Hi) as Hso end.
    destruct (found_solid _ _ _ _ Hso Ha Hf) as (a & e & Hc & _). intros Hn.
    assert ((a, e) ∈ secret_caps (Pattern rl) f) as Hin.
    { apply list_elem_of_omap. by exists i. }
    rewrite Hn in Hin. by apply not_elem_of_nil in Hin.
Qed.

(** ** The loop of applyRule *)

(** One secret group that captured [x]. *)
Definition cap_step (r : Redactor) (line : string) (y : loop * bool) (x : nat * nat) : loop * bool :=
  if (x.1 <? last y.1)%nat || (x.1 =? x.2)%nat then y
  else
    let secret := substr line x.1 x.2 in
    if has_prefix secret TokenPrefix then (y.1, true)
    else (Loop (b y.1 ++ substr line (last y.1) x.1 ++ Token r secret) x.2 (replaced y.1 + 1), true).

(** The loop's variables after replacing the texts at [cuts]. *)
Definition replace_one (r : Redactor) (line : string) (l : loop) (x : nat * nat) : loop :=
  Loop (b l ++ substr line (last l) x.1 ++ Token r (substr line x.1 x.2)) x.2 (replaced l + 1).
Definition replace_cuts (r : Redactor) (line : string) (l : loop) (cuts : list (nat * nat)) : loop :=
  fold_left (replace_one r line) cuts l.

Lemma group_fold r line p m x :
  fold_left (group_step r line m) (numbered p) x = fold_left (cap_step r line) (secret_caps p m) x.
Proof.
  unfold secret_caps, secret_groups. revert x. induction (numbered p) as [|g gs IH]; intros x; [done|].
  cbn [fold_left omap list_omap]. unfold group_step at 2. destruct (has_prefix g.2 "s"); cbn [negb]; [|apply IH].
  cbn [omap list_omap]. destruct (cap_get g.1 (groups m)) as [[s e]|]; apply IH.
Qed.

Lemma filter_fresh_cons line x l :
  filter (fresh line) (x :: l) =
    if has_prefix (substr line x.1 x.2) TokenPrefix then filter (fresh line) l
    else x :: filter (fresh line) l.
Proof.
  rewrite filter_cons. destruct (decide (fresh line x)) as [H|H]; unfold fresh in H.
  - by rewrite H.
  - by destruct (has_prefix _ _).
Qed.

Lemma cap_fold r line caps l hit hi :
  chain (last l) hi caps →
  fold_left (cap_step r line) caps (l, hit) =
    (replace_cuts r line l (filter (fresh line) caps), hit || negb (bool_decide (caps = []))) ∧
  (last (replace_cuts r line l (filter (fresh line) caps)) <= hi)%nat.
Proof.
  intros Hc. assert (Hlo : ∃ lo, chain lo hi caps ∧ (last l <= lo)%nat) by eauto. clear Hc.
  revert l hit Hlo. induction caps as [|x caps IH]; intros l hit (lo & Hc & Hl); cbn [chain] in Hc.
  { cbn. rewrite orb_false_r. split; [done|lia]. }
  destruct Hc as (H1 & H2 & Hc). cbn [fold_left]. unfold cap_step at 2. cbn [fst snd].
  destruct (Nat.ltb_spec x.1 (last l)); [lia|]. destruct (Nat.eqb_spec x.1 x.2); [lia|]. cbn [orb].
  rewrite (bool_decide_eq_false_2 (x :: caps = [])) by done. cbn [negb]. rewrite orb_true_r.
  rewrite filter_fresh_cons. destruct (has_prefix (substr line x.1 x.2) TokenPrefix).
  - destruct (IH l true) as [E ?]; [exists x.2; split; [done|lia]|]. by rewrite E.
  - destruct (IH (replace_one r line l x) true) as [E ?]; [by exists x.2|].
    unfold replace_one at 1 in E. by rewrite E.
Qed.

Lemma match_fold r rl line fs l n lo :
  rule_ok rl = true → Forall (found_in (Pattern rl) line) fs → in_order lo fs → (last l <= lo)%nat →
  fold_left (match_step r rl line) fs (l, n) =
    (replace_cuts r line l (filter (fresh line) (flat_map (secret_caps (Pattern rl)) fs)),
     n + Z.of_nat (List.length fs)).
Proof.
  intros Hok HF. revert l n lo. induction HF as [|f fs Hf HF IH]; intros l n lo Ho Hl.
  { cbn. f_equal. lia. }
  destruct (rule_ok_match _ _ _ Hok Hf) as [Hc Hne]. cbn [in_order] in Ho. destruct Ho as (H1 & H2 & Ho).
  cbn [fold_left flat_map]. unfold match_step at 2. cbn [fst snd].
  rewrite group_fold.
  assert (Hc' : chain (last l) (upto f) (secret_caps (Pattern rl) f)).
  { destruct (secret_caps (Pattern rl) f) as [|x c]; [done|]. destruct Hc as (?&?&?). split_and!; [lia|done..]. }
  destruct (cap_fold r line _ l false _ Hc') as [E Hlast]. rewrite E.
  rewrite bool_decide_eq_false_2 by done. cbn [negb orb].
  rewrite (IH _ _ (upto f)) by done. rewrite filter_app. unfold replace_cuts. rewrite <- fold_left_app.
  f_equal. cbn [List.length]. lia.
Qed.

Lemma replace_cuts_shown r line l cuts :
  (b (replace_cuts r line l cuts) ++ s_drop (last (replace_cuts r line l cuts)) line)%string =
    (b l ++ shown r (pieces line (last l) cuts))%string ∧
  replaced (replace_cuts r line l cuts) = replaced l + Z.of_nat (List.length cuts).
Proof.
  revert l. induction cuts as [|[x y] cuts IH]; intros l.
  - unfold shown. cbn. rewrite app_nil_r_str. split; [done|lia].
  - destruct (IH (replace_one r line l (x, y))) as [E1 E2].
    cbn [replace_cuts fold_left]. unfold replace_cuts in E1, E2. rewrite E1, E2. cbn [replace_one b last replaced fst snd].
    unfold shown. cbn [pieces map concat_str foldr]. fold (concat_str (map (λ p, match p with Kept s => s | Secret s => Token r s end) (pieces line y cuts))).
    rewrite !app_assoc_str. split; [done|]. cbn [List.length]. lia.
Qed.

(** The rule applied to a line: the fresh secrets of all its matches are
    replaced, and the rule has matched exactly when its pattern does. *)
Definition cuts_of (rl : Rule) (line : string) : list (nat * nat) :=
  filter (fresh line) (secrets (Pattern rl) line).

Lemma applyRule_exact r rl line :
  rule_ok rl = true →
  applyRule r rl line =
    (shown r (pieces line 0 (cuts_of rl line)), Z.of_nat (List.length (find_all (Pattern rl) line)),
     Z.of_nat (List.length (cuts_of rl line))).
Proof.
  intros Hok. unfold applyRule.
  rewrite (match_fold _ _ _ _ _ _ 0 Hok) by (first [apply find_all_in|apply find_all_order|done]).
  destruct (replace_cuts_shown r line (Loop "" 0 0) (cuts_of rl line)) as [E1 E2].
  change (filter (fresh line) (flat_map (secret_caps (Pattern rl)) (find_all (Pattern rl) line))) with (cuts_of rl line).
  cbn [b last replaced] in E1, E2. rewrite !Z.add_0_l in *. rewrite E2.
  destruct (Z.eqb_spec (Z.of_nat (List.length (cuts_of rl line))) 0) as [E|E].
  - destruct (cuts_of rl line) as [|x l]; [|cbn in E; lia].
    unfold shown. cbn. by rewrite app_nil_r_str.
  - by rewrite E1.
Qed.

(** ** Which rule claims a line *)

Definition claims (rules : list Rule) (line : string) (o : option Rule) : Prop :=
  match o with
  | None => ∀ rl, rl ∈ rules → ¬ matches_in (Pattern rl) line
  | Some rl => ∃ l1 l2, rules = l1 ++ rl :: l2 ∧ matches_in (Pattern rl) line ∧
      ∀ rl', rl' ∈ l1 → ¬ matches_in (Pattern rl') line
  end.

(** Only one rule can claim a line. *)
Lemma claims_unique rules line rl rl' :
  claims rules line (Some rl) → claims rules line (Some rl') → rl = rl'.
Proof.
  intros (l1 & l2 & E1 & Hm & Hl) (k1 & k2 & E2 & Hm' & Hl'). rewrite E1 in E2. clear E1.
  revert k1 E2 Hl'. induction l1 as [|y l1 IH]; intros [|z k1] E2 Hl'; injection E2 as E1 E2; [done| | |].
  - exfalso. apply (Hl' z); [by left|]. by rewrite <- E1.
  - exfalso. apply (Hl y); [by left|]. by rewrite E1.
  - eapply (IH (λ r Hr, Hl r (list_elem_of_further _ _ _ Hr)) k1); [done|]. intros ??. apply Hl'. by right.
Qed.

(** What a line is cut into when the rule [o] claims it. *)
Definition line_pieces (line : string) (o : option Rule) : list piece :=
  pieces line 0 (from_option (λ rl, cuts_of rl line) [] o).

Definition count_secrets (ps : list piece) : Z :=
  Z.of_nat (List.length (omap (λ p, match p with Secret s => Some s | Kept _ => None end) ps)).

Lemma count_pieces line lo cuts : count_secrets (pieces line lo cuts) = Z.of_nat (List.length cuts).
Proof.
  unfold count_secrets. revert lo. induction cuts as [|[x y] cuts IH]; intros lo; [done|]. cbn [pieces omap list_omap List.length].
  rewrite !Nat2Z.inj_succ, IH. done.
Qed.

Lemma rule_ok_proper rl : rule_ok rl = true → proper (body (Pattern rl)) = true.
Proof. unfold rule_ok. intros. by breflect. Qed.

Lemma redact_line_exact r rules line :
  forallb rule_ok rules = true →
  ∃ o, claims rules line o ∧
    redact_line r rules line =
      (shown r (line_pieces line o), (λ rl, (ID rl, count_secrets (line_pieces line o))) <$> o).
Proof.
  induction rules as [|rl rules IH]; intros Hok.
  { exists None. split; [intros rl ?%not_elem_of_nil; done|]. unfold shown. cbn. by rewrite app_nil_r_str. }
  cbn in Hok. apply andb_prop in Hok as [H1 H2]. cbn [redact_line]. rewrite applyRule_exact by done.
  apply rule_ok_proper in H1 as Hp. apply (MatchString_spec _ line) in Hp as Hm.
  destruct (Z.eqb_spec (Z.of_nat (List.length (find_all (Pattern rl) line))) 0) as [E|E].
  - assert (Hn : ¬ matches_in (Pattern rl) line).
    { rewrite <- Hm. destruct (find_all (Pattern rl) line) eqn:Ef; [|cbn in E; lia].
      apply find_all_nil in Ef. by rewrite Ef. }
    destruct (IH H2) as (o & Hc & ->). exists o. split; [|done]. destruct o as [rl'|].
    + destruct Hc as (l1 & l2 & -> & ? & Hl). exists (rl :: l1), l2. split_and!; [done..|].
      intros r' [->|?]%elem_of_cons; auto.
    + intros r' [->|?]%elem_of_cons; [done|]. by apply Hc.
  - exists (Some rl). split.
    + exists [], rules. split_and!; [done| |by intros ? ?%not_elem_of_nil].
      apply Hm. destruct (MatchString (Pattern rl) line) eqn:Es; [done|].
      apply find_all_nil in Es. by rewrite Es in E.
    + unfold line_pieces. cbn [from_option fmap option_fmap option_map]. by rewrite count_pieces.
Qed.

(** The pieces are the line, and the secrets among them its fresh secrets. *)
Lemma substr_split line lo x : (lo <= x)%nat → (s_take lo line ++ substr line lo x)%string = s_take x line.
Proof.
  intros Hl. unfold substr. revert lo x Hl. induction line as [|c line IH]; intros lo x Hl.
  { destruct lo, x; cbn; try done. by destruct (x - lo)%nat. }
  destruct lo as [|lo]; [cbn; by rewrite Nat.sub_0_r|]. destruct x as [|x]; [lia|]. cbn. f_equal. apply IH. lia.
Qed.

Lemma pieces_text line lo hi cuts :
  chain lo hi cuts → (s_take lo line ++ text_of (pieces line lo cuts))%string = line.
Proof.
  unfold text_of. revert lo. induction cuts as [|[x y] cuts IH]; intros lo Hc.
  { cbn. rewrite app_nil_r_str. apply take_drop_str. }
  destruct Hc as (H1 & H2 & Hc). cbn [fst snd] in *. cbn [pieces map concat_str foldr].
  rewrite !app_assoc_str, substr_split by done. rewrite substr_split by lia. by apply IH.
Qed.

Lemma chain_filter (P : nat * nat → Prop) `{∀ x, Decision (P x)} lo hi l : chain lo hi l → chain lo hi (filter P l).
Proof.
  revert lo. induction l as [|x l IH]; intros lo Hc; [done|]. destruct Hc as (H1 & H2 & Hc). rewrite filter_cons.
  destruct (decide (P x)); [split_and!; auto|]. apply IH in Hc.
  destruct (filter P l) as [|y l']; cbn in *; [lia|]. destruct Hc as (?&?&?). split_and!; [lia|done..].
Qed.

Lemma chain_app lo mid hi l1 l2 : chain lo mid l1 → chain mid hi l2 → chain lo hi (l1 ++ l2).
Proof.
  revert lo. induction l1 as [|x l1 IH]; intros lo H1 H2; cbn in *.
  - destruct l2; cbn in *; [lia|]. destruct H2 as (?&?&?). split_and!; [lia|done..].
  - destruct H1 as (?&?&?). auto.
Qed.

Lemma secrets_chain rl line lo fs :
  rule_ok rl = true → Forall (found_in (Pattern rl) line) fs → in_order lo fs →
  ∃ hi, chain lo hi (flat_map (secret_caps (Pattern rl)) fs).
Proof.
  intros Hok HF. revert lo. induction HF as [|f fs Hf HF IH]; intros lo Ho; [exists lo; cbn; lia|].
  destruct Ho as (H1 & H2 & Ho). destruct (IH _ Ho) as [hi Hc]. exists hi. cbn. eapply chain_app; [|exact Hc].
  destruct (rule_ok_match _ _ _ Hok Hf) as [Hc' _].
  destruct (secret_caps _ f) as [|x l]; cbn in *; [lia|]. destruct Hc' as (?&?&?). split_and!; [lia|done..].
Qed.

Lemma line_pieces_text rules line o :
  forallb rule_ok rules = true → claims rules line o → text_of (line_pieces line o) = line.
Proof.
  intros Hok Hc. destruct o as [rl|]; cbn.
  - destruct Hc as (l1 & l2 & -> & _). rewrite forallb_elem in Hok.
    assert (Hr : rule_ok rl = true) by (apply Hok, elem_of_app; right; by left).
    destruct (secrets_chain _ line 0 (find_all (Pattern rl) line) Hr) as [hi Hch]; [apply find_all_in|apply find_all_order|].
    by eapply (pieces_text _ 0), chain_filter.
  - unfold text_of. cbn. by rewrite app_nil_r_str.
Qed.

(** ** Tokens and counts *)

Lemma hex_encode_printable s : printable (hex_encode s) = true.
Proof. induction s as [|c s IH]; [done|]. cbn [hex_encode]. by rewrite printable_app, hex_n_printable, IH. Qed.

Lemma printable_no_newline s : printable s = true → contains_b newline s = false.
Proof.
  unfold printable. induction s as [|c s IH]; [done|]. cbn [contains_b s_all]. intros [Hc Hs]%andb_prop.
  destruct (Ascii.eqb newline c) eqn:E; [|by apply IH]. apply Ascii.eqb_eq in E. by subst.
Qed.

Lemma Token_line r s : contains_b newline (Token r s) = false.
Proof.
  apply printable_no_newline. unfold Token. rewrite !printable_app.
  replace (printable (s_take 12 (hex_encode (hmac_sha256 (Key r) s)))) with true; [done|].
  symmetry. apply s_all_take, hex_encode_printable.
Qed.

Lemma shown_line r ps : contains_b newline (text_of ps) = false → contains_b newline (shown r ps) = false.
Proof.
  unfold text_of, shown. induction ps as [|p ps IH]; [done|]. cbn [map concat_str foldr].
  rewrite !contains_b_app. intros [Hp Hps]%orb_false_elim. apply IH in Hps.
  unfold concat_str in Hps. rewrite Hps. destruct p; [by rewrite Hp|by rewrite Token_line].
Qed.

(** How many secrets the lines claimed by rules called [id] had. *)
Fixpoint replaced_by (id : string) (lines : list string) (os : list (option Rule)) : Z :=
  match lines, os with
  | line :: lines, o :: os =>
      match o with
      | Some rl => if String.eqb (ID rl) id then count_secrets (line_pieces line o) else 0
      | None => 0
      end + replaced_by id lines os
  | _, _ => 0
  end.

Definition hits_of (rules : list Rule) (n : string → Z) : list Hit :=
  flat_map (λ rl, if 0 <? n (ID rl) then [MkHit (ID rl) (n (ID rl))] else []) rules.

Lemma add_count_lookup id counts c :
  default 0 (add_count counts c !! id) =
    default 0 (counts !! id) + match c with Some (i, n) => if String.eqb i id then n else 0 | None => 0 end.
Proof.
  destruct c as [[i n]|]; cbn; [|lia]. destruct (String.eqb_spec i id) as [->|Hne].
  - by rewrite lookup_insert_eq.
  - rewrite lookup_insert_ne by done. lia.
Qed.

Lemma counts_lookup id r lines os counts :
  Forall2 (λ line o, redact_line r DefaultRules line =
    (shown r (line_pieces line o), (λ rl, (ID rl, count_secrets (line_pieces line o))) <$> o)) lines os →
  default 0 (fold_left add_count (map snd (map (redact_line r DefaultRules) lines)) counts !! id) =
    default 0 (counts !! id) + replaced_by id lines os.
Proof.
  intros HF. revert counts. induction HF as [|line o lines os Hl HF IH]; intros counts; cbn [map fold_left replaced_by]; [lia|].
  rewrite IH, add_count_lookup, Hl. destruct o as [rl|]; cbn; lia.
Qed.

(** ** The whole text *)

Lemma redact_lines r lines :
  ∃ os, Forall2 (claims DefaultRules) lines os ∧
    Forall2 (λ line o, redact_line r DefaultRules line =
      (shown r (line_pieces line o), (λ rl, (ID rl, count_secrets (line_pieces line o))) <$> o)) lines os.
Proof.
  induction lines as [|line lines (os & H1 & H2)]; [by exists []|].
  destruct (redact_line_exact r DefaultRules line DefaultRules_ok) as (o & Hc & E).
  exists (o :: os). by split; constructor.
Qed.

(** C29: Redact keeps the line structure of a text and, line by line, everything
    but the secrets: each line is claimed by the first default rule whose
    pattern matches anywhere in it, in the patterns' declarative reading, or by
    none when none matches; the line written is the line read with the secrets
    of the claiming rule replaced by their tokens and nothing else changed; and
    the hits are, in rule order, how many secrets each rule's lines had. *)
Theorem Redact_exact key text :
  let r := New key in
  let lines := split_b newline text in
  ∃ os,
    Forall2 (claims DefaultRules) lines os ∧
    Forall2 (λ line o, text_of (line_pieces line o) = line) lines os ∧
    split_b newline (Redact r text).1 = zip_with (λ line o, shown r (line_pieces line o)) lines os ∧
    (Redact r text).2 = hits_of DefaultRules (λ id, replaced_by id lines os).
Proof.
  intros r lines. destruct (redact_lines r lines) as (os & Hc & Hl). exists os.
  assert (Ht : Forall2 (λ line o, text_of (line_pieces line o) = line) lines os).
  { eapply Forall2_impl; [exact Hc|]. intros line o. apply line_pieces_text, DefaultRules_ok. }
  assert (Hm : map fst (map (redact_line r DefaultRules) lines) = zip_with (λ line o, shown r (line_pieces line o)) lines os).
  { clear -Hl. induction Hl as [|line o ls os' E Hl IH]; [done|]. cbn [map zip_with]. by rewrite E, IH. }
  split_and!; [done..| |].
  - unfold Redact. cbn [fst]. fold lines. change (default DefaultRules (Rules r)) with DefaultRules. rewrite Hm. apply split_join.
    + destruct (split_b_cons newline text) as (w & ws & E). fold lines in E. rewrite E in Hc |- *.
      by inversion Hc.
    + intros x. assert (Hn : ∀ line, line ∈ lines → contains_b newline line = false) by (intros line; apply split_b_nosep).
      clear -Ht Hn. induction Ht as [|line o ls os' E Ht IH]; [by intros ?%not_elem_of_nil|].
      cbn [zip_with]. intros [->|?]%elem_of_cons; [|apply IH; [|done]; intros l ?; apply Hn; by right].
      apply shown_line. rewrite E. apply Hn. by left.
  - unfold Redact. cbn [snd]. fold lines. change (default DefaultRules (Rules r)) with DefaultRules. unfold hits_of.
    apply flat_map_ext. intros rl. pose proof (counts_lookup (ID rl) r lines os ∅ Hl) as E.
    rewrite lookup_empty in E. cbn [default] in E. rewrite Z.add_0_l in E.
    destruct (fold_left _ _ ∅ !! ID rl) as [n|]; cbn in E; rewrite <- E; done.
Qed.

(** A cut of a line is one of its secret pieces, at its place. *)
Lemma pieces_at line lo hi cuts x :
  chain lo hi cuts → x ∈ cuts →
  ∃ l1 l2, pieces line lo cuts = l1 ++ Secret (substr line x.1 x.2) :: l2 ∧
    (s_take lo line ++ text_of l1)%string = s_take x.1 line.
Proof.
  revert lo. induction cuts as [|[a e] cuts IH]; intros lo Hc Hx; [by apply not_elem_of_nil in Hx|].
  destruct Hc as (H1 & H2 & Hc). cbn [fst snd] in *. apply elem_of_cons in Hx as [->|Hx].
  - exists [Kept (substr line lo a)], (pieces line e cuts). split; [done|].
    unfold text_of. cbn. by rewrite app_nil_r_str, substr_split.
  - destruct (IH _ Hc Hx) as (l1 & l2 & E & Ht). cbn [pieces]. rewrite E.
    exists (Kept (substr line lo a) :: Secret (substr line a e) :: l1), l2. split; [done|].
    unfold text_of in *. cbn [map concat_str foldr]. unfold concat_str in Ht.
    rewrite !app_assoc_str, substr_split by done. rewrite substr_split by lia. exact Ht.
Qed.

Lemma text_of_app l1 l2 : text_of (l1 ++ l2) = (text_of l1 ++ text_of l2)%string.
Proof. unfold text_of. by rewrite map_app, concat_str_app. Qed.

Lemma shown_app r l1 l2 : shown r (l1 ++ l2) = (shown r l1 ++ shown r l2)%string.
Proof. unfold shown. by rewrite map_app, concat_str_app. Qed.

(** Whatever a secret group of the claiming rule captured, in any of the
    rule's matches in a line, is replaced where it stands by its keyed token,
    unless it is a token already: no match and no second secret of a match is
    skipped. *)
Theorem Redact_replaces key line rl f i name x :
  claims DefaultRules line (Some rl) →
  f ∈ find_all (Pattern rl) line → (i, name) ∈ numbered (Pattern rl) → has_prefix name "s" = true →
  cap_get i (groups f) = Some x →
  let r := New key in
  let secret := substr line x.1 x.2 in
  has_prefix secret TokenPrefix = true ∨
  ∃ l1 l2, text_of l1 = s_take x.1 line ∧ line = (text_of l1 ++ secret ++ text_of l2)%string ∧
    (redact_line r DefaultRules line).1 = (shown r l1 ++ Token r secret ++ shown r l2)%string.
Proof.
  intros Hc Hf Hi Hn Hg r secret. destruct (has_prefix secret TokenPrefix) eqn:Ef; [by left|right].
  destruct (redact_line_exact r DefaultRules line DefaultRules_ok) as (o & Ho & ->).
  assert (Ho' : o = Some rl).
  { destruct o as [rl'|]; [f_equal; by eapply claims_unique|].
    destruct Hc as (l1 & l2 & Hd & Hm & _). exfalso. apply (Ho rl); [|done]. rewrite Hd. apply elem_of_app. right. by left. }
  subst o. pose proof (line_pieces_text _ line (Some rl) DefaultRules_ok Hc) as Ht.
  assert (Hr : rule_ok rl = true).
  { destruct Hc as (l1 & l2 & Hd & _). pose proof DefaultRules_ok as Hok. rewrite Hd, forallb_elem in Hok.
    apply Hok, elem_of_app. right. by left. }
  destruct (secrets_chain _ line 0 (find_all (Pattern rl) line) Hr) as [hi Hch]; [apply find_all_in|apply find_all_order|].
  assert (Hx : x ∈ cuts_of rl line).
  { apply list_elem_of_filter. split; [exact Ef|]. apply in_flat_map'. exists f. split; [done|].
    apply list_elem_of_omap. exists i. split; [|done]. apply list_elem_of_omap. exists (i, name).
    split; [done|]. cbn. by rewrite Hn. }
  destruct (pieces_at line 0 hi (cuts_of rl line) x) as (l1 & l2 & E & Et); [by apply chain_filter|done|].
  exists l1, l2. cbn in Et. split; [done|]. unfold line_pieces in *. cbn [from_option] in *. rewrite E in Ht |- *.
  rewrite text_of_app in Ht. rewrite shown_app. split; [|done]. rewrite <- Ht at 1. done.
Qed.

(** ** Worked cases *)

Definition ex_key : string := "fathomgate-test-key".
Definition ex_text : string := join (String newline "")
  ["snmp-server community a RO"; "snmp-server community b RW"; "enable secret 9 $9$zzz"; "nothing here"; ""].

(** TestRedactIdempotentAndCounts. *)
Example ex_redact_counts :
  let (out, hits) := Redact (New ex_key) ex_text in
  hits = [MkHit "cisco-snmp-community" 2; MkHit "cisco-password-type" 1] ∧ Count hits = 3 ∧
  Redact (New ex_key) out = (out, []).
Proof. vm_compute. done. Qed.

(** The comment of Redact calls it idempotent.  It is not when the claiming
    rule's pattern does not match its own token: the hash is replaced, which
    leaves the plain secret of the line to the keyword rule of a second pass. *)
Definition ex_twice : string := "set secret hunter2 $9$abcDEF".

Example ex_not_idempotent :
  let (once, hits) := Redact (New ex_key) ex_twice in
  contains once "hunter2" = true ∧ map RuleID hits = ["junos-9-hash"] ∧
  let (twice, hits) := Redact (New ex_key) once in
  contains twice "hunter2" = false ∧ map RuleID hits = ["generic-keyword"].
Proof. vm_compute. done. Qed.

Definition ex_line : string := "  Radius-Server host 10.0.0.1 key 7 abc123".
Definition ex_rule : Rule := default (MkRule "" "" (Regexp RNever [])) (DefaultRules !! 4%nat).
Definition ex_found : found := default (Found 0 0 []) (head (find_all (Pattern ex_rule) ex_line)).

Lemma ex_claims : claims DefaultRules ex_line (Some ex_rule).
Proof.
  assert (E : ∃ o, claims DefaultRules ex_line o ∧ ID <$> o = Some "cisco-aaa-server-key").
  { destruct (redact_line_exact (New ex_key) DefaultRules ex_line DefaultRules_ok) as (o & Hc & E). exists o.
    split; [done|]. assert (Hs : fst <$> (redact_line (New ex_key) DefaultRules ex_line).2 = Some "cisco-aaa-server-key").
    { vm_compute. reflexivity. }
    rewrite E in Hs. by destruct o. }
  destruct E as (o & Hc & Ho). destruct o as [rl|]; [|done]. injection Ho as Hid.
  assert (Hrl : rl ∈ DefaultRules). { destruct Hc as (l1 & l2 & -> & _). apply elem_of_app. right. by left. }
  replace ex_rule with rl; [done|].
  assert (Hu : Forall (λ r, ID r = "cisco-aaa-server-key" → r = ex_rule) DefaultRules).
  { repeat constructor; vm_compute; done. }
  rewrite Forall_forall in Hu. by apply Hu.
Qed.

Lemma Redact_replaces_witness :
  ∃ l1 l2, text_of l1 = s_take 36 ex_line ∧ ex_line = (text_of l1 ++ "abc123" ++ text_of l2)%string ∧
    (redact_line (New ex_key) DefaultRules ex_line).1 =
      (shown (New ex_key) l1 ++ Token (New ex_key) "abc123" ++ shown (New ex_key) l2)%string.
Proof.
  destruct (Redact_replaces ex_key ex_line ex_rule ex_found 1 "s" (36%nat, 42%nat) ex_claims) as [H|H].
  - apply (list_elem_of_lookup_2 _ 0). vm_compute. reflexivity.
  - apply (list_elem_of_lookup_2 _ 0). vm_compute. reflexivity.
  - vm_compute. reflexivity.
  - vm_compute. reflexivity.
  - discriminate H.
  - exact H.
Defined.
