(* ===== verification/Json.v ===== *)
(** * encoding/json, as the source uses it

    Decoded values ([any]), a scanner and decoder for JSON text, and the
    encoder with sorted keys and no HTML escaping.  The scanner is a state
    machine over the bytes and the decoder a pushdown machine over the tokens,
    so both are structurally recursive and need no fuel.  A number keeps its
    literal text; whether a literal is in the range of a float64 is the one
    test left to a parameter. *)

From S2P Require Import Prelude GoStd.

Open Scope string_scope.
Open Scope Z_scope.
Open Scope list_scope.

(** A Go value of type [any]: what encoding/json decodes to, plus the
    [[]string] a Go caller may pass.  An object is its entries in key order,
    the canonical form of a Go map. *)
Inductive any :=
  | ANil
  | ABool (b : bool)
  | ANum (lit : string)
  | AStr (s : string)
  | AStrs (l : list string)
  | AArr (l : list any)
  | AObj (l : list (string * any)).

Section any_ind.
Variable P : any → Prop.
Hypothesis Hnil : P ANil.
Hypothesis Hbool : ∀ b, P (ABool b).
Hypothesis Hnum : ∀ n, P (ANum n).
Hypothesis Hstr : ∀ s, P (AStr s).
Hypothesis Hstrs : ∀ l, P (AStrs l).
Hypothesis Harr : ∀ l, Forall P l → P (AArr l).
Hypothesis Hobj : ∀ l, Forall (λ kv, P (snd kv)) l → P (AObj l).

(** Induction through the nested lists. *)
Fixpoint any_nested_ind (v : any) : P v :=
  match v with
  | ANil => Hnil
  | ABool b => Hbool b
  | ANum n => Hnum n
  | AStr s => Hstr s
  | AStrs l => Hstrs l
  | AArr l => Harr l ((fix go l : Forall P l := match l with
      | [] => @List.Forall_nil _ P
      | x :: l => @List.Forall_cons _ P x l (any_nested_ind x) (go l) end) l)
  | AObj l => Hobj l ((fix go l : Forall (λ kv, P (snd kv)) l := match l with
      | [] => @List.Forall_nil _ _
      | x :: l => @List.Forall_cons _ _ x l (any_nested_ind (snd x)) (go l) end) l)
  end.
End any_ind.

(** ** The scanner *)

Inductive token :=
  | TLBrace | TRBrace | TLBrack | TRBrack | TColon | TComma
  | TStr (s : string) | TNum (lit : string) | TBool (b : bool) | TNull
  | TBad.     (* the text is not JSON from here on *)

(** One unit of a string literal: a byte kept as it is, or a \u escape. *)
Inductive sunit := UByte (c : ascii) | UEsc (u : Z).

Inductive numst := NNeg | N0 | N1 | NDot | NDot0 | NE | NESign | NE0.

Inductive lexst :=
  | LStart
  | LStr (acc : list sunit)
  | LEsc (acc : list sunit)
  | LEscU (acc : list sunit) (digits : nat) (v : Z)
  | LNum (st : numst) (acc : string)
  | LLit (todo : string) (tok : token).

Definition json_space (c : ascii) : bool :=
  let b := bz c in (b =? 32) || (b =? 9) || (b =? 13) || (b =? 10).

Definition hex_value (c : ascii) : option Z :=
  let b := bz c in
  if in_range 48 57 b then Some (b - 48)
  else if in_range 97 102 b then Some (b - 87)
  else if in_range 65 70 b then Some (b - 55)
  else None.

Definition num_step (st : numst) (c : ascii) : option numst :=
  let d := is_digit_b c in
  let e := Ascii.eqb c "e" || Ascii.eqb c "E" in
  match st with
  | NNeg => if Ascii.eqb c "0" then Some N0 else if d then Some N1 else None
  | N0 => if Ascii.eqb c "." then Some NDot else if e then Some NE else None
  | N1 => if d then Some N1 else if Ascii.eqb c "." then Some NDot
          else if e then Some NE else None
  | NDot => if d then Some NDot0 else None
  | NDot0 => if d then Some NDot0 else if e then Some NE else None
  | NE => if Ascii.eqb c "+" || Ascii.eqb c "-" then Some NESign
          else if d then Some NE0 else None
  | NESign => if d then Some NE0 else None
  | NE0 => if d then Some NE0 else None
  end.

Definition num_final (st : numst) : bool :=
  match st with N0 | N1 | NDot0 | NE0 => true | _ => false end.

(** The first byte of a token: the tokens it completes and the next state,
    [None] after an error. *)
Definition lex_start (c : ascii) : list token * option lexst :=
  if json_space c then ([], Some LStart)
  else if Ascii.eqb c "{" then ([TLBrace], Some LStart)
  else if Ascii.eqb c "}" then ([TRBrace], Some LStart)
  else if Ascii.eqb c "[" then ([TLBrack], Some LStart)
  else if Ascii.eqb c "]" then ([TRBrack], Some LStart)
  else if Ascii.eqb c ":" then ([TColon], Some LStart)
  else if Ascii.eqb c "," then ([TComma], Some LStart)
  else if Ascii.eqb c dquote then ([], Some (LStr []))
  else if Ascii.eqb c "-" then ([], Some (LNum NNeg (String c EmptyString)))
  else if Ascii.eqb c "0" then ([], Some (LNum N0 (String c EmptyString)))
  else if is_digit_b c then ([], Some (LNum N1 (String c EmptyString)))
  else if Ascii.eqb c "t" then ([], Some (LLit "rue" (TBool true)))
  else if Ascii.eqb c "f" then ([], Some (LLit "alse" (TBool false)))
  else if Ascii.eqb c "n" then ([], Some (LLit "ull" TNull))
  else ([TBad], None).

Definition esc_byte (c : ascii) : option ascii :=
  if Ascii.eqb c "b" then Some (zb 8) else if Ascii.eqb c "f" then Some (zb 12)
  else if Ascii.eqb c "n" then Some (zb 10) else if Ascii.eqb c "r" then Some (zb 13)
  else if Ascii.eqb c "t" then Some (zb 9)
  else if Ascii.eqb c backslash || Ascii.eqb c "/" || Ascii.eqb c dquote then Some c
  else None.

Definition is_surrogate (u : Z) : bool := in_range 55296 57343 u.

(** [utf16.DecodeRune]: [None] when the two units are not a pair. *)
Definition utf16_pair (hi lo : Z) : option Z :=
  if in_range 55296 56319 hi && in_range 56320 57343 lo
  then Some ((hi - 55296) * 1024 + (lo - 56320) + 65536) else None.

(** The bytes of a string literal: a surrogate escape pairs with an escape
    right after it, and is U+FFFD on its own. *)
Fixpoint units_bytes (l : list sunit) : string :=
  match l with
  | [] => EmptyString
  | UByte c :: l => String c (units_bytes l)
  | UEsc u :: l =>
      if is_surrogate u then
        match l with
        | UEsc w :: l' =>
            match utf16_pair u w with
            | Some r => (encode_rune r ++ units_bytes l')%string
            | None => (encode_rune RuneError ++ units_bytes l)%string
            end
        | _ => (encode_rune RuneError ++ units_bytes l)%string
        end
      else (encode_rune u ++ units_bytes l)%string
  end.

(** The decoder coerces what is not UTF-8 to U+FFFD. *)
Definition coerce_utf8 (s : string) : string :=
  concat_str (map (λ p, if bad_rune p then encode_rune RuneError else snd p) (runes s)).

Definition units_string (l : list sunit) : string := coerce_utf8 (units_bytes l).

(** One byte inside a token. *)
Definition lex_step (st : lexst) (c : ascii) : list token * option lexst :=
  match st with
  | LStart => lex_start c
  | LStr acc =>
      if Ascii.eqb c dquote then ([TStr (units_string acc)], Some LStart)
      else if Ascii.eqb c backslash then ([], Some (LEsc acc))
      else if bz c <? 32 then ([TBad], None)
      else ([], Some (LStr (acc ++ [UByte c])))
  | LEsc acc =>
      if Ascii.eqb c "u" then ([], Some (LEscU acc 0 0))
      else match esc_byte c with
           | Some d => ([], Some (LStr (acc ++ [UByte d])))
           | None => ([TBad], None)
           end
  | LEscU acc n v =>
      match hex_value c with
      | Some d =>
          let v := v * 16 + d in
          if (n =? 3)%nat then ([], Some (LStr (acc ++ [UEsc v])))
          else ([], Some (LEscU acc (S n) v))
      | None => ([TBad], None)
      end
  | LNum nst acc =>
      match num_step nst c with
      | Some nst' => ([], Some (LNum nst' (acc ++ String c EmptyString)%string))
      | None =>
          if num_final nst
          then let '(ts, st') := lex_start c in (TNum acc :: ts, st')
          else ([TBad], None)
      end
  | LLit todo tok =>
      match todo with
      | String d EmptyString => if Ascii.eqb c d then ([tok], Some LStart) else ([TBad], None)
      | String d rest => if Ascii.eqb c d then ([], Some (LLit rest tok)) else ([TBad], None)
      | EmptyString => ([TBad], None)
      end
  end.

Definition lex_end (st : lexst) : list token :=
  match st with
  | LStart => []
  | LNum nst acc => if num_final nst then [TNum acc] else [TBad]
  | _ => [TBad]
  end.

Fixpoint lex (st : lexst) (s : string) : list token :=
  match s with
  | EmptyString => lex_end st
  | String c s =>
      let '(ts, st') := lex_step st c in
      ts ++ match st' with Some st' => lex st' s | None => [] end
  end.

Definition tokens (s : string) : list token := lex LStart s.

(** ** The decoder *)

(** An open array, or an open object with the key whose value comes next. *)
Inductive frame := FArr (acc : list any) | FObj (acc : list (string * any)) (key : string).

Inductive mode :=
  | MVal | MValOrEnd          (* a value; or "]" right after "[" *)
  | MKey (acc : list (string * any)) | MKeyOrEnd   (* a key; or "}" right after "{" *)
  | MColon (acc : list (string * any)) (key : string)
  | MNext.                    (* after an element: "," or the end *)

(** [out[key] = v] on a map kept in key order. *)
Fixpoint obj_set (l : list (string * any)) (k : string) (v : any) : list (string * any) :=
  match l with
  | [] => [(k, v)]
  | (k', v') :: l' =>
      if String.eqb k k' then (k, v) :: l'
      else if String.leb k k' then (k, v) :: l
      else (k', v') :: obj_set l' k v
  end.

Definition obj_get (l : list (string * any)) (k : string) : option any :=
  snd <$> List.find (λ kv, String.eqb (fst kv) k) l.

Inductive jres := JOk (v : any) (rest : list token) | JBad | JDup.

Section Decode.
(** Whether a number literal converts; the nesting limit; whether a key
    given twice in the outermost object is refused. *)
Context (num_ok : string → bool) (maxd : nat) (nodup : bool).

Definition dup_key (stk : list frame) (acc : list (string * any)) (k : string) : bool :=
  nodup && (List.length stk =? 0)%nat &&
  match obj_get acc k with Some _ => true | None => false end.

Fixpoint run (ts : list token) (m : mode) (stk : list frame) : jres :=
  match ts with
  | [] => JBad
  | t :: ts =>
      let complete v stk :=
        match stk with
        | [] => JOk v ts
        | FArr acc :: stk => run ts MNext (FArr (acc ++ [v]) :: stk)
        | FObj acc k :: stk => run ts MNext (FObj (obj_set acc k v) k :: stk)
        end in
      let value t :=
        match t with
        | TLBrace => if (maxd <=? List.length stk)%nat then JBad else run ts MKeyOrEnd stk
        | TLBrack => if (maxd <=? List.length stk)%nat then JBad
                     else run ts MValOrEnd (FArr [] :: stk)
        | TStr s => complete (AStr s) stk
        | TNum n => if num_ok n then complete (ANum n) stk else JBad
        | TBool b => complete (ABool b) stk
        | TNull => complete ANil stk
        | _ => JBad
        end in
      match m with
      | MVal => value t
      | MValOrEnd =>
          match t, stk with
          | TRBrack, FArr acc :: stk' => complete (AArr acc) stk'
          | _, _ => value t
          end
      | MKeyOrEnd =>
          match t with
          | TRBrace => complete (AObj []) stk
          | TStr k => if dup_key stk [] k then JDup else run ts (MColon [] k) stk
          | _ => JBad
          end
      | MKey acc =>
          match t with
          | TStr k => if dup_key stk acc k then JDup else run ts (MColon acc k) stk
          | _ => JBad
          end
      | MColon acc k =>
          match t with TColon => run ts MVal (FObj acc k :: stk) | _ => JBad end
      | MNext =>
          match t, stk with
          | TComma, FArr _ :: _ => run ts MVal stk
          | TComma, FObj acc _ :: stk' => run ts (MKey acc) stk'
          | TRBrack, FArr acc :: stk' => complete (AArr acc) stk'
          | TRBrace, FObj acc _ :: stk' => complete (AObj acc) stk'
          | _, _ => JBad
          end
      end
  end.
End Decode.

(** encoding/json's nesting limit. *)
Definition maxNestingDepth : nat := 10000.

(** [json.Unmarshal] into [any]: the whole text is one value. *)
Definition json_decode (num_ok : string → bool) (s : string) : option any :=
  match run num_ok maxNestingDepth false (tokens s) MVal [] with
  | JOk v [] => Some v
  | _ => None
  end.

Definition any_number (_ : string) : bool := true.

(** [json.Valid]. *)
Definition json_valid (s : string) : bool :=
  match json_decode any_number s with Some _ => true | None => false end.

(** ** The encoder: [SetEscapeHTML(false)] *)

Definition esc_u (z : Z) : string := String backslash (String "u" (hex_n 4 z)).

Definition enc_piece (p : Z * string) : string :=
  let r := fst p in
  if bad_rune p then esc_u RuneError
  else if (r =? 34) || (r =? 92) then String backslash (snd p)
  else if r =? 8 then String backslash "b" else if r =? 12 then String backslash "f"
  else if r =? 10 then String backslash "n" else if r =? 13 then String backslash "r"
  else if r =? 9 then String backslash "t"
  else if r <? 32 then esc_u r
  else if (r =? 8232) || (r =? 8233) then esc_u r
  else snd p.

Definition enc_string (s : string) : string :=
  String dquote (concat_str (map enc_piece (runes s)) ++ String dquote EmptyString)%string.

Fixpoint json_encode (v : any) : string :=
  match v with
  | ANil => "null"
  | ABool b => if b then "true" else "false"
  | ANum n => n
  | AStr s => enc_string s
  | AStrs l => ("[" ++ join "," (map enc_string l) ++ "]")%string
  | AArr l => ("[" ++ join "," (map json_encode l) ++ "]")%string
  | AObj l =>
      ("{" ++ join "," (map (λ kv, enc_string (fst kv) ++ ":" ++ json_encode (snd kv)) l)
           ++ "}")%string
  end.

Definition sample : any :=
  AObj [("a", AArr [ANum "1"; ABool true; ANil]); ("b", AStr ("x" ++ String dquote "y"))].
Example ex_roundtrip : json_decode any_number (json_encode sample) = Some sample.
Proof. vm_compute. reflexivity. Qed.
Example ex_bad : map json_valid ["01"; "1."; "[1,]"; "nul"; "{,}"; "1 2"; " [ ] "; "-0.5e+3"] =
  [false; false; false; false; false; false; true; true].
Proof. vm_compute. reflexivity. Qed.

(** ** Well-formed values: what the decoder produces *)

Fixpoint num_run (st : numst) (s : string) : option numst :=
  match s with
  | EmptyString => Some st
  | String c s => match num_step st c with Some st' => num_run st' s | None => None end
  end.

(** [n] is a JSON number literal. *)
Definition num_lit (n : string) : bool :=
  match n with
  | EmptyString => false
  | String c r =>
      match lex_start c with
      | ([], Some (LNum st _)) =>
          match num_run st r with Some st' => num_final st' | None => false end
      | _ => false
      end
  end.

(** Keys in strictly increasing byte order. *)
Definition key_lt (a b : string) : bool := negb (String.leb b a).

Fixpoint keys_sorted (l : list (string * any)) : bool :=
  match l with
  | [] => true
  | (k, _) :: l => forallb (λ kv, key_lt k (fst kv)) l && keys_sorted l
  end.

Fixpoint wf_json (num_ok : string → bool) (v : any) : bool :=
  match v with
  | ANil | ABool _ => true
  | ANum n => num_lit n && num_ok n
  | AStr s => valid_utf8 s
  | AStrs _ => false
  | AArr l => forallb (wf_json num_ok) l
  | AObj l => keys_sorted l &&
              forallb (λ kv, valid_utf8 (fst kv) && wf_json num_ok (snd kv)) l
  end.

Fixpoint depth (v : any) : nat :=
  match v with
  | AArr l => S (foldr (λ x n, Nat.max (depth x) n) 0%nat l)
  | AObj l => S (foldr (λ x n, Nat.max (depth (snd x)) n) 0%nat l)
  | _ => 0
  end.

(** ** Lemmas: scanning what the encoder wrote *)

Definition stops (t : string) : Prop :=
  t = EmptyString ∨ ∃ c u, t = String c u ∧ (c = "," ∨ c = "]" ∨ c = "}")%char.

Lemma lex_num st acc r st' t :
  num_run st r = Some st' → lex (LNum st acc) (r ++ t) = lex (LNum st' (acc ++ r)) t.
Proof.
  revert st acc. induction r as [|c r IH]; intros st acc; simpl.
  { intros [= ->]. by rewrite app_nil_r_str. }
  destruct (num_step st c) as [st1|]; [|done]. intros Hr. simpl.
  rewrite (IH _ _ Hr). by rewrite <- app_assoc_str.
Qed.

Lemma lex_num_end st acc t :
  num_final st = true → stops t → lex (LNum st acc) t = TNum acc :: lex LStart t.
Proof.
  intros Hf [->|(c & u & -> & Hc)]; [by simpl; rewrite Hf|].
  destruct Hc as [-> | [-> | ->] ]; destruct st; done.
Qed.

Lemma lex_num_lit n t : num_lit n = true → stops t → lex LStart (n ++ t) = TNum n :: lex LStart t.
Proof.
  destruct n as [|c r]; [done|]. unfold num_lit.
  destruct (lex_start c) as [[|? ?] [ [ | | | |st acc| ]|]] eqn:E; try done.
  destruct (num_run st r) as [st'|] eqn:Hr; [|done]. intros Hf Ht.
  assert (acc = String c EmptyString) as ->.
  { unfold lex_start in E. by repeat (case_match; simplify_eq). }
  simpl. rewrite E. simpl. rewrite (lex_num _ _ _ _ _ Hr). by apply lex_num_end.
Qed.

(** *** Strings *)

Fixpoint bytes_units (s : string) : list sunit :=
  match s with EmptyString => [] | String c s => UByte c :: bytes_units s end.

Definition piece_units (p : Z * string) : list sunit :=
  let r := fst p in
  if (r =? 34) || (r =? 92) then bytes_units (snd p)
  else if (r =? 8) || (r =? 12) || (r =? 10) || (r =? 13) || (r =? 9) then bytes_units (snd p)
  else if (r <? 32) || (r =? 8232) || (r =? 8233) then [UEsc r]
  else bytes_units (snd p).

Definition raw_byte (c : ascii) : bool :=
  negb (Ascii.eqb c dquote) && negb (Ascii.eqb c backslash) && negb (bz c <? 32).

Lemma lex_raw acc s t :
  s_all raw_byte s = true → lex (LStr acc) (s ++ t) = lex (LStr (acc ++ bytes_units s)) t.
Proof.
  revert acc. induction s as [|c s IH]; intros acc; simpl; [by rewrite app_nil_r|].
  unfold raw_byte at 1. intros Hs. breflect.
  rewrite <- andb_assoc in Hs || idtac.
  repeat match goal with H : (_ && _) = true |- _ => apply andb_prop in H as [? ?] end.
  breflect.
  destruct (Ascii.eqb_spec c dquote); [done|]. destruct (Ascii.eqb_spec c backslash); [done|].
  destruct (Z.ltb_spec (bz c) 32); [lia|]. cbn [app].
  rewrite IH by done. by rewrite <- app_assoc.
Qed.

Lemma raw_high s : s_all (λ c, 128 <=? bz c) s = true → s_all raw_byte s = true.
Proof.
  apply s_all_impl. intros c Hc%Z.leb_le. unfold raw_byte.
  destruct (Ascii.eqb_spec c dquote) as [->|]; [done|].
  destruct (Ascii.eqb_spec c backslash) as [->|]; [done|].
  by destruct (Z.ltb_spec (bz c) 32); [lia|].
Qed.

Lemma hex_digit_value d : 0 <= d < 16 → hex_value (hex_digit d) = Some d.
Proof.
  intros Hd. assert (Hc : d = 0 ∨ d = 1 ∨ d = 2 ∨ d = 3 ∨ d = 4 ∨ d = 5 ∨ d = 6 ∨ d = 7 ∨
    d = 8 ∨ d = 9 ∨ d = 10 ∨ d = 11 ∨ d = 12 ∨ d = 13 ∨ d = 14 ∨ d = 15) by lia.
  repeat destruct Hc as [->|Hc]; [done..|]. by subst.
Qed.

Lemma lex_esc_u acc r t :
  0 <= r < 65536 → lex (LStr acc) (esc_u r ++ t) = lex (LStr (acc ++ [UEsc r])) t.
Proof.
  intros Hr. unfold esc_u. cbn [hex_n String.append lex lex_step].
  change (Ascii.eqb backslash dquote) with false. change (Ascii.eqb backslash backslash) with true.
  cbn [app lex lex_step]. change (Ascii.eqb "u" "u") with true. cbn [app lex lex_step].
  repeat (rewrite hex_digit_value by (apply Z.mod_pos_bound; lia);
          cbn [Nat.eqb app lex lex_step]).
  f_equal. f_equal. f_equal. f_equal.
  change (Z.of_nat 3) with 3. change (Z.of_nat 2) with 2. change (Z.of_nat 1) with 1.
  change (Z.of_nat 0) with 0. change (16 ^ 3) with 4096. change (16 ^ 2) with 256.
  change (16 ^ 1) with 16. change (16 ^ 0) with 1.
  rewrite Z.div_1_r. f_equal.
  replace (r / 4096) with (r / 16 / 16 / 16) by (rewrite !Z.div_div by lia; done).
  replace (r / 256) with (r / 16 / 16) by (rewrite !Z.div_div by lia; done).
  pose proof (Z.div_mod r 16). pose proof (Z.div_mod (r / 16) 16).
  pose proof (Z.div_mod (r / 16 / 16) 16). pose proof (Z.div_mod (r / 16 / 16 / 16) 16).
  assert (r / 16 / 16 / 16 / 16 = 0).
  { rewrite !Z.div_div by lia. by apply Z.div_small. }
  lia.
Qed.

Lemma lex_piece acc p t :
  good_piece p → bad_rune p = false →
  lex (LStr acc) (enc_piece p ++ t) = lex (LStr (acc ++ piece_units p)) t.
Proof.
  intros (_ & Hlow & Hhigh) Hb. unfold enc_piece, piece_units. rewrite Hb.
  destruct p as [r s]. cbn [fst snd] in *.
  destruct (Z.ltb_spec r 128) as [Hr|Hr].
  - destruct (Hlow Hr) as [H0 ->]. clear Hlow Hhigh Hb.
    repeat match goal with
    | |- context [?x =? ?y] => destruct (Z.eqb_spec x y); [by subst|]; cbn [orb]
    end.
    destruct (Z.ltb_spec r 32); cbn [orb].
    + apply lex_esc_u. lia.
    + apply (lex_raw _ (String (zb r) EmptyString)). cbn [s_all]. unfold raw_byte.
      assert (Hz : bz (zb r) = r) by (apply bz_zb; lia).
      destruct (Ascii.eqb_spec (zb r) dquote) as [E|].
      { rewrite E in Hz. change (bz dquote) with 34 in Hz. lia. }
      destruct (Ascii.eqb_spec (zb r) backslash) as [E|].
      { rewrite E in Hz. change (bz backslash) with 92 in Hz. lia. }
      rewrite Hz. by destruct (Z.ltb_spec r 32); [lia|].
  - pose proof (raw_high _ (Hhigh Hr)) as Hraw.
    repeat match goal with
    | |- context [?x =? ?y] => destruct (Z.eqb_spec x y); [try lia; try by subst|]; cbn [orb]
    | |- context [?x <? ?y] => destruct (Z.ltb_spec x y); [lia|]; cbn [orb]
    end; try (apply lex_esc_u; lia). by apply lex_raw.
Qed.

Lemma units_bytes_raw s l : units_bytes (bytes_units s ++ l) = (s ++ units_bytes l)%string.
Proof. induction s as [|c s IH]; simpl; [done|]. by rewrite IH. Qed.

Lemma units_bytes_piece p l :
  good_piece p → units_bytes (piece_units p ++ l) = (snd p ++ units_bytes l)%string.
Proof.
  intros (Henc & _ & _). unfold piece_units. destruct p as [r s]. cbn [fst snd] in *.
  destruct ((r =? 34) || (r =? 92)); [apply units_bytes_raw|].
  destruct ((r =? 8) || (r =? 12) || (r =? 10) || (r =? 13) || (r =? 9)); [apply units_bytes_raw|].
  destruct ((r <? 32) || (r =? 8232) || (r =? 8233)) eqn:E; [|apply units_bytes_raw].
  assert (is_surrogate r = false) as Hs.
  { unfold is_surrogate, in_range. apply andb_false_iff. left. apply Z.leb_gt.
    repeat (apply orb_true_iff in E as [E|E]); breflect; lia. }
  cbn [app units_bytes]. by rewrite Hs, Henc.
Qed.

Lemma coerce_utf8_valid s : valid_utf8 s = true → coerce_utf8 s = s.
Proof.
  rewrite valid_utf8_spec. intros Hv. unfold coerce_utf8. rewrite <- (runes_concat s) at 2.
  f_equal. apply list_fmap_ext. intros i p Hp. rewrite Hv; [done|].
  by eapply list_elem_of_lookup_2.
Qed.

Lemma lex_pieces ps acc t :
  (∀ p, p ∈ ps → good_piece p ∧ bad_rune p = false) →
  lex (LStr acc) (concat_str (map enc_piece ps) ++ String dquote t) =
  TStr (units_string (acc ++ mjoin (map piece_units ps))) :: lex LStart t.
Proof.
  revert acc. induction ps as [|p ps IH]; intros acc Hps.
  { cbn. by rewrite app_nil_r. }
  cbn [map concat_str foldr]. rewrite <- app_assoc_str.
  destruct (Hps p) as [Hg Hb]; [by left|].
  rewrite lex_piece by done.
  change (foldr String.append EmptyString (map enc_piece ps)) with (concat_str (map enc_piece ps)).
  rewrite IH by (intros q Hq; apply Hps; by right).
  cbn [map mjoin list_join]. by rewrite <- app_assoc.
Qed.

Lemma units_bytes_pieces ps :
  (∀ p, p ∈ ps → good_piece p) →
  units_bytes (mjoin (map piece_units ps)) = concat_str (map snd ps).
Proof.
  induction ps as [|p ps IH]; intros Hps; [done|]. cbn [map mjoin list_join concat_str foldr].
  rewrite units_bytes_piece by (apply Hps; by left).
  f_equal. apply IH. intros q Hq. apply Hps. by right.
Qed.

(** A valid UTF-8 string survives the encoder and the scanner. *)
Lemma lex_enc_string s t :
  valid_utf8 s = true → lex LStart (enc_string s ++ t) = TStr s :: lex LStart t.
Proof.
  intros Hv. pose proof (proj1 (valid_utf8_spec s) Hv) as Hb. unfold enc_string.
  change (String dquote ?x ++ t)%string with (String dquote (x ++ t)%string).
  change (lex LStart (String dquote ?x)) with (lex (LStr []) x).
  rewrite <- app_assoc_str.
  change (String dquote EmptyString ++ t)%string with (String dquote t).
  rewrite lex_pieces by (intros p Hp; split; [by eapply runes_good; auto | auto]).
  f_equal. f_equal. unfold units_string. cbn [app].
  rewrite units_bytes_pieces by (intros p Hp; by eapply runes_good; auto).
  rewrite runes_concat. by apply coerce_utf8_valid.
Qed.

(** *** Values *)

Fixpoint commas (l : list (list token)) : list token :=
  match l with
  | [] => []
  | [x] => x
  | x :: l => x ++ TComma :: commas l
  end.

Fixpoint toks (v : any) : list token :=
  match v with
  | ANil => [TNull]
  | ABool b => [TBool b]
  | ANum n => [TNum n]
  | AStr s => [TStr s]
  | AStrs l => []
  | AArr l => TLBrack :: commas (map toks l) ++ [TRBrack]
  | AObj l => TLBrace :: commas (map (λ kv, TStr (fst kv) :: TColon :: toks (snd kv)) l) ++ [TRBrace]
  end.

(** Comma separated pieces, each scanned on its own, up to a closing byte. *)
Lemma lex_commas {A} (enc : A → string) (tk : A → list token) (l : list A) c t :
  (c = "]" ∨ c = "}")%char →
  (∀ x t, x ∈ l → stops t → lex LStart (enc x ++ t) = tk x ++ lex LStart t) →
  lex LStart (join "," (map enc l) ++ String c t) =
  commas (map tk l) ++ lex LStart (String c t).
Proof.
  intros Hc. induction l as [|x l IH]; intros Hl; [done|].
  destruct l as [|y l].
  - cbn [map join commas]. apply Hl; [by left|]. right. exists c, t.
    destruct Hc as [-> | ->]; auto.
  - cbn [map]. change (join "," (enc x :: enc y :: map enc l))
      with (enc x ++ String "," (join "," (map enc (y :: l))))%string.
    rewrite <- app_assoc_str. cbn [String.append].
    rewrite Hl; [|by left|right; eauto]. change (lex LStart (String "," ?u)) with (TComma :: lex LStart u).
    rewrite IH by (intros z u Hz; apply Hl; by right).
    change (commas (tk x :: tk y :: map tk l)) with (tk x ++ TComma :: commas (map tk (y :: l))).
    by rewrite <- app_assoc.
Qed.

Lemma lex_encode num_ok v t :
  wf_json num_ok v = true → stops t → lex LStart (json_encode v ++ t) = toks v ++ lex LStart t.
Proof.
  revert t. induction v as [|b|n|s|l|l IH|l IH] using any_nested_ind; intros t Hw Ht.
  - done.
  - by destruct b.
  - apply andb_prop in Hw as [Hn _]. by apply lex_num_lit.
  - by apply lex_enc_string.
  - done.
  - cbn [json_encode wf_json toks] in *. rewrite Forall_forall in IH.
    pose proof (proj1 (forallb_elem _ _) Hw) as Hw'.
    rewrite <- app_assoc_str. change ("[" ++ ?x)%string with (String "[" x).
    change (lex LStart (String "[" ?x)) with (TLBrack :: lex LStart x).
    rewrite <- app_assoc_str. change ("]" ++ t)%string with (String "]" t).
    rewrite (lex_commas _ toks) by (auto; intros x u Hx Hu; apply IH; auto).
    cbn [app]. by rewrite <- app_assoc.
  - cbn [json_encode wf_json toks] in *. rewrite Forall_forall in IH.
    apply andb_prop in Hw as [_ Hw].
    pose proof (proj1 (forallb_elem _ _) Hw) as Hw'.
    rewrite <- app_assoc_str. change ("{" ++ ?x)%string with (String "{" x).
    change (lex LStart (String "{" ?x)) with (TLBrace :: lex LStart x).
    rewrite <- app_assoc_str. change ("}" ++ t)%string with (String "}" t).
    rewrite (lex_commas _ (λ kv, TStr (fst kv) :: TColon :: toks (snd kv))).
    + cbn [app]. by rewrite <- app_assoc.
    + auto.
    + intros [k x] u Hx Hu. cbn [fst snd]. pose proof (Hw' _ Hx) as Hk. cbn [fst snd] in Hk.
      apply andb_prop in Hk as [Hk Hwx]. rewrite <- !app_assoc_str, lex_enc_string by done.
      change (":" ++ ?y)%string with (String ":" y).
      change (lex LStart (String ":" ?y)) with (TColon :: lex LStart y).
      rewrite (IH _ Hx) by done. done.
Qed.

(** ** Lemmas: decoding what the encoder wrote *)

(** What the machine does once the value [v] is complete. *)
Definition feed (num_ok : string → bool) (maxd : nat) (nodup : bool)
    (v : any) (ts : list token) (stk : list frame) : jres :=
  match stk with
  | [] => JOk v ts
  | FArr acc :: stk => run num_ok maxd nodup ts MNext (FArr (acc ++ [v]) :: stk)
  | FObj acc k :: stk => run num_ok maxd nodup ts MNext (FObj (obj_set acc k v) k :: stk)
  end.

Lemma toks_head num_ok v :
  wf_json num_ok v = true → ∃ t ts, toks v = t :: ts ∧ t ≠ TRBrack.
Proof. destruct v; simpl; eauto; done. Qed.

Lemma run_MValOrEnd num_ok maxd nodup t ts stk :
  t ≠ TRBrack → run num_ok maxd nodup (t :: ts) MValOrEnd stk = run num_ok maxd nodup (t :: ts) MVal stk.
Proof. by destruct t. Qed.

Lemma leb_refl a : String.leb a a = true.
Proof. by destruct (str_le_total a a). Qed.

Lemma obj_set_append l k v :
  forallb (λ kv, key_lt (fst kv) k) l = true → obj_set l k v = l ++ [(k, v)].
Proof.
  induction l as [|[k' v'] l IH]; simpl; [done|]. intros Hl.
  apply andb_prop in Hl as [Hk Hl]. unfold key_lt in Hk. apply negb_true_iff in Hk.
  destruct (String.eqb_spec k k') as [->|]; [by rewrite leb_refl in Hk|].
  rewrite Hk. by rewrite IH.
Qed.

Lemma obj_get_absent l k :
  forallb (λ kv, key_lt (fst kv) k) l = true → obj_get l k = None.
Proof.
  unfold obj_get. induction l as [|[k' v'] l IH]; simpl; [done|]. intros Hl.
  apply andb_prop in Hl as [Hk Hl]. unfold key_lt in Hk. apply negb_true_iff in Hk.
  destruct (String.eqb_spec k' k) as [->|]; [by rewrite leb_refl in Hk|]. auto.
Qed.

Section RunValue.
Context (num_ok : string → bool) (maxd : nat) (nodup : bool).
Notation run := (run num_ok maxd nodup).
Notation feed := (feed num_ok maxd nodup).

Definition decodes (v : any) : Prop := ∀ ts stk,
  (List.length stk + depth v ≤ maxd)%nat → run (toks v ++ ts) MVal stk = feed v ts stk.

Lemma run_elems l x acc ts stk :
  (∀ y, y ∈ x :: l → decodes y ∧ (S (List.length stk) + depth y ≤ maxd)%nat) →
  run (commas (map toks (x :: l)) ++ TRBrack :: ts) MVal (FArr acc :: stk) =
  feed (AArr (acc ++ x :: l)) ts stk.
Proof.
  revert x acc. induction l as [|y l IH]; intros x acc Hl.
  - cbn [map commas]. destruct (Hl x) as [Hx Hd]; [by left|]. by rewrite Hx.
  - change (commas (map toks (x :: y :: l))) with
      (toks x ++ TComma :: commas (map toks (y :: l))).
    rewrite <- app_assoc. destruct (Hl x) as [Hx Hd]; [by left|]. rewrite Hx by done.
    cbn [Json.feed app]. etrans; [|etrans; [apply (IH y (acc ++ [x]))|]].
    + done.
    + intros z Hz. apply Hl. by right.
    + by rewrite <- app_assoc.
Qed.

Lemma run_entries l k x acc ts stk :
  (∀ e, e ∈ (k, x) :: l → decodes (snd e) ∧ (S (List.length stk) + depth (snd e) ≤ maxd)%nat) →
  keys_sorted ((k, x) :: l) = true →
  forallb (λ kv, key_lt (fst kv) k) acc = true →
  (∀ e e', e ∈ acc → e' ∈ (k, x) :: l → key_lt (fst e) (fst e') = true) →
  run (commas (map (λ kv, TStr (fst kv) :: TColon :: toks (snd kv)) ((k, x) :: l)) ++ TRBrace :: ts)
    (MKey acc) stk = feed (AObj (acc ++ (k, x) :: l)) ts stk.
Proof.
  revert k x acc. induction l as [|[k2 y] l IH]; intros k x acc Hl Hs Hacc Hall.
  - cbn [map commas fst snd]. destruct (Hl (k, x)) as [Hx Hd]; [by left|]. cbn [snd] in *.
    cbn [app Json.run]. unfold dup_key. rewrite obj_get_absent, andb_false_r by done.
    rewrite Hx by done. cbn [Json.feed Json.run]. by rewrite obj_set_append.
  - change (commas (map (λ kv, TStr (fst kv) :: TColon :: toks (snd kv)) ((k, x) :: (k2, y) :: l)))
      with (TStr k :: TColon :: toks x ++ TComma ::
            commas (map (λ kv, TStr (fst kv) :: TColon :: toks (snd kv)) ((k2, y) :: l))).
    destruct (Hl (k, x)) as [Hx Hd]; [by left|]. cbn [snd] in *.
    cbn [app Json.run]. unfold dup_key. rewrite obj_get_absent, andb_false_r by done.
    rewrite <- app_assoc, Hx by done. cbn [Json.feed app Json.run].
    rewrite obj_set_append by done.
    apply andb_prop in Hs as [Hk Hs]. pose proof (proj1 (forallb_elem _ _) Hk) as Hk'.
    assert (Hnew : ∀ e', e' ∈ (k2, y) :: l → ∀ e, e ∈ acc ++ [(k, x)] →
              key_lt (fst e) (fst e') = true).
    { intros e' He' e [He|He]%elem_of_app; [apply Hall; [done|by right]|].
      apply list_elem_of_singleton in He as ->. by apply (Hk' e'). }
    etrans; [apply (IH k2 y (acc ++ [(k, x)]))|by rewrite <- app_assoc].
    + intros e He. apply Hl. by right.
    + done.
    + apply forallb_elem. intros e He. apply (Hnew (k2, y)); [by left|done].
    + intros e e' He He'. by apply Hnew.
Qed.

Lemma depth_elem l x : x ∈ l → (depth x < depth (AArr l))%nat.
Proof.
  induction l as [|y l IH]; [by intros ?%not_elem_of_nil|]. cbn [depth foldr] in *.
  intros [->|Hx]%elem_of_cons; [lia|]. specialize (IH Hx). lia.
Qed.

Lemma depth_entry l kv : kv ∈ l → (depth (snd kv) < depth (AObj l))%nat.
Proof.
  induction l as [|y l IH]; [by intros ?%not_elem_of_nil|]. cbn [depth foldr] in *.
  intros [->|Hx]%elem_of_cons; [lia|]. specialize (IH Hx). lia.
Qed.

Lemma run_value v : wf_json num_ok v = true → decodes v.
Proof.
  induction v as [|b|n|s|l|l IH|l IH] using any_nested_ind; intros Hw ts stk Hd.
  - by destruct stk as [|[]].
  - by destruct stk as [|[]].
  - apply andb_prop in Hw as [_ Hn]. cbn. rewrite Hn. by destruct stk as [|[]].
  - by destruct stk as [|[]].
  - done.
  - rewrite Forall_forall in IH. cbn [wf_json] in Hw. rewrite forallb_elem in Hw.
    assert (Hlt : (maxd <=? List.length stk)%nat = false)
      by (apply Nat.leb_gt; cbn [depth] in Hd; lia).
    destruct l as [|x l].
    { cbn [toks map commas app Json.run]. rewrite Hlt. by destruct stk as [|[]]. }
    etrans; [|apply (run_elems l x [] ts stk)].
    + destruct (toks_head num_ok x) as (t & u & Ht & Hne); [apply Hw; by left|].
      cbn [toks app]. rewrite <- app_assoc. cbn [app Json.run]. rewrite Hlt.
      assert (Hh : ∃ u', commas (map toks (x :: l)) = t :: u').
      { cbn [map commas]. destruct (map toks l); rewrite Ht; cbn; eauto. }
      destruct Hh as [u' Hh]. rewrite Hh. cbn [app]. by apply run_MValOrEnd.
    + intros y Hy. split; [intros ??; apply IH; auto|].
      pose proof (depth_elem _ _ Hy). lia.
  - rewrite Forall_forall in IH. apply andb_prop in Hw as [Hs Hw]. rewrite forallb_elem in Hw.
    assert (Hlt : (maxd <=? List.length stk)%nat = false)
      by (apply Nat.leb_gt; cbn [depth] in Hd; lia).
    destruct l as [|[k x] l].
    { cbn [toks map commas app Json.run]. rewrite Hlt. by destruct stk as [|[]]. }
    etrans; [|apply (run_entries l k x [] ts stk)].
    + cbn [toks app]. rewrite <- app_assoc. cbn [app Json.run]. rewrite Hlt.
      cbn [map commas fst snd]. by destruct (map _ l).
    + intros e He. split.
      { intros ??. apply IH; [done|]. specialize (Hw _ He). by apply andb_prop in Hw as [_ ?]. }
      pose proof (depth_entry _ _ He). lia.
    + done.
    + done.
    + by intros e e' ?%not_elem_of_nil.
Qed.
End RunValue.

(** Decoding what was encoded gives the value back. *)
Lemma json_decode_encode num_ok v :
  wf_json num_ok v = true → (depth v ≤ maxNestingDepth)%nat →
  json_decode num_ok (json_encode v) = Some v.
Proof.
  intros Hw Hd. unfold json_decode, tokens.
  rewrite <- (app_nil_r_str (json_encode v)), (lex_encode num_ok) by (done || by left).
  rewrite run_value by done. done.
Qed.

(** *** The encoder writes valid UTF-8 *)

Lemma hex_n_ascii n z : is_ascii (hex_n n z) = true.
Proof.
  induction n as [|n IH]; [done|]. cbn [hex_n]. unfold is_ascii in *. cbn [s_all]. rewrite IH, andb_true_r.
  pose proof (Z.mod_pos_bound (z / 16 ^ Z.of_nat n) 16 ltac:(lia)).
  set (d := (z / 16 ^ Z.of_nat n) mod 16) in *. unfold hex_digit. apply Z.ltb_lt.
  destruct (Z.ltb_spec d 10); rewrite bz_zb; lia.
Qed.

Lemma enc_string_valid s : valid_utf8 s = true → valid_utf8 (enc_string s) = true.
Proof.
  intros Hv. pose proof (proj1 (valid_utf8_spec s) Hv) as Hb. unfold enc_string.
  assert (Hu : ∀ z, valid_utf8 (esc_u z) = true).
  { intros z. apply ascii_valid_utf8. unfold esc_u, is_ascii. cbn [s_all]. by rewrite hex_n_ascii. }
  change (String dquote ?x) with (String dquote EmptyString ++ x)%string.
  apply valid_utf8_app; [done|]. apply valid_utf8_app; [|done]. apply valid_utf8_concat.
  intros x (p & -> & Hp)%list_elem_of_fmap. specialize (Hb p Hp). unfold enc_piece. rewrite Hb.
  pose proof (valid_utf8_piece s p Hp Hb) as Hpv.
  repeat case_match; try done; auto.
Qed.

Lemma num_lit_ascii n : num_lit n = true → is_ascii n = true.
Proof.
  assert (Hstep : ∀ st c st', num_step st c = Some st' → (bz c <? 128) = true).
  { intros st c st'. unfold num_step, is_digit_b, in_range.
    destruct (Z.ltb_spec (bz c) 128) as [|Hc]; [done|].
    assert ((bz c <=? 57) = false) as -> by (apply Z.leb_gt; lia). rewrite andb_false_r.
    repeat match goal with |- context [Ascii.eqb c ?d] => destruct (Ascii.eqb_spec c d) as [->|]; [done|] end.
    by destruct st. }
  assert (Hrun : ∀ r st st', num_run st r = Some st' → is_ascii r = true).
  { induction r as [|c r IH]; intros st st'; [done|]. cbn [num_run]. unfold is_ascii. cbn [s_all].
    destruct (num_step st c) as [st1|] eqn:E; [|done]. intros Hr. rewrite (Hstep _ _ _ E). by eapply IH. }
  destruct n as [|c r]; [done|]. unfold num_lit. intros Hn. unfold is_ascii. cbn [s_all].
  destruct (lex_start c) as [[|? ?] [ [ | | | |st acc| ]|]] eqn:E; try done.
  destruct (num_run st r) as [st'|] eqn:Hr; [|done].
  assert (is_ascii r = true) as Hra by by eapply Hrun. unfold is_ascii in Hra. rewrite Hra, andb_true_r.
  clear -E. unfold lex_start in E. destruct (Z.ltb_spec (bz c) 128) as [|Hc]; [done|]. exfalso.
  assert (Hdig : is_digit_b c = false).
  { unfold is_digit_b, in_range. apply andb_false_iff. right. apply Z.leb_gt. lia. }
  rewrite Hdig in E.
  repeat (case_match; simplify_eq; breflect; subst; try done).
Qed.

Lemma json_encode_valid num_ok v : wf_json num_ok v = true → valid_utf8 (json_encode v) = true.
Proof.
  induction v as [|b|n|s|l|l IH|l IH] using any_nested_ind; intros Hw; cbn [json_encode wf_json] in *.
  - done.
  - by destruct b.
  - apply andb_prop in Hw as [Hn _]. by apply ascii_valid_utf8, num_lit_ascii.
  - by apply enc_string_valid.
  - done.
  - rewrite Forall_forall in IH. rewrite forallb_elem in Hw. apply valid_utf8_app; [done|].
    apply valid_utf8_app; [|done]. apply valid_utf8_join; [done|].
    intros x (y & -> & Hy)%list_elem_of_fmap. auto.
  - rewrite Forall_forall in IH. apply andb_prop in Hw as [_ Hw]. rewrite forallb_elem in Hw.
    apply valid_utf8_app; [done|]. apply valid_utf8_app; [|done]. apply valid_utf8_join; [done|].
    intros x (y & -> & Hy)%list_elem_of_fmap. specialize (Hw y Hy). apply andb_prop in Hw as [Hk Hv].
    apply valid_utf8_app; [by apply enc_string_valid|]. apply valid_utf8_app; [done|]. auto.
Qed.

(** *** Objects written in any key order, keys possibly repeated *)

Definition entry_text (kv : string * any) : string :=
  (enc_string (fst kv) ++ ":" ++ json_encode (snd kv))%string.
Definition object_text (es : list (string * any)) : string :=
  ("{" ++ join "," (map entry_text es) ++ "}")%string.
Definition entry_toks (kv : string * any) : list token := TStr (fst kv) :: TColon :: toks (snd kv).

(** The keys and values of the entries are well formed. *)
Definition wf_entries (num_ok : string → bool) (es : list (string * any)) : bool :=
  forallb (λ kv, valid_utf8 (fst kv) && wf_json num_ok (snd kv)) es.

Lemma object_text_valid num_ok es : wf_entries num_ok es = true →
  valid_utf8 (join "," (map entry_text es)) = true.
Proof.
  unfold wf_entries. rewrite forallb_elem. intros Hw. apply valid_utf8_join; [done|].
  intros x (kv & -> & Hkv)%list_elem_of_fmap. specialize (Hw kv Hkv). apply andb_prop in Hw as [Hk Hv].
  unfold entry_text. apply valid_utf8_app; [by apply enc_string_valid|]. apply valid_utf8_app; [done|].
  by eapply json_encode_valid.
Qed.

Lemma tokens_object num_ok es :
  wf_entries num_ok es = true →
  tokens (object_text es) = TLBrace :: commas (map entry_toks es) ++ [TRBrace].
Proof.
  unfold wf_entries. rewrite forallb_elem. intros Hw. unfold tokens, object_text.
  change ("{" ++ ?x)%string with (String "{" x).
  change (lex LStart (String "{" ?x)) with (TLBrace :: lex LStart x). f_equal.
  rewrite (lex_commas entry_text entry_toks es "}" EmptyString); [done|auto|].
  intros kv u Hkv Hu. specialize (Hw kv Hkv). apply andb_prop in Hw as [Hk Hv].
  unfold entry_text, entry_toks. rewrite <- !app_assoc_str, lex_enc_string by done.
  change (":" ++ ?y)%string with (String ":" y).
  change (lex LStart (String ":" ?y)) with (TColon :: lex LStart y).
  by rewrite (lex_encode num_ok) by done.
Qed.

(** [out[k] = v] for each entry in turn. *)
Definition set_all (acc es : list (string * any)) : list (string * any) :=
  foldl (λ acc kv, obj_set acc (fst kv) (snd kv)) acc es.

Definition has_key (l : list (string * any)) (k : string) : bool :=
  match obj_get l k with Some _ => true | None => false end.

(** Some key of [es] is in [acc] or was given before in [es]. *)
Fixpoint repeats (acc es : list (string * any)) : bool :=
  match es with
  | [] => false
  | (k, v) :: es => has_key acc k || repeats (obj_set acc k v) es
  end.

Lemma run_object num_ok maxd nodup es k x acc ts stk :
  (∀ e, e ∈ (k, x) :: es → wf_json num_ok (snd e) = true ∧ (S (List.length stk) + depth (snd e) ≤ maxd)%nat) →
  run num_ok maxd nodup (commas (map entry_toks ((k, x) :: es)) ++ TRBrace :: ts) (MKey acc) stk =
  if nodup && (List.length stk =? 0)%nat && repeats acc ((k, x) :: es) then JDup
  else feed num_ok maxd nodup (AObj (set_all acc ((k, x) :: es))) ts stk.
Proof.
  revert k x acc. induction es as [|[k2 y] es IH]; intros k x acc Hw.
  - destruct (Hw (k, x)) as [Hx Hd]; [by left|]. cbn [snd] in *. cbn [map commas].
    unfold entry_toks. cbn [fst snd app run repeats]. unfold dup_key, has_key. rewrite orb_false_r.
    destruct (nodup && (List.length stk =? 0)%nat && _); [done|].
    rewrite run_value by done. done.
  - change (commas (map entry_toks ((k, x) :: (k2, y) :: es)))
      with (TStr k :: TColon :: toks x ++ TComma :: commas (map entry_toks ((k2, y) :: es))).
    destruct (Hw (k, x)) as [Hx Hd]; [by left|]. cbn [snd] in *.
    cbn [app run]. unfold dup_key.
    change (repeats acc ((k, x) :: (k2, y) :: es))
      with (has_key acc k || repeats (obj_set acc k x) ((k2, y) :: es)).
    change (match obj_get acc k with Some _ => true | None => false end) with (has_key acc k).
    destruct (nodup && (List.length stk =? 0)%nat) eqn:Hn; cbn [andb].
    + destruct (has_key acc k); [done|]. cbn [orb].
      rewrite <- app_assoc, run_value by done. cbn [feed app run].
      rewrite IH by (intros e He; apply Hw; by right). done.
    + rewrite <- app_assoc, run_value by done. cbn [feed app run].
      rewrite IH by (intros e He; apply Hw; by right). done.
Qed.

Lemma obj_get_set_eq l k v : obj_get (obj_set l k v) k = Some v.
Proof.
  unfold obj_get. induction l as [|[k' v'] l IH]; cbn [obj_set List.find fst].
  { by rewrite String.eqb_refl. }
  destruct (String.eqb k k') eqn:E; cbn [List.find fst]; [by rewrite String.eqb_refl|].
  destruct (String.leb k k'); cbn [List.find fst]; [by rewrite String.eqb_refl|].
  rewrite String.eqb_sym, E. apply IH.
Qed.

Lemma obj_get_set_ne l k v k2 : k ≠ k2 → obj_get (obj_set l k v) k2 = obj_get l k2.
Proof.
  intros Hne. assert (Hk : String.eqb k k2 = false) by by apply String.eqb_neq.
  unfold obj_get. induction l as [|[k' v'] l IH]; cbn [obj_set List.find fst]; [by rewrite Hk|].
  destruct (String.eqb_spec k k') as [->|]; cbn [List.find fst]; [by rewrite Hk|].
  destruct (String.leb k k'); cbn [List.find fst]; [by rewrite Hk|].
  destruct (String.eqb k' k2); [done|apply IH].
Qed.

Lemma has_key_set l k v k2 : has_key (obj_set l k v) k2 = String.eqb k k2 || has_key l k2.
Proof.
  unfold has_key. destruct (String.eqb_spec k k2) as [->|Hne]; [by rewrite obj_get_set_eq|].
  by rewrite obj_get_set_ne.
Qed.

Lemma repeats_spec acc es :
  repeats acc es = false ↔ NoDup (map fst es) ∧ ∀ k, k ∈ map fst es → has_key acc k = false.
Proof.
  revert acc. induction es as [|[k v] es IH]; intros acc; cbn [repeats map fst].
  { split; [|done]. split; [constructor|]. by intros k ?%not_elem_of_nil. }
  rewrite orb_false_iff, IH, NoDup_cons. setoid_rewrite has_key_set. setoid_rewrite orb_false_iff.
  setoid_rewrite elem_of_cons. split.
  - intros (Hk & Hnd & Hall). split; [split; [|done]|].
    + intros Hin. destruct (Hall k Hin) as [Hn _]. by rewrite String.eqb_refl in Hn.
    + intros k' [->|Hin]; [done|]. by apply Hall.
  - intros ([Hk Hnd] & Hall). split; [apply Hall; by left|]. split; [done|].
    intros k' Hin. split; [|apply Hall; by right]. apply String.eqb_neq. by intros ->.
Qed.

(** The whole text of an object, with a nesting limit that covers it. *)
Lemma run_object_text num_ok maxd nodup es :
  wf_entries num_ok es = true → (0 < maxd)%nat →
  (∀ e, e ∈ es → (S (depth (snd e)) ≤ maxd)%nat) →
  run num_ok maxd nodup (tokens (object_text es)) MVal [] =
  if nodup && repeats [] es then JDup else JOk (AObj (set_all [] es)) [].
Proof.
  intros Hw H0 Hd. rewrite (tokens_object num_ok) by done.
  assert (Hm : (maxd <=? 0)%nat = false) by (apply Nat.leb_gt; lia).
  cbn [run List.length]. rewrite Hm. destruct es as [|[k x] es].
  { cbn. by rewrite andb_false_r. }
  change (run num_ok maxd nodup (commas (map entry_toks ((k, x) :: es)) ++ [TRBrace]) MKeyOrEnd [])
    with (run num_ok maxd nodup (commas (map entry_toks ((k, x) :: es)) ++ [TRBrace]) (MKey []) [])
    || (transitivity (run num_ok maxd nodup (commas (map entry_toks ((k, x) :: es)) ++ [TRBrace]) (MKey []) []);
        [cbn [map commas]; by destruct (map entry_toks es)|]).
  unfold wf_entries in Hw. rewrite forallb_elem in Hw.
  rewrite run_object.
  - cbn [List.length Nat.eqb feed]. by rewrite andb_true_r.
  - intros e He. specialize (Hw e He). apply andb_prop in Hw as [_ Hv]. split; [done|]. cbn. by apply Hd.
Qed.

(** ** The decoder's output is well formed *)

Lemma leb_trans a b c : String.leb a b = true → String.leb b c = true → String.leb a c = true.
Proof.
  unfold String.leb. revert b c. induction a as [|x a IH]; intros [|y b] [|z c]; cbn; try done.
  unfold Ascii.compare. intros H1 H2.
  destruct (N.compare_spec (N_of_ascii x) (N_of_ascii y)) as [E1|E1|E1]; [..|done];
  destruct (N.compare_spec (N_of_ascii y) (N_of_ascii z)) as [E2|E2|E2]; try done;
  destruct (N.compare_spec (N_of_ascii x) (N_of_ascii z)) as [E3|E3|E3]; try done; try lia.
  by eapply IH.
Qed.

Lemma leb_false a b : String.leb a b = false → String.leb b a = true.
Proof. destruct (String.leb_total a b) as [->|?]; done. Qed.

Lemma key_lt_trans a b c : key_lt a b = true → key_lt b c = true → key_lt a c = true.
Proof.
  unfold key_lt. rewrite !negb_true_iff. intros H1 H2. destruct (String.leb c a) eqn:E; [|done].
  apply leb_false in H1. by rewrite (leb_trans _ _ _ E H1) in H2.
Qed.

Lemma keys_sorted_cons k v l :
  keys_sorted ((k, v) :: l) = true ↔ (∀ e, e ∈ l → key_lt k (fst e) = true) ∧ keys_sorted l = true.
Proof. cbn [keys_sorted]. by rewrite andb_true_iff, forallb_elem. Qed.

Lemma elem_of_obj_set e l k v : e ∈ obj_set l k v → e = (k, v) ∨ e ∈ l.
Proof.
  induction l as [|[k' v'] l IH]; cbn [obj_set]; [by intros ->%list_elem_of_singleton; left|].
  destruct (String.eqb k k'); [|destruct (String.leb k k')]; rewrite !elem_of_cons.
  - intros [->|?]; auto.
  - intros [->|[->|?]]; auto.
  - intros [->|Hin]; auto. destruct (IH Hin); auto.
Qed.

Lemma obj_set_sorted l k v : keys_sorted l = true → keys_sorted (obj_set l k v) = true.
Proof.
  induction l as [|[k' v'] l IH]; intros Hs; [done|]. cbn [obj_set].
  apply keys_sorted_cons in Hs as [Hk Hs].
  destruct (String.eqb_spec k k') as [->|Hne]; [by apply keys_sorted_cons|].
  destruct (String.leb k k') eqn:Hle.
  - assert (Hlt : key_lt k k' = true).
    { unfold key_lt. apply negb_true_iff. destruct (String.leb k' k) eqn:E; [|done].
      destruct Hne. by apply String.leb_antisym. }
    apply keys_sorted_cons. split; [|by apply keys_sorted_cons].
    intros e [->|He]%elem_of_cons; [done|]. eapply key_lt_trans; [done|by apply Hk].
  - apply keys_sorted_cons. split; [|by apply IH].
    intros e [->|He]%elem_of_obj_set; [|by apply Hk]. unfold key_lt. cbn [fst]. by rewrite Hle.
Qed.

(** A token the scanner may produce. *)
Definition good_token (t : token) : bool :=
  match t with TStr s => valid_utf8 s | TNum n => num_lit n | _ => true end.

Lemma coerce_utf8_is_valid s : valid_utf8 (coerce_utf8 s) = true.
Proof.
  unfold coerce_utf8. apply valid_utf8_concat. intros x (p & -> & Hp)%list_elem_of_fmap.
  destruct (bad_rune p) eqn:Hb; [done|]. by eapply valid_utf8_piece.
Qed.

(** A number state has read a prefix of a literal that brings it there. *)
Definition lex_ok (st : lexst) : Prop :=
  match st with
  | LNum nst acc => ∃ c r st0, acc = String c r ∧
      lex_start c = ([], Some (LNum st0 (String c EmptyString))) ∧ num_run st0 r = Some nst
  | LLit _ tok => good_token tok = true
  | _ => True
  end.

Lemma num_run_app st a b : num_run st (a ++ b) =
  match num_run st a with Some st' => num_run st' b | None => None end.
Proof. revert st. induction a as [|c a IH]; intros st; [done|]. cbn. by destruct (num_step st c). Qed.

Lemma lex_start_ok c :
  forallb good_token (fst (lex_start c)) = true ∧
  match snd (lex_start c) with Some st => lex_ok st | None => True end.
Proof.
  assert (Hnum : ∀ st0, lex_start c = ([], Some (LNum st0 (String c EmptyString))) → lex_ok (LNum st0 (String c EmptyString))).
  { intros st0 Hs. by exists c, EmptyString, st0. }
  destruct (lex_start c) as [ts [ [ | | | |st acc| ]|]] eqn:E; cbn [fst snd]; unfold lex_start in E;
    repeat (case_match; simplify_eq); try done; (split; [done|by apply Hnum]).
Qed.

Lemma lex_num_token nst acc : lex_ok (LNum nst acc) → num_final nst = true → num_lit acc = true.
Proof.
  intros (c & r & st0 & -> & Hs & Hr) Hf. unfold num_lit. by rewrite Hs, Hr.
Qed.

Lemma lex_good s st : lex_ok st → forallb good_token (lex st s) = true.
Proof.
  revert st. induction s as [|c s IH]; intros st Hok.
  { destruct st; try done. cbn [lex lex_end]. destruct (num_final st) eqn:Hf; [|done]. cbn.
    by rewrite (lex_num_token _ _ Hok Hf). }
  cbn [lex]. destruct (lex_step st c) as [ts st'] eqn:E. rewrite forallb_app. apply andb_true_iff.
  assert (Hg : forallb good_token ts = true ∧ match st' with Some st' => lex_ok st' | None => True end);
    [|destruct Hg; split; [done|]; destruct st'; auto].
  destruct st as [|acc|acc|acc n v|nst acc|todo tok]; cbn [lex_step] in E.
  - pose proof (lex_start_ok c) as Hl. by rewrite E in Hl.
  - repeat (case_match; simplify_eq); cbn; rewrite ?coerce_utf8_is_valid; try done.
    unfold units_string. by rewrite coerce_utf8_is_valid.
  - repeat (case_match; simplify_eq); done.
  - repeat (case_match; simplify_eq); done.
  - destruct (num_step nst c) as [nst'|] eqn:Hn.
    + simplify_eq. split; [done|]. destruct Hok as (c0 & r & st0 & -> & Hs & Hr).
      exists c0, (r ++ String c EmptyString)%string, st0. split; [done|]. split; [done|].
      rewrite num_run_app, Hr. cbn. by rewrite Hn.
    + destruct (num_final nst) eqn:Hf; [|by simplify_eq].
      pose proof (lex_start_ok c) as Hl. destruct (lex_start c) as [ts2 st2]. simplify_eq.
      cbn [forallb good_token]. by rewrite (lex_num_token _ _ Hok Hf).
  - destruct todo as [|d [|d2 todo]]; [by simplify_eq|..]; destruct (Ascii.eqb c d); simplify_eq; cbn; try done.
    cbn in Hok. by rewrite Hok.
Qed.

Definition wf_obj (num_ok : string → bool) (l : list (string * any)) : Prop :=
  keys_sorted l = true ∧ wf_entries num_ok l = true.

Definition frame_ok (num_ok : string → bool) (f : frame) : Prop :=
  match f with
  | FArr acc => forallb (wf_json num_ok) acc = true
  | FObj acc k => wf_obj num_ok acc ∧ valid_utf8 k = true
  end.

Definition mode_ok (num_ok : string → bool) (m : mode) : Prop :=
  match m with
  | MKey acc => wf_obj num_ok acc
  | MColon acc k => wf_obj num_ok acc ∧ valid_utf8 k = true
  | _ => True
  end.

Lemma wf_obj_set num_ok l k v :
  wf_obj num_ok l → valid_utf8 k = true → wf_json num_ok v = true → wf_obj num_ok (obj_set l k v).
Proof.
  intros [Hs He] Hk Hv. split; [by apply obj_set_sorted|]. unfold wf_entries in *.
  rewrite forallb_elem in *. intros e [->|Hin]%elem_of_obj_set; [|by apply He]. cbn [fst snd]. by rewrite Hk, Hv.
Qed.

Lemma run_wf num_ok maxd nodup ts m stk v rest :
  forallb good_token ts = true → mode_ok num_ok m → Forall (frame_ok num_ok) stk →
  run num_ok maxd nodup ts m stk = JOk v rest →
  wf_json num_ok v = true.
Proof.
  revert m stk. induction ts as [|t ts IH]; intros m stk Hts Hm Hstk; [done|].
  cbn [forallb] in Hts. apply andb_prop in Hts as [Ht Hts].
  assert (Hcomplete : ∀ w stk, wf_json num_ok w = true → Forall (frame_ok num_ok) stk →
    match stk with
    | [] => JOk w ts
    | FArr acc :: stk => run num_ok maxd nodup ts MNext (FArr (acc ++ [w]) :: stk)
    | FObj acc k :: stk => run num_ok maxd nodup ts MNext (FObj (obj_set acc k w) k :: stk)
    end = JOk v rest → wf_json num_ok v = true).
  { intros w [|[acc|acc k] stk'] Hw Hst.
    - by intros [= <- _].
    - apply Forall_cons in Hst as [Hf Hst]. apply IH; [done|done|]. apply Forall_cons. split; [|done].
      cbn in *. rewrite forallb_app, Hf. cbn. by rewrite Hw.
    - apply Forall_cons in Hst as [[Hf Hk] Hst]. apply IH; [done|done|]. apply Forall_cons. split; [|done].
      split; [by apply wf_obj_set|done]. }
  assert (Hobj : ∀ l, wf_obj num_ok l → wf_json num_ok (AObj l) = true).
  { intros l [H1 H2]. cbn [wf_json]. rewrite H1. apply H2. }
  assert (Hvalue : match t with
      | TLBrace => if (maxd <=? List.length stk)%nat then JBad else run num_ok maxd nodup ts MKeyOrEnd stk
      | TLBrack => if (maxd <=? List.length stk)%nat then JBad else run num_ok maxd nodup ts MValOrEnd (FArr [] :: stk)
      | TStr s => match stk with [] => JOk (AStr s) ts
          | FArr acc :: stk => run num_ok maxd nodup ts MNext (FArr (acc ++ [AStr s]) :: stk)
          | FObj acc k :: stk => run num_ok maxd nodup ts MNext (FObj (obj_set acc k (AStr s)) k :: stk) end
      | TNum n => if num_ok n then match stk with [] => JOk (ANum n) ts
          | FArr acc :: stk => run num_ok maxd nodup ts MNext (FArr (acc ++ [ANum n]) :: stk)
          | FObj acc k :: stk => run num_ok maxd nodup ts MNext (FObj (obj_set acc k (ANum n)) k :: stk) end else JBad
      | TBool b => match stk with [] => JOk (ABool b) ts
          | FArr acc :: stk => run num_ok maxd nodup ts MNext (FArr (acc ++ [ABool b]) :: stk)
          | FObj acc k :: stk => run num_ok maxd nodup ts MNext (FObj (obj_set acc k (ABool b)) k :: stk) end
      | TNull => match stk with [] => JOk ANil ts
          | FArr acc :: stk => run num_ok maxd nodup ts MNext (FArr (acc ++ [ANil]) :: stk)
          | FObj acc k :: stk => run num_ok maxd nodup ts MNext (FObj (obj_set acc k ANil) k :: stk) end
      | _ => JBad end = JOk v rest → wf_json num_ok v = true).
  { destruct t; try done.
    - destruct (_ <=? _)%nat; [done|]. by apply IH.
    - destruct (_ <=? _)%nat; [done|]. apply IH; [done|done|]. by apply Forall_cons.
    - by apply Hcomplete.
    - destruct (num_ok lit) eqn:Hn; [|done]. apply Hcomplete; [|done]. cbn in *. by rewrite Ht, Hn.
    - by apply Hcomplete.
    - by apply Hcomplete. }
  cbn [run]. destruct m as [| |acc| |acc k|].
  - exact Hvalue.
  - destruct t; try exact Hvalue. destruct stk as [|[acc|acc k] stk]; [done| |done].
    apply Forall_cons in Hstk as [Hf Hstk]. by apply Hcomplete.
  - destruct t; try done. destruct (dup_key _ _ _ _); [done|]. by apply IH.
  - destruct t; try done.
    + by apply Hcomplete.
    + destruct (dup_key _ _ _ _); [done|]. by apply IH.
  - destruct t; try done. destruct Hm. apply IH; [done|done|]. by apply Forall_cons.
  - destruct t; try done.
    + destruct stk as [|[acc|acc k] stk]; try done. apply Forall_cons in Hstk as [[Hf Hk] Hstk]. apply Hcomplete; auto.
    + destruct stk as [|[acc|acc k] stk]; try done. apply Forall_cons in Hstk as [Hf Hstk]. by apply Hcomplete.
    + destruct stk as [|[acc|acc k] stk]; try done.
      * by apply IH.
      * apply Forall_cons in Hstk as [[Hf Hk] Hstk]. by apply IH.
Qed.

Lemma run_nil num_ok maxd nodup m stk : run num_ok maxd nodup [] m stk = JBad.
Proof. by destruct m. Qed.

(** Two decoders that both accept a text read the same value: the number
    test, the nesting limit and the duplicate test only refuse. *)
Lemma run_agree n1 d1 b1 n2 d2 b2 ts m stk v1 r1 v2 r2 :
  run n1 d1 b1 ts m stk = JOk v1 r1 → run n2 d2 b2 ts m stk = JOk v2 r2 → v1 = v2 ∧ r1 = r2.
Proof.
  revert m stk. induction ts as [|t ts IH]; intros m stk; [done|]. cbn [run].
  assert (Hc : ∀ w stk,
    match stk with [] => JOk w ts
    | FArr acc :: stk => run n1 d1 b1 ts MNext (FArr (acc ++ [w]) :: stk)
    | FObj acc k :: stk => run n1 d1 b1 ts MNext (FObj (obj_set acc k w) k :: stk) end = JOk v1 r1 →
    match stk with [] => JOk w ts
    | FArr acc :: stk => run n2 d2 b2 ts MNext (FArr (acc ++ [w]) :: stk)
    | FObj acc k :: stk => run n2 d2 b2 ts MNext (FObj (obj_set acc k w) k :: stk) end = JOk v2 r2 →
    v1 = v2 ∧ r1 = r2).
  { intros w [|[acc|acc k] stk']; [|apply IH..]. by intros [= <- <-] [= <- <-]. }
  assert (Hdup : ∀ acc k (x y : jres), (if dup_key b1 stk acc k then JDup else x) = JOk v1 r1 →
    (if dup_key b2 stk acc k then JDup else y) = JOk v2 r2 → x = JOk v1 r1 ∧ y = JOk v2 r2).
  { intros acc k x y. by destruct (dup_key b1 stk acc k), (dup_key b2 stk acc k). }
  destruct m as [| |acc| |acc k|].
  - destruct t; try done; try apply Hc;
      try (destruct (d1 <=? _)%nat; [done|]; destruct (d2 <=? _)%nat; [done|]; apply IH).
    destruct (n1 lit); [|done]. destruct (n2 lit); [|done]. apply Hc.
  - destruct t; try done; try apply Hc;
      try (destruct (d1 <=? _)%nat; [done|]; destruct (d2 <=? _)%nat; [done|]; apply IH).
    + destruct stk as [|[acc|acc k] stk]; try done. apply Hc.
    + destruct (n1 lit); [|done]. destruct (n2 lit); [|done]. apply Hc.
  - destruct t; try done. intros H1 H2. destruct (Hdup _ _ _ _ H1 H2). by eapply IH.
  - destruct t; try done; [apply Hc|]. intros H1 H2. destruct (Hdup _ _ _ _ H1 H2). by eapply IH.
  - destruct t; try done. apply IH.
  - destruct t; try done; destruct stk as [|[acc|acc k] stk]; try done; try apply Hc; apply IH.
Qed.

(** *** Nesting *)

Definition fits (maxd n : nat) (vs : list any) : Prop :=
  (S n ≤ maxd)%nat ∧ ∀ x, x ∈ vs → (depth x + S n ≤ maxd)%nat.

Definition frame_vals (f : frame) : list any :=
  match f with FArr acc => acc | FObj acc _ => map snd acc end.

Fixpoint stack_fits (maxd : nat) (stk : list frame) : Prop :=
  match stk with
  | [] => True
  | f :: stk => fits maxd (List.length stk) (frame_vals f) ∧ stack_fits maxd stk
  end.

Definition mode_fits (maxd : nat) (m : mode) (stk : list frame) : Prop :=
  match m with
  | MKey acc | MColon acc _ => fits maxd (List.length stk) (map snd acc)
  | MKeyOrEnd => fits maxd (List.length stk) []
  | _ => True
  end.

Lemma fits_arr maxd n acc : fits maxd n acc → (depth (AArr acc) + n ≤ maxd)%nat.
Proof.
  intros [H0 Hall]. cbn [depth]. induction acc as [|x acc IH]; [cbn; lia|]. cbn [foldr].
  assert (depth x + S n ≤ maxd)%nat by (apply Hall; by left).
  assert (S (foldr (λ x m, Nat.max (depth x) m) 0%nat acc) + n ≤ maxd)%nat
    by (apply IH; intros y Hy; apply Hall; by right). lia.
Qed.

Lemma fits_obj maxd n acc : fits maxd n (map snd acc) → (depth (AObj acc) + n ≤ maxd)%nat.
Proof.
  intros Hf%fits_arr. cbn [depth] in *. clear -Hf.
  assert (foldr (λ x m, Nat.max (depth (snd x)) m) 0%nat acc =
          foldr (λ x m, Nat.max (depth x) m) 0%nat (map snd acc)) as ->; [|done].
  clear. induction acc as [|x acc IH]; cbn; [done|]. by rewrite IH.
Qed.

Lemma fits_snoc maxd n acc w : fits maxd n acc → (depth w + S n ≤ maxd)%nat → fits maxd n (acc ++ [w]).
Proof. intros [H0 Hall] Hw. split; [done|]. intros x [Hx|Hx]%elem_of_app; [auto|]. by apply list_elem_of_singleton in Hx as ->. Qed.

Lemma fits_set maxd n acc k w :
  fits maxd n (map snd acc) → (depth w + S n ≤ maxd)%nat → fits maxd n (map snd (obj_set acc k w)).
Proof.
  intros [H0 Hall] Hw. split; [done|]. intros x (e & -> & He)%list_elem_of_fmap.
  apply elem_of_obj_set in He as [->|He]; [done|]. apply Hall. by apply list_elem_of_fmap_2.
Qed.

Lemma run_depth num_ok maxd nodup ts m stk v rest :
  mode_fits maxd m stk → stack_fits maxd stk →
  run num_ok maxd nodup ts m stk = JOk v rest → (depth v ≤ maxd)%nat.
Proof.
  revert m stk. induction ts as [|t ts IH]; intros m stk Hm Hstk; [done|].
  assert (Hc : ∀ w stk, (depth w + List.length stk ≤ maxd)%nat → stack_fits maxd stk →
    match stk with
    | [] => JOk w ts
    | FArr acc :: stk => run num_ok maxd nodup ts MNext (FArr (acc ++ [w]) :: stk)
    | FObj acc k :: stk => run num_ok maxd nodup ts MNext (FObj (obj_set acc k w) k :: stk)
    end = JOk v rest → (depth v ≤ maxd)%nat).
  { intros w [|[acc|acc k] stk'] Hw Hst; cbn [List.length] in Hw.
    - intros [= <- _]. lia.
    - destruct Hst as [Hf Hst]. apply IH; [done|]. split; [by apply fits_snoc|done].
    - destruct Hst as [Hf Hst]. apply IH; [done|]. split; [by apply fits_set|done]. }
  assert (Hlen : (List.length stk ≤ maxd)%nat).
  { destruct stk as [|f stk]; [cbn; lia|]. destruct Hstk as [[H0 _] _]. done. }
  assert (Hfresh : (maxd <=? List.length stk)%nat = false → fits maxd (List.length stk) []).
  { intros H0%Nat.leb_gt. split; [lia|]. by intros x ?%not_elem_of_nil. }
  cbn [run]. destruct m as [| |acc| |acc k|].
  - destruct t; try done; try (apply Hc; [cbn; lia|done]).
    + destruct (_ <=? _)%nat eqn:E; [done|]. apply IH; [by apply Hfresh|done].
    + destruct (_ <=? _)%nat eqn:E; [done|]. apply IH; [done|]. split; [by apply Hfresh|done].
    + destruct (num_ok lit); [|done]. apply Hc; [cbn; lia|done].
  - destruct t; try done; try (apply Hc; [cbn; lia|done]).
    + destruct (_ <=? _)%nat eqn:E; [done|]. apply IH; [by apply Hfresh|done].
    + destruct (_ <=? _)%nat eqn:E; [done|]. apply IH; [done|]. split; [by apply Hfresh|done].
    + destruct stk as [|[acc|acc k] stk]; try done. destruct Hstk as [Hf Hst]. apply Hc; [by apply fits_arr|done].
    + destruct (num_ok lit); [|done]. apply Hc; [cbn; lia|done].
  - destruct t; try done. destruct (dup_key _ _ _ _); [done|]. by apply IH.
  - destruct t; try done.
    + apply Hc; [|done]. apply (fits_obj maxd _ []). done.
    + destruct (dup_key _ _ _ _); [done|]. by apply IH.
  - destruct t; try done. by apply IH.
  - destruct t; try done.
    + destruct stk as [|[acc|acc k] stk]; try done. destruct Hstk as [Hf Hst]. apply Hc; [by apply fits_obj|done].
    + destruct stk as [|[acc|acc k] stk]; try done. destruct Hstk as [Hf Hst]. apply Hc; [by apply fits_arr|done].
    + destruct stk as [|[acc|acc k] stk]; try done; [by apply IH|]. destruct Hstk as [Hf Hst]. by apply IH.
Qed.

(** What the decoder accepts, it reads back from its own encoding. *)
Lemma json_decode_canonical num_ok s v :
  json_decode num_ok s = Some v → json_decode num_ok (json_encode v) = Some v.
Proof.
  unfold json_decode at 1. destruct (run _ _ _ (tokens s) MVal []) as [w rest| |] eqn:E; [|done..].
  destruct rest; [|done]. intros [= <-]. apply json_decode_encode.
  - eapply (run_wf num_ok _ _ (tokens s) MVal []); [by apply lex_good|done|constructor|exact E].
  - eapply run_depth; [| |exact E]; done.
Qed.

(** The nesting of a text: how many containers are open at once. *)
Fixpoint nest (open : nat) (ts : list token) : nat :=
  match ts with
  | [] => open
  | t :: ts =>
      Nat.max open (nest (match t with TLBrace | TLBrack => S open
                          | TRBrace | TRBrack => pred open | _ => open end) ts)
  end.

Definition opened (m : mode) (stk : list frame) : nat :=
  match m with MKey _ | MKeyOrEnd | MColon _ _ => S (List.length stk) | _ => List.length stk end.

Lemma nest_ge o ts : (o ≤ nest o ts)%nat.
Proof. destruct ts; cbn [nest]; lia. Qed.

(** A text one decoder accepts, another with fewer restrictions on numbers and
    keys accepts exactly when it does not nest too deep for it. *)
Lemma run_nest n1 d1 b1 n2 d2 ts m stk v :
  (∀ l, n1 l = true → n2 l = true) → (opened m stk ≤ d2)%nat →
  run n1 d1 b1 ts m stk = JOk v [] →
  run n2 d2 false ts m stk = if (nest (opened m stk) ts <=? d2)%nat then JOk v [] else JBad.
Proof.
  intros Hn. revert m stk. induction ts as [|t ts IH]; intros m stk Ho; [done|].
  assert (Hstep : ∀ o x, ((Nat.max o x <=? d2) = (x <=? d2))%nat ∨ (d2 < o)%nat).
  { intros o x. destruct (Nat.leb_spec x d2), (Nat.leb_spec (Nat.max o x) d2); solve [by left|right; lia|lia]. }
  assert (Hc : ∀ w stk o, o = List.length stk → (o ≤ d2)%nat →
    match stk with [] => JOk w ts
    | FArr acc :: stk => run n1 d1 b1 ts MNext (FArr (acc ++ [w]) :: stk)
    | FObj acc k :: stk => run n1 d1 b1 ts MNext (FObj (obj_set acc k w) k :: stk) end = JOk v [] →
    match stk with [] => JOk w ts
    | FArr acc :: stk => run n2 d2 false ts MNext (FArr (acc ++ [w]) :: stk)
    | FObj acc k :: stk => run n2 d2 false ts MNext (FObj (obj_set acc k w) k :: stk) end =
    if (nest o ts <=? d2)%nat then JOk v [] else JBad).
  { intros w [|[acc|acc k] stk'] o -> Hle.
    - intros [= <- ->]. cbn [nest List.length] in *. by rewrite (proj2 (Nat.leb_le 0 d2)) by lia.
    - by apply (IH MNext (FArr (acc ++ [w]) :: stk')).
    - by apply (IH MNext (FObj (obj_set acc k w) k :: stk')). }
  assert (Hopen : ∀ o m' stk', opened m' stk' = S o → (o ≤ d2)%nat →
    run n1 d1 b1 ts m' stk' = JOk v [] →
    (if (d2 <=? o)%nat then JBad else run n2 d2 false ts m' stk') =
    if (nest (S o) ts <=? d2)%nat then JOk v [] else JBad).
  { intros o m' stk' Hop Hle Hr. pose proof (nest_ge (S o) ts) as Hge.
    destruct (Nat.leb_spec d2 o).
    - by rewrite (proj2 (Nat.leb_gt _ _)) by lia.
    - rewrite <- Hop. apply IH; [lia|done]. }
  cbn [nest]. destruct (Hstep (opened m stk) (nest (match t with TLBrace | TLBrack => S (opened m stk)
    | TRBrace | TRBrack => pred (opened m stk) | _ => opened m stk end) ts)) as [->|?]; [|lia].
  cbn [run]. unfold dup_key at 3 4. cbn [andb].
  destruct m as [| |acc| |acc k|]; cbn [opened] in Ho |- *.
  - destruct t; try done; try (by apply Hc);
      try (destruct (d1 <=? _)%nat; [done|]; by apply Hopen).
    destruct (n1 lit) eqn:E; [|done]. rewrite Hn by done. by apply Hc.
  - destruct t; try done; try (by apply Hc);
      try (destruct (d1 <=? _)%nat; [done|]; by apply Hopen).
    + destruct stk as [|[acc|acc k] stk]; try done. cbn [List.length pred]. apply Hc; [done|]. cbn in Ho. lia.
    + destruct (n1 lit) eqn:E; [|done]. rewrite Hn by done. by apply Hc.
  - destruct t; try done. destruct (dup_key b1 stk acc s); [done|]. by apply (IH (MColon acc s) stk).
  - destruct t; try done.
    + cbn [pred]. apply Hc; [done|lia].
    + destruct (dup_key b1 stk [] s); [done|]. by apply (IH (MColon [] s) stk).
  - destruct t; try done. by apply (IH MVal (FObj acc k :: stk)).
  - destruct t; try done; destruct stk as [|[acc|acc k] stk]; try done; cbn [List.length pred] in *.
    + apply Hc; [done|lia].
    + apply Hc; [done|lia].
    + by apply (IH MVal (FArr acc :: stk)).
    + by apply (IH (MKey acc) stk).
Qed.
