(* ===== verification/JsonCompact.v ===== *)
(** * json.Compact

    The removal of white space outside strings, and the fact the callers rely
    on: it does not change what a decoder reads. *)

From S2P Require Import Prelude GoStd Json.

Open Scope string_scope.
Open Scope Z_scope.
Open Scope list_scope.

(** Outside a string, inside one, or after a backslash there. *)
Inductive place := Outside | Inside | Escaped.

Definition place_step (p : place) (c : ascii) : place :=
  match p with
  | Outside => if Ascii.eqb c dquote then Inside else Outside
  | Inside => if Ascii.eqb c dquote then Outside else if Ascii.eqb c backslash then Escaped else Inside
  | Escaped => Inside
  end.

Fixpoint compact_from (p : place) (s : string) : string :=
  match s with
  | EmptyString => EmptyString
  | String c s =>
      match p with
      | Outside => if json_space c then compact_from Outside s else String c (compact_from (place_step p c) s)
      | _ => String c (compact_from (place_step p c) s)
      end
  end.

(** [None] when the text is not JSON. *)
Definition Compact (s : string) : option string :=
  if json_valid s then Some (compact_from Outside s) else None.

(** ** The tokens are those of the text *)

Definition is_word (t : token) : bool := match t with TNum _ => true | TBad => true | _ => false end.

(** No error, and no two numbers side by side, which white space alone would
    keep apart. *)
Fixpoint apart (ts : list token) : bool :=
  match ts with
  | [] => true
  | TBad :: _ => false
  | TNum _ :: ((t :: _) as ts) => negb (is_word t) && apart ts
  | _ :: ts => apart ts
  end.

Lemma apart_cons t ts : apart (t :: ts) = true → apart ts = true.
Proof. destruct t; cbn; try done. destruct ts; [done|]. by intros [_ ?]%andb_prop. Qed.

Lemma apart_app a b : apart (a ++ b) = true → apart b = true.
Proof. induction a as [|t a IH]; [done|]. intros H%apart_cons. auto. Qed.

(** What a decoder accepts whole has its numbers apart. *)
Lemma run_MNext_head num_ok maxd nodup ts stk v rest :
  run num_ok maxd nodup ts MNext stk = JOk v rest → match ts with t :: _ => is_word t = false | [] => False end.
Proof. destruct ts as [|t ts]; [done|]. by destruct t. Qed.

Lemma run_apart num_ok maxd nodup ts m stk v :
  run num_ok maxd nodup ts m stk = JOk v [] → apart ts = true.
Proof.
  revert m stk. induction ts as [|t ts IH]; intros m stk; [done|]. cbn [run].
  assert (Hc : ∀ w stk, is_word t = false → 
    match stk with [] => JOk w ts
    | FArr acc :: stk => run num_ok maxd nodup ts MNext (FArr (acc ++ [w]) :: stk)
    | FObj acc k :: stk => run num_ok maxd nodup ts MNext (FObj (obj_set acc k w) k :: stk) end = JOk v [] →
    apart (t :: ts) = true).
  { intros w [|[acc|acc k] stk'] Ht Hr.
    - injection Hr as _ ->. by destruct t.
    - apply IH in Hr. by destruct t.
    - apply IH in Hr. by destruct t. }
  assert (Hn : ∀ n w stk, t = TNum n →
    match stk with [] => JOk w ts
    | FArr acc :: stk => run num_ok maxd nodup ts MNext (FArr (acc ++ [w]) :: stk)
    | FObj acc k :: stk => run num_ok maxd nodup ts MNext (FObj (obj_set acc k w) k :: stk) end = JOk v [] →
    apart (t :: ts) = true).
  { intros n w [|[acc|acc k] stk'] -> Hr.
    - by injection Hr as _ ->.
    - pose proof (run_MNext_head _ _ _ _ _ _ _ Hr) as Hh. apply IH in Hr. destruct ts as [|u ts]; [done|]. cbn [apart]. by rewrite Hh.
    - pose proof (run_MNext_head _ _ _ _ _ _ _ Hr) as Hh. apply IH in Hr. destruct ts as [|u ts]; [done|]. cbn [apart]. by rewrite Hh. }
  destruct m as [| |acc| |acc k|].
  - destruct t; try done; try (by apply Hc);
      try (destruct (maxd <=? _)%nat; [done|]; apply IH).
    destruct (num_ok lit); [|done]. by eapply Hn.
  - destruct t; try done; try (by apply Hc);
      try (destruct (maxd <=? _)%nat; [done|]; apply IH).
    + destruct stk as [|[acc|acc k] stk]; try done. by apply Hc.
    + destruct (num_ok lit); [|done]. by eapply Hn.
  - destruct t; try done. destruct (dup_key _ _ _ _); [done|]. apply IH.
  - destruct t; try done; [by apply Hc|]. destruct (dup_key _ _ _ _); [done|]. apply IH.
  - destruct t; try done. apply IH.
  - destruct t; try done; destruct stk as [|[acc|acc k] stk]; try done; try (by apply Hc); apply IH.
Qed.

(** Where the scanner is. *)
Definition place_of (st : lexst) : place :=
  match st with LStr _ | LEscU _ _ _ => Inside | LEsc _ => Escaped | _ => Outside end.

(** A byte that would continue a number does not begin another token. *)
Lemma num_step_start nst c : num_final nst = true → ∀ nst', num_step nst c = Some nst' → ∀ u,
  match lex LStart (String c u) with t :: _ => is_word t = true | [] => False end.
Proof.
  intros Hf nst' Hs u.
  assert (Hcases : is_digit_b c = true ∨ c = "."%char ∨ c = "e"%char ∨ c = "E"%char).
  { destruct (is_digit_b c) eqn:Hd; [by left|right].
    destruct (Ascii.eqb_spec c "."); [by left|right]. destruct (Ascii.eqb_spec c "e"); [by left|right].
    destruct (Ascii.eqb_spec c "E"); [done|]. exfalso.
    destruct nst; try done; cbn [num_step] in Hs; rewrite ?Hd, ?(proj2 (Ascii.eqb_neq c ".")), ?(proj2 (Ascii.eqb_neq c "e")), ?(proj2 (Ascii.eqb_neq c "E")) in Hs by done; done. }
  assert (Hnum : ∀ u st acc, match lex (LNum st acc) u with t :: _ => is_word t = true | [] => False end).
  { clear. induction u as [|d u IH]; intros st acc; cbn [lex lex_step].
    - cbn. by destruct (num_final st).
    - destruct (num_step st d) as [st'|]; [apply IH|]. destruct (num_final st); [|done].
      by destruct (lex_start d) as [ts st']. }
  destruct Hcases as [Hd|[-> |[-> | ->]]]; [|done..].
  assert (Hne : ∀ x, is_digit_b x = false → Ascii.eqb c x = false).
  { intros x Hx. destruct (Ascii.eqb_spec c x) as [->|]; [by rewrite Hd in Hx|done]. }
  assert (Hsp : json_space c = false).
  { unfold json_space. unfold is_digit_b, in_range in Hd. lia. }
  cbn [lex lex_step]. unfold lex_start. rewrite Hsp, !Hne by done. destruct (Ascii.eqb c "0"); [apply Hnum|]. rewrite Hd. apply Hnum.
Qed.

Lemma num_end nst acc u :
  num_final nst = true → (match lex LStart u with t :: _ => is_word t = false | [] => True end) →
  lex (LNum nst acc) u = TNum acc :: lex LStart u.
Proof.
  intros Hf Hu. destruct u as [|c u]; [cbn; by rewrite Hf|].
  destruct (num_step nst c) as [nst'|] eqn:Hs.
  - exfalso. pose proof (num_step_start nst c Hf nst' Hs u) as Hw. destruct (lex LStart (String c u)); congruence.
  - cbn [lex lex_step]. rewrite Hs, Hf. by destruct (lex_start c).
Qed.

Lemma space_not_num nst c : json_space c = true → num_step nst c = None ∧ lex_start c = ([], Some LStart).
Proof.
  intros Hc. split; [|unfold lex_start; by rewrite Hc].
  assert (Hne : ∀ x, json_space x = false → Ascii.eqb c x = false).
  { intros x Hx. destruct (Ascii.eqb_spec c x) as [->|]; [congruence|done]. }
  assert (Hd : is_digit_b c = false) by (unfold json_space in Hc; unfold is_digit_b, in_range; lia).
  destruct nst; cbn [num_step]; rewrite ?Hne by done; rewrite ?Hd; done.
Qed.

(** The rest of a literal holds no quote and no space. *)
Definition lit_byte (c : ascii) : bool := negb (Ascii.eqb c dquote) && negb (json_space c).

Definition lit_ok (st : lexst) : bool := match st with LLit todo _ => s_all lit_byte todo | _ => true end.

(** One byte of a token outside strings, or of a string: the place follows
    the scanner. *)
Lemma start_place c ts st : lex_start c = (ts, Some st) → place_of st = place_step Outside c ∧ lit_ok st = true.
Proof.
  unfold lex_start, place_step. destruct (json_space c) eqn:Hs.
  { intros [= _ <-]. by destruct (Ascii.eqb_spec c dquote) as [->|]. }
  repeat match goal with |- context [Ascii.eqb c ?x] => destruct (Ascii.eqb_spec c x) as [->|?] end;
    try (by intros [= _ <-]). destruct (is_digit_b c); by intros [= _ <-].
Qed.

Lemma place_next st c ts st' : lit_ok st = true → lex_step st c = (ts, Some st') →
  place_of st' = place_step (place_of st) c ∧ lit_ok st' = true.
Proof.
  destruct st as [|acc|acc|acc n v|nst acc|todo tok]; cbn [lex_step place_of]; intros Hok Hl.
  - by eapply start_place.
  - unfold place_step. destruct (Ascii.eqb c dquote); [by injection Hl as _ <-|].
    destruct (Ascii.eqb c backslash); [by injection Hl as _ <-|]. destruct (bz c <? 32); [done|]. by injection Hl as _ <-.
  - unfold place_step. destruct (Ascii.eqb c "u"); [by injection Hl as _ <-|]. destruct (esc_byte c); [|done]. by injection Hl as _ <-.
  - destruct (hex_value c) eqn:Hh; [|done]. unfold place_step.
    destruct (Ascii.eqb_spec c dquote) as [->|]; [done|]. destruct (Ascii.eqb_spec c backslash) as [->|]; [done|].
    destruct (n =? 3)%nat; by injection Hl as _ <-.
  - destruct (num_step nst c) eqn:Hn.
    + injection Hl as _ <-. cbn [place_of lit_ok]. unfold place_step.
      destruct (Ascii.eqb_spec c dquote) as [->|]; [by destruct nst|done].
    + destruct (num_final nst); [|done]. destruct (lex_start c) as [ts0 st0] eqn:E. injection Hl as _ ->. by eapply start_place.
  - destruct todo as [|d rest]; [done|]. cbn [lit_ok s_all] in Hok. apply andb_prop in Hok as [Hd Hr].
    unfold lit_byte in Hd. apply andb_prop in Hd as [Hq _]. apply negb_true_iff in Hq. unfold place_step.
    destruct rest as [|e rest]; (destruct (Ascii.eqb_spec c d) as [->|]; [|done]); injection Hl as _ <-; by rewrite Hq.
Qed.

Lemma lex_compact st s : lit_ok st = true → apart (lex st s) = true → lex st (compact_from (place_of st) s) = lex st s.
Proof.
  revert st. induction s as [|c s IH]; intros st Hok Ha; [done|].
  destruct (json_space c && match place_of st with Outside => true | _ => false end) eqn:Hsp.
  - apply andb_prop in Hsp as [Hc Hp]. assert (Hpl : place_of st = Outside) by (by destruct (place_of st)).
    assert (Hcomp : compact_from (place_of st) (String c s) = compact_from Outside s) by (rewrite Hpl; cbn [compact_from]; by rewrite Hc).
    rewrite Hcomp. clear Hcomp. destruct st as [|acc|acc|acc n v|nst acc|todo tok]; try done.
    + cbn [lex lex_step] in *. destruct (space_not_num N0 c Hc) as [_ Hst]. rewrite Hst in *. cbn [app] in *. by apply (IH LStart).
    + cbn [lex lex_step] in *. destruct (space_not_num nst c Hc) as [Hn Hst]. rewrite Hn, Hst in *.
      destruct (num_final nst) eqn:Hf; [|done]. cbn [app] in *.
      assert (Hi : lex LStart (compact_from Outside s) = lex LStart s) by (apply (IH LStart); [done|by eapply apart_cons]).
      rewrite <- Hi. apply num_end; [done|]. rewrite Hi. cbn [apart] in Ha. destruct (lex LStart s) as [|t ts]; [done|].
      apply andb_prop in Ha as [Ha _]. by apply negb_true_iff in Ha.
    + cbn [lex lex_step] in *. destruct todo as [|d rest]; [done|]. cbn [lit_ok s_all] in Hok. apply andb_prop in Hok as [Hd _].
      unfold lit_byte in Hd. assert (Ascii.eqb c d = false) as Hne.
      { destruct (Ascii.eqb_spec c d) as [->|]; [|done]. rewrite Hc in Hd. by rewrite andb_false_r in Hd. }
      rewrite Hne in Ha. by destruct rest.
  - assert (Hcomp : compact_from (place_of st) (String c s) = String c (compact_from (place_step (place_of st) c) s)).
    { cbn [compact_from]. destruct (place_of st); [|done..]. rewrite andb_true_r in Hsp. by rewrite Hsp. }
    rewrite Hcomp. cbn [lex] in *. destruct (lex_step st c) as [ts [st'|]] eqn:Hl; [|done].
    destruct (place_next st c ts st' Hok Hl) as [Hp Hok']. rewrite <- Hp. f_equal. apply IH; [done|]. by eapply apart_app.
Qed.

(** What Compact writes reads as the text it was given. *)
Lemma Compact_tokens s t : Compact s = Some t → tokens t = tokens s.
Proof.
  unfold Compact, json_valid, json_decode. destruct (run _ _ _ _ _ _) as [v [|r rest]| |] eqn:E; try done. intros [= <-].
  apply run_apart in E. by apply (lex_compact LStart).
Qed.

Example ex_compact : Compact " [ 1 , 2e3 ,
 true]" = Some "[1,2e3,true]" ∧ Compact "1 2" = None.
Proof. split; reflexivity. Qed.
