(* ===== verification/JsonMarshal.v ===== *)
(** * json.Marshal and its inverse: encoding/json with HTML escaping

    [marshal] writes a tree whose objects keep the order of their keys, as
    json.Marshal writes a struct; [coerced] is the tree with every string made
    valid UTF-8, which is what the text says; [normal] is the tree with sorted
    keys, which is what decoding into [any] gives. *)

From S2P Require Import Prelude GoStd Json.

Open Scope string_scope.
Open Scope Z_scope.
Open Scope list_scope.

Definition html_rune (r : Z) : bool := (r =? 60) || (r =? 62) || (r =? 38).

Definition html_piece (p : Z * string) : string :=
  if html_rune (fst p) then esc_u (fst p) else enc_piece p.

Definition html_string (s : string) : string :=
  String dquote (concat_str (map html_piece (runes s)) ++ String dquote EmptyString)%string.

Fixpoint marshal (v : any) : string :=
  match v with
  | ANil => "null"
  | ABool b => if b then "true" else "false"
  | ANum n => n
  | AStr s => html_string s
  | AStrs l => ("[" ++ join "," (map html_string l) ++ "]")%string
  | AArr l => ("[" ++ join "," (map marshal l) ++ "]")%string
  | AObj l =>
      ("{" ++ join "," (map (λ kv, html_string (fst kv) ++ ":" ++ marshal (snd kv)) l) ++ "}")%string
  end.

Fixpoint coerced (v : any) : any :=
  match v with
  | AStr s => AStr (coerce_utf8 s)
  | AStrs l => AArr (map (λ s, AStr (coerce_utf8 s)) l)
  | AArr l => AArr (map coerced l)
  | AObj l => AObj (map (λ kv, (coerce_utf8 (fst kv), coerced (snd kv))) l)
  | _ => v
  end.

Fixpoint normal (v : any) : any :=
  match v with
  | AArr l => AArr (map normal l)
  | AObj l => AObj (set_all [] (map (λ kv, (fst kv, normal (snd kv))) l))
  | _ => v
  end.

(** Every number is a literal; no [AStrs] once coerced. *)
Fixpoint numbers_ok (v : any) : bool :=
  match v with
  | ANum n => num_lit n
  | AArr l => forallb numbers_ok l
  | AObj l => forallb (λ kv, numbers_ok (snd kv)) l
  | _ => true
  end.

Fixpoint plain (v : any) : bool :=
  match v with
  | AStrs _ => false
  | AArr l => forallb plain l
  | AObj l => forallb (λ kv, plain (snd kv)) l
  | _ => true
  end.

(** ** Scanning *)

Definition html_units (p : Z * string) : list sunit :=
  if bad_rune p then [UEsc RuneError] else if html_rune (fst p) then [UEsc (fst p)] else piece_units p.

Lemma lex_html_piece acc p t :
  (bad_rune p = false → good_piece p) →
  lex (LStr acc) (html_piece p ++ t) = lex (LStr (acc ++ html_units p)) t.
Proof.
  intros Hg. unfold html_piece, html_units. destruct (bad_rune p) eqn:Hb.
  - assert (fst p = RuneError) as Hr by (unfold bad_rune in Hb; apply andb_prop in Hb as [Hb _]; lia).
    rewrite Hr. change (html_rune RuneError) with false. cbn [orb]. unfold enc_piece. rewrite Hb.
    apply lex_esc_u. unfold RuneError. lia.
  - destruct (html_rune (fst p)) eqn:Hh; [|apply lex_piece; auto].
    apply lex_esc_u. unfold html_rune in Hh. lia.
Qed.

Lemma lex_html_pieces ps acc t :
  (∀ p, p ∈ ps → bad_rune p = false → good_piece p) →
  lex (LStr acc) (concat_str (map html_piece ps) ++ String dquote t) =
  TStr (units_string (acc ++ mjoin (map html_units ps))) :: lex LStart t.
Proof.
  revert acc. induction ps as [|p ps IH]; intros acc Hps.
  { cbn. by rewrite app_nil_r. }
  cbn [map concat_str foldr]. rewrite <- app_assoc_str, lex_html_piece by (apply Hps; by left).
  change (foldr String.append EmptyString (map html_piece ps)) with (concat_str (map html_piece ps)).
  rewrite IH by (intros q Hq; apply Hps; by right).
  cbn [map mjoin list_join]. by rewrite <- app_assoc.
Qed.

Lemma units_bytes_html p l :
  (bad_rune p = false → good_piece p) →
  units_bytes (html_units p ++ l) =
  ((if bad_rune p then encode_rune RuneError else snd p) ++ units_bytes l)%string.
Proof.
  intros Hg. unfold html_units. destruct (bad_rune p) eqn:Hb; [done|].
  destruct (html_rune (fst p)) eqn:Hh; [|apply units_bytes_piece; auto].
  destruct (Hg eq_refl) as (Henc & _ & _). cbn [app units_bytes].
  assert (is_surrogate (fst p) = false) as ->.
  { unfold is_surrogate, in_range. unfold html_rune in Hh. apply andb_false_iff. left. apply Z.leb_gt. lia. }
  by rewrite Henc.
Qed.

Lemma lex_html_string s t : lex LStart (html_string s ++ t) = TStr (coerce_utf8 s) :: lex LStart t.
Proof.
  unfold html_string.
  change (String dquote ?x ++ t)%string with (String dquote (x ++ t)%string).
  change (lex LStart (String dquote ?x)) with (lex (LStr []) x).
  rewrite <- app_assoc_str. change (String dquote EmptyString ++ t)%string with (String dquote t).
  rewrite lex_html_pieces by (intros p Hp; by eapply runes_good).
  f_equal. f_equal. unfold units_string. cbn [app].
  assert (Hu : ∀ ps, (∀ p, p ∈ ps → bad_rune p = false → good_piece p) →
    units_bytes (mjoin (map html_units ps)) =
    concat_str (map (λ p, if bad_rune p then encode_rune RuneError else snd p) ps)).
  { clear. induction ps as [|p ps IH]; intros Hps; [done|]. cbn [map mjoin list_join concat_str foldr].
    rewrite units_bytes_html by (apply Hps; by left). f_equal. apply IH. intros q Hq. apply Hps. by right. }
  rewrite Hu by (intros p Hp; by eapply runes_good). fold (coerce_utf8 s).
  apply coerce_utf8_valid, coerce_utf8_is_valid.
Qed.

(** A marshalled tree is scanned as the tokens of the coerced tree. *)
Lemma lex_marshal v t :
  numbers_ok v = true → stops t → lex LStart (marshal v ++ t) = toks (coerced v) ++ lex LStart t.
Proof.
  revert t. induction v as [|b|n|s|l|l IH|l IH] using any_nested_ind; intros t Hw Ht.
  - done.
  - by destruct b.
  - by apply lex_num_lit.
  - apply lex_html_string.
  - cbn [marshal coerced toks]. rewrite <- app_assoc_str. change ("[" ++ ?x)%string with (String "[" x).
    change (lex LStart (String "[" ?x)) with (TLBrack :: lex LStart x).
    rewrite <- app_assoc_str. change ("]" ++ t)%string with (String "]" t).
    rewrite (lex_commas _ (λ s, [TStr (coerce_utf8 s)])) by (auto; intros x u _ _; apply lex_html_string).
    rewrite map_map. cbn [app]. by rewrite <- app_assoc.
  - cbn [marshal numbers_ok coerced toks] in *. rewrite Forall_forall in IH. rewrite forallb_elem in Hw.
    rewrite <- app_assoc_str. change ("[" ++ ?x)%string with (String "[" x).
    change (lex LStart (String "[" ?x)) with (TLBrack :: lex LStart x).
    rewrite <- app_assoc_str. change ("]" ++ t)%string with (String "]" t).
    rewrite (lex_commas _ (λ x, toks (coerced x))) by (auto; intros x u Hx Hu; apply IH; auto).
    rewrite map_map. cbn [app]. by rewrite <- app_assoc.
  - cbn [marshal numbers_ok coerced toks] in *. rewrite Forall_forall in IH. rewrite forallb_elem in Hw.
    rewrite <- app_assoc_str. change ("{" ++ ?x)%string with (String "{" x).
    change (lex LStart (String "{" ?x)) with (TLBrace :: lex LStart x).
    rewrite <- app_assoc_str. change ("}" ++ t)%string with (String "}" t).
    rewrite (lex_commas _ (λ kv, TStr (coerce_utf8 (fst kv)) :: TColon :: toks (coerced (snd kv)))).
    + rewrite map_map. cbn [app fst snd]. by rewrite <- app_assoc.
    + auto.
    + intros [k x] u Hx Hu. cbn [fst snd]. rewrite <- !app_assoc_str, lex_html_string.
      change (":" ++ ?y)%string with (String ":" y).
      change (lex LStart (String ":" ?y)) with (TColon :: lex LStart y).
      specialize (Hw _ Hx). cbn [snd] in Hw. by rewrite (IH _ Hx).
Qed.

(** ** Decoding *)

Section RunNormal.
Context (num_ok : string → bool) (maxd : nat).
Notation run := (run num_ok maxd false).
Notation feed := (feed num_ok maxd false).

Fixpoint numbers_in (v : any) : bool :=
  match v with
  | ANum n => num_ok n
  | AArr l => forallb numbers_in l
  | AObj l => forallb (λ kv, numbers_in (snd kv)) l
  | _ => true
  end.

Definition reads_as (v w : any) : Prop := ∀ ts stk,
  (List.length stk + depth v ≤ maxd)%nat → run (toks v ++ ts) MVal stk = feed w ts stk.

Lemma toks_plain_head v : plain v = true → ∃ t ts, toks v = t :: ts ∧ t ≠ TRBrack.
Proof. destruct v; cbn; eauto; done. Qed.

Lemma run_elems_as l x acc ts stk :
  (∀ y, y ∈ x :: l → reads_as y (normal y) ∧ (S (List.length stk) + depth y ≤ maxd)%nat) →
  run (commas (map toks (x :: l)) ++ TRBrack :: ts) MVal (FArr acc :: stk) =
  feed (AArr (acc ++ map normal (x :: l))) ts stk.
Proof.
  revert x acc. induction l as [|y l IH]; intros x acc Hl.
  - destruct (Hl x) as [Hx Hd]; [by left|]. cbn [map commas]. by rewrite Hx.
  - change (commas (map toks (x :: y :: l))) with (toks x ++ TComma :: commas (map toks (y :: l))).
    rewrite <- app_assoc. destruct (Hl x) as [Hx Hd]; [by left|]. rewrite Hx by done.
    cbn [Json.feed app]. etrans; [apply (IH y (acc ++ [normal x]))|].
    + intros z Hz. apply Hl. by right.
    + by rewrite <- app_assoc.
Qed.

Definition normal_entries (es : list (string * any)) : list (string * any) :=
  map (λ kv, (fst kv, normal (snd kv))) es.

Lemma run_entries_as es k x acc ts stk :
  (∀ e, e ∈ (k, x) :: es → reads_as (snd e) (normal (snd e)) ∧ (S (List.length stk) + depth (snd e) ≤ maxd)%nat) →
  run (commas (map entry_toks ((k, x) :: es)) ++ TRBrace :: ts) (MKey acc) stk =
  feed (AObj (set_all acc (normal_entries ((k, x) :: es)))) ts stk.
Proof.
  revert k x acc. induction es as [|[k2 y] es IH]; intros k x acc Hw.
  - destruct (Hw (k, x)) as [Hx Hd]; [by left|]. cbn [snd] in *. cbn [map commas].
    unfold entry_toks. cbn [fst snd app Json.run]. by rewrite Hx.
  - change (commas (map entry_toks ((k, x) :: (k2, y) :: es)))
      with (TStr k :: TColon :: toks x ++ TComma :: commas (map entry_toks ((k2, y) :: es))).
    destruct (Hw (k, x)) as [Hx Hd]; [by left|]. cbn [snd] in *.
    cbn [app Json.run]. unfold dup_key. cbn [andb]. rewrite <- app_assoc, Hx by done. cbn [Json.feed app Json.run].
    rewrite IH by (intros e He; apply Hw; by right). done.
Qed.

Lemma run_normal v : plain v = true → numbers_in v = true → reads_as v (normal v).
Proof.
  induction v as [|b|n|s|l|l IH|l IH] using any_nested_ind; intros Hp Hn ts stk Hd.
  - by destruct stk as [|[]].
  - by destruct stk as [|[]].
  - cbn in Hn |- *. rewrite Hn. by destruct stk as [|[]].
  - by destruct stk as [|[]].
  - done.
  - rewrite Forall_forall in IH. cbn [plain numbers_in] in Hp, Hn. rewrite forallb_elem in Hp, Hn.
    assert (Hlt : (maxd <=? List.length stk)%nat = false) by (apply Nat.leb_gt; cbn [depth] in Hd; lia).
    destruct l as [|x l].
    { cbn [toks map commas app Json.run]. rewrite Hlt. by destruct stk as [|[]]. }
    etrans; [|apply (run_elems_as l x [] ts stk)].
    + destruct (toks_plain_head x) as (t & u & Ht & Hne); [apply Hp; by left|].
      cbn [toks app]. rewrite <- app_assoc. cbn [app Json.run]. rewrite Hlt.
      assert (Hh : ∃ u', commas (map toks (x :: l)) = t :: u').
      { cbn [map commas]. destruct (map toks l); rewrite Ht; cbn; eauto. }
      destruct Hh as [u' ->]. cbn [app]. by apply run_MValOrEnd.
    + intros y Hy. split; [by apply IH; auto|]. pose proof (depth_elem _ _ Hy). lia.
  - rewrite Forall_forall in IH. cbn [plain numbers_in] in Hp, Hn. rewrite forallb_elem in Hp, Hn.
    assert (Hlt : (maxd <=? List.length stk)%nat = false) by (apply Nat.leb_gt; cbn [depth] in Hd; lia).
    destruct l as [|[k x] l].
    { cbn [toks map commas app Json.run]. rewrite Hlt. by destruct stk as [|[]]. }
    etrans; [|apply (run_entries_as l k x [] ts stk)].
    + cbn [toks app]. rewrite <- app_assoc. cbn [app Json.run]. rewrite Hlt.
      cbn [map commas fst snd]. by destruct (map _ l).
    + intros e He. split; [apply IH; auto|]. pose proof (depth_entry _ _ He). lia.
Qed.
End RunNormal.

Lemma numbers_any v : numbers_in any_number v = true.
Proof.
  induction v as [|b|n|s|l|l IH|l IH] using any_nested_ind; try done; cbn [numbers_in]; apply forallb_elem;
    rewrite Forall_forall in IH; auto.
Qed.

Lemma coerced_plain v : plain (coerced v) = true.
Proof.
  induction v as [|b|n|s|l|l IH|l IH] using any_nested_ind; try done; cbn [coerced plain]; apply forallb_elem.
  - by intros x (s & -> & _)%list_elem_of_fmap.
  - intros x (y & -> & Hy)%list_elem_of_fmap. rewrite Forall_forall in IH. auto.
  - intros x (y & -> & Hy)%list_elem_of_fmap. rewrite Forall_forall in IH. cbn [snd]. auto.
Qed.

(** Decoding a marshalled tree gives its coerced tree with sorted keys. *)
Lemma decode_marshal v :
  numbers_ok v = true → (depth (coerced v) ≤ maxNestingDepth)%nat →
  json_decode any_number (marshal v) = Some (normal (coerced v)).
Proof.
  intros Hw Hd. unfold json_decode, tokens.
  rewrite <- (app_nil_r_str (marshal v)), lex_marshal by (done || by left).
  rewrite (run_normal any_number maxNestingDepth (coerced v) (coerced_plain v) (numbers_any _)) by done. done.
Qed.

(** ** Objects as json.Unmarshal walks them: the entries in order, each with
    the tokens of its value *)

(** The entries after "{" or a comma.  Each turn consumes a token, so the
    number of tokens is fuel enough. *)
Fixpoint walk_entries (fuel : nat) (ts : list token) : option (list (string * list token)) :=
  match fuel, ts with
  | S fuel, TStr k :: TColon :: ts =>
      match run any_number maxNestingDepth false ts MVal [] with
      | JOk _ rest =>
          let v := take (List.length ts - List.length rest) ts in
          match rest with
          | TComma :: rest => cons (k, v) <$> walk_entries fuel rest
          | [TRBrace] => Some [(k, v)]
          | _ => None
          end
      | _ => None
      end
  | _, _ => None
  end.

Definition object_entries (ts : list token) : option (list (string * list token)) :=
  match ts with
  | [TLBrace; TRBrace] => Some []
  | TLBrace :: ts => walk_entries (List.length ts) ts
  | _ => None
  end.

(** The elements of an array of values. *)
Fixpoint walk_elems (fuel : nat) (ts : list token) : option (list (list token)) :=
  match fuel with
  | O => None
  | S fuel =>
      match run any_number maxNestingDepth false ts MVal [] with
      | JOk _ rest =>
          let v := take (List.length ts - List.length rest) ts in
          match rest with
          | TComma :: rest => cons v <$> walk_elems fuel rest
          | [TRBrack] => Some [v]
          | _ => None
          end
      | _ => None
      end
  end.

Definition array_elems (ts : list token) : option (list (list token)) :=
  match ts with
  | [TLBrack; TRBrack] => Some []
  | TLBrack :: ts => walk_elems (List.length ts) ts
  | _ => None
  end.

(** ** The walk over a marshalled object and array *)

Lemma walk_value v rest :
  plain v = true → (depth v ≤ maxNestingDepth)%nat →
  run any_number maxNestingDepth false (toks v ++ rest) MVal [] = JOk (normal v) rest.
Proof. intros Hp Hd. by rewrite (run_normal any_number maxNestingDepth v Hp (numbers_any v)). Qed.

Lemma take_toks (v rest : list token) : take (List.length (v ++ rest) - List.length rest) (v ++ rest) = v.
Proof. rewrite length_app. replace (_ - _)%nat with (List.length v) by lia. apply take_app_length. Qed.

Lemma walk_entries_toks es k x fuel :
  (List.length ((k, x) :: es) ≤ fuel)%nat →
  (∀ e, e ∈ (k, x) :: es → plain (snd e) = true ∧ (depth (snd e) ≤ maxNestingDepth)%nat) →
  walk_entries fuel (commas (map entry_toks ((k, x) :: es)) ++ [TRBrace]) =
  Some (map (λ kv, (fst kv, toks (snd kv))) ((k, x) :: es)).
Proof.
  revert k x fuel. induction es as [|[k2 y] es IH]; intros k x fuel Hf Hes; (destruct fuel as [|fuel]; [cbn in Hf; lia|]);
    destruct (Hes (k, x)) as [Hp Hd]; try (by left); cbn [snd] in Hp, Hd.
  - cbn [map commas]. unfold entry_toks at 1. cbn [fst snd app walk_entries]. rewrite walk_value by done.
    by rewrite take_toks.
  - change (commas (map entry_toks ((k, x) :: (k2, y) :: es)))
      with (TStr k :: TColon :: toks x ++ TComma :: commas (map entry_toks ((k2, y) :: es))).
    cbn [app walk_entries]. rewrite <- app_assoc, walk_value by done. rewrite take_toks. cbn [app].
    rewrite IH; [done|cbn in Hf |- *; lia|]. intros e He. apply Hes. by right.
Qed.

Lemma length_commas {A} (tk : A → list token) l :
  (∀ x, (1 ≤ List.length (tk x))%nat) → (List.length l ≤ List.length (commas (map tk l)))%nat.
Proof.
  intros H1. induction l as [|x l IH]; [done|]. destruct l as [|y l]; [cbn; apply H1|].
  change (commas (map tk (x :: y :: l))) with (tk x ++ TComma :: commas (map tk (y :: l))).
  rewrite length_app. specialize (H1 x). cbn [List.length] in *. lia.
Qed.

Lemma object_entries_toks es :
  plain (AObj es) = true → (depth (AObj es) ≤ maxNestingDepth)%nat →
  object_entries (toks (AObj es)) = Some (map (λ kv, (fst kv, toks (snd kv))) es).
Proof.
  intros Hp Hd. cbn [plain] in Hp. rewrite forallb_elem in Hp. destruct es as [|[k x] es]; [done|].
  cbn [toks]. change (λ kv : string * any, TStr (fst kv) :: TColon :: toks (snd kv)) with entry_toks.
  unfold object_entries. set (ts := commas _ ++ [TRBrace]).
  assert (Hne : ∃ a b ts', ts = a :: b :: ts' ∧ a ≠ TRBrace).
  { unfold ts. cbn [map commas]. destruct (map entry_toks es); cbn; eauto. }
  assert (Hw : walk_entries (List.length ts) ts = Some (map (λ kv, (fst kv, toks (snd kv))) ((k, x) :: es))).
  { apply walk_entries_toks.
    - unfold ts. rewrite length_app. pose proof (length_commas entry_toks ((k, x) :: es) ltac:(intros y; cbn; lia)). lia.
    - intros e He. split; [by apply Hp|]. pose proof (depth_entry _ _ He). lia. }
  destruct Hne as (a & b & ts' & E & Hab). rewrite E in *. by destruct a.
Qed.

Lemma walk_elems_toks l x fuel :
  (List.length (x :: l) ≤ fuel)%nat →
  (∀ y, y ∈ x :: l → plain y = true ∧ (depth y ≤ maxNestingDepth)%nat) →
  walk_elems fuel (commas (map toks (x :: l)) ++ [TRBrack]) = Some (map toks (x :: l)).
Proof.
  revert x fuel. induction l as [|y l IH]; intros x fuel Hf Hl; (destruct fuel as [|fuel]; [cbn in Hf; lia|]);
    destruct (Hl x) as [Hp Hd]; try (by left).
  - cbn [map commas walk_elems]. rewrite walk_value by done. by rewrite take_toks.
  - change (commas (map toks (x :: y :: l))) with (toks x ++ TComma :: commas (map toks (y :: l))).
    cbn [walk_elems]. rewrite <- app_assoc, walk_value by done. rewrite take_toks. cbn [app].
    rewrite IH; [done|cbn in Hf |- *; lia|]. intros z Hz. apply Hl. by right.
Qed.

Lemma array_elems_strings l :
  array_elems (toks (AArr (map AStr l))) = Some (map (λ s, [TStr s]) l).
Proof.
  destruct l as [|x l]; [done|]. cbn [toks]. unfold array_elems. set (ts := commas _ ++ [TRBrack]).
  assert (Hne : ∃ b ts', ts = TStr x :: b :: ts').
  { unfold ts. cbn [map commas]. destruct (map toks (map AStr l)); cbn; eauto. }
  assert (Hw : walk_elems (List.length ts) ts = Some (map toks (map AStr (x :: l)))).
  { apply walk_elems_toks.
    - unfold ts. rewrite length_app.
      assert (Hm : map toks (map AStr (x :: l)) = map (λ s, [TStr s]) (x :: l)) by (by rewrite map_map).
      change (toks (AStr x) :: map toks (map AStr l)) with (map toks (map AStr (x :: l))). rewrite Hm.
      pose proof (length_commas (λ s, [TStr s]) (x :: l) ltac:(intros y; cbn; lia)) as Hc.
      etrans; [|etrans; [exact Hc|lia]]. apply Nat.eq_le_incl. cbn [List.length]. f_equal. apply length_map.
    - intros y (s & -> & _)%(list_elem_of_fmap AStr (x :: l)). split; [done|apply Nat.le_0_l]. }
  rewrite map_map in Hw. destruct Hne as (b & ts' & E). rewrite E in *. done.
Qed.

(** ** The text is one line of UTF-8 *)

Definition clean (s : string) : bool := valid_utf8 s && s_all (λ c, 32 <=? bz c) s.

Lemma clean_app a b : clean a = true → clean b = true → clean (a ++ b)%string = true.
Proof.
  unfold clean. intros [Ha1 Ha2]%andb_prop [Hb1 Hb2]%andb_prop. by rewrite valid_utf8_app, s_all_app, Ha2, Hb2.
Qed.

Lemma clean_concat l : (∀ x, x ∈ l → clean x = true) → clean (concat_str l) = true.
Proof.
  induction l as [|x l IH]; intros Hl; [done|]. apply clean_app; [apply Hl; by left|]. apply IH. intros y Hy. apply Hl. by right.
Qed.

Lemma clean_join sep l : clean sep = true → (∀ x, x ∈ l → clean x = true) → clean (join sep l) = true.
Proof.
  intros Hs. induction l as [|x [|y l] IH]; intros Hl; [done|apply Hl; by left|].
  change (join sep (x :: y :: l)) with (x ++ sep ++ join sep (y :: l))%string.
  apply clean_app; [apply Hl; by left|]. apply clean_app; [done|]. apply IH. intros z Hz. apply Hl. by right.
Qed.

Lemma hex_n_clean n z : clean (hex_n n z) = true.
Proof.
  unfold clean. rewrite (ascii_valid_utf8 _ (hex_n_ascii n z)). cbn [andb].
  induction n as [|n IH]; [done|]. cbn [hex_n s_all]. rewrite IH, andb_true_r.
  pose proof (Z.mod_pos_bound (z / 16 ^ Z.of_nat n) 16 ltac:(lia)).
  set (d := (z / 16 ^ Z.of_nat n) mod 16) in *. unfold hex_digit. apply Z.leb_le.
  destruct (Z.ltb_spec d 10); rewrite bz_zb; lia.
Qed.

Lemma esc_u_clean z : clean (esc_u z) = true.
Proof.
  unfold esc_u. change (String backslash (String "u" ?x)) with ((String backslash "u") ++ x)%string.
  apply clean_app; [done|apply hex_n_clean].
Qed.

Lemma html_piece_clean s p : p ∈ runes s → clean (html_piece p) = true.
Proof.
  intros Hp. unfold html_piece. destruct (html_rune (fst p)); [apply esc_u_clean|].
  unfold enc_piece. destruct (bad_rune p) eqn:Hb; [apply esc_u_clean|].
  destruct (runes_good s p Hp Hb) as (_ & Hlow & Hhigh).
  pose proof (valid_utf8_piece s p Hp Hb) as Hv.
  assert (Hc : (fst p <? 32) = false → clean (snd p) = true).
  { intros Hge%Z.ltb_ge. unfold clean. rewrite Hv. cbn [andb]. destruct (Z.lt_ge_cases (fst p) 128) as [Hl|Hl].
    - destruct (Hlow Hl) as [H0 ->]. cbn [s_all]. rewrite bz_zb by lia. apply andb_true_intro. split; [|done]. by apply Z.leb_le.
    - eapply s_all_impl; [|by apply Hhigh]. intros c Hc%Z.leb_le. apply Z.leb_le. lia. }
  destruct ((fst p =? 34) || (fst p =? 92)) eqn:Hq.
  { change (String backslash ?x) with (String backslash "" ++ x)%string. apply clean_app; [done|]. apply Hc. lia. }
  repeat (case_match; [done || apply esc_u_clean|]). by apply Hc.
Qed.

Lemma html_string_clean s : clean (html_string s) = true.
Proof.
  unfold html_string. change (String dquote ?x) with (String dquote EmptyString ++ x)%string.
  apply clean_app; [done|]. apply clean_app; [|done]. apply clean_concat.
  intros x (p & -> & Hp)%list_elem_of_fmap. by eapply html_piece_clean.
Qed.

(** The bytes a number literal is made of. *)
Definition number_byte (c : ascii) : bool :=
  is_digit_b c || Ascii.eqb c "+" || Ascii.eqb c "-" || Ascii.eqb c "." || Ascii.eqb c "e" || Ascii.eqb c "E".

Lemma num_lit_bytes n : num_lit n = true → s_all number_byte n = true.
Proof.
  assert (Hstep : ∀ st c st', num_step st c = Some st' → number_byte c = true).
  { intros st c st'. unfold num_step, number_byte. destruct (is_digit_b c) eqn:Hd; [done|].
    repeat match goal with |- context [Ascii.eqb c ?d] =>
      let E := fresh in destruct (Ascii.eqb_spec c d) as [->|E]; [try discriminate Hd; try (by rewrite ?orb_true_r)|] end.
    by destruct st. }
  assert (Hrun : ∀ r st st', num_run st r = Some st' → s_all number_byte r = true).
  { induction r as [|c r IH]; intros st st'; [done|]. cbn [num_run s_all].
    destruct (num_step st c) as [st1|] eqn:E; [|done]. intros Hr. rewrite (Hstep _ _ _ E). by eapply IH. }
  destruct n as [|c r]; [done|]. unfold num_lit. intros Hn. cbn [s_all].
  destruct (lex_start c) as [[|? ?] [ [ | | | |st acc| ]|]] eqn:E; try done.
  destruct (num_run st r) as [st'|] eqn:Hr; [|done]. rewrite (Hrun _ _ _ Hr), andb_true_r.
  destruct (number_byte c) eqn:Hnb; [done|]. exfalso. unfold number_byte in Hnb.
  rewrite !orb_false_iff in Hnb. destruct Hnb as [[[[[Hd _] Hm] _] _] _].
  unfold lex_start in E. rewrite Hd, Hm in E. repeat (case_match; simplify_eq; try done). by breflect; subst.
Qed.

Lemma num_lit_clean n : num_lit n = true → clean n = true.
Proof.
  intros Hn. unfold clean. rewrite (ascii_valid_utf8 _ (num_lit_ascii _ Hn)). cbn [andb].
  eapply s_all_impl; [|by apply num_lit_bytes]. intros c. unfold number_byte, is_digit_b, in_range.
  destruct (Z.leb_spec 32 (bz c)) as [|Hlt]; [done|].
  destruct (Z.leb_spec 48 (bz c)) as [|_]; [lia|]. cbn [andb orb].
  repeat match goal with |- context [Ascii.eqb c ?d] => destruct (Ascii.eqb_spec c d) as [->|_]; [done|] end. done.
Qed.

Lemma marshal_clean v : numbers_ok v = true → clean (marshal v) = true.
Proof.
  induction v as [|b|n|s|l|l IH|l IH] using any_nested_ind; intros Hw; cbn [marshal numbers_ok] in *.
  - done.
  - by destruct b.
  - by apply num_lit_clean.
  - apply html_string_clean.
  - repeat (apply clean_app; try done). apply clean_join; [done|].
    intros x (s & -> & _)%list_elem_of_fmap. apply html_string_clean.
  - rewrite Forall_forall in IH. rewrite forallb_elem in Hw. repeat (apply clean_app; try done).
    apply clean_join; [done|]. intros x (y & -> & Hy)%list_elem_of_fmap. auto.
  - rewrite Forall_forall in IH. rewrite forallb_elem in Hw. repeat (apply clean_app; try done).
    apply clean_join; [done|]. intros x (y & -> & Hy)%list_elem_of_fmap.
    apply clean_app; [apply html_string_clean|]. apply clean_app; [done|]. auto.
Qed.

Lemma trim_marshal_object l : numbers_ok (AObj l) = true → trim_space (marshal (AObj l)) = marshal (AObj l).
Proof.
  intros Hn. cbn [marshal]. set (m := join _ _). change ("{" ++ m ++ "}")%string with (String "{" (m ++ String "}" "")).
  apply trim_space_id; try done.
  assert (Hc : clean m = true); [|by apply andb_prop in Hc as [Hc _] ].
  unfold m. cbn [numbers_ok] in Hn. rewrite forallb_elem in Hn. apply clean_join; [done|].
  intros x (y & -> & Hy)%list_elem_of_fmap. apply clean_app; [apply html_string_clean|]. apply clean_app; [done|].
  apply marshal_clean. auto.
Qed.

(** ** Every token of a walk is a token of the text *)

Lemma run_rest num_ok maxd nodup ts m stk v rest :
  run num_ok maxd nodup ts m stk = JOk v rest → ∃ p, ts = p ++ rest.
Proof.
  revert m stk. induction ts as [|t ts IH]; intros m stk; [done|]. cbn [run].
  assert (Hr : ∀ m stk, run num_ok maxd nodup ts m stk = JOk v rest → ∃ p, t :: ts = p ++ rest).
  { intros m' stk' Hrun. destruct (IH _ _ Hrun) as [p ->]. by exists (t :: p). }
  assert (Hc : ∀ w stk,
    match stk with [] => JOk w ts
    | FArr acc :: stk => run num_ok maxd nodup ts MNext (FArr (acc ++ [w]) :: stk)
    | FObj acc k :: stk => run num_ok maxd nodup ts MNext (FObj (obj_set acc k w) k :: stk) end = JOk v rest →
    ∃ p, t :: ts = p ++ rest).
  { intros w [|[acc|acc k] stk']; [|apply Hr..]. intros [= _ ->]. by exists [t]. }
  destruct m as [| |acc| |acc k|].
  - destruct t; try done; try apply Hc; try (destruct (maxd <=? _)%nat; [done|]; apply Hr).
    destruct (num_ok lit); [|done]. apply Hc.
  - destruct t; try done; try apply Hc; try (destruct (maxd <=? _)%nat; [done|]; apply Hr).
    + destruct stk as [|[acc|acc k] stk]; try done. apply Hc.
    + destruct (num_ok lit); [|done]. apply Hc.
  - destruct t; try done. destruct (dup_key _ _ _ _); [done|]. apply Hr.
  - destruct t; try done; [apply Hc|]. destruct (dup_key _ _ _ _); [done|]. apply Hr.
  - destruct t; try done. apply Hr.
  - destruct t; try done; destruct stk as [|[acc|acc k] stk]; try done; try apply Hc; apply Hr.
Qed.

Section WalkGood.
Context (good : token → bool).

Lemma forallb_app_true {A} (p : A → bool) a b : forallb p (a ++ b) = true → forallb p a = true ∧ forallb p b = true.
Proof. rewrite forallb_app. apply andb_prop. Qed.

(** The value taken off [ts] and what is left. *)
Lemma value_good ts v rest :
  run any_number maxNestingDepth false ts MVal [] = JOk v rest → forallb good ts = true →
  forallb good (take (List.length ts - List.length rest) ts) = true ∧ forallb good rest = true.
Proof.
  intros [p ->]%run_rest [Hp Hr]%forallb_app_true. rewrite length_app.
  replace (_ - _)%nat with (List.length p) by lia. by rewrite take_app_length.
Qed.

Lemma walk_entries_good fuel ts es :
  walk_entries fuel ts = Some es → forallb good ts = true → ∀ e, e ∈ es → forallb good (snd e) = true.
Proof.
  revert ts es. induction fuel as [|fuel IH]; intros ts es; [by destruct ts|].
  destruct ts as [|[] [|[] ts] ]; try done. cbn [walk_entries].
  destruct (run _ _ _ ts MVal []) as [v rest| |] eqn:E; try done. intros Hw Hg.
  cbn [forallb] in Hg. apply andb_prop in Hg as [_ Hg]. apply andb_prop in Hg as [_ Hg].
  destruct (value_good _ _ _ E Hg) as [Hv Hr]. destruct rest as [|[] rest]; try done.
  - destruct rest; [|done]. injection Hw as <-. by intros e ->%list_elem_of_singleton.
  - destruct (walk_entries fuel rest) as [es'|] eqn:Ew; [|done]. injection Hw as <-.
    intros e [->|He]%elem_of_cons; [done|]. apply andb_prop in Hr as [_ Hr]. eauto.
Qed.

Lemma object_entries_good ts es :
  object_entries ts = Some es → forallb good ts = true → ∀ e, e ∈ es → forallb good (snd e) = true.
Proof.
  destruct ts as [|[] ts]; try done. intros Ho Hg. cbn [forallb] in Hg. apply andb_prop in Hg as [_ Hg].
  assert (Hcase : es = [] ∨ walk_entries (List.length ts) ts = Some es).
  { unfold object_entries in Ho. destruct ts as [|[] [|? ?] ]; auto. left. by injection Ho. }
  destruct Hcase as [->|Hw]; [by intros e ?%not_elem_of_nil|]. by eapply walk_entries_good.
Qed.

Lemma walk_elems_good fuel ts es :
  walk_elems fuel ts = Some es → forallb good ts = true → ∀ e, e ∈ es → forallb good e = true.
Proof.
  revert ts es. induction fuel as [|fuel IH]; intros ts es; [done|]. cbn [walk_elems].
  destruct (run _ _ _ ts MVal []) as [v rest| |] eqn:E; try done. intros Hw Hg.
  destruct (value_good _ _ _ E Hg) as [Hv Hr]. destruct rest as [|[] rest]; try done.
  - destruct rest; [|done]. injection Hw as <-. by intros e ->%list_elem_of_singleton.
  - destruct (walk_elems fuel rest) as [es'|] eqn:Ew; [|done]. injection Hw as <-.
    intros e [->|He]%elem_of_cons; [done|]. apply andb_prop in Hr as [_ Hr]. eauto.
Qed.

Lemma array_elems_good ts es :
  array_elems ts = Some es → forallb good ts = true → ∀ e, e ∈ es → forallb good e = true.
Proof.
  destruct ts as [|[] ts]; try done. intros Ho Hg. cbn [forallb] in Hg. apply andb_prop in Hg as [_ Hg].
  assert (Hcase : es = [] ∨ walk_elems (List.length ts) ts = Some es).
  { unfold array_elems in Ho. destruct ts as [|[] [|? ?] ]; auto. left. by injection Ho. }
  destruct Hcase as [->|Hw]; [by intros e ?%not_elem_of_nil|]. by eapply walk_elems_good.
Qed.
End WalkGood.

(** ** Looking a key up in a decoded object: the last value given for it *)

Lemma obj_get_app a b k : obj_get (a ++ b) k = match obj_get a k with Some v => Some v | None => obj_get b k end.
Proof. unfold obj_get. induction a as [|[k' v] a IH]; [done|]. cbn. by destruct (String.eqb k' k). Qed.

Lemma obj_get_set_all acc es k :
  obj_get (set_all acc es) k = match obj_get (rev es) k with Some v => Some v | None => obj_get acc k end.
Proof.
  revert acc. induction es as [|[k1 v1] es IH]; intros acc; [done|].
  change (set_all acc ((k1, v1) :: es)) with (set_all (obj_set acc k1 v1) es). rewrite IH. cbn [rev].
  rewrite obj_get_app. destruct (obj_get (rev es) k); [done|].
  change (obj_get [(k1, v1)] k) with (snd <$> (if String.eqb k1 k then Some (k1, v1) else None)).
  destruct (String.eqb_spec k1 k) as [->|Hne]; [apply obj_get_set_eq|by apply obj_get_set_ne].
Qed.

(** The member [k] of an object. *)
Definition member (k : string) (v : any) : option any :=
  match v with AObj l => obj_get l k | _ => None end.

Lemma member_normal k es : member k (normal (AObj es)) = normal <$> obj_get (rev es) k.
Proof.
  cbn [normal member]. rewrite obj_get_set_all. rewrite <- map_rev.
  assert (Hm : ∀ l, obj_get (map (λ kv, (fst kv, normal (snd kv))) l) k = normal <$> obj_get l k).
  { unfold obj_get. clear. induction l as [|[k' v] l IH]; [done|]. cbn. by destruct (String.eqb k' k). }
  rewrite Hm. by destruct (obj_get (rev es) k).
Qed.

(** ** The length of a string literal *)

Lemma html_piece_length s p : p ∈ runes s → (String.length (html_piece p) <= 6 * String.length (snd p))%nat.
Proof.
  intros Hp%runes_nonempty. unfold html_piece, enc_piece.
  assert (He : ∀ z, String.length (esc_u z) = 6%nat) by done.
  repeat case_match; rewrite ?He; cbn; lia.
Qed.

Lemma html_string_length s : (String.length (html_string s) <= 6 * String.length s + 2)%nat.
Proof.
  unfold html_string. cbn [String.length]. rewrite length_app_str. cbn [String.length].
  assert (Hc : ∀ l, (∀ p, p ∈ l → String.length (html_piece p) <= 6 * String.length (snd p))%nat →
    (String.length (concat_str (map html_piece l)) <= 6 * String.length (concat_str (map snd l)))%nat).
  { clear. intros l. induction l as [|p l IH]; intros Hl; [done|]. cbn [map concat_str foldr]. rewrite !length_app_str.
    specialize (Hl p ltac:(by left)) as Hp. specialize (IH ltac:(intros q Hq; apply Hl; by right)).
    unfold concat_str in IH. lia. }
  specialize (Hc (runes s) ltac:(intros p; apply html_piece_length)). rewrite runes_concat in Hc. lia.
Qed.
