(* ===== verification/JsonStruct.v ===== *)
(** * json.Unmarshal into a struct

    How encoding/json matches an object's entries to the fields of a struct and
    what it stores for each value, with the trees a struct of strings, numbers
    and string lists is marshalled as. *)

From S2P Require Import Prelude GoStd Json JsonMarshal.

Open Scope string_scope.
Open Scope Z_scope.
Open Scope list_scope.

Definition strs_tree (l : option (list string)) : any :=
  match l with None => ANil | Some l => AArr (map AStr l) end.

Definition omit_empty (k s : string) : list (string * any) :=
  if String.eqb s "" then [] else [(k, AStr s)].

(** strconv.ParseUint and ParseInt in base 10. *)
Definition digit_value (c : ascii) : option Z := if is_digit_b c then Some (bz c - 48) else None.

Fixpoint digits_value (acc : Z) (s : string) : option Z :=
  match s with
  | EmptyString => Some acc
  | String c s => match digit_value c with Some d => digits_value (acc * 10 + d) s | None => None end
  end.

Definition parse_uint64 (s : string) : option Z :=
  if String.eqb s "" then None
  else match digits_value 0 s with Some z => if z <? 2 ^ 64 then Some z else None | None => None end.

Definition parse_int64 (s : string) : option Z :=
  match cut_prefix "-" s with
  | Some t =>
      if String.eqb t "" then None
      else match digits_value 0 t with Some z => if z <=? 2 ^ 63 then Some (- z) else None | None => None end
  | None =>
      if String.eqb s "" then None
      else match digits_value 0 s with Some z => if z <? 2 ^ 63 then Some z else None | None => None end
  end.

(** A value into a field; null leaves a string or number as it is.  [None] is
    an error. *)
Definition into_string (old : string) (ts : list token) : option string :=
  match ts with [TStr s] => Some s | [TNull] => Some old | _ => None end.

Definition into_number (parse : string → option Z) (old : Z) (ts : list token) : option Z :=
  match ts with [TNum n] => parse n | [TNull] => Some old | _ => None end.

(** Element [i] of a slice whose backing array is [b]: a null leaves what the
    array holds there. *)
Definition into_elem (i : nat) (b : list string) (ts : list token) : option (list string) :=
  match into_string (nth i b EmptyString) ts with
  | Some s => Some (take i b ++ s :: drop (S i) b)
  | None => None
  end.

Fixpoint into_elems (i : nat) (b : list string) (es : list (list token)) : option (list string) :=
  match es with
  | [] => Some b
  | ts :: es => match into_elem i b ts with Some b => into_elems (S i) b es | None => None end
  end.

(** A slice is its backing array and its length; a second value for the same
    key reuses the array. *)
Definition slice : Type := option (list string * nat).

Definition into_slice (old : slice) (ts : list token) : option slice :=
  match ts with
  | [TNull] => Some None
  | _ =>
      match array_elems ts with
      | None => None
      | Some [] => Some (Some ([], O))
      | Some es =>
          match into_elems 0 (match old with Some (b, _) => b | None => [] end) es with
          | Some b => Some (Some (b, List.length es))
          | None => None
          end
      end
  end.

Definition slice_strings (s : slice) : option (list string) :=
  match s with None => None | Some (b, n) => Some (take n b) end.

(** Field names match without case, as encoding/json folds them: two letters
    outside ASCII fold to ASCII ones. *)
Definition fold_rune (r : Z) : Z :=
  if in_range 97 122 r then r - 32 else if r =? 383 then 83 else if r =? 8490 then 75 else r.

Definition fold_name (s : string) : list Z := map (λ p, fold_rune (fst p)) (runes s).

Definition field_of (names : list string) (k : string) : option string :=
  match List.find (String.eqb k) names with
  | Some n => Some n
  | None => List.find (λ n, bool_decide (fold_name n = fold_name k)) names
  end.

(** Every entry in turn; [strict] is DisallowUnknownFields. *)
Fixpoint into_fields {A} (strict : bool) (names : list string) (set : string → A → list token → option A)
    (a : A) (es : list (string * list token)) : option A :=
  match es with
  | [] => Some a
  | (k, ts) :: es =>
      match field_of names k with
      | Some n => match set n a ts with Some a => into_fields strict names set a es | None => None end
      | None => if strict then None else into_fields strict names set a es
      end
  end.

(** A struct: null leaves it, an object sets its fields. *)
Definition into_struct {A} (strict : bool) (names : list string) (set : string → A → list token → option A)
    (a : A) (ts : list token) : option A :=
  match ts with
  | [TNull] => Some a
  | _ => match object_entries ts with Some es => into_fields strict names set a es | None => None end
  end.

Lemma pretty_N_char_digit d : (d < 10)%N →
  is_digit_b (pretty_N_char d) = true ∧ bz (pretty_N_char d) = 48 + Z.of_N d.
Proof.
  intros Hd. assert (Hc : (d = 0 ∨ d = 1 ∨ d = 2 ∨ d = 3 ∨ d = 4 ∨ d = 5 ∨ d = 6 ∨ d = 7 ∨ d = 8 ∨ d = 9)%N) by lia.
  repeat destruct Hc as [->|Hc]; [done..|by subst].
Qed.

(** The digits [pretty] puts in front of [s]: the first is not zero. *)
Lemma pretty_N_go_digits x s : (0 < x)%N →
  ∃ c r, pretty_N_go x s = String c (r ++ s)%string ∧ is_digit_b c = true ∧ c ≠ "0"%char ∧ s_all is_digit_b r = true.
Proof.
  revert s. induction (N.lt_wf_0 x) as [x _ IH]; intros s Hx. rewrite pretty_N_go_step by done.
  pose proof (N.mod_lt x 10 ltac:(lia)) as Hm. destruct (pretty_N_char_digit _ Hm) as [Hd Hv].
  destruct (decide (x `div` 10 = 0)%N) as [Hz|Hz].
  - rewrite Hz, pretty_N_go_0. exists (pretty_N_char (x mod 10)), EmptyString. split; [done|]. split; [done|].
    split; [|done]. intros E. rewrite E in Hv. change (bz "0") with 48 in Hv.
    pose proof (N.div_mod x 10 ltac:(lia)). lia.
  - destruct (IH (x `div` 10)%N) with (s := String (pretty_N_char (x mod 10)) s) as (c & r & -> & Hc & H0 & Hr);
      [apply N.div_lt; lia|by apply N.neq_0_lt_0|].
    exists c, (r ++ String (pretty_N_char (x mod 10)) "")%string. rewrite <- app_assoc_str. split; [done|].
    rewrite s_all_app. cbn [s_all]. by rewrite Hr, Hd.
Qed.

Lemma digits_value_go x s : digits_value 0 (pretty_N_go x s) = digits_value (Z.of_N x) s.
Proof.
  revert s. induction (N.lt_wf_0 x) as [x _ IH]; intros s.
  destruct (decide (x = 0)%N) as [->|Hx]; [by rewrite pretty_N_go_0|].
  rewrite pretty_N_go_step by lia. rewrite IH by (apply N.div_lt; lia).
  pose proof (N.mod_lt x 10 ltac:(lia)) as Hm. destruct (pretty_N_char_digit _ Hm) as [Hd Hv].
  cbn [digits_value]. unfold digit_value. rewrite Hd, Hv. f_equal.
  pose proof (N.div_mod x 10 ltac:(lia)). lia.
Qed.

Lemma num_run_digits r : s_all is_digit_b r = true → num_run N1 r = Some N1.
Proof.
  induction r as [|c r IH]; [done|]. cbn [s_all num_run num_step]. intros [Hc Hr]%andb_prop. rewrite Hc. auto.
Qed.

Lemma digit_not_other c : is_digit_b c = true → c ≠ "0"%char →
  lex_start c = ([], Some (LNum N1 (String c EmptyString))).
Proof.
  intros Hd H0. unfold lex_start, json_space.
  assert (H1 : 48 <= bz c <= 57) by (unfold is_digit_b, in_range in Hd; lia).
  repeat match goal with |- context [bz c =? ?k] => replace (bz c =? k) with false by (symmetry; apply Z.eqb_neq; lia) end.
  cbn [orb]. repeat match goal with |- context [Ascii.eqb c ?d] =>
    destruct (Ascii.eqb_spec c d) as [->|_]; [by destruct H1|] end.
  by rewrite Hd.
Qed.

Lemma num_lit_pretty (x : N) : num_lit (pretty x) = true.
Proof.
  unfold pretty, pretty_N. destruct (decide (x = 0)%N) as [|Hx]; [done|].
  destruct (pretty_N_go_digits x "") as (c & r & -> & Hc & H0 & Hr); [lia|]. rewrite app_nil_r_str.
  unfold num_lit. rewrite (digit_not_other _ Hc H0). by rewrite num_run_digits.
Qed.

Lemma itoa_pos z : 0 <= z → itoa z = pretty (Z.to_N z).
Proof. by destruct z. Qed.

Lemma num_lit_itoa z : num_lit (itoa z) = true.
Proof.
  destruct (Z.lt_ge_cases z 0) as [Hz|Hz]; [|rewrite itoa_pos by done; apply num_lit_pretty].
  destruct z as [|p|p]; try lia. change (itoa (Z.neg p)) with ("-" ++ pretty (N.pos p))%string.
  unfold pretty, pretty_N. destruct (decide (N.pos p = 0)%N) as [|Hx]; [done|].
  destruct (pretty_N_go_digits (N.pos p) "") as (c & r & -> & Hc & H0 & Hr); [lia|]. rewrite app_nil_r_str.
  change (match num_run NNeg (String c r) with Some st => num_final st | None => false end = true).
  cbn [num_run num_step]. rewrite Hc. destruct (Ascii.eqb_spec c "0"); [done|]. by rewrite num_run_digits.
Qed.

Lemma digits_value_pretty (x : N) : digits_value 0 (pretty x) = Some (Z.of_N x) ∧ pretty x ≠ EmptyString.
Proof.
  unfold pretty, pretty_N. destruct (decide (x = 0)%N) as [->|Hx]; [done|].
  split; [apply digits_value_go|]. by destruct (pretty_N_go_digits x "") as (c & r & -> & _); [lia|].
Qed.

Lemma parse_uint64_itoa z : 0 <= z < 2 ^ 64 → parse_uint64 (itoa z) = Some z.
Proof.
  intros Hz. rewrite itoa_pos by lia. destruct (digits_value_pretty (Z.to_N z)) as [Hv Hne].
  unfold parse_uint64. destruct (String.eqb_spec (pretty (Z.to_N z)) ""); [done|]. rewrite Hv, Z2N.id by lia.
  by destruct (Z.ltb_spec z (2 ^ 64)); [|lia].
Qed.

Lemma parse_int64_itoa z : - 2 ^ 63 <= z < 2 ^ 63 → parse_int64 (itoa z) = Some z.
Proof.
  intros Hz. unfold parse_int64. destruct (Z.lt_ge_cases z 0) as [Hn|Hn].
  - destruct z as [|p|p]; try lia. change (itoa (Z.neg p)) with ("-" ++ pretty (N.pos p))%string.
    rewrite cut_prefix_app. destruct (digits_value_pretty (N.pos p)) as [Hv Hne].
    destruct (String.eqb_spec (pretty (N.pos p)) ""); [done|]. rewrite Hv.
    destruct (Z.leb_spec (Z.of_N (N.pos p)) (2 ^ 63)); [|lia]. f_equal.
  - rewrite itoa_pos by lia. destruct (digits_value_pretty (Z.to_N z)) as [Hv Hne].
    assert (cut_prefix "-" (pretty (Z.to_N z)) = None) as ->.
    { destruct (cut_prefix "-" (pretty (Z.to_N z))) as [t|] eqn:E; [|done]. apply cut_prefix_Some in E.
      rewrite E in Hv. done. }
    destruct (String.eqb_spec (pretty (Z.to_N z)) ""); [done|]. rewrite Hv, Z2N.id by lia.
    by destruct (Z.ltb_spec z (2 ^ 63)); [|lia].
Qed.

Definition coerce_strs (l : option (list string)) : option (list string) := map coerce_utf8 <$> l.

Lemma coerce_utf8_idemp s : coerce_utf8 (coerce_utf8 s) = coerce_utf8 s.
Proof. apply coerce_utf8_valid, coerce_utf8_is_valid. Qed.

Lemma coerce_utf8_empty s : String.eqb (coerce_utf8 s) "" = String.eqb s "".
Proof.
  destruct s as [|c s]; [done|]. unfold coerce_utf8. rewrite runes_cons.
  destruct (decode_rune (String c s)) as [r n] eqn:E. apply decode_rune_size in E as [Hn _]; [|done].
  destruct n as [|n]; [lia|]. cbn [map concat_str foldr s_take snd]. by destruct (bad_rune _).
Qed.

Lemma coerce_omit_empty k s :
  coerce_utf8 k = k →
  map (λ kv, (coerce_utf8 (fst kv), coerced (snd kv))) (omit_empty k s) = omit_empty k (coerce_utf8 s).
Proof.
  intros Hk. unfold omit_empty. rewrite coerce_utf8_empty. destruct (String.eqb s ""); [done|]. cbn [map fst snd coerced]. by rewrite Hk.
Qed.

Lemma coerced_strs l : coerced (strs_tree l) = strs_tree (coerce_strs l).
Proof. destruct l as [l|]; [|done]. cbn [strs_tree coerced coerce_strs fmap option_fmap option_map]. by rewrite !map_map. Qed.

Lemma forallb_omit_empty (p : string * any → bool) k s : p (k, AStr s) = true → forallb p (omit_empty k s) = true.
Proof. intros Hp. unfold omit_empty. destruct (String.eqb s ""); [done|]. cbn. by rewrite Hp. Qed.

Lemma strs_tree_numbers l : numbers_ok (strs_tree l) = true.
Proof. destruct l as [l|]; [|done]. cbn. apply forallb_elem. by intros x (s & -> & _)%list_elem_of_fmap. Qed.

Lemma depth_obj_le n l : (∀ e, e ∈ l → (depth (snd e) ≤ n)%nat) → (depth (AObj l) ≤ S n)%nat.
Proof.
  intros Hl. cbn [depth]. apply le_n_S. induction l as [|e l IH]; [cbn; lia|]. cbn [foldr].
  assert (depth (snd e) ≤ n)%nat by (apply Hl; by left).
  assert (foldr (λ x m, Nat.max (depth (snd x)) m) 0%nat l ≤ n)%nat by (apply IH; intros x Hx; apply Hl; by right). lia.
Qed.

Lemma depth_strs l : (depth (strs_tree l) ≤ 1)%nat.
Proof.
  destruct l as [l|]; [|cbn; lia]. cbn [strs_tree depth]. apply le_n_S. induction l as [|s l IH]; [done|]. cbn in *. lia.
Qed.

Lemma small_depth n : (n ≤ 5)%nat → (n ≤ maxNestingDepth)%nat.
Proof. intros Hn. etrans; [exact Hn|]. apply Nat.leb_le. vm_compute. reflexivity. Qed.

Lemma depth_omit_empty k s e : e ∈ omit_empty k s → depth (snd e) = O.
Proof. unfold omit_empty. destruct (String.eqb s ""); [by intros ?%not_elem_of_nil|]. by intros ->%list_elem_of_singleton. Qed.

Lemma lex_start_ok_state : lex_ok LStart.
Proof. exact I. Qed.

Lemma tokens_good s : forallb good_token (tokens s) = true.
Proof. apply lex_good, lex_start_ok_state. Qed.

Definition fixed (s : string) : Prop := coerce_utf8 s = s.

Lemma valid_fixed s : valid_utf8 s = true → fixed s.
Proof. apply coerce_utf8_valid. Qed.

Lemma into_string_fixed old ts s :
  into_string old ts = Some s → fixed old → forallb good_token ts = true → fixed s.
Proof.
  destruct ts as [|[] [|? ?] ]; try done; intros [= <-] Ho Hg; [|done].
  cbn in Hg. rewrite andb_true_r in Hg. by apply valid_fixed.
Qed.

Definition slice_fixed (s : slice) : Prop := match s with Some (b, _) => ∀ x, x ∈ b → fixed x | None => True end.

Lemma into_elems_fixed i b es b' :
  into_elems i b es = Some b' → (∀ x, x ∈ b → fixed x) → (∀ e, e ∈ es → forallb good_token e = true) →
  ∀ x, x ∈ b' → fixed x.
Proof.
  revert i b. induction es as [|e es IH]; intros i b; cbn [into_elems]; [by intros [= ->]|].
  destruct (into_elem i b e) as [b1|] eqn:E; [|done]. intros Hrest Hb He.
  apply (IH _ _ Hrest); [|intros y Hy; apply He; by right].
  unfold into_elem in E. destruct (into_string (nth i b EmptyString) e) as [s|] eqn:Es; [|done]. injection E as <-.
  assert (Hs : fixed s).
  { apply (into_string_fixed _ _ _ Es); [|apply He; by left].
    destruct (nth_in_or_default i b EmptyString) as [Hin| ->]; [|done]. apply Hb. by apply list_elem_of_In. }
  intros x [Hx|[->|Hx]%elem_of_cons]%elem_of_app; [|done|]; apply Hb.
  - rewrite <- (take_drop i b). apply elem_of_app. by left.
  - rewrite <- (take_drop (S i) b). apply elem_of_app. by right.
Qed.

Lemma into_slice_fixed old ts s :
  into_slice old ts = Some s → slice_fixed old → forallb good_token ts = true → slice_fixed s.
Proof.
  intros Hi Ho Hg. assert (Hcase : s = None ∨ ∃ es, array_elems ts = Some es ∧
    match es with [] => s = Some ([], O) | _ =>
      match into_elems 0 (match old with Some (b, _) => b | None => [] end) es with
      | Some b => s = Some (b, List.length es) | None => False end end).
  { unfold into_slice in Hi. destruct ts as [|[] [|? ?] ]; try (left; congruence); right;
      destruct (array_elems _) as [ [|e es]|]; try done; eexists; split; try reflexivity; try congruence.
    all: destruct (into_elems _ _ _); [congruence|done]. }
  destruct Hcase as [->|(es & Ha & Hs)]; [done|]. pose proof (array_elems_good good_token _ _ Ha Hg) as Hes.
  destruct es as [|e es]; [subst; by intros x ?%not_elem_of_nil|].
  destruct (into_elems _ _ _) as [b|] eqn:Eb; [|done]. subst. cbn [slice_fixed].
  eapply into_elems_fixed; [exact Eb| |exact Hes]. destruct old as [ [b0 n]|]; [done|]. by intros x ?%not_elem_of_nil.
Qed.

Lemma into_fields_inv {A} (I : A → Prop) strict names set a es a' :
  (∀ n a ts a', set n a ts = Some a' → I a → forallb good_token ts = true → I a') →
  into_fields strict names set a es = Some a' → I a →
  (∀ e, e ∈ es → forallb good_token (snd e) = true) → I a'.
Proof.
  intros Hset. revert a. induction es as [|[k ts] es IH]; intros a; cbn [into_fields]; [by intros [= ->]|].
  intros Hf Ha He. assert (Hes : ∀ e, e ∈ es → forallb good_token (snd e) = true) by (intros e Hin; apply He; by right).
  destruct (field_of names k) as [n|]; [|destruct strict; [done|by eapply IH]].
  destruct (set n a ts) as [a1|] eqn:E; [|done]. eapply IH; [done| |done].
  eapply Hset; [done..|]. apply (He (k, ts)). by left.
Qed.

Lemma into_struct_inv {A} (I : A → Prop) strict names set a ts a' :
  (∀ n a ts a', set n a ts = Some a' → I a → forallb good_token ts = true → I a') →
  into_struct strict names set a ts = Some a' → I a → forallb good_token ts = true → I a'.
Proof.
  intros Hset Hs Ha Hg. assert (Hcase : a' = a ∨ ∃ es, object_entries ts = Some es ∧ into_fields strict names set a es = Some a').
  { unfold into_struct in Hs. destruct ts as [|[] [|? ?] ]; try (left; congruence); right;
      destruct (object_entries _) as [es|]; try done; eauto. }
  destruct Hcase as [->|(es & He & Hf)]; [done|]. eapply into_fields_inv; [done..|].
  by eapply object_entries_good.
Qed.

Lemma slice_strings_fixed s : slice_fixed s → coerce_strs (slice_strings s) = slice_strings s.
Proof.
  destruct s as [ [b n]|]; [|done]. intros Hb. cbn. f_equal. apply map_id_on. intros x Hx. apply Hb.
  apply elem_of_take in Hx as (i & Hi & _). by eapply list_elem_of_lookup_2.
Qed.

Lemma into_elems_strings i b l :
  List.length b = i → into_elems i b (map (λ s, [TStr s]) l) = Some (b ++ l).
Proof.
  revert i b. induction l as [|s l IH]; intros i b Hb; [cbn; by rewrite app_nil_r|].
  cbn [map into_elems]. unfold into_elem. cbn [into_string].
  rewrite firstn_all2, skipn_all2 by lia. rewrite IH by (rewrite length_app; cbn; lia). by rewrite <- app_assoc.
Qed.

Definition strs_slice (l : option (list string)) : slice :=
  match l with None => None | Some l => Some (l, List.length l) end.

Lemma into_slice_strs l : into_slice None (toks (strs_tree l)) = Some (strs_slice l).
Proof.
  destruct l as [l|]; [|done]. cbn [strs_tree].
  change (into_slice None (toks (AArr (map AStr l)))) with
    (match array_elems (toks (AArr (map AStr l))) with
     | None => None | Some [] => Some (Some ([], O))
     | Some es => match into_elems 0 [] es with Some b => Some (Some (b, List.length es)) | None => None end end).
  rewrite array_elems_strings. destruct l as [|s l]; [done|].
  pose proof (into_elems_strings 0 [] (s :: l) eq_refl) as H. cbn [map] in H |- *. rewrite H. cbn [app List.length]. by rewrite length_map.
Qed.

Lemma slice_strings_strs l : slice_strings (strs_slice l) = l.
Proof. destruct l as [l|]; [|done]. cbn. by rewrite firstn_all. Qed.

Lemma into_struct_obj {A} strict names set (a : A) es :
  plain (AObj es) = true → (depth (AObj es) ≤ maxNestingDepth)%nat →
  into_struct strict names set a (toks (AObj es)) =
  into_fields strict names set a (map (λ kv, (fst kv, toks (snd kv))) es).
Proof. intros Hp Hd. by rewrite <- (object_entries_toks es Hp Hd) || (unfold into_struct; rewrite object_entries_toks). Qed.

(** The fields as one pass sets them. *)
Lemma into_fields_app {A} strict names set (a : A) e1 e2 :
  into_fields strict names set a (e1 ++ e2) =
  match into_fields strict names set a e1 with Some a => into_fields strict names set a e2 | None => None end.
Proof.
  revert a. induction e1 as [|[k ts] e1 IH]; intros a; [done|]. cbn [app into_fields].
  destruct (field_of names k); [destruct (set s a ts); [apply IH|done]|destruct strict; [done|apply IH]].
Qed.

Definition fields_toks (es : list (string * any)) : list (string * list token) := map (λ kv, (fst kv, toks (snd kv))) es.

Lemma strs_plain l : plain (strs_tree l) = true.
Proof. destruct l as [l|]; [|done]. cbn. apply forallb_elem. by intros x (s & -> & _)%list_elem_of_fmap. Qed.

Lemma tokens_marshal t : numbers_ok t = true → tokens (marshal t) = toks (coerced t).
Proof.
  intros Hn. unfold tokens. rewrite <- (app_nil_r_str (marshal t)), lex_marshal by (done || by left). cbn. apply app_nil_r.
Qed.

Lemma into_fields_unknown {A} names set (a : A) es :
  forallb (λ kv : string * any, match field_of names (fst kv) with Some _ => false | None => true end) es = true →
  into_fields false names set a (fields_toks es) = Some a.
Proof.
  induction es as [|[k v] es IH]; [done|]. cbn [forallb fields_toks map into_fields fst].
  intros [Hk Hes]%andb_prop. destruct (field_of names k); [done|]. by apply IH.
Qed.

Lemma json_valid_marshal t :
  numbers_ok t = true → (depth (coerced t) ≤ maxNestingDepth)%nat → json_valid (marshal t) = true.
Proof. intros Hn Hd. unfold json_valid. by rewrite decode_marshal. Qed.

Lemma pretty_N_go_length n x s : (x < 10 ^ N.of_nat n)%N →
  (String.length (pretty_N_go x s) <= n + String.length s)%nat.
Proof.
  revert x s. induction n as [|n IH]; intros x s Hx.
  { replace x with 0%N by (cbn in Hx; lia). by rewrite pretty_N_go_0. }
  destruct (decide (x = 0)%N) as [->|Hne]; [rewrite pretty_N_go_0; lia|].
  rewrite pretty_N_go_step by lia. etrans; [apply IH|cbn; lia].
  apply N.Div0.div_lt_upper_bound. rewrite Nat2N.inj_succ, N.pow_succ_r' in Hx. done.
Qed.

Lemma itoa_length z : 0 <= z < 2 ^ 64 → (String.length (itoa z) <= 20)%nat.
Proof.
  intros Hz. rewrite itoa_pos by lia. unfold pretty, pretty_N. destruct (decide _); [cbn; lia|].
  etrans; [apply (pretty_N_go_length 20)|cbn; lia].
  apply N.lt_le_trans with (2 ^ 64)%N; [|vm_compute; discriminate].
  apply N2Z.inj_lt. rewrite Z2N.id by lia. apply Hz.
Qed.

Lemma strs_tree_inj a b : normal (strs_tree a) = normal (strs_tree b) → a = b.
Proof.
  destruct a as [a|], b as [b|]; try done. cbn [strs_tree normal]. rewrite !map_map. intros [= H]. f_equal.
  revert b H. induction a as [|x a IH]; intros [|y b]; try done. cbn. intros [= -> H]. f_equal. auto.
Qed.
