(* ===== verification/YamlStrict.v ===== *)
(** * Strict decoding of configuration files: internal/yamlstrict

    [layout] is the check of the document structure on the lines of a file,
    [clean] the reduction of a decoder's error to text that shows nothing of the
    file but keys and vocabulary words, and [Unmarshal] the two around the
    decoder.  The parser and the strict decoder of goccy/go-yaml are arguments:
    what they answer for a file, an error as yaml.FormatError writes it.

    [Unmarshal_strict]: a value is decoded only from a file whose content is in
    one document that no empty document precedes, and whatever the decoder's
    error says, the text that is shown quotes nothing of the file but its keys
    and vocabulary words. *)

From S2P Require Import Prelude GoStd GoRegexp JsonStruct.

Open Scope string_scope.
Open Scope Z_scope.
Open Scope list_scope.

Definition quote1 : string := String "'" EmptyString.
Definition quote2 : string := String dquote EmptyString.
Definition lf : ascii := "010".
Definition cr : string := String "013" EmptyString.

(** ** The document structure *)

Definition marker : regexp := compile "^---(?:[ \t].*)?$".

(** The variables of layout's loop. *)
Record lay := Lay { segment : Z; contentIn : Z; count : Z }.

Definition has_content (s : lay) : lay :=
  if contentIn s =? segment s then s else Lay (segment s) (segment s) (count s + 1).

(** A marker line's own content. *)
Definition marker_content (l : string) : bool :=
  let t := trim_space (trim_prefix l "---") in
  negb (String.eqb t "") && negb (has_prefix t "#").

Definition blank_line (l : string) : bool :=
  let t := trim_space l in
  String.eqb t "" || has_prefix t "#" || String.eqb t "...".

Definition layout_line (s : lay) (l : string) : lay :=
  if (segment s =? 0) && has_prefix l "%" then s
  else if MatchString marker l then
    let s := Lay (segment s + 1) (contentIn s) (count s) in
    if marker_content l then has_content s else s
  else if blank_line l then s
  else has_content s.

Definition lines_of (b : string) : list string :=
  split_b lf (replace_all (replace_all b (cr ++ String lf "") (String lf "")) cr (String lf "")).

Inductive layout_error := TooMany (n : Z) | EmptyFirst.

Definition layout (b : string) : option layout_error :=
  let s := fold_left layout_line (lines_of b) (Lay 0 (-1) 0) in
  if 1 <? count s then Some (TooMany (count s))
  else if (count s =? 1) && (1 <? contentIn s) then Some EmptyFirst
  else None.

Definition layout_text (e : layout_error) : string :=
  match e with
  | TooMany n => "the file holds " ++ itoa n ++ " YAML documents; it must hold one"
  | EmptyFirst => "the file starts with an empty YAML document (--- with nothing after it); remove the extra ---"
  end%string.

(** A document the parser found: its body, when it has one, and whether that
    is a directive. *)
Definition documents (docs : list (option bool)) : Z :=
  Z.of_nat (List.length (List.filter (λ d, match d with Some false => true | _ => false end) docs)).

(** ** Error text *)

Definition position : regexp := compile "^\[\d+:\d+\]".
Definition quoted : regexp :=
  compile (concat_str [quote2; "[^"; quote2; "]*"; quote2; "|"; quote1; "[^"; quote1; "]*"; quote1]).
Definition vocabulary : regexp := compile "^[A-Z][A-Z_]{2,31}$".
Definition keyLike : regexp := compile "^[a-z][a-z0-9_]{0,31}$".

Definition key_in (s : string) : regexp := compile ("(?m)(^[ \t-]*|[{,][ \t]*)" ++ QuoteMeta s ++ "[ \t]*:")%string.

Definition isKey (b s : string) : bool := MatchString keyLike s && MatchString (key_in s) b.

(** [FindString] and [FindAllString]. *)
Definition found_text (s : string) (f : found) : string := s_take (upto f - from f) (s_drop (from f) s).
Definition FindString (r : regexp) (s : string) : string :=
  match find r (start s) with Some (b, (e, _)) => s_take (off e - off b) (s_drop (off b) s) | None => "" end.
Definition FindAllString (r : regexp) (s : string) : list string := map (found_text s) (find_all r s).

(** [q[1:len(q)-1]]. *)
Definition inner (q : string) : string := s_take (String.length q - 2) (s_drop 1 q).

(** What a quotation may show. *)
Definition shows (b q : string) : bool :=
  String.eqb (inner q) "" || isKey b (inner q) || MatchString vocabulary (inner q).

Definition clean (formatted b : string) : string :=
  let msg := trim_space (default "" (head (split_b lf formatted))) in
  let pos := FindString position msg in
  if forallb (shows b) (FindAllString quoted msg) then msg
  else if String.eqb pos "" then "the file is not valid (the value is not shown)"
  else (pos ++ " the file is not valid here (the value is not shown)")%string.

(** [Unmarshal]: the value, or the text of its error. *)
Definition Unmarshal {V} (parse_docs : string → result string (list (option bool)))
    (decode : string → result string V) (b : string) : result string V :=
  match layout b with
  | Some e => Err (layout_text e)
  | None =>
      match parse_docs b with
      | Err e => Err (clean e b)
      | Ok docs =>
          if 1 <? documents docs then Err (layout_text (TooMany (documents docs)))
          else match decode b with Err e => Err (clean e b) | Ok v => Ok v end
      end
  end.

Definition file (l : list string) : string := join (String lf "") l.

Example ex_layout :
  map (λ l, layout (file l))
    [["a: 1"; ""]; ["---"; "a: 1"; "---"; ""]; ["%YAML 1.2"; "---"; "a: 1"; "..."];
     ["---"; "---"; "a: 1"]; ["a: 1"; "---"; "b: 2"]; ["--- {a: 1}"; "--- # none"];
     ["a: |"; "  ---"; "b: 2"]; ["# only"; ""]; ["a: 1"; "--- {b: 2}"; "c: 3"; "---"; "d: 4"]]
  = [None; None; None; Some EmptyFirst; Some (TooMany 2); None; None; None; Some (TooMany 3)].
Proof. vm_compute. reflexivity. Qed.

Definition said (l : list string) : string := concat_str l.

Example ex_clean :
  clean (said ["[3:1] unknown field "; quote2; "matchh"; quote2; String lf ""; ">  3 | matchh: x"])
    (file ["rules:"; "  - id: r"; "matchh: x"]) = said ["[3:1] unknown field "; quote2; "matchh"; quote2] ∧
  clean (said ["[2:9] cannot unmarshal "; quote2; "hunter2"; quote2; " into int"]) (file ["limits:"; "  max: hunter2"])
    = "[2:9] the file is not valid here (the value is not shown)" ∧
  clean (said ["bad "; quote1; "s3cret"; quote1]) "a: s3cret" = "the file is not valid (the value is not shown)" ∧
  clean (said ["[1:8] unknown class "; quote2; "WRITE_CONFG"; quote2]) "class: WRITE_CONFG" =
    said ["[1:8] unknown class "; quote2; "WRITE_CONFG"; quote2].
Proof. vm_compute. done. Qed.

(** ** What layout accepts *)

#[local] Opaque marker.

(** The segment of line [i]: how many marker lines there are up to it. *)
Definition markers (ls : list string) : Z := Z.of_nat (List.length (List.filter (MatchString marker) ls)).
Definition segment_of (ls : list string) (i : nat) : Z := markers (take (S i) ls).

(** Line [i] holds content: a marker line something after the marker, another
    line anything but white space, a comment or an end marker, and before the
    first marker no directive. *)
Definition content_at (ls : list string) (i : nat) : bool :=
  match ls !! i with
  | Some l =>
      if MatchString marker l then marker_content l
      else negb (blank_line l) && negb ((segment_of ls i =? 0) && has_prefix l "%")
  | None => false
  end.

(** The segments with content. *)
Definition content_segments (ls : list string) : gset Z :=
  list_to_set (map (segment_of ls) (List.filter (content_at ls) (seq 0 (List.length ls)))).

Lemma markers_snoc ls l : markers (ls ++ [l]) = markers ls + (if MatchString marker l then 1 else 0).
Proof. unfold markers. rewrite List.filter_app, length_app. cbn. destruct (MatchString marker l); cbn; lia. Qed.

Lemma segment_of_before ls l i : (i < List.length ls)%nat → segment_of (ls ++ [l]) i = segment_of ls i.
Proof. intros Hi. unfold segment_of. rewrite take_app_le by lia. done. Qed.

Lemma segment_of_last ls l : segment_of (ls ++ [l]) (List.length ls) = markers (ls ++ [l]).
Proof. unfold segment_of. rewrite take_ge; [done|]. rewrite length_app. cbn. lia. Qed.

Lemma content_at_before ls l i : (i < List.length ls)%nat → content_at (ls ++ [l]) i = content_at ls i.
Proof. intros Hi. unfold content_at. rewrite lookup_app_l by done. by rewrite segment_of_before. Qed.

Lemma content_segments_snoc ls l :
  content_segments (ls ++ [l]) =
    content_segments ls ∪ (if content_at (ls ++ [l]) (List.length ls) then {[markers (ls ++ [l])]} else ∅).
Proof.
  unfold content_segments. rewrite length_app. cbn [List.length]. rewrite seq_app, List.filter_app, map_app, list_to_set_app_L.
  f_equal.
  - f_equal. erewrite filter_ext_in; [apply map_ext_in|].
    + intros i [Hi%in_seq _]%filter_In. apply segment_of_before. lia.
    + intros i Hi%in_seq. apply content_at_before. lia.
  - cbn [seq List.filter Nat.add]. destruct (content_at _ _); [|done]. cbn. rewrite segment_of_last. set_solver.
Qed.

(** A directive line is no marker. *)
Lemma marker_prefix l : MatchString marker l = true → has_prefix l "-" = true.
Proof.
  rewrite MatchString_spec by (vm_compute; reflexivity). intros (q & e & c & Hq & Hm).
  assert (Hb : body marker = RSeq (RAssert BeginText) (lit_re "-" (RSeq (byte_re "-") (RSeq (byte_re "-")
    (RSeq (RAlt (RSeq (RSet (RuneSet false false [(32, 32); (9, 9)])) (RSeq (RStar true (RSet (RuneSet true false [(10, 10)]))) REmpty)) REmpty) (RSeq (RAssert EndText) REmpty)))))) by (vm_compute; reflexivity).
  rewrite Hb in Hm. inversion Hm as [| | |? ? ? ? q0 c0 ? ? H0 H1| | | | |]; simplify_eq.
  inversion H0 as [| |? ? ? Hh| | | | | |]; simplify_eq. apply Nat.eqb_eq in Hh.
  apply lit_run in H1 as (q' & Hr & _); [|done].
  assert (Ht : in_text l q0) by (eapply reaches_in_text; [apply in_text_start|done]). destruct Ht as [_ Ht].
  rewrite Hh in Ht. cbn in Ht. rewrite Ht in Hr. rewrite Hr. apply has_prefix_app.
Qed.

Lemma directive_no_marker l : has_prefix l "%" = true → MatchString marker l = false.
Proof.
  intros Hp. destruct (MatchString marker l) eqn:E; [|done]. apply marker_prefix in E.
  apply has_prefix_spec in Hp as [t ->], E as [u Hu]. done.
Qed.

(** The loop's variables: the segment, the last segment with content and how
    many there are. *)
Definition lay_ok (ls : list string) (s : lay) : Prop :=
  segment s = markers ls ∧ count s = Z.of_nat (size (content_segments ls)) ∧
  (∀ k, k ∈ content_segments ls → 0 <= k <= contentIn s) ∧ contentIn s <= segment s ∧
  (contentIn s = -1 ∨ contentIn s ∈ content_segments ls).

Lemma markers_pos ls : 0 <= markers ls.
Proof. unfold markers. lia. Qed.

Lemma has_content_ok ls l s :
  (∃ m, lay_ok ls (Lay m (contentIn s) (count s))) → segment s = markers (ls ++ [l]) → content_at (ls ++ [l]) (List.length ls) = true →
  lay_ok (ls ++ [l]) (has_content s).
Proof.
  intros (m & Hm & Hc & Hk & Hle & Hin) Hs Hl. cbn [segment contentIn count] in *. pose proof (markers_pos (ls ++ [l])) as Hp.
  assert (Hmm : m <= segment s) by (rewrite Hs, markers_snoc; destruct (MatchString marker l); lia).
  unfold lay_ok, has_content. rewrite content_segments_snoc, Hl.
  destruct (Z.eqb_spec (contentIn s) (segment s)) as [E|E]; cbn [segment contentIn count].
  - destruct Hin as [Hin|Hin]; [lia|]. replace (content_segments ls ∪ {[markers (ls ++ [l])]}) with (content_segments ls) by (rewrite <- Hs, <- E; set_solver).
    split_and!; [done|done|done|lia|by right].
  - assert (Hn : markers (ls ++ [l]) ∉ content_segments ls) by (intros Hx%Hk; lia).
    rewrite size_union by set_solver. rewrite size_singleton.
    split_and!; [done|lia| |lia|right; set_solver].
    intros k [Hx|Hx]%elem_of_union; [apply Hk in Hx; lia|]. apply elem_of_singleton in Hx. lia.
Qed.

Lemma no_content_ok ls l s :
  (∃ m, lay_ok ls (Lay m (contentIn s) (count s)) ∧ m <= segment s) → segment s = markers (ls ++ [l]) →
  content_at (ls ++ [l]) (List.length ls) = false → lay_ok (ls ++ [l]) s.
Proof.
  intros (m & (Hm & Hc & Hk & Hle & Hin) & Hms) Hs Hl. cbn [segment contentIn count] in *.
  unfold lay_ok. assert (E : content_segments (ls ++ [l]) = content_segments ls) by (rewrite content_segments_snoc, Hl; set_solver).
  rewrite E. split_and!; [done|done|done|lia|done].
Qed.

Lemma layout_fold_ok ls : lay_ok ls (fold_left layout_line ls (Lay 0 (-1) 0)).
Proof.
  induction ls as [|l ls IH] using rev_ind.
  { unfold lay_ok, content_segments. cbn. split_and!; [done|by rewrite size_empty|set_solver|lia|by left]. }
  rewrite fold_left_app. cbn [fold_left]. set (s := fold_left _ _ _) in *. pose proof IH as (Hseg & _).
  assert (Hs : lay_ok ls (Lay (segment s) (contentIn s) (count s))) by (by destruct s).
  assert (Hl : (ls ++ [l]) !! List.length ls = Some l) by (by rewrite lookup_app_r, Nat.sub_diag).
  unfold layout_line. destruct ((segment s =? 0) && has_prefix l "%") eqn:Ed.
  - apply andb_prop in Ed as [E0%Z.eqb_eq Ep]. pose proof (directive_no_marker _ Ep) as Hm.
    apply no_content_ok; [eexists; split; [exact Hs|lia]|by rewrite markers_snoc, Hm; lia|].
    unfold content_at. rewrite Hl, Hm, segment_of_last, markers_snoc, Hm, Ep, <- Hseg, E0. by rewrite andb_false_r.
  - destruct (MatchString marker l) eqn:Hm.
    + assert (Hsg : segment s + 1 = markers (ls ++ [l])) by (rewrite markers_snoc, Hm; lia).
      destruct (marker_content l) eqn:Emc.
      * apply has_content_ok; [by eexists|done|]. unfold content_at. by rewrite Hl, Hm.
      * apply no_content_ok; [eexists; split; [exact Hs|cbn; lia]|done|]. unfold content_at. by rewrite Hl, Hm.
    + assert (Hsg : segment s = markers (ls ++ [l])) by (rewrite markers_snoc, Hm; lia).
      destruct (blank_line l) eqn:Eb.
      * apply no_content_ok; [eexists; split; [exact Hs|lia]|done|]. unfold content_at. by rewrite Hl, Hm, Eb.
      * apply has_content_ok; [by eexists|done|]. unfold content_at.
        by rewrite Hl, Hm, Eb, segment_of_last, <- Hsg, Ed.
Qed.

(** layout accepts a file exactly when its content is in one segment, and
    that is the one before the first marker or right after it; it reports an
    empty first document exactly when the content is all in one later segment,
    and otherwise the number of segments with content. *)
Lemma layout_cases b :
  let segs := content_segments (lines_of b) in
  match layout b with
  | None => ∃ k, (k = 0 ∨ k = 1) ∧ segs ⊆ {[k]}
  | Some EmptyFirst => ∃ k, 1 < k ∧ segs = {[k]}
  | Some (TooMany n) => 1 < n ∧ n = Z.of_nat (size segs)
  end.
Proof.
  intros segs. pose proof (layout_fold_ok (lines_of b)) as (_ & Hc & Hk & _ & Hin). unfold layout.
  set (s := fold_left _ _ _) in *. fold segs in Hc, Hk, Hin.
  destruct (Z.ltb_spec 1 (count s)) as [H1|H1]; [lia|].
  destruct (Z.eqb_spec (count s) 1) as [E|E]; cbn [andb].
  - assert (Hs : size segs = 1%nat) by lia. apply size_1_elem_of in Hs as [k Hk1].
    assert (k ∈ segs) as Hkin by set_solver. apply Hk in Hkin as Hkb.
    assert (contentIn s = k) as ->.
    { destruct Hin as [Hin|Hin]; [lia|]. set_solver. }
    destruct (Z.ltb_spec 1 k); exists k; [split; [lia|set_solver]|split; [lia|set_solver]].
  - exists 0. split; [by left|]. assert (Hs : size segs = 0%nat) by lia. apply size_empty_inv in Hs. set_solver.
Qed.

(** ** What clean shows *)

#[local] Opaque position quoted vocabulary keyLike key_in.

Definition is_quote (c : ascii) : bool := Ascii.eqb c dquote || Ascii.eqb c "'".

Lemma quoted_body :
  body quoted = RAlt (lit_re quote2 (RSeq (RStar true (RSet (RuneSet true false [(34, 34)]))) (lit_re quote2 REmpty)))
    (lit_re quote1 (RSeq (RStar true (RSet (RuneSet true false [(39, 39)]))) (lit_re quote1 REmpty))).
Proof. vm_compute. reflexivity. Qed.

Lemma quoted_needs s : s_all (λ c, negb (is_quote c)) s = true → FindAllString quoted s = [].
Proof.
  intros Hs. unfold FindAllString. replace (find_all quoted s) with (@nil found); [done|]. symmetry.
  apply find_all_nil. destruct (MatchString quoted s) eqn:E; [exfalso|done].
  rewrite MatchString_spec in E by (rewrite quoted_body; done). destruct E as (q & e & c & Hq & Hm).
  assert (Ht : in_text s q) by (eapply reaches_in_text; [apply in_text_start|done]). destruct Ht as [_ Ht].
  assert (Hd : s_all (λ c, negb (is_quote c)) (rest q) = true).
  { rewrite Ht. clear -Hs. revert s Hs. induction (off q) as [|n IH]; intros [|a s]; cbn; try done.
    intros [_ ?]%andb_prop. auto. }
  rewrite quoted_body in Hm. inversion Hm as [| | | |? ? ? ? ? ? H|? ? ? ? ? ? H| | |]; simplify_eq;
    apply lit_run in H as (q' & Hr & _); try done; rewrite Hr in Hd; by cbn in Hd.
Qed.

Definition plain_byte (c : ascii) : bool := negb (is_quote c) && negb (Ascii.eqb c lf).

Lemma digit_bytes : set_bytes plain_byte (RuneSet false false perl_d).
Proof.
  intros r Hr. unfold in_set, in_ranges, in_range, perl_d in Hr. cbn in Hr. rewrite orb_false_r in Hr. breflect.
  split; [lia|]. assert (Hn : ∃ n, (n < 10)%nat ∧ r = 48 + Z.of_nat n) by (exists (Z.to_nat (r - 48)); lia).
  destruct Hn as (n & Hn & ->). do 10 (destruct n as [|n]; [done|]). lia.
Qed.

Lemma lit_bytes w k : is_ascii w = true → s_all plain_byte w = true →
  all_sets (set_bytes plain_byte) k → all_sets (set_bytes plain_byte) (lit_re w k).
Proof.
  unfold lit_re, chars. induction w as [|a w IH]; [done|]. cbn. intros [Ha%Z.ltb_lt Hw]%andb_prop [Hp Hs]%andb_prop Hk.
  split; [|auto]. intros r ->%in_byte. by rewrite zb_bz.
Qed.

Lemma position_bytes : all_sets (set_bytes plain_byte) (body position).
Proof.
  assert (Hb : body position = RSeq (RAssert BeginText) (lit_re "[" (RSeq (RSeq (RSet (RuneSet false false perl_d)) (RStar true (RSet (RuneSet false false perl_d))))
    (lit_re ":" (RSeq (RSeq (RSet (RuneSet false false perl_d)) (RStar true (RSet (RuneSet false false perl_d)))) (lit_re "]" REmpty)))))) by (vm_compute; reflexivity).
  rewrite Hb. split; [done|]. apply lit_bytes; [done..|]. split; [split; apply digit_bytes|].
  apply lit_bytes; [done..|]. split; [split; apply digit_bytes|]. by apply lit_bytes.
Qed.

(** A position quotes nothing and stays on its line. *)
Lemma FindString_bytes P r s : all_sets (set_bytes P) (body r) → s_all P (FindString r s) = true.
Proof.
  intros HP. unfold FindString. destruct (find r (start s)) as [[b [e c]]|] eqn:E; [|done].
  apply find_from_Some in E as [Hr Hm].
  assert (Hb : in_text s b) by (eapply reaches_in_text; [apply in_text_start|done]). destruct Hb as [_ Hb].
  pose proof (matches_adv _ _ _ _ _ Hm) as (Hle & Hlen & _).
  apply (matches_bytes P) in Hm as (t & Ht & HPt); [|done]. rewrite <- Hb, Ht.
  assert (Hl : (off e - off b)%nat = String.length t).
  { rewrite Ht, length_app_str in Hlen. lia. }
  rewrite Hl, s_take_app by done. by apply s_all_take.
Qed.

(** The text clean shows for a decoder's error, whatever the error says,
    is one line, and every quotation in it is empty, a key of the file, or an
    upper-case vocabulary word. *)
Lemma clean_shows formatted b :
  contains_b lf (clean formatted b) = false ∧
  ∀ q, q ∈ FindAllString quoted (clean formatted b) →
    inner q = "" ∨ isKey b (inner q) = true ∨ MatchString vocabulary (inner q) = true.
Proof.
  unfold clean. set (msg := trim_space _). destruct (forallb (shows b) (FindAllString quoted msg)) eqn:E.
  { split; [|].
    - unfold msg. apply trim_space_no. destruct (split_b_cons lf formatted) as (w & ws & Ew). rewrite Ew. cbn.
      apply (split_b_nosep lf formatted). rewrite Ew. by left.
    - intros q Hq. rewrite forallb_elem in E. apply E in Hq. unfold shows in Hq.
      apply orb_true_iff in Hq as [[Hq|Hq]%orb_true_iff|Hq]; [left; by apply String.eqb_eq|by right; left|by right; right]. }
  pose proof (FindString_bytes _ _ msg position_bytes) as Hp.
  assert (Hsplit : ∀ s, s_all plain_byte s = true →
    contains_b lf s = false ∧ s_all (λ c, negb (is_quote c)) s = true).
  { intros s Hs. split.
    - apply contains_b_all. eapply s_all_impl; [|exact Hs]. unfold plain_byte. intros c [_ Hc]%andb_prop. by rewrite Ascii.eqb_sym.
    - eapply s_all_impl; [|exact Hs]. unfold plain_byte. by intros c [Hc _]%andb_prop. }
  destruct (String.eqb (FindString position msg) "").
  - split; [done|]. rewrite quoted_needs by done. intros q Hq. destruct (not_elem_of_nil q Hq).
  - assert (Hall : s_all plain_byte
      (FindString position msg ++ " the file is not valid here (the value is not shown)") = true) by (by rewrite s_all_app, Hp).
    apply Hsplit in Hall as [H1 H2]. split; [done|]. rewrite quoted_needs by done. intros q Hq. destruct (not_elem_of_nil q Hq).
Qed.

Lemma itoa_digits z : 0 <= z → s_all is_digit_b (itoa z) = true.
Proof.
  intros Hz. rewrite itoa_pos by done. unfold pretty, pretty_N. destruct (decide (Z.to_N z = 0)%N) as [|Hx]; [done|].
  destruct (pretty_N_go_digits (Z.to_N z) "") as (c & r & -> & Hc & _ & Hr); [lia|].
  rewrite app_nil_r_str. cbn. by rewrite Hc, Hr.
Qed.

Lemma plain_text s :
  s_all plain_byte s = true → contains_b lf s = false ∧ FindAllString quoted s = [].
Proof.
  intros Hs. split.
  - apply contains_b_all. eapply s_all_impl; [|exact Hs]. unfold plain_byte. intros c [_ Hc]%andb_prop. by rewrite Ascii.eqb_sym.
  - apply quoted_needs. eapply s_all_impl; [|exact Hs]. unfold plain_byte. by intros c [Hc _]%andb_prop.
Qed.

Lemma layout_text_plain e : (∀ n, e = TooMany n → 0 <= n) → s_all plain_byte (layout_text e) = true.
Proof.
  intros He. destruct e as [n|]; [|done]. unfold layout_text. rewrite !s_all_app.
  replace (s_all plain_byte (itoa n)) with true; [done|]. symmetry. eapply s_all_impl; [|apply itoa_digits, He; done].
  intros c Hc. unfold is_digit_b, in_range in Hc. unfold plain_byte, is_quote, dquote, lf.
  repeat match goal with |- context [Ascii.eqb c ?d] => destruct (Ascii.eqb_spec c d) as [->|]; [by cbn in Hc|] end. done.
Qed.

(** What an error may show of a file. *)
Definition shows_only_keys (b t : string) : Prop :=
  contains_b lf t = false ∧
  ∀ q, q ∈ FindAllString quoted t →
    inner q = "" ∨ isKey b (inner q) = true ∨ MatchString vocabulary (inner q) = true.

(** C32: Whatever the parser and the strict decoder answer for a file: a value
    comes only from the strict decoder, of a file whose content is in one
    document that the check of the lines and the parser agree on; and every
    error is one line that quotes nothing of the file but its keys and
    vocabulary words. *)
Theorem Unmarshal_strict {V} parse_docs (decode : string → result string V) b :
  match Unmarshal parse_docs decode b with
  | Ok v =>
      (∃ k, (k = 0 ∨ k = 1) ∧ content_segments (lines_of b) ⊆ {[k]}) ∧
      (∃ docs, parse_docs b = Ok docs ∧ documents docs <= 1) ∧ decode b = Ok v
  | Err t => shows_only_keys b t
  end.
Proof.
  unfold Unmarshal. pose proof (layout_cases b) as HL. destruct (layout b) as [e|] eqn:El.
  - destruct (plain_text (layout_text e)) as [H1 H2].
    { apply layout_text_plain. intros n ->. destruct HL as [? _]. lia. }
    split; [done|]. rewrite H2. intros q Hq. destruct (not_elem_of_nil q Hq).
  - destruct (parse_docs b) as [docs|e] eqn:Ep; [|apply clean_shows].
    destruct (Z.ltb_spec 1 (documents docs)).
    + destruct (plain_text (layout_text (TooMany (documents docs)))) as [H1 H2].
      { apply layout_text_plain. intros n [= <-]. lia. }
      split; [done|]. rewrite H2. intros q Hq. destruct (not_elem_of_nil q Hq).
    + destruct (decode b) as [v|e] eqn:Ed; [|apply clean_shows]. split_and!; [done| |done]. by exists docs.
Qed.
