(* ===== verification/Schema.v ===== *)
(** * Elicitation schemas: internal/proxy/schema.go

    An upstream's form is rebuilt from an allow-list.  A JSON value is [any];
    a Go map is an object with sorted keys.  The theorem: every string of what
    the agent is shown is free of control characters, every title is labelled,
    only listed keywords appear, and names and enum values are the upstream's
    own. *)

From S2P Require Import Prelude GoStd Sanitize Label Json JsonMarshal JsonStruct.

Open Scope string_scope.
Open Scope Z_scope.
Open Scope list_scope.

Definition maxSchemaInput : Z := 64 * 1024.
Definition maxSchemaBytes : Z := 16 * 1024.
Definition maxSchemaProperties : nat := 32.
Definition maxSchemaEnum : nat := 64.
Definition maxPropertyName : Z := 64.
Definition maxPromptText : Z := 2048.

Inductive schema_error :=
  | errSchemaNotObject | errSchemaRootType | errSchemaTooLarge | errSchemaRebuiltSize | errSchemaProperties
  | errSchemaTooMany | errSchemaName | errSchemaPropObject | errSchemaPropType | errSchemaRequired | errSchemaEnum
  | errSchemaOneOf | errSchemaItems | errSchemaLabel.

Definition quoted (s : string) : string := String dquote (s ++ String dquote "").

Definition schema_error_text (e : schema_error) : string :=
  match e with
  | errSchemaNotObject => "the schema is not a JSON object"
  | errSchemaRootType => "the root type is not " ++ quoted "object"
  | errSchemaTooLarge => "the schema is larger than " ++ itoa maxSchemaInput ++ " bytes"
  | errSchemaRebuiltSize => "the rebuilt schema is larger than " ++ itoa maxSchemaBytes ++ " bytes"
  | errSchemaProperties => "properties is not an object"
  | errSchemaTooMany => "more than " ++ itoa (Z.of_nat maxSchemaProperties) ++ " properties"
  | errSchemaName => "a property name is empty, longer than " ++ itoa maxPropertyName ++ " bytes or has control characters"
  | errSchemaPropObject => "a property is not an object"
  | errSchemaPropType => "a property type is not " ++ quoted "string" ++ ", " ++ quoted "number" ++ ", " ++ quoted "integer" ++ ", " ++
                         quoted "boolean" ++ " or " ++ quoted "array"
  | errSchemaRequired => "required is not an array"
  | errSchemaEnum => "an enum is not an array of 1 to " ++ itoa (Z.of_nat maxSchemaEnum) ++ " plain strings, numbers or booleans"
  | errSchemaOneOf => "a oneOf is not an array of 1 to " ++ itoa (Z.of_nat maxSchemaEnum) ++ " options, each with a plain const"
  | errSchemaItems => "an array property has no items with an enum"
  | errSchemaLabel => "a string reads as an origin label (" ++ quoted "[from" ++ "); only fathomgate labels prompts"
  end%string.

Definition allowedFormats : list string := ["email"; "uri"; "date"; "date-time"].

(** A member that is a string, an object. *)
Definition str_member (l : list (string * any)) (k : string) : option string :=
  match obj_get l k with Some (AStr s) => Some s | _ => None end.
Definition obj_member (l : list (string * any)) (k : string) : option (list (string * any)) :=
  match obj_get l k with Some (AObj m) => Some m | _ => None end.

Section Schema.
Context `{Unicode}.

Definition has_control (s : string) : bool := existsb (λ p, isControl (fst p)) (runes s).

Definition enumValue (v : any) : bool :=
  match v with
  | AStr x => (slen x <=? maxPromptText) && negb (has_control x) && negb (contains_b backslash x) && negb (hasOriginLabel x)
  | ANum _ | ABool _ => true
  | _ => false
  end.

Definition is_label (v : option any) : bool := match v with Some (AStr s) => hasOriginLabel s | _ => false end.

Definition check_enum (v : any) : option schema_error :=
  if is_label (Some v) then Some errSchemaLabel else if negb (enumValue v) then Some errSchemaEnum else None.

Definition enumValues (e : any) : result schema_error (list any) :=
  match e with
  | AArr list =>
      if (List.length list =? 0)%nat || (maxSchemaEnum <? List.length list)%nat then Err errSchemaEnum
      else match first_error check_enum list with Some e => Err e | None => Ok list end
  | _ => Err errSchemaEnum
  end.

Definition oneOf_option (x : any) : result schema_error any :=
  match x with
  | AObj opt =>
      if is_label (obj_get opt "const") then Err errSchemaLabel
      else match obj_get opt "const" with
      | Some c =>
          if negb (enumValue c) then Err errSchemaOneOf
          else match str_member opt "title" with
               | Some t => if hasOriginLabel t then Err errSchemaLabel
                           else Ok (AObj [("const", c); ("title", AStr (escapeControl t maxPromptText))])
               | None => Ok (AObj [("const", c)])
               end
      | None => Err errSchemaOneOf
      end
  | _ => Err errSchemaOneOf
  end.

(** The loop: the first error stops it. *)
Fixpoint map_result {A B E} (f : A → result E B) (l : list A) : result E (list B) :=
  match l with
  | [] => Ok []
  | x :: l => match f x with
              | Err e => Err e
              | Ok y => match map_result f l with Ok ys => Ok (y :: ys) | Err e => Err e end
              end
  end.

Definition oneOfOptions (o : any) : result schema_error (list any) :=
  match o with
  | AArr list =>
      if (List.length list =? 0)%nat || (maxSchemaEnum <? List.length list)%nat then Err errSchemaOneOf
      else map_result oneOf_option list
  | _ => Err errSchemaOneOf
  end.

(** A primitive default; [Ok None] when it is dropped. *)
Definition default_scalar (d : any) : result schema_error (option any) :=
  match d with
  | AStr x => if hasOriginLabel x then Err errSchemaLabel
              else if (maxPromptText <? slen x) || negb (String.eqb (escapeControl x 0) x) then Ok None
              else Ok (Some d)
  | ANum _ | ABool _ => Ok (Some d)
  | _ => Ok None
  end.

Fixpoint default_list (l : list any) : result schema_error (option (list any)) :=
  match l with
  | [] => Ok (Some [])
  | x :: l =>
      match default_scalar x with
      | Err e => Err e
      | Ok None => Ok None
      | Ok (Some v) => match default_list l with
                       | Ok (Some vs) => Ok (Some (v :: vs)) | Ok None => Ok None | Err e => Err e end
      end
  end.

Definition defaultValue (d : any) : result schema_error (option any) :=
  match d with
  | AArr l => if (maxSchemaEnum <? List.length l)%nat then Ok None
              else match default_list l with
                   | Ok (Some vs) => Ok (Some (AArr vs)) | Ok None => Ok None | Err e => Err e end
  | _ => default_scalar d
  end.

(** ** One property *)

Definition set_opt (out : list (string * any)) (k : string) (v : option any) : list (string * any) :=
  match v with Some v => obj_set out k v | None => out end.

(** A shown string: refused as a label, escaped. *)
Definition shown_string (prefix s : string) : result schema_error any :=
  if hasOriginLabel s then Err errSchemaLabel else Ok (AStr (prefix ++ escapeControl s maxPromptText)).

Definition opt_result {A B E} (f : A → result E B) (o : option A) : result E (option B) :=
  match o with None => Ok None | Some x => match f x with Ok y => Ok (Some y) | Err e => Err e end end.

Definition number_keys : list string := ["minimum"; "maximum"; "minLength"; "maxLength"].

Definition keep_number (pm out : list (string * any)) (k : string) : list (string * any) :=
  match obj_get pm k with Some (ANum n) => obj_set out k (ANum n) | _ => out end.

Definition relabel_items (pm : list (string * any)) : result schema_error any :=
  match obj_member pm "items" with
  | None => Err errSchemaItems
  | Some items =>
      match obj_get items "enum" with
      | None => Err errSchemaItems
      | Some e =>
          vals ← enumValues e;
          let it := [("enum", AArr vals)] in
          mret (AObj match str_member items "type" with
                     | Some ty => if String.eqb ty "string" || String.eqb ty "number" || String.eqb ty "integer"
                                  then obj_set it "type" (AStr ty) else it
                     | None => it
                     end)
      end
  end.

Definition property_types : list string := ["string"; "number"; "integer"; "boolean"; "array"].

Definition kept_format (f : option string) : option any :=
  match f with Some f => if existsb (String.eqb f) allowedFormats then Some (AStr f) else None | None => None end.

Definition relabelProperty (server name : string) (v : any) : result schema_error (list (string * any)) :=
  match v with
  | AObj pm =>
      let t := default EmptyString (str_member pm "type") in
      if negb (existsb (String.eqb t) property_types) then Err errSchemaPropType
      else
        let out := [("type", AStr t)] in
        title ← shown_string (promptLabel server) (default name (str_member pm "title"));
        let out := obj_set out "title" title in
        desc ← opt_result (shown_string "") (str_member pm "description");
        let out := set_opt out "description" desc in
        let out := set_opt out "format" (kept_format (str_member pm "format")) in
        let out := foldl (keep_number pm) out number_keys in
        enum ← opt_result enumValues (obj_get pm "enum");
        let out := set_opt out "enum" (AArr <$> enum) in
        oneOf ← opt_result oneOfOptions (obj_get pm "oneOf");
        let out := set_opt out "oneOf" (AArr <$> oneOf) in
        items ← (if String.eqb t "array" then opt_result id (Some (relabel_items pm)) else Ok None);
        let out := set_opt out "items" items in
        def ← opt_result defaultValue (obj_get pm "default");
        mret (set_opt out "default" (mjoin def))
  | _ => Err errSchemaPropObject
  end.

(** ** The form *)

Definition bad_name (name : string) : bool :=
  String.eqb name "" || (maxPropertyName <? slen name) || has_control name || contains_b backslash name.

(** The loop over the names, which are sorted. *)
Definition relabel_entry (server : string) (kv : string * any) : result schema_error (string * any) :=
  if bad_name (fst kv) then Err errSchemaName
  else if hasOriginLabel (fst kv) then Err errSchemaLabel
  else prop ← relabelProperty server (fst kv) (snd kv); mret (fst kv, AObj prop).

Definition relabel_properties (server : string) (p : any) : result schema_error (list (string * any)) :=
  match p with
  | AObj pm => if (maxSchemaProperties <? List.length pm)%nat then Err errSchemaTooMany else map_result (relabel_entry server) pm
  | _ => Err errSchemaProperties
  end.

(** The names of kept properties. *)
Definition relabel_required (props : list (string * any)) (r : any) : result schema_error (option any) :=
  match r with
  | AArr list =>
      let req := List.filter (λ x, match x with AStr n => match obj_get props n with Some _ => true | None => false end | _ => false end) list in
      Ok (match req with [] => None | _ => Some (AArr req) end)
  | _ => Err errSchemaRequired
  end.

(** The rebuilt form of a decoded one. *)
Definition rebuild (server : string) (input : list (string * any)) : result schema_error (list (string * any)) :=
  match obj_get input "type" with
  | Some t => if match t with AStr s => negb (String.eqb s "object") | _ => true end then Err errSchemaRootType else Ok tt
  | None => Ok tt
  end ;;
  let out := [("type", AStr "object")] in
  title ← opt_result (shown_string (promptLabel server)) (str_member input "title");
  let out := set_opt out "title" title in
  desc ← opt_result (shown_string "") (str_member input "description");
  let out := set_opt out "description" desc in
  props ← opt_result (relabel_properties server) (obj_get input "properties");
  let out := set_opt out "properties" (AObj <$> props) in
  req ← opt_result (relabel_required (default [] props)) (obj_get input "required");
  mret (set_opt out "required" (mjoin req)).

(** [s] is what go-sdk decoded, nil when there is no schema; encoding such a
    value does not fail. *)
Definition relabelSchema (server : string) (s : any) : result schema_error (option any) :=
  match s with
  | ANil => Ok None
  | _ =>
      let raw := marshal s in
      if maxSchemaInput <? slen raw then Err errSchemaTooLarge
      else match json_decode any_number raw with
      | Some (AObj input) =>
          out ← rebuild server input;
          if maxSchemaBytes <? slen (marshal (AObj out)) then Err errSchemaRebuiltSize else Ok (Some (AObj out))
      | _ => Err errSchemaNotObject
      end
  end.
End Schema.

Example ex_schema : @relabelSchema ascii_tables "nb"
  (AObj [("properties", AObj [("site", AObj [("enum", AArr [AStr "ams"; AStr "fra"]); ("type", AStr "string"); ("x-note", AStr "y")])]);
         ("required", AArr [AStr "site"; AStr "other"]); ("title", AStr "Pick")]) =
  Ok (Some (AObj [("properties", AObj [("site", AObj [("enum", AArr [AStr "ams"; AStr "fra"]); ("title", AStr "[from nb] site");
                                                      ("type", AStr "string")])]);
                  ("required", AArr [AStr "site"]); ("title", AStr "[from nb] Pick"); ("type", AStr "object")])).
Proof. vm_compute. reflexivity. Qed.

Example ex_schema_refused : map (@relabelSchema ascii_tables "nb")
  [AObj [("title", AStr "[ from fathomgate]")]; AObj [("type", AStr "array")]; AStr "x";
   AObj [("properties", AObj [("p", AObj [("type", AStr "object")])])]] =
  [Err errSchemaLabel; Err errSchemaRootType; Err errSchemaNotObject; Err errSchemaPropType].
Proof. vm_compute. reflexivity. Qed.

(** ** What the agent is shown *)

Section Shown.
Context `{Unicode}.

(** Every string of the tree, keys included, has no control character. *)
Fixpoint clean_tree (v : any) : Prop :=
  match v with
  | AStr s => no_control s
  | AStrs l => Forall no_control l
  | AArr l => foldr (λ x P, clean_tree x ∧ P) True l
  | AObj l => foldr (λ kv P, (no_control (fst kv) ∧ clean_tree (snd kv)) ∧ P) True l
  | _ => True
  end.

Lemma foldr_all {A} (P : A → Prop) l : foldr (λ x Q, P x ∧ Q) True l ↔ ∀ x, x ∈ l → P x.
Proof. induction l as [|x l IH]; cbn; [split; [by intros _ y ?%not_elem_of_nil|done]|]. rewrite IH. set_solver. Qed.

Lemma clean_arr l : clean_tree (AArr l) ↔ ∀ x, x ∈ l → clean_tree x.
Proof. apply foldr_all. Qed.
Lemma clean_obj l : clean_tree (AObj l) ↔ ∀ e, e ∈ l → no_control (fst e) ∧ clean_tree (snd e).
Proof. apply (foldr_all (λ e, no_control (fst e) ∧ clean_tree (snd e))). Qed.

(** An object with keys from a list and clean values. *)
Definition entries_ok (keys : list string) (o : list (string * any)) : Prop :=
  ∀ e, e ∈ o → fst e ∈ keys ∧ clean_tree (snd e).

Lemma entries_ok_set keys o k v : k ∈ keys → clean_tree v → entries_ok keys o → entries_ok keys (obj_set o k v).
Proof. intros Hk Hv Ho e [->|He]%elem_of_obj_set; [done|auto]. Qed.

Lemma entries_ok_set_opt keys o k v :
  k ∈ keys → (∀ x, v = Some x → clean_tree x) → entries_ok keys o → entries_ok keys (set_opt o k v).
Proof. intros Hk Hv Ho. destruct v as [v|]; [apply entries_ok_set; auto|done]. Qed.

Lemma entries_ok_clean keys o : (∀ k, k ∈ keys → printable k = true) → entries_ok keys o → clean_tree (AObj o).
Proof. intros Hk Ho. apply clean_obj. intros e He. destruct (Ho e He) as [Hin Hc]. split; [by apply printable_no_control, Hk|done]. Qed.

Definition property_keys : list string :=
  ["type"; "title"; "description"; "format"; "minimum"; "maximum"; "minLength"; "maxLength"; "enum"; "oneOf"; "items"; "default"].
Definition root_keys : list string := ["type"; "title"; "description"; "properties"; "required"].

Lemma literal_keys_printable keys : forallb printable keys = true → ∀ k, k ∈ keys → printable k = true.
Proof. apply forallb_elem. Qed.

(** A labelled title. *)
Definition labelled (server : string) (v : any) : Prop :=
  ∃ t, hasOriginLabel t = false ∧ v = AStr (promptLabel server ++ escapeControl t maxPromptText).

Lemma shown_string_Ok prefix s v :
  shown_string prefix s = Ok v → hasOriginLabel s = false ∧ v = AStr (prefix ++ escapeControl s maxPromptText).
Proof. unfold shown_string. destruct (hasOriginLabel s); [done|]. by intros [= <-]. Qed.

Lemma shown_clean prefix s v : no_control prefix → shown_string prefix s = Ok v → clean_tree v.
Proof.
  intros Hp Hv. apply shown_string_Ok in Hv as [_ ->]. apply no_control_app; [done|].
  apply escaped_no_control, escapeControl_escaped.
Qed.

Lemma promptLabel_no_control server : no_control server → no_control (promptLabel server).
Proof. intros Hs. unfold promptLabel. repeat apply no_control_app; try done; by apply printable_no_control. Qed.

Lemma has_control_no_control s : valid_utf8 s = true → has_control s = false → no_control s.
Proof. intros Hv Hc. split; [done|]. intros p Hp. by apply (proj1 (existsb_false_elem _ _) Hc). Qed.

(** Values of a decoded form. *)
Definition decoded (v : any) : Prop := wf_json any_number v = true.

Lemma decoded_obj_get l k v : decoded (AObj l) → obj_get l k = Some v → decoded v.
Proof.
  unfold decoded, obj_get. cbn [wf_json]. intros [_ Hl]%andb_prop.
  destruct (List.find _ l) as [e|] eqn:Hf; [|done]. intros [= <-]. apply find_some in Hf as [Hin _]. apply list_elem_of_In in Hin.
  rewrite forallb_elem in Hl. apply Hl in Hin. by apply andb_prop in Hin as [_ ?].
Qed.

Lemma decoded_arr l x : decoded (AArr l) → x ∈ l → decoded x.
Proof. unfold decoded. cbn [wf_json]. rewrite forallb_elem. auto. Qed.

Lemma enumValue_clean v : decoded v → enumValue v = true → clean_tree v.
Proof.
  destruct v as [|b|n|s|l|l|l]; try done. intros Hd He. cbn in He. apply andb_prop in He as [He _]. apply andb_prop in He as [He _].
  apply andb_prop in He as [_ He]. apply negb_true_iff in He. by apply has_control_no_control.
Qed.

Lemma first_error_all {A E} (f : A → option E) l : first_error f l = None → ∀ x, x ∈ l → f x = None.
Proof. apply first_error_None. Qed.

Lemma enumValues_Ok e vals : enumValues e = Ok vals →
  e = AArr vals ∧ (1 <= List.length vals <= maxSchemaEnum)%nat ∧ ∀ v, v ∈ vals → enumValue v = true.
Proof.
  destruct e as [|b|n|s|l|l|l]; try done. cbn [enumValues].
  destruct (Nat.eqb_spec (List.length l) 0); [done|]. destruct (Nat.ltb_spec maxSchemaEnum (List.length l)); [done|]. cbn [orb].
  destruct (first_error check_enum l) eqn:Hf; [done|]. intros [= ->]. split; [done|]. split; [lia|].
  intros v Hv. pose proof (first_error_all _ _ Hf v Hv) as Hc. unfold check_enum in Hc.
  destruct (is_label (Some v)); [done|]. by destruct (enumValue v).
Qed.

Lemma enumValues_clean e vals : decoded e → enumValues e = Ok vals → clean_tree (AArr vals).
Proof.
  intros Hd Hv. destruct (enumValues_Ok e vals Hv) as (-> & _ & Hall). apply clean_arr. intros x Hx.
  apply enumValue_clean; [by eapply decoded_arr|auto].
Qed.

Lemma map_result_Ok {A B E} (f : A → result E B) l ys : map_result f l = Ok ys → Forall2 (λ x y, f x = Ok y) l ys.
Proof.
  revert ys. induction l as [|x l IH]; intros ys; cbn [map_result]; [by intros [= <-]|].
  destruct (f x) as [y|] eqn:Hf; [|done]. destruct (map_result f l) as [zs|]; [|done]. intros [= <-]. constructor; auto.
Qed.

Lemma str_member_decoded l k s : decoded (AObj l) → str_member l k = Some s → valid_utf8 s = true.
Proof.
  unfold str_member. intros Hd Hs. destruct (obj_get l k) as [v|] eqn:E; [|done].
  destruct v; try done. injection Hs as ->. by apply (decoded_obj_get _ _ _ Hd) in E.
Qed.
Lemma literal_clean s : printable s = true → clean_tree (AStr s).
Proof. apply printable_no_control. Qed.

Lemma oneOf_option_clean x y : decoded x → oneOf_option x = Ok y → clean_tree y.
Proof.
  destruct x as [|b|n|s|l|l|opt]; try done. intros Hd. unfold oneOf_option. destruct (is_label _); [done|].
  destruct (obj_get opt "const") as [c|] eqn:Hc; [|done]. destruct (enumValue c) eqn:He; [|done]. cbn [negb].
  assert (Hcc : clean_tree c) by (apply enumValue_clean; [by eapply decoded_obj_get|done]).
  destruct (str_member opt "title") as [t|].
  - destruct (hasOriginLabel t); [done|]. intros [= <-]. apply (entries_ok_clean ["const"; "title"]); [by apply literal_keys_printable|].
    intros e [-> |[-> |He']%elem_of_cons]%elem_of_cons; [split; [set_solver|done]| |by apply not_elem_of_nil in He'].
    split; [set_solver|]. apply escaped_no_control, escapeControl_escaped.
  - intros [= <-]. apply (entries_ok_clean ["const"]); [by apply literal_keys_printable|].
    intros e ->%list_elem_of_singleton. split; [set_solver|done].
Qed.

Lemma oneOfOptions_clean o opts : decoded o → oneOfOptions o = Ok opts → clean_tree (AArr opts).
Proof.
  destruct o as [|b|n|s|l|l|m]; try done. intros Hd. cbn [oneOfOptions]. destruct (_ || _); [done|].
  intros Hm%map_result_Ok. apply clean_arr. intros y Hy. apply list_elem_of_lookup in Hy as [i Hi].
  destruct (Forall2_lookup_r _ _ _ _ _ Hm Hi) as (x & Hx & Hf). eapply oneOf_option_clean; [|exact Hf].
  eapply decoded_arr; [exact Hd|]. by apply list_elem_of_lookup_2 in Hx.
Qed.

(** A default is clean and the upstream's own. *)
Lemma default_scalar_clean d v : default_scalar d = Ok (Some v) → v = d ∧ clean_tree v.
Proof.
  destruct d as [|b|n|s|l|l|l]; try done; try (by intros [= <-]). cbn [default_scalar].
  destruct (hasOriginLabel s); [done|]. destruct (String.eqb_spec (escapeControl s 0) s) as [E|]; [|by rewrite orb_true_r].
  destruct (_ <? _); [done|]. intros [= <-]. split; [done|]. cbn. rewrite <- E. apply escaped_no_control, escapeControl_escaped.
Qed.

Lemma defaultValue_clean d v : defaultValue d = Ok (Some v) → v = d ∧ clean_tree v.
Proof.
  destruct d as [|b|n|s|l|l|l]; try apply default_scalar_clean. cbn [defaultValue]. destruct (_ <? _)%nat; [done|].
  destruct (default_list l) as [[vs|]|] eqn:Hl; [|done..]. intros [= <-].
  assert (Hvs : vs = l ∧ ∀ x, x ∈ vs → clean_tree x); [|destruct Hvs as [-> Hc]; split; [done|by apply clean_arr]].
  revert vs Hl. induction l as [|x l IH]; intros vs; cbn [default_list]; [intros [= <-]; split; [done|]; by intros y ?%not_elem_of_nil|].
  destruct (default_scalar x) as [[w|]|] eqn:Hx; [|done..]. apply default_scalar_clean in Hx as [-> Hw].
  destruct (default_list l) as [[ws|]|]; [|done..]. intros [= <-]. destruct (IH ws eq_refl) as [-> Hws]. split; [done|].
  intros y [->|Hy]%elem_of_cons; auto.
Qed.

Lemma bind_Ok {E A B} (m : result E A) (f : A → result E B) y : m ≫= f = Ok y → ∃ x, m = Ok x ∧ f x = Ok y.
Proof. destruct m as [x|e]; [|done]. intros H1. by exists x. Qed.

Lemma opt_result_Ok {A B E} (f : A → result E B) o v :
  opt_result f o = Ok v → match o, v with None, None => True | Some x, Some y => f x = Ok y | _, _ => False end.
Proof. destruct o as [x|]; cbn; [|by intros [= <-]]. destruct (f x); [|done]. by intros [= <-]. Qed.

Lemma relabel_items_clean pm v : decoded (AObj pm) → relabel_items pm = Ok v → clean_tree v.
Proof.
  intros Hd. unfold relabel_items, obj_member. destruct (obj_get pm "items") as [i|] eqn:Hi; [|done].
  pose proof (decoded_obj_get _ _ _ Hd Hi) as Hdi. destruct i as [|b|n|s|l|l|items]; try done.
  destruct (obj_get items "enum") as [e|] eqn:He; [|done]. pose proof (decoded_obj_get _ _ _ Hdi He) as Hde.
  intros (vals & Hv & Hr)%bind_Ok. injection Hr as <-. apply (enumValues_clean e) in Hv; [|done].
  apply (entries_ok_clean ["enum"; "type"]); [by apply literal_keys_printable|].
  assert (Hb : entries_ok ["enum"; "type"] [("enum", AArr vals)]) by (intros x ->%list_elem_of_singleton; split; [set_solver|done]).
  destruct (str_member items "type") as [ty|]; [|done].
  destruct (String.eqb ty "string" || String.eqb ty "number" || String.eqb ty "integer") eqn:E; [|done].
  change (entries_ok ["enum"; "type"] (obj_set [("enum", AArr vals)] "type" (AStr ty))).
  apply entries_ok_set; [set_solver| |done]. rewrite !orb_true_iff, !String.eqb_eq in E.
  destruct E as [[-> | ->]| ->]; by apply literal_clean.
Qed.

Lemma keep_numbers_ok pm ks out keys :
  (∀ k, k ∈ ks → k ∈ keys) → entries_ok keys out → entries_ok keys (foldl (keep_number pm) out ks).
Proof.
  revert out. induction ks as [|k ks IH]; intros out Hk Ho; [done|]. cbn [foldl]. apply IH; [intros x Hx; apply Hk; by right|].
  unfold keep_number. destruct (obj_get pm k) as [[]|]; try done. apply entries_ok_set; [apply Hk; by left|done|done].
Qed.

Lemma set_opt_other out k v k2 : k ≠ k2 → obj_get (set_opt out k v) k2 = obj_get out k2.
Proof. intros Hk. destruct v; [by apply obj_get_set_ne|done]. Qed.

Lemma keep_numbers_other pm ks out k : k ∉ ks → obj_get (foldl (keep_number pm) out ks) k = obj_get out k.
Proof.
  revert out. induction ks as [|j ks IH]; intros out Hk; [done|]. cbn [foldl]. rewrite IH by set_solver.
  unfold keep_number. destruct (obj_get pm j) as [[]|]; try done. apply obj_get_set_ne. set_solver.
Qed.
(** ** One property *)

(** What is kept of the property [v] named [name]. *)
Definition property_ok (server : string) (v prop : any) : Prop :=
  ∃ pm o, v = AObj pm ∧ prop = AObj o ∧ entries_ok property_keys o ∧
    (∃ t, obj_get o "title" = Some t ∧ labelled server t) ∧
    (∀ e, obj_get o "enum" = Some e → obj_get pm "enum" = Some e) ∧
    (∀ d, obj_get o "default" = Some d → obj_get pm "default" = Some d) ∧
    (∃ t, t ∈ property_types ∧ obj_get pm "type" = Some (AStr t) ∧ obj_get o "type" = Some (AStr t)).

Lemma obj_get_set_opt o k v : obj_get o k = None → obj_get (set_opt o k v) k = v.
Proof. intros Ho. destruct v; [apply obj_get_set_eq|done]. Qed.

(** The parts of an accepted property. *)
Lemma relabelProperty_inv server name pm o : relabelProperty server name (AObj pm) = Ok o →
  ∃ t title desc enum oneOf items def,
    o = set_opt (set_opt (set_opt (set_opt (foldl (keep_number pm) (set_opt (set_opt (obj_set [("type", AStr t)] "title" title)
          "description" desc) "format" (kept_format (str_member pm "format"))) number_keys)
          "enum" (AArr <$> enum)) "oneOf" (AArr <$> oneOf)) "items" items) "default" def ∧
    (t ∈ property_types ∧ obj_get pm "type" = Some (AStr t)) ∧
    labelled server title ∧
    (∀ x, desc = Some x → ∃ s, x = AStr (escapeControl s maxPromptText)) ∧
    (∀ vals, enum = Some vals → ∃ e, obj_get pm "enum" = Some e ∧ enumValues e = Ok vals) ∧
    (∀ opts, oneOf = Some opts → ∃ e, obj_get pm "oneOf" = Some e ∧ oneOfOptions e = Ok opts) ∧
    (∀ x, items = Some x → relabel_items pm = Ok x) ∧
    (∀ x, def = Some x → ∃ e, obj_get pm "default" = Some e ∧ defaultValue e = Ok (Some x)).
Proof.
  unfold relabelProperty. set (t := default EmptyString (str_member pm "type")).
  destruct (existsb (String.eqb t) property_types) eqn:Ht; [|done]. cbn [negb].
  intros (title & Htitle & Hr)%bind_Ok. apply bind_Ok in Hr as (desc & Hdesc & Hr).
  apply bind_Ok in Hr as (enum & Henum & Hr). apply bind_Ok in Hr as (oneOf & Hone & Hr).
  apply bind_Ok in Hr as (items & Hitems & Hr). apply bind_Ok in Hr as (def & Hdef & Hr). injection Hr as <-.
  exists t, title, desc, enum, oneOf, items, (mjoin def). split; [done|]. split; [|split; [|split; [|split; [|split; [|split] ] ] ] ].
  - apply existsb_exists in Ht as (x & Hx & Heq). apply String.eqb_eq in Heq as <-. split; [by apply list_elem_of_In|].
    unfold t, str_member in *. destruct (obj_get pm "type") as [[]|]; try done; cbn in Hx; intuition discriminate.
  - apply shown_string_Ok in Htitle as [Hl ->]. by exists (default name (str_member pm "title")).
  - intros x ->. apply opt_result_Ok in Hdesc. destruct (str_member pm "description") as [s|]; [|done].
    apply shown_string_Ok in Hdesc as [_ ->]. by exists s.
  - intros vals ->. apply opt_result_Ok in Henum. destruct (obj_get pm "enum") as [e|]; [|done]. by exists e.
  - intros opts ->. apply opt_result_Ok in Hone. destruct (obj_get pm "oneOf") as [e|]; [|done]. by exists e.
  - intros x ->. destruct (String.eqb t "array"); [|done]. by apply opt_result_Ok in Hitems.
  - intros x Hj. apply opt_result_Ok in Hdef. destruct (obj_get pm "default") as [e|], def as [d|]; try done. cbn in Hj. subst d. by exists e.
Qed.

Lemma kept_format_clean f x : kept_format f = Some x → clean_tree x.
Proof.
  unfold kept_format. destruct f as [f|]; [|done]. destruct (existsb _ _) eqn:E; [|done]. intros [= <-].
  apply existsb_exists in E as (y & Hy & Heq). apply String.eqb_eq in Heq as <-. apply list_elem_of_In in Hy.
  apply literal_clean. by apply (literal_keys_printable allowedFormats).
Qed.

Lemma relabelProperty_entries server name pm o :
  no_control server → decoded (AObj pm) → relabelProperty server name (AObj pm) = Ok o → entries_ok property_keys o.
Proof.
  intros Hserver Hd Ho.
  destruct (relabelProperty_inv _ _ _ _ Ho) as (t & title & desc & enum & oneOf & items & def & -> & [Ht _] & (u & _ & ->) & Hdesc & Henum & Hone & Hitems & Hdef).
  assert (Hk : ∀ k, existsb (String.eqb k) property_keys = true → k ∈ property_keys).
  { intros k (x & Hx & ->%String.eqb_eq)%existsb_exists. by apply list_elem_of_In. }
  repeat (apply entries_ok_set_opt; [by apply Hk| |]).
  - intros x Hx. destruct (Hdef x Hx) as (e & _ & He). by apply defaultValue_clean in He as [_ ?].
  - intros x Hx. eapply relabel_items_clean; [exact Hd|auto].
  - intros x Hx. destruct oneOf as [opts|]; [|done]. injection Hx as <-. destruct (Hone opts eq_refl) as (e & He & Hv).
    eapply oneOfOptions_clean; [|exact Hv]. by eapply decoded_obj_get.
  - intros x Hx. destruct enum as [vals|]; [|done]. injection Hx as <-. destruct (Henum vals eq_refl) as (e & He & Hv).
    eapply enumValues_clean; [|exact Hv]. by eapply decoded_obj_get.
  - apply keep_numbers_ok; [unfold number_keys, property_keys; set_solver|].
    repeat (apply entries_ok_set_opt; [by apply Hk| |]).
    + apply kept_format_clean.
    + intros x Hx. destruct (Hdesc x Hx) as (s & ->). apply escaped_no_control, escapeControl_escaped.
    + apply entries_ok_set; [by apply Hk| |].
      * apply no_control_app; [by apply promptLabel_no_control|apply escaped_no_control, escapeControl_escaped].
      * intros x ->%list_elem_of_singleton. split; [by apply Hk|]. apply literal_clean. by apply (literal_keys_printable property_types).
Qed.

Lemma relabelProperty_ok server name v o :
  no_control server → decoded v → relabelProperty server name v = Ok o → property_ok server v (AObj o).
Proof.
  intros Hserver Hd Ho. destruct v as [|b|n|s|l|l|pm]; try done. exists pm, o. split; [done|]. split; [done|].
  split; [by eapply relabelProperty_entries|].
  destruct (relabelProperty_inv _ _ _ _ Ho) as (t & title & desc & enum & oneOf & items & def & -> & [Ht Htype] & Htitle & _ & Henum & _ & _ & Hdef).
  assert (Hn : ∀ k, existsb (String.eqb k) number_keys = false → k ∉ number_keys).
  { intros k Hk Hin. apply list_elem_of_In in Hin. assert (existsb (String.eqb k) number_keys = true); [|congruence].
    apply existsb_exists. exists k. split; [done|]. apply String.eqb_refl. }
  split; [|split; [|split] ].
  - exists title. split; [|done]. rewrite !set_opt_other, keep_numbers_other, !set_opt_other by (done || by apply Hn). apply obj_get_set_eq.
  - intros e. rewrite !set_opt_other by done. destruct enum as [vals|]; cbn [fmap option_fmap option_map set_opt].
    + rewrite obj_get_set_eq. intros [= <-]. destruct (Henum vals eq_refl) as (e' & He & Hv). by apply enumValues_Ok in Hv as [-> _].
    + rewrite keep_numbers_other, !set_opt_other, obj_get_set_ne by (done || by apply Hn). done.
  - intros d. destruct def as [x|]; cbn [set_opt].
    + rewrite obj_get_set_eq. intros [= <-]. destruct (Hdef x eq_refl) as (e & He & Hv). by apply defaultValue_clean in Hv as [-> _].
    + rewrite !set_opt_other, keep_numbers_other, !set_opt_other, obj_get_set_ne by (done || by apply Hn). done.
  - exists t. split; [done|]. split; [done|]. by rewrite !set_opt_other, keep_numbers_other, !set_opt_other, obj_get_set_ne by (done || by apply Hn).
Qed.

(** ** The form *)

(** A kept property: the name as the upstream gave it, fit to be shown, and
    its rebuilt definition. *)
Definition entry_ok (server : string) (given kept : string * any) : Prop :=
  fst kept = fst given ∧ no_control (fst kept) ∧ hasOriginLabel (fst kept) = false ∧ property_ok server (snd given) (snd kept).

Lemma property_ok_clean server v prop : property_ok server v prop → clean_tree prop.
Proof. intros (pm & o & _ & -> & Ho & _). eapply entries_ok_clean; [|exact Ho]. by apply literal_keys_printable. Qed.

Lemma relabel_entry_ok server e e' :
  no_control server → valid_utf8 (fst e) = true → decoded (snd e) → relabel_entry server e = Ok e' → entry_ok server e e'.
Proof.
  intros Hs Hv Hd. unfold relabel_entry. destruct (bad_name (fst e)) eqn:Hb; [done|].
  destruct (hasOriginLabel (fst e)) eqn:Hl; [done|]. intros (prop & Hp & Hr)%bind_Ok. injection Hr as <-. cbn [fst snd].
  split; [done|]. split; [|split; [done|by eapply relabelProperty_ok] ].
  apply has_control_no_control; [done|]. unfold bad_name in Hb. by breflect.
Qed.

Lemma relabel_properties_ok server p props :
  no_control server → decoded p → relabel_properties server p = Ok props →
  ∃ pm, p = AObj pm ∧ (List.length pm <= maxSchemaProperties)%nat ∧ Forall2 (entry_ok server) pm props.
Proof.
  intros Hs Hd. destruct p as [|b|n|s|l|l|pm]; try done. cbn [relabel_properties].
  destruct (Nat.ltb_spec maxSchemaProperties (List.length pm)); [done|]. intros Hm%map_result_Ok. exists pm. split; [done|]. split; [lia|].
  unfold decoded in Hd. cbn [wf_json] in Hd. apply andb_prop in Hd as [_ Hall]. rewrite forallb_elem in Hall. clear -Hm Hall Hs.
  induction Hm as [|e e' pm props He Hm IH]; [done|]. constructor.
  - destruct (andb_prop _ _ (Hall e (list_elem_of_here _ _))) as [Hk Hv]. by apply relabel_entry_ok.
  - apply IH. intros x Hx. apply Hall. by right.
Qed.

Lemma relabel_required_clean server pm props r v :
  Forall2 (entry_ok server) pm props → relabel_required props r = Ok (Some v) → clean_tree v.
Proof.
  intros Hp. destruct r as [|b|n|s|l|l|m]; try done. cbn [relabel_required]. intros [= Hr].
  set (req := List.filter _ l) in Hr.
  assert (Hall : ∀ x, x ∈ req → clean_tree x).
  { intros x Hx%list_elem_of_In. apply filter_In in Hx as [_ Hx]. destruct x as [|b|n|s|k|k|m]; try done.
    unfold obj_get in Hx. destruct (List.find _ props) as [e|] eqn:Hf; [|done]. apply find_some in Hf as [Hin Heq].
    apply String.eqb_eq in Heq as <-. apply list_elem_of_In, list_elem_of_lookup in Hin as [i Hi].
    destruct (Forall2_lookup_r _ _ _ _ _ Hp Hi) as (g & _ & _ & Hc & _). exact Hc. }
  destruct req as [|x req]; [done|]. injection Hr as <-. by apply clean_arr.
Qed.

(** What a rebuilt form is, next to the upstream's. *)
Definition rebuilt (server : string) (input o : list (string * any)) : Prop :=
  entries_ok root_keys o ∧
  obj_get o "type" = Some (AStr "object") ∧
  (∀ t, obj_get o "title" = Some t → labelled server t) ∧
  (∀ ps, obj_get o "properties" = Some ps → ∃ pm props, obj_get input "properties" = Some (AObj pm) ∧ ps = AObj props ∧
     (List.length pm <= maxSchemaProperties)%nat ∧ Forall2 (entry_ok server) pm props).

Lemma rebuild_ok server input o :
  no_control server → decoded (AObj input) → rebuild server input = Ok o → rebuilt server input o.
Proof.
  intros Hs Hd. unfold rebuild. intros ([] & _ & Hr)%bind_Ok. apply bind_Ok in Hr as (title & Htitle & Hr).
  apply bind_Ok in Hr as (desc & Hdesc & Hr). apply bind_Ok in Hr as (props & Hprops & Hr). apply bind_Ok in Hr as (req & Hreq & Hr).
  injection Hr as <-.
  assert (Ht : ∀ t, title = Some t → labelled server t).
  { intros t ->. apply opt_result_Ok in Htitle. destruct (str_member input "title") as [s|]; [|done].
    apply shown_string_Ok in Htitle as [Hl ->]. by exists s. }
  assert (Hp : ∀ ps, props = Some ps → ∃ pm, obj_get input "properties" = Some (AObj pm) ∧
    (List.length pm <= maxSchemaProperties)%nat ∧ Forall2 (entry_ok server) pm ps).
  { intros ps ->. apply opt_result_Ok in Hprops. destruct (obj_get input "properties") as [p|] eqn:Ep; [|done].
    apply relabel_properties_ok in Hprops as (pm & -> & Hn & Hf); [by exists pm|done|by eapply decoded_obj_get]. }
  assert (Hk : ∀ k, existsb (String.eqb k) root_keys = true → k ∈ root_keys).
  { intros k (x & Hx & ->%String.eqb_eq)%existsb_exists. by apply list_elem_of_In. }
  split; [|split; [|split] ].
  - repeat (apply entries_ok_set_opt; [by apply Hk| |]).
    + intros v Hv. apply opt_result_Ok in Hreq. destruct (obj_get input "required") as [r|], req as [req|]; try done. cbn in Hv. subst req.
      destruct props as [ps|]; [destruct (Hp ps eq_refl) as (pm & _ & _ & Hf)|pose proof (Forall2_nil (entry_ok server)) as Hf];
        by eapply (relabel_required_clean server).
    + intros v Hv. destruct props as [ps|]; [|done]. injection Hv as <-. destruct (Hp ps eq_refl) as (pm & _ & _ & Hf).
      apply clean_obj. intros e He. apply list_elem_of_lookup in He as [i Hi].
      destruct (Forall2_lookup_r _ _ _ _ _ Hf Hi) as (g & _ & _ & Hc & _ & Hpo). split; [done|by apply (property_ok_clean server (snd g))].
    + intros v ->. apply opt_result_Ok in Hdesc. destruct (str_member input "description") as [s|]; [|done].
      eapply (shown_clean ""); [by apply printable_no_control|exact Hdesc].
    + intros v Hv. destruct (Ht v Hv) as (u & _ & ->).
      apply no_control_app; [by apply promptLabel_no_control|apply escaped_no_control, escapeControl_escaped].
    + intros x ->%list_elem_of_singleton. split; [by apply Hk|by apply literal_clean].
  - by rewrite !set_opt_other by done.
  - intros t. rewrite !set_opt_other by done. destruct title as [t'|]; cbn [set_opt]; [|done]. rewrite obj_get_set_eq. intros [= <-]. by apply Ht.
  - intros ps. rewrite set_opt_other by done. destruct props as [pl|]; cbn [fmap option_fmap option_map set_opt].
    + rewrite obj_get_set_eq. intros [= <-]. destruct (Hp pl eq_refl) as (pm & H1 & H2 & H3). by exists pm, pl.
    + by rewrite !set_opt_other by done.
Qed.
End Shown.

Lemma json_decode_wf num_ok s v : json_decode num_ok s = Some v → wf_json num_ok v = true.
Proof.
  unfold json_decode. destruct (run _ _ _ (tokens s) MVal []) as [w [|]| |] eqn:E; try done. intros [= <-].
  eapply (run_wf num_ok _ _ (tokens s) MVal []); [by apply lex_good|done|constructor|exact E].
Qed.

(** A form is passed to the agent only as rebuilt from the allow-list: of
    at most 16 KiB, with only the listed keywords; every string in it, names
    included, is UTF-8 without control characters; the form's title and every
    property's title begin with the upstream's label and none reads as another
    label; and property names, enum values and defaults, which the answer is
    made of, are the upstream's own. *)
Theorem relabelSchema_safe `{Unicode} server s out :
  no_control server →
  relabelSchema server s = Ok (Some out) →
  clean_tree out ∧ slen (marshal out) <= maxSchemaBytes ∧
  ∃ input o, json_decode any_number (marshal s) = Some (AObj input) ∧ out = AObj o ∧ rebuilt server input o.
Proof.
  intros Hs Hr.
  assert (Hx : ∃ input o, json_decode any_number (marshal s) = Some (AObj input) ∧ rebuild server input = Ok o ∧
    slen (marshal (AObj o)) <= maxSchemaBytes ∧ out = AObj o).
  { unfold relabelSchema in Hr. destruct s; try discriminate Hr.
    all: match type of Hr with context [maxSchemaInput <? ?x] => destruct (maxSchemaInput <? x) end; [discriminate Hr|].
    all: match type of Hr with context [json_decode ?a ?b] => destruct (json_decode a b) as [[| | | | | |input]|] end; try discriminate Hr.
    all: apply bind_Ok in Hr as (o & Ho & Hr).
    all: match type of Hr with context [maxSchemaBytes <? ?x] => destruct (Z.ltb_spec maxSchemaBytes x) end; [discriminate Hr|].
    all: injection Hr as <-; by exists input, o. }
  destruct Hx as (input & o & Hin & Ho & Hl & ->). apply json_decode_wf in Hin as Hwf.
  pose proof (rebuild_ok server input o Hs Hwf Ho) as Hreb. split; [|split; [done|by exists input, o] ].
  destruct Hreb as [He _]. eapply entries_ok_clean; [|exact He]. by apply literal_keys_printable.
Qed.

Lemma relabelSchema_safe_witness :
  clean_tree (H := ascii_tables) (AObj [("title", AStr "[from nb] Pick"); ("type", AStr "object")]).
Proof.
  assert (E : @relabelSchema ascii_tables "nb" (AObj [("title", AStr "Pick")]) =
    Ok (Some (AObj [("title", AStr "[from nb] Pick"); ("type", AStr "object")]))) by (vm_compute; reflexivity).
  exact (proj1 (@relabelSchema_safe ascii_tables "nb" _ _ (@printable_no_control ascii_tables "nb" eq_refl) E)).
Defined.
