(* ===== verification/ReqState.v ===== *)
(** * requestState envelopes: internal/proxy/state.go

    Sealing the state of a call that waits for input, opening what an agent
    presents, and the digest that binds a call's arguments.  The cipher
    (AES-256-GCM) is a parameter.  Theorems: what is sealed opens, for the
    agent side it was sealed for and until it expires; what opens was sealed;
    equal digests mean equal arguments. *)

From S2P Require Import Prelude GoStd GoCrypto Json JsonCompact JsonMarshal JsonStruct.

Open Scope string_scope.
Open Scope Z_scope.
Open Scope list_scope.

Definition statePrefix : string := "fg4.".
Definition maxRequestState : Z := 64 * 1024.
Definition maxSealedState : Z := 96 * 1024.
Definition stateTTL : Z := 30 * 60.          (* seconds *)
Definition maxInputRounds : Z := 10.

Record sealedState := {
  ss_Server : string; ss_Tool : string; ss_Args : string; ss_IDs : option (list string);
  ss_Up : string; ss_Round : Z; ss_Prompts : Z; ss_Exp : Z;
}.

Definition retiredStatePrefixes : list string := ["ng1."; "ng2."; "ng3."].

Inductive state_error := errStateMalformed | errStateAuth | errStateRetired | errStateExpired | errStateTooLarge | errNonce.

(** errNonce is an error of crypto/rand; its text is not the program's. *)
Definition state_error_text (e : state_error) : string :=
  match e with
  | errStateMalformed => "requestState was not issued by fathomgate"
  | errStateAuth => "requestState does not verify"
  | errStateRetired => "requestState was issued by an earlier fathomgate process; call the tool again without it"
  | errStateExpired => "requestState has expired; call the tool again without it"
  | errStateTooLarge => "the sealed requestState would exceed the size fathomgate accepts"
  | errNonce => "proxy: requestState nonce"
  end.

Inductive agentTransport := transportStdio | transportHTTP.
#[export] Instance agentTransport_eq : EqDecision agentTransport.
Proof. solve_decision. Defined.

Definition transport_string (t : agentTransport) : string := match t with transportStdio => "stdio" | transportHTTP => "http" end.

Record stateBinding := { sb_transport : agentTransport; sb_principal : string }.

Definition nul : ascii := "000"%char.

Definition aad (b : stateBinding) : string :=
  (statePrefix ++ transport_string (sb_transport b) ++ String nul (sb_principal b ++ String nul ""))%string.

(** ** The plaintext *)

Definition state_fields (st : sealedState) : list (string * any) :=
  [("s", AStr (ss_Server st)); ("t", AStr (ss_Tool st)); ("a", AStr (ss_Args st)); ("i", strs_tree (ss_IDs st))] ++
  omit_empty "u" (ss_Up st) ++
  [("r", ANum (itoa (ss_Round st))); ("p", ANum (itoa (ss_Prompts st))); ("e", ANum (itoa (ss_Exp st)))].

Definition state_tree (st : sealedState) : any := AObj (state_fields st).

(** The struct json.Unmarshal fills. *)
Record state_decoding := { sd_strings : string → string; sd_ids : slice; sd_numbers : string → Z }.

Definition state_decoding0 : state_decoding := {| sd_strings := λ _, ""; sd_ids := None; sd_numbers := λ _, 0 |}.

Definition state_names : list string := ["s"; "t"; "a"; "i"; "u"; "r"; "p"; "e"].

Definition set_state (n : string) (d : state_decoding) (ts : list token) : option state_decoding :=
  if String.eqb n "i" then
    (λ x, {| sd_strings := sd_strings d; sd_ids := x; sd_numbers := sd_numbers d |}) <$> into_slice (sd_ids d) ts
  else if String.eqb n "r" || String.eqb n "p" || String.eqb n "e" then
    (λ x, {| sd_strings := sd_strings d; sd_ids := sd_ids d; sd_numbers := λ m, if String.eqb m n then x else sd_numbers d m |})
    <$> into_number parse_int64 (sd_numbers d n) ts
  else
    (λ x, {| sd_strings := λ m, if String.eqb m n then x else sd_strings d m; sd_ids := sd_ids d; sd_numbers := sd_numbers d |})
    <$> into_string (sd_strings d n) ts.

Definition decoded_state (d : state_decoding) : sealedState :=
  {| ss_Server := sd_strings d "s"; ss_Tool := sd_strings d "t"; ss_Args := sd_strings d "a"; ss_IDs := slice_strings (sd_ids d);
     ss_Up := sd_strings d "u"; ss_Round := sd_numbers d "r"; ss_Prompts := sd_numbers d "p"; ss_Exp := sd_numbers d "e" |}.

Definition unmarshal_state (plain : string) : option sealedState :=
  if json_valid plain then decoded_state <$> into_struct false state_names set_state state_decoding0 (tokens plain) else None.

Definition with_Exp (st : sealedState) (e : Z) : sealedState :=
  {| ss_Server := ss_Server st; ss_Tool := ss_Tool st; ss_Args := ss_Args st; ss_IDs := ss_IDs st;
     ss_Up := ss_Up st; ss_Round := ss_Round st; ss_Prompts := ss_Prompts st; ss_Exp := e |}.

(** ** The cipher *)

(** crypto/cipher.AEAD with the process's key: nonce, text, additional data. *)
Class AEAD := {
  NonceSize : nat;
  Overhead : nat;
  aead_Seal : string → string → string → string;
  aead_Open : string → string → string → option string;
}.

(** What its documentation states: Open authenticates exactly what Seal writes
    for that nonce, text and additional data, and Seal adds Overhead bytes. *)
Class AEADLaws (A : AEAD) : Prop := {
  aead_open_seal nonce p a : String.length nonce = NonceSize → aead_Open nonce (aead_Seal nonce p a) a = Some p;
  aead_seal_open nonce c p a : String.length nonce = NonceSize → aead_Open nonce c a = Some p → c = aead_Seal nonce p a;
  aead_seal_length nonce p a : String.length nonce = NonceSize → String.length (aead_Seal nonce p a) = (String.length p + Overhead)%nat;
}.

Section Sealer.
Context `{AEAD}.

(** [now] is the clock in Unix seconds; [nonce] what crypto/rand gives, [None]
    when it fails. *)
Definition seal (now : Z) (nonce : option string) (st : sealedState) (b : stateBinding) : result state_error string :=
  let plain := marshal (state_tree (with_Exp st (now + stateTTL))) in
  match nonce with
  | None => Err errNonce
  | Some nonce =>
      let out := (statePrefix ++ base64url_encode (nonce ++ aead_Seal nonce plain (aad b)))%string in
      if maxSealedState <? slen out then Err errStateTooLarge else Ok out
  end.

Definition open (now : Z) (state : string) (b : stateBinding) : result state_error sealedState :=
  if maxSealedState <? slen state then Err errStateMalformed
  else match cut_prefix statePrefix state with
  | None => if existsb (has_prefix state) retiredStatePrefixes then Err errStateRetired else Err errStateMalformed
  | Some body =>
      match base64url_decode body with
      | None => Err errStateMalformed
      | Some sealed =>
          if (String.length sealed <? NonceSize + Overhead)%nat then Err errStateMalformed
          else match aead_Open (s_take NonceSize sealed) (s_drop NonceSize sealed) (aad b) with
          | None => Err errStateAuth
          | Some plain =>
              match unmarshal_state plain with
              | None => Err errStateMalformed
              | Some st => if ss_Exp st <? now then Err errStateExpired else Ok st
              end
          end
      end
  end.
End Sealer.

(** ** The digest of a call's arguments *)

(** Absent and null arguments are an empty object. *)
Definition sent_args (raw : string) : string := if String.eqb raw "" || String.eqb raw "null" then "{}" else raw.

Definition argsDigest (raw : string) : string :=
  let raw := sent_args raw in
  base64url_encode (sha256 (match Compact raw with Some c => c | None => raw end)).

(** ** The plaintext is read back *)

(** What json keeps of a state: strings in UTF-8, numbers in int64. *)
Definition state_ok (st : sealedState) : Prop :=
  Forall fixed [ss_Server st; ss_Tool st; ss_Args st; ss_Up st] ∧ coerce_strs (ss_IDs st) = ss_IDs st ∧
  Forall (λ z, - 2 ^ 63 <= z < 2 ^ 63) [ss_Round st; ss_Prompts st; ss_Exp st].

Lemma state_tree_numbers st : numbers_ok (state_tree st) = true.
Proof.
  unfold state_tree, state_fields. cbn [numbers_ok]. rewrite !forallb_app, forallb_omit_empty by done.
  cbn [forallb snd numbers_ok]. by rewrite strs_tree_numbers, !num_lit_itoa.
Qed.

Lemma state_tree_plain st : plain (state_tree st) = true.
Proof.
  unfold state_tree, state_fields. cbn [plain]. rewrite !forallb_app, forallb_omit_empty by done.
  cbn [forallb snd plain]. by rewrite strs_plain.
Qed.

Lemma state_tree_depth st : (depth (state_tree st) ≤ maxNestingDepth)%nat.
Proof.
  apply small_depth. etrans; [apply (depth_obj_le 1)|lia]. unfold state_fields. intros e. rewrite !elem_of_app.
  intros [He|[He|He] ].
  2:{ rewrite (depth_omit_empty _ _ _ He). lia. }
  all: rewrite ?elem_of_cons in He; repeat (destruct He as [->|He]; [cbn [snd]; try apply depth_strs; cbn; lia|]).
  all: by apply not_elem_of_nil in He.
Qed.

Lemma coerced_state_tree st : state_ok st → coerced (state_tree st) = state_tree st.
Proof.
  intros (Hs & Hi & _). rewrite !Forall_cons in Hs. destruct Hs as (H1 & H2 & H3 & H4 & _).
  unfold state_tree, state_fields. cbn [coerced]. f_equal. rewrite !map_app, coerce_omit_empty by done.
  unfold fixed in *. cbn [map fst snd coerced]. rewrite coerced_strs. by rewrite H1, H2, H3, H4, Hi.
Qed.

Lemma read_state st : state_ok st →
  ∃ d, into_fields false state_names set_state state_decoding0 (fields_toks (state_fields st)) = Some d ∧ decoded_state d = st.
Proof.
  intros (_ & _ & Hn). rewrite !Forall_cons in Hn. destruct Hn as (Hr & Hp & He & _). destruct st as [s t a i u r p e].
  cbn [ss_Round ss_Prompts ss_Exp] in *. unfold state_fields. cbn [ss_Server ss_Tool ss_Args ss_IDs ss_Up ss_Round ss_Prompts ss_Exp].
  assert (Hnum : ∀ d es n z, n = "r" ∨ n = "p" ∨ n = "e" → - 2 ^ 63 <= z < 2 ^ 63 →
    into_fields false state_names set_state d ((n, toks (ANum (itoa z))) :: es) =
    into_fields false state_names set_state {| sd_strings := sd_strings d; sd_ids := sd_ids d;
      sd_numbers := λ m, if String.eqb m n then z else sd_numbers d m |} es).
  { intros d es n z Hz Hrange.
    assert (Hset : set_state n d [TNum (itoa z)] = Some {| sd_strings := sd_strings d; sd_ids := sd_ids d;
      sd_numbers := λ m, if String.eqb m n then z else sd_numbers d m |}).
    { destruct Hz as [-> |[-> | ->]]; unfold set_state; cbn [String.eqb Ascii.eqb Bool.eqb orb into_number]; by rewrite parse_int64_itoa. }
    cbn [into_fields toks]. destruct Hz as [-> |[-> | ->]]; change (field_of state_names ?k) with (Some k); cbv iota beta; by rewrite Hset. }
  assert (Hids : ∀ d es, sd_ids d = None → into_fields false state_names set_state d (("i", toks (strs_tree i)) :: es) =
    into_fields false state_names set_state {| sd_strings := sd_strings d; sd_ids := strs_slice i; sd_numbers := sd_numbers d |} es).
  { intros d es Hd. cbn [into_fields]. change (field_of state_names "i") with (Some "i"). cbv iota beta.
    unfold set_state. cbn [String.eqb Ascii.eqb Bool.eqb]. by rewrite Hd, into_slice_strs. }
  unfold fields_toks. cbn [app map fst snd]. rewrite map_app. cbn [map fst snd].
  change (into_fields false state_names set_state state_decoding0 (("s", toks (AStr s)) :: ("t", toks (AStr t)) :: ("a", toks (AStr a)) :: ?es))
    with (into_fields false state_names set_state {| sd_strings := λ m, if String.eqb m "a" then a else if String.eqb m "t" then t else
      if String.eqb m "s" then s else ""; sd_ids := None; sd_numbers := λ _, 0 |} es).
  rewrite Hids by done. unfold omit_empty. destruct (String.eqb_spec u "") as [->|Hu].
  - cbn [map app]. rewrite !Hnum by auto. eexists. split; [reflexivity|]. unfold decoded_state. cbn -[slice_strings strs_slice].
    by rewrite slice_strings_strs.
  - cbn [map app fst snd].
    match goal with |- context [into_fields _ _ _ ?d ((_, toks (AStr u)) :: ?es)] =>
      change (into_fields false state_names set_state d (("u", toks (AStr u)) :: es)) with
        (into_fields false state_names set_state {| sd_strings := λ m, if String.eqb m "u" then u else sd_strings d m;
           sd_ids := sd_ids d; sd_numbers := sd_numbers d |} es) end.
    rewrite !Hnum by auto. eexists. split; [reflexivity|]. unfold decoded_state. cbn -[slice_strings strs_slice].
    by rewrite slice_strings_strs.
Qed.

Lemma unmarshal_marshal_state st : state_ok st → unmarshal_state (marshal (state_tree st)) = Some st.
Proof.
  intros Hs. unfold unmarshal_state.
  rewrite json_valid_marshal by (apply state_tree_numbers || (rewrite coerced_state_tree by done; apply state_tree_depth)).
  rewrite tokens_marshal by apply state_tree_numbers. rewrite coerced_state_tree by done. unfold state_tree.
  rewrite into_struct_obj by (apply state_tree_plain || apply state_tree_depth).
  destruct (read_state st Hs) as (d & Hd & Hst). unfold fields_toks in Hd. rewrite Hd. cbn. by rewrite Hst.
Qed.

(** ** The binding *)

(** Principal names hold no NUL (validPrincipalName). *)
Definition binding_ok (b : stateBinding) : Prop := contains_b nul (sb_principal b) = false.

Lemma split_nul a1 b1 a2 b2 : contains_b nul a1 = false → contains_b nul a2 = false →
  (a1 ++ String nul b1)%string = (a2 ++ String nul b2)%string → a1 = a2 ∧ b1 = b2.
Proof.
  revert a2. induction a1 as [|c a1 IH]; intros [|d a2] H1 H2 E; cbn in *.
  - by injection E.
  - injection E as <- _. done.
  - injection E as -> _. done.
  - apply orb_false_elim in H1 as [_ H1]. apply orb_false_elim in H2 as [_ H2]. injection E as -> E.
    by destruct (IH a2 H1 H2 E) as [-> ->].
Qed.

(** The additional data names the transport and the principal. *)
Lemma aad_inj b b' : binding_ok b → binding_ok b' → aad b = aad b' → b = b'.
Proof.
  intros Hb Hb' E. unfold aad in E. injection E as E.
  apply split_nul in E as [Ht E]; [|by destruct (sb_transport b)|by destruct (sb_transport b')].
  apply split_nul in E as [Hp _]; [|done..]. destruct b as [t p], b' as [t' p']. cbn in *.
  f_equal; [by destruct t, t'|done].
Qed.

(** ** Opening *)

Section Laws.
Context `{A : AEAD} `{!AEADLaws A}.

Lemma s_take_app_exact a b : s_take (String.length a) (a ++ b) = a.
Proof. induction a as [|c a IH]; cbn; [by destruct b|by rewrite IH]. Qed.
Lemma s_drop_app_exact a b : s_drop (String.length a) (a ++ b) = b.
Proof. induction a as [|c a IH]; cbn; [by destruct b|done]. Qed.

(** Two different texts, or additional data, with one ciphertext under one
    nonce. *)
Definition seal_collision : Prop :=
  ∃ nonce p a p' a', (p, a) ≠ (p', a') ∧ aead_Seal nonce p a = aead_Seal nonce p' a'.

Lemma open_Ok now state b st :
  open now state b = Ok st →
  ∃ nonce plain, String.length nonce = NonceSize ∧ slen state <= maxSealedState ∧
    option_bind _ _ base64url_decode (cut_prefix statePrefix state) = Some (nonce ++ aead_Seal nonce plain (aad b))%string ∧
    unmarshal_state plain = Some st ∧ now <= ss_Exp st.
Proof.
  unfold open. destruct (Z.ltb_spec maxSealedState (slen state)); [done|].
  destruct (cut_prefix statePrefix state) as [body|]; [|by destruct (existsb _ _)].
  destruct (base64url_decode body) as [sealed|] eqn:Hd; [|done].
  destruct (Nat.ltb_spec (String.length sealed) (NonceSize + Overhead)); [done|].
  destruct (aead_Open _ _ _) as [plain|] eqn:Ho; [|done]. destruct (unmarshal_state plain) as [st'|] eqn:Hu; [|done].
  destruct (Z.ltb_spec (ss_Exp st') now); [done|]. intros [= ->].
  assert (Hn : String.length (s_take NonceSize sealed) = NonceSize) by (apply s_take_length; lia).
  apply aead_seal_open in Ho; [|done]. exists (s_take NonceSize sealed), plain. split; [done|]. split; [done|].
  split; [|done].
  change (option_bind string string base64url_decode (Some body)) with (base64url_decode body). rewrite Hd, <- Ho. by rewrite take_drop_str.
Qed.

Lemma seal_Ok now nonce st b out :
  seal now (Some nonce) st b = Ok out →
  slen out <= maxSealedState ∧
  cut_prefix statePrefix out = Some (base64url_encode (nonce ++ aead_Seal nonce (marshal (state_tree (with_Exp st (now + stateTTL)))) (aad b))).
Proof.
  unfold seal. cbv zeta. generalize (marshal (state_tree (with_Exp st (now + stateTTL)))). intros pl. match goal with |- context [maxSealedState <? ?x] => destruct (Z.ltb_spec maxSealedState x) end; [done|].
  intros [= E]. rewrite <- E. split; [done|]. apply (cut_prefix_app statePrefix).
Qed.

Lemma open_sealed now nonce st b out now' b' :
  String.length nonce = NonceSize → seal now (Some nonce) st b = Ok out → state_ok (with_Exp st (now + stateTTL)) →
  open now' out b' =
  match aead_Open nonce (aead_Seal nonce (marshal (state_tree (with_Exp st (now + stateTTL)))) (aad b)) (aad b') with
  | None => Err errStateAuth
  | Some plain => match unmarshal_state plain with
                  | None => Err errStateMalformed
                  | Some st => if ss_Exp st <? now' then Err errStateExpired else Ok st end
  end.
Proof.
  intros Hn Hs Hok. apply seal_Ok in Hs as [Hl Hc]. unfold open. destruct (Z.ltb_spec maxSealedState (slen out)); [lia|].
  rewrite Hc, base64url_decode_encode.
  assert (Hlen : (String.length (nonce ++ aead_Seal nonce (marshal (state_tree (with_Exp st (now + stateTTL)))) (aad b)) <?
                  NonceSize + Overhead)%nat = false).
  { apply Nat.ltb_ge. rewrite length_app_str, Hn, aead_seal_length by done. lia. }
  rewrite Hlen. rewrite <- Hn, s_take_app_exact, s_drop_app_exact. done.
Qed.
End Laws.

(** What seal issues, open returns whole, for the agent side it was sealed
    for and until thirty minutes have passed, and then says it has expired;
    a retired prefix is refused by name, and nothing else of the other sizes
    and forms opens. *)
Theorem seal_open `{A : AEAD} `{!AEADLaws A} now nonce st b out now' :
  String.length nonce = NonceSize →
  state_ok (with_Exp st (now + stateTTL)) →
  seal now (Some nonce) st b = Ok out →
  open now' out b = (if now + stateTTL <? now' then Err errStateExpired else Ok (with_Exp st (now + stateTTL))) ∧
  (∀ p t, p ∈ retiredStatePrefixes → slen (p ++ t) <= maxSealedState → open now' (p ++ t)%string b = Err errStateRetired).
Proof.
  intros Hn Hok Hs. split.
  - rewrite (open_sealed now nonce st b out now' b Hn Hs Hok), aead_open_seal by exact Hn. rewrite unmarshal_marshal_state by exact Hok. reflexivity.
  - intros p t Hp Hl. unfold open. destruct (Z.ltb_spec maxSealedState (slen (p ++ t))); [lia|].
    unfold retiredStatePrefixes in *. rewrite !elem_of_cons in Hp. destruct Hp as [->|[->|[->|?%not_elem_of_nil] ] ]; done.
Qed.

Lemma open_sealed_bound `{A : AEAD} `{!AEADLaws A} now nonce st b now' b' st' :
  String.length nonce = NonceSize → state_ok (with_Exp st (now + stateTTL)) → binding_ok b → binding_ok b' →
  match aead_Open nonce (aead_Seal nonce (marshal (state_tree (with_Exp st (now + stateTTL)))) (aad b)) (aad b') with
  | None => Err errStateAuth
  | Some plain => match unmarshal_state plain with
                  | None => Err errStateMalformed
                  | Some st => if ss_Exp st <? now' then Err errStateExpired else Ok st end
  end = Ok st' →
  (b' = b ∧ st' = with_Exp st (now + stateTTL) ∧ now' <= now + stateTTL) ∨ seal_collision.
Proof.
  intros Hn Hok Hb Hb' Ho.
  set (p0 := marshal (state_tree (with_Exp st (now + stateTTL)))) in *.
  destruct (aead_Open _ _ _) as [plain|] eqn:E; [|done]. apply aead_seal_open in E; [|done].
  destruct (decide ((p0, aad b) = (plain, aad b'))) as [Heq|Hne]; [|right; by exists nonce, p0, (aad b), plain, (aad b')].
  left. apply pair_equal_spec in Heq as [<- Ha]. apply aad_inj in Ha as ->; [|done..]. split; [done|].
  unfold p0 in Ho. rewrite unmarshal_marshal_state in Ho by exact Hok.
  change (ss_Exp (with_Exp st (now + stateTTL))) with (now + stateTTL) in Ho. destruct (Z.ltb_spec (now + stateTTL) now'); [discriminate Ho|]. by injection Ho as <-.
Qed.

(** A requestState fathomgate issued opens only for the transport and
    principal it was issued to, and gives back exactly the state that was
    sealed, unless the cipher has two texts with one ciphertext; and whatever
    opens is the sealing, under the presented binding, of the state it
    gives. *)
Theorem open_bound `{A : AEAD} `{!AEADLaws A} now nonce st b out now' b' st' :
  String.length nonce = NonceSize → state_ok (with_Exp st (now + stateTTL)) → binding_ok b → binding_ok b' →
  seal now (Some nonce) st b = Ok out →
  open now' out b' = Ok st' →
  (b' = b ∧ st' = with_Exp st (now + stateTTL) ∧ now' <= now + stateTTL) ∨ seal_collision.
Proof.
  intros Hn Hok Hb Hb' Hs Ho. rewrite (open_sealed now nonce st b out now' b' Hn Hs Hok) in Ho. by eapply open_sealed_bound.
Qed.

(** ** The digest *)

(** Equal digests: a decoder reads the same arguments, unless SHA-256
    collides. *)
Lemma argsDigest_tokens a b :
  json_valid (sent_args a) = true → json_valid (sent_args b) = true → argsDigest a = argsDigest b →
  tokens (sent_args a) = tokens (sent_args b) ∨ ∃ x y, x ≠ y ∧ sha256 x = sha256 y.
Proof.
  unfold argsDigest. intros Ha Hb. unfold Compact. rewrite Ha, Hb. intros E%base64url_encode_inj.
  destruct (decide (compact_from Outside (sent_args a) = compact_from Outside (sent_args b))) as [Heq|]; [left|right; eauto].
  rewrite <- (Compact_tokens (sent_args a) (compact_from Outside (sent_args a))) by (unfold Compact; by rewrite Ha).
  rewrite Heq. apply Compact_tokens. unfold Compact. by rewrite Hb.
Qed.

(** ** A cipher to run the definitions with *)

(** The text in the clear and a tag over the nonce, the text and the data. *)
Definition toy_tag (nonce p a : string) : string := sha256 (base64url_encode nonce ++ "." ++ base64url_encode p ++ "." ++ a).

Definition toy_AEAD : AEAD := {|
  NonceSize := 12; Overhead := 32;
  aead_Seal nonce p a := (p ++ toy_tag nonce p a)%string;
  aead_Open nonce c a :=
    let n := (String.length c - 32)%nat in
    let p := s_take n c in
    if String.eqb (s_drop n c) (toy_tag nonce p a) then Some p else None;
|}.

Lemma toy_AEAD_laws : AEADLaws toy_AEAD.
Proof.
  split; intros nonce; cbn [aead_Seal aead_Open toy_AEAD NonceSize Overhead].
  - intros p a _.
    assert (String.length (p ++ toy_tag nonce p a) - 32 = String.length p)%nat as ->.
    { rewrite length_app_str. unfold toy_tag. rewrite sha256_length. lia. }
    rewrite s_take_app_exact, s_drop_app_exact. by rewrite String.eqb_refl.
  - intros c p a _. cbv zeta. destruct (String.eqb_spec (s_drop (String.length c - 32) c) (toy_tag nonce (s_take (String.length c - 32) c) a)) as [E|]; [|done].
    intros [= <-]. rewrite <- E. by rewrite take_drop_str.
  - intros p a _. rewrite length_app_str. unfold toy_tag. by rewrite sha256_length.
Qed.

Definition sample_state : sealedState :=
  {| ss_Server := "nb"; ss_Tool := "run"; ss_Args := argsDigest "{}"; ss_IDs := Some ["q1"]; ss_Up := "u"; ss_Round := 1; ss_Prompts := 1;
     ss_Exp := 0 |}.
Definition sample_binding : stateBinding := {| sb_transport := transportHTTP; sb_principal := "alice" |}.
Definition sample_nonce : string := "twelve bytes".
Definition sample_sealed : string :=
  match @seal toy_AEAD 1000 (Some sample_nonce) sample_state sample_binding with Ok out => out | Err _ => "" end.

Lemma sample_state_ok : state_ok (with_Exp sample_state (1000 + stateTTL)).
Proof.
  split; [repeat (apply Forall_cons; split; [vm_compute; reflexivity|]); apply Forall_nil; exact I|].
  split; [vm_compute; reflexivity|]. repeat (apply Forall_cons; split; [vm_compute; split; congruence|]). apply Forall_nil; exact I.
Qed.

Lemma sample_seal : @seal toy_AEAD 1000 (Some sample_nonce) sample_state sample_binding = Ok sample_sealed.
Proof. vm_compute. reflexivity. Qed.

Lemma seal_open_witness : @open toy_AEAD 2800 sample_sealed sample_binding = Ok (with_Exp sample_state 2800).
Proof.
  destruct (@seal_open toy_AEAD toy_AEAD_laws 1000 sample_nonce sample_state sample_binding sample_sealed 2800
              eq_refl sample_state_ok sample_seal) as [H _].
  exact H.
Defined.

Lemma open_bound_witness :
  (sample_binding = sample_binding ∧ with_Exp sample_state 2800 = with_Exp sample_state (1000 + stateTTL) ∧ 2800 <= 1000 + stateTTL) ∨
  @seal_collision toy_AEAD.
Proof.
  apply (@open_bound toy_AEAD toy_AEAD_laws 1000 sample_nonce sample_state sample_binding sample_sealed 2800 sample_binding
           (with_Exp sample_state 2800) eq_refl sample_state_ok eq_refl eq_refl sample_seal).
  vm_compute. reflexivity.
Defined.
