(* ===== verification/Scrub.v ===== *)
(** * Secret scrubbing: internal/proxy/scrub.go

    The forms a passed value takes in logs, the redactor built from them, and
    the stream scrubber.  Theorems: how a stream is cut into writes does not
    show in what the scrubber lets through, and no byte it lets through starts
    an occurrence of a value. *)

From S2P Require Import Prelude GoStd Json JsonMarshal Sanitize.

Open Scope string_scope.
Open Scope Z_scope.
Open Scope list_scope.

Definition MinSecretLen : nat := 4.

(** A variable passed to an upstream; [NewSecret] sets both. *)
Record Secret := { sec_name : string; sec_value : option string }.

Definition NewSecret (name value : string) : Secret := {| sec_name := name; sec_value := Some value |}.
Definition Secret_Name (s : Secret) : string := sec_name s.
Definition Secret_val (s : Secret) : string := default EmptyString (sec_value s).

(** String, GoString, Format and LogValue all give the marker; MarshalJSON its
    JSON string. *)
Definition Secret_String (s : Secret) : string := ("[redacted:" ++ sec_name s ++ "]")%string.
Definition Secret_GoString (s : Secret) : string := Secret_String s.
Definition Secret_MarshalJSON (s : Secret) : string := html_string (Secret_String s).

(** ** The forms a value takes *)

(** The text between the quotes. *)
Definition unquote (q : string) : string :=
  if (2 <=? String.length q)%nat then s_take (String.length q - 2) (s_drop 1 q) else q.

Definition py_byte (nonASCII : bool) (c : ascii) : string :=
  let b := bz c in
  if b =? 92 then String backslash (String backslash "")
  else if b =? 9 then String backslash "t" else if b =? 10 then String backslash "n" else if b =? 13 then String backslash "r"
  else if (b <? 32) || (b =? 127) || (nonASCII && (128 <=? b)) then String backslash (String "x" (hex_n 2 b))
  else String c "".

Definition pyByteEscape (v : string) (nonASCII : bool) : string := concat_str (map (py_byte nonASCII) (chars v)).

(** utf16.EncodeRune. *)
Definition utf16_high (r : Z) : Z := 55296 + (r - 65536) / 1024.
Definition utf16_low (r : Z) : Z := 56320 + (r - 65536) mod 1024.

Definition json_ascii_rune (r : Z) : string :=
  if (r =? 34) || (r =? 92) then String backslash (encode_rune r)
  else if r =? 10 then String backslash "n" else if r =? 13 then String backslash "r" else if r =? 9 then String backslash "t"
  else if (r <? 32) || (r =? 127) || (128 <=? r) then
    if 65535 <? r then (esc_u (utf16_high r) ++ esc_u (utf16_low r))%string else esc_u r
  else encode_rune r.

Definition jsonASCII (v : string) : string := concat_str (map (λ p, json_ascii_rune (fst p)) (runes v)).

(** url.QueryEscape and url.PathEscape. *)
Definition url_unreserved (c : ascii) : bool :=
  let b := bz c in
  in_range 97 122 b || in_range 65 90 b || in_range 48 57 b || (b =? 45) || (b =? 95) || (b =? 46) || (b =? 126).

(** The characters a path segment keeps besides: dollar, ampersand, plus,
    colon, equals and at. *)
Definition path_kept (c : ascii) : bool :=
  let b := bz c in (b =? 36) || (b =? 38) || (b =? 43) || (b =? 58) || (b =? 61) || (b =? 64).

Definition upper_hex (d : Z) : ascii := if d <? 10 then zb (48 + d) else zb (55 + d).

Definition percent (c : ascii) : string := String "%" (String (upper_hex (bz c / 16)) (String (upper_hex (bz c mod 16)) "")).

Definition query_byte (c : ascii) : string :=
  if bz c =? 32 then "+" else if url_unreserved c then String c "" else percent c.
Definition path_byte (c : ascii) : string := if url_unreserved c || path_kept c then String c "" else percent c.

Definition QueryEscape (v : string) : string := concat_str (map query_byte (chars v)).
Definition PathEscape (v : string) : string := concat_str (map path_byte (chars v)).

Section Forms.
Context `{Unicode}.

(** [add]: a form that is there already is dropped. *)
Definition add_form (forms : list string) (f : string) : list string := if mem f forms then forms else forms ++ [f].

Definition other_forms (v : string) : list string :=
  [unquote (quote v); unquote (quote_to_ascii v); unquote (html_string v); unquote (enc_string v); jsonASCII v;
   QueryEscape v; PathEscape v; pyByteEscape v true; pyByteEscape v false;
   replace_all v (String backslash "") (String backslash (String backslash ""))].

Definition encodedForms (v : string) : list string := foldl add_form [v] (other_forms v).
End Forms.
Strategy expand [encodedForms].

(** ** The redactor *)

Record scrubValue := { sv_value : string; sv_marker : string }.

(** sort.SliceStable by falling length. *)
Fixpoint insert_longest (x : scrubValue) (l : list scrubValue) : list scrubValue :=
  match l with
  | [] => [x]
  | y :: l' => if (String.length (sv_value y) <=? String.length (sv_value x))%nat then x :: l else y :: insert_longest x l'
  end.
Definition longestFirst (l : list scrubValue) : list scrubValue := foldr insert_longest [] l.

(** [None] where Go has a nil *Redactor. *)
Record Redactor := { rd_stream : list scrubValue; rd_text : list scrubValue }.

Section Redactor.
Context `{Unicode}.

(** The two renderings of one form that are not in [seen] yet. *)
Definition text_forms (seen : list string) (f : string) : list string :=
  foldl (λ seen g, if mem g seen then seen else seen ++ [g]) seen [f; escapeControl f 0].

Definition secret_values (s : Secret) : list scrubValue * list scrubValue :=
  let v := Secret_val s in
  if (String.length v <? MinSecretLen)%nat then ([], [])
  else
    let mk g := {| sv_value := g; sv_marker := Secret_String s |} in
    (map mk (encodedForms v), map mk (foldl text_forms [] (encodedForms v))).

Definition NewRedactor (secrets : list Secret) : option Redactor :=
  let stream := mjoin (map (λ s, fst (secret_values s)) secrets) in
  let text := mjoin (map (λ s, snd (secret_values s)) secrets) in
  match stream with
  | [] => None
  | _ => Some {| rd_stream := longestFirst stream; rd_text := longestFirst text |}
  end.
End Redactor.

(** ** The scrubber *)

(** What happens at a position: the first value that matches there, a wait for
    more bytes, the end of a stream inside a value, or nothing. *)
Inductive decision := Match (n : nat) (marker : string) | EndMark (marker : string) | Wait | NoMatch.

Fixpoint decide_at (final : bool) (vs : list scrubValue) (rest : string) : decision :=
  match vs with
  | [] => NoMatch
  | v :: vs =>
      if (String.length (sv_value v) <=? String.length rest)%nat then
        if has_prefix rest (sv_value v) then Match (String.length (sv_value v)) (sv_marker v) else decide_at final vs rest
      else if has_prefix (sv_value v) rest then
        if final then
          if (MinSecretLen <=? String.length rest)%nat then EndMark (sv_marker v) else decide_at final vs rest
        else Wait
      else decide_at final vs rest
  end.

(** The loop over the data: the output and the tail held back; [skip] bytes
    belong to the value replaced last. *)
Fixpoint scan (final : bool) (vs : list scrubValue) (skip : nat) (data : string) : string * string :=
  match data with
  | EmptyString => (EmptyString, EmptyString)
  | String c t =>
      match skip with
      | S k => scan final vs k t
      | O =>
          match decide_at final vs data with
          | Match n marker => let '(out, pending) := scan final vs (n - 1) t in ((marker ++ out)%string, pending)
          | EndMark marker => (marker, EmptyString)
          | Wait => (EmptyString, data)
          | NoMatch => let '(out, pending) := scan final vs 0 t in (String c out, pending)
          end
      end
  end.

Record scrubber := { sc_secrets : list scrubValue; sc_pending : string }.

Definition scrub_write (s : scrubber) (p : string) (final : bool) : scrubber * string :=
  let '(out, pending) := scan final (sc_secrets s) 0 (sc_pending s ++ p)%string in
  ({| sc_secrets := sc_secrets s; sc_pending := pending |}, out).

Definition newStream (r : option Redactor) : option scrubber :=
  (λ r, {| sc_secrets := rd_stream r; sc_pending := EmptyString |}) <$> r.

Definition Redact (r : option Redactor) (s : string) : string :=
  match r with
  | None => s
  | Some r => snd (scrub_write {| sc_secrets := rd_text r; sc_pending := EmptyString |} s true)
  end.

(** ** How a stream is cut into writes does not show *)

Lemma has_prefix_app_long p a b :
  (String.length p <= String.length a)%nat → has_prefix (a ++ b)%string p = has_prefix a p.
Proof.
  intros Hl. destruct (has_prefix a p) eqn:E.
  - apply has_prefix_spec in E as (t & ->). rewrite <- app_assoc_str. apply has_prefix_app.
  - destruct (has_prefix (a ++ b) p) eqn:E2; [|done]. exfalso. apply has_prefix_spec in E2 as (t & Ht).
    enough (has_prefix a p = true) by congruence. clear E. revert a Hl Ht.
    induction p as [|c p IH]; intros [|d a] Hl Ht; cbn in *; try lia; [done..|].
    injection Ht as -> Ht. unfold has_prefix in *. cbn [cut_prefix]. rewrite Ascii.eqb_refl. apply IH; [lia|done].
Qed.

Lemma has_prefix_trans a b p : has_prefix p (a ++ b)%string = true → has_prefix p a = true.
Proof. intros (t & ->)%has_prefix_spec. rewrite <- app_assoc_str. apply has_prefix_app. Qed.

Lemma has_prefix_both a p : (String.length p <= String.length a)%nat → ∀ b, has_prefix (a ++ b)%string p = true → has_prefix a p = true.
Proof. intros Hl b. by rewrite has_prefix_app_long. Qed.

(** A longer text that starts with the value starts with a prefix of it. *)
Lemma has_prefix_short a b p :
  (String.length a < String.length p)%nat → has_prefix (a ++ b)%string p = true → has_prefix p a = true.
Proof.
  intros Hl (t & Ht)%has_prefix_spec. apply has_prefix_spec. revert p Hl Ht.
  induction a as [|c a IH]; intros p Hl Ht; [by exists p|]. destruct p as [|d p]; [cbn in Hl; lia|]. cbn in Ht.
  injection Ht as -> Ht. destruct (IH p ltac:(cbn in Hl; lia) Ht) as [u ->]. by exists u.
Qed.

(** A decision that does not wait is the same with more bytes to come. *)
Lemma decide_stable fin vs a b :
  decide_at false vs a ≠ Wait → decide_at fin vs (a ++ b)%string = decide_at false vs a.
Proof.
  induction vs as [|v vs IH]; [done|]. cbn [decide_at]. rewrite length_app_str.
  destruct (Nat.leb_spec (String.length (sv_value v)) (String.length a)) as [Hle|Hgt].
  - rewrite (proj2 (Nat.leb_le _ _)) by lia. rewrite has_prefix_app_long by done.
    destruct (has_prefix a (sv_value v)); [done|apply IH].
  - destruct (has_prefix (sv_value v) a) eqn:Hp; [done|]. intros Hw.
    destruct (Nat.leb_spec (String.length (sv_value v)) (String.length a + String.length b)).
    + destruct (has_prefix (a ++ b) (sv_value v)) eqn:E; [|by apply IH].
      apply has_prefix_short in E; [congruence|done].
    + destruct (has_prefix (sv_value v) (a ++ b)) eqn:E; [|by apply IH]. apply has_prefix_trans in E. congruence.
Qed.

(** A match is of a value of the list, and inside the data. *)
Lemma decide_Match fin vs rest n marker :
  decide_at fin vs rest = Match n marker →
  ∃ v, v ∈ vs ∧ n = String.length (sv_value v) ∧ marker = sv_marker v ∧ has_prefix rest (sv_value v) = true ∧
    (n <= String.length rest)%nat.
Proof.
  induction vs as [|v vs IH]; [done|]. cbn [decide_at]. intros Hd.
  assert (Hrec : decide_at fin vs rest = Match n marker → ∃ v0, v0 ∈ v :: vs ∧ n = String.length (sv_value v0) ∧
    marker = sv_marker v0 ∧ has_prefix rest (sv_value v0) = true ∧ (n <= String.length rest)%nat).
  { intros Hr. destruct (IH Hr) as (u & Hu & ?). exists u. split; [by right|done]. }
  destruct (Nat.leb_spec (String.length (sv_value v)) (String.length rest)) as [Hle|Hgt].
  - destruct (has_prefix rest (sv_value v)) eqn:E; [|auto]. injection Hd as <- <-. exists v. split; [by left|done].
  - destruct (has_prefix (sv_value v) rest); [|auto]. destruct fin; [|done]. destruct (MinSecretLen <=? _)%nat; [done|auto].
Qed.

Lemma decide_false_EndMark vs rest marker : decide_at false vs rest ≠ EndMark marker.
Proof.
  induction vs as [|v vs IH]; [done|]. cbn [decide_at]. destruct (_ <=? _)%nat; [by destruct (has_prefix _ _)|].
  by destruct (has_prefix _ _).
Qed.

(** Scanning a first part and then the tail it held back, with the rest, is
    scanning the whole. *)
Lemma scan_app fin vs skip a b :
  (skip <= String.length a)%nat →
  scan fin vs skip (a ++ b)%string =
  (let '(o1, p1) := scan false vs skip a in let '(o2, p2) := scan fin vs 0 (p1 ++ b)%string in ((o1 ++ o2)%string, p2)).
Proof.
  revert skip. induction a as [|c a IH]; intros skip Hs.
  { assert (skip = 0%nat) as -> by (cbn in Hs; lia). cbn [scan String.append]. by destruct (scan fin vs 0 b). }
  destruct skip as [|k]; [|cbn [String.append scan]; apply IH; cbn in Hs; lia].
  destruct (decide_at false vs (String c a)) as [n marker|marker| |] eqn:E.
  - pose proof (decide_Match _ _ _ _ _ E) as (v & _ & Hn & _ & _ & Hlen).
    assert (Ed : decide_at fin vs (String c (a ++ b)) = Match n marker).
    { pose proof (decide_stable fin vs (String c a) b) as Hst. rewrite E in Hst. by apply Hst. }
    cbn [String.append scan]. rewrite E, Ed. rewrite IH by (cbn in Hlen; lia).
    destruct (scan false vs (n - 1) a) as [o1 p1]. destruct (scan fin vs 0 (p1 ++ b)) as [o2 p2]. by rewrite app_assoc_str.
  - by apply decide_false_EndMark in E.
  - cbn [scan]. rewrite E. change ("" ++ ?x)%string with x. by destruct (scan fin vs 0 (String c a ++ b)).
  - assert (Ed : decide_at fin vs (String c (a ++ b)) = NoMatch).
    { pose proof (decide_stable fin vs (String c a) b) as Hst. rewrite E in Hst. by apply Hst. }
    cbn [String.append scan]. rewrite E, Ed. rewrite IH by lia.
    destruct (scan false vs 0 a) as [o1 p1]. by destruct (scan fin vs 0 (p1 ++ b)) as [o2 p2].
Qed.

(** Any number of writes and then the last one: all that is let through. *)
Fixpoint scrub_writes (s : scrubber) (ps : list string) (last : string) : string :=
  match ps with
  | [] => snd (scrub_write s last true)
  | p :: ps => let '(s, out) := scrub_write s p false in (out ++ scrub_writes s ps last)%string
  end.

Lemma scrub_writes_whole s ps last :
  scrub_writes s ps last = snd (scrub_write s (concat_str ps ++ last)%string true).
Proof.
  revert s. induction ps as [|p ps IH]; intros s; [done|]. cbn [scrub_writes]. unfold scrub_write at 1.
  destruct (scan false (sc_secrets s) 0 (sc_pending s ++ p)) as [o1 p1] eqn:E1. rewrite IH.
  unfold scrub_write. cbn [sc_secrets sc_pending concat_str foldr]. change (foldr String.append EmptyString ps) with (concat_str ps).
  rewrite <- (app_assoc_str p), (app_assoc_str (sc_pending s)), (scan_app true _ 0 (sc_pending s ++ p)%string), E1 by lia.
  by destruct (scan true (sc_secrets s) 0 (p1 ++ concat_str ps ++ last)).
Qed.

(** ** What is let through *)

(** The output for the data: a longest matching value becomes its marker, a
    stream that ends in the beginning of a value ends in its marker, and a byte
    is let through only where no value starts. *)
Inductive scrubs (vs : list scrubValue) : string → string → Prop :=
  | scrubs_end : scrubs vs EmptyString EmptyString
  | scrubs_value v t out :
      v ∈ vs → (∀ u, u ∈ vs → has_prefix (sv_value v ++ t)%string (sv_value u) = true →
                     (String.length (sv_value u) <= String.length (sv_value v))%nat) →
      scrubs vs t out → scrubs vs (sv_value v ++ t)%string (sv_marker v ++ out)%string
  | scrubs_cut v data :
      v ∈ vs → (MinSecretLen <= String.length data < String.length (sv_value v))%nat →
      has_prefix (sv_value v) data = true → scrubs vs data (sv_marker v)
  | scrubs_byte c t out :
      (∀ u, u ∈ vs → has_prefix (String c t) (sv_value u) = false) →
      scrubs vs t out → scrubs vs (String c t) (String c out).

Definition longer (x y : scrubValue) : Prop := (String.length (sv_value y) <= String.length (sv_value x))%nat.

Lemma decide_longest fin vs rest n marker :
  StronglySorted longer vs → decide_at fin vs rest = Match n marker →
  ∀ u, u ∈ vs → has_prefix rest (sv_value u) = true → (String.length (sv_value u) <= n)%nat.
Proof.
  induction vs as [|v vs IH]; intros Hs; [done|]. apply StronglySorted_inv in Hs as [Hs Hall].
  rewrite Forall_forall in Hall. cbn [decide_at]. intros Hd u Hu Hpu.
  assert (Hlen : ∀ p, has_prefix rest p = true → (String.length p <= String.length rest)%nat).
  { intros p (t & ->)%has_prefix_spec. rewrite length_app_str. lia. }
  destruct (Nat.leb_spec (String.length (sv_value v)) (String.length rest)) as [Hle|Hgt].
  - destruct (has_prefix rest (sv_value v)) eqn:E.
    + injection Hd as <- _. apply elem_of_cons in Hu as [->|Hu]; [done|]. by apply Hall.
    + apply elem_of_cons in Hu as [->|Hu]; [congruence|]. by apply IH.
  - assert (Hne : u ≠ v) by (intros ->; specialize (Hlen _ Hpu); lia).
    apply elem_of_cons in Hu as [->|Hu]; [done|].
    destruct (has_prefix (sv_value v) rest); [|by apply IH]. destruct fin; [|done].
    destruct (MinSecretLen <=? _)%nat; [done|]. by apply IH.
Qed.

Lemma decide_NoMatch vs rest : decide_at true vs rest = NoMatch → ∀ u, u ∈ vs → has_prefix rest (sv_value u) = false.
Proof.
  induction vs as [|v vs IH]; [by intros _ u ?%not_elem_of_nil|]. cbn [decide_at]. intros Hd u Hu.
  destruct (Nat.leb_spec (String.length (sv_value v)) (String.length rest)) as [Hle|Hgt].
  - destruct (has_prefix rest (sv_value v)) eqn:E; [done|]. apply elem_of_cons in Hu as [->|Hu]; auto.
  - assert (Hr : decide_at true vs rest = NoMatch).
    { destruct (has_prefix (sv_value v) rest); [|done]. by destruct (MinSecretLen <=? _)%nat. }
    apply elem_of_cons in Hu as [->|Hu]; [|auto]. destruct (has_prefix rest (sv_value v)) eqn:E; [|done].
    apply has_prefix_spec in E as (t & ->). rewrite length_app_str in Hgt. lia.
Qed.

Lemma decide_EndMark vs rest marker :
  decide_at true vs rest = EndMark marker →
  ∃ v, v ∈ vs ∧ marker = sv_marker v ∧ has_prefix (sv_value v) rest = true ∧
    (MinSecretLen <= String.length rest < String.length (sv_value v))%nat.
Proof.
  induction vs as [|v vs IH]; [done|]. cbn [decide_at]. intros Hd.
  assert (Hrec : decide_at true vs rest = EndMark marker → ∃ v0, v0 ∈ v :: vs ∧ marker = sv_marker v0 ∧
    has_prefix (sv_value v0) rest = true ∧ (MinSecretLen <= String.length rest < String.length (sv_value v0))%nat).
  { intros Hr. destruct (IH Hr) as (u & Hu & ?). exists u. split; [by right|done]. }
  destruct (Nat.leb_spec (String.length (sv_value v)) (String.length rest)) as [Hle|Hgt].
  - destruct (has_prefix rest (sv_value v)); [done|auto].
  - destruct (has_prefix (sv_value v) rest) eqn:E; [|auto].
    destruct (Nat.leb_spec MinSecretLen (String.length rest)); [|auto]. injection Hd as <-. exists v. split; [by left|]. split; [done|]. split; [done|lia].
Qed.

Lemma decide_true_Wait vs rest : decide_at true vs rest ≠ Wait.
Proof.
  induction vs as [|v vs IH]; [done|]. cbn [decide_at]. destruct (_ <=? _)%nat; [by destruct (has_prefix _ _)|].
  destruct (has_prefix _ _); [|done]. by destruct (MinSecretLen <=? _)%nat.
Qed.

Lemma scan_skip fin vs k data : (k <= String.length data)%nat → scan fin vs k data = scan fin vs 0 (s_drop k data).
Proof.
  revert k. induction data as [|c t IH]; intros [|k] Hk; [done|cbn in Hk; lia|done|].
  cbn [scan s_drop]. apply IH. cbn in Hk. lia.
Qed.

Lemma scan_scrubs vs data :
  StronglySorted longer vs → (∀ v, v ∈ vs → sv_value v ≠ EmptyString) → scrubs vs data (fst (scan true vs 0 data)).
Proof.
  intros Hs Hne. remember (String.length data) as n eqn:Hn. revert data Hn.
  induction (lt_wf n) as [n _ IH]. intros data ->. destruct data as [|c t]; [constructor|]. cbn [scan].
  destruct (decide_at true vs (String c t)) as [m marker|marker| |] eqn:E.
  - pose proof (decide_longest _ _ _ _ _ Hs E) as Hlong.
    destruct (decide_Match _ _ _ _ _ E) as (v & Hv & Hm & -> & Hp & Hlen). apply has_prefix_spec in Hp as (u & Hu).
    specialize (Hne v Hv). destruct (sv_value v) as [|d w] eqn:Ev; [done|]. injection Hu as <- Hu. cbn in Hm.
    assert (Hdrop : s_drop (m - 1) t = u).
    { subst. replace (S (String.length w) - 1)%nat with (String.length w) by lia. clear. by induction w as [|x w IHw]. }
    rewrite scan_skip by (cbn in Hlen; lia). rewrite Hdrop.
    destruct (scan true vs 0 u) as [out pend] eqn:Eo. cbn [fst].
    assert (Hrec : scrubs vs u out).
    { pose proof (IH (String.length u) ltac:(subst; cbn; rewrite length_app_str; lia) u eq_refl) as Hr. by rewrite Eo in Hr. }
    rewrite Hu. change (String c (w ++ u)) with (String c w ++ u)%string. rewrite <- Ev. apply scrubs_value; [done| |done].
    intros x Hx Hpx. rewrite Ev. cbn [String.length]. rewrite <- Hm. apply Hlong; [done|]. by rewrite Hu, Ev in *.
  - destruct (decide_EndMark _ _ _ E) as (v & Hv & -> & Hp & Hlen). by apply scrubs_cut.
  - by apply decide_true_Wait in E.
  - pose proof (IH (String.length t) ltac:(cbn; lia) t eq_refl) as Hr.
    destruct (scan true vs 0 t) as [out pend]. cbn [fst] in *. apply scrubs_byte; [|done]. by apply decide_NoMatch.
Qed.

(** ** The redactor's values *)

Lemma insert_longest_elem x y l : y ∈ insert_longest x l ↔ y = x ∨ y ∈ l.
Proof.
  induction l as [|z l IH]; cbn [insert_longest]; [by rewrite list_elem_of_singleton, elem_of_nil; naive_solver|].
  destruct (_ <=? _)%nat; rewrite !elem_of_cons; [done|]. rewrite IH. naive_solver.
Qed.

Lemma longestFirst_elem y l : y ∈ longestFirst l ↔ y ∈ l.
Proof.
  induction l as [|x l IH]; [done|]. cbn [longestFirst foldr]. fold (longestFirst l).
  by rewrite insert_longest_elem, IH, elem_of_cons.
Qed.

Lemma longestFirst_sorted l : StronglySorted longer (longestFirst l).
Proof.
  induction l as [|x l IH]; [constructor|]. cbn [longestFirst foldr]. fold (longestFirst l).
  induction (longestFirst l) as [|y k IHk]; cbn [insert_longest]; [by repeat constructor|].
  apply StronglySorted_inv in IH as [Hk Hall]. rewrite Forall_forall in Hall.
  destruct (Nat.leb_spec (String.length (sv_value y)) (String.length (sv_value x))) as [Hle|Hgt].
  - constructor; [by constructor; [|rewrite Forall_forall]|]. rewrite Forall_forall.
    intros z [->|Hz]%elem_of_cons; [done|]. unfold longer in *. specialize (Hall z Hz). lia.
  - constructor; [by apply IHk|]. rewrite Forall_forall. intros z [->|Hz]%insert_longest_elem; [unfold longer; lia|by apply Hall].
Qed.

(** ** No form is empty *)

Lemma concat_nonempty {A} (f : A → string) l : (∀ x, x ∈ l → f x ≠ EmptyString) → l ≠ [] → concat_str (map f l) ≠ EmptyString.
Proof.
  intros Hf Hl. destruct l as [|x l]; [done|]. cbn [map concat_str foldr]. specialize (Hf x ltac:(by left)). by destruct (f x).
Qed.

Lemma unquote_quoted x : unquote (String dquote (x ++ String dquote EmptyString)) = x.
Proof.
  unfold unquote. cbn [String.length]. rewrite length_app_str. cbn [String.length].
  replace (2 <=? S (String.length x + 1))%nat with true by (symmetry; apply Nat.leb_le; lia).
  replace (S (String.length x + 1) - 2)%nat with (String.length x) by lia. cbn [s_drop].
  rewrite s_take_app by lia. clear. by induction x as [|c x IH]; [|cbn; rewrite IH].
Qed.

Lemma runes_not_nil v : v ≠ EmptyString → runes v ≠ [].
Proof. destruct v as [|c v]; [done|]. intros _. rewrite runes_cons. by destruct (decode_rune _). Qed.

Lemma chars_not_nil v : v ≠ EmptyString → chars v ≠ [].
Proof. by destruct v. Qed.

Lemma encode_rune_not_empty r : encode_rune r ≠ EmptyString.
Proof. unfold encode_rune. by repeat destruct (_ <? _). Qed.

Lemma snd_not_empty v p : p ∈ runes v → snd p ≠ EmptyString.
Proof. intros Hp%runes_nonempty. destruct (snd p); [cbn in Hp; lia|done]. Qed.

Lemma escape_rune_not_empty `{Unicode} b r : escape_rune b r ≠ EmptyString.
Proof.
  unfold escape_rune.
  repeat match goal with |- context [if ?b then _ else _] => destruct b; try done; try apply encode_rune_not_empty end.
Qed.

Lemma quote_form_nonempty `{Unicode} b v : v ≠ EmptyString → unquote (quote_with b v) ≠ EmptyString.
Proof.
  intros Hv. unfold quote_with. rewrite unquote_quoted. apply concat_nonempty; [|by apply runes_not_nil].
  intros p Hp. destruct (bad_rune p); [|apply escape_rune_not_empty]. pose proof (snd_not_empty v p Hp). by destruct (snd p).
Qed.

Lemma enc_piece_not_empty v p : p ∈ runes v → enc_piece p ≠ EmptyString.
Proof.
  intros Hp%snd_not_empty. unfold enc_piece.
  repeat match goal with |- context [if ?b then _ else _] => destruct b; try done end.
Qed.

Lemma json_form_nonempty v : v ≠ EmptyString → unquote (enc_string v) ≠ EmptyString ∧ unquote (html_string v) ≠ EmptyString.
Proof.
  intros Hv. unfold enc_string, html_string. rewrite !unquote_quoted.
  split; (apply concat_nonempty; [|by apply runes_not_nil]); intros p Hp; [by eapply enc_piece_not_empty|].
  unfold html_piece. destruct (html_rune _); [done|]. by eapply enc_piece_not_empty.
Qed.

Lemma replace_all_not_empty c v new : v ≠ EmptyString → new ≠ EmptyString → replace_all v (String c "") new ≠ EmptyString.
Proof.
  destruct v as [|d v]; [done|]. intros _ Hn. unfold replace_all. cbn [replace_all_from].
  destruct (has_prefix _ _); [|done]. by destruct new.
Qed.

Lemma escapeControl_not_empty `{Unicode} v : v ≠ EmptyString → escapeControl v 0 ≠ EmptyString.
Proof.
  intros Hv%runes_not_nil. unfold escapeControl. destruct (runes v) as [|p ps] eqn:E; [done|]. cbn [escape_from].
  change (0 <? 0) with false. cbn [andb]. assert (Hp : escape_piece p ≠ EmptyString); [|by destruct (escape_piece p)].
  pose proof (snd_not_empty v p ltac:(rewrite E; by left)). unfold escape_piece.
  repeat match goal with |- context [if ?b then _ else _] => destruct b; try done end.
Qed.

Section Values.
Context `{Unicode}.

Lemma add_form_elem x forms f : x ∈ add_form forms f → x ∈ forms ∨ x = f.
Proof.
  unfold add_form. destruct (mem f forms); [by left|]. rewrite elem_of_app, list_elem_of_singleton. done.
Qed.

Lemma foldl_add_elem x l forms : x ∈ foldl add_form forms l → x ∈ forms ∨ x ∈ l.
Proof.
  revert forms. induction l as [|f l IH]; intros forms; [by left|]. cbn [foldl]. intros [Hx|Hx]%IH; [|right; by right].
  apply add_form_elem in Hx as [Hx| ->]; [by left|right; by left].
Qed.

Lemma foldl_add_keep x l forms : x ∈ forms → x ∈ foldl add_form forms l.
Proof.
  revert forms. induction l as [|f l IH]; intros forms Hx; [done|]. cbn [foldl]. apply IH. unfold add_form.
  destruct (mem f forms); [done|]. apply elem_of_app. by left.
Qed.

Lemma encodedForms_value v : v ∈ encodedForms v.
Proof. apply foldl_add_keep. by left. Qed.

Lemma json_ascii_rune_not_empty r : json_ascii_rune r ≠ EmptyString.
Proof.
  unfold json_ascii_rune. destruct ((r =? 34) || (r =? 92)); [discriminate|].
  destruct (r =? 10); [discriminate|]. destruct (r =? 13); [discriminate|]. destruct (r =? 9); [discriminate|].
  destruct (_ || (128 <=? r)); [destruct (65535 <? r); discriminate|apply encode_rune_not_empty].
Qed.

Lemma py_byte_not_empty b c : py_byte b c ≠ EmptyString.
Proof.
  unfold py_byte. destruct (bz c =? 92); [discriminate|]. destruct (bz c =? 9); [discriminate|].
  destruct (bz c =? 10); [discriminate|]. destruct (bz c =? 13); [discriminate|]. destruct (_ || _); discriminate.
Qed.

Lemma bytes_form_nonempty (g : ascii → string) v :
  v ≠ EmptyString → (∀ c, g c ≠ EmptyString) → concat_str (map g (chars v)) ≠ EmptyString.
Proof. intros Hv Hg. apply concat_nonempty; [auto|by apply chars_not_nil]. Qed.

#[local] Transparent other_forms.

Lemma other_forms_nonempty v : v ≠ EmptyString → Forall (λ f, f ≠ EmptyString) (other_forms v).
Proof.
  intros Hv. repeat apply Forall_cons_2; [..|apply Forall_nil_2].
  - exact (quote_form_nonempty false v Hv).
  - exact (quote_form_nonempty true v Hv).
  - exact (proj2 (json_form_nonempty v Hv)).
  - exact (proj1 (json_form_nonempty v Hv)).
  - apply concat_nonempty; [intros p _; apply json_ascii_rune_not_empty|by apply runes_not_nil].
  - apply bytes_form_nonempty; [done|]. intros c. unfold query_byte. destruct (bz c =? 32); [discriminate|].
    destruct (url_unreserved c); discriminate.
  - apply bytes_form_nonempty; [done|]. intros c. unfold path_byte. destruct (url_unreserved c || path_kept c); discriminate.
  - apply bytes_form_nonempty; [done|apply py_byte_not_empty].
  - apply bytes_form_nonempty; [done|apply py_byte_not_empty].
  - apply replace_all_not_empty; [done|discriminate].
Qed.

#[local] Opaque other_forms.

Lemma encodedForms_nonempty v f : v ≠ EmptyString → f ∈ encodedForms v → f ≠ EmptyString.
Proof.
  intros Hv Hf. pose proof (other_forms_nonempty v Hv) as Hall. rewrite Forall_forall in Hall. apply (foldl_add_elem f (other_forms v) [v]) in Hf as [Hf|Hf]; [|by apply Hall].
  by apply list_elem_of_singleton in Hf as ->.
Qed.

(** The stream values: the encoded forms of every secret long enough. *)
Lemma NewRedactor_stream secrets r :
  NewRedactor secrets = Some r →
  StronglySorted longer (rd_stream r) ∧
  ∀ x, x ∈ rd_stream r ↔ ∃ s f, s ∈ secrets ∧ (MinSecretLen <= String.length (Secret_val s))%nat ∧
    f ∈ encodedForms (Secret_val s) ∧ x = {| sv_value := f; sv_marker := Secret_String s |}.
Proof.
  unfold NewRedactor. set (stream := mjoin _). intros Hr.
  assert (Hrd : rd_stream r = longestFirst stream) by (by destruct stream; [done|injection Hr as <-]).
  rewrite Hrd. split; [apply longestFirst_sorted|]. intros x. rewrite longestFirst_elem. unfold stream.
  rewrite list_elem_of_join. split.
  - intros (l & Hx & (s & -> & Hs)%list_elem_of_fmap). unfold secret_values in Hx.
    destruct (Nat.ltb_spec (String.length (Secret_val s)) MinSecretLen) as [|Hle]; [by apply not_elem_of_nil in Hx|].
    cbn [fst] in Hx. apply list_elem_of_fmap in Hx as (f & -> & Hf). by exists s, f.
  - intros (s & f & Hs & Hle & Hf & ->). exists (fst (secret_values s)). split; [|by apply list_elem_of_fmap; exists s].
    unfold secret_values. destruct (Nat.ltb_spec (String.length (Secret_val s)) MinSecretLen); [lia|]. cbn [fst].
    apply list_elem_of_fmap. by exists f.
Qed.
End Values.


