(* ===== verification/Stderr.v ===== *)
(** * An upstream's standard error: the lineWriter of internal/proxy/sanitize.go

    Lines are scrubbed, cut, escaped and prefixed.  Theorems: how the upstream
    cuts its output into writes does not show in the log, and every log line is
    the prefix and text that can forge no other line. *)

From S2P Require Import Prelude GoStd Sanitize Scrub.

Open Scope string_scope.
Open Scope Z_scope.
Open Scope list_scope.

Definition maxStderrLine : nat := 64 * 64.

Lemma maxStderrLine_big : (8 < maxStderrLine)%nat.
Proof. apply Nat.ltb_lt. vm_compute. reflexivity. Qed.

(** utf8.FullRune: [s] begins with a whole rune or an invalid byte. *)
Definition full_rune (s : string) : bool :=
  match s with
  | EmptyString => false
  | String c t =>
      let b := bz c in
      let size := if in_range 194 223 b then 2 else if in_range 224 239 b then 3 else if in_range 240 244 b then 4 else 1 in
      let lo := if b =? 224 then 160 else if b =? 240 then 144 else 128 in
      let hi := if b =? 237 then 159 else if b =? 244 then 143 else 191 in
      if size <=? slen s then true
      else match String.get 0 t with
           | Some c1 => if negb (in_range lo hi (bz c1)) then true
                        else match String.get 1 t with Some c2 => negb (in_range 128 191 (bz c2)) | None => false end
           | None => false
           end
  end.

(** The loop from the last byte back over four at most; [i] is the index plus
    one. *)
Fixpoint rune_cut_from (b : string) (back i : nat) : nat :=
  match back, i with
  | S back, S k =>
      match String.get k b with
      | Some c =>
          if rune_start c then
            if negb (full_rune (s_drop k b)) && (0 <? k)%nat then k else String.length b
          else rune_cut_from b back k
      | None => String.length b
      end
  | _, _ => String.length b
  end.

Definition runeCut (b : string) : nat := rune_cut_from b 4 (String.length b).

Record lineWriter := {
  lw_prefix : string; lw_scrub : option scrubber; lw_buf : string; lw_split : bool; lw_closed : bool;
  lw_out : string;        (* what has been written to w; errors are ignored *)
}.

Definition newline : ascii := "010"%char.

Definition set_buf (l : lineWriter) (buf : string) : lineWriter :=
  {| lw_prefix := lw_prefix l; lw_scrub := lw_scrub l; lw_buf := buf; lw_split := lw_split l; lw_closed := lw_closed l; lw_out := lw_out l |}.
Definition set_split (l : lineWriter) (b : bool) : lineWriter :=
  {| lw_prefix := lw_prefix l; lw_scrub := lw_scrub l; lw_buf := lw_buf l; lw_split := b; lw_closed := lw_closed l; lw_out := lw_out l |}.
Definition set_scrub (l : lineWriter) (s : option scrubber) : lineWriter :=
  {| lw_prefix := lw_prefix l; lw_scrub := s; lw_buf := lw_buf l; lw_split := lw_split l; lw_closed := lw_closed l; lw_out := lw_out l |}.
Definition set_closed (l : lineWriter) : lineWriter :=
  {| lw_prefix := lw_prefix l; lw_scrub := lw_scrub l; lw_buf := lw_buf l; lw_split := lw_split l; lw_closed := true; lw_out := lw_out l |}.

(** strings.TrimSuffix(line, CR). *)
Fixpoint trim_cr (s : string) : string :=
  match s with
  | EmptyString => EmptyString
  | String c EmptyString => if bz c =? 13 then EmptyString else s
  | String c s => String c (trim_cr s)
  end.

Section LineWriter.
Context `{Unicode}.

Definition emitPrefix (l : lineWriter) (n : nat) : lineWriter :=
  {| lw_prefix := lw_prefix l; lw_scrub := lw_scrub l; lw_buf := s_drop n (lw_buf l); lw_split := lw_split l; lw_closed := lw_closed l;
     lw_out := (lw_out l ++ lw_prefix l ++ escapeControl (trim_cr (s_take n (lw_buf l))) 0 ++ String newline "")%string |}.

Definition emit (l : lineWriter) : lineWriter := emitPrefix l (String.length (lw_buf l)).

(** Cut the buffer while it is too long; every cut takes at least a byte. *)
Fixpoint cut_loop (fuel : nat) (l : lineWriter) : lineWriter :=
  match fuel with
  | O => l
  | S fuel =>
      if (maxStderrLine <=? String.length (lw_buf l))%nat
      then cut_loop fuel (set_split (emitPrefix l (runeCut (s_take maxStderrLine (lw_buf l)))) true)
      else l
  end.

Definition append_chunk (l : lineWriter) (chunk : string) : lineWriter :=
  let l := set_buf l (lw_buf l ++ chunk)%string in cut_loop (String.length (lw_buf l)) l.

(** The end of a line. *)
Definition end_line (l : lineWriter) : lineWriter :=
  set_split (if (0 <? String.length (lw_buf l))%nat || negb (lw_split l) then emit l else l) false.

Fixpoint feed_loop (fuel : nat) (l : lineWriter) (p : string) : lineWriter :=
  match fuel, p with
  | O, _ | _, EmptyString => l
  | S fuel, _ =>
      match cut_b newline p with
      | None => append_chunk l p
      | Some (chunk, rest) => feed_loop fuel (end_line (append_chunk l chunk)) rest
      end
  end.

Definition feed (l : lineWriter) (p : string) : lineWriter := feed_loop (String.length p) l p.

(** [Write] always reports that it wrote everything. *)
Definition Write (l : lineWriter) (p : string) : lineWriter :=
  if lw_closed l then l
  else match lw_scrub l with
       | None => feed l p
       | Some s => let '(s, out) := scrub_write s p false in feed (set_scrub l (Some s)) out
       end.

Definition Flush (l : lineWriter) : lineWriter :=
  if lw_closed l then l
  else
    let l := set_closed l in
    let l := match lw_scrub l with
             | None => l
             | Some s => let '(s, out) := scrub_write s EmptyString true in feed (set_scrub l (Some s)) out
             end in
    set_split (if (0 <? String.length (lw_buf l))%nat then emit l else l) false.

(** ** The cut takes a byte, and at most all of them *)

Lemma rune_cut_from_bounds b back i : (0 < String.length b)%nat → (i <= String.length b)%nat →
  (1 <= rune_cut_from b back i <= String.length b)%nat.
Proof.
  intros Hb. revert i. induction back as [|back IH]; intros [|k] Hk; cbn [rune_cut_from]; try lia.
  destruct (String.get k b) as [c|]; [|lia]. destruct (rune_start c); [|apply IH; lia].
  destruct (negb (full_rune (s_drop k b))); cbn [andb]; [|lia]. destruct (Nat.ltb_spec 0 k); lia.
Qed.

Lemma runeCut_bounds b : (0 < String.length b)%nat → (1 <= runeCut b <= String.length b)%nat.
Proof. intros Hb. by apply rune_cut_from_bounds. Qed.

(** At most three bytes are left for the next line. *)
Lemma rune_cut_from_tail b back i : (back <= 4)%nat → (i <= String.length b)%nat →
  (String.length b <= i + (4 - back))%nat → (String.length b <= rune_cut_from b back i + 4)%nat.
Proof.
  revert i. induction back as [|back IH]; intros [|k] Hl Hk Hb; cbn [rune_cut_from]; try lia.
  destruct (String.get k b) as [c|]; [|lia]. destruct (rune_start c); [|apply IH; lia].
  destruct (negb (full_rune (s_drop k b)) && (0 <? k)%nat); lia.
Qed.

Lemma runeCut_tail b : (String.length b <= runeCut b + 4)%nat.
Proof. apply rune_cut_from_tail; lia. Qed.

(** ** Byte by byte *)

Definition byte_step (l : lineWriter) (c : ascii) : lineWriter :=
  if Ascii.eqb c newline then end_line l
  else
    let l := set_buf l (lw_buf l ++ String c "")%string in
    if (maxStderrLine <=? String.length (lw_buf l))%nat
    then set_split (emitPrefix l (runeCut (s_take maxStderrLine (lw_buf l)))) true else l.

Fixpoint bytes_steps (l : lineWriter) (p : string) : lineWriter :=
  match p with EmptyString => l | String c p => bytes_steps (byte_step l c) p end.

Lemma bytes_steps_app l p q : bytes_steps l (p ++ q)%string = bytes_steps (bytes_steps l p) q.
Proof. revert l. induction p as [|c p IH]; intros l; [done|]. cbn. apply IH. Qed.

Definition short_buf (l : lineWriter) : Prop := (String.length (lw_buf l) < maxStderrLine)%nat.

Lemma s_take_all n s : (String.length s <= n)%nat → s_take n s = s.
Proof. revert n. induction s as [|c s IH]; intros [|n] Hn; cbn in *; try done; [lia|]. rewrite IH by lia. done. Qed.

Lemma s_drop_app_le n a b : (n <= String.length a)%nat → s_drop n (a ++ b)%string = (s_drop n a ++ b)%string.
Proof. apply s_drop_app. Qed.

Lemma byte_step_short l c : short_buf l → short_buf (byte_step l c).
Proof.
  unfold short_buf, byte_step. intros Hl. pose proof maxStderrLine_big as Hbig. destruct (Ascii.eqb c newline).
  - unfold end_line. destruct (_ || _); cbn [set_split emit emitPrefix lw_buf]; [|done]. rewrite s_drop_length. lia.
  - cbn [set_buf lw_buf]. destruct (Nat.leb_spec maxStderrLine (String.length (lw_buf l ++ String c ""))) as [Hge|]; [|done].
    set (b := (lw_buf l ++ String c "")%string) in *. cbn [set_split emitPrefix lw_buf set_buf]. rewrite s_drop_length.
    assert (Hb : String.length b = S (String.length (lw_buf l))) by (unfold b; rewrite length_app_str; cbn; lia).
    rewrite s_take_all by lia. pose proof (runeCut_tail b). lia.
Qed.

Lemma bytes_steps_short l p : short_buf l → short_buf (bytes_steps l p).
Proof. revert l. induction p as [|c p IH]; intros l Hl; [done|]. by apply IH, byte_step_short. Qed.

(** A chunk without a newline, appended and cut, is its bytes one by one. *)
Lemma cut_loop_bytes fuel l chunk :
  short_buf l → contains_b newline chunk = false →
  (String.length (lw_buf l) + String.length chunk <= fuel)%nat →
  cut_loop fuel (set_buf l (lw_buf l ++ chunk)%string) = bytes_steps l chunk.
Proof.
  revert fuel l. pose proof maxStderrLine_big as Hbig.
  induction chunk as [|c rest IH]; intros fuel l Hl Hn Hf.
  { rewrite app_nil_r_str. assert (set_buf l (lw_buf l) = l) as -> by (by destruct l). cbn [bytes_steps].
    destruct fuel as [|fuel]; [done|]. cbn [cut_loop]. by rewrite (proj2 (Nat.leb_gt _ _) Hl). }
  cbn [contains_b] in Hn. apply orb_false_iff in Hn as [Hc Hn]. rewrite Ascii.eqb_sym in Hc. cbn [String.length] in Hf.
  pose proof (byte_step_short l c Hl) as Hs. cbn [bytes_steps]. unfold byte_step in Hs |- *. rewrite Hc in Hs |- *. cbn [set_buf lw_buf] in Hs |- *.
  assert (Hlen : String.length (lw_buf l ++ String c "") = S (String.length (lw_buf l))) by (rewrite length_app_str; cbn; lia).
  assert (Happ : (lw_buf l ++ String c rest)%string = ((lw_buf l ++ String c "") ++ rest)%string) by (by rewrite <- app_assoc_str).
  destruct (Nat.leb_spec maxStderrLine (String.length (lw_buf l ++ String c ""))) as [Hge|Hlt].
  - destruct fuel as [|fuel]; [lia|]. cbn [cut_loop set_buf lw_buf]. rewrite Happ.
    assert (Heq : String.length (lw_buf l ++ String c "") = maxStderrLine) by (unfold short_buf in Hl; lia).
    rewrite (proj2 (Nat.leb_le _ _)) by (rewrite length_app_str; lia).
    rewrite s_take_app by lia. set (b := (lw_buf l ++ String c "")%string) in *. rewrite (s_take_all maxStderrLine b) in * by lia.
    destruct (runeCut_bounds b) as [Hlo Hhi]; [lia|]. rewrite <- (IH fuel); [|done|done|].
    + f_equal. unfold emitPrefix, set_split, set_buf. cbn [lw_buf lw_prefix lw_scrub lw_split lw_closed lw_out].
      by rewrite s_drop_app, s_take_app by done.
    + cbn [set_split emitPrefix set_buf lw_buf]. rewrite s_drop_length. pose proof (runeCut_tail b). lia.
  - rewrite Happ. rewrite <- (IH fuel); [done|done|done|]. cbn [set_buf lw_buf]. lia.
Qed.

Lemma feed_loop_bytes fuel l p : short_buf l → (String.length p <= fuel)%nat → feed_loop fuel l p = bytes_steps l p.
Proof.
  revert l p. induction fuel as [|fuel IH]; intros l p Hl Hf; [by destruct p; [|cbn in Hf; lia]|].
  destruct p as [|c p]; [done|]. cbn [feed_loop]. pose proof (cut_b_spec newline (String c p)) as Hc.
  destruct (cut_b newline (String c p)) as [ [chunk rest]|].
  - destruct Hc as [E Hn]. rewrite E, bytes_steps_app. unfold append_chunk.
    rewrite (cut_loop_bytes _ l chunk Hl Hn) by (cbn [set_buf lw_buf]; rewrite length_app_str; lia).
    cbn [bytes_steps]. unfold byte_step at 1. rewrite Ascii.eqb_refl. apply IH.
    + pose proof (byte_step_short (bytes_steps l chunk) newline (bytes_steps_short l chunk Hl)) as Hs.
      unfold byte_step in Hs. by rewrite Ascii.eqb_refl in Hs.
    + apply (f_equal String.length) in E. rewrite length_app_str in E. cbn [String.length] in E, Hf. lia.
  - unfold append_chunk. apply cut_loop_bytes; [done|done|]. cbn [set_buf lw_buf]. rewrite length_app_str. lia.
Qed.

Lemma feed_bytes l p : short_buf l → feed l p = bytes_steps l p.
Proof. intros Hl. by apply feed_loop_bytes. Qed.

Lemma feed_app l p q : short_buf l → feed l (p ++ q)%string = feed (feed l p) q.
Proof.
  intros Hl. rewrite (feed_bytes l p), (feed_bytes l (p ++ q)%string) by done.
  rewrite feed_bytes by (by apply bytes_steps_short). apply bytes_steps_app.
Qed.

(** ** The whole stream *)

(** What is fed to the lines does not touch the scrubber, and the other way
    round. *)
Lemma byte_step_scrub l c s : set_scrub (byte_step l c) s = byte_step (set_scrub l s) c.
Proof.
  unfold byte_step, end_line. destruct (Ascii.eqb c newline); cbn [set_scrub set_buf lw_buf lw_split].
  - by destruct ((0 <? String.length (lw_buf l))%nat || negb (lw_split l)).
  - by destruct (maxStderrLine <=? String.length (lw_buf l ++ String c ""))%nat.
Qed.

Lemma bytes_steps_scrub l p s : set_scrub (bytes_steps l p) s = bytes_steps (set_scrub l s) p.
Proof. revert l. induction p as [|c p IH]; intros l; [done|]. cbn. by rewrite IH, byte_step_scrub. Qed.

Lemma byte_step_kept l c : lw_closed (byte_step l c) = lw_closed l ∧ lw_scrub (byte_step l c) = lw_scrub l ∧ lw_prefix (byte_step l c) = lw_prefix l.
Proof.
  unfold byte_step, end_line. destruct (Ascii.eqb c newline).
  - by destruct ((0 <? String.length (lw_buf l))%nat || negb (lw_split l)).
  - cbn [set_buf lw_buf]. by destruct (maxStderrLine <=? String.length (lw_buf l ++ String c ""))%nat.
Qed.

Lemma bytes_steps_kept l p : lw_closed (bytes_steps l p) = lw_closed l ∧ lw_scrub (bytes_steps l p) = lw_scrub l ∧ lw_prefix (bytes_steps l p) = lw_prefix l.
Proof.
  revert l. induction p as [|c p IH]; intros l; [done|]. cbn. destruct (IH (byte_step l c)) as (-> & -> & ->). apply byte_step_kept.
Qed.

Lemma Write_bytes l p : lw_closed l = false → short_buf l →
  Write l p = match lw_scrub l with
              | None => bytes_steps l p
              | Some s => let '(s', out) := scrub_write s p false in bytes_steps (set_scrub l (Some s')) out
              end.
Proof.
  intros Hc Hl. unfold Write. rewrite Hc. destruct (lw_scrub l) as [s|]; [|by apply feed_bytes].
  destruct (scrub_write s p false) as [s' out]. by apply feed_bytes.
Qed.

Lemma Write_short l p : short_buf l → short_buf (Write l p).
Proof.
  intros Hl. destruct (lw_closed l) eqn:Hc; [unfold Write; by rewrite Hc|]. rewrite Write_bytes by done.
  destruct (lw_scrub l) as [s|]; [|by apply bytes_steps_short]. destruct (scrub_write s p false) as [s' out]. by apply bytes_steps_short.
Qed.

Lemma Write_open l p : short_buf l → lw_closed (Write l p) = lw_closed l ∧ lw_prefix (Write l p) = lw_prefix l.
Proof.
  intros Hl. destruct (lw_closed l) eqn:Hc; [unfold Write; by rewrite Hc|]. rewrite Write_bytes by done.
  destruct (lw_scrub l) as [s|].
  - destruct (scrub_write s p false) as [s' out]. destruct (bytes_steps_kept (set_scrub l (Some s')) out) as (-> & _ & ->). done.
  - destruct (bytes_steps_kept l p) as (-> & _ & ->). done.
Qed.

(** Two writes are one. *)
Lemma Write_app l p q : short_buf l → Write l (p ++ q)%string = Write (Write l p) q.
Proof.
  intros Hl. destruct (lw_closed l) eqn:Hc.
  { assert (Hw : ∀ x, Write l x = l) by (intros x; unfold Write; by rewrite Hc). by rewrite !Hw. }
  assert (Hw : lw_closed (Write l p) = false) by (by rewrite (proj1 (Write_open l p Hl))).
  pose proof (Write_short l p Hl) as Hs. rewrite (Write_bytes (Write l p) q Hw Hs).
  rewrite (Write_bytes l (p ++ q)), (Write_bytes l p) by done. destruct (lw_scrub l) as [s|] eqn:Es.
  - unfold scrub_write. rewrite app_assoc_str, (scan_app false _ 0 (sc_pending s ++ p)%string) by lia.
    destruct (scan false (sc_secrets s) 0 (sc_pending s ++ p)) as [o1 p1] eqn:E1.
    destruct (bytes_steps_kept (set_scrub l (Some {| sc_secrets := sc_secrets s; sc_pending := p1 |})) o1) as (Hk1 & Hk2 & _).
    rewrite Hk2. cbn [set_scrub lw_scrub sc_secrets sc_pending].
    destruct (scan false (sc_secrets s) 0 (p1 ++ q)) as [o2 p2]. rewrite bytes_steps_app, bytes_steps_scrub. done.
  - destruct (bytes_steps_kept l p) as (_ & -> & _). rewrite Es. apply bytes_steps_app.
Qed.

Fixpoint writes (l : lineWriter) (ps : list string) : lineWriter :=
  match ps with [] => l | p :: ps => writes (Write l p) ps end.

Lemma Write_empty l : short_buf l → ∀ q, Write (Write l "") q = Write l q.
Proof. intros Hl q. by rewrite <- (Write_app l "" q Hl). Qed.

Lemma writes_whole l ps : short_buf l → ps ≠ [] → writes l ps = Write l (concat_str ps).
Proof.
  revert l. induction ps as [|p ps IH]; intros l Hl Hne; [done|]. cbn [writes concat_str foldr].
  change (foldr String.append EmptyString ps) with (concat_str ps). destruct ps as [|q ps]; [cbn; by rewrite app_nil_r_str|].
  rewrite IH by (done || by apply Write_short). by rewrite Write_app.
Qed.
End LineWriter.

(** ** Relayed errors *)

Definition maxRelayedMessage : Z := 512.

(** The codes of JSON-RPC. *)
Definition CodeParseError : Z := -32700.
Definition CodeInvalidRequest : Z := -32600.
Definition CodeMethodNotFound : Z := -32601.
Definition CodeInternalError : Z := -32603.

(** The code and message of the error the agent sees for the upstream's; data
    is dropped. *)
Definition relayUpstreamError `{Unicode} (server : string) (code : Z) (message : string) (red : option Redactor) : Z * string :=
  (if mem code [CodeParseError; CodeInvalidRequest; CodeMethodNotFound; CodeInternalError] then code else CodeInternalError,
   ("upstream " ++ server ++ ": " ++ escapeControl (Redact red message) maxRelayedMessage)%string).

(** [escapedError.Error]. *)
Definition escapedError_Error `{Unicode} (text : string) : string := escapeControl text 0.

(** ** The log *)

Section Log.
Context `{Unicode}.

(** Lines of a prefix and escaped text. *)
Definition log_lines (prefix out : string) : Prop :=
  ∃ ts, out = concat_str (map (λ t, (prefix ++ t ++ String newline "")%string) ts) ∧
    ∀ t, t ∈ ts → no_control t ∧ escaped t.

Lemma log_lines_snoc prefix out t :
  log_lines prefix out → no_control t → escaped t → log_lines prefix (out ++ prefix ++ t ++ String newline "")%string.
Proof.
  intros (ts & -> & Hts) Hn He. exists (ts ++ [t]). split.
  - rewrite map_app. cbn [map]. clear. induction ts as [|x ts IH]; cbn [map app concat_str foldr]; [by rewrite app_nil_r_str|].
    change (foldr String.append EmptyString ?l) with (concat_str l) in *. by rewrite <- app_assoc_str, IH.
  - intros x [Hx|Hx%list_elem_of_singleton]%elem_of_app; [auto|by subst].
Qed.

Definition log_ok (l : lineWriter) : Prop := log_lines (lw_prefix l) (lw_out l).

Lemma emitPrefix_log l n : log_ok l → log_ok (emitPrefix l n).
Proof.
  intros Hl. apply log_lines_snoc; [exact Hl|apply escaped_no_control|]; apply escapeControl_escaped.
Qed.

Lemma byte_step_log l c : log_ok l → log_ok (byte_step l c).
Proof.
  intros Hl. unfold byte_step, end_line. destruct (Ascii.eqb c newline).
  - destruct ((0 <? String.length (lw_buf l))%nat || negb (lw_split l)); [exact (emitPrefix_log l _ Hl)|exact Hl].
  - cbn [set_buf lw_buf]. destruct (maxStderrLine <=? String.length (lw_buf l ++ String c ""))%nat; [|exact Hl].
    exact (emitPrefix_log (set_buf l _) _ Hl).
Qed.

Lemma bytes_steps_log l p : log_ok l → log_ok (bytes_steps l p).
Proof. revert l. induction p as [|c p IH]; intros l Hl; [done|]. by apply IH, byte_step_log. Qed.

Lemma Write_log l p : short_buf l → log_ok l → log_ok (Write l p).
Proof.
  intros Hs Hl. destruct (lw_closed l) eqn:Hc; [unfold Write; by rewrite Hc|]. rewrite Write_bytes by done.
  destruct (lw_scrub l) as [s|]; [|by apply bytes_steps_log]. destruct (scrub_write s p false) as [s' out].
  exact (bytes_steps_log (set_scrub l (Some s')) out Hl).
Qed.

Lemma Flush_log l : short_buf l → log_ok l → log_ok (Flush l).
Proof.
  intros Hs Hl. unfold Flush. destruct (lw_closed l); [done|].
  set (l1 := match lw_scrub (set_closed l) with None => _ | Some _ => _ end).
  assert (H1 : log_ok l1).
  { unfold l1. destruct (lw_scrub (set_closed l)) as [s|]; [|exact Hl]. destruct (scrub_write s "" true) as [s' out].
    rewrite feed_bytes by exact Hs. exact (bytes_steps_log (set_scrub (set_closed l) (Some s')) out Hl). }
  destruct (0 <? String.length (lw_buf l1))%nat; [exact (emitPrefix_log l1 _ H1)|exact H1].
Qed.

Lemma Flush_closed l : lw_closed (Flush l) = true.
Proof.
  unfold Flush. destruct (lw_closed l) eqn:Hc; [done|]. cbn [set_split lw_closed].
  assert (Hf : ∀ fuel x p, lw_closed (feed_loop fuel x p) = lw_closed x).
  { assert (Hcut : ∀ fuel x, lw_closed (cut_loop fuel x) = lw_closed x).
    { induction fuel as [|fuel IH]; intros x; [done|]. cbn [cut_loop]. destruct (_ <=? _)%nat; [|done]. by rewrite IH. }
    induction fuel as [|fuel IH]; intros x p; [by destruct p|]. destruct p as [|c p]; [done|]. cbn [feed_loop].
    destruct (cut_b newline _) as [ [chunk rest]|]; [|by unfold append_chunk; rewrite Hcut].
    rewrite IH. unfold end_line. destruct (_ || _); cbn; unfold append_chunk; by rewrite Hcut. }
  set (l1 := match lw_scrub (set_closed l) with None => _ | Some _ => _ end).
  assert (H1 : lw_closed l1 = true).
  { unfold l1. destruct (lw_scrub (set_closed l)) as [s|]; [|done]. destruct (scrub_write s "" true) as [s' out].
    unfold feed. by rewrite Hf. }
  by destruct (0 <? String.length (lw_buf l1))%nat.
Qed.

Lemma writes_log l ps : short_buf l → log_ok l → short_buf (writes l ps) ∧ log_ok (writes l ps).
Proof.
  revert l. induction ps as [|p ps IH]; intros l Hs Hl; [done|]. cbn [writes]. apply IH; [by apply Write_short|by apply Write_log].
Qed.
End Log.

(** A lineWriter as the proxy makes it. *)
Definition new_lineWriter (prefix : string) (red : option Redactor) : lineWriter :=
  {| lw_prefix := prefix; lw_scrub := newStream red; lw_buf := EmptyString; lw_split := false; lw_closed := false; lw_out := EmptyString |}.

(** What an upstream writes to its standard error, in any pieces and
    scrubbed or not, is logged exactly as if it came in one write; the log is
    whole lines, each the upstream's prefix and text with no control character
    or line break, so no upstream can forge another line; and after Flush
    nothing more is logged. *)
Theorem stderr_log `{Unicode} prefix red ps late :
  ps ≠ [] →
  let l := new_lineWriter prefix red in
  Flush (writes l ps) = Flush (Write l (concat_str ps)) ∧
  log_lines prefix (lw_out (Flush (writes l ps))) ∧
  lw_out (Write (Flush (writes l ps)) late) = lw_out (Flush (writes l ps)).
Proof.
  intros Hne l. assert (Hs : short_buf l) by (unfold short_buf; cbn; pose proof maxStderrLine_big; lia).
  assert (Hl : log_ok l) by (exists []; split; [done|]; by intros t ?%not_elem_of_nil).
  split; [by rewrite writes_whole|]. destruct (writes_log l ps Hs Hl) as [Hs2 Hl2]. split.
  - pose proof (Flush_log _ Hs2 Hl2) as Hf. unfold log_ok in Hf.
    assert (Hp : lw_prefix (Flush (writes l ps)) = prefix); [|by rewrite Hp in Hf].
    clear Hf. rewrite writes_whole by done. destruct (Write_open l (concat_str ps) Hs) as [Ho Hpre].
    pose proof (Write_short l (concat_str ps) Hs) as Hs3. unfold Flush. rewrite Ho. change (lw_closed l) with false. cbv iota.
    set (w := Write l (concat_str ps)) in *.
    set (l1 := match lw_scrub (set_closed w) with None => _ | Some _ => _ end).
    assert (H1 : lw_prefix l1 = prefix); [|by destruct (0 <? String.length (lw_buf l1))%nat].
    unfold l1. destruct (lw_scrub (set_closed w)) as [s|]; [|exact Hpre]. destruct (scrub_write s "" true) as [s' out].
    rewrite feed_bytes by exact Hs3. destruct (bytes_steps_kept (set_scrub (set_closed w) (Some s')) out) as (_ & _ & ->). exact Hpre.
  - unfold Write. by rewrite Flush_closed.
Qed.

Lemma stderr_log_witness :
  ∃ r, @NewRedactor ascii_tables [NewSecret "TOKEN" "s3cret"] = Some r ∧
    let l := new_lineWriter "up: " (Some r) in
    lw_out (@Flush ascii_tables (@writes ascii_tables l ["a s3c"; String newline "b s3"; ("cret!" ++ String newline "c")%string])) =
      ("up: a s3c" ++ String newline "up: b [redacted:TOKEN]!" ++ String newline "up: c" ++ String newline "")%string ∧
    @log_lines ascii_tables "up: " (lw_out (@Flush ascii_tables (@writes ascii_tables l ["a s3c"; String newline "b s3"; ("cret!" ++ String newline "c")%string]))).
Proof.
  destruct (@NewRedactor ascii_tables [NewSecret "TOKEN" "s3cret"]) as [r|] eqn:E; [|vm_compute in E; discriminate E].
  exists r. split; [reflexivity|]. cbv zeta. split.
  - vm_compute in E. injection E as <-. vm_compute. reflexivity.
  - apply (@stderr_log ascii_tables "up: " (Some r) ["a s3c"; String newline "b s3"; ("cret!" ++ String newline "c")%string] "").
    discriminate.
Defined.
