(* ===== verification/ToolClass.v ===== *)
(** * The class vocabulary: internal/classify/class.go

    [type Class string]: a class is its policy-file spelling.  [Parse] is the
    only way text becomes a class, and [Valid] is the check the loaders make. *)

From S2P Require Import Prelude GoStd.

Open Scope string_scope.

Abbreviation Class := string (only parsing).

Definition ReadOperational : Class := "READ_OPERATIONAL".
Definition ReadConfig : Class := "READ_CONFIG".
Definition WriteConfig : Class := "WRITE_CONFIG".
Definition ExecArbitrary : Class := "EXEC_ARBITRARY".
Definition InventoryRead : Class := "INVENTORY_READ".
Definition LabLifecycle : Class := "LAB_LIFECYCLE".
Definition LocalAdmin : Class := "LOCAL_ADMIN".

Definition All : list Class :=
  [ReadOperational; ReadConfig; WriteConfig; ExecArbitrary;
   InventoryRead; LabLifecycle; LocalAdmin].

Section ToolClass.
Context `{Unicode}.

(** [Parse]: [None] is the "unknown class" error. *)
Definition parse_class (s : string) : option Class :=
  let norm := to_upper (replace_all (trim_space s) "-" "_") in
  List.find (λ c, String.eqb c norm) All.

Definition class_valid (c : Class) : bool :=
  match parse_class c with Some _ => true | None => false end.

(** [UnmarshalYAML] on the scalar's text. *)
Definition unmarshal_class (b : string) : option Class :=
  parse_class (trim (cutset (String dquote (String "'" (String " "
    (String (ascii_of_nat 10) EmptyString))))) b).
End ToolClass.

Definition IsWrite (c : Class) : bool :=
  String.eqb c WriteConfig || String.eqb c ExecArbitrary.

Definition IsRead (c : Class) : bool :=
  String.eqb c ReadOperational || String.eqb c ReadConfig || String.eqb c InventoryRead.

(** ** Lemmas *)

Lemma parse_class_in `{Unicode} s c : parse_class s = Some c → c ∈ All.
Proof.
  unfold parse_class. intros Hf. apply List.find_some in Hf as [Hin _].
  by apply list_elem_of_In.
Qed.

(** Every class of the closed set is its own spelling. *)
Lemma parse_class_all `{Unicode} c : c ∈ All → parse_class c = Some c.
Proof.
  unfold All. intros Hc.
  repeat (apply elem_of_cons in Hc as [->|Hc]; [by vm_compute|]).
  by apply not_elem_of_nil in Hc.
Qed.

Lemma class_valid_all `{Unicode} c : c ∈ All → class_valid c = true.
Proof. intros Hc. unfold class_valid. by rewrite parse_class_all. Qed.

Lemma read_not_write c : IsRead c = true → IsWrite c = false.
Proof.
  unfold IsRead, IsWrite. intros Hr.
  repeat (apply orb_true_iff in Hr as [Hr|Hr]); breflect; by subst.
Qed.
