(* ===== verification/Command.v ===== *)
(** * The free-form command classifier: internal/classify/command.go

    [classifyCommand] decides whether one CLI line is provably a read; the
    checks run in the source's order and the first one to fail is named. *)

From S2P Require Import Prelude GoStd ToolClass.

Open Scope string_scope.
Open Scope Z_scope.
Open Scope list_scope.

(** [\s] of the regexp package: tab, line feed, form feed, return, space. *)
Definition re_space (c : ascii) : bool :=
  let b := bz c in (b =? 9) || (b =? 10) || (b =? 12) || (b =? 13) || (b =? 32).

(** The tail [(?:\s|$)] of the two anchored expressions. *)
Definition at_boundary (rest : string) : bool :=
  match rest with EmptyString => true | String c _ => re_space c end.

(** One literal alternative of [^(?:a|b|...)(?:\s|$)]. *)
Definition verb_match (c : string) (verb : string) : bool :=
  match cut_prefix verb c with Some rest => at_boundary rest | None => false end.

(** An alternative [a\s+b] of the same expressions. *)
Definition verb2_match (c a b : string) : bool :=
  match cut_prefix a c with
  | Some (String x rest) =>
      re_space x && verb_match (trim_left re_space rest) b
  | _ => false
  end.

Definition allow_verbs : list string :=
  ["show"; "get"; "display"; "ping"; "traceroute"; "tracepath"].

Definition allowPrefix (c : string) : bool :=
  existsb (verb_match c) allow_verbs || verb2_match c "monitor" "traffic".

Definition blocklist_verbs : list string :=
  ["configure"; "config"; "conf"; "edit"; "set"; "delete"; "no"; "commit"; "rollback";
   "load"; "save"; "write"; "wr"; "copy"; "erase"; "format"; "reload"; "rel"; "relo";
   "request"; "restart"; "shutdown"; "clear"; "reset"; "debug"; "undebug";
   "install"; "boot"; "zeroize"; "reboot"; "halt"; "power"; "activate"; "deactivate";
   "license"; "crypto"; "archive"; "exec"; "start"; "bash"; "python"; "guestshell"; "tclsh";
   "run"; "enable"; "feature"; "dockerd"; "scp"; "tftp"; "ssh"; "ftp"; "telnet"; "execute";
   "diagnose"; "file"; "test"].

Definition blocklistStart (c : string) : bool :=
  existsb (verb_match c) blocklist_verbs || verb2_match c "monitor" "start".

Definition blockedWords : list string :=
  ["configure"; "edit"; "set"; "delete"; "rollback"; "commit";
   "wr"; "wri"; "writ"; "write"; "write-file"; "read-file";
   "copy"; "rel"; "relo"; "reloa"; "reload"; "reboot";
   "shutdown"; "clear"; "reset"; "format"; "erase"; "debug";
   "undebug"; "zeroize"; "tclsh"; "bash"; "python"; "guestshell"].

(** [isAbbrevOf]: a non-empty prefix of the keyword. *)
Definition isAbbrevOf (w k : string) : bool := negb (String.eqb w "") && has_prefix k w.

Definition blockedPair (a b : string) : bool :=
  if String.eqb a "request" then String.eqb b "system"
  else if String.eqb a "admin" then String.eqb b "save" || String.eqb b "reboot"
  else if String.eqb a "start" then String.eqb b "shell"
  else (String.length "conf" <=? String.length a)%nat &&
       isAbbrevOf a "configure" && isAbbrevOf b "terminal".

Fixpoint blocked (fields : list string) : bool :=
  match fields with
  | [] => false
  | f :: rest =>
      mem f blockedWords ||
      match rest with g :: _ => blockedPair f g | [] => false end ||
      blocked rest
  end.

(** The byte loop of [hasShellMeta]: a [$] is allowed only before white
    space or at the end. *)
Definition meta_bytes : string := String dquote "|<>;&'{}*?[]~`\".

Fixpoint hasShellMeta (c : string) : bool :=
  match c with
  | EmptyString => false
  | String b rest =>
      if contains_b b meta_bytes then true
      else if Ascii.eqb b "$" then
        match rest with
        | EmptyString => hasShellMeta rest
        | String n _ => if re_space n then hasShellMeta rest else true
        end
      else hasShellMeta rest
  end.

Definition configKeywords : list string :=
  ["running-config"; "startup-config"; "configuration"; "config";
   "tech-support"; "derived-config"; "archive"; "full-configuration";
   "current-configuration"; "saved-configuration"; "session-config";
   "checkpoint"; "candidate"; "file"; "diff"].

Definition systemConfigKeywords : list string :=
  ["rollback"; "configuration"; "admin"; "interface"; "ha"].

Definition prefixRelated (w k : string) : bool := has_prefix k w || has_prefix w k.

Definition matchesAny (w : string) (keywords : list string) : bool :=
  existsb (prefixRelated w) keywords.

(** [fields[0]] is read unconditionally; the caller never passes an empty
    list. *)
Definition isConfigRead (fields : list string) : bool :=
  match fields with
  | f0 :: rest =>
      if mem f0 ["show"; "display"; "get"] then
        match rest with
        | [] => true
        | f1 :: rest2 =>
            matchesAny f1 configKeywords ||
            match rest2 with
            | f2 :: _ => isAbbrevOf f1 "system" && matchesAny f2 systemConfigKeywords
            | [] => false
            end
        end
      else false
  | [] => false
  end.

Definition maxMonitorCount : Z := 1000.

(** [strconv.Atoi] on a string of decimal digits. *)
Fixpoint digits_value (acc : Z) (s : string) : Z :=
  match s with EmptyString => acc | String c s => digits_value (acc * 10 + (bz c - 48)) s end.

Definition count_value_ok (n : string) : bool :=
  negb (String.eqb n "" || (4 <? slen n) ||
        negb (String.eqb (trim is_digit_b n) "")) &&
  in_range 1 maxMonitorCount (digits_value 0 n).

Fixpoint monitorCount_from (seen : bool) (fields : list string) : bool :=
  match fields with
  | [] => seen
  | f :: rest =>
      if String.eqb f "count" then
        match rest with
        | [] => false
        | n :: _ => if count_value_ok n then monitorCount_from true rest else false
        end
      else monitorCount_from seen rest
  end.
Definition monitorCountOK (fields : list string) : bool := monitorCount_from false fields.

Definition maxCommandLen : Z := 1024.

Definition checkEmpty : string := "empty".
Definition checkControl : string := "control-character".
Definition checkNonASCII : string := "non-ascii".
Definition checkShellMeta : string := "shell-meta".
Definition checkLeadingDash : string := "leading-dash".
Definition checkBlocklist : string := "blocklist".
Definition checkAllowPrefix : string := "allow-prefix".
Definition checkTooLong : string := "too-long".
Definition checkNoCount : string := "monitor-no-count".

(** [checkBytes] of config.go, which both the command and the config payload
    checks share: the empty string when every byte is printable ASCII or a
    tab. *)
Fixpoint checkBytes (line : string) : string :=
  match line with
  | EmptyString => ""
  | String c rest =>
      let b := bz c in
      if b =? 9 then checkBytes rest
      else if (b <? 32) || (b =? 127) then checkControl
      else if 128 <=? b then checkNonASCII
      else checkBytes rest
  end.

Definition space_tab : string := String " " (String "009" EmptyString).

Section Classify.
Context `{Unicode}.

Definition classifyCommand (cmd : string) : Class * string :=
  if maxCommandLen <? slen cmd then (ExecArbitrary, checkTooLong) else
  let raw := trim (cutset space_tab) cmd in
  let check := checkBytes raw in
  if negb (String.eqb check "") then (ExecArbitrary, check) else
  let fs := fields (to_lower raw) in
  match fs with
  | [] => (ExecArbitrary, checkEmpty)
  | f0 :: rest =>
      let c := join " " fs in
      if hasShellMeta c then (ExecArbitrary, checkShellMeta)
      else if existsb (λ f, has_prefix f "-") rest then (ExecArbitrary, checkLeadingDash)
      else if blocklistStart c || blocked fs then (ExecArbitrary, checkBlocklist)
      else if isConfigRead fs then (ReadConfig, "")
      else if String.eqb f0 "monitor" &&
              match rest with f1 :: _ => String.eqb f1 "traffic" | [] => false end &&
              negb (monitorCountOK fs) then (ExecArbitrary, checkNoCount)
      else if allowPrefix c then (ReadOperational, "")
      else (ExecArbitrary, checkAllowPrefix)
  end.

Definition ClassifyCommand (cmd : string) : Class := fst (classifyCommand cmd).

(** The loop of [classifyCommands]: [i] is the index of the head of [cmds]
    and [out] the class so far. *)
Fixpoint classifyCommands_from (i : Z) (out : Class) (cmds : list string)
    : Class * Z * string :=
  match cmds with
  | [] => (out, -1, "")
  | c :: rest =>
      let '(class, check) := classifyCommand c in
      if String.eqb class ExecArbitrary then (ExecArbitrary, i, check)
      else classifyCommands_from (i + 1)
             (if String.eqb class ReadConfig then ReadConfig else out) rest
  end.

Definition classifyCommands (cmds : list string) : Class * Z * string :=
  match cmds with
  | [] => (ExecArbitrary, -1, checkEmpty)
  | _ => classifyCommands_from 0 ReadOperational cmds
  end.

Definition ClassifyCommands (cmds : list string) : Class := fst (fst (classifyCommands cmds)).
End Classify.

#[local] Existing Instance ascii_tables.
Example ex_show : classifyCommand " Show  Version " = (ReadOperational, "").
Proof. vm_compute. reflexivity. Qed.
Example ex_cfg : classifyCommand "show run" = (ReadConfig, "").
Proof. vm_compute. reflexivity. Qed.
Example ex_reload : classifyCommand "reload" = (ExecArbitrary, checkBlocklist).
Proof. vm_compute. reflexivity. Qed.
Example ex_mon : classifyCommand "monitor traffic interface ge-0/0/0 count 5" = (ReadOperational, "").
Proof. vm_compute. reflexivity. Qed.
Example ex_mon2 : classifyCommand "monitor traffic count 5 count 1001" = (ExecArbitrary, checkNoCount).
Proof. vm_compute. reflexivity. Qed.

(** ** Lemmas *)

(** The words the classifier looks at. *)
Definition words `{Unicode} (cmd : string) : list string :=
  fields (to_lower (trim (cutset space_tab) cmd)).

(** A byte a command may hold: a tab or printable ASCII. *)
Definition printable_or_tab (c : ascii) : bool := (bz c =? 9) || in_range 32 126 (bz c).

Lemma checkBytes_ok s : checkBytes s = "" ↔ s_all printable_or_tab s = true.
Proof.
  induction s as [|c s IH]; simpl; [done|].
  unfold printable_or_tab at 1, in_range. pose proof (bz_range c).
  destruct (Z.eqb_spec (bz c) 9); simpl; [done|].
  destruct (Z.ltb_spec (bz c) 32), (Z.eqb_spec (bz c) 127), (Z.leb_spec 128 (bz c));
    destruct (Z.leb_spec 32 (bz c)), (Z.leb_spec (bz c) 126); simpl; try lia; done.
Qed.

Lemma printable_is_ascii s : s_all printable_or_tab s = true → is_ascii s = true.
Proof.
  apply s_all_impl. intros c. unfold printable_or_tab, in_range. intros Hc.
  apply Z.ltb_lt. apply orb_true_iff in Hc as [Hc|Hc]; breflect; lia.
Qed.

Lemma words_nonspace `{Unicode} cmd w :
  checkBytes (trim (cutset space_tab) cmd) = "" → w ∈ words cmd →
  w ≠ "" ∧ s_all (λ c, negb (is_space (bz c))) w = true.
Proof.
  intros Hb%checkBytes_ok%printable_is_ascii. unfold words.
  rewrite to_lower_ascii by done. apply fields_ascii.
  apply s_map_is_ascii; [apply lower_b_is_ascii | done].
Qed.

Lemma re_space_is_space c : re_space c = true → is_space (bz c) = true.
Proof.
  unfold re_space, is_space, in_range. intros Hc.
  repeat (apply orb_true_iff in Hc as [Hc|Hc]); breflect; rewrite Hc; done.
Qed.

(** A word followed by a boundary is determined by the text: the regular
    expressions' verbs are whole first words. *)
Lemma verb_match_word v f rest :
  s_all (λ c, negb (is_space (bz c))) f = true →
  s_all (λ c, negb (is_space (bz c))) v = true →
  at_boundary rest = true →
  verb_match (f ++ rest)%string v = true → f = v.
Proof.
  intros Hf Hv Hr. unfold verb_match. destruct (cut_prefix v (f ++ rest)%string) as [t|] eqn:E; [|done].
  apply cut_prefix_Some in E. revert v Hv E.
  induction f as [|c f IH]; intros [|d v] Hv E Ht; simpl in *; [done| | |].
  - subst rest. simpl in Hr. apply re_space_is_space in Hr. by rewrite Hr in Hv.
  - subst t. simpl in Ht. apply re_space_is_space in Ht. by rewrite Ht in Hf.
  - injection E as -> E. apply andb_prop in Hf as [_ Hf], Hv as [_ Hv].
    f_equal. by eapply IH.
Qed.

Lemma join_boundary f rest :
  ∃ tail, join " " (f :: rest) = (f ++ tail)%string ∧ at_boundary tail = true.
Proof.
  destruct rest as [|g rest].
  - exists "". by rewrite app_nil_r_str.
  - by exists (String " " (join " " (g :: rest))).
Qed.

Lemma verb_match_join v f rest :
  s_all (λ c, negb (is_space (bz c))) f = true →
  s_all (λ c, negb (is_space (bz c))) v = true →
  verb_match (join " " (f :: rest)) v = true → f = v.
Proof.
  intros Hf Hv. destruct (join_boundary f rest) as (tail & -> & Ht).
  by apply verb_match_word.
Qed.

Lemma allowPrefix_join f rest :
  (∀ w, w ∈ f :: rest → w ≠ "" ∧ s_all (λ c, negb (is_space (bz c))) w = true) →
  allowPrefix (join " " (f :: rest)) = true →
  f ∈ allow_verbs ∨ f = "monitor" ∧ head rest = Some "traffic".
Proof.
  intros Hw. destruct (Hw f) as [Hne Hf]; [by left|].
  unfold allowPrefix. intros [Hm|Hm]%orb_true_iff.
  - left. apply existsb_elem in Hm as (v & Hv & Hm). rewrite (verb_match_join v f rest); try done.
    assert (Hall : forallb (s_all (λ c, negb (is_space (bz c)))) allow_verbs = true) by done.
    by eapply forallb_elem in Hall.
  - right. unfold verb2_match in Hm.
    destruct (cut_prefix "monitor" (join " " (f :: rest))) as [[|x t]|] eqn:E; [done| |done].
    apply andb_prop in Hm as [Hx Hm].
    assert (f = "monitor") as ->.
    { eapply (verb_match_join _ f rest); [done|done|]. unfold verb_match. by rewrite E. }
    split; [done|]. destruct rest as [|g rest]; [done|]. change (Some (String " " (join " " (g :: rest))) = Some (String x t)) in E.
    assert (t = join " " (g :: rest)) as -> by congruence. clear E.
    destruct (Hw g) as [Hgne Hg]; [by right; left|].
    cut (g = "traffic"); [by intros ->|].
    assert (Hskip : trim_left re_space (join " " (g :: rest)) = join " " (g :: rest)).
    { destruct (join_boundary g rest) as (tail & -> & _).
      destruct g as [|c g]; [done|]. simpl in Hg |- *.
      destruct (re_space c) eqn:Ec; [|done].
      apply re_space_is_space in Ec. by rewrite Ec in Hg. }
    rewrite Hskip in Hm. by eapply verb_match_join.
Qed.

Lemma blocked_spec fs :
  blocked fs = false ↔
  (∀ w, w ∈ fs → w ∉ blockedWords) ∧
  (∀ l1 a b l2, fs = l1 ++ a :: b :: l2 → blockedPair a b = false).
Proof.
  induction fs as [|f fs IH]; cbn [blocked].
  { split; [|done]. intros _. split; [by intros w ?%not_elem_of_nil|].
    intros [|? l1] a b l2 [=]. }
  rewrite !orb_false_iff, IH, mem_false. split.
  - intros [[Hf Hp] [Hw Hq]]. split; [by intros w [->|?]%elem_of_cons; auto|].
    intros [|x l1] a b l2 [= -> Hl]; [by subst | by eapply Hq].
  - intros [Hw Hp]. split; [split|split].
    + apply Hw. by left.
    + destruct fs as [|g fs]; [done|]. by apply (Hp [] f g fs).
    + intros w Hin. apply Hw. by right.
    + intros l1 a b l2 ->. by apply (Hp (f :: l1) a b l2).
Qed.

(** The words the loop of [monitorCountOK] accepts as a count: digits only,
    at most four of them, worth 1 to [maxMonitorCount]. *)
Lemma trim_all_digits s : String.eqb (trim is_digit_b s) "" = true → s_all is_digit_b s = true.
Proof.
  intros Ht. apply String.eqb_eq in Ht. unfold trim in Ht.
  assert (Hr : ∀ u, trim_right is_digit_b u = "" → s_all is_digit_b u = true).
  { induction u as [|c u IH]; simpl; [done|].
    destruct (trim_right is_digit_b u); [|done].
    destruct (is_digit_b c); [|done]. intros _. by rewrite IH. }
  induction s as [|c s IH]; simpl in *; [done|].
  destruct (is_digit_b c) eqn:Ec; simpl; [by apply IH|].
  apply Hr in Ht. simpl in Ht. by rewrite Ec in Ht.
Qed.

Lemma count_value_ok_spec n :
  count_value_ok n = true →
  n ≠ "" ∧ slen n <= 4 ∧ s_all is_digit_b n = true ∧
  1 <= digits_value 0 n <= maxMonitorCount.
Proof.
  unfold count_value_ok, in_range. intros Hn. breflect.
  repeat split; try done. by apply trim_all_digits, String.eqb_eq.
Qed.

Lemma monitorCount_from_spec seen fs :
  monitorCount_from seen fs = true ↔
  (seen = true ∨ "count" ∈ fs) ∧
  (∀ l1 l2, fs = l1 ++ "count" :: l2 → ∃ n l3, l2 = n :: l3 ∧ count_value_ok n = true).
Proof.
  revert seen. induction fs as [|f fs IH]; intros seen; cbn [monitorCount_from].
  { split.
    - intros ->. split; [by left|]. intros [|? l1] l2 [=].
    - by intros [[?|?%not_elem_of_nil] _]. }
  destruct (String.eqb_spec f "count") as [->|Hne].
  - destruct fs as [|n fs].
    + split; [done|]. intros [_ Hc]. by destruct (Hc [] []) as (n & l3 & [=] & _).
    + destruct (count_value_ok n) eqn:Hn.
      * rewrite IH. split.
        -- intros [_ Hc]. split; [right; by left|].
           intros [|x l1] l2 [= Hl]; [subst l2; by exists n, fs | by apply (Hc l1)].
        -- intros [_ Hc]. split; [by left|]. intros l1 l2 Hl.
           apply (Hc ("count" :: l1)). by rewrite Hl.
      * split; [done|]. intros [_ Hc].
        destruct (Hc [] (n :: fs) eq_refl) as (m & l3 & [= <- <-] & Hm). congruence.
  - rewrite IH. split; intros [Hs Hc]; split.
    + destruct Hs as [?|?]; [by left | right; by right].
    + intros [|x l1] l2 [= Hx Hl]; [congruence | by apply (Hc l1)].
    + destruct Hs as [?|[?|?]%elem_of_cons]; [by left | congruence | by right].
    + intros l1 l2 Hl. apply (Hc (f :: l1)). by rewrite Hl.
Qed.

Lemma classifyCommand_result `{Unicode} cmd :
  fst (classifyCommand cmd) ∈ [ReadOperational; ReadConfig; ExecArbitrary] ∧
  (snd (classifyCommand cmd) = "" ↔ fst (classifyCommand cmd) ≠ ExecArbitrary).
Proof.
  unfold classifyCommand.
  assert (Hc : ∀ s, checkBytes s = "" ∨ checkBytes s = checkControl ∨ checkBytes s = checkNonASCII).
  { induction s as [|c s IH]; simpl; [by left|].
    destruct (bz c =? 9); [done|]. destruct ((bz c <? 32) || (bz c =? 127)); [by auto|].
    destruct (128 <=? bz c); auto. }
  destruct (maxCommandLen <? slen cmd); [split; [set_solver|done]|].
  destruct (negb (String.eqb (checkBytes (trim (cutset space_tab) cmd)) "")) eqn:E.
  { breflect. simpl. split; [set_solver|].
    destruct (Hc (trim (cutset space_tab) cmd)) as [H0 | [H0 | H0] ]; by rewrite H0. }
  destruct (fields _); [split; [set_solver|done]|].
  repeat case_match; simpl; (split; [set_solver|done]).
Qed.

Lemma hasShellMeta_app a b : hasShellMeta b = true → hasShellMeta (a ++ b)%string = true.
Proof.
  intros Hb. induction a as [|c a IH]; [done|]. cbn [String.append hasShellMeta].
  destruct (contains_b c meta_bytes); [done|]. destruct (Ascii.eqb c "$"); [|done].
  destruct (a ++ b)%string as [|n t]; [done|]. by destruct (re_space n).
Qed.

(** What passing every check means. *)
Record passes `{Unicode} (cmd : string) (f0 : string) (rest : list string) : Prop := {
  p_len : slen cmd <= maxCommandLen;
  p_bytes : s_all printable_or_tab (trim (cutset space_tab) cmd) = true;
  p_words : words cmd = f0 :: rest;
  p_meta : ∀ w, w ∈ words cmd → hasShellMeta w = false;
  p_dash : ∀ w, w ∈ rest → has_prefix w "-" = false;
  p_blocked : ∀ w, w ∈ words cmd → w ∉ blockedWords;
  p_pairs : ∀ l1 a b l2, words cmd = l1 ++ a :: b :: l2 → blockedPair a b = false;
  p_start : blocklistStart (join " " (words cmd)) = false }.

Lemma join_word l w : w ∈ l → ∃ a b, join " " l = (a ++ w ++ b)%string.
Proof.
  induction l as [|x l IH]; [by intros ?%not_elem_of_nil|].
  intros [->|Hw]%elem_of_cons.
  - exists "". destruct (join_boundary x l) as (t & -> & _). by exists t.
  - destruct (IH Hw) as (a & b & E). destruct l as [|y l]; [by apply not_elem_of_nil in Hw|].
    exists (x ++ " " ++ a)%string, b.
    change (join " " (x :: y :: l)) with (x ++ " " ++ join " " (y :: l))%string.
    rewrite E. by rewrite <- !app_assoc_str.
Qed.

Lemma hasShellMeta_split a b :
  hasShellMeta (a ++ b)%string = false → at_boundary b = true → hasShellMeta a = false.
Proof.
  intros Hab Hb. induction a as [|c a IH]; [done|]. cbn [String.append hasShellMeta] in *.
  destruct (contains_b c meta_bytes); [done|]. destruct (Ascii.eqb c "$") eqn:Ec; [|auto].
  destruct a as [|n a]; simpl in *; [done|]. destruct (re_space n); auto.
Qed.

Lemma shell_meta_words l :
  hasShellMeta (join " " l) = false → ∀ w, w ∈ l → hasShellMeta w = false.
Proof.
  induction l as [|x l IH]; intros Hj w Hw; [by apply not_elem_of_nil in Hw|].
  apply elem_of_cons in Hw as [->|Hw].
  - destruct (join_boundary x l) as (t & E & Ht). rewrite E in Hj. by eapply hasShellMeta_split.
  - apply IH; [|done]. destruct l as [|y l]; [done|].
    change (hasShellMeta (x ++ " " ++ join " " (y :: l))%string = false) in Hj.
    destruct (hasShellMeta (join " " (y :: l))) eqn:E; [|done].
    apply (hasShellMeta_app " "), (hasShellMeta_app x) in E.
    change (x ++ " " ++ join " " (y :: l))%string
      with (x ++ (" " ++ join " " (y :: l)))%string in Hj. congruence.
Qed.

Lemma classifyCommand_passes `{Unicode} cmd :
  fst (classifyCommand cmd) ≠ ExecArbitrary →
  ∃ f0 rest, passes cmd f0 rest ∧
    (fst (classifyCommand cmd) = ReadConfig ∧ isConfigRead (f0 :: rest) = true ∨
     fst (classifyCommand cmd) = ReadOperational ∧ isConfigRead (f0 :: rest) = false ∧
     allowPrefix (join " " (f0 :: rest)) = true ∧
     (f0 = "monitor" → head rest = Some "traffic" → monitorCountOK (f0 :: rest) = true)).
Proof.
  unfold classifyCommand. fold (words cmd). cbv zeta.
  destruct (maxCommandLen <? slen cmd) eqn:Hlen; [done|].
  destruct (String.eqb (checkBytes (trim (cutset space_tab) cmd)) "") eqn:Hb; [|done].
  cbn [negb].
  destruct (words cmd) as [|f0 rest] eqn:Hw; [done|].
  destruct (hasShellMeta (join " " (f0 :: rest))) eqn:Hm; [done|].
  destruct (existsb (λ f, has_prefix f "-") rest) eqn:Hd; [done|].
  destruct (blocklistStart (join " " (f0 :: rest))) eqn:Hs; [done|].
  destruct (blocked (f0 :: rest)) eqn:Hbl; [done|]. cbn [orb].
  breflect. apply blocked_spec in Hbl as [Hbw Hbp].
  intros Hres. exists f0, rest. split.
  { split; rewrite ?Hw; try done.
    - by apply checkBytes_ok.
    - by apply shell_meta_words.
    - by apply existsb_false_elem. }
  destruct (isConfigRead (f0 :: rest)) eqn:Hcfg; [by left|]. right.
  destruct (String.eqb f0 "monitor" && _ && _) eqn:Hmon; [done|].
  destruct (allowPrefix (join " " (f0 :: rest))) eqn:Ha; [|done].
  repeat split; try done. intros -> Hr. destruct rest as [|g rest]; [done|].
  injection Hr as ->. simpl in Hmon. by destruct (monitorCountOK _).
Qed.

Lemma cutset_lower c : cutset space_tab (lower_b c) = cutset space_tab c.
Proof.
  unfold lower_b. destruct (is_upper_b c) eqn:E; [|done].
  unfold is_upper_b, in_range in E. breflect. unfold cutset, space_tab. cbn [contains_b].
  assert (bz " "%char = 32 ∧ bz "009"%char = 9) as [Hsp Htb] by done.
  repeat match goal with |- context [Ascii.eqb ?x ?y] => destruct (Ascii.eqb_spec x y) end;
    subst; try done; exfalso;
    match goal with
    | Hx : zb _ = _ |- _ => apply (f_equal bz) in Hx; rewrite bz_zb in Hx; lia
    | _ => lia
    end.
Qed.

Lemma checkBytes_lower s : checkBytes (s_map lower_b s) = checkBytes s.
Proof.
  induction s as [|c s IH]; [done|]. cbn [s_map checkBytes]. rewrite IH.
  unfold lower_b. destruct (is_upper_b c) eqn:E; [|done].
  unfold is_upper_b, in_range in E. breflect. rewrite bz_zb by lia.
  destruct (Z.eqb_spec (bz c + 32) 9), (Z.eqb_spec (bz c) 9); try lia.
  destruct (Z.ltb_spec (bz c + 32) 32), (Z.ltb_spec (bz c) 32); try lia. simpl.
  destruct (Z.eqb_spec (bz c + 32) 127), (Z.eqb_spec (bz c) 127); try lia.
  by destruct (Z.leb_spec 128 (bz c + 32)), (Z.leb_spec 128 (bz c)); try lia.
Qed.

Lemma join_map_words `{Unicode} cmd : words (s_map lower_b cmd) = words cmd ∨
  checkBytes (trim (cutset space_tab) cmd) ≠ "".
Proof.
  destruct (decide (checkBytes (trim (cutset space_tab) cmd) = "")) as [Hb|]; [left|by right].
  apply checkBytes_ok, printable_is_ascii in Hb. unfold words.
  rewrite trim_map by apply cutset_lower. rewrite !to_lower_ascii; [|done|].
  - by rewrite s_map_idemp by apply lower_b_idemp.
  - apply s_map_is_ascii; [apply lower_b_is_ascii | done].
Qed.

(** ** Properties *)

(** C9: a command classified as a read (READ_OPERATIONAL or READ_CONFIG) is
    at most 1024 bytes of printable ASCII and tabs; its first word is an
    allow-listed verb, or it is a "monitor traffic" with a valid packet count;
    no word is a state-changing verb or holds a shell metacharacter, no two
    consecutive words are a blocked pair, and no argument is an option. *)
Theorem classifyCommand_read_sound `{Unicode} cmd :
  ClassifyCommand cmd ≠ ExecArbitrary →
  slen cmd <= 1024 ∧
  s_all printable_or_tab (trim (cutset space_tab) cmd) = true ∧
  ∃ f0 rest, words cmd = f0 :: rest ∧
    (f0 ∈ allow_verbs ∨
     f0 = "monitor" ∧ head rest = Some "traffic" ∧ monitorCountOK (words cmd) = true) ∧
    (∀ w, w ∈ words cmd → w ∉ blockedWords ∧ hasShellMeta w = false) ∧
    (∀ l1 a b l2, words cmd = l1 ++ a :: b :: l2 → blockedPair a b = false) ∧
    (∀ w, w ∈ rest → has_prefix w "-" = false).
Proof.
  intros Hc. destruct (classifyCommand_passes cmd Hc) as (f0 & rest & Hp & Hcase).
  destruct Hp as [Hlen Hby Hw Hm Hd Hb Hpair _].
  split; [done|]. split; [done|]. exists f0, rest. split; [done|].
  split; [|split_and!; auto].
  destruct Hcase as [[_ Hcfg] | (_ & _ & Ha & Hmon)].
  - left. unfold isConfigRead in Hcfg. destruct (mem f0 _) eqn:Hf; [|done].
    apply mem_true in Hf. unfold allow_verbs.
    repeat (apply elem_of_cons in Hf as [->|Hf]; [set_solver|]). by apply not_elem_of_nil in Hf.
  - assert (Hns : ∀ w, w ∈ f0 :: rest → w ≠ "" ∧ s_all (λ c, negb (is_space (bz c))) w = true).
    { intros w Hin. apply (words_nonspace cmd); [by apply checkBytes_ok | by rewrite Hw]. }
    destruct (allowPrefix_join f0 rest Hns Ha) as [Hv | [Hf Hr]]; [by left|right].
    rewrite Hw. auto.
Qed.

Lemma classifyCommand_read_sound_witness :
  ∃ H : Unicode, @ClassifyCommand H "show version" ≠ ExecArbitrary ∧ slen "show version" <= 1024.
Proof.
  exists ascii_tables. split; [by vm_compute|].
  apply (@classifyCommand_read_sound ascii_tables). by vm_compute.
Defined.

(** the verdict is total and three-valued, and the named check is empty
    exactly when the command passed. *)
Theorem classifyCommand_verdict `{Unicode} cmd :
  fst (classifyCommand cmd) ∈ [ReadOperational; ReadConfig; ExecArbitrary] ∧
  (snd (classifyCommand cmd) = "" ↔ fst (classifyCommand cmd) ≠ ExecArbitrary).
Proof. apply classifyCommand_result. Qed.

Lemma classifyCommands_from_spec `{Unicode} cmds i out :
  0 <= i → out = ReadOperational ∨ out = ReadConfig →
  (∃ l1 c l2, cmds = l1 ++ c :: l2 ∧ ClassifyCommand c = ExecArbitrary ∧
     (∀ d, d ∈ l1 → ClassifyCommand d ≠ ExecArbitrary) ∧
     classifyCommands_from i out cmds =
       (ExecArbitrary, i + Z.of_nat (List.length l1), snd (classifyCommand c))) ∨
  (∀ c, c ∈ cmds → ClassifyCommand c ≠ ExecArbitrary) ∧
  classifyCommands_from i out cmds =
    (if existsb (λ c, String.eqb (ClassifyCommand c) ReadConfig) cmds then ReadConfig else out,
     -1, "").
Proof.
  revert i out. induction cmds as [|c cmds IH]; intros i out Hi Hout.
  { right. split; [by intros c ?%not_elem_of_nil | done]. }
  cbn [classifyCommands_from existsb]. unfold ClassifyCommand at 4.
  destruct (classifyCommand c) as [cl ck] eqn:Ec. cbn [fst].
  destruct (String.eqb_spec cl ExecArbitrary) as [->|Hcl].
  { left. exists [], c, cmds. unfold ClassifyCommand. rewrite Ec. repeat split; try done.
    - by intros d ?%not_elem_of_nil.
    - by rewrite Z.add_0_r. }
  assert (Hc : ClassifyCommand c ≠ ExecArbitrary) by (unfold ClassifyCommand; by rewrite Ec).
  destruct (IH (i + 1) (if String.eqb cl ReadConfig then ReadConfig else out))
    as [(l1 & d & l2 & -> & Hd & Hl1 & ->)|[Hall ->]].
  { lia. } { destruct (String.eqb cl ReadConfig); [by right|done]. }
  - left. exists (c :: l1), d, l2. repeat split; try done.
    + by intros e [->|He]%elem_of_cons; [|apply Hl1].
    + f_equal. f_equal. cbn [List.length]. lia.
  - right. split; [by intros e [->|He]%elem_of_cons; [|apply Hall]|].
    by destruct (String.eqb cl ReadConfig), (existsb _ cmds).
Qed.

(** a batch is EXEC_ARBITRARY exactly when it is empty or some command
    is; the reported index and check are those of the first failing command;
    otherwise it is READ_CONFIG when some command reads configuration and
    READ_OPERATIONAL when every command is a plain read. *)
Theorem classifyCommands_spec `{Unicode} cmds :
  (cmds = [] ∧ classifyCommands cmds = (ExecArbitrary, -1, checkEmpty)) ∨
  (∃ l1 c l2, cmds = l1 ++ c :: l2 ∧ ClassifyCommand c = ExecArbitrary ∧
     (∀ d, d ∈ l1 → ClassifyCommand d ≠ ExecArbitrary) ∧
     classifyCommands cmds = (ExecArbitrary, Z.of_nat (List.length l1), snd (classifyCommand c))) ∨
  (cmds ≠ [] ∧ (∀ c, c ∈ cmds → ClassifyCommand c ≠ ExecArbitrary) ∧
   classifyCommands cmds =
     (if existsb (λ c, String.eqb (ClassifyCommand c) ReadConfig) cmds
      then ReadConfig else ReadOperational, -1, "")).
Proof.
  destruct cmds as [|c cmds]; [by left|]. right. unfold classifyCommands.
  destruct (classifyCommands_from_spec (c :: cmds) 0 ReadOperational)
    as [?|[? ?]]; [done|by left|by left|by right].
Qed.

(** classification does not depend on letter case. *)
Theorem classifyCommand_case_insensitive `{Unicode} cmd :
  classifyCommand (s_map lower_b cmd) = classifyCommand cmd.
Proof.
  unfold classifyCommand. fold (words cmd) (words (s_map lower_b cmd)). cbv zeta.
  unfold slen. rewrite s_map_length.
  assert (Hcut : ∀ c, cutset space_tab (lower_b c) = cutset space_tab c).
  { intros c. apply cutset_lower. }
  rewrite trim_map, checkBytes_lower by done.
  destruct (join_map_words cmd) as [->|Hb]; [done|].
  destruct (maxCommandLen <? _); [done|].
  apply String.eqb_neq in Hb. by rewrite Hb.
Qed.

(** the byte loop [hasShellMeta] recognises exactly the regular
    expression it replaces: one of the listed metacharacters anywhere, or a
    [$] followed by a byte that is not white space. *)
Theorem hasShellMeta_spec s :
  hasShellMeta s = true ↔
  ∃ a b t, s = (a ++ String b t)%string ∧
    (contains_b b meta_bytes = true ∨
     b = "$"%char ∧ ∃ n u, t = String n u ∧ re_space n = false).
Proof.
  split.
  - induction s as [|b s IH]; [done|]. cbn [hasShellMeta].
    destruct (contains_b b meta_bytes) eqn:Hb.
    { intros _. exists "", b, s. auto. }
    assert (Hrec : hasShellMeta s = true → ∃ a c t, String b s = (a ++ String c t)%string ∧
      (contains_b c meta_bytes = true ∨ c = "$"%char ∧ ∃ n u, t = String n u ∧ re_space n = false)).
    { intros Hs. destruct (IH Hs) as (a & c & t & -> & Hc). by exists (String b a), c, t. }
    destruct (Ascii.eqb_spec b "$") as [->|]; [|done].
    destruct s as [|n u]; [done|]. destruct (re_space n) eqn:Hn; [done|].
    intros _. exists "", "$"%char, (String n u). split; [done|]. right. eauto.
  - intros (a & b & t & -> & Hb). apply hasShellMeta_app. cbn [hasShellMeta].
    destruct Hb as [->|[-> (n & u & -> & Hn)]]; [done|].
    by rewrite Hn.
Qed.

(** a "monitor traffic" passes the count check only when some word is
    "count" and every "count" is followed by a plain decimal number from 1 to
    1000, whichever one the device honours. *)
Theorem monitorCountOK_bounds fs :
  monitorCountOK fs = true →
  "count" ∈ fs ∧
  ∀ l1 l2, fs = l1 ++ "count" :: l2 →
    ∃ n l3, l2 = n :: l3 ∧ s_all is_digit_b n = true ∧ n ≠ "" ∧ 1 <= digits_value 0 n <= 1000.
Proof.
  unfold monitorCountOK. rewrite monitorCount_from_spec. intros [[?|Hin] Hc]; [done|].
  split; [done|]. intros l1 l2 Hl. destruct (Hc l1 l2 Hl) as (n & l3 & -> & Hn).
  apply count_value_ok_spec in Hn as (? & _ & ? & ?). unfold maxMonitorCount in *. eauto 6.
Qed.

Lemma monitorCountOK_bounds_witness : "count" ∈ ["monitor"; "traffic"; "count"; "10"].
Proof. apply (monitorCountOK_bounds ["monitor"; "traffic"; "count"; "10"]). by vm_compute. Defined.
