(* ===== verification/CommandPattern.v ===== *)
(** * The anchored expressions of command.go as the patterns they are written as

    Command decides allowPrefix and blocklistStart by hand-written functions.
    Here the two expressions are compiled from their source text and shown to
    accept exactly the same commands, on every byte string. *)

From S2P Require Import Prelude GoStd GoRegexp ToolClass Command.

Open Scope string_scope.
Open Scope Z_scope.
Open Scope list_scope.

Definition allowPrefix_re : regexp :=
  compile "^(?:show|get|display|monitor\s+traffic|ping|traceroute|tracepath)(?:\s|$)".

Definition blocklistStart_re : regexp :=
  compile "^(?:configure|config|conf|edit|set|delete|no|commit|rollback|load|save|write|wr|copy|erase|format|reload|rel|relo|request|restart|shutdown|clear|reset|debug|undebug|monitor\s+start|install|boot|zeroize|reboot|halt|power|activate|deactivate|license|crypto|archive|exec|start|bash|python|guestshell|tclsh|run|enable|feature|dockerd|scp|tftp|ssh|ftp|telnet|execute|diagnose|file|test)(?:\s|$)".

(** ** The shapes of the two patterns *)

Definition space_re : re := RSet (RuneSet false false perl_s).
Definition spaces_re : re := RSeq space_re (RStar true space_re).
Definition two_re (a b : string) : re := lit_re a (RSeq spaces_re (lit_re b REmpty)).
Definition end_re : re := RAlt (RSeq space_re REmpty) (RSeq (RAssert EndText) REmpty).

Fixpoint alts (l : list re) : re :=
  match l with [] => RNever | [r] => r | r :: l => RAlt r (alts l) end.

Definition verbs_re (l : list re) : re := RSeq (RAssert BeginText) (RSeq (alts l) (RSeq end_re REmpty)).

Lemma allowPrefix_shape :
  body allowPrefix_re = verbs_re (map (λ w, lit_re w REmpty) ["show"; "get"; "display"] ++
    [two_re "monitor" "traffic"] ++ map (λ w, lit_re w REmpty) ["ping"; "traceroute"; "tracepath"]).
Proof. vm_compute. reflexivity. Qed.

Lemma blocklistStart_shape :
  body blocklistStart_re = verbs_re (map (λ w, lit_re w REmpty) (take 26 blocklist_verbs) ++
    [two_re "monitor" "start"] ++ map (λ w, lit_re w REmpty) (drop 26 blocklist_verbs)).
Proof. vm_compute. reflexivity. Qed.

(** ** What each shape matches *)

(** White space: the rune set [\s] is re_space on bytes. *)
Lemma in_space r : in_set (RuneSet false false perl_s) r = true → r < 128.
Proof.
  unfold in_set, in_ranges, in_range, perl_s. cbn.
  destruct (Z.leb_spec r 10), (Z.leb_spec r 13), (Z.leb_spec r 32); rewrite ?andb_false_r; try done; lia.
Qed.

Lemma re_space_in a : re_space a = in_set (RuneSet false false perl_s) (bz a).
Proof. by destruct a as [[] [] [] [] [] [] [] []]. Qed.

Lemma space_run p c p' c' :
  matches space_re p c p' c' → c' = c ∧ ∃ a, re_space a = true ∧ rest p = String a (rest p').
Proof.
  intros Hm. apply (matches_byte _ re_space) in Hm as (-> & a & x & Ha & Hr & _); [|apply in_space|apply re_space_in].
  eauto.
Qed.

Lemma space_step p a t c :
  rest p = String a t → re_space a = true → ∃ q, rest q = t ∧ matches space_re p c q c.
Proof.
  intros Hr Ha. rewrite re_space_in in Ha. destruct (step_byte p a t Hr) as (q & Hs & Hq); [by apply in_space|].
  exists q. split; [done|]. by econstructor.
Qed.

(** One or more white space bytes. *)
Lemma star_run_spaces p c p' c' :
  matches (RStar true space_re) p c p' c' →
  c' = c ∧ ∃ sp, s_all re_space sp = true ∧ rest p = (sp ++ rest p')%string.
Proof.
  intros Hm. remember (RStar true space_re) as r eqn:Er.
  induction Hm as [| | | | | |g a p c|g a p c p1 c1 p2 c2 H1 _ H2 IH2|]; try done; simplify_eq.
  - split; [done|]. by exists "".
  - destruct (IH2 eq_refl) as (-> & sp & Hsp & Hr). apply space_run in H1 as (-> & a & Ha & Hp).
    split; [done|]. exists (String a sp). cbn. rewrite Ha, Hp, Hr. done.
Qed.

Lemma star_spaces p c sp t :
  s_all re_space sp = true → rest p = (sp ++ t)%string →
  ∃ q, rest q = t ∧ matches (RStar true space_re) p c q c.
Proof.
  revert p. induction sp as [|a sp IH]; intros p Hsp Hr.
  - exists p. split; [done|constructor].
  - cbn in Hsp. apply andb_prop in Hsp as [Ha Hsp].
    destruct (space_step p a _ c Hr Ha) as (q & Hq & H1). destruct (IH q Hsp Hq) as (q' & Ht & H2).
    exists q'. split; [done|]. by econstructor.
Qed.

Lemma trim_left_spaces sp t : s_all re_space sp = true → trim_left re_space (sp ++ t) = trim_left re_space t.
Proof. induction sp as [|a sp IH]; [done|]. cbn. intros [-> ?]%andb_prop. auto. Qed.

Lemma trim_left_split t : ∃ sp, s_all re_space sp = true ∧ t = (sp ++ trim_left re_space t)%string.
Proof.
  induction t as [|a t (sp & Hs & E)]; [by exists ""|]. cbn. destruct (re_space a) eqn:Ea; [|by exists ""].
  exists (String a sp). cbn. rewrite Ea. split; [done|]. by rewrite <- E.
Qed.

(** The end of both patterns. *)
Lemma end_run p c p' c' : matches (RSeq end_re REmpty) p c p' c' → at_boundary (rest p) = true.
Proof.
  intros Hm. inversion Hm as [| | |? ? ? ? q d ? ? H1 _| | | | |]; simplify_eq.
  inversion H1 as [| | | |? ? ? ? ? ? H|? ? ? ? ? ? H| | |]; simplify_eq;
    inversion H as [| | |? ? ? ? q' d' ? ? H2 _| | | | |]; simplify_eq.
  - apply space_run in H2 as (_ & a & Ha & ->). done.
  - inversion H2 as [| |? ? ? Hh| | | | | |]; simplify_eq. cbn in Hh. apply bool_decide_eq_true in Hh.
    unfold next, step in Hh. destruct (rest q') as [|a t]; [done|]. by destruct (decode_rune (String a t)).
Qed.

Lemma end_intro p c : at_boundary (rest p) = true → ∃ q, matches (RSeq end_re REmpty) p c q c.
Proof.
  intros Hb. destruct (rest p) as [|a t] eqn:Er.
  - exists p. econstructor; [|constructor]. apply M_alt_r. econstructor; [|constructor]. constructor.
    cbn. unfold next, step. by rewrite Er.
  - destruct (space_step p a t c Er Hb) as (q & _ & Hm). exists q.
    econstructor; [|constructor]. apply M_alt_l. econstructor; [exact Hm|constructor].
Qed.

Lemma matches_alts l p c p' c' : matches (alts l) p c p' c' ↔ ∃ r, r ∈ l ∧ matches r p c p' c'.
Proof.
  induction l as [|r [|r2 l] IH]; cbn [alts].
  - split.
    + intros Hm. inversion Hm as [|? ? ? x q ? Hi| | | | | | |]; by simplify_eq.
    + by intros (r & ?%not_elem_of_nil & _).
  - split; [intros; exists r; split; [by left|done]|]. by intros (r' & ->%list_elem_of_singleton & ?).
  - split.
    + intros Hm. inversion Hm; simplify_eq.
      * exists r. split; [by left|done].
      * destruct (proj1 IH) as (r' & ? & ?); [done|]. exists r'. split; [by right|done].
    + intros (r' & [->|Hr]%elem_of_cons & Hm); [by apply M_alt_l|]. apply M_alt_r, IH. eauto.
Qed.

(** ** The patterns and the functions agree *)

Lemma verb_match_spec s w : verb_match s w = true ↔ ∃ t, s = (w ++ t)%string ∧ at_boundary t = true.
Proof.
  unfold verb_match. split.
  - destruct (cut_prefix w s) as [t|] eqn:E; [|done]. apply cut_prefix_Some in E. eauto.
  - intros (t & -> & Hb). by rewrite cut_prefix_app.
Qed.

Lemma starts_word b t : (∃ a u, b = String a u ∧ re_space a = false) → trim_left re_space (b ++ t) = (b ++ t)%string.
Proof. intros (a & u & -> & Ha). cbn. by rewrite Ha. Qed.

Lemma verb2_match_spec s a b :
  (∃ d u, b = String d u ∧ re_space d = false) →
  verb2_match s a b = true ↔
    ∃ x sp t, s = (a ++ String x (sp ++ b ++ t))%string ∧ re_space x = true ∧
      s_all re_space sp = true ∧ at_boundary t = true.
Proof.
  intros Hb. unfold verb2_match. split.
  - destruct (cut_prefix a s) as [[|x rest]|] eqn:E; try done. apply cut_prefix_Some in E as ->.
    intros [Hx Hv]%andb_prop. apply verb_match_spec in Hv as (t & Ht & Hbt).
    destruct (trim_left_split rest) as (sp & Hsp & Hr). rewrite Ht in Hr. exists x, sp, t. by rewrite <- Hr.
  - intros (x & sp & t & -> & Hx & Hsp & Ht). rewrite cut_prefix_app, Hx. cbn [andb].
    rewrite trim_left_spaces, starts_word by done. apply verb_match_spec. eauto.
Qed.

Lemma spaces_run p c p' c' k :
  matches (RSeq spaces_re k) p c p' c' →
  ∃ x sp q, re_space x = true ∧ s_all re_space sp = true ∧
    rest p = String x (sp ++ rest q) ∧ matches k q c p' c'.
Proof.
  intros Hm. inversion Hm as [| | |? ? ? ? q d ? ? H1 Hk| | | | |]; simplify_eq.
  inversion H1 as [| | |? ? ? ? q1 d1 ? ? H2 H3| | | | |]; simplify_eq.
  apply space_run in H2 as (-> & x & Hx & Hp). apply star_run_spaces in H3 as (-> & sp & Hsp & Hq).
  exists x, sp, q. by rewrite Hp, Hq.
Qed.

(** The patterns [^(?:w1|...|a\s+b|...)(?:\s|$)]. *)
Lemma verbs_re_match r s ws1 ws2 a b :
  proper (body r) = true →
  body r = verbs_re (map (λ w, lit_re w REmpty) ws1 ++ [two_re a b] ++ map (λ w, lit_re w REmpty) ws2) →
  forallb is_ascii (ws1 ++ ws2) = true → is_ascii a = true → is_ascii b = true →
  (∃ d u, b = String d u ∧ re_space d = false) →
  MatchString r s = existsb (verb_match s) (ws1 ++ ws2) || verb2_match s a b.
Proof.
  intros Hp Hbody Hws Ha Hb Hb0. apply eq_bool_prop_intro. rewrite !Is_true_true, (MatchString_spec _ _ Hp), orb_true_iff, existsb_elem.
  rewrite verb2_match_spec by done. rewrite forallb_elem in Hws. unfold matches_in. rewrite Hbody. split.
  - intros (q & e & c & Hq & Hm).
    inversion Hm as [| | |? ? ? ? q0 c0 ? ? H0 H1| | | | |]; simplify_eq.
    inversion H0 as [| |? ? ? Hh| | | | | |]; simplify_eq. apply Nat.eqb_eq in Hh.
    assert (q0 = start s) as ->.
    { destruct Hq as [|? y ? [z Hz] Hr]; [done|]. apply step_adv in Hz as [? _]. apply reaches_off in Hr. lia. }
    inversion H1 as [| | |? ? ? ? q2 c2 ? ? H2 H3| | | | |]; simplify_eq. apply end_run in H3.
    apply matches_alts in H2 as (v & Hv & H2). cbn [app] in Hv. rewrite elem_of_app, elem_of_cons in Hv.
    assert (Hlit : ∀ ws, (∀ w, w ∈ ws → w ∈ ws1 ++ ws2) → v ∈ map (λ w, lit_re w REmpty) ws →
      ∃ w, w ∈ ws1 ++ ws2 ∧ verb_match s w = true).
    { intros ws Hsub (w & -> & Hw)%list_elem_of_fmap. exists w. split; [auto|]. apply lit_run in H2 as (q' & Hr & He); [|by apply Hws, Hsub].
      inversion He; simplify_eq. apply verb_match_spec. exists (rest q2). split; [exact Hr|done]. }
    destruct Hv as [Hv|[Hv|Hv]].
    + left. apply (Hlit ws1); [|done]. intros. apply elem_of_app. by left.
    + right. subst v. apply lit_run in H2 as (q' & Hr & H2); [|done].
      apply spaces_run in H2 as (x & sp & q3 & Hx & Hsp & Hr' & H2). apply lit_run in H2 as (q4 & Hr4 & He); [|done].
      inversion He; simplify_eq. cbn in Hr. exists x, sp, (rest q2). by rewrite Hr, Hr', Hr4.
    + left. apply (Hlit ws2); [|done]. intros. apply elem_of_app. by right.
  - intros Hv.
    assert (Hgo : ∀ v p', v ∈ map (λ w, lit_re w REmpty) ws1 ++ [two_re a b] ++ map (λ w, lit_re w REmpty) ws2 →
      matches v (start s) [] p' [] → at_boundary (rest p') = true →
      ∃ q e c, rtc stepped (start s) q ∧ matches (verbs_re (map (λ w, lit_re w REmpty) ws1 ++ [two_re a b] ++ map (λ w, lit_re w REmpty) ws2)) q [] e c).
    { intros v p' Hin Hm Hbd. destruct (end_intro p' [] Hbd) as (e & He). exists (start s), e, [].
      split; [constructor|]. econstructor; [by constructor|]. econstructor; [apply matches_alts; by exists v|done]. }
    destruct Hv as [(w & Hw & (t & Hs & Ht)%verb_match_spec)|(x & sp & t & Hs & Hx & Hsp & Ht)].
    + destruct (lit_run_intro w REmpty (start s) [] t) as (q & Hq & Hk); [by apply Hws|done|].
      apply (Hgo (lit_re w REmpty) q).
      * rewrite !elem_of_app. apply elem_of_app in Hw as [Hw|Hw]; [left|right; right]; apply list_elem_of_fmap; eauto.
      * apply Hk. constructor.
      * by rewrite Hq.
    + destruct (lit_run_intro a (RSeq spaces_re (lit_re b REmpty)) (start s) [] (String x (sp ++ b ++ t))) as (q & Hq & Hk); [done|done|].
      destruct (space_step q x _ [] Hq Hx) as (q1 & Hq1 & Hm1). destruct (star_spaces q1 [] sp _ Hsp Hq1) as (q2 & Hq2 & Hm2).
      destruct (lit_run_intro b REmpty q2 [] t) as (q3 & Hq3 & Hk3); [done|done|].
      apply (Hgo (two_re a b) q3).
      * rewrite !elem_of_app. right. left. by left.
      * apply Hk. econstructor; [econstructor; [exact Hm1|exact Hm2]|]. apply Hk3. constructor.
      * by rewrite Hq3.
Qed.

Lemma allowPrefix_regexp c : MatchString allowPrefix_re c = allowPrefix c.
Proof.
  apply (verbs_re_match allowPrefix_re c ["show"; "get"; "display"] ["ping"; "traceroute"; "tracepath"]
    "monitor" "traffic"); try (by vm_compute); by eexists _, _.
Qed.

Lemma blocklistStart_regexp c : MatchString blocklistStart_re c = blocklistStart c.
Proof.
  unfold blocklistStart. rewrite <- (take_drop 26 blocklist_verbs).
  apply (verbs_re_match blocklistStart_re c (take 26 blocklist_verbs) (drop 26 blocklist_verbs)
    "monitor" "start"); try (by vm_compute); by eexists _, _.
Qed.
