(* ===== verification/ServerProfile.v ===== *)
(** * Server profiles: internal/classify/profile.go

    A profile names the tools of one upstream server, the class of each and
    which arguments carry targets, commands and configuration.  The YAML
    decoder and the file system are parameters; [Validate] and the lookups are
    modelled in full, with [upstreamMayParseJSON] of normalize.go, which the
    capability tables use too. *)

From S2P Require Import Prelude GoStd Json ToolClass.

Open Scope string_scope.
Open Scope Z_scope.
Open Scope list_scope.

Record ToolSpec := {
  spec_Class : Class;
  TargetParams : list string;
  TargetsParams : list string;
  GroupParams : list string;
  CommandParams : list string;
  ConfigParams : list string;
  Args : option (list string);      (* [None]: the field is absent *)
  RefusedArgs : list string;
  CapabilityParam : string;
  CapabilityTable : string;
  Notes : string;
}.

Record Profile := {
  Server : string;
  profile_Source : string;
  Description : string;
  Capabilities : gmap string (gmap string Class);
  Tools : gmap string ToolSpec;
}.

(** The errors of [Validate], innermost text only. *)
Inductive arg_error :=
  | ArgsRequired
  | ArgPadded (field name : string)
  | ArgTwice (name prev field : string)
  | RefusedPadded (name : string)
  | RefusedNamed (name field : string)
  | RefusedTwice (name : string).

Inductive capability_error :=
  | CapOneOnly
  | CapNoTable (table : string)
  | CapClass (has : Class)
  | CapOtherParams.

Inductive table_error :=
  | TableName (name : string)
  | TableEmpty (name : string)
  | TableID (name id : string)
  | TableClass (name id : string) (c : Class)
  | TableCase (name prev id : string).

Inductive profile_error :=
  | PServer
  | PNoTools
  | PClass (tool : string) (c : Class)
  | PArgs (tool : string) (e : arg_error)
  | PCapability (tool : string) (e : capability_error)
  | PTable (e : table_error)
  | PUnused (table : string).

Definition sortedKeys {V} (m : gmap string V) : list string :=
  sort_strings (map fst (map_to_list m)).

Definition capabilityParams (s : ToolSpec) : list string :=
  if String.eqb (CapabilityParam s) "" then [] else [CapabilityParam s].

Definition NamedArgs (s : ToolSpec) : list string :=
  TargetParams s ++ TargetsParams s ++ GroupParams s ++ CommandParams s ++
  ConfigParams s ++ capabilityParams s ++ default [] (Args s).

Definition Named (s : ToolSpec) (arg : string) : bool :=
  existsb (λ n, String.eqb n arg) (NamedArgs s).

Definition Lookup (p : Profile) (tool : string) : option ToolSpec :=
  match Tools p !! tool with
  | Some spec => Some spec
  | None =>
      let prefix := (Server p ++ ".")%string in
      if has_prefix tool prefix then Tools p !! trim_prefix tool prefix else None
  end.

Definition ToolNames (p : Profile) : list string := sortedKeys (Tools p).

(** ** Values the upstream may parse *)

Definition upstreamMayParseJSON (s : string) (config : bool) : bool :=
  let t := trim_space s in
  match t with
  | EmptyString => false
  | String c _ =>
      if Ascii.eqb c "[" || Ascii.eqb c "{" then
        if negb config then true else Ascii.eqb c "[" && json_valid t
      else if Ascii.eqb c "n" || Ascii.eqb c "t" || Ascii.eqb c "f" then json_valid t
      else false
  end.

Definition maxCapabilityID : Z := 128.

Definition validCapabilityID (id : string) : bool :=
  if String.eqb id "" || (slen id >? maxCapabilityID) then false
  else if negb (s_all (λ c, in_range 33 126 (bz c)) id) then false
  else negb (upstreamMayParseJSON id false).

(** ** Validation *)

(** A name that is empty or has surrounding space. *)
Definition padded (n : string) : bool :=
  String.eqb (trim_space n) "" || negb (String.eqb n (trim_space n)).

(** The named arguments with the field each comes from. *)
Definition named_fields (s : ToolSpec) : list (string * string) :=
  map (pair "target_params") (TargetParams s) ++
  map (pair "targets_params") (TargetsParams s) ++
  map (pair "group_params") (GroupParams s) ++
  map (pair "command_params") (CommandParams s) ++
  map (pair "config_params") (ConfigParams s) ++
  map (pair "capability_param") (capabilityParams s) ++
  map (pair "args") (default [] (Args s)).

Fixpoint check_named (seen : gmap string string) (l : list (string * string)) :
    result arg_error (gmap string string) :=
  match l with
  | [] => Ok seen
  | (field, n) :: l =>
      if padded n then Err (ArgPadded field n)
      else match seen !! n with
           | Some prev => Err (ArgTwice n prev field)
           | None => check_named (<[n := field]> seen) l
           end
  end.

Fixpoint check_refused (seen : gmap string string) (refused : list string) (l : list string) :
    option arg_error :=
  match l with
  | [] => None
  | n :: l =>
      if padded n then Some (RefusedPadded n)
      else match seen !! n with
           | Some field => Some (RefusedNamed n field)
           | None => if mem n refused then Some (RefusedTwice n)
                     else check_refused seen (n :: refused) l
           end
  end.

Definition validateArgs (s : ToolSpec) : option arg_error :=
  match Args s with
  | None => Some ArgsRequired
  | Some _ =>
      match check_named ∅ (named_fields s) with
      | Err e => Some e
      | Ok seen => check_refused seen [] (RefusedArgs s)
      end
  end.

Definition validateCapability (s : ToolSpec) (tables : gmap string (gmap string Class)) :
    option capability_error :=
  if String.eqb (CapabilityParam s) "" && String.eqb (CapabilityTable s) "" then None
  else if String.eqb (CapabilityParam s) "" || String.eqb (CapabilityTable s) ""
  then Some CapOneOnly
  else match tables !! CapabilityTable s with
       | None => Some (CapNoTable (CapabilityTable s))
       | Some _ =>
           if negb (String.eqb (spec_Class s) ExecArbitrary) then Some (CapClass (spec_Class s))
           else if (0 <? List.length (CommandParams s))%nat || (0 <? List.length (ConfigParams s))%nat
           then Some CapOtherParams
           else None
       end.

Section Validate.
Context `{Unicode}.

Fixpoint check_ids (name : string) (table : gmap string Class)
    (folded : gmap string string) (ids : list string) : option table_error :=
  match ids with
  | [] => None
  | id :: ids =>
      if negb (validCapabilityID id) then Some (TableID name id)
      else let c := default EmptyString (table !! id) in
           if negb (class_valid c) then Some (TableClass name id c)
           else match folded !! to_lower id with
                | Some prev => Some (TableCase name prev id)
                | None => check_ids name table (<[to_lower id := id]> folded) ids
                end
  end.

Definition validateTable (name : string) (table : gmap string Class) : option table_error :=
  if padded name then Some (TableName name)
  else if decide (table = ∅) then Some (TableEmpty name)
  else check_ids name table ∅ (sortedKeys table).

Definition validate_tool (p : Profile) (name : string) : option profile_error :=
  match Tools p !! name with
  | None => None
  | Some spec =>
      if negb (class_valid (spec_Class spec)) then Some (PClass name (spec_Class spec))
      else match validateArgs spec with
           | Some e => Some (PArgs name e)
           | None =>
               match validateCapability spec (Capabilities p) with
               | Some e => Some (PCapability name e)
               | None => None
               end
           end
  end.

(** The tables some tool reads. *)
Definition used_tables (p : Profile) : list string :=
  List.filter (λ t, negb (String.eqb t ""))
    (map (λ n, match Tools p !! n with Some s => CapabilityTable s | None => EmptyString end)
         (ToolNames p)).

Definition validate_table_use (p : Profile) (name : string) : option profile_error :=
  match validateTable name (default ∅ (Capabilities p !! name)) with
  | Some e => Some (PTable e)
  | None => if mem name (used_tables p) then None else Some (PUnused name)
  end.

Definition Validate (p : Profile) : option profile_error :=
  if String.eqb (trim_space (Server p)) "" then Some PServer
  else if decide (Tools p = ∅) then Some PNoTools
  else match first_error (validate_tool p) (ToolNames p) with
       | Some e => Some e
       | None => first_error (validate_table_use p) (sortedKeys (Capabilities p))
       end.

(** ** Loading *)

Inductive load_error := LoadYaml | LoadInvalid (e : profile_error) | LoadRead | LoadDup (server : string).

(** The strict YAML decoder and the file reader. *)
Context (unmarshal : string → option Profile) (read_file : string → option string).

Definition ParseProfile (b : string) : result load_error Profile :=
  match unmarshal b with
  | None => Err LoadYaml
  | Some p => match Validate p with Some e => Err (LoadInvalid e) | None => Ok p end
  end.

Definition LoadProfile (path : string) : result load_error Profile :=
  match read_file path with
  | None => Err LoadRead
  | Some b => ParseProfile b
  end.

Fixpoint load_files (out : gmap string Profile) (files : list string) :
    result load_error (gmap string Profile) :=
  match files with
  | [] => Ok out
  | m :: files =>
      match LoadProfile m with
      | Err e => Err e
      | Ok p => match out !! Server p with
                | Some _ => Err (LoadDup (Server p))
                | None => load_files (<[Server p := p]> out) files
                end
      end
  end.

(** [LoadProfileDir] on the files the glob matches. *)
Definition LoadProfileDir (matches : list string) : result load_error (gmap string Profile) :=
  load_files ∅ (sort_strings matches).
End Validate.

(** ** Lemmas *)

Lemma elem_of_sortedKeys {V} (m : gmap string V) k : k ∈ sortedKeys m ↔ is_Some (m !! k).
Proof.
  unfold sortedKeys. rewrite elem_of_sort_strings, list_elem_of_fmap. split.
  - intros ([k' v] & -> & Hkv). apply elem_of_map_to_list in Hkv. by exists v.
  - intros [v Hv]. exists (k, v). split; [done|]. by apply elem_of_map_to_list.
Qed.

Lemma NoDup_sortedKeys {V} (m : gmap string V) : NoDup (sortedKeys m).
Proof. unfold sortedKeys. rewrite sort_strings_perm. apply NoDup_fst_map_to_list. Qed.

#[export] Hint Rewrite @elem_of_sortedKeys : go.

Lemma named_fields_snd s : map snd (named_fields s) = NamedArgs s.
Proof.
  unfold named_fields, NamedArgs. rewrite !map_app, !map_map. cbn [snd]. by rewrite !map_id.
Qed.

(** What the argument list of a tool has to be. *)
Definition args_ok (s : ToolSpec) : Prop :=
  Args s ≠ None ∧ NoDup (NamedArgs s ++ RefusedArgs s) ∧
  (∀ n, n ∈ NamedArgs s ++ RefusedArgs s → padded n = false).

Lemma check_named_spec l seen :
  match check_named seen l with
  | Ok seen' =>
      NoDup (map snd l) ∧ (∀ n, n ∈ map snd l → padded n = false ∧ seen !! n = None) ∧
      (∀ n, is_Some (seen' !! n) ↔ is_Some (seen !! n) ∨ n ∈ map snd l)
  | Err _ => ¬ (NoDup (map snd l) ∧ ∀ n, n ∈ map snd l → padded n = false ∧ seen !! n = None)
  end.
Proof.
  revert seen. induction l as [|[f n] l IH]; intros seen; cbn [check_named map snd].
  { split; [constructor|]. split; [by intros n ?%not_elem_of_nil|].
    intros n. split; [auto|]. intros [?|?%not_elem_of_nil]; done. }
  destruct (padded n) eqn:Hp.
  { intros [_ H]. destruct (H n) as [? _]; [by left|congruence]. }
  destruct (seen !! n) as [prev|] eqn:Hs.
  { intros [_ H]. destruct (H n) as [_ ?]; [by left|congruence]. }
  specialize (IH (<[n:=f]> seen)). destruct (check_named _ l) as [seen'|e].
  - destruct IH as (Hnd & Hall & Hdom). split; [|split].
    + constructor; [|done]. intros Hin. destruct (Hall _ Hin) as [_ H].
      by rewrite lookup_insert_eq in H.
    + intros m [->|Hm]%elem_of_cons; [done|]. destruct (Hall _ Hm) as [? H].
      apply lookup_insert_None in H as [??]. done.
    + intros m. rewrite Hdom, elem_of_cons.
      destruct (decide (m = n)) as [->|Hne].
      * rewrite lookup_insert_eq. naive_solver.
      * rewrite lookup_insert_ne by done. naive_solver.
  - intros [Hnd H]. apply IH. apply NoDup_cons in Hnd as [Hn Hnd]. split; [done|].
    intros m Hm. destruct (H m) as [? ?]; [by right|]. split; [done|].
    rewrite lookup_insert_ne; [done|]. by intros <-.
Qed.

Lemma check_refused_spec l seen refused :
  check_refused seen refused l = None ↔
  NoDup l ∧ ∀ n, n ∈ l → padded n = false ∧ seen !! n = None ∧ n ∉ refused.
Proof.
  revert refused. induction l as [|n l IH]; intros refused; cbn [check_refused].
  { split; [|done]. split; [constructor|]. by intros n ?%not_elem_of_nil. }
  destruct (padded n) eqn:Hp.
  { split; [done|]. intros [_ H]. destruct (H n) as [? _]; [by left|congruence]. }
  destruct (seen !! n) eqn:Hs.
  { split; [done|]. intros [_ H]. destruct (H n) as (_ & ? & _); [by left|congruence]. }
  destruct (mem n refused) eqn:Hm.
  { split; [done|]. intros [_ H]. apply mem_true in Hm.
    by destruct (H n) as (_ & _ & ?); [left|]. }
  apply mem_false in Hm. rewrite IH, NoDup_cons. split.
  - intros [Hnd H]. split; [split; [|done]|].
    + intros Hin. destruct (H _ Hin) as (_ & _ & Hr). apply Hr. by left.
    + intros m [->|Hin]%elem_of_cons; [done|]. destruct (H _ Hin) as (? & ? & Hr).
      rewrite not_elem_of_cons in Hr. naive_solver.
  - intros [[Hn Hnd] H]. split; [done|]. intros m Hin.
    destruct (H m) as (? & ? & ?); [by right|]. split; [done|]. split; [done|].
    rewrite not_elem_of_cons. split; [|done]. by intros ->.
Qed.

Lemma validateArgs_spec s : validateArgs s = None ↔ args_ok s.
Proof.
  unfold validateArgs, args_ok. destruct (Args s) as [a|] eqn:Ha; [|naive_solver].
  pose proof (check_named_spec (named_fields s) ∅) as Hn. rewrite named_fields_snd in Hn.
  destruct (check_named ∅ (named_fields s)) as [seen|e].
  - destruct Hn as (Hnd & Hall & Hdom). rewrite check_refused_spec, NoDup_app.
    assert (Hseen : ∀ n, n ∈ NamedArgs s ↔ seen !! n ≠ None).
    { intros n. rewrite <- not_eq_None_Some in Hdom || idtac. specialize (Hdom n).
      rewrite lookup_empty in Hdom. split.
      - intros Hin. apply not_eq_None_Some. apply Hdom. by right.
      - intros Hne%not_eq_None_Some. apply Hdom in Hne as [[? [=]]|?]; done. }
    split.
    + intros [Hr H]. split; [done|]. split; [split; [done|split; [|done]]|].
      * intros n Hin Hin'. apply Hseen in Hin. destruct (H _ Hin') as (_ & ? & _). done.
      * intros n [Hin|Hin]%elem_of_app; [by apply Hall|by apply H].
    + intros (_ & (_ & Hdisj & Hr) & Hpad). split; [done|]. intros n Hin. split; [|split].
      * apply Hpad. rewrite elem_of_app. by right.
      * destruct (seen !! n) eqn:E; [|done]. exfalso. apply (Hdisj n); [|done].
        apply Hseen. by rewrite E.
      * apply not_elem_of_nil.
  - split; [done|]. intros (_ & Hnd & Hpad). exfalso. apply Hn.
    rewrite NoDup_app in Hnd. destruct Hnd as (Hnd & _ & _). split; [done|].
    intros n Hin. split; [|apply lookup_empty]. apply Hpad. rewrite elem_of_app. by left.
Qed.

(** What the capability fields of a tool have to be. *)
Definition capability_ok (s : ToolSpec) (tables : gmap string (gmap string Class)) : Prop :=
  (CapabilityParam s = "" ∧ CapabilityTable s = "") ∨
  (CapabilityParam s ≠ "" ∧ CapabilityTable s ≠ "" ∧ is_Some (tables !! CapabilityTable s) ∧
   spec_Class s = ExecArbitrary ∧ CommandParams s = [] ∧ ConfigParams s = []).

Lemma validateCapability_spec s tables :
  validateCapability s tables = None ↔ capability_ok s tables.
Proof.
  unfold validateCapability, capability_ok.
  destruct (String.eqb_spec (CapabilityParam s) ""), (String.eqb_spec (CapabilityTable s) "");
    cbn [andb orb]; [naive_solver..|].
  destruct (tables !! CapabilityTable s) as [t|] eqn:Ht;
    [|split; [done|]; intros [[]|(_ & _ & [] & _)]; congruence].
  destruct (String.eqb_spec (spec_Class s) ExecArbitrary); cbn [negb]; [|naive_solver].
  destruct (CommandParams s), (ConfigParams s); cbn; naive_solver.
Qed.

Definition table_ok `{Unicode} (name : string) (table : gmap string Class) : Prop :=
  padded name = false ∧ table ≠ ∅ ∧
  (∀ id c, table !! id = Some c → validCapabilityID id = true ∧ class_valid c = true) ∧
  (∀ id1 id2, is_Some (table !! id1) → is_Some (table !! id2) →
     to_lower id1 = to_lower id2 → id1 = id2).

Lemma check_ids_spec `{Unicode} name table folded ids :
  NoDup ids →
  check_ids name table folded ids = None ↔
  (∀ id, id ∈ ids → validCapabilityID id = true ∧
     class_valid (default EmptyString (table !! id)) = true ∧ folded !! to_lower id = None) ∧
  (∀ id1 id2, id1 ∈ ids → id2 ∈ ids → to_lower id1 = to_lower id2 → id1 = id2).
Proof.
  revert folded. induction ids as [|id ids IH]; intros folded Hnd; cbn [check_ids].
  { split; [|done]. split; [by intros ? ?%not_elem_of_nil|by intros ?? ?%not_elem_of_nil]. }
  apply NoDup_cons in Hnd as [Hid Hnd].
  destruct (validCapabilityID id) eqn:Hv; cbn [negb];
    [|split; [done|]; intros [H1 _]; destruct (H1 id) as [? _]; [by left|congruence] ].
  destruct (class_valid _) eqn:Hc; cbn [negb];
    [|split; [done|]; intros [H1 _]; destruct (H1 id) as (_ & ? & _); [by left|congruence] ].
  destruct (folded !! to_lower id) eqn:Hf;
    [split; [done|]; intros [H1 _]; destruct (H1 id) as (_ & _ & ?); [by left|congruence]|].
  rewrite IH by done. setoid_rewrite elem_of_cons. split.
  - intros [H1 H2]. split.
    + intros i [->|Hi]; [done|]. destruct (H1 _ Hi) as (? & ? & Hn). split; [done|].
      split; [done|]. by apply lookup_insert_None in Hn as [? _].
    + intros i j [->|Hi] [->|Hj] Heq; [done| | |auto].
      * destruct (H1 _ Hj) as (_ & _ & Hn). rewrite <- Heq in Hn. by rewrite lookup_insert_eq in Hn.
      * destruct (H1 _ Hi) as (_ & _ & Hn). rewrite Heq in Hn. by rewrite lookup_insert_eq in Hn.
  - intros [H1 H2]. split; [|by auto]. intros i Hi. destruct (H1 i) as (? & ? & ?); [auto|].
    split; [done|]. split; [done|]. rewrite lookup_insert_ne; [done|].
    intros Heq. apply Hid. rewrite (H2 id i); auto.
Qed.

Lemma validateTable_spec `{Unicode} name table :
  validateTable name table = None ↔ table_ok name table.
Proof.
  unfold validateTable, table_ok. destruct (padded name); [naive_solver|].
  destruct (decide (table = ∅)) as [|Hne]; [naive_solver|].
  rewrite check_ids_spec by apply NoDup_sortedKeys.
  setoid_rewrite elem_of_sortedKeys. split.
  - intros [H1 H2]. split; [done|]. split; [done|]. split; [|auto].
    intros id c Hc. destruct (H1 id) as (? & Hcl & _); [by eauto|]. by rewrite Hc in Hcl.
  - intros (_ & _ & H1 & H2). split; [|auto]. intros id [c Hc]. rewrite Hc.
    destruct (H1 _ _ Hc). split; [done|]. split; [done|]. apply lookup_empty.
Qed.

(** What a loaded profile guarantees its users. *)
Record profile_ok `{Unicode} (p : Profile) : Prop := {
  ok_server : trim_space (Server p) ≠ "";
  ok_tools : Tools p ≠ ∅;
  ok_tool n s : Tools p !! n = Some s →
    class_valid (spec_Class s) = true ∧ args_ok s ∧ capability_ok s (Capabilities p);
  ok_table n t : Capabilities p !! n = Some t →
    table_ok n t ∧ ∃ tool s, Tools p !! tool = Some s ∧ CapabilityTable s = n;
}.

Lemma validate_tool_spec `{Unicode} p n s :
  Tools p !! n = Some s →
  validate_tool p n = None ↔
  class_valid (spec_Class s) = true ∧ args_ok s ∧ capability_ok s (Capabilities p).
Proof.
  intros Hs. unfold validate_tool. rewrite Hs, <- validateArgs_spec, <- validateCapability_spec.
  destruct (class_valid _), (validateArgs s), (validateCapability _ _); naive_solver.
Qed.

Lemma elem_of_used_tables p t :
  t ∈ used_tables p ↔ t ≠ "" ∧ ∃ tool s, Tools p !! tool = Some s ∧ CapabilityTable s = t.
Proof.
  unfold used_tables. rewrite list_elem_of_In, List.filter_In, <- list_elem_of_In, list_elem_of_fmap.
  unfold ToolNames. setoid_rewrite elem_of_sortedKeys. split.
  - intros [(n & Ht & [s Hs]) Hne]. rewrite Hs in Ht. split; [|eauto].
    intros ->. by rewrite String.eqb_refl in Hne.
  - intros [Hne (n & s & Hs & Ht)]. split.
    + exists n. rewrite Hs. eauto.
    + by destruct (String.eqb_spec t "").
Qed.

Lemma validate_table_use_spec `{Unicode} p n t :
  Capabilities p !! n = Some t →
  validate_table_use p n = None ↔
  table_ok n t ∧ ∃ tool s, Tools p !! tool = Some s ∧ CapabilityTable s = n.
Proof.
  intros Ht. unfold validate_table_use. rewrite Ht, <- validateTable_spec. cbn [default].
  unfold default, from_option, id. destruct (validateTable n t) eqn:E; [naive_solver|].
  assert (n ≠ "") by (intros ->; by apply validateTable_spec in E as [? _]).
  destruct (mem n (used_tables p)) eqn:Hm.
  - apply mem_true, elem_of_used_tables in Hm. naive_solver.
  - apply mem_false in Hm. rewrite elem_of_used_tables in Hm. naive_solver.
Qed.

(** [Validate] accepts a profile exactly when its server is named, it has
    tools, every tool has a known class, lists each argument once, keeps its
    refused arguments apart and reads a capability table only as an
    EXEC_ARBITRARY tool without commands or configuration, and every table is
    used, non-empty and free of ids that are JSON or differ only in case. *)
Theorem Validate_correct `{Unicode} (p : Profile) : Validate p = None ↔ profile_ok p.
Proof.
  assert (Htools : first_error (validate_tool p) (ToolNames p) = None ↔
    ∀ n s, Tools p !! n = Some s →
      class_valid (spec_Class s) = true ∧ args_ok s ∧ capability_ok s (Capabilities p)).
  { rewrite first_error_None. unfold ToolNames. setoid_rewrite elem_of_sortedKeys. split.
    - intros Hp n s Hs. apply (validate_tool_spec p n s Hs), Hp. eauto.
    - intros Hp n [s Hs]. apply (validate_tool_spec p n s Hs). eauto. }
  assert (Htabs : first_error (validate_table_use p) (sortedKeys (Capabilities p)) = None ↔
    ∀ n t, Capabilities p !! n = Some t →
      table_ok n t ∧ ∃ tool s, Tools p !! tool = Some s ∧ CapabilityTable s = n).
  { rewrite first_error_None. setoid_rewrite elem_of_sortedKeys. split.
    - intros Hp n t Ht. apply (validate_table_use_spec p n t Ht), Hp. eauto.
    - intros Hp n [t Ht]. apply (validate_table_use_spec p n t Ht). eauto. }
  unfold Validate. destruct (String.eqb_spec (trim_space (Server p)) "").
  { split; [done|]. by intros []. }
  destruct (decide (Tools p = ∅)); [split; [done|by intros []]|].
  destruct (first_error (validate_tool p) (ToolNames p)).
  { split; [done|]. intros []. by apply Htools. }
  rewrite Htabs. split; [|by intros []]. intros Ht. constructor; [done..| |done]. by apply Htools.
Qed.

(** A tool found in a validated profile passed the checks of its entry. *)
Lemma Lookup_Some p tool spec :
  Lookup p tool = Some spec → ∃ n, Tools p !! n = Some spec.
Proof. unfold Lookup. destruct (Tools p !! tool) eqn:E; [intros [= ->]; eauto|]. case_match; eauto; done. Qed.

Lemma Validate_tool `{Unicode} p tool spec :
  Validate p = None → Lookup p tool = Some spec →
  class_valid (spec_Class spec) = true ∧ args_ok spec ∧ capability_ok spec (Capabilities p).
Proof.
  intros Hv [n Hn]%Lookup_Some. apply (validate_tool_spec p n spec Hn). revert Hv. unfold Validate.
  destruct (String.eqb _ _); [done|]. destruct (decide _); [done|].
  destruct (first_error (validate_tool p) (ToolNames p)) eqn:E; [done|]. intros _.
  rewrite first_error_None in E. apply E. unfold ToolNames. rewrite elem_of_sortedKeys. eauto.
Qed.

(** A loaded directory maps each server to a validated profile of its name. *)
Lemma load_files_ok `{Unicode} um rd out files m :
  (∀ k p, out !! k = Some p → Server p = k ∧ Validate p = None) →
  load_files um rd out files = Ok m →
  ∀ k p, m !! k = Some p → Server p = k ∧ Validate p = None.
Proof.
  revert out. induction files as [|f files IH]; intros out Hout; cbn [load_files].
  { by intros [= ->]. }
  unfold LoadProfile, ParseProfile. destruct (rd f) as [b|]; [|done].
  destruct (um b) as [p|]; [|done]. destruct (Validate p) eqn:Hv; [done|].
  destruct (out !! Server p) eqn:Hd; [done|]. apply IH. intros k q.
  destruct (decide (Server p = k)) as [<-|Hne].
  - rewrite lookup_insert_eq. intros [= ->]. done.
  - rewrite lookup_insert_ne by done. apply Hout.
Qed.
