(* ===== verification/Values.v ===== *)
(** * Argument values: the flattening helpers of internal/classify/normalize.go

    [rawValues], [stringValues] and [stringOrStrings], and the call's
    [map[string]any].  [fmt.Sprint] of a decoded value is written out, but for
    the text of a float64, which is a parameter. *)

From S2P Require Import Prelude GoStd Json.

Open Scope string_scope.
Open Scope Z_scope.
Open Scope list_scope.

(** strconv on JSON number literals: whether the float64 is in range, and how
    %v prints it. *)
Class GoFloat := {
  float_in_range : string → bool;
  float_v : string → string;
}.

(** Literals print as they are written: right for small decimal integers. *)
Definition plain_floats : GoFloat := {| float_in_range _ := true; float_v s := s |}.

(** [map[string]any]. *)
Abbreviation arguments := (gmap string any) (only parsing).

(** [args[p]]: nil when missing. *)
Definition arg (args : arguments) (p : string) : any := default ANil (args !! p).

Section Values.
Context `{GoFloat}.

(** [fmt.Sprint(v)], which is %v. *)
Fixpoint sprint (v : any) : string :=
  match v with
  | ANil => "<nil>"
  | ABool b => if b then "true" else "false"
  | ANum n => float_v n
  | AStr s => s
  | AStrs l => show_strings l
  | AArr l => show_strings (map sprint l)
  | AObj l => ("map" ++ show_strings (map (λ kv, (fst kv ++ ":" ++ sprint (snd kv))%string) l))%string
  end.

Fixpoint rawValues (v : any) : list string :=
  match v with
  | ANil => []
  | AStr s => [s]
  | AStrs l => l
  | AArr l => flat_map rawValues l
  | _ => [sprint v]
  end.

Definition split_trim (raw : string) : list string :=
  List.filter (λ t, negb (String.eqb t "")) (map trim_space (split_b "," raw)).

Definition stringValues (v : any) : list string := flat_map split_trim (rawValues v).
End Values.

Definition is_str (v : any) : bool := match v with AStr _ => true | _ => false end.

Definition stringOrStrings (v : any) : bool :=
  match v with
  | ANil | AStr _ | AStrs _ => true
  | AArr l => forallb is_str l
  | _ => false
  end.

(** ** Lemmas *)

Definition str_of (v : any) : string := match v with AStr s => s | _ => EmptyString end.

(** What a value of a checked argument flattens to does not depend on how
    anything else prints. *)
Lemma rawValues_strings `{GoFloat} v :
  stringOrStrings v = true →
  rawValues v = match v with
                | AStr s => [s] | AStrs l => l | AArr l => map str_of l | _ => [] end.
Proof.
  destruct v; try done. cbn [stringOrStrings rawValues]. intros Hl.
  rewrite forallb_elem in Hl. induction l as [|v l IH]; [done|]. cbn [flat_map map].
  rewrite IH by (intros x Hx; apply Hl; by right).
  assert (is_str v = true) by (apply Hl; by left). by destruct v.
Qed.

Lemma split_trim_nonempty raw t : t ∈ split_trim raw → t ≠ "".
Proof.
  unfold split_trim. intros Ht%list_elem_of_In. apply List.filter_In in Ht as [_ Ht].
  by destruct (String.eqb_spec t "").
Qed.
