(* ===== verification/ConfigPayload.v ===== *)
(** * The config payload checks: internal/classify/config.go

    The line rules of the three dialects and the walk over a call's config
    arguments.  [checkBytes] is in Command.v. *)

From S2P Require Import Prelude GoStd Json ToolClass Command ServerProfile Values.

Open Scope string_scope.
Open Scope Z_scope.
Open Scope list_scope.

Inductive configDialect := dialectCLI | dialectJunosLoad.

(** The table [configDialects], keyed by server and bare tool name. *)
Definition configDialects : list (string * string * configDialect) :=
  [("junos-mcp-server", "load_and_commit_config", dialectJunosLoad)].

(** A missing key is the zero value, [dialectCLI]. *)
Definition dialect_of (server tool : string) : configDialect :=
  match List.find (λ e, String.eqb (fst (fst e)) server && String.eqb (snd (fst e)) tool)
          configDialects with
  | Some (_, d) => d
  | None => dialectCLI
  end.

Definition cliEscapeWords : list string :=
  ["end"; "exit"; "quit"; "abort"; "configure"; "commit"; "rollback";
   "do"; "run"; "exec"; "execute"; "enable"; "disable";
   "bash"; "shell"; "start"; "tclsh"; "python"; "python3"; "guestshell"; "op";
   "reload"; "reboot"; "halt"; "reset"; "restart"; "zeroize"; "zerotouch";
   "copy"; "write"; "delete"; "erase"; "format"; "rename"; "mkdir"; "rmdir";
   "clear"; "request"; "load"; "save"; "install"; "diagnose"; "debug"; "undebug"; "test";
   "tcpdump"; "show"; "more"; "ssh"; "telnet"; "connect"; "alias"; "cli";
   "event"; "event-handler"; "schedule"; "scheduler"; "kron"; "daemon"; "command";
   "ping"; "traceroute"; "clock"; "send"; "watch"; "logout"; "terminal";
   "agent"; "return"; "system-view"; "admin"].

Definition junosSetVerbs : list string :=
  ["set"; "delete"; "activate"; "deactivate"; "annotate"; "insert"; "rename";
   "copy"; "protect"; "unprotect"; "edit"; "top"; "up"].

Definition junosExecConfigWords : list string :=
  ["event-options"; "scripts"; "extensions"; "execute-commands"].

Definition maxConfigLineLen : Z := maxCommandLen.
Definition maxConfigPayloadLen : Z := Z.shiftl 64 10.

Definition autocommand : string := "autocommand".
Definition minAutocommandAbbrev : Z := 5.

Definition checkEscapeWord : string := "escape-word".
Definition checkLeadingSymbol : string := "leading-symbol".
Definition checkSetVerb : string := "set-verb".
Definition checkSeparator : string := "separator".
Definition checkExecConfig : string := "exec-config".
Definition checkDTD : string := "dtd".

Record configFailure := { element : Z; line : Z; check : string }.

Definition reason (f : configFailure) : string :=
  if element f =? 0
  then ("config payload failed the config payload check (" ++ check f ++ ")")%string
  else ("config element " ++ itoa (element f) ++ " line " ++ itoa (line f) ++
        " failed the config payload check (" ++ check f ++ ")")%string.

Definition cr : ascii := ascii_of_nat 13.
Definition lf : ascii := ascii_of_nat 10.

Definition splitLines (s : string) : list string :=
  let s := replace_all s (String cr (String lf EmptyString)) (String lf EmptyString) in
  split_b lf (replace_all s (String cr EmptyString) (String lf EmptyString)).

Definition isLowerAlnum (b : ascii) : bool :=
  in_range 97 122 (bz b) || in_range 48 57 (bz b).

Definition word_byte (b : ascii) : bool :=
  isLowerAlnum b || Ascii.eqb b "-".

Definition trimWord (w : string) : string := trim (λ b, negb (word_byte b)) w.

Definition allDigits (s : string) : bool :=
  if String.eqb s "" then false else s_all is_digit_b s.

(** The longest prefix of bytes a word of a configuration line may hold. *)
Fixpoint word_prefix (s : string) : string :=
  match s with
  | EmptyString => EmptyString
  | String c s =>
      if isLowerAlnum c || Ascii.eqb c "-" || Ascii.eqb c "_"
      then String c (word_prefix s) else EmptyString
  end.

Definition has_autocommand (w : string) : bool :=
  let w := trimWord w in
  (minAutocommandAbbrev <=? slen w) && has_prefix autocommand w.

Section Lines.
Context `{Unicode}.

Definition checkCLIConfigLine (line : string) : string :=
  if slen line >? maxConfigLineLen then checkTooLong
  else let c := checkBytes line in
  if negb (String.eqb c "") then c
  else let t := to_lower (trim (cutset space_tab) line) in
  if contains t ";" then checkSeparator
  else match t with
  | EmptyString => EmptyString
  | String b rest =>
      if Ascii.eqb b "!" then EmptyString
      else if existsb has_autocommand (fields t) then checkExecConfig
      else if negb (isLowerAlnum b) then checkLeadingSymbol
      else let word := String b (word_prefix rest) in
      if existsb (λ v, has_prefix v word) cliEscapeWords then checkEscapeWord
      else EmptyString
  end.

(** A word after the first that abbreviates an executing hierarchy. *)
Definition exec_config_word (w : string) : bool :=
  let w := trimWord w in
  negb (String.eqb w "") && existsb (λ x, has_prefix x w) junosExecConfigWords.

Definition checkJunosSetLine (line : string) : string :=
  if slen line >? maxConfigLineLen then checkTooLong
  else let c := checkBytes line in
  if negb (String.eqb c "") then c
  else let t := to_lower (trim (cutset space_tab) line) in
  match t with
  | EmptyString => EmptyString
  | String b _ =>
      if Ascii.eqb b "#" then EmptyString
      else match fields t with
      | [] => checkSetVerb      (* unreachable: t holds a byte that is not a space *)
      | w0 :: args =>
          if negb (mem w0 junosSetVerbs) then checkSetVerb
          else if String.eqb w0 "top" && negb (List.length args =? 0)%nat then checkSetVerb
          else if String.eqb w0 "up" &&
                  ((1 <? List.length args)%nat ||
                   match args with [n] => negb (allDigits n) | _ => false end)
          then checkSetVerb
          else if existsb exec_config_word args then checkExecConfig
          else EmptyString
      end
  end.

Definition checkJunosDataLine (line format : string) : string :=
  let c := checkBytes line in
  if negb (String.eqb c "") then c
  else let t := to_lower line in
  if existsb (contains t) junosExecConfigWords then checkExecConfig
  else if String.eqb format "xml" && contains t "<!" then checkDTD
  else EmptyString.

Definition junosLoadFormat (v : any) : string :=
  match v with
  | AStr s =>
      if negb (is_ascii s) then "set"
      else let f := to_lower s in
           if String.eqb f "text" || String.eqb f "xml" then f else "set"
  | _ => "set"
  end.

Definition bareToolName (p : Profile) (tool : string) : string :=
  match Tools p !! tool with
  | Some _ => tool
  | None => trim_prefix tool (Server p ++ ".")
  end.

Definition check_line (dialect : configDialect) (format line : string) : string :=
  match dialect with
  | dialectCLI => checkCLIConfigLine line
  | _ => if String.eqb format "set" then checkJunosSetLine line
         else checkJunosDataLine line format
  end.

(** The first line of element [e], from line [i], that fails. *)
Fixpoint check_lines (chk : string → string) (e i : Z) (lines : list string) :
    option configFailure :=
  match lines with
  | [] => None
  | l :: lines =>
      let c := chk l in
      if negb (String.eqb c "") then Some {| element := e; line := i; check := c |}
      else check_lines chk e (i + 1) lines
  end.

Fixpoint check_elements (chk : string → string) (e : Z) (values : list string) :
    option configFailure :=
  match values with
  | [] => None
  | v :: values =>
      match check_lines chk e 1 (splitLines v) with
      | Some f => Some f
      | None => check_elements chk (e + 1) values
      end
  end.

Context `{GoFloat}.

Definition config_values (spec : ToolSpec) (args : arguments) : list string :=
  flat_map (λ p, rawValues (arg args p)) (ConfigParams spec).

Definition total_len (l : list string) : Z := foldr (λ v n, slen v + n) 0 l.

Definition checkConfigPayload (p : Profile) (tool : string) (spec : ToolSpec) (args : arguments) :
    option configFailure :=
  let dialect := dialect_of (Server p) (bareToolName p tool) in
  let format := match dialect with
    | dialectJunosLoad => junosLoadFormat (arg args "config_format")
    | dialectCLI => EmptyString end in
  let values := config_values spec args in
  if total_len values >? maxConfigPayloadLen
  then Some {| element := 0; line := 0; check := checkTooLong |}
  else check_elements (check_line dialect format) 1 values.
End Lines.

(** ** Lemmas *)

#[local] Existing Instance ascii_tables.
Example ex_line_end : checkCLIConfigLine " En " = checkEscapeWord.
Proof. vm_compute. reflexivity. Qed.
Example ex_line_auto : checkCLIConfigLine "username u autoC reload" = checkExecConfig.
Proof. vm_compute. reflexivity. Qed.
Example ex_line_ok : checkCLIConfigLine "interface Ethernet1" = "".
Proof. vm_compute. reflexivity. Qed.
Example ex_line_sep : checkCLIConfigLine "! x ; reload" = checkSeparator.
Proof. vm_compute. reflexivity. Qed.
Example ex_set_up : map checkJunosSetLine ["up 2"; "up 2 set x"; "top set x"; "set system event-opt"] =
  [""; checkSetVerb; checkSetVerb; checkExecConfig].
Proof. vm_compute. reflexivity. Qed.

(** A byte the first word of a configuration line may hold. *)
Definition first_word_byte (c : ascii) : bool :=
  isLowerAlnum c || Ascii.eqb c "-" || Ascii.eqb c "_".

Definition word_ends (rest : string) : bool :=
  match rest with EmptyString => true | String c _ => negb (first_word_byte c) end.

Lemma word_prefix_split s :
  ∃ rest, s = (word_prefix s ++ rest)%string ∧ s_all first_word_byte (word_prefix s) = true ∧
    word_ends rest = true.
Proof.
  induction s as [|c s (rest & Hs & Ha & He)]; [by exists EmptyString|]. cbn [word_prefix].
  change (isLowerAlnum c || Ascii.eqb c "-" || Ascii.eqb c "_") with (first_word_byte c).
  destruct (first_word_byte c) eqn:Hc.
  - exists rest. cbn [String.append s_all]. rewrite Hc. split; [by rewrite Hs at 1|done].
  - exists (String c s). cbn. by rewrite Hc.
Qed.

Lemma word_prefix_unique w rest :
  s_all first_word_byte w = true → word_ends rest = true → word_prefix (w ++ rest) = w.
Proof.
  intros Hw Hr. induction w as [|c w IH].
  - destruct rest as [|d rest]; [done|]. cbn in *. apply negb_true_iff in Hr.
    unfold first_word_byte in Hr. by rewrite Hr.
  - cbn [s_all] in Hw. apply andb_prop in Hw as [Hc Hw]. cbn [String.append word_prefix].
    unfold first_word_byte in Hc. rewrite Hc. by rewrite IH.
Qed.

(** The line as the checks read it: trimmed and lower-cased. *)
Definition folded (line : string) : string := s_map lower_b (trim (cutset space_tab) line).

Lemma trim_left_all cut p s : s_all p s = true → s_all p (trim_left cut s) = true.
Proof.
  induction s as [|c s IH]; [done|]. cbn [trim_left s_all]. intros H.
  destruct (cut c); [|done]. apply IH. by apply andb_prop in H as [_ ?].
Qed.

Lemma trim_right_all cut p s : s_all p s = true → s_all p (trim_right cut s) = true.
Proof.
  induction s as [|c s IH]; [done|]. cbn [trim_right s_all]. intros H.
  apply andb_prop in H as [Hc Hs]. specialize (IH Hs).
  destruct (trim_right cut s); [|by cbn [s_all] in *; rewrite Hc].
  destruct (cut c); cbn [s_all]; by rewrite ?Hc.
Qed.

Lemma trim_all cut p s : s_all p s = true → s_all p (trim cut s) = true.
Proof. intros ?. by apply trim_right_all, trim_left_all. Qed.

Lemma to_lower_line `{Unicode} line :
  checkBytes line = "" → to_lower (trim (cutset space_tab) line) = folded line.
Proof.
  intros Hb%checkBytes_ok%printable_is_ascii. by apply to_lower_ascii, trim_all.
Qed.

(** What passes as a line of configuration on a vendor CLI. *)
Definition cli_line_ok (line : string) : Prop :=
  slen line <= 1024 ∧ s_all printable_or_tab line = true ∧
  contains (folded line) ";" = false ∧
  (folded line = "" ∨ has_prefix (folded line) "!" = true ∨
   (∀ w, w ∈ fields (folded line) → has_autocommand w = false) ∧
   ∃ c w rest, folded line = String c (w ++ rest) ∧ isLowerAlnum c = true ∧
     s_all first_word_byte w = true ∧ word_ends rest = true ∧
     ∀ k, k ∈ cliEscapeWords → has_prefix k (String c w) = false).

(** a vendor-CLI configuration line passes exactly when it is at most 1024
    bytes of printable ASCII and tabs, holds no ";", and is blank, a "!"
    comment, or starts with a word that abbreviates no escape word and has no
    word abbreviating "autocommand". *)
Theorem checkCLIConfigLine_correct `{Unicode} line :
  checkCLIConfigLine line = "" ↔ cli_line_ok line.
Proof.
  unfold checkCLIConfigLine, cli_line_ok, maxConfigLineLen, maxCommandLen. cbv zeta.
  rewrite Z.gtb_ltb. destruct (Z.ltb_spec 1024 (slen line)) as [|Hlen]; [split; [done|lia]|].
  destruct (String.eqb_spec (checkBytes line) "") as [Hb|Hb]; cbn [negb];
    [|split; [done|]; by intros (_ & ?%checkBytes_ok & _)].
  rewrite to_lower_line by done. rewrite <- checkBytes_ok.
  destruct (contains (folded line) ";"); [split; [done|]; by intros (_ & _ & ? & _)|].
  destruct (folded line) as [|c t] eqn:Ht; [naive_solver|].
  assert (Hbang : has_prefix (String c t) "!" = Ascii.eqb c "!").
  { unfold has_prefix. cbn [cut_prefix].
    destruct (Ascii.eqb_spec c "!"), (Ascii.eqb_spec "!" c); subst; done || congruence. }
  destruct (Ascii.eqb c "!"); [naive_solver|]. rewrite Hbang.
  destruct (existsb has_autocommand (fields (String c t))) eqn:Ha.
  { split; [done|]. intros (_ & _ & _ & [|[|(Hn & _)]]); [done..|].
    by apply existsb_elem in Ha as (w & Hw & ?); rewrite Hn in *. }
  rewrite existsb_false_elem in Ha.
  destruct (isLowerAlnum c) eqn:Hc; cbn [negb].
  2:{ split; [done|]. intros (_ & _ & _ & [|[|(_ & d & w & rest & [= <- _] & ? & _)]]); [done..|].
      congruence. }
  destruct (existsb (λ v, has_prefix v (String c (word_prefix t))) cliEscapeWords) eqn:He.
  - split; [done|]. intros (_ & _ & _ & [|[|(_ & d & w & rest & [= <- ->] & _ & Hw & Hr & Hk)]]); [done..|].
    rewrite word_prefix_unique in He by done. apply existsb_elem in He as (k & Hin & Hp).
    by rewrite Hk in Hp.
  - split; [|done]. intros _. do 3 (split; [done|]). right. right. split; [done|].
    destruct (word_prefix_split t) as (rest & Hs & Hw & Hr).
    exists c, (word_prefix t), rest. rewrite existsb_false_elem in He.
    split; [by rewrite Hs at 1|auto].
Qed.

Lemma replace_all_cr s : contains_b cr (replace_all s (String cr EmptyString) (String lf EmptyString)) = false.
Proof.
  unfold replace_all. induction s as [|c s IH]; [done|]. cbn [replace_all_from String.length].
  unfold has_prefix. cbn [cut_prefix]. destruct (Ascii.eqb_spec cr c) as [<-|Hne].
  - cbn [Nat.sub String.append contains_b]. by rewrite IH.
  - cbn [contains_b]. rewrite IH. by destruct (Ascii.eqb_spec cr c).
Qed.

Lemma contains_b_join c sep l w :
  contains_b c (join sep l) = false → w ∈ l → contains_b c w = false.
Proof.
  rewrite !contains_b_all. induction l as [|x l IH]; [by intros _ ?%not_elem_of_nil|].
  intros Hj Hw. destruct l as [|y l].
  - by apply list_elem_of_singleton in Hw as ->.
  - change (join sep (x :: y :: l)) with (x ++ sep ++ join sep (y :: l))%string in Hj.
    rewrite !s_all_app in Hj. apply andb_prop in Hj as [Hx [_ Hj]%andb_prop].
    apply elem_of_cons in Hw as [->|Hw]; [done|]. by apply IH.
Qed.

(** No line holds a line break the device would act on. *)
Lemma splitLines_no_break s l :
  l ∈ splitLines s → contains_b cr l = false ∧ contains_b lf l = false.
Proof.
  unfold splitLines. intros Hl. split; [|by eapply split_b_nosep].
  eapply contains_b_join; [|exact Hl]. rewrite join_split. apply replace_all_cr.
Qed.

Lemma check_lines_None chk e i ls : check_lines chk e i ls = None ↔ ∀ l, l ∈ ls → chk l = "".
Proof.
  revert i. induction ls as [|l ls IH]; intros i; cbn [check_lines].
  { split; [by intros _ ? ?%not_elem_of_nil|done]. }
  destruct (String.eqb_spec (chk l) "") as [Hl|Hl]; cbn [negb].
  - rewrite IH. setoid_rewrite elem_of_cons. naive_solver.
  - split; [done|]. intros H. by destruct Hl; apply H; left.
Qed.

Lemma check_lines_Some chk e i ls f :
  check_lines chk e i ls = Some f →
  ∃ ls1 l ls2, ls = ls1 ++ l :: ls2 ∧ element f = e ∧ line f = i + Z.of_nat (List.length ls1) ∧
    check f = chk l ∧ chk l ≠ "" ∧ (∀ m, m ∈ ls1 → chk m = "").
Proof.
  revert i. induction ls as [|l ls IH]; intros i; cbn [check_lines]; [done|].
  destruct (String.eqb_spec (chk l) "") as [Hl|Hl]; cbn [negb].
  - intros (ls1 & m & ls2 & -> & ? & Hline & ? & ? & Hall)%IH. exists (l :: ls1), m, ls2.
    split_and!; [done..| |done|done|].
    + rewrite Hline. cbn [List.length]. lia.
    + intros x [->|Hx]%elem_of_cons; auto.
  - intros [= <-]. exists [], l, ls. cbn. split_and!; [done..|lia|done|done|].
    by intros m ?%not_elem_of_nil.
Qed.

Lemma check_elements_None chk e vs :
  check_elements chk e vs = None ↔ ∀ v, v ∈ vs → ∀ l, l ∈ splitLines v → chk l = "".
Proof.
  revert e. induction vs as [|v vs IH]; intros e; cbn [check_elements].
  { split; [by intros _ ? ?%not_elem_of_nil|done]. }
  pose proof (check_lines_None chk e 1 (splitLines v)) as Hv.
  setoid_rewrite elem_of_cons. destruct (check_lines chk e 1 (splitLines v)).
  - split; [done|]. intros H. apply Hv. intros l Hl. by eapply H; [left|].
  - rewrite IH. split; [|naive_solver]. intros H w [->|Hw]; [by apply Hv|by apply H].
Qed.

(** The failure [f] is at the first line that fails. *)
Definition first_bad_line (chk : string → string) (vs : list string) (f : configFailure) : Prop :=
  ∃ vs1 v vs2 ls1 l ls2, vs = vs1 ++ v :: vs2 ∧ splitLines v = ls1 ++ l :: ls2 ∧
    element f = Z.of_nat (List.length vs1) + 1 ∧ line f = Z.of_nat (List.length ls1) + 1 ∧
    check f = chk l ∧ chk l ≠ "" ∧ (∀ m, m ∈ ls1 → chk m = "") ∧
    (∀ w m, w ∈ vs1 → m ∈ splitLines w → chk m = "").

Lemma check_elements_Some chk e vs f :
  check_elements chk e vs = Some f →
  first_bad_line chk vs {| element := element f - e + 1; line := line f; check := check f |}.
Proof.
  revert e. induction vs as [|v vs IH]; intros e; cbn [check_elements]; [done|].
  destruct (check_lines chk e 1 (splitLines v)) as [g|] eqn:Hv.
  - intros [= <-]. apply check_lines_Some in Hv as (ls1 & l & ls2 & ? & ? & ? & ? & ? & ?).
    exists [], v, vs, ls1, l, ls2. cbn. split_and!; [done..|lia|lia|done|done|done|].
    by intros w m ?%not_elem_of_nil.
  - intros (vs1 & w & vs2 & ls1 & l & ls2 & -> & ? & He & ? & ? & ? & ? & Hall)%IH.
    exists (v :: vs1), w, vs2, ls1, l, ls2. cbn [element line check List.length app] in *.
    split_and!; [done..|lia|lia|done|done|done|].
    intros x m [->|Hx]%elem_of_cons Hm; [|by eapply Hall].
    pose proof (proj1 (check_lines_None chk e 1 (splitLines v)) Hv). auto.
Qed.

(** The line check a call's payload gets. *)
Definition payload_check `{Unicode} (p : Profile) (tool : string) (args : arguments) :
    string → string :=
  let d := dialect_of (Server p) (bareToolName p tool) in
  check_line d match d with
    | dialectJunosLoad => junosLoadFormat (arg args "config_format")
    | dialectCLI => EmptyString end.

(** a configuration payload passes exactly when it is within 64 KiB and
    every line of every element of every configuration argument passes its
    dialect's check; otherwise the failure reported is the whole payload
    (element 0) when it is too long, and else the first line that fails. *)
Theorem checkConfigPayload_correct `{Unicode, GoFloat} p tool spec args :
  let chk := payload_check p tool args in
  let vs := config_values spec args in
  match checkConfigPayload p tool spec args with
  | None => total_len vs <= 65536 ∧ ∀ v l, v ∈ vs → l ∈ splitLines v → chk l = ""
  | Some f =>
      (65536 < total_len vs ∧ f = {| element := 0; line := 0; check := checkTooLong |}) ∨
      (total_len vs <= 65536 ∧ first_bad_line chk vs f)
  end.
Proof.
  cbv zeta. unfold checkConfigPayload, payload_check. cbv zeta.
  change maxConfigPayloadLen with 65536. rewrite Z.gtb_ltb.
  destruct (Z.ltb_spec 65536 (total_len (config_values spec args))); [by left|].
  destruct (check_elements _ 1 _) as [f|] eqn:E.
  - right. split; [done|]. apply check_elements_Some in E. destruct f as [e i c]. cbn in E.
    by replace (e - 1 + 1) with e in E by lia.
  - split; [done|]. intros v l Hv Hl. by eapply check_elements_None.
Qed.
