(* ===== verification/Classifier.v ===== *)
(** * The classifier: internal/classify/normalize.go

    [Normalize], [CheckArguments] and [Classify].  A class source is its audit
    spelling, as a class is its policy spelling. *)

From S2P Require Import Prelude GoStd Json ToolClass Command ServerProfile Values ConfigPayload.

Open Scope string_scope.
Open Scope Z_scope.
Open Scope list_scope.

Abbreviation Source := string (only parsing).

Definition SourceProfile : Source := "profile".
Definition SourceCapabilityTable : Source := "capability_table".
Definition SourceFallback : Source := "fallback".
Definition SourceAnnotationRaise : Source := "annotation_raise".
Definition SourceDowngrade : Source := "downgrade".
Definition SourceReclassify : Source := "reclassify".

Definition Sources : list Source :=
  [SourceProfile; SourceCapabilityTable; SourceFallback;
   SourceAnnotationRaise; SourceDowngrade; SourceReclassify].

Definition ParseSource (s : string) : option Source :=
  List.find (λ src, String.eqb src s) Sources.

Definition neverDowngrade : string := "never-downgrade".

Record Result := {
  res_Class : Class;
  ClassSource : Source;
  ProfileClass : Class;
  Known : bool;
  Targets : list string;
  Commands : list string;
  ConfigPayload : string;
  Reason : string;
  UnnamedArgs : list string;
  MalformedArgs : list string;
}.

Definition ArgumentsOK (r : Result) : bool :=
  (List.length (UnnamedArgs r) =? 0)%nat && (List.length (MalformedArgs r) =? 0)%nat.

(** ** Normalize *)

(** [add]: a trimmed target once, in order of appearance. *)
Definition add_target (targets : list string) (v : string) : list string :=
  let v := trim_space v in
  if String.eqb v "" || mem v targets then targets else targets ++ [v].

Definition group_token (v : string) : string :=
  if has_prefix v "@" then v else ("@" ++ v)%string.

Section Classify.
Context `{Unicode, GoFloat}.

Definition param_values (args : arguments) (params : list string) : list string :=
  flat_map (λ p, stringValues (arg args p)) params.

Definition spec_targets (spec : ToolSpec) (args : arguments) : list string :=
  foldl add_target []
    (param_values args (TargetParams spec) ++ param_values args (TargetsParams spec) ++
     map group_token (param_values args (GroupParams spec))).

Definition spec_commands (spec : ToolSpec) (args : arguments) : list string :=
  map (trim (cutset space_tab))
    (flat_map (λ p, rawValues (arg args p)) (CommandParams spec)).

Definition spec_payload (spec : ToolSpec) (args : arguments) : string :=
  join (String lf EmptyString)
    (List.filter (λ v, negb (String.eqb v ""))
       (map (trim_right (Ascii.eqb lf)) (config_values spec args))).

Definition Normalize (profile : option Profile) (tool : string) (args : arguments) :
    list string * list string * string :=
  match profile with
  | None => ([], [], EmptyString)
  | Some p =>
      match Lookup p tool with
      | None => ([], [], EmptyString)
      | Some spec => (spec_targets spec args, spec_commands spec args, spec_payload spec args)
      end
  end.

(** ** CheckArguments *)

(** A mapped argument whose value the upstream could read differently. *)
Definition malformed_value (config : bool) (v : any) : bool :=
  if negb (stringOrStrings v) then true
  else match v with AStr s => upstreamMayParseJSON s config | _ => false end.

Definition malformed_in (args : arguments) (config : bool) (names : list string) : list string :=
  List.filter (λ n, match args !! n with Some v => malformed_value config v | None => false end)
    names.

Definition malformed_capability (args : arguments) (spec : ToolSpec) : list string :=
  let name := CapabilityParam spec in
  if String.eqb name "" then []
  else match args !! name with
       | None | Some ANil => []
       | Some (AStr s) => if upstreamMayParseJSON s false then [name] else []
       | Some _ => [name]
       end.

Definition CheckArguments (profile : option Profile) (tool : string) (args : arguments) :
    list string * list string :=
  match profile with
  | None => ([], [])
  | Some p =>
      let spec := Lookup p tool in
      let unnamed := List.filter
        (λ k, match spec with Some s => negb (Named s k) | None => true end)
        (map fst (map_to_list args)) in
      let malformed := match spec with
        | None => []
        | Some s =>
            malformed_in args false (TargetParams s) ++ malformed_in args false (TargetsParams s) ++
            malformed_in args false (GroupParams s) ++ malformed_in args false (CommandParams s) ++
            malformed_in args true (ConfigParams s) ++ malformed_capability args s
        end in
      (sort_strings unnamed, sort_strings malformed)
  end.

(** ** Classify *)

Definition failReason (idx : Z) (check : string) : string :=
  if idx <? 0 then "no command to check"
  else ("command " ++ itoa (idx + 1) ++ " failed the read allow-list (" ++ check ++ ")")%string.

Definition classifyCapability (p : Profile) (spec : ToolSpec) (args : arguments) : Class * string :=
  match arg args (CapabilityParam spec) with
  | ANil => (ExecArbitrary, "no capability id")
  | AStr id =>
      match default ∅ (Capabilities p !! CapabilityTable spec) !! id with
      | None => (ExecArbitrary,
          ("capability not in capability table " ++ CapabilityTable spec)%string)
      | Some c => (c, ("capability listed in capability table " ++ CapabilityTable spec)%string)
      end
  | _ => (ExecArbitrary, "capability id is not a string")
  end.

(** The class, its source and the reason for a tool the profile names. *)
Definition classify_tool (p : Profile) (tool : string) (spec : ToolSpec) (args : arguments)
    (commands : list string) : Class * Source * string :=
  let keep := (spec_Class spec, SourceProfile, EmptyString) in
  if negb (String.eqb (CapabilityParam spec) "") then
    let '(c, reason) := classifyCapability p spec args in (c, SourceCapabilityTable, reason)
  else
    let failure :=
      if negb (String.eqb (spec_Class spec) ExecArbitrary) && (0 <? List.length (ConfigParams spec))%nat
      then checkConfigPayload p tool spec args else None in
    match failure with
    | Some f => (ExecArbitrary, SourceReclassify, reason f)
    | None =>
        if (List.length (CommandParams spec) =? 0)%nat then keep
        else if String.eqb (spec_Class spec) ExecArbitrary then
          if contains (to_lower (Notes spec)) neverDowngrade
          then (ExecArbitrary, SourceProfile,
                "tool is never downgraded (profile notes: never-downgrade)")
          else
            let '(cmdClass, idx, chk) := classifyCommands commands in
            if String.eqb cmdClass ExecArbitrary
            then (ExecArbitrary, SourceProfile, failReason idx chk)
            else if String.eqb cmdClass ReadOperational
            then (ReadOperational, SourceDowngrade, "every command passed the read allow-list")
            else if String.eqb cmdClass ReadConfig
            then (ReadConfig, SourceReclassify,
                  "every command passed the read allow-list; a command reads configuration")
            else keep
        else if String.eqb (spec_Class spec) ReadOperational then
          let '(cmdClass, idx, chk) := classifyCommands commands in
          if String.eqb cmdClass ExecArbitrary
          then (ExecArbitrary, SourceReclassify, failReason idx chk)
          else if String.eqb cmdClass ReadConfig
          then (ReadConfig, SourceReclassify, "a command reads configuration")
          else keep
        else keep
    end.

Definition fallback_result (unnamed malformed : list string) (why : string) : Result :=
  {| res_Class := ExecArbitrary; ClassSource := SourceFallback; ProfileClass := EmptyString;
     Known := false; Targets := []; Commands := []; ConfigPayload := EmptyString; Reason := why;
     UnnamedArgs := unnamed; MalformedArgs := malformed |}.

Definition Classify (profile : option Profile) (tool : string) (args : arguments) : Result :=
  let '(unnamed, malformed) := CheckArguments profile tool args in
  match profile with
  | None => fallback_result unnamed malformed "no profile for server"
  | Some p =>
      match Lookup p tool with
      | None => fallback_result unnamed malformed "tool not in profile"
      | Some spec =>
          let '(targets, commands, payload) := Normalize profile tool args in
          let '(c, src, why) := classify_tool p tool spec args commands in
          {| res_Class := c; ClassSource := src; ProfileClass := spec_Class spec; Known := true;
             Targets := targets; Commands := commands; ConfigPayload := payload; Reason := why;
             UnnamedArgs := unnamed; MalformedArgs := malformed |}
      end
  end.
End Classify.

(** ** Lemmas *)

Lemma add_target_spec ts v t :
  t ∈ add_target ts v ↔ t ∈ ts ∨ (t = trim_space v ∧ t ≠ "").
Proof.
  unfold add_target. destruct (String.eqb_spec (trim_space v) "") as [Hv|Hv]; cbn [orb].
  { rewrite Hv. naive_solver. }
  destruct (mem (trim_space v) ts) eqn:Hm.
  - apply mem_true in Hm. split; [by left|]. by intros [?|[-> _]].
  - rewrite elem_of_app, list_elem_of_singleton. naive_solver.
Qed.

Lemma add_target_NoDup ts v : NoDup ts → NoDup (add_target ts v).
Proof.
  intros Hnd. unfold add_target. destruct (String.eqb (trim_space v) ""); [done|]. cbn [orb].
  destruct (mem (trim_space v) ts) eqn:Hm; [done|]. apply mem_false in Hm.
  apply NoDup_app. split; [done|]. split; [|apply NoDup_singleton].
  intros x Hx ->%list_elem_of_singleton. done.
Qed.

Lemma foldl_targets_spec vs ts :
  (NoDup ts → NoDup (foldl add_target ts vs)) ∧
  ∀ t, t ∈ foldl add_target ts vs ↔ t ∈ ts ∨ ∃ v, v ∈ vs ∧ t = trim_space v ∧ t ≠ "".
Proof.
  revert ts. induction vs as [|v vs IH]; intros ts; cbn [foldl].
  { split; [done|]. intros t. split; [by left|]. intros [?|(? & ?%not_elem_of_nil & _)]; done. }
  destruct (IH (add_target ts v)) as [Hnd Hin]. split.
  - intros ?. by apply Hnd, add_target_NoDup.
  - intros t. rewrite Hin, add_target_spec. setoid_rewrite elem_of_cons. naive_solver.
Qed.

Lemma filter_sorted_nil (f : string → bool) l :
  sort_strings (List.filter f l) = [] ↔ ∀ x, x ∈ l → f x = false.
Proof.
  rewrite sort_strings_nil. induction l as [|x l IH]; cbn [List.filter].
  { split; [by intros _ ? ?%not_elem_of_nil|done]. }
  setoid_rewrite elem_of_cons. destruct (f x) eqn:Hx; [|naive_solver].
  split; [done|]. intros H. specialize (H x). rewrite H in Hx by auto. done.
Qed.

(** The parameter lists [CheckArguments] inspects. *)
Definition inspected (s : ToolSpec) (config : bool) (n : string) : Prop :=
  if config then n ∈ ConfigParams s
  else n ∈ TargetParams s ∨ n ∈ TargetsParams s ∨ n ∈ GroupParams s ∨ n ∈ CommandParams s.

Lemma elem_of_malformed_in args config names n :
  n ∈ malformed_in args config names ↔
  n ∈ names ∧ ∃ v, args !! n = Some v ∧ malformed_value config v = true.
Proof.
  unfold malformed_in. rewrite list_elem_of_In, List.filter_In, <- list_elem_of_In.
  destruct (args !! n) as [v|].
  - split; [intros []; eauto|]. intros (? & w & [= ->] & ?). done.
  - split; [by intros []|]. by intros (_ & w & [=] & _).
Qed.

Definition capability_value_bad (v : any) : bool :=
  match v with ANil => false | AStr s => upstreamMayParseJSON s false | _ => true end.

Lemma elem_of_malformed_capability args s n :
  n ∈ malformed_capability args s ↔
  n ≠ "" ∧ n = CapabilityParam s ∧ ∃ v, args !! n = Some v ∧ capability_value_bad v = true.
Proof.
  unfold malformed_capability. destruct (String.eqb_spec (CapabilityParam s) "") as [Hc|Hc].
  { rewrite Hc. split; [by intros ?%not_elem_of_nil|]. naive_solver. }
  destruct (args !! CapabilityParam s) as [v|] eqn:Hv.
  - assert (match v with
      | ANil => [] | AStr s0 => if upstreamMayParseJSON s0 false then [CapabilityParam s] else []
      | _ => [CapabilityParam s] end = if capability_value_bad v then [CapabilityParam s] else [])
      as -> by by destruct v.
    destruct (capability_value_bad v) eqn:Hb.
    + rewrite list_elem_of_singleton. split; [intros ->; eauto|]. by intros (_ & ? & _).
    + rewrite elem_of_nil. split; [done|]. intros (_ & -> & w & Hw & Hwb).
      assert (w = v) as -> by congruence. congruence.
  - rewrite elem_of_nil. split; [done|]. intros (_ & -> & w & Hw & _). congruence.
Qed.

Lemma Named_spec s n : Named s n = true ↔ n ∈ NamedArgs s.
Proof.
  unfold Named. rewrite existsb_elem. split.
  - intros (m & Hm & He). by apply String.eqb_eq in He as ->.
  - intros Hn. exists n. by rewrite String.eqb_refl.
Qed.

Lemma keys_of_map {V} (m : gmap string V) k :
  k ∈ map fst (map_to_list m) ↔ is_Some (m !! k).
Proof.
  rewrite <- elem_of_sortedKeys. unfold sortedKeys. by rewrite elem_of_sort_strings.
Qed.

Lemma ClassifyCommand_read `{Unicode} c :
  ClassifyCommand c ≠ ExecArbitrary → ClassifyCommand c ≠ ReadConfig →
  ClassifyCommand c = ReadOperational.
Proof.
  unfold ClassifyCommand. destruct (classifyCommand_result c) as [Hin _]. intros He Hr.
  repeat (apply elem_of_cons in Hin as [Hin|Hin]; [done|]). by apply not_elem_of_nil in Hin.
Qed.

(** What a batch class other than EXEC_ARBITRARY says of the commands. *)
Definition commands_read `{Unicode} (c : Class) (cmds : list string) : Prop :=
  cmds ≠ [] ∧ (∀ x, x ∈ cmds → ClassifyCommand x ≠ ExecArbitrary) ∧
  (c = ReadOperational → ∀ x, x ∈ cmds → ClassifyCommand x = ReadOperational) ∧
  (c = ReadConfig → ∃ x, x ∈ cmds ∧ ClassifyCommand x = ReadConfig).

Lemma classifyCommands_read `{Unicode} cmds c i k :
  classifyCommands cmds = (c, i, k) →
  c = ExecArbitrary ∨ (c = ReadOperational ∨ c = ReadConfig) ∧ commands_read c cmds.
Proof.
  destruct cmds as [|x cmds]; [intros [= <- _ _]; by left|]. unfold classifyCommands.
  destruct (classifyCommands_from_spec (x :: cmds) 0 ReadOperational)
    as [(l1 & d & l2 & _ & _ & _ & ->)|[Hall ->]]; [done|by left| |].
  { intros [= <- _ _]. by left. }
  destruct (existsb (λ c, String.eqb (ClassifyCommand c) ReadConfig) (x :: cmds)) eqn:He;
    intros [= <- _ _]; right; unfold commands_read.
  - split; [by right|]. split_and!; [done..|]. intros _.
    apply existsb_elem in He as (y & Hy & Hc). apply String.eqb_eq in Hc. eauto.
  - split; [by left|]. split_and!; [done..| |done]. intros _ y Hy.
    apply ClassifyCommand_read; [by apply Hall|].
    pose proof (proj1 (existsb_false_elem _ _) He y Hy) as Hn. by apply String.eqb_neq in Hn.
Qed.

(** ** Properties *)

(** The evidence for a class of a tool the profile names: what [classify_tool]
    guarantees of the arguments whenever the class is not EXEC_ARBITRARY. *)
Definition class_evidence `{Unicode, GoFloat} (p : Profile) (tool : string) (spec : ToolSpec)
    (args : arguments) (c : Class) : Prop :=
  if String.eqb (CapabilityParam spec) "" then
    (ConfigParams spec ≠ [] → spec_Class spec ≠ ExecArbitrary →
       checkConfigPayload p tool spec args = None) ∧
    (spec_Class spec = c ∨ c = ReadOperational ∨ c = ReadConfig) ∧
    (spec_Class spec = ExecArbitrary → contains (to_lower (Notes spec)) neverDowngrade = false) ∧
    (spec_Class spec ≠ c ∨ spec_Class spec = ReadOperational → CommandParams spec ≠ [] →
       commands_read c (spec_commands spec args))
  else ∃ id, arg args (CapabilityParam spec) = AStr id ∧
         default ∅ (Capabilities p !! CapabilityTable spec) !! id = Some c.

Lemma classify_tool_sound `{Unicode, GoFloat} p tool spec args c src why :
  classify_tool p tool spec args (spec_commands spec args) = (c, src, why) →
  c ≠ ExecArbitrary → class_evidence p tool spec args c.
Proof.
  unfold classify_tool, class_evidence. destruct (String.eqb_spec (CapabilityParam spec) "") as [Hc|Hc];
    cbn [negb].
  2:{ unfold classifyCapability. destruct (arg args (CapabilityParam spec)); cbn;
        try (by intros [= <- _ _]). destruct (_ !! s) eqn:E; intros [= <- _ _]; [eauto|done]. }
  set (failure := if _ && _ then _ else _).
  assert (Hf : failure = None → ConfigParams spec ≠ [] → spec_Class spec ≠ ExecArbitrary →
       checkConfigPayload p tool spec args = None).
  { unfold failure. destruct (String.eqb_spec (spec_Class spec) ExecArbitrary); [done|].
    by destruct (ConfigParams spec). }
  destruct failure; [by intros [= <- _ _]|]. specialize (Hf eq_refl).
  destruct (CommandParams spec) as [|cp cps] eqn:Hcp; cbn [List.length Nat.eqb].
  { intros [= <- _ _] Hne. split_and!; [done|by left|done|]. intros _ ?. done. }
  destruct (String.eqb_spec (spec_Class spec) ExecArbitrary) as [He|He].
  - destruct (contains _ _); [by intros [= <- _ _]|].
    destruct (classifyCommands _) as [[cc i] k] eqn:E.
    destruct (classifyCommands_read _ _ _ _ E) as [->|[Hcc Hr]]; [by intros [= <- _ _]|].
    destruct Hcc as [-> | ->]; cbn; intros [= <- _ _] Hne; split_and!; auto.
  - destruct (String.eqb_spec (spec_Class spec) ReadOperational) as [Ho|Ho].
    + destruct (classifyCommands _) as [[cc i] k] eqn:E.
      destruct (classifyCommands_read _ _ _ _ E) as [->|[Hcc Hr]]; [by intros [= <- _ _]|].
      rewrite Ho. destruct Hcc as [-> | ->]; cbn; intros [= <- _ _] Hne; split_and!; auto; done.
    + intros [= <- _ _] Hne. split_and!; [done|by left|done|]. intros [?|?]; done.
Qed.


(** A small profile for the examples: one exec tool, one read tool, one
    meta-tool. *)
Definition tool_spec (c : Class) (targets commands configs args : list string) (cp ct : string) :
    ToolSpec :=
  {| spec_Class := c; TargetParams := targets; TargetsParams := []; GroupParams := [];
     CommandParams := commands; ConfigParams := configs; Args := Some args; RefusedArgs := [];
     CapabilityParam := cp; CapabilityTable := ct; Notes := "" |}.

Definition sample_profile : Profile :=
  {| Server := "srv"; profile_Source := ""; Description := "";
     Capabilities := {[ "ops" := {[ "getDevice" := ReadOperational ]} ]};
     Tools := list_to_map [
       ("run", tool_spec ExecArbitrary ["host"] ["command"] [] ["timeout"] "" "");
       ("push", tool_spec WriteConfig ["host"] [] ["config"] [] "" "");
       ("api", tool_spec ExecArbitrary [] [] [] [] "capability_id" "ops")] |}.

Definition sample_args (cmd : string) : arguments :=
  list_to_map [("host", AStr "core-1"); ("command", AStr cmd)].

Example ex_classify_show :
  let r := @Classify ascii_tables plain_floats (Some sample_profile) "srv.run" (sample_args "show version") in
  (res_Class r, ClassSource r, Targets r, UnnamedArgs r) =
  (ReadOperational, SourceDowngrade, ["core-1"], []).
Proof. vm_compute. reflexivity. Qed.


(** [CheckArguments] is exact and independent of map order: its lists are
    sorted, an argument is reported unnamed exactly when the call carries it
    and the profile's entry does not name it, and malformed exactly when it is
    an inspected argument whose value is not text the upstream must take as
    text.  The arguments are accepted exactly when there is neither. *)
Theorem CheckArguments_correct p tool args :
  let '(unnamed, malformed) := CheckArguments (Some p) tool args in
  Sorted str_le unnamed ∧ Sorted str_le malformed ∧
  (∀ n, n ∈ unnamed ↔ is_Some (args !! n) ∧
     (∀ s, Lookup p tool = Some s → n ∉ NamedArgs s)) ∧
  (∀ n, n ∈ malformed ↔ ∃ s v, Lookup p tool = Some s ∧ args !! n = Some v ∧
     ((∃ config, inspected s config n ∧ malformed_value config v = true) ∨
      (n ≠ "" ∧ n = CapabilityParam s ∧ capability_value_bad v = true))).
Proof.
  unfold CheckArguments. split; [apply sort_strings_sorted|]. split; [apply sort_strings_sorted|].
  split; intros n; rewrite elem_of_sort_strings.
  - rewrite list_elem_of_In, List.filter_In, <- list_elem_of_In, keys_of_map.
    destruct (Lookup p tool) as [s|]; [|naive_solver].
    rewrite negb_true_iff, <- not_true_iff_false, Named_spec. naive_solver.
  - destruct (Lookup p tool) as [s|].
    2:{ rewrite elem_of_nil. split; [done|]. by intros (? & ? & [=] & _). }
    rewrite !elem_of_app, !elem_of_malformed_in, elem_of_malformed_capability.
    unfold inspected. split.
    + intros Hn. exists s.
      assert (Hcase : (∃ config v, inspected s config n ∧ args !! n = Some v ∧
                         malformed_value config v = true) ∨
        (∃ v, n ≠ "" ∧ n = CapabilityParam s ∧ args !! n = Some v ∧ capability_value_bad v = true)).
      { destruct Hn as [(Hn & v & ? & ?)|[(Hn & v & ? & ?)|[(Hn & v & ? & ?)|[(Hn & v & ? & ?)|
          [(Hn & v & ? & ?)|(? & ? & v & ? & ?)]]]]];
          [left; exists false, v; cbn; tauto..|left; exists true, v; cbn; tauto|right; eauto]. }
      destruct Hcase as [(config & v & ? & ? & ?)|(v & ? & ? & ? & ?)]; exists v;
        (split; [done|]; split; [done|]); [left; eauto|right; done].
    + intros (s' & v & [= <-] & Hv & [(config & Hi & Hm)|(Hne & Hc & Hb)]).
      * destruct config; [do 4 right; left; eauto|].
        destruct Hi as [|[|[|]]]; [left|right; left|do 2 right; left|do 3 right; left]; eauto.
      * do 5 right. eauto.
Qed.

(** The four ways a tool in the profile gets its class. *)
Lemma classify_tool_source `{Unicode, GoFloat} p tool spec args commands c src why :
  classify_tool p tool spec args commands = (c, src, why) →
  (src = SourceCapabilityTable) ∨
  (src = SourceProfile ∧ c = spec_Class spec) ∨
  (src = SourceDowngrade ∧ spec_Class spec = ExecArbitrary ∧ c = ReadOperational) ∨
  (src = SourceReclassify ∧ c ≠ spec_Class spec).
Proof.
  intros E. revert E. unfold classify_tool.
  destruct (negb (String.eqb (CapabilityParam spec) "")).
  { destruct (classifyCapability p spec args). intros [= _ <- _]. by left. }
  right. revert E.
  destruct (String.eqb_spec (spec_Class spec) ExecArbitrary) as [He|He]; cbn [negb andb].
  - destruct (_ =? _)%nat; [intros [= <- <- _]; by left|].
    destruct (contains _ _); [intros [= <- <- _]; by left|].
    destruct (classifyCommands _) as [[cc i] k]. rewrite He.
    destruct (String.eqb_spec cc ExecArbitrary); [intros [= <- <- _]; by left|].
    destruct (String.eqb_spec cc ReadOperational); [intros [= <- <- _]; by right; left|].
    destruct (String.eqb_spec cc ReadConfig); [intros [= <- <- _]; by right; right|].
    intros [= <- <- _]; by left.
  - destruct (if (0 <? _)%nat then _ else _); [intros [= <- <- _]; by right; right|].
    destruct (_ =? _)%nat; [intros [= <- <- _]; by left|].
    destruct (String.eqb_spec (spec_Class spec) ReadOperational) as [Ho|Ho];
      [|intros [= <- <- _]; by left].
    destruct (classifyCommands _) as [[cc i] k]. rewrite Ho.
    destruct (String.eqb_spec cc ExecArbitrary); [intros [= <- <- _]; by right; right|].
    destruct (String.eqb_spec cc ReadConfig); [intros [= <- <- _]; by right; right|].
    intros [= <- <- _]; by left.
Qed.

(** The source of a class says how it came about. *)
Record source_truthful (r : Result) : Prop := {
  src_known : ClassSource r ∈ Sources ∧ ClassSource r ≠ SourceAnnotationRaise;
  src_fallback : (ClassSource r = SourceFallback ↔ Known r = false) ∧ (Known r = false → res_Class r = ExecArbitrary);
  src_profile : ClassSource r = SourceProfile → res_Class r = ProfileClass r;
  src_downgrade : ClassSource r = SourceDowngrade → ProfileClass r = ExecArbitrary ∧ res_Class r = ReadOperational;
  src_reclassify : ClassSource r = SourceReclassify → res_Class r ≠ ProfileClass r;
  src_lowered : ProfileClass r = ExecArbitrary → res_Class r ≠ ExecArbitrary →
    ClassSource r ∈ [SourceCapabilityTable; SourceDowngrade; SourceReclassify];
}.

(** the class source is truthful: "fallback" exactly for a tool the
    profile does not name, "profile" when the profile's class stands,
    "downgrade" only from EXEC_ARBITRARY to READ_OPERATIONAL, "reclassify" only
    with a changed class, never the annotation raise; and a call is never
    lowered except to a read. *)
Theorem Classify_source `{Unicode, GoFloat} profile tool args : source_truthful (Classify profile tool args).
Proof.
  unfold Classify, Normalize. destruct (CheckArguments profile tool args) as [u m].
  assert (Hfb : ∀ why, source_truthful (fallback_result u m why)).
  { intros why. split; cbn; try done. split; [right; right; by left|done]. }
  destruct profile as [p|]; [|apply Hfb]. destruct (Lookup p tool) as [spec|]; [|apply Hfb].
  clear Hfb. destruct (classify_tool p tool spec args _) as [[c src] why] eqn:E. apply classify_tool_source in E.
  destruct E as [-> | [[-> ->] | [(-> & -> & ->) | [-> Hne]]]];
    split; cbn [res_Class ClassSource ProfileClass Known]; split_and?; try done;
    try (intros; congruence); try (by repeat (first [left | right])).
Qed.

(** The targets of a call: trimmed, non-empty, each once, and none lost. *)
Lemma spec_targets_spec `{Unicode, GoFloat} spec args :
  NoDup (spec_targets spec args) ∧
  ∀ t, t ∈ spec_targets spec args ↔ t ≠ "" ∧ ∃ v, t = trim_space v ∧
    (v ∈ param_values args (TargetParams spec) ∨ v ∈ param_values args (TargetsParams spec) ∨
     ∃ g, v = group_token g ∧ g ∈ param_values args (GroupParams spec)).
Proof.
  unfold spec_targets. destruct (foldl_targets_spec (param_values args (TargetParams spec) ++
    param_values args (TargetsParams spec) ++ map group_token (param_values args (GroupParams spec))) [])
    as [Hnd Hin]. split; [apply Hnd; constructor|].
  intros t. rewrite Hin. setoid_rewrite elem_of_app. setoid_rewrite elem_of_app.
  setoid_rewrite list_elem_of_fmap. rewrite elem_of_nil. naive_solver.
Qed.

(** the class of a meta-tool's call, for a validated profile, is exactly
    its capability table's answer: the listed class when the capability
    argument is a string in the table, byte for byte, and EXEC_ARBITRARY for
    anything else; the source says so, and no command or configuration rule
    has anything to read. *)
Theorem Classify_capability `{Unicode, GoFloat} p tool spec args :
  Validate p = None → Lookup p tool = Some spec → CapabilityParam spec ≠ "" →
  let r := Classify (Some p) tool args in
  res_Class r = match arg args (CapabilityParam spec) with
    | AStr id => default ExecArbitrary
        (default ∅ (Capabilities p !! CapabilityTable spec) !! id)
    | _ => ExecArbitrary end ∧
  ClassSource r = SourceCapabilityTable ∧ ProfileClass r = ExecArbitrary ∧
  Commands r = [] ∧ ConfigPayload r = "".
Proof.
  intros Hv Hl Hne. destruct (Validate_tool _ _ _ Hv Hl) as (_ & _ & [[? _]|(_ & _ & _ & He & Hc & Hf)]);
    [done|].
  cbv zeta. unfold Classify, Normalize. destruct (CheckArguments _ _ _). rewrite Hl.
  unfold classify_tool. destruct (String.eqb_spec (CapabilityParam spec) ""); [done|]. cbn [negb].
  destruct (classifyCapability p spec args) as [c why] eqn:E. cbn.
  unfold spec_commands, spec_payload, config_values. rewrite Hc, Hf. split_and!; try done.
  revert E. unfold classifyCapability. destruct (arg args (CapabilityParam spec)); try by intros [= <- _].
  destruct (_ !! s); by intros [= <- _].
Qed.

Lemma Classify_capability_witness :
  ∃ (HU : Unicode) (HF : GoFloat) spec, Validate sample_profile = None ∧
    let args := {[ "capability_id" := AStr "GetDevice" ]} in
    res_Class (Classify (Some sample_profile) "api" args) =
      match arg args (CapabilityParam spec) with
      | AStr id => default ExecArbitrary
          (default ∅ (Capabilities sample_profile !! CapabilityTable spec) !! id)
      | _ => ExecArbitrary end.
Proof.
  exists ascii_tables, plain_floats, (tool_spec ExecArbitrary [] [] [] [] "capability_id" "ops").
  split; [by vm_compute|].
  apply (@Classify_capability ascii_tables plain_floats); by vm_compute.
Defined.
