(* ===== verification/Policy.v ===== *)
(** * Policies: internal/policy/types.go and load.go

    The policy file as data, its validation and its loading.  An effect is its
    policy-file spelling, as in the source; a duration is its nanoseconds.  The
    YAML decoder is a parameter. *)

From S2P Require Import Prelude GoStd ToolClass GoPath.

Open Scope string_scope.
Open Scope Z_scope.
Open Scope list_scope.

Abbreviation Effect := string (only parsing).

Definition Allow : Effect := "allow".
Definition Hold : Effect := "hold".
Definition Deny : Effect := "deny".

Section Effects.
Context `{Unicode}.

Definition ParseEffect (s : string) : option Effect :=
  let t := to_lower (trim_space s) in
  if String.eqb t "allow" then Some Allow
  else if String.eqb t "hold" then Some Hold
  else if String.eqb t "deny" then Some Deny
  else None.

Definition effect_valid (e : Effect) : bool :=
  match ParseEffect e with Some _ => true | None => false end.

(** [UnmarshalYAML] on the scalar's text. *)
Definition unmarshal_effect (b : string) : option Effect :=
  ParseEffect (trim (cutset (String dquote (String "'" (String " "
    (String (ascii_of_nat 10) EmptyString))))) b).
End Effects.

Record SessionLimits := { MaxDevices : Z; MaxPending : Z }.
Record Defaults := { UnknownTarget : Effect; Session_limits : SessionLimits }.

Record Match := {
  m_Class : list Class;
  DeviceRoles : list string;
  DeviceTags : list string;
  m_Tools : list string;
  Servers : list string;
}.

Record Range := { GT : option Z; GTE : option Z; LT : option Z; LTE : option Z; EQ : option Z }.
Record When := { TargetsCount : option Range }.
Record Approval := { TTL : Z; ApproverMustDiffer : bool }.

Record Rule := {
  ID : string;
  rule_Match : Match;
  rule_When : option When;
  rule_Effect : Effect;
  rule_Reason : string;
  rule_Obligations : list string;
  rule_Approval : option Approval;
}.

Record Policy := { Version : Z; policy_Defaults : Defaults; Rules : list Rule }.

Record Target := {
  t_Name : string; t_Role : string; t_Tags : list string; t_Site : string; t_Known : bool }.
Record SessionCounters := { DevicesTouched : Z; PendingHolds : Z }.

Record Request := {
  req_Server : string;
  req_Tool : string;
  req_Class : Class;
  req_Targets : list Target;
  req_Session : SessionCounters;
}.

Record TraceEntry := { te_RuleID : string; Matched : bool; Note : string }.

Record Decision := {
  d_Effect : Effect;
  d_RuleID : string;
  d_Reason : string;
  d_Obligations : list string;
  d_Approval : option Approval;
  Trace : list TraceEntry;
}.

Definition RuleUnknownTarget : string := "default:unknown_target".
Definition RuleMaxDevices : string := "default:session.max_devices".
Definition RuleMaxPending : string := "default:session.max_pending".
Definition RuleNoMatch : string := "default:no-match".
Definition RuleBadArguments : string := "default:bad_arguments".

Definition KnownObligations : list string :=
  ["dry_run"; "diff"; "timed_rollback"; "redact"; "canary_first"; "require_ticket"; "notify"].

(** ** Ranges *)

(** A bound that is unset holds. *)
Definition bound (ok : Z → bool) (b : option Z) : bool :=
  match b with Some x => ok x | None => true end.

Definition Contains (r : option Range) (n : Z) : bool :=
  match r with
  | None => true
  | Some r =>
      if negb (bound (λ x, negb (n <=? x)) (GT r)) then false
      else if negb (bound (λ x, negb (n <? x)) (GTE r)) then false
      else if negb (bound (λ x, negb (n >=? x)) (LT r)) then false
      else if negb (bound (λ x, negb (n >? x)) (LTE r)) then false
      else bound (λ x, n =? x) (EQ r)
  end.

Definition range_empty (r : option Range) : bool :=
  match r with
  | None => true
  | Some {| GT := None; GTE := None; LT := None; LTE := None; EQ := None |} => true
  | _ => false
  end.

(** ** Validation *)

Inductive policy_error :=
  | PeVersion (v : Z)
  | PeUnknownTarget (e : Effect)
  | PeUnknownHold
  | PeNegativeLimit
  | PeNoRules
  | PeNoID
  | PeReserved (id : string)
  | PeEffect (id : string) (e : Effect)
  | PeClass (id : string) (c : Class)
  | PeGlob (id g : string)
  | PeObligation (id o : string)
  | PeApproval (id : string)
  | PeTTL (id : string)
  | PeRangeEmpty (id : string)
  | PeRangeNever (id : string)
  | PeDuplicate (id : string).

Section Load.
Context `{Unicode}.

Definition validate_count (id : string) (w : option When) : option policy_error :=
  match w with
  | Some {| TargetsCount := Some tc |} =>
      if range_empty (Some tc) then Some (PeRangeEmpty id)
      else match GT tc, LT tc with
           | Some g, Some l => if g >=? l then Some (PeRangeNever id) else None
           | _, _ => None
           end
  | _ => None
  end.

Definition rule_validate (r : Rule) : option policy_error :=
  let id := ID r in
  if String.eqb (trim_space id) "" then Some PeNoID
  else if has_prefix id "default:" then Some (PeReserved id)
  else if negb (effect_valid (rule_Effect r)) then Some (PeEffect id (rule_Effect r))
  else match first_error (λ c, if class_valid c then None else Some (PeClass id c))
               (m_Class (rule_Match r)) with
  | Some e => Some e
  | None =>
      match first_error
              (λ g, match path_match g "" with Some _ => None | None => Some (PeGlob id g) end)
              (m_Tools (rule_Match r) ++ Servers (rule_Match r)) with
      | Some e => Some e
      | None =>
          match first_error (λ o, if mem o KnownObligations then None else Some (PeObligation id o))
                  (rule_Obligations r) with
          | Some e => Some e
          | None =>
              match rule_Approval r with
              | Some a =>
                  if negb (String.eqb (rule_Effect r) Hold) then Some (PeApproval id)
                  else if TTL a <? 0 then Some (PeTTL id)
                  else validate_count id (rule_When r)
              | None => validate_count id (rule_When r)
              end
          end
      end
  end.

Fixpoint validate_rules (seen : list string) (rules : list Rule) : option policy_error :=
  match rules with
  | [] => None
  | r :: rules =>
      match rule_validate r with
      | Some e => Some e
      | None => if mem (ID r) seen then Some (PeDuplicate (ID r))
                else validate_rules (ID r :: seen) rules
      end
  end.

Definition policy_Validate (p : Policy) : option policy_error :=
  let d := policy_Defaults p in
  if negb (Version p =? 1) then Some (PeVersion (Version p))
  else if negb (String.eqb (UnknownTarget d) "") && negb (effect_valid (UnknownTarget d))
  then Some (PeUnknownTarget (UnknownTarget d))
  else if String.eqb (UnknownTarget d) Hold then Some PeUnknownHold
  else if (MaxDevices (Session_limits d) <? 0) || (MaxPending (Session_limits d) <? 0)
  then Some PeNegativeLimit
  else if (List.length (Rules p) =? 0)%nat then Some PeNoRules
  else validate_rules [] (Rules p).

(** [Parse], after the decoder: an unset unknown_target becomes deny. *)
Definition with_unknown_target (p : Policy) (e : Effect) : Policy :=
  {| Version := Version p;
     policy_Defaults := {| UnknownTarget := e; Session_limits := Session_limits (policy_Defaults p) |};
     Rules := Rules p |}.

Inductive policy_load_error := PlYaml | PlRead | PlInvalid (e : policy_error).

Context (unmarshal : string → option Policy) (read_file : string → option string).

Definition policy_Parse (b : string) : result policy_load_error Policy :=
  match unmarshal b with
  | None => Err PlYaml
  | Some p =>
      match policy_Validate p with
      | Some e => Err (PlInvalid e)
      | None => Ok (if String.eqb (UnknownTarget (policy_Defaults p)) ""
                    then with_unknown_target p Deny else p)
      end
  end.

Definition policy_Load (path : string) : result policy_load_error Policy :=
  match read_file path with
  | None => Err PlRead
  | Some b => policy_Parse b
  end.
End Load.

(** [Policy.Rule]. *)
Definition policy_Rule (p : Policy) (id : string) : option Rule :=
  List.find (λ r, String.eqb (ID r) id) (Rules p).

(** ** Lemmas *)

Lemma Contains_spec r n :
  Contains (Some r) n = true ↔
  (∀ x, GT r = Some x → x < n) ∧ (∀ x, GTE r = Some x → x <= n) ∧ (∀ x, LT r = Some x → n < x) ∧
  (∀ x, LTE r = Some x → n <= x) ∧ (∀ x, EQ r = Some x → n = x).
Proof.
  assert (Hb : ∀ ok P b, (∀ x, ok x = true ↔ P x) →
    bound ok b = true ↔ ∀ x, b = Some x → P x).
  { intros ok P [y|] Hok; cbn; [|naive_solver]. rewrite Hok. naive_solver. }
  unfold Contains. rewrite <- (Hb (λ x, negb (n <=? x))), <- (Hb (λ x, negb (n <? x))),
    <- (Hb (λ x, negb (n >=? x))), <- (Hb (λ x, negb (n >? x))), <- (Hb (λ x, n =? x)).
  - destruct (bound _ (GT r)), (bound _ (GTE r)), (bound _ (LT r)), (bound _ (LTE r)); cbn [negb];
      naive_solver.
  - intros x. apply Z.eqb_eq.
  - intros x. rewrite Z.gtb_ltb, negb_true_iff, Z.ltb_ge. lia.
  - intros x. rewrite Z.geb_leb, negb_true_iff, Z.leb_gt. lia.
  - intros x. rewrite negb_true_iff, Z.ltb_ge. lia.
  - intros x. rewrite negb_true_iff, Z.leb_gt. lia.
Qed.

(** What the range of a valid rule has to be. *)
Definition count_ok (w : option When) : Prop :=
  ∀ tc, (w ≫= TargetsCount) = Some tc →
    range_empty (Some tc) = false ∧ ∀ g l, GT tc = Some g → LT tc = Some l → g < l.

Lemma validate_count_spec id w : validate_count id w = None ↔ count_ok w.
Proof.
  unfold validate_count, count_ok. destruct w as [[[tc|]]|]; cbn [mbind option_bind TargetsCount]; [|naive_solver..].
  destruct (range_empty (Some tc)) eqn:He.
  { split; [done|]. intros H. destruct (H tc eq_refl). congruence. }
  destruct (GT tc) as [g|] eqn:Hg, (LT tc) as [l|] eqn:Hl.
  2,3,4: split; [|done]; intros _ tc' [= <-]; split; [done|]; intros; congruence.
  rewrite Z.geb_leb. destruct (Z.leb_spec l g).
  - split; [done|]. intros Hc. destruct (Hc tc eq_refl) as [_ Hlt].
    specialize (Hlt g l Hg Hl). lia.
  - split; [|done]. intros _ tc' [= <-]. split; [done|]. intros g' l' Hg' Hl'.
    rewrite Hg in Hg'. rewrite Hl in Hl'. by simplify_eq.
Qed.

(** What a rule of a loaded policy guarantees the evaluator. *)
Record rule_ok `{Unicode} (r : Rule) : Prop := {
  rule_id_named : trim_space (ID r) ≠ "";
  rule_id_free : has_prefix (ID r) "default:" = false;
  rule_effect_ok : effect_valid (rule_Effect r) = true;
  rule_classes_ok c : c ∈ m_Class (rule_Match r) → class_valid c = true;
  rule_globs_ok g : g ∈ m_Tools (rule_Match r) ++ Servers (rule_Match r) → path_match g "" ≠ None;
  rule_obligations_ok o : o ∈ rule_Obligations r → o ∈ KnownObligations;
  rule_approval_ok a : rule_Approval r = Some a → rule_Effect r = Hold ∧ 0 <= TTL a;
  rule_count_ok : count_ok (rule_When r);
}.

Lemma first_error_test {A E} (ok : A → bool) (e : A → E) l :
  first_error (λ x, if ok x then None else Some (e x)) l = None ↔ ∀ x, x ∈ l → ok x = true.
Proof.
  rewrite first_error_None. split; intros H x Hx; specialize (H x Hx); by destruct (ok x).
Qed.

Lemma rule_validate_spec `{Unicode} r : rule_validate r = None ↔ rule_ok r.
Proof.
  unfold rule_validate. cbv zeta.
  destruct (String.eqb_spec (trim_space (ID r)) ""); [split; [done|by intros []]|].
  destruct (has_prefix (ID r) "default:") eqn:Hp; [split; [done|intros []; congruence]|].
  destruct (effect_valid (rule_Effect r)) eqn:He; cbn [negb]; [|split; [done|intros []; congruence] ].
  destruct (first_error _ (m_Class (rule_Match r))) eqn:Hc.
  { split; [done|]. intros [_ _ _ Hcl _ _ _ _]. apply first_error_Some in Hc as (l1 & c & l2 & Hl & Hc & _).
    rewrite Hcl in Hc; [done|]. rewrite Hl, elem_of_app. right. by left. }
  rewrite first_error_test in Hc.
  destruct (first_error _ (_ ++ _)) eqn:Hg.
  { split; [done|]. intros [_ _ _ _ Hgl _ _ _]. apply first_error_Some in Hg as (l1 & g & l2 & Hl & Hg & _).
    specialize (Hgl g). rewrite Hl, elem_of_app in Hgl. destruct (path_match g ""); [done|].
    destruct Hgl; [|done]. right. by left. }
  rewrite first_error_None in Hg.
  destruct (first_error _ (rule_Obligations r)) eqn:Ho.
  { split; [done|]. intros [_ _ _ _ _ Hob _ _]. apply first_error_Some in Ho as (l1 & o & l2 & Hl & Ho & _).
    rewrite (proj2 (mem_true o KnownObligations)) in Ho; [done|]. apply Hob. rewrite Hl, elem_of_app.
    right. by left. }
  rewrite first_error_test in Ho.
  assert (Hall : count_ok (rule_When r) →
    (∀ a, rule_Approval r = Some a → rule_Effect r = Hold ∧ 0 <= TTL a) → rule_ok r).
  { intros Hw Ha. constructor; try done.
    - intros g Hin Hn. specialize (Hg g Hin). by rewrite Hn in Hg.
    - intros o Hin. by apply mem_true, Ho. }
  destruct (rule_Approval r) as [a|] eqn:Ha.
  - destruct (String.eqb_spec (rule_Effect r) Hold); cbn [negb];
      [|split; [done|]; intros []; by destruct (rule_approval_ok0 a Ha)].
    destruct (Z.ltb_spec (TTL a) 0);
      [split; [done|]; intros []; destruct (rule_approval_ok0 a Ha); lia|].
    rewrite validate_count_spec. split; [|by intros []]. intros Hw. apply Hall; [done|].
    intros a' [= <-]. done.
  - rewrite validate_count_spec. split; [|by intros []]. intros Hw. by apply Hall.
Qed.

Lemma validate_rules_spec `{Unicode} seen rules :
  validate_rules seen rules = None ↔
  (∀ r, r ∈ rules → rule_ok r) ∧ NoDup (map ID rules) ∧ (∀ r, r ∈ rules → ID r ∉ seen).
Proof.
  revert seen. induction rules as [|r rules IH]; intros seen; cbn [validate_rules map].
  { split; [|done]. split; [by intros ? ?%not_elem_of_nil|]. split; [constructor|].
    by intros ? ?%not_elem_of_nil. }
  pose proof (rule_validate_spec r) as Hr. setoid_rewrite elem_of_cons.
  destruct (rule_validate r); [split; [done|]; intros [H1 _]; by apply Hr, H1; left|].
  destruct (mem (ID r) seen) eqn:Hm.
  { apply mem_true in Hm. split; [done|]. intros (_ & _ & H1). by destruct (H1 r); [left|]. }
  apply mem_false in Hm. rewrite IH, NoDup_cons, list_elem_of_fmap. split.
  - intros (H1 & H2 & H3). split; [|split; [split; [|done]|]].
    + intros x [->|Hx]; [by apply Hr|by apply H1].
    + intros (x & Heq & Hx). apply (H3 x Hx). rewrite Heq. by left.
    + intros x [->|Hx]; [done|]. specialize (H3 x Hx). by apply not_elem_of_cons in H3 as [_ ?].
  - intros (H1 & [H2 H2'] & H3). split; [auto|]. split; [done|]. intros x Hx.
    apply not_elem_of_cons. split; [|by auto]. intros Heq. apply H2. by exists x.
Qed.

(** [Validate] accepts a policy exactly when it has version 1, an
    unknown_target that is unset, allow or deny, non-negative session limits
    and at least one rule, its rule ids are distinct, named and outside the
    reserved prefix, and every rule has a known effect, known classes,
    well-formed globs, known obligations, an approval only on a hold and a
    satisfiable range check. *)
Theorem policy_Validate_correct `{Unicode} (p : Policy) :
  policy_Validate p = None ↔
  Version p = 1 ∧
  (UnknownTarget (policy_Defaults p) = "" ∨ effect_valid (UnknownTarget (policy_Defaults p)) = true) ∧
  UnknownTarget (policy_Defaults p) ≠ Hold ∧
  0 <= MaxDevices (Session_limits (policy_Defaults p)) ∧
  0 <= MaxPending (Session_limits (policy_Defaults p)) ∧
  Rules p ≠ [] ∧ NoDup (map ID (Rules p)) ∧ (∀ r, r ∈ Rules p → rule_ok r).
Proof.
  unfold policy_Validate. cbv zeta.
  destruct (Z.eqb_spec (Version p) 1); cbn [negb]; [|naive_solver].
  destruct (String.eqb_spec (UnknownTarget (policy_Defaults p)) ""),
    (effect_valid (UnknownTarget (policy_Defaults p))) eqn:He; cbn [negb andb];
    try (split; [done|naive_solver]);
  (destruct (String.eqb_spec (UnknownTarget (policy_Defaults p)) Hold); [naive_solver|];
   destruct (Z.ltb_spec (MaxDevices (Session_limits (policy_Defaults p))) 0); [split; [done|lia]|];
   destruct (Z.ltb_spec (MaxPending (Session_limits (policy_Defaults p))) 0); [split; [done|lia]|];
   cbn [orb]; destruct (Rules p) as [|r rs] eqn:Hr; [naive_solver|];
   cbn [List.length Nat.eqb]; rewrite validate_rules_spec; split;
   [intros (? & ? & _); split_and!; auto|
    intros (_ & _ & _ & _ & _ & _ & ? & ?); split_and!; [done..|];
    intros ? ? ?%not_elem_of_nil; done]).
Qed.
