(* ===== verification/Evaluate.v ===== *)
(** * Policy evaluation: internal/policy/evaluate.go

    [Evaluate] with its whole trace.  Counters are Go ints: the device total
    wraps at 64 bits. *)

From S2P Require Import Prelude GoStd ToolClass GoPath Policy.

Open Scope string_scope.
Open Scope Z_scope.
Open Scope list_scope.

(** The int64 with the given value modulo 2^64. *)
Definition int64 (z : Z) : Z := (z + 2 ^ 63) mod 2 ^ 64 - 2 ^ 63.

Definition unknownTargets (ts : list Target) : list string :=
  map t_Name (List.filter (λ t, negb (t_Known t)) ts).

Definition glob_ok (p s : string) : bool :=
  match path_match p s with Some true => true | _ => String.eqb p s end.

Definition globAny (patterns : list string) (s : string) : bool :=
  existsb (λ p, glob_ok p s) patterns.

Definition anyIn (have want : list string) : bool := existsb (λ h, mem h want) have.

Definition joinClasses (cs : list Class) : string := ("[" ++ join " " cs ++ "]")%string.

Definition bare_tool (r : Request) : string :=
  if String.eqb (req_Server r) "" then req_Tool r
  else trim_prefix (req_Tool r) (req_Server r ++ ".").

Definition target_count (r : Request) : Z := Z.of_nat (List.length (req_Targets r)).

Section Evaluate.
Context `{Unicode}.

(** The first target a test rejects. *)
Definition first_bad (ok : Target → bool) (ts : list Target) : option Target :=
  List.find (λ t, negb (ok t)) ts.

Definition match_roles (m : Match) (r : Request) : option string :=
  if (List.length (DeviceRoles m) =? 0)%nat then None
  else if (List.length (req_Targets r) =? 0)%nat
  then Some "device_roles set but request has no targets"
  else match first_bad (λ t, mem (t_Role t) (DeviceRoles m)) (req_Targets r) with
       | Some t => Some ("target " ++ t_Name t ++ " role " ++ quote (t_Role t) ++ " not in " ++
                         show_strings (DeviceRoles m))%string
       | None => None
       end.

Definition match_tags (m : Match) (r : Request) : option string :=
  if (List.length (DeviceTags m) =? 0)%nat then None
  else if (List.length (req_Targets r) =? 0)%nat
  then Some "device_tags set but request has no targets"
  else match first_bad (λ t, anyIn (t_Tags t) (DeviceTags m)) (req_Targets r) with
       | Some t => Some ("target " ++ t_Name t ++ " tags " ++ show_strings (t_Tags t) ++
                         " have none of " ++ show_strings (DeviceTags m))%string
       | None => None
       end.

Definition match_count (rule : Rule) (r : Request) : option string :=
  match rule_When rule with
  | Some {| TargetsCount := Some rg |} =>
      if Contains (Some rg) (target_count r) then None
      else Some ("targets_count " ++ itoa (target_count r) ++ " outside range")%string
  | _ => None
  end.

(** The note of the first failing matcher; [None] when the rule selects the
    request. *)
Definition mismatch (rule : Rule) (r : Request) : option string :=
  let m := rule_Match rule in
  if (0 <? List.length (m_Class m))%nat && negb (mem (req_Class r) (m_Class m))
  then Some ("class " ++ req_Class r ++ " not in " ++ joinClasses (m_Class m))%string
  else if (0 <? List.length (Servers m))%nat && negb (globAny (Servers m) (req_Server r))
  then Some ("server " ++ quote (req_Server r) ++ " not in " ++ show_strings (Servers m))%string
  else if (0 <? List.length (m_Tools m))%nat &&
          negb (globAny (m_Tools m) (bare_tool r)) &&
          negb (globAny (m_Tools m) (req_Server r ++ "." ++ bare_tool r))
  then Some ("tool " ++ quote (req_Tool r) ++ " not in " ++ show_strings (m_Tools m))%string
  else match match_roles m r with
       | Some note => Some note
       | None => match match_tags m r with
                 | Some note => Some note
                 | None => match_count rule r
                 end
       end.

(** [Rule.matches]. *)
Definition rule_matches (rule : Rule) (r : Request) : bool * string :=
  match mismatch rule r with
  | Some note => (false, note)
  | None => (true, "matched")
  end.

Definition deny_decision (id reason : string) (trace : list TraceEntry) : Decision :=
  {| d_Effect := Deny; d_RuleID := id; d_Reason := reason; d_Obligations := []; d_Approval := None;
     Trace := trace ++ [ {| te_RuleID := id; Matched := true; Note := reason |} ] |}.

(** The decision of the rule that matched, with the pending cap on holds. *)
Definition apply_rule (p : Policy) (r : Request) (rule : Rule) (trace : list TraceEntry) : Decision :=
  let d := {| d_Effect := rule_Effect rule; d_RuleID := ID rule; d_Reason := rule_Reason rule;
              d_Obligations := rule_Obligations rule; d_Approval := rule_Approval rule;
              Trace := trace |} in
  let max := MaxPending (Session_limits (policy_Defaults p)) in
  let pending := PendingHolds (req_Session r) in
  if String.eqb (rule_Effect rule) Hold && (max >? 0) && (pending >=? max) then
    let reason := ("rule " ++ ID rule ++ " would hold but " ++ itoa pending ++
                   " holds are already pending, cap is " ++ itoa max)%string in
    {| d_Effect := Deny; d_RuleID := RuleMaxPending; d_Reason := reason;
       d_Obligations := rule_Obligations rule; d_Approval := None;
       Trace := trace ++ [ {| te_RuleID := RuleMaxPending; Matched := true; Note := reason |} ] |}
  else d.

Fixpoint eval_rules (p : Policy) (r : Request) (trace : list TraceEntry) (rules : list Rule) : Decision :=
  match rules with
  | [] => deny_decision RuleNoMatch "no rule matched" trace
  | rule :: rules =>
      let '(ok, note) := rule_matches rule r in
      let trace := trace ++ [ {| te_RuleID := ID rule; Matched := ok; Note := note |} ] in
      if ok then apply_rule p r rule trace else eval_rules p r trace rules
  end.

Definition device_total (r : Request) : Z :=
  int64 (DevicesTouched (req_Session r) + target_count r).

Definition eval_session (p : Policy) (r : Request) (trace : list TraceEntry) : Decision :=
  let max := MaxDevices (Session_limits (policy_Defaults p)) in
  if max >? 0 then
    let total := device_total r in
    if total >? max
    then deny_decision RuleMaxDevices
           ("session would touch " ++ itoa total ++ " devices, cap is " ++ itoa max)%string trace
    else eval_rules p r
           (trace ++ [ {| te_RuleID := RuleMaxDevices; Matched := false;
                          Note := (itoa total ++ " of " ++ itoa max ++ " devices")%string |} ])
           (Rules p)
  else eval_rules p r trace (Rules p).

Definition Evaluate (p : option Policy) (r : Request) : Decision :=
  match p with
  | None => deny_decision RuleNoMatch "no policy loaded" []
  | Some p =>
      let unknown := unknownTargets (req_Targets r) in
      if (0 <? List.length unknown)%nat then
        let note := ("unknown targets: " ++ join ", " unknown)%string in
        if negb (String.eqb (UnknownTarget (policy_Defaults p)) Allow)
        then deny_decision RuleUnknownTarget
               (note ++ "; a device absent from inventory is not a device the agent may touch")%string []
        else eval_session p r
               [ {| te_RuleID := RuleUnknownTarget; Matched := false;
                    Note := (note ++ "; unknown_target: allow, " ++ req_Class r ++
                             " continues to rules")%string |} ]
      else eval_session p r []
  end.
End Evaluate.

(** ** The specification: which requests a rule selects, and which outcome a
    policy gives *)

Definition any_of {A} (l : list A) (P : A → Prop) : Prop := l = [] ∨ ∃ x, x ∈ l ∧ P x.

Definition all_targets (want : list string) (r : Request) (ok : Target → Prop) : Prop :=
  want = [] ∨ (req_Targets r ≠ [] ∧ ∀ t, t ∈ req_Targets r → ok t).

Definition in_count (rule : Rule) (n : Z) : Prop :=
  ∀ rg, (rule_When rule ≫= TargetsCount) = Some rg → Contains (Some rg) n = true.

(** Every matcher of the rule holds. *)
Record selects (rule : Rule) (r : Request) : Prop := {
  sel_class : any_of (m_Class (rule_Match rule)) (eq (req_Class r));
  sel_server : any_of (Servers (rule_Match rule)) (λ p, glob_ok p (req_Server r) = true);
  sel_tool : any_of (m_Tools (rule_Match rule)) (λ p,
    glob_ok p (bare_tool r) = true ∨ glob_ok p (req_Server r ++ "." ++ bare_tool r)%string = true);
  sel_roles : all_targets (DeviceRoles (rule_Match rule)) r
    (λ t, t_Role t ∈ DeviceRoles (rule_Match rule));
  sel_tags : all_targets (DeviceTags (rule_Match rule)) r
    (λ t, ∃ tag, tag ∈ t_Tags t ∧ tag ∈ DeviceTags (rule_Match rule));
  sel_count : in_count rule (target_count r);
}.

(** The outcome of a decision, without its text. *)
Definition outcome : Type := Effect * string * list string * option Approval.

Definition outcome_of (d : Decision) : outcome :=
  (d_Effect d, d_RuleID d, d_Obligations d, d_Approval d).

Definition targets_ok (p : Policy) (r : Request) : Prop :=
  (∀ t, t ∈ req_Targets r → t_Known t = true) ∨ UnknownTarget (policy_Defaults p) = Allow.

Definition devices_ok (p : Policy) (r : Request) : Prop :=
  let max := MaxDevices (Session_limits (policy_Defaults p)) in
  max <= 0 ∨ device_total r <= max.

Definition holds_full (p : Policy) (r : Request) : Prop :=
  let max := MaxPending (Session_limits (policy_Defaults p)) in
  0 < max <= PendingHolds (req_Session r).

(** [decides p r o]: the outcome [o] is the one the policy's documentation
    gives: no policy, unknown target, device cap, first matching rule with the
    pending cap on holds, no match. *)
Inductive decides : option Policy → Request → outcome → Prop :=
  | D_no_policy r : decides None r (Deny, RuleNoMatch, [], None)
  | D_unknown p r t :
      t ∈ req_Targets r → t_Known t = false → UnknownTarget (policy_Defaults p) ≠ Allow →
      decides (Some p) r (Deny, RuleUnknownTarget, [], None)
  | D_devices p r :
      targets_ok p r → ¬ devices_ok p r → decides (Some p) r (Deny, RuleMaxDevices, [], None)
  | D_rule p r pre rule post :
      targets_ok p r → devices_ok p r → Rules p = pre ++ rule :: post →
      (∀ x, x ∈ pre → ¬ selects x r) → selects rule r →
      ¬ (rule_Effect rule = Hold ∧ holds_full p r) →
      decides (Some p) r
        (rule_Effect rule, ID rule, rule_Obligations rule, rule_Approval rule)
  | D_pending p r pre rule post :
      targets_ok p r → devices_ok p r → Rules p = pre ++ rule :: post →
      (∀ x, x ∈ pre → ¬ selects x r) → selects rule r →
      rule_Effect rule = Hold → holds_full p r →
      decides (Some p) r (Deny, RuleMaxPending, rule_Obligations rule, None)
  | D_no_match p r :
      targets_ok p r → devices_ok p r → (∀ x, x ∈ Rules p → ¬ selects x r) →
      decides (Some p) r (Deny, RuleNoMatch, [], None).

(** ** Lemmas *)

Lemma any_of_globs l (ok : string → bool) :
  (0 <? List.length l)%nat && negb (existsb ok l) = false ↔ any_of l (λ p, ok p = true).
Proof.
  unfold any_of. destruct l as [|x l]; [naive_solver|]. cbn [List.length Nat.ltb Nat.leb andb].
  rewrite negb_false_iff, existsb_elem. naive_solver.
Qed.

Lemma first_bad_None ok ts : first_bad ok ts = None ↔ ∀ t, t ∈ ts → ok t = true.
Proof.
  unfold first_bad. split.
  - intros Hf t Ht%list_elem_of_In. pose proof (List.find_none _ _ Hf t Ht) as Hn.
    by apply negb_false_iff in Hn.
  - intros Hall. destruct (List.find _ ts) as [t|] eqn:E; [|done].
    apply List.find_some in E as [Hin Hn]. apply list_elem_of_In in Hin.
    rewrite (Hall t Hin) in Hn. done.
Qed.

Section Spec.
Context `{Unicode}.

Lemma match_roles_spec m r :
  match_roles m r = None ↔ all_targets (DeviceRoles m) r (λ t, t_Role t ∈ DeviceRoles m).
Proof.
  unfold match_roles, all_targets. destruct (Nat.eqb_spec (List.length (DeviceRoles m)) 0) as [H0|H0].
  { apply nil_length_inv in H0. naive_solver. }
  assert (Hne : DeviceRoles m ≠ []) by (intros E; by rewrite E in H0).
  destruct (req_Targets r) as [|t ts]; [naive_solver|].
  cbn [List.length Nat.eqb]. pose proof (first_bad_None (λ t, mem (t_Role t) (DeviceRoles m)) (t :: ts)) as Hf.
  setoid_rewrite mem_true in Hf. destruct (first_bad _ _); naive_solver.
Qed.

Lemma match_tags_spec m r :
  match_tags m r = None ↔
  all_targets (DeviceTags m) r (λ t, ∃ tag, tag ∈ t_Tags t ∧ tag ∈ DeviceTags m).
Proof.
  unfold match_tags, all_targets. destruct (Nat.eqb_spec (List.length (DeviceTags m)) 0) as [H0|H0].
  { apply nil_length_inv in H0. naive_solver. }
  assert (Hne : DeviceTags m ≠ []) by (intros E; by rewrite E in H0).
  destruct (req_Targets r) as [|t ts]; [naive_solver|].
  cbn [List.length Nat.eqb].
  pose proof (first_bad_None (λ t, anyIn (t_Tags t) (DeviceTags m)) (t :: ts)) as Hf.
  unfold anyIn in Hf at 2. setoid_rewrite existsb_elem in Hf. setoid_rewrite mem_true in Hf.
  destruct (first_bad _ _); naive_solver.
Qed.

Lemma match_count_spec rule r : match_count rule r = None ↔ in_count rule (target_count r).
Proof.
  unfold match_count, in_count. destruct (rule_When rule) as [[[rg|]]|];
    cbn [mbind option_bind TargetsCount]; [|naive_solver..].
  destruct (Contains (Some rg) (target_count r)) eqn:E.
  - split; [|done]. by intros _ rg' [= <-].
  - split; [done|]. intros Hc. specialize (Hc rg eq_refl). congruence.
Qed.

Lemma mismatch_spec rule r : mismatch rule r = None ↔ selects rule r.
Proof.
  unfold mismatch. cbv zeta.
  assert (Hsel : selects rule r ↔
    (0 <? List.length (m_Class (rule_Match rule)))%nat && negb (mem (req_Class r) (m_Class (rule_Match rule))) = false ∧
    (0 <? List.length (Servers (rule_Match rule)))%nat && negb (globAny (Servers (rule_Match rule)) (req_Server r)) = false ∧
    (0 <? List.length (m_Tools (rule_Match rule)))%nat && negb (globAny (m_Tools (rule_Match rule)) (bare_tool r)) &&
      negb (globAny (m_Tools (rule_Match rule)) (req_Server r ++ "." ++ bare_tool r)) = false ∧
    match_roles (rule_Match rule) r = None ∧ match_tags (rule_Match rule) r = None ∧
    match_count rule r = None).
  { rewrite match_roles_spec, match_tags_spec, match_count_spec.
    unfold globAny. rewrite (any_of_globs (Servers _)), <- andb_assoc, <- negb_orb.
    assert (Ht : ∀ l : list string, existsb (λ p, glob_ok p (bare_tool r)) l ||
        existsb (λ p, glob_ok p (req_Server r ++ "." ++ bare_tool r)) l =
      existsb (λ p, glob_ok p (bare_tool r) || glob_ok p (req_Server r ++ "." ++ bare_tool r)) l).
    { induction l as [|x l IH]; cbn [existsb]; [done|]. rewrite <- IH. by repeat case_match || destruct (existsb _ l), (glob_ok x _). }
    rewrite Ht, any_of_globs. unfold any_of at 2. setoid_rewrite orb_true_iff.
    assert (Hc : any_of (m_Class (rule_Match rule)) (eq (req_Class r)) ↔
      (0 <? List.length (m_Class (rule_Match rule)))%nat && negb (mem (req_Class r) (m_Class (rule_Match rule))) = false).
    { unfold any_of. destruct (m_Class (rule_Match rule)) as [|c l]; [naive_solver|].
      cbn [List.length Nat.ltb Nat.leb andb]. rewrite negb_false_iff, mem_true. naive_solver. }
    rewrite <- Hc. split; [intros []; auto 10|]. intros (? & ? & ? & ? & ? & ?). by constructor. }
  rewrite Hsel. clear Hsel.
  destruct (_ && negb (mem _ _)); [naive_solver|]. destruct (_ && negb (globAny (Servers _) _)); [naive_solver|].
  destruct (_ && _ && _); [naive_solver|]. destruct (match_roles _ _); [naive_solver|].
  destruct (match_tags _ _); naive_solver.
Qed.
End Spec.

Section Correct.
Context `{Unicode}.

Lemma rule_matches_spec rule r : fst (rule_matches rule r) = true ↔ selects rule r.
Proof. unfold rule_matches. rewrite <- mismatch_spec. destruct (mismatch rule r); naive_solver. Qed.

Lemma unknownTargets_nil ts :
  (0 <? List.length (unknownTargets ts))%nat = false ↔ ∀ t, t ∈ ts → t_Known t = true.
Proof.
  unfold unknownTargets. rewrite length_map. induction ts as [|t ts IH]; cbn [List.filter].
  { split; [by intros _ ? ?%not_elem_of_nil|done]. }
  setoid_rewrite elem_of_cons. destruct (t_Known t) eqn:Ht; cbn [negb].
  - rewrite IH. naive_solver.
  - split; [done|]. intros Hk. specialize (Hk t). rewrite Hk in Ht by auto. done.
Qed.

Definition rules_outcome (p : Policy) (r : Request) (rules : list Rule) (o : outcome) : Prop :=
  (∃ pre rule post, rules = pre ++ rule :: post ∧ (∀ x, x ∈ pre → ¬ selects x r) ∧ selects rule r ∧
     ((rule_Effect rule = Hold ∧ holds_full p r ∧ o = (Deny, RuleMaxPending, rule_Obligations rule, None)) ∨
      (¬ (rule_Effect rule = Hold ∧ holds_full p r) ∧
       o = (rule_Effect rule, ID rule, rule_Obligations rule, rule_Approval rule)))) ∨
  ((∀ x, x ∈ rules → ¬ selects x r) ∧ o = (Deny, RuleNoMatch, [], None)).

Lemma apply_rule_outcome p r rule trace :
  (rule_Effect rule = Hold ∧ holds_full p r ∧
   outcome_of (apply_rule p r rule trace) = (Deny, RuleMaxPending, rule_Obligations rule, None)) ∨
  (¬ (rule_Effect rule = Hold ∧ holds_full p r) ∧
   outcome_of (apply_rule p r rule trace) =
     (rule_Effect rule, ID rule, rule_Obligations rule, rule_Approval rule)).
Proof.
  unfold apply_rule, holds_full. cbv zeta. rewrite Z.gtb_ltb, Z.geb_leb.
  destruct (String.eqb_spec (rule_Effect rule) Hold); cbn [andb]; [|right; naive_solver].
  destruct (Z.ltb_spec 0 (MaxPending (Session_limits (policy_Defaults p)))); cbn [andb];
    [|right; split; [lia|done]].
  destruct (Z.leb_spec (MaxPending (Session_limits (policy_Defaults p))) (PendingHolds (req_Session r)));
    [left; split_and!; [done..|lia|done|done]|right; split; [lia|done] ].
Qed.

Lemma eval_rules_outcome p r rules trace :
  rules_outcome p r rules (outcome_of (eval_rules p r trace rules)).
Proof.
  revert trace. induction rules as [|rule rules IH]; intros trace; cbn [eval_rules].
  { right. split; [by intros ? ?%not_elem_of_nil|done]. }
  pose proof (rule_matches_spec rule r) as Hm. destruct (rule_matches rule r) as [ok note].
  cbn [fst] in Hm. destruct ok.
  - left. exists [], rule, rules. split; [done|]. split; [by intros ? ?%not_elem_of_nil|].
    split; [by apply Hm|]. apply apply_rule_outcome.
  - assert (Hn : ¬ selects rule r) by (intros Hs; by apply Hm in Hs).
    destruct (IH (trace ++ [ {| te_RuleID := ID rule; Matched := false; Note := note |} ]))
      as [(pre & x & post & -> & Hpre & Hx & Ho)|[Hall Ho]].
    + left. exists (rule :: pre), x, post. split; [done|]. split; [|done].
      intros y [->|Hy]%elem_of_cons; auto.
    + right. split; [|done]. intros y [->|Hy]%elem_of_cons; auto.
Qed.

Lemma decides_rules p r o :
  targets_ok p r → devices_ok p r → rules_outcome p r (Rules p) o → decides (Some p) r o.
Proof.
  intros Ht Hd [(pre & rule & post & Hr & Hpre & Hs & [(He & Hf & ->)|[Hn ->]])|[Hall ->]].
  - by eapply D_pending.
  - by eapply D_rule.
  - by apply D_no_match.
Qed.

Lemma eval_session_decides p r trace :
  targets_ok p r → decides (Some p) r (outcome_of (eval_session p r trace)).
Proof.
  intros Ht. unfold eval_session. cbv zeta. rewrite !Z.gtb_ltb.
  destruct (Z.ltb_spec 0 (MaxDevices (Session_limits (policy_Defaults p)))) as [Hm|Hm].
  - destruct (Z.ltb_spec (MaxDevices (Session_limits (policy_Defaults p))) (device_total r)) as [Hd|Hd].
    + apply D_devices; [done|]. unfold devices_ok. lia.
    + apply decides_rules; [done|unfold devices_ok; lia|apply eval_rules_outcome].
  - apply decides_rules; [done|unfold devices_ok; lia|apply eval_rules_outcome].
Qed.

Lemma Evaluate_decides p r : decides p r (outcome_of (Evaluate p r)).
Proof.
  unfold Evaluate. destruct p as [p|]; [|apply D_no_policy]. cbv zeta.
  pose proof (unknownTargets_nil (req_Targets r)) as Hu.
  destruct (0 <? _)%nat eqn:E.
  - destruct (String.eqb_spec (UnknownTarget (policy_Defaults p)) Allow) as [Ha|Ha]; cbn [negb].
    + apply eval_session_decides. by right.
    + destruct (forallb t_Known (req_Targets r)) eqn:Hf.
      { rewrite forallb_elem in Hf. by apply Hu in Hf. }
      assert (Hex : existsb (λ t, negb (t_Known t)) (req_Targets r) = true).
      { clear -Hf. induction (req_Targets r) as [|t ts IH]; [done|]. cbn in *.
        destruct (t_Known t); [by apply IH|done]. }
      apply existsb_elem in Hex as (t & Ht & Hk). apply negb_true_iff in Hk. by eapply D_unknown.
  - apply eval_session_decides. left. by apply Hu.
Qed.
End Correct.

(** The first rule that selects a request is unique. *)
Lemma first_selected_unique r rules pre1 x1 post1 pre2 x2 post2 :
  rules = pre1 ++ x1 :: post1 → rules = pre2 ++ x2 :: post2 →
  (∀ x, x ∈ pre1 → ¬ selects x r) → (∀ x, x ∈ pre2 → ¬ selects x r) →
  selects x1 r → selects x2 r → x1 = x2.
Proof.
  intros -> Heq H1 H2 Hs1 Hs2. revert pre2 Heq H2. induction pre1 as [|y pre1 IH]; intros [|z pre2] Heq H2;
    cbn in Heq; simplify_eq; [done| | |].
  - exfalso. by apply (H2 z); [left|].
  - exfalso. by apply (H1 x2); [left|].
  - eapply IH; [|done|]; intros x Hx; [apply H1|apply H2]; by right.
Qed.

Lemma decides_functional p r o1 o2 : decides p r o1 → decides p r o2 → o1 = o2.
Proof.
  assert (Hbad : ∀ p t, t ∈ req_Targets r → t_Known t = false →
    UnknownTarget (policy_Defaults p) ≠ Allow → targets_ok p r → False).
  { intros q t Ht Hk Hu [Ha|Ha]; [|done]. by rewrite Ha in Hk. }
  assert (Hnone : ∀ rules pre rule post, rules = pre ++ rule :: post → selects rule r →
    (∀ x, x ∈ rules → ¬ selects x r) → False).
  { intros rules pre rule post -> Hs Hn. apply (Hn rule); [|done]. rewrite elem_of_app. right. by left. }
  intros Hd1 Hd2; destruct Hd1; inversion Hd2; subst; try done; try (exfalso; by eauto);
    match goal with
    | A : Rules ?p = _ ++ ?x :: _, B : Rules ?p = _ ++ ?y :: _ |- _ =>
        assert (x = y) as -> by (by eapply (first_selected_unique _ (Rules p))); try done;
        exfalso; naive_solver
    end.
Qed.

(** C3: evaluation refines the documented policy semantics, which is a
    function: the outcome (effect, rule id, obligations, approval) of
    [Evaluate] is the only one the rules of [decides] give: no policy denies,
    then the unknown-target default, the device cap, the first rule in file
    order that selects the request, the cap on pending holds, and deny when no
    rule selects it. *)
Theorem Evaluate_refines `{Unicode} p r o : decides p r o ↔ outcome_of (Evaluate p r) = o.
Proof.
  split.
  - intros Hd. eapply decides_functional; [apply Evaluate_decides|done].
  - intros <-. apply Evaluate_decides.
Qed.

(** an allowed request passed every guard: the policy is loaded, all its
    targets are known or the policy says unknown_target: allow, the session
    stays within its device cap, and the first rule selecting the request
    allows it; the obligations are that rule's. *)
Theorem Evaluate_allow_sound `{Unicode} p r :
  d_Effect (Evaluate p r) = Allow →
  ∃ q pre rule post, p = Some q ∧ Rules q = pre ++ rule :: post ∧
    (∀ x, x ∈ pre → ¬ selects x r) ∧ selects rule r ∧ rule_Effect rule = Allow ∧
    d_RuleID (Evaluate p r) = ID rule ∧ d_Obligations (Evaluate p r) = rule_Obligations rule ∧
    ((∀ t, t ∈ req_Targets r → t_Known t = true) ∨ UnknownTarget (policy_Defaults q) = Allow) ∧
    (MaxDevices (Session_limits (policy_Defaults q)) <= 0 ∨
     device_total r <= MaxDevices (Session_limits (policy_Defaults q))).
Proof.
  intros He. pose proof (Evaluate_decides p r) as Hd. destruct (Evaluate p r) as [e id why ob ap tr].
  cbn [outcome_of d_Effect d_RuleID d_Obligations d_Approval] in *. subst e.
  inversion Hd as [| | |q r' pre rule post Ht Hdv Hr Hpre Hs Hh | |]; subst.
  exists q, pre, rule, post. unfold targets_ok, devices_ok in *.
  split_and!; first [done | congruence].
Qed.

Definition sample_rule (id : string) (e : Effect) (cs : list Class) (roles : list string) : Rule :=
  {| ID := id;
     rule_Match := {| m_Class := cs; DeviceRoles := roles; DeviceTags := []; m_Tools := [];
                      Servers := ["net*"] |};
     rule_When := None; rule_Effect := e; rule_Reason := ""; rule_Obligations := [];
     rule_Approval := None |}.

Definition sample_policy : Policy :=
  {| Version := 1;
     policy_Defaults := {| UnknownTarget := Deny;
                           Session_limits := {| MaxDevices := 2; MaxPending := 1 |} |};
     Rules := [sample_rule "no-core-writes" Deny [WriteConfig] ["core"];
               sample_rule "reads" Allow [ReadOperational; ReadConfig] []] |}.

Definition sample_request (touched : Z) : Request :=
  {| req_Server := "netdev"; req_Tool := "netdev.show"; req_Class := ReadOperational;
     req_Targets := [ {| t_Name := "c1"; t_Role := "core"; t_Tags := []; t_Site := ""; t_Known := true |} ];
     req_Session := {| DevicesTouched := touched; PendingHolds := 0 |} |}.

#[local] Existing Instance ascii_tables.
Example ex_eval : map (λ n, outcome_of (Evaluate (Some sample_policy) (sample_request n))) [0; 1; 2] =
  [(Allow, "reads", [], None); (Allow, "reads", [], None); (Deny, RuleMaxDevices, [], None)].
Proof. vm_compute. reflexivity. Qed.

Lemma Evaluate_allow_sound_witness :
  ∃ H : Unicode, d_Effect (Evaluate (Some sample_policy) (sample_request 0)) = Allow ∧
  ∃ q pre rule post, Some sample_policy = Some q ∧ Rules q = pre ++ rule :: post ∧
    (∀ x, x ∈ pre → ¬ selects x (sample_request 0)) ∧ selects rule (sample_request 0) ∧
    rule_Effect rule = Allow.
Proof.
  exists ascii_tables. split; [by vm_compute|].
  destruct (@Evaluate_allow_sound ascii_tables (Some sample_policy) (sample_request 0))
    as (q & pre & rule & post & H1 & H2 & H3 & H4 & H5 & _); [by vm_compute|].
  by exists q, pre, rule, post.
Defined.

(** The last entry explains the decision; an earlier entry that matched is the
    rule a full hold queue overrode. *)
Definition explains (d : Decision) : Prop :=
  ∃ init e, Trace d = init ++ [e] ∧ te_RuleID e = d_RuleID d ∧ Matched e = true ∧
    ∀ x, x ∈ init → Matched x = true → d_RuleID d = RuleMaxPending.

Definition unmatched (trace : list TraceEntry) : Prop := ∀ x, x ∈ trace → Matched x = false.

Lemma unmatched_snoc trace e : unmatched trace → Matched e = false → unmatched (trace ++ [e]).
Proof. intros Ht He x [Hx|Hx]%elem_of_app; [auto|]. by apply list_elem_of_singleton in Hx as ->. Qed.

Lemma deny_explains id reason trace : unmatched trace → explains (deny_decision id reason trace).
Proof.
  intros Ht. eexists trace, _. split; [done|]. split_and!; [done..|].
  intros x Hx Hm. by rewrite Ht in Hm.
Qed.

Lemma eval_rules_explains `{Unicode} p r trace rules :
  unmatched trace → explains (eval_rules p r trace rules).
Proof.
  revert trace. induction rules as [|rule rules IH]; intros trace Ht; cbn [eval_rules].
  { by apply deny_explains. }
  destruct (rule_matches rule r) as [[] note]; [|by apply IH, unmatched_snoc].
  unfold apply_rule. cbv zeta. destruct (String.eqb _ _ && _ && _).
  - eexists _, _. split; [done|]. split_and!; done.
  - eexists trace, _. split; [done|]. split_and!; [done..|]. intros x Hx Hm. by rewrite Ht in Hm.
Qed.

(** every decision carries its explanation: the trace ends with a matched
    entry for the rule or default the decision names, and no other entry
    matched, but for the hold rule that the pending cap turned into a deny. *)
Theorem Evaluate_trace `{Unicode} p r : explains (Evaluate p r).
Proof.
  assert (Hs : ∀ q trace, unmatched trace → explains (eval_session q r trace)).
  { intros q trace Ht. unfold eval_session. cbv zeta. destruct (_ >? 0).
    - destruct (_ >? _); [by apply deny_explains|]. by apply eval_rules_explains, unmatched_snoc.
    - by apply eval_rules_explains. }
  assert (Hn : unmatched []) by by intros ? ?%not_elem_of_nil.
  unfold Evaluate. destruct p as [q|]; [|by apply deny_explains]. cbv zeta.
  destruct (0 <? _)%nat; [|by apply Hs]. destruct (negb _); [by apply deny_explains|].
  apply Hs. by apply (unmatched_snoc []).
Qed.

Lemma int64_id z : - 2 ^ 63 <= z < 2 ^ 63 → int64 z = z.
Proof. intros Hz. unfold int64. rewrite Z.mod_small; lia. Qed.

Lemma undenied_caps `{Unicode} p r :
  d_Effect (Evaluate (Some p) r) ≠ Deny →
  0 <= DevicesTouched (req_Session r) →
  DevicesTouched (req_Session r) + target_count r < 2 ^ 63 →
  let lim := Session_limits (policy_Defaults p) in
  (0 < MaxDevices lim → DevicesTouched (req_Session r) + target_count r <= MaxDevices lim) ∧
  (d_Effect (Evaluate (Some p) r) = Hold → 0 < MaxPending lim →
     PendingHolds (req_Session r) < MaxPending lim).
Proof.
  intros He H0 Hlt. cbv zeta. pose proof (Evaluate_decides (Some p) r) as Hd.
  destruct (Evaluate (Some p) r) as [e id why ob ap tr].
  cbn [outcome_of d_Effect d_RuleID d_Obligations d_Approval] in *.
  inversion Hd as [| | |q r' pre rule post Ht Hdv Hr Hpre Hs Hh | |]; subst; try done.
  unfold devices_ok, device_total, holds_full in *. cbv zeta in *.
  rewrite int64_id in Hdv by (unfold target_count in *; lia).
  split; [lia|]. intros Hhold Hm. apply Znot_ge_lt. intros Hge. apply Hh. split; [done|lia].
Qed.

(** the session's device cap holds: a request that is not denied, under a
    policy with a positive cap and counters that do not overflow an int64,
    leaves the devices already touched plus its own targets within the cap;
    and a hold is only given while fewer holds are pending than the cap. *)
Theorem Evaluate_caps `{Unicode} p r :
  d_Effect (Evaluate (Some p) r) ≠ Deny →
  0 <= DevicesTouched (req_Session r) →
  DevicesTouched (req_Session r) + target_count r < 2 ^ 63 →
  let lim := Session_limits (policy_Defaults p) in
  (0 < MaxDevices lim → DevicesTouched (req_Session r) + target_count r <= MaxDevices lim) ∧
  (d_Effect (Evaluate (Some p) r) = Hold → 0 < MaxPending lim →
     PendingHolds (req_Session r) < MaxPending lim).
Proof. apply undenied_caps. Qed.

Lemma Evaluate_caps_witness :
  ∃ H : Unicode, let lim := Session_limits (policy_Defaults sample_policy) in
  (0 < MaxDevices lim → 1 + 1 <= MaxDevices lim) ∧
  (d_Effect (Evaluate (Some sample_policy) (sample_request 1)) = Hold → 0 < MaxPending lim →
     0 < MaxPending lim).
Proof.
  exists ascii_tables. apply (@Evaluate_caps ascii_tables sample_policy (sample_request 1)); by vm_compute.
Defined.
