(* ===== verification/Inventory.v ===== *)
(** * Inventory: internal/inventory (resolver, static file, patterns, CSV)

    The resolver chain, the static device list, the hostname patterns and the
    CSV import.  A Go [Resolver] or [Enricher] is its one method; a nil one is
    [None].  Compiling a regular expression, decoding YAML and splitting CSV
    text into records are parameters. *)

From S2P Require Import Prelude GoStd.

Open Scope string_scope.
Open Scope Z_scope.
Open Scope list_scope.

Definition SourceStatic : string := "static".
Definition SourcePattern : string := "pattern".
Definition SourceSnapshot : string := "snapshot".

Record Sources := {
  src_Name : string; src_Role : string; src_Site : string; src_Status : string;
  src_Tags : gmap string string }.

Record ITarget := {
  i_Name : string; i_Role : string; i_Site : string; i_Tags : list string; i_Status : string;
  i_Source : string; i_Stale : bool; i_Sources : option Sources }.

(** The zero values. *)
Definition no_sources : Sources :=
  {| src_Name := ""; src_Role := ""; src_Site := ""; src_Status := ""; src_Tags := ∅ |}.
Definition no_target : ITarget :=
  {| i_Name := ""; i_Role := ""; i_Site := ""; i_Tags := []; i_Status := ""; i_Source := "";
     i_Stale := false; i_Sources := None |}.

Definition Resolver : Type := string → option ITarget.
Definition Enricher : Type := string → option ITarget.

Record Chain := { Authorities : list (option Resolver); Enrichers : list (option Enricher) }.

(** Which fields a provider may contribute. *)
Record fields_mask := { f_role : bool; f_site : bool; f_status : bool; f_tags : bool }.
Definition fieldsAll : fields_mask := {| f_role := true; f_site := true; f_status := true; f_tags := true |}.
Definition fieldsEnricher : fields_mask :=
  {| f_role := true; f_site := true; f_status := false; f_tags := true |}.
Definition fieldsLaterAuthority : fields_mask :=
  {| f_role := false; f_site := true; f_status := true; f_tags := false |}.

(** [merge] on one field: the value and its source. *)
Definition fill (allowed : bool) (old old_src new label : string) : string * string :=
  if allowed && String.eqb old "" && negb (String.eqb new "") then (new, label) else (old, old_src).

Definition add_tag (label : string) (st : list string * gmap string string) (tag : string) :
    list string * gmap string string :=
  if mem tag (fst st) then st else (fst st ++ [tag], <[tag := label]> (snd st)).

Definition merge (st : ITarget * Sources) (t : ITarget) (label : string) (f : fields_mask) :
    ITarget * Sources :=
  let '(out, src) := st in
  let '(role, role_src) := fill (f_role f) (i_Role out) (src_Role src) (i_Role t) label in
  let '(site, site_src) := fill (f_site f) (i_Site out) (src_Site src) (i_Site t) label in
  let '(status, status_src) := fill (f_status f) (i_Status out) (src_Status src) (i_Status t) label in
  let '(tags, tags_src) :=
    if f_tags f then foldl (add_tag label) (i_Tags out, src_Tags src) (i_Tags t)
    else (i_Tags out, src_Tags src) in
  ({| i_Name := i_Name out; i_Role := role; i_Site := site; i_Tags := tags; i_Status := status;
      i_Source := i_Source out; i_Stale := i_Stale out; i_Sources := i_Sources out |},
   {| src_Name := src_Name src; src_Role := role_src; src_Site := site_src;
      src_Status := status_src; src_Tags := tags_src |}).

Section Chain.
Context `{Unicode}.

Definition normalize (name : string) : string := to_lower (trim_space name).

Definition hit_label (i : Z) (t : ITarget) : string :=
  if String.eqb (i_Source t) "" || String.eqb (i_Source t) SourcePattern
  then ("resolver[" ++ itoa i ++ "]")%string else i_Source t.

(** The records the authorities give for the name, with their labels. *)
Fixpoint hits_from (i : Z) (name : string) (rs : list (option Resolver)) : list (ITarget * string) :=
  match rs with
  | [] => []
  | r :: rs =>
      match r with
      | None => hits_from (i + 1) name rs
      | Some resolve =>
          match resolve name with
          | Some t =>
              if String.eqb (normalize (i_Name t)) (normalize name)
              then (t, hit_label i t) :: hits_from (i + 1) name rs
              else hits_from (i + 1) name rs
          | None => hits_from (i + 1) name rs
          end
      end
  end.

Definition start_record (t : ITarget) (label : string) : ITarget * Sources :=
  merge ({| i_Name := i_Name t; i_Role := ""; i_Site := ""; i_Tags := []; i_Status := "";
            i_Source := label; i_Stale := i_Stale t; i_Sources := None |},
         {| src_Name := label; src_Role := ""; src_Site := ""; src_Status := ""; src_Tags := ∅ |})
    t label fieldsAll.

Definition enrich (st : ITarget * Sources) (e : option Enricher) : ITarget * Sources :=
  match e with
  | None => st
  | Some attributes =>
      match attributes (i_Name (fst st)) with
      | Some t => merge st t SourcePattern fieldsEnricher
      | None => st
      end
  end.

Definition set_stale (st : ITarget * Sources) (b : bool) : ITarget * Sources :=
  let '(out, src) := st in
  ({| i_Name := i_Name out; i_Role := i_Role out; i_Site := i_Site out; i_Tags := i_Tags out;
      i_Status := i_Status out; i_Source := i_Source out; i_Stale := i_Stale out || b;
      i_Sources := i_Sources out |}, src).

Definition later (st : ITarget * Sources) (h : ITarget * string) : ITarget * Sources :=
  merge (set_stale st (i_Stale (fst h))) (fst h) (snd h) fieldsLaterAuthority.

Definition with_sources (st : ITarget * Sources) : ITarget :=
  let '(out, src) := st in
  {| i_Name := i_Name out; i_Role := i_Role out; i_Site := i_Site out; i_Tags := i_Tags out;
     i_Status := i_Status out; i_Source := i_Source out; i_Stale := i_Stale out;
     i_Sources := Some src |}.

(** [Chain.Resolve]. *)
Definition Chain_Resolve (c : Chain) (name : string) : option ITarget :=
  match hits_from 0 name (Authorities c) with
  | [] => None
  | (t, label) :: rest =>
      Some (with_sources (foldl later (foldl enrich (start_record t label) (Enrichers c)) rest))
  end.

Definition Known_name (r : option Resolver) (name : string) : option ITarget :=
  match r with
  | None => None
  | Some resolve =>
      match resolve name with
      | Some t => if String.eqb (i_Name t) name then Some t else None
      | None => None
      end
  end.

(** ** The static file *)

Inductive static_error := StNoName | StDuplicate (name : string) | StStatusPattern (name : string).

Fixpoint new_static (byName : gmap string ITarget) (targets : list ITarget) :
    result static_error (gmap string ITarget) :=
  match targets with
  | [] => Ok byName
  | t :: targets =>
      let key := normalize (i_Name t) in
      if String.eqb key "" then Err StNoName
      else match byName !! key with
           | Some _ => Err (StDuplicate (i_Name t))
           | None =>
               if String.eqb (normalize (i_Status t)) SourcePattern
               then Err (StStatusPattern (i_Name t))
               else new_static (<[key := t]> byName) targets
           end
  end.

Definition NewStatic (targets : list ITarget) : result static_error (gmap string ITarget) :=
  new_static ∅ targets.

Definition Static_Resolve (s : gmap string ITarget) : Resolver := λ name,
  match s !! normalize name with
  | None => None
  | Some t =>
      Some {| i_Name := i_Name t; i_Role := i_Role t; i_Site := i_Site t; i_Tags := i_Tags t;
              i_Status := i_Status t; i_Source := SourceStatic; i_Stale := false; i_Sources := None |}
  end.

(** [StaticFile.Targets]: the devices sorted by normalised name. *)
Definition Static_Targets (s : gmap string ITarget) : list ITarget :=
  omap (λ k, s !! k) (sort_strings (map fst (map_to_list s))).

(** ** Hostname patterns *)

Record Pattern := { p_Match : string; p_Role : string; p_Site : string; p_Tags : list string }.
Record File := { Devices : list ITarget; Roles : list Pattern }.

(** [regexp.Compile]: the match function, [None] for invalid syntax. *)
Context (compile : string → option (string → bool)).

Definition compilePattern (m : string) : option (string → bool) := compile ("(?i)" ++ m)%string.

Inductive pattern_error :=
  | PatNoMatch (i : Z) | PatSetsNothing (i : Z) (m : string) | PatSyntax (i : Z) (m : string).

Fixpoint new_patterns (i : Z) (ps : list Pattern) :
    result pattern_error (list ((string → bool) * Pattern)) :=
  match ps with
  | [] => Ok []
  | p :: ps =>
      if String.eqb (p_Match p) "" then Err (PatNoMatch i)
      else if String.eqb (p_Role p) "" && String.eqb (p_Site p) "" && (List.length (p_Tags p) =? 0)%nat
      then Err (PatSetsNothing i (p_Match p))
      else match compilePattern (p_Match p) with
           | None => Err (PatSyntax i (p_Match p))
           | Some re =>
               match new_patterns (i + 1) ps with
               | Ok out => Ok ((re, p) :: out)
               | Err e => Err e
               end
           end
  end.

Definition NewPatterns (ps : list Pattern) : result pattern_error (list ((string → bool) * Pattern)) :=
  new_patterns 0 ps.

Definition add_new (l : list string) (x : string) : list string := if mem x l then l else l ++ [x].

(** What one matching pattern adds to the attributes. *)
Definition add_pattern (t : ITarget) (p : Pattern) : ITarget :=
  {| i_Name := i_Name t;
     i_Role := if String.eqb (i_Role t) "" then p_Role p else i_Role t;
     i_Site := if String.eqb (i_Site t) "" then p_Site p else i_Site t;
     i_Tags := foldl add_new (i_Tags t) (p_Tags p);
     i_Status := i_Status t; i_Source := i_Source t; i_Stale := i_Stale t; i_Sources := i_Sources t |}.

Definition rename_target (t : ITarget) (name : string) : ITarget :=
  {| i_Name := name; i_Role := i_Role t; i_Site := i_Site t; i_Tags := i_Tags t;
     i_Status := i_Status t; i_Source := i_Source t; i_Stale := i_Stale t; i_Sources := i_Sources t |}.

Definition Attributes (ps : list ((string → bool) * Pattern)) : Enricher := λ listed,
  match List.filter (λ c, (fst c) listed) ps with
  | [] => None
  | hits => Some (rename_target (foldl add_pattern no_target (map snd hits)) listed)
  end.

Fixpoint matching_from (i : Z) (ps : list ((string → bool) * Pattern)) (name : string) : list Z :=
  match ps with
  | [] => []
  | (re, _) :: ps => if re name then i :: matching_from (i + 1) ps name else matching_from (i + 1) ps name
  end.

Definition Matching (ps : list ((string → bool) * Pattern)) (name : string) : list Z :=
  matching_from 0 ps name.

Inductive file_error := FileStatic (e : static_error) | FilePattern (e : pattern_error) | FileYaml | FileRead.

(** [File.Chain]. *)
Definition File_Chain (f : File) : result file_error Chain :=
  match NewStatic (Devices f) with
  | Err e => Err (FileStatic e)
  | Ok static =>
      match NewPatterns (Roles f) with
      | Err e => Err (FilePattern e)
      | Ok patterns =>
          Ok {| Authorities := [Some (Static_Resolve static)]; Enrichers := [Some (Attributes patterns)] |}
      end
  end.

(** The strict YAML decoder and the file reader. *)
Context (unmarshal : string → option File) (read_file : string → option string).

Definition ParseFile (b : string) : result file_error File :=
  match unmarshal b with None => Err FileYaml | Some f => Ok f end.

Definition LoadFile (path : string) : result file_error File :=
  match read_file path with None => Err FileRead | Some b => ParseFile b end.

Definition LoadChain (path : string) : result file_error Chain :=
  match LoadFile path with Err e => Err e | Ok f => File_Chain f end.

(** ** Lint text *)

Fixpoint warnings_from (i : Z) (devices : list ITarget) (ps : list Pattern) : list string :=
  match ps with
  | [] => []
  | p :: ps =>
      let rest := warnings_from (i + 1) devices ps in
      if String.eqb (p_Match p) "" then rest
      else match compilePattern (p_Match p) with
           | None => rest
           | Some re =>
               if existsb (λ d, re (i_Name d)) devices then rest
               else ("inventory: roles[" ++ itoa i ++ "] " ++ quote (p_Match p) ++
                     " matches no listed device and makes nothing known (ADR 0031); list the device under devices")%string
                    :: rest
           end
  end.

Definition PatternWarnings (f : File) : list string := warnings_from 0 (Devices f) (Roles f).

(** The running state of [PatternEffects] for one device: role, site, tags. *)
Record fx := { fx_role : string; fx_site : string; fx_tags : list string }.

Definition role_effect (d : ITarget) (s : fx) (p : Pattern) : string * list string * bool :=
  if String.eqb (p_Role p) "" then (fx_role s, [], false)
  else if String.eqb (fx_role s) "" then (p_Role p, [("sets role " ++ p_Role p)%string], false)
  else if negb (String.eqb (fx_role s) (p_Role p))
  then (fx_role s, [("role " ++ p_Role p ++ " not applied")%string], negb (String.eqb (i_Role d) ""))
  else (fx_role s, [], false).

Definition site_effect (s : fx) (p : Pattern) : string * list string :=
  if String.eqb (p_Site p) "" then (fx_site s, [])
  else if String.eqb (fx_site s) "" then (p_Site p, [("sets site " ++ p_Site p)%string])
  else if negb (String.eqb (fx_site s) (p_Site p))
  then (fx_site s, [("site " ++ p_Site p ++ " not applied")%string])
  else (fx_site s, []).

Fixpoint tag_effects (tags new : list string) : list string * list string :=
  match new with
  | [] => (tags, [])
  | t :: new =>
      if mem t tags then tag_effects tags new
      else let '(tags, fxs) := tag_effects (tags ++ [t]) new in
           (tags, ("adds tag " ++ t)%string :: fxs)
  end.

(** One device against the patterns from index [i]. *)
Fixpoint device_effects (j i : Z) (d : ITarget) (s : fx) (ps : list Pattern) : list string :=
  match ps with
  | [] => []
  | p :: ps =>
      match (if String.eqb (p_Match p) "" then None else compilePattern (p_Match p)) with
      | None => device_effects j (i + 1) d s ps
      | Some re =>
          if negb (re (i_Name d)) then device_effects j (i + 1) d s ps
          else
            let '(role, e1, c1) := role_effect d s p in
            let '(site, e2) := site_effect s p in
            let '(tags, e3) := tag_effects (fx_tags s) (p_Tags p) in
            let conflict := c1 || (negb (List.length e3 =? 0)%nat && negb (String.eqb (i_Role d) "")) in
            let s' := {| fx_role := role; fx_site := site; fx_tags := tags |} in
            let rest := device_effects j (i + 1) d s' ps in
            match e1 ++ e2 ++ e3 with
            | [] => rest
            | effects =>
                ("inventory: devices[" ++ itoa j ++ "] " ++ quote (i_Name d) ++ ": roles[" ++ itoa i ++
                 "] " ++ quote (p_Match p) ++ " " ++ join ", " effects ++
                 (if conflict then "; the device's own record says role " ++ i_Role d else ""))%string
                :: rest
            end
      end
  end.

Fixpoint effects_from (j : Z) (ds : list ITarget) (ps : list Pattern) : list string :=
  match ds with
  | [] => []
  | d :: ds =>
      device_effects j 0 d {| fx_role := i_Role d; fx_site := i_Site d; fx_tags := i_Tags d |} ps ++
      effects_from (j + 1) ds ps
  end.

Definition PatternEffects (f : File) : list string := effects_from 0 (Devices f) (Roles f).
End Chain.

(** ** Specification *)

Fixpoint first_nonempty (l : list string) : string :=
  match l with
  | [] => EmptyString
  | x :: l => if String.eqb x "" then first_nonempty l else x
  end.

Definition add_tags (acc new : list string) : list string := foldl add_new acc new.

(** What the enrichers say about the listed name. *)
Definition enricher_records (es : list (option Enricher)) (listed : string) : list ITarget :=
  omap (λ e, match e with Some attributes => attributes listed | None => None end) es.

(** ** Lemmas *)

Lemma first_nonempty_app l1 l2 :
  first_nonempty (l1 ++ l2) = if String.eqb (first_nonempty l1) "" then first_nonempty l2 else first_nonempty l1.
Proof.
  induction l1 as [|x l1 IH]; [done|]. cbn [app first_nonempty].
  destruct (String.eqb x "") eqn:E; [apply IH|]. by rewrite E.
Qed.

Lemma first_nonempty_flat a b l : first_nonempty (first_nonempty [a; b] :: l) = first_nonempty (a :: b :: l).
Proof. cbn [first_nonempty]. destruct (String.eqb a "") eqn:Ea, (String.eqb b "") eqn:Eb; by rewrite ?Ea, ?Eb. Qed.

Lemma fill_fst allowed old old_src new label :
  fst (fill allowed old old_src new label) =
  if allowed then first_nonempty [old; new] else old.
Proof.
  unfold fill. destruct allowed; [|done]. cbn [andb first_nonempty].
  destruct (String.eqb_spec old "") as [->|]; [|done]. by destruct (String.eqb_spec new "") as [->|].
Qed.

Lemma fst_add_tags label l st : fst (foldl (add_tag label) st l) = add_tags (fst st) l.
Proof.
  revert st. induction l as [|t l IH]; intros st; [done|]. cbn [foldl add_tags]. rewrite IH.
  unfold add_tags. cbn [foldl]. f_equal. unfold add_tag, add_new. by destruct (mem t (fst st)).
Qed.

Lemma merge_fields out src t label f :
  let out' := fst (merge (out, src) t label f) in
  i_Name out' = i_Name out ∧ i_Source out' = i_Source out ∧ i_Stale out' = i_Stale out ∧
  i_Role out' = (if f_role f then first_nonempty [i_Role out; i_Role t] else i_Role out) ∧
  i_Site out' = (if f_site f then first_nonempty [i_Site out; i_Site t] else i_Site out) ∧
  i_Status out' = (if f_status f then first_nonempty [i_Status out; i_Status t] else i_Status out) ∧
  i_Tags out' = (if f_tags f then add_tags (i_Tags out) (i_Tags t) else i_Tags out).
Proof.
  unfold merge. pose proof (fill_fst (f_role f) (i_Role out) (src_Role src) (i_Role t) label) as H1.
  pose proof (fill_fst (f_site f) (i_Site out) (src_Site src) (i_Site t) label) as H2.
  pose proof (fill_fst (f_status f) (i_Status out) (src_Status src) (i_Status t) label) as H3.
  pose proof (fst_add_tags label (i_Tags t) (i_Tags out, src_Tags src)) as H4.
  destruct (fill (f_role f) _ _ _ _), (fill (f_site f) _ _ _ _), (fill (f_status f) _ _ _ _).
  cbn [fst] in *. destruct (f_tags f); [destruct (foldl (add_tag label) _ _)|];
    cbn [fst i_Name i_Role i_Site i_Status i_Tags i_Source i_Stale] in *; by split_and!.
Qed.

Lemma enrich_fields es st :
  let rs := enricher_records es (i_Name (fst st)) in
  let out := fst (foldl enrich st es) in
  i_Name out = i_Name (fst st) ∧ i_Source out = i_Source (fst st) ∧ i_Stale out = i_Stale (fst st) ∧
  i_Role out = first_nonempty (i_Role (fst st) :: map i_Role rs) ∧
  i_Site out = first_nonempty (i_Site (fst st) :: map i_Site rs) ∧
  i_Status out = i_Status (fst st) ∧
  i_Tags out = foldl add_tags (i_Tags (fst st)) (map i_Tags rs).
Proof.
  assert (Hself : ∀ x, x = first_nonempty [x]) by (intros x; cbn; by destruct (String.eqb_spec x "")).
  revert st. induction es as [|e es IH]; intros st; cbv zeta; cbn [foldl enricher_records omap list_omap map].
  { split_and!; auto. }
  destruct e as [attrs|]; [|apply IH].
  cbn [enrich]. destruct (attrs (i_Name (fst st))) as [t|] eqn:Et; [|apply IH].
  destruct st as [out src]. cbn [fst] in *.
  destruct (merge_fields out src t SourcePattern fieldsEnricher) as (Hn & Hs & Hst & Hr & Hsi & Hstat & Ht).
  specialize (IH (merge (out, src) t SourcePattern fieldsEnricher)). cbv zeta in IH.
  rewrite Hn, Hs, Hst, Hr, Hsi, Hstat, Ht in IH. cbn [f_role f_site f_status f_tags fieldsEnricher] in IH.
  destruct IH as (-> & -> & -> & -> & -> & -> & ->). split_and!; try done.
  - apply first_nonempty_flat.
  - apply first_nonempty_flat.
Qed.

Lemma later_fields hs st :
  let out := fst (foldl later st hs) in
  i_Name out = i_Name (fst st) ∧ i_Source out = i_Source (fst st) ∧
  i_Stale out = i_Stale (fst st) || existsb (λ h, i_Stale (fst h)) hs ∧
  i_Role out = i_Role (fst st) ∧
  i_Site out = first_nonempty (i_Site (fst st) :: map (λ h, i_Site (fst h)) hs) ∧
  i_Status out = first_nonempty (i_Status (fst st) :: map (λ h, i_Status (fst h)) hs) ∧
  i_Tags out = i_Tags (fst st).
Proof.
  assert (Hself : ∀ x, x = first_nonempty [x]) by (intros x; cbn; by destruct (String.eqb_spec x "")).
  revert st. induction hs as [|[t label] hs IH]; intros st; cbv zeta; cbn [foldl existsb map fst].
  { rewrite orb_false_r. split_and!; auto. }
  destruct st as [out src]. unfold later at 2 4 6 8 10 12 14. cbn [fst snd set_stale].
  set (out2 := {| i_Name := i_Name out; i_Role := _ |}).
  destruct (merge_fields out2 src t label fieldsLaterAuthority) as (Hn & Hs & Hst & Hr & Hsi & Hstat & Ht).
  specialize (IH (merge (out2, src) t label fieldsLaterAuthority)). cbv zeta in IH.
  rewrite Hn, Hs, Hst, Hr, Hsi, Hstat, Ht in IH. cbn [f_role f_site f_status f_tags fieldsLaterAuthority] in IH.
  destruct IH as (-> & -> & -> & -> & -> & -> & ->). split_and!; try done.
  - cbn. by rewrite orb_assoc.
  - apply first_nonempty_flat.
  - apply first_nonempty_flat.
Qed.

Section Properties.
Context `{Unicode}.

(** What one authority answers for the name: a record of that name. *)
Definition listing (name : string) (r : option Resolver) : option ITarget :=
  match r with
  | Some resolve =>
      match resolve name with
      | Some t => if String.eqb (normalize (i_Name t)) (normalize name) then Some t else None
      | None => None
      end
  | None => None
  end.

Lemma hits_from_listing i name rs : map fst (hits_from i name rs) = omap (listing name) rs.
Proof.
  revert i. induction rs as [|[r|] rs IH]; intros i; cbn; [done| |apply IH].
  destruct (r name) as [t|]; [|apply IH]. destruct (String.eqb _ _); cbn; by rewrite IH.
Qed.

Lemma hits_from_label i name rs t label :
  (t, label) ∈ hits_from i name rs → label ≠ SourcePattern.
Proof.
  assert (Hl : ∀ j u, hit_label j u ≠ SourcePattern).
  { intros j u. unfold hit_label. destruct (String.eqb_spec (i_Source u) ""); [by cbn|].
    by destruct (String.eqb_spec (i_Source u) SourcePattern); cbn. }
  revert i. induction rs as [|[r|] rs IH]; intros i; cbn; [by intros ?%not_elem_of_nil| |apply IH].
  destruct (r name) as [u|]; [|apply IH]. destruct (String.eqb _ _); [|apply IH].
  intros [Heq|?]%elem_of_cons; [|by eapply IH]. simplify_eq. apply Hl.
Qed.

(** The record built from the first hit, the enrichers and the later hits. *)
Lemma Chain_Resolve_hit c name t label hs :
  hits_from 0 name (Authorities c) = (t, label) :: hs →
  let rs := enricher_records (Enrichers c) (i_Name t) in
  ∃ out, Chain_Resolve c name = Some out ∧ i_Name out = i_Name t ∧ i_Source out = label ∧
    i_Role out = first_nonempty (i_Role t :: map i_Role rs) ∧
    i_Tags out = foldl add_tags (add_tags [] (i_Tags t)) (map i_Tags rs) ∧
    i_Site out = first_nonempty (i_Site t :: map i_Site rs ++ map i_Site (map fst hs)) ∧
    i_Status out = first_nonempty (i_Status t :: map i_Status (map fst hs)) ∧
    i_Stale out = i_Stale t || existsb i_Stale (map fst hs).
Proof.
  intros Hh. unfold Chain_Resolve. rewrite Hh. cbv zeta. eexists. split; [done|].
  destruct (later_fields hs (foldl enrich (start_record t label) (Enrichers c)))
    as (Ln & Ls & Lst & Lr & Lsi & Lstat & Lt).
  destruct (enrich_fields (Enrichers c) (start_record t label)) as (En & Es & Est & Er & Esi & Estat & Et).
  destruct (foldl later _ hs) as [out src]. cbn [fst with_sources i_Name i_Role i_Site i_Status i_Tags i_Source i_Stale] in *.
  unfold start_record in *.
  match type of En with _ = i_Name (fst (merge (?o, ?s) _ _ _)) =>
    destruct (merge_fields o s t label fieldsAll) as (Mn & Ms & Mst & Mr & Msi & Mstat & Mt) end.
  cbn [f_role f_site f_status f_tags fieldsAll i_Name i_Role i_Site i_Status i_Tags i_Source i_Stale] in *.
  rewrite Mn in *. rewrite !map_map. split_and!.
  - by rewrite Ln, En.
  - by rewrite Ls, Es, Ms.
  - rewrite Lr, Er, Mr. by rewrite first_nonempty_flat.
  - by rewrite Lt, Et, Mt.
  - rewrite Lsi, Esi, Msi, first_nonempty_flat. cbn [first_nonempty String.eqb].
    change (if String.eqb (i_Site t) "" then first_nonempty (map i_Site (enricher_records (Enrichers c) (i_Name t)))
      else i_Site t) with (first_nonempty (i_Site t :: map i_Site (enricher_records (Enrichers c) (i_Name t)))).
    rewrite <- (first_nonempty_app (i_Site t :: _)). done.
  - rewrite Lstat, Estat, Mstat, first_nonempty_flat. done.
  - rewrite Lst, Est, Mst. f_equal. clear. induction hs as [|h hs IH]; [done|]. cbn. by rewrite IH.
Qed.

(** the resolver chain is exact.  A name is known only when an authority
    lists it, whatever the enrichers say; the record carries the first
    authority's name and a source that is never "pattern"; role and tags come
    from the first authority and the enrichers alone, the authority first, so a
    later authority can neither set a role nor add a tag; site and status are
    the first set, and the record is stale if any contributor is. *)
Theorem Chain_Resolve_correct c name :
  match omap (listing name) (Authorities c) with
  | [] => Chain_Resolve c name = None
  | t :: rest =>
      let rs := enricher_records (Enrichers c) (i_Name t) in
      ∃ out, Chain_Resolve c name = Some out ∧
        i_Name out = i_Name t ∧ normalize (i_Name out) = normalize name ∧
        i_Source out ≠ SourcePattern ∧
        i_Role out = first_nonempty (i_Role t :: map i_Role rs) ∧
        i_Tags out = foldl add_tags (add_tags [] (i_Tags t)) (map i_Tags rs) ∧
        i_Site out = first_nonempty (i_Site t :: map i_Site rs ++ map i_Site rest) ∧
        i_Status out = first_nonempty (i_Status t :: map i_Status rest) ∧
        i_Stale out = i_Stale t || existsb i_Stale rest
  end.
Proof.
  pose proof (hits_from_listing 0 name (Authorities c)) as Hl.
  pose proof (hits_from_label 0 name (Authorities c)) as Hlab.
  assert (Hnorm : ∀ t, t ∈ omap (listing name) (Authorities c) → normalize (i_Name t) = normalize name).
  { intros t (r & _ & Hr)%list_elem_of_omap. unfold listing in Hr. repeat case_match; simplify_eq.
    by apply String.eqb_eq. }
  destruct (hits_from 0 name (Authorities c)) as [|[t label] hs] eqn:Hh; cbn [map fst] in Hl;
    rewrite <- Hl in *; [unfold Chain_Resolve; by rewrite Hh|]. cbv zeta.
  destruct (Chain_Resolve_hit c name t label hs Hh) as (out & Ho & Hn & Hs & ? & ? & ? & ? & ?).
  exists out. split_and!; try done.
  - rewrite Hn. apply Hnorm. by left.
  - rewrite Hs. apply (Hlab t). by left.
Qed.

Lemma new_static_spec targets byName s :
  new_static byName targets = Ok s →
  (∀ k t, s !! k = Some t ↔ byName !! k = Some t ∨ (t ∈ targets ∧ normalize (i_Name t) = k)) ∧
  (∀ t, t ∈ targets → normalize (i_Name t) ≠ "" ∧ normalize (i_Status t) ≠ SourcePattern).
Proof.
  revert byName. induction targets as [|t ts IH]; intros byName; cbn [new_static].
  { intros [= ->]. split; [|by intros ? ?%not_elem_of_nil]. intros k t.
    split; [by left|]. by intros [?|[?%not_elem_of_nil _]]. }
  destruct (String.eqb_spec (normalize (i_Name t)) "") as [|Hne]; [done|].
  destruct (byName !! normalize (i_Name t)) as [|] eqn:Hd; [done|].
  destruct (String.eqb_spec (normalize (i_Status t)) SourcePattern) as [|Hst]; [done|].
  intros Hs. destruct (IH _ Hs) as [Hin Hall]. setoid_rewrite elem_of_cons. split.
  - intros k u. rewrite Hin. destruct (decide (normalize (i_Name t) = k)) as [<-|Hk].
    + rewrite lookup_insert_eq, Hd. naive_solver.
    + rewrite lookup_insert_ne by done. naive_solver.
  - intros u [->|Hu]; [done|by apply Hall].
Qed.

Lemma new_static_lookup targets s k t :
  new_static ∅ targets = Ok s → s !! k = Some t ↔ t ∈ targets ∧ normalize (i_Name t) = k.
Proof.
  intros Hs. destruct (new_static_spec _ _ _ Hs) as [-> _]. rewrite lookup_empty. naive_solver.
Qed.

(** for a loaded inventory file the gate's exact-name rule knows exactly
    the devices the file lists, spelled as the file spells them; hostname
    patterns never make a name known, and never override a role the device's
    own record sets. *)
Theorem File_Chain_known compile f c name :
  File_Chain compile f = Ok c →
  (is_Some (Known_name (Some (Chain_Resolve c)) name) ↔ name ∈ map i_Name (Devices f)) ∧
  ∀ t, Known_name (Some (Chain_Resolve c)) name = Some t →
    i_Name t = name ∧ i_Source t = SourceStatic ∧
    ∃ d, d ∈ Devices f ∧ i_Name d = name ∧ (i_Role d ≠ "" → i_Role t = i_Role d).
Proof.
  unfold File_Chain, NewStatic. destruct (new_static ∅ (Devices f)) as [s|] eqn:Hs; [|done].
  destruct (NewPatterns compile (Roles f)) as [ps|]; [|done]. intros [= <-].
  set (c := {| Authorities := _; Enrichers := _ |}).
  assert (Hlook := λ k t, new_static_lookup _ _ k t Hs).
  assert (Hhit : ∀ d n, s !! normalize n = Some d → ∃ out, Chain_Resolve c n = Some out ∧
    i_Name out = i_Name d ∧ i_Source out = SourceStatic ∧ (i_Role d ≠ "" → i_Role out = i_Role d)).
  { intros d n Ed. destruct (Hlook (normalize n) d) as [[Hd Hdn] _]; [done|].
    destruct (Chain_Resolve_hit c n (rename_target {| i_Name := i_Name d; i_Role := i_Role d; i_Site := i_Site d;
      i_Tags := i_Tags d; i_Status := i_Status d; i_Source := SourceStatic; i_Stale := false;
      i_Sources := None |} (i_Name d)) SourceStatic []) as (out & Ho & Hn & Hsrc & Hr & _).
    { unfold c. cbn [Authorities hits_from]. unfold Static_Resolve. rewrite Ed. cbn [i_Name].
      rewrite Hdn, String.eqb_refl. done. }
    exists out. split_and!; [done..|]. intros Hne. rewrite Hr. cbn.
    by destruct (String.eqb_spec (i_Role d) ""). }
  assert (Hmiss : ∀ n, s !! normalize n = None → Chain_Resolve c n = None).
  { intros n En. unfold Chain_Resolve, c. cbn [Authorities hits_from]. unfold Static_Resolve. by rewrite En. }
  assert (Hknown : ∀ t, Known_name (Some (Chain_Resolve c)) name = Some t →
    i_Name t = name ∧ ∃ d, d ∈ Devices f ∧ i_Name d = name ∧ i_Source t = SourceStatic ∧
      (i_Role d ≠ "" → i_Role t = i_Role d)).
  { intros t. cbn [Known_name]. destruct (s !! normalize name) as [d|] eqn:Ed; [|by rewrite Hmiss].
    destruct (Hhit d name Ed) as (out & -> & Hn & Hsrc & Hr).
    destruct (String.eqb_spec (i_Name out) name) as [He|]; [|done]. intros [= <-].
    split; [done|]. exists d. apply Hlook in Ed as [Hd _]. split_and!; [done|congruence|done..]. }
  split; [split|].
  - intros [t Ht]. destruct (Hknown t Ht) as (_ & d & Hd & <- & _). by apply list_elem_of_fmap_2.
  - intros (d & -> & Hd)%list_elem_of_fmap.
    destruct (Hhit d (i_Name d)) as (out & Ho & Hn & _); [by apply Hlook|].
    cbn [Known_name]. rewrite Ho, Hn, String.eqb_refl. by eexists.
  - intros t Ht. destruct (Hknown t Ht) as (Hn & d & Hd & Hdn & Hsrc & Hr). eauto 10.
Qed.
End Properties.

Definition sample_device (name role : string) : ITarget :=
  {| i_Name := name; i_Role := role; i_Site := ""; i_Tags := []; i_Status := ""; i_Source := "";
     i_Stale := false; i_Sources := None |}.

Definition sample_file : File :=
  {| Devices := [sample_device "core-1" "core"; sample_device "lab-1" ""];
     Roles := [ {| p_Match := "^lab-"; p_Role := "lab"; p_Site := ""; p_Tags := ["lab"] |} ] |}.

(** A regular expression that is "(?i)^" and a literal, on ASCII text. *)
Definition prefix_regexp (m : string) : option (string → bool) :=
  Some (λ s, has_prefix (s_map lower_b s) (s_map lower_b (trim_prefix m "(?i)^"))).

Lemma File_Chain_known_witness :
  ∃ (H : Unicode) c, File_Chain prefix_regexp sample_file = Ok c ∧
    (is_Some (Known_name (Some (Chain_Resolve c)) "lab-2") ↔ "lab-2" ∈ map i_Name (Devices sample_file)).
Proof.
  exists ascii_tables. eexists. split; [reflexivity|].
  apply (@File_Chain_known ascii_tables prefix_regexp). reflexivity.
Defined.
