(* ===== verification/InventoryCsv.v ===== *)
(** * CSV import: internal/inventory/csv.go, and SplitTags of static.go

    [ImportCSV] on the records encoding/csv returns, the header first; an entry
    is a record or the reader's error.  Indexing a record out of range is a Go
    panic, a result of its own. *)

From S2P Require Import Prelude GoStd Inventory.

Open Scope string_scope.
Open Scope Z_scope.
Open Scope list_scope.

Inductive csv_error := CsvHeader | CsvNoName (header : list string) | CsvLine (line : Z) | CsvEmptyName (line : Z).

Inductive csv_result := CsvOk (targets : list ITarget) | CsvErr (e : csv_error) | CsvPanic.

Definition tag_sep (r : Z) : bool := (r =? 44) || (r =? 59) || (r =? 32) || (r =? 124).

Definition SplitTags (s : string) : list string :=
  List.filter (λ t, negb (String.eqb t "")) (map trim_space (fields_func tag_sep s)).

Definition bom : string := encode_rune 65279.

Section Csv.
Context `{Unicode}.

Definition column (h : string) : string :=
  let h := to_lower (trim_space (trim_prefix h bom)) in
  if mem h ["hostname"; "device"; "device_name"] then "name"
  else if mem h ["device_role"; "role_name"] then "role"
  else if mem h ["site_name"; "location"] then "site"
  else h.

(** The first column of each name. *)
Fixpoint columns (i : nat) (col : gmap string nat) (header : list string) : gmap string nat :=
  match header with
  | [] => col
  | h :: header =>
      let h := column h in
      columns (S i) match col !! h with Some _ => col | None => <[h := i]> col end header
  end.

Definition get_field (col : gmap string nat) (rec : list string) (key : string) : string :=
  match col !! key with
  | Some i => match rec !! i with Some v => trim_space v | None => "" end
  | None => ""
  end.

Definition blank_record (rec : list string) : bool :=
  match rec with [] => true | [v] => String.eqb (trim_space v) "" | _ => false end.

Fixpoint import_rows (col : gmap string nat) (nameIdx : nat) (line : Z) (out : list ITarget)
    (rows : list (option (list string))) : csv_result :=
  match rows with
  | [] => CsvOk out
  | row :: rows =>
      let line := line + 1 in
      match row with
      | None => CsvErr (CsvLine line)
      | Some rec =>
          if blank_record rec then import_rows col nameIdx line out rows
          else match rec !! nameIdx with
               | None => CsvPanic
               | Some v =>
                   let name := trim_space v in
                   if String.eqb name "" then CsvErr (CsvEmptyName line)
                   else
                     let t := {| i_Name := name; i_Role := get_field col rec "role";
                                 i_Site := get_field col rec "site";
                                 i_Tags := SplitTags (get_field col rec "tags");
                                 i_Status := get_field col rec "status";
                                 i_Source := ""; i_Stale := false; i_Sources := None |} in
                     import_rows col nameIdx line (out ++ [t]) rows
               end
      end
  end.

Definition ImportCSV (records : list (option (list string))) : csv_result :=
  match records with
  | [] | None :: _ => CsvErr CsvHeader
  | Some header :: rows =>
      let col := columns 0 ∅ header in
      match col !! "name" with
      | None => CsvErr (CsvNoName header)
      | Some nameIdx => import_rows col nameIdx 1 [] rows
      end
  end.
End Csv.

(** ** Lemmas *)

Definition bad_record (nameIdx : nat) (rec : list string) : bool :=
  negb (blank_record rec) && (List.length rec <=? nameIdx)%nat.

(** A row that gives a device. *)
Definition good_row (nameIdx : nat) (row : option (list string)) : Prop :=
  ∃ rec, row = Some rec ∧ (blank_record rec = true ∨ ∃ v, rec !! nameIdx = Some v ∧ trim_space v ≠ "").

Lemma import_rows_good `{Unicode} col n line out rows :
  (∀ row, row ∈ rows → good_row n row) →
  ∃ new, import_rows col n line out rows = CsvOk (out ++ new) ∧
    List.length new = List.length (List.filter (λ row,
      match row with Some rec => negb (blank_record rec) | None => false end) rows) ∧
    ∀ t, t ∈ new → i_Name t ≠ "".
Proof.
  revert line out. induction rows as [|row rows IH]; intros line out Hg; cbn [import_rows].
  { exists []. rewrite app_nil_r. split_and!; [done..|]. by intros ? ?%not_elem_of_nil. }
  destruct (Hg row) as (rec & -> & Hrow); [by left|]. cbn [List.filter].
  assert (Hg' : ∀ r, r ∈ rows → good_row n r) by (intros r Hr; apply Hg; by right).
  destruct (blank_record rec) eqn:Hb; cbn [negb]; [by apply IH|].
  destruct Hrow as [|(v & Hv & Hne)]; [done|]. rewrite Hv.
  destruct (String.eqb_spec (trim_space v) ""); [done|].
  match goal with |- context [out ++ [?t]] =>
    destruct (IH (line + 1) (out ++ [t]) Hg') as (new & Hi & Hlen & Hn); exists (t :: new) end.
  rewrite Hi, <- app_assoc. split_and!; [done|cbn; by rewrite Hlen|].
  intros u [->|Hu]%elem_of_cons; auto.
Qed.

(** importing a CSV export either fails with an error or gives one device,
    with a name, per non-blank row, as long as every non-blank row reaches the
    name column; a row that stops short of it makes the import panic with an
    index out of range instead of reporting the line. *)
Theorem ImportCSV_correct `{Unicode} header rows n :
  columns 0 ∅ header !! "name" = Some n →
  ((∀ row, row ∈ rows → good_row n row) →
     ∃ ts, ImportCSV (Some header :: rows) = CsvOk ts ∧
       List.length ts = List.length (List.filter (λ row,
         match row with Some rec => negb (blank_record rec) | None => false end) rows) ∧
       ∀ t, t ∈ ts → i_Name t ≠ "") ∧
  (∀ pre rec post, rows = pre ++ Some rec :: post → (∀ row, row ∈ pre → good_row n row) →
     bad_record n rec = true → ImportCSV (Some header :: rows) = CsvPanic).
Proof.
  intros Hn. unfold ImportCSV. rewrite Hn. split.
  - intros Hg. apply (import_rows_good _ _ 1 []). done.
  - intros pre rec post -> Hpre Hbad. generalize 1, (@nil ITarget).
    induction pre as [|row pre IH]; intros line out; cbn [app import_rows].
    + unfold bad_record in Hbad. apply andb_prop in Hbad as [Hb Hl].
      apply negb_true_iff in Hb. rewrite Hb. apply Nat.leb_le in Hl.
      by rewrite (lookup_ge_None_2 _ _ Hl).
    + destruct (Hpre row) as (r & -> & Hrow); [by left|].
      destruct (blank_record r) eqn:Hb; [apply IH; intros ? ?; apply Hpre; by right|].
      destruct Hrow as [|(v & Hv & Hne)]; [congruence|]. rewrite Hv.
      destruct (String.eqb_spec (trim_space v) ""); [done|].
      apply IH. intros ? ?. apply Hpre. by right.
Qed.

Lemma ImportCSV_correct_witness :
  ∃ H : Unicode,
    ImportCSV [Some ["role"; "Hostname"]; Some ["core"; "core-1"]; Some ["edge"]] = CsvPanic.
Proof.
  exists ascii_tables.
  apply (proj2 (@ImportCSV_correct ascii_tables ["role"; "Hostname"]
           [Some ["core"; "core-1"]; Some ["edge"]] 1%nat eq_refl) [Some ["core"; "core-1"]] ["edge"] []).
  - reflexivity.
  - intros row ->%list_elem_of_singleton. exists ["core"; "core-1"]. split; [done|]. right.
    exists "core-1". split; [done|]. by vm_compute.
  - reflexivity.
Defined.
