(* ===== verification/GateArgs.v ===== *)
(** * A call's arguments: internal/gate/args.go

    Parsing the arguments object, extracting and checking the target names and
    the per-call caps. *)

From S2P Require Import Prelude GoStd Json GoNetip ToolClass ServerProfile Values Command ConfigPayload Classifier.

Open Scope string_scope.
Open Scope Z_scope.
Open Scope list_scope.

Definition parseNotObject : string := "not_object".
Definition parseInvalidJSON : string := "invalid_json".
Definition parseInvalidUTF8 : string := "invalid_utf8".
Definition parseDuplicateKey : string := "duplicate_key".
Definition parseTrailingData : string := "trailing_data".

Section Parse.
Context `{GoFloat}.

(** The first token of a text that is not an object: a complete value, or
    nothing a decoder takes. *)
Definition not_object_error (t : token) : string :=
  match t with
  | TLBrack | TStr _ | TBool _ | TNull => parseNotObject
  | TNum n => if float_in_range n then parseNotObject else parseInvalidJSON
  | _ => parseInvalidJSON
  end.

(** A value is decoded with a nesting limit of its own, one level below the
    object; a key given twice is refused at the outermost level only. *)
Definition parseArguments (raw : string) : result string (list (string * any)) :=
  let trimmed := trim_space raw in
  if String.eqb trimmed "" || String.eqb trimmed "null" then Ok []
  else if negb (valid_utf8 trimmed) then Err parseInvalidUTF8
  else match tokens trimmed with
  | TLBrace :: _ =>
      match run float_in_range (S maxNestingDepth) true (tokens trimmed) MVal [] with
      | JOk (AObj l) [] => Ok l
      | JOk _ _ => Err parseTrailingData
      | JDup => Err parseDuplicateKey
      | JBad => Err parseInvalidJSON
      end
  | t :: _ => Err (not_object_error t)
  | [] => Err parseInvalidJSON
  end.
End Parse.

(** ** Target names *)

Definition maxNameLen : Z := 253.

Definition hostByte (c : ascii) : bool :=
  in_range 97 122 (bz c) || in_range 65 90 (bz c) || in_range 48 57 (bz c) ||
  Ascii.eqb c "-" || Ascii.eqb c "_" || Ascii.eqb c ".".

Fixpoint skip_digits (s : string) : nat * string :=
  match s with
  | String c s' => if is_digit_b c then let '(n, r) := skip_digits s' in (S n, r) else (O, s)
  | EmptyString => (O, EmptyString)
  end.

(** The exponent of a number: what is left after it, [None] when it has no
    digit. *)
Definition skip_exponent (s : string) : option string :=
  match s with
  | String c s' =>
      if Ascii.eqb c "e" || Ascii.eqb c "E" then
        let s' := match s' with
          | String d s'' => if Ascii.eqb d "+" || Ascii.eqb d "-" then s'' else s'
          | EmptyString => s' end in
        let '(n, r) := skip_digits s' in if (n =? 0)%nat then None else Some r
      else Some s
  | EmptyString => Some s
  end.

Definition jsonScalar (s : string) : bool :=
  if mem s ["null"; "true"; "false"; "NaN"; "Infinity"] then true
  else
    let '(n, r) := skip_digits s in
    if (n =? 0)%nat then false
    else
      let frac := match r with
        | String c r' =>
            if Ascii.eqb c "." then
              let '(m, r'') := skip_digits r' in if (m =? 0)%nat then None else Some r''
            else Some r
        | EmptyString => Some r end in
      match frac with
      | None => false
      | Some r => match skip_exponent r with Some rest => String.eqb rest "" | None => false end
      end.

Definition numericLabel (l : string) : bool :=
  match l with
  | String a (String b l') =>
      if Ascii.eqb a "0" && (Ascii.eqb b "x" || Ascii.eqb b "X") then s_all hexByte l'
      else s_all is_digit_b l
  | _ => s_all is_digit_b l
  end.

Definition label_ok (l : string) : bool :=
  negb (String.eqb l "") && (slen l <=? 63) && negb (has_prefix l "-").

Definition validTargetName (s : string) : bool :=
  if String.eqb s "" || (slen s >? maxNameLen) then false
  else if contains_b ":" s then
    match parse_addr s with Some (Addr6 false) => true | _ => false end
  else if negb (s_all hostByte s) then false
  else if jsonScalar s then false
  else
    let labels := split_b "." s in
    if negb (forallb label_ok labels) then false
    else if numericLabel (List.last labels EmptyString)
    then match parse_addr s with Some Addr4 => true | _ => false end
    else true.

(** ** The targets of a call *)

(** [None] is targetBadName. *)
Definition add_name (names : list string) (s : string) : option (list string) :=
  if negb (validTargetName s) then None
  else Some (if mem s names then names else names ++ [s]).

Fixpoint add_names (names : list string) (l : list string) : option (list string) :=
  match l with
  | [] => Some names
  | s :: l => match add_name names s with Some names => add_names names l | None => None end
  end.

(** The names of one target_params and one targets_params value; [None] when
    it is not a string (or an array of strings). *)
Definition target_value (v : any) : option (list string) :=
  match v with ANil => Some [] | AStr s => Some [s] | _ => None end.

Definition targets_value (v : any) : option (list string) :=
  match v with
  | ANil => Some []
  | AStr s => if String.eqb s "" then Some [] else Some (split_b "," s)
  | AArr l => mapM (λ e, match e with AStr s => Some s | _ => None end) l
  | _ => None
  end.

Definition group_set (v : any) : bool :=
  match v with
  | ANil => false
  | AStr s => negb (String.eqb s "")
  | AArr l => (0 <? List.length l)%nat
  | _ => true
  end.

Fixpoint add_params (value : any → option (list string)) (args : arguments) (names : list string)
    (params : list string) : option (list string) :=
  match params with
  | [] => Some names
  | p :: params =>
      match value (arg args p) with
      | None => None
      | Some l => match add_names names l with
                  | Some names => add_params value args names params
                  | None => None
                  end
      end
  end.

(** [targets]: the names and whether a group is selected; [None] is a bad
    name. *)
Definition targets (spec : ToolSpec) (args : arguments) : option (list string * bool) :=
  match add_params target_value args [] (TargetParams spec) with
  | None => None
  | Some names =>
      match add_params targets_value args names (TargetsParams spec) with
      | None => None
      | Some names => Some (names, existsb (λ p, group_set (arg args p)) (GroupParams spec))
      end
  end.

Definition declaresTargets (spec : ToolSpec) : bool :=
  (0 <? List.length (TargetParams spec))%nat || (0 <? List.length (TargetsParams spec))%nat ||
  (0 <? List.length (GroupParams spec))%nat.

(** ** The per-call caps *)

Definition maxCommandsPerCall : Z := 64.
Definition maxTargetsPerCall : Z := 256.
Definition parseTooManyCommands : string := "too_many_commands".
Definition parseTooManyTargets : string := "too_many_targets".
Definition reasonTooManyCommands : string :=
  "a call may carry at most 64 commands; split it into smaller calls".
Definition reasonTooManyTargets : string :=
  "a call may name at most 256 targets; split it into smaller calls".

Definition countString (s : string) (commas : bool) : Z :=
  if negb commas then 1 else if String.eqb s "" then 0 else count_b "," s + 1.

Definition sum_by {A} (f : A → Z) (l : list A) : Z := foldr (λ x n, f x + n) 0 l.

Fixpoint countValues (v : any) (commas : bool) : Z :=
  match v with
  | ANil => 0
  | AStr s => countString s commas
  | AStrs l => sum_by (λ e, countString e commas) l
  | AArr l => sum_by (λ e, countValues e commas) l
  | _ => 1
  end.

Definition overCaps (spec : ToolSpec) (args : arguments) : option (string * string) :=
  if sum_by (λ p, countValues (arg args p) false) (CommandParams spec) >? maxCommandsPerCall
  then Some (parseTooManyCommands, reasonTooManyCommands)
  else if sum_by (λ p, countValues (arg args p) true)
            (TargetParams spec ++ TargetsParams spec ++ GroupParams spec) >? maxTargetsPerCall
  then Some (parseTooManyTargets, reasonTooManyTargets)
  else None.

(** ** Lemmas and properties *)

Lemma trim_object_text num_ok es : wf_entries num_ok es = true → trim_space (object_text es) = object_text es.
Proof.
  intros Hw. unfold object_text. cbn [String.append].
  apply (trim_space_id "{" _ "}"); [done..|by eapply object_text_valid].
Qed.

Lemma parse_object_text `{GoFloat} es :
  wf_entries float_in_range es = true →
  (∀ e, e ∈ es → (depth (snd e) ≤ maxNestingDepth)%nat) →
  parseArguments (object_text es) =
  if decide (NoDup (map fst es)) then Ok (set_all [] es) else Err parseDuplicateKey.
Proof.
  intros Hw Hd. unfold parseArguments.
  pose proof (trim_object_text _ _ Hw) as Ht.
  assert (Hv : valid_utf8 (object_text es) = true).
  { unfold object_text. apply valid_utf8_app; [done|]. apply valid_utf8_app; [|done].
    by eapply object_text_valid. }
  rewrite Ht, Hv. assert (He : String.eqb (object_text es) "" || String.eqb (object_text es) "null" = false) by done.
  rewrite He. cbn [negb].
  pose proof (run_object_text float_in_range (S maxNestingDepth) true es Hw) as Hrun.
  rewrite (tokens_object float_in_range) in * by done.
  rewrite Hrun; [|lia|intros e Hin; specialize (Hd e Hin); lia]. cbn [andb].
  assert (Hr : repeats [] es = false ↔ NoDup (map fst es)).
  { rewrite repeats_spec. naive_solver. }
  destruct (decide (NoDup (map fst es))) as [Hn|Hn].
  - by rewrite (proj2 Hr Hn).
  - by destruct (repeats [] es); [|destruct Hn; apply Hr].
Qed.

(** what the gate reads is what a JSON text says, and nothing ambiguous
    passes: for an object written with any keys in any order, the arguments are
    its entries as a map, and a key given twice at the top level is refused as
    a duplicate, wherever it is and whatever the two values are. *)
Theorem parseArguments_object `{GoFloat} es :
  wf_entries float_in_range es = true →
  (∀ e, e ∈ es → (depth (snd e) ≤ maxNestingDepth)%nat) →
  parseArguments (object_text es) =
  if decide (NoDup (map fst es)) then Ok (set_all [] es) else Err parseDuplicateKey.
Proof. apply parse_object_text. Qed.

Lemma parseArguments_object_witness :
  ∃ H : GoFloat,
    parseArguments (object_text [("host", AStr "a"); ("cmd", ANum "1"); ("host", AStr "b")]) =
    Err parseDuplicateKey.
Proof.
  exists plain_floats.
  assert (Hd : ¬ NoDup ["host"; "cmd"; "host"]) by (intros Hn; vm_compute in Hn; by inversion Hn as [|? ? Hx]; destruct Hx; right; left).
  assert (Hs : @parseArguments plain_floats (object_text [("host", AStr "a"); ("cmd", ANum "1"); ("host", AStr "b")]) =
    if decide (NoDup ["host"; "cmd"; "host"]) then Ok (set_all [] [("host", AStr "a"); ("cmd", ANum "1"); ("host", AStr "b")])
    else Err parseDuplicateKey).
  { apply (@parseArguments_object plain_floats); [by vm_compute|].
    intros e He. repeat (apply elem_of_cons in He as [->|He]; [cbn; unfold maxNestingDepth; lia|]).
    by apply not_elem_of_nil in He. }
  rewrite Hs. by destruct (decide (NoDup _)).
Defined.

(** A byte of an accepted name. *)
Definition name_byte (c : ascii) : bool := hostByte c || Ascii.eqb c ":".

Lemma digit_name c : is_digit_b c = true → name_byte c = true.
Proof.
  unfold name_byte, hostByte, is_digit_b. intros ->. by rewrite orb_true_r.
Qed.

Lemma hex_name c : hexByte c = true → name_byte c = true.
Proof.
  unfold hexByte, name_byte, hostByte, in_range. intros Hc.
  repeat (apply orb_true_iff in Hc as [Hc|Hc]); breflect; rewrite !orb_true_iff, !andb_true_iff, !Z.leb_le; lia.
Qed.

Lemma ipv4_fields_bytes pos dl val dot s : ipv4_fields pos dl val dot s = true → s_all name_byte s = true.
Proof.
  revert pos dl val dot. induction s as [|c s IH]; intros pos dl val dot; [done|]. cbn [ipv4_fields s_all].
  destruct (is_digit_b c) eqn:Hd.
  - destruct (_ && _); [done|]. destruct (_ >? _); [done|]. intros Hs. rewrite digit_name by done. by eapply IH.
  - destruct (Ascii.eqb_spec c ".") as [->|]; [|done]. destruct (_ || _); [done|].
    destruct (_ =? _)%nat; [done|]. intros Hs. by rewrite (IH _ _ _ _ Hs).
Qed.

Lemma hex_run_split s : let '(n, r) := hex_run s in
  ∃ h, s = (h ++ r)%string ∧ s_all hexByte h = true.
Proof.
  induction s as [|c s IH]; [by exists EmptyString|]. cbn [hex_run]. destruct (hexByte c) eqn:Hc.
  - destruct (hex_run s) as [n r]. destruct IH as (h & -> & Hh). exists (String c h). cbn. by rewrite Hc.
  - by exists EmptyString.
Qed.

Lemma ipv6_groups_bytes room e s : ipv6_groups room e s = true → s_all name_byte s = true.
Proof.
  assert (Hdone : ∀ r e s, ipv6_done r e s = true → s_all name_byte s = true).
  { intros r e' s'. unfold ipv6_done. intros [He _]%andb_prop. by apply String.eqb_eq in He as ->. }
  revert e s. induction room as [|room IH]; intros e s; cbn [ipv6_groups]; [apply Hdone|].
  pose proof (hex_run_split s) as Hs. destruct (hex_run s) as [n r]. destruct Hs as (h & -> & Hh).
  destruct (_ || _); [done|].
  assert (Hh' : s_all name_byte h = true) by (eapply s_all_impl; [apply hex_name|done]).
  rewrite s_all_app, Hh'. cbn [andb]. destruct r as [|c r]; [done|].
  destruct (Ascii.eqb_spec c ".") as [->|Hd].
  { destruct (_ && _); [done|]. destruct (_ <? _)%nat; [done|]. intros [Hp _]%andb_prop.
    apply ipv4_fields_bytes in Hp. rewrite s_all_app in Hp. by apply andb_prop in Hp as [_ ?]. }
  destruct (Ascii.eqb_spec c ":") as [->|Hc].
  2:{ destruct c as [[] [] [] [] [] [] [] []]; try done. }
  destruct r as [|d r]; [done|]. destruct (Ascii.eqb_spec d ":") as [->|Hd2].
  - destruct e; [done|]. destruct r as [|d r]; [done|]. intros Hi%IH. done.
  - assert (Hi : ipv6_groups room e (String d r) = true → s_all name_byte (String ":" (String d r)) = true)
      by (intros Hi%IH; done).
    destruct d as [[] [] [] [] [] [] [] []]; try (exact Hi). by destruct Hd2.
Qed.

(** What an accepted target name is. *)
Record target_name_ok (s : string) : Prop := {
  name_len : 1 <= slen s <= 253;
  name_bytes : s_all name_byte s = true;
  name_no_option : has_prefix s "-" = false;
  name_not_json : jsonScalar s = false;
  name_shape :
    (contains_b ":" s = true ∧ parse_addr s = Some (Addr6 false)) ∨
    (contains_b ":" s = false ∧ (∀ l, l ∈ split_b "." s → label_ok l = true) ∧
     (numericLabel (List.last (split_b "." s) EmptyString) = true → parse_addr s = Some Addr4));
}.

Lemma jsonScalar_colon s : contains_b ":" s = true → jsonScalar s = false.
Proof.
  assert (Hskip : ∀ s, let '(n, r) := skip_digits s in contains_b ":" s = contains_b ":" r).
  { induction s0 as [|c s0 IH]; [done|]. cbn [skip_digits]. destruct (is_digit_b c) eqn:Hd; [|done].
    destruct (skip_digits s0) as [n r]. cbn [contains_b]. rewrite IH.
    destruct (Ascii.eqb_spec ":" c) as [<-|]; done. }
  intros Hc. unfold jsonScalar. destruct (mem s _) eqn:Hm.
  { apply mem_true in Hm. repeat (apply elem_of_cons in Hm as [->|Hm]; [done|]). by apply not_elem_of_nil in Hm. }
  pose proof (Hskip s) as H1. destruct (skip_digits s) as [n r]. rewrite H1 in Hc. clear H1 Hm.
  destruct (n =? 0)%nat; [done|].
  set (frac := match r with String _ _ => _ | EmptyString => _ end).
  assert (Hf : ∀ r', frac = Some r' → contains_b ":" r' = true).
  { unfold frac. destruct r as [|c r]; [intros r' [= <-]; done|].
    destruct (Ascii.eqb_spec c ".") as [->|]; [|by intros r' [= <-]].
    pose proof (Hskip r) as H1. destruct (skip_digits r) as [m r2]. destruct (m =? 0)%nat; [done|].
    intros r' [= <-]. rewrite <- H1. done. }
  destruct frac as [r'|]; [|done]. specialize (Hf r' eq_refl). unfold skip_exponent.
  destruct r' as [|c r']; [done|]. destruct (Ascii.eqb c "e" || Ascii.eqb c "E") eqn:He.
  - set (t := match r' with String _ _ => _ | EmptyString => _ end).
    assert (Ht : contains_b ":" t = true).
    { assert (Hr : contains_b ":" r' = true).
      { cbn [contains_b] in Hf. apply orb_true_iff in Hf as [Hf|Hf]; [|done].
        apply Ascii.eqb_eq in Hf as <-. done. }
      unfold t. destruct r' as [|d r']; [done|]. destruct (Ascii.eqb d "+" || Ascii.eqb d "-") eqn:Hd; [|done].
      cbn [contains_b] in Hr. apply orb_true_iff in Hr as [Hr|Hr]; [|done].
      apply Ascii.eqb_eq in Hr as <-. done. }
    pose proof (Hskip t) as H1. destruct (skip_digits t) as [m r2]. rewrite H1 in Ht.
    destruct (m =? 0)%nat; [done|]. by destruct r2.
  - done.
Qed.

(** An IPv6 address has only name bytes and no leading '-'. *)
Lemma addr6_name s :
  parse_addr s = Some (Addr6 false) → s_all name_byte s = true ∧ has_prefix s "-" = false.
Proof.
  intros Hs. assert (Hp6 : parse_ipv6 s = true).
  { revert Hs. unfold parse_addr. destruct (first_sep s) as [c|]; [|done].
    destruct c as [[] [] [] [] [] [] [] []]; try done; try (by destruct (parse_ipv4 s)).
    destruct (cut_b "%" s) as [[a z]|]; [|by destruct (parse_ipv6 s)].
    destruct (String.eqb z ""); [done|]. by destruct (parse_ipv6 a). }
  unfold parse_ipv6 in Hp6. destruct (cut_prefix "::" s) as [t|] eqn:Ec.
  - apply cut_prefix_Some in Ec as ->. split; [|done]. rewrite s_all_app. cbn [s_all andb].
    destruct t; [done|]. by apply ipv6_groups_bytes in Hp6.
  - split; [by eapply ipv6_groups_bytes|]. destruct s as [|c s]; [done|].
    unfold has_prefix. cbn [cut_prefix]. destruct (Ascii.eqb_spec "-" c) as [<-|]; [|done]. done.
Qed.

Lemma name_host_bytes s :
  s_all name_byte s = true → s_all (λ d, negb (Ascii.eqb ":" d)) s = true → s_all hostByte s = true.
Proof.
  induction s as [|c s IH]; [done|]. cbn [s_all]. intros [Hb1 Hb2]%andb_prop [Hc1 Hc2]%andb_prop.
  rewrite IH by done. unfold name_byte in Hb1. apply orb_true_iff in Hb1 as [->|Hb1]; [done|].
  rewrite Ascii.eqb_sym, Hb1 in Hc1. done.
Qed.

(** The first label's check covers the whole name. *)
Lemma labels_no_option s :
  (∀ l, l ∈ split_b "." s → label_ok l = true) → has_prefix s "-" = false.
Proof.
  intros Hl. destruct (has_prefix s "-") eqn:E; [|done]. exfalso. apply has_prefix_spec in E as [t ->].
  destruct (split_b_cons "." t) as (w & ws & Ew).
  assert (Hs : split_b "." (String "-" t) = String "-" w :: ws) by (cbn [split_b]; by rewrite Ew).
  specialize (Hl (String "-" w)). cbn [String.append] in Hl. rewrite Hs in Hl.
  assert (label_ok (String "-" w) = true) as Hbad by (apply Hl; by left).
  unfold label_ok in Hbad. by rewrite !andb_false_r in Hbad.
Qed.

(** an accepted target name is safe to hand to the upstream and cannot be
    read as anything else: 1 to 253 bytes of letters, digits, '-', '_', '.' and
    ':', never starting with '-', never text JSON decodes to a non-string; with
    a ':' it is an IPv6 address without a zone, without one it is dot-separated
    labels of 1 to 63 bytes none of which starts with '-', and when the last
    label is numeric the whole name is a canonical dotted quad. *)
Theorem validTargetName_correct s : validTargetName s = true ↔ target_name_ok s.
Proof.
  unfold validTargetName, maxNameLen. rewrite Z.gtb_ltb. destruct (String.eqb_spec s "") as [->|Hne].
  { split; [done|]. intros []. unfold slen in *; cbn in *; lia. }
  assert (1 <= slen s) by (destruct s; [done|unfold slen; cbn; lia]). cbn [orb].
  destruct (Z.ltb_spec 253 (slen s)); [split; [done|intros []; lia]|].
  destruct (contains_b ":" s) eqn:Hc.
  - split; [|intros [_ _ _ _ [[_ ->]|[? _]]]; congruence].
    intros Hp. assert (Hs : parse_addr s = Some (Addr6 false)) by (destruct (parse_addr s) as [[|[]]|]; done).
    destruct (addr6_name s Hs). constructor; [lia|done|done|by apply jsonScalar_colon|by left].
  - destruct (s_all hostByte s) eqn:Hh; cbn [negb].
    2:{ split; [done|]. intros [_ Hb _ _ _]. exfalso. rewrite contains_b_all in Hc.
        rewrite (name_host_bytes s) in Hh; done. }
    assert (Hbytes : s_all name_byte s = true).
    { eapply s_all_impl; [|exact Hh]. intros c Hcb. unfold name_byte. by rewrite Hcb. }
    destruct (jsonScalar s) eqn:Hj; [split; [done|intros []; congruence]|].
    destruct (forallb label_ok (split_b "." s)) eqn:Hl; cbn [negb].
    2:{ split; [done|]. intros [_ _ _ _ [[? _]|(_ & Hall & _)]]; [congruence|].
        rewrite (proj2 (forallb_elem _ _)) in Hl by done. done. }
    rewrite forallb_elem in Hl.
    pose proof (labels_no_option s Hl) as Hopt.
    destruct (numericLabel _) eqn:Hn.
    + split.
      * intros Hp. constructor; try done. right. split_and!; [done..|].
        intros _. by destruct (parse_addr s) as [[|[]]|].
      * intros [_ _ _ _ [[? _]|(_ & _ & Hnum)]]; [congruence|]. by rewrite Hnum.
    + split; [|done]. intros _. constructor; try done. right. split_and!; [done..|]. by rewrite Hn.
Qed.

Lemma sum_by_app {A} (f : A → Z) l1 l2 : sum_by f (l1 ++ l2) = sum_by f l1 + sum_by f l2.
Proof. induction l1 as [|x l1 IH]; cbn; [done|]. unfold sum_by in *. cbn. rewrite IH. lia. Qed.

Lemma sum_by_flat_map {A B} (f : A → Z) (g : A → list B) l :
  (∀ x, x ∈ l → Z.of_nat (List.length (g x)) <= f x) →
  Z.of_nat (List.length (flat_map g l)) <= sum_by f l.
Proof.
  induction l as [|x l IH]; intros Hl; [done|]. cbn [flat_map]. rewrite length_app. unfold sum_by in *. cbn [foldr].
  specialize (Hl x) as Hx. specialize (IH (λ y Hy, Hl y (list_elem_of_further _ _ _ Hy))).
  specialize (Hx (list_elem_of_here _ _)). lia.
Qed.

Lemma count_raw `{GoFloat} v : Z.of_nat (List.length (rawValues v)) <= countValues v false.
Proof.
  induction v as [|b|n|s|l|l IH|l IH] using any_nested_ind; cbn [rawValues countValues List.length]; try lia.
  - cbn. lia.
  - unfold sum_by. induction l as [|x l IHl]; [done|]. cbn [foldr List.length]. unfold countString at 1.
    cbn [negb]. lia.
  - rewrite Forall_forall in IH. by apply sum_by_flat_map.
Qed.

Lemma split_b_count c s : Z.of_nat (List.length (split_b c s)) = count_b c s + 1.
Proof.
  induction s as [|d s IH]; [done|]. cbn [split_b count_b].
  destruct (split_b_cons c s) as (w & ws & Ew). rewrite Ew in *. destruct (Ascii.eqb_spec d c), (Ascii.eqb_spec c d);
    subst; cbn [List.length] in *; try done; lia.
Qed.

(** The names of one value, against its count. *)
Lemma target_value_count v l : target_value v = Some l → Z.of_nat (List.length l) <= countValues v true ∨ l = [""].
Proof.
  destruct v; try done; cbn [target_value countValues]; intros [= <-]; [by left|].
  destruct (String.eqb_spec s "") as [->|Hs]; [by right|]. left. unfold countString. cbn [negb].
  apply String.eqb_neq in Hs. rewrite Hs. cbn [List.length]. pose proof (split_b_count "," s).
  destruct (split_b_cons "," s) as (w & ws & Ew). rewrite Ew in *. cbn [List.length] in *. lia.
Qed.

Lemma targets_value_count v l :
  targets_value v = Some l → Z.of_nat (List.length l) <= countValues v true ∨ "" ∈ l.
Proof.
  destruct v; try done; cbn [targets_value countValues].
  - intros [= <-]. left. cbn. lia.
  - unfold countString. destruct (String.eqb s "") eqn:Hs; intros [= <-]; left; cbn [negb]; rewrite ?Hs; [cbn; lia|].
    rewrite split_b_count. lia.
  - intros Hl%mapM_Some. unfold sum_by. induction Hl as [|v s vs l' Hv Hl IH]; [left; cbn; lia|].
    destruct v; simplify_eq.
    destruct (String.eqb_spec s "") as [->|Hs]; [right; by left|].
    destruct IH as [IH|IH]; [left|right; by right].
    cbn [foldr countValues]. unfold countString. cbn [negb]. apply String.eqb_neq in Hs. rewrite Hs.
    cbn [List.length]. pose proof (split_b_count "," s).
    destruct (split_b_cons "," s) as (w & ws & Ew). rewrite Ew in *. cbn [List.length] in *. lia.
Qed.

Lemma add_name_length names s names' :
  add_name names s = Some names' →
  s ≠ "" ∧ validTargetName s = true ∧ Z.of_nat (List.length names') <= Z.of_nat (List.length names) + 1 ∧
  (NoDup names → NoDup names') ∧ (∀ x, x ∈ names' ↔ x ∈ names ∨ x = s).
Proof.
  unfold add_name. destruct (validTargetName s) eqn:Hv; [|done]. cbn [negb]. intros [= <-].
  split; [by intros ->|]. split; [done|]. destruct (mem s names) eqn:Hm.
  - apply mem_true in Hm. split; [lia|]. split; [done|]. intros x. split; [by left|]. by intros [?| ->].
  - apply mem_false in Hm. rewrite length_app. cbn [List.length]. split; [lia|]. split.
    + intros Hnd. apply NoDup_app. split; [done|]. split; [|apply NoDup_singleton].
      by intros x Hx ->%list_elem_of_singleton.
    + intros x. rewrite elem_of_app, list_elem_of_singleton. done.
Qed.

(** What the accumulated names are: valid, distinct, and no more than given. *)
Definition names_ok (names names' l : list string) : Prop :=
  "" ∉ l ∧ (∀ x, x ∈ l → validTargetName x = true) ∧
  Z.of_nat (List.length names') <= Z.of_nat (List.length names) + Z.of_nat (List.length l) ∧
  (NoDup names → NoDup names') ∧ (∀ x, x ∈ names' ↔ x ∈ names ∨ x ∈ l).

Lemma add_names_ok l names names' : add_names names l = Some names' → names_ok names names' l.
Proof.
  revert names. induction l as [|s l IH]; intros names; cbn [add_names].
  { intros [= <-]. split; [apply not_elem_of_nil|]. split; [by intros ? ?%not_elem_of_nil|]. split; [cbn; lia|].
    split; [done|]. intros x. rewrite elem_of_nil. naive_solver. }
  destruct (add_name names s) as [n1|] eqn:E; [|done].
  apply add_name_length in E as (Hs & Hv & Hlen & Hnd & Hin).
  intros (H1 & H2 & H3 & H4 & H5)%IH. split; [|split; [|split; [|split]]].
  - rewrite not_elem_of_cons. split; [by intros <-|done].
  - intros x [->|Hx]%elem_of_cons; auto.
  - cbn [List.length]. lia.
  - auto.
  - intros x. rewrite H5, Hin, elem_of_cons. naive_solver.
Qed.

Lemma add_params_ok value args params names names' :
  (∀ v l, value v = Some l → Z.of_nat (List.length l) <= countValues v true ∨ "" ∈ l) →
  add_params value args names params = Some names' →
  Z.of_nat (List.length names') <= Z.of_nat (List.length names) + sum_by (λ p, countValues (arg args p) true) params ∧
  (NoDup names → NoDup names') ∧
  (∀ x, x ∈ names' → x ∈ names ∨ validTargetName x = true) ∧
  (∀ x, x ∈ names' ↔ x ∈ names ∨ ∃ p l, p ∈ params ∧ value (arg args p) = Some l ∧ x ∈ l).
Proof.
  intros Hval. revert names. induction params as [|p ps IH]; intros names; cbn [add_params].
  { intros [= <-]. split; [cbn; lia|]. split; [done|]. split; [by left|]. intros x. split; [by left|].
    intros [?|(? & ? & ?%not_elem_of_nil & _)]; done. }
  destruct (value (arg args p)) as [l|] eqn:E; [|done].
  destruct (add_names names l) as [n1|] eqn:E1; [|done].
  apply add_names_ok in E1 as (H1 & H2 & H3 & H4 & H5).
  destruct (Hval _ _ E) as [Hc|Hc]; [|done].
  intros (I1 & I2 & I3 & I4)%IH. split; [|split; [|split]].
  - unfold sum_by in *. cbn [foldr]. lia.
  - auto.
  - intros x [Hx|Hx]%I3; [|by right]. apply H5 in Hx as [Hx|Hx]; auto.
  - intros x. rewrite I4, H5. setoid_rewrite elem_of_cons. split; [naive_solver|].
    intros [?|(q & l' & [->|Hq] & Hv & Hx)]; [auto| |naive_solver].
    left. right. rewrite E in Hv. by simplify_eq.
Qed.

Lemma countValues_nonneg v : 0 <= countValues v true.
Proof.
  assert (Hs : ∀ s, 0 <= countString s true).
  { intros s. unfold countString. cbn. destruct (String.eqb s ""); [lia|]. pose proof (split_b_count "," s). lia. }
  induction v as [|b|n|s|l|l IH|l IH] using any_nested_ind; cbn [countValues]; try lia.
  - apply Hs.
  - unfold sum_by. induction l as [|x l IHl]; [done|]. cbn [foldr]. specialize (Hs x). lia.
  - unfold sum_by. induction IH as [|x l Hx Hl IHl]; [done|]. cbn [foldr]. lia.
Qed.

(** The extracted names: distinct, valid, exactly the ones the target
    parameters carry, and no more than [overCaps] counts. *)
Lemma targets_names spec args names groups :
  targets spec args = Some (names, groups) →
  NoDup names ∧ (∀ x, x ∈ names → validTargetName x = true) ∧
  (∀ x, x ∈ names ↔
     (∃ p, p ∈ TargetParams spec ∧ arg args p = AStr x) ∨
     (∃ p l, p ∈ TargetsParams spec ∧ targets_value (arg args p) = Some l ∧ x ∈ l)) ∧
  Z.of_nat (List.length names) <=
    sum_by (λ p, countValues (arg args p) true) (TargetParams spec ++ TargetsParams spec).
Proof.
  unfold targets. destruct (add_params target_value args [] (TargetParams spec)) as [n1|] eqn:E1; [|done].
  destruct (add_params targets_value args n1 (TargetsParams spec)) as [n2|] eqn:E2; [|done].
  intros [= <- <-].
  destruct (add_params_ok target_value args (TargetParams spec) [] n1) as (L1 & N1 & V1 & I1); [|done|].
  { intros v l [?| ->]%target_value_count; [by left|right; by left]. }
  destruct (add_params_ok targets_value args (TargetsParams spec) n1 n2) as (L2 & N2 & V2 & I2); [|done|].
  { apply targets_value_count. }
  split; [apply N2, N1; constructor|]. split; [|split].
  - intros x [Hx|Hx]%V2; [|done]. by apply V1 in Hx as [?%not_elem_of_nil|?].
  - intros x. rewrite I2, I1, elem_of_nil. split.
    + intros [[[]|(p & l & Hp & Hv & Hx)]|?]; [|by right]. left. exists p. split; [done|].
      destruct (arg args p); try done; cbn in Hv; simplify_eq;
        [by apply not_elem_of_nil in Hx|by apply list_elem_of_singleton in Hx as ->].
    + intros [(p & Hp & Hv)|?]; [left; right|by right]. exists p, [x]. rewrite Hv.
      split_and!; [done..|by left].
  - rewrite sum_by_app. cbn [List.length] in L1. lia.
Qed.

Lemma overCaps_None spec args :
  overCaps spec args = None →
  sum_by (λ p, countValues (arg args p) false) (CommandParams spec) <= 64 ∧
  sum_by (λ p, countValues (arg args p) true) (TargetParams spec ++ TargetsParams spec) <= 256.
Proof.
  unfold overCaps, maxCommandsPerCall, maxTargetsPerCall. rewrite !Z.gtb_ltb.
  destruct (Z.ltb_spec 64 (sum_by (λ p, countValues (arg args p) false) (CommandParams spec))); [done|].
  rewrite !sum_by_app.
  match goal with |- (if ?x <? ?y then _ else _) = None → _ => destruct (Z.ltb_spec x y) end; [done|].
  intros _. split; [done|].
  assert (Hg : 0 <= sum_by (λ p, countValues (arg args p) true) (GroupParams spec)); [|lia].
  clear.   unfold sum_by. induction (GroupParams spec) as [|p ps IH]; [done|]. cbn [foldr].
  pose proof (countValues_nonneg (arg args p)). lia.
Qed.

(** the targets the rules see are exactly the names the upstream receives:
    each once, each a valid target name, and each a name some target argument
    carries; and a call within the per-call caps has at most 256 of them and at
    most 64 commands to classify. *)
Theorem targets_correct `{GoFloat} spec args names groups :
  targets spec args = Some (names, groups) →
  NoDup names ∧ (∀ x, x ∈ names → validTargetName x = true) ∧
  (∀ x, x ∈ names ↔
     (∃ p, p ∈ TargetParams spec ∧ arg args p = AStr x) ∨
     (∃ p l, p ∈ TargetsParams spec ∧ targets_value (arg args p) = Some l ∧ x ∈ l)) ∧
  (overCaps spec args = None →
     (List.length names ≤ 256)%nat ∧ (List.length (spec_commands spec args) ≤ 64)%nat).
Proof.
  intros (Hnd & Hv & Hin & Hlen)%targets_names. do 3 (split; [done|]).
  intros [Hc Ht]%overCaps_None. split; [lia|]. unfold spec_commands. rewrite length_map.
  pose proof (sum_by_flat_map (λ p, countValues (arg args p) false) (λ p, rawValues (arg args p))
    (CommandParams spec) (λ p _, count_raw (arg args p))). lia.
Qed.

Lemma targets_correct_witness :
  ∃ H : GoFloat, NoDup ["core-1"] ∧ ∀ x, x ∈ ["core-1"] → validTargetName x = true.
Proof.
  exists plain_floats.
  destruct (@targets_correct plain_floats
    (tool_spec ExecArbitrary ["host"] ["command"] [] ["timeout"] "" "") (sample_args "show version")
    ["core-1"] false) as (H1 & H2 & _); [by vm_compute|]. done.
Defined.
