(* ===== verification/GateText.v ===== *)
(** * What the gate says: internal/gate/text.go and record.go

    The tool error text the agent sees, and the text helpers of the decision
    log line. *)

From S2P Require Import Prelude GoStd Json GoNetip ToolClass Policy GateArgs.

Open Scope string_scope.
Open Scope Z_scope.
Open Scope list_scope.

Definition reasonNotObject : string :=
  "the arguments must be one JSON object, in UTF-8, with no key given twice".
Definition reasonUnnamed : string :=
  "an argument is not named in the server profile for this tool".
Definition reasonMalformed : string :=
  "a target, command or config argument must be a string that does not parse as JSON, or a list of such strings".
Definition reasonMalformedCapability : string :=
  "the capability argument must be one string that does not parse as JSON".
Definition reasonBadTarget : string := "a target is not a hostname or IP address".
Definition reasonNoTarget : string := "this tool needs at least one target named explicitly".
Definition reasonGroup : string :=
  "selecting devices by tag or group is not supported yet; name each target".
Definition reasonUnknownTarget : string := "target not in inventory".
Definition reasonMaxDevices : string := "this session would touch more devices than its cap allows".
Definition reasonMaxPending : string := "this session already has as many held calls as its cap allows".
Definition reasonNoMatch : string := "no rule matched".
Definition reasonNoPolicy : string := "no policy loaded".
Definition reasonNoReason : string := "the policy does not allow this call".
Definition reasonHeld : string :=
  "needs approval, and approvals aren't available yet, so this call was not run.".
Definition unknownSuffix : string := ("; " ++ reasonUnknownTarget)%string.

Definition isBreak (r : Z) : bool :=
  (r <? 32) || (r =? 127) || in_range 128 159 r || (r =? 8232) || (r =? 8233).

Definition oneLine (s : string) : string :=
  if existsb (λ p, isBreak (fst p)) (runes s)
  then map_runes (λ r, Some (if isBreak r then 32 else r)) s
  else s.

Definition nameText (s : string) : string :=
  if s_all hostByte s then s
  else concat_str (map (λ p, if (fst p <? 128) && hostByte (zb (fst p)) then encode_rune (fst p) else "_")
                       (runes s)).

Definition unmetReason (obligation : string) : string :=
  if mem obligation ["dry_run"; "diff"; "timed_rollback"]
  then ("obligation " ++ obligation ++ " cannot be met until change-safety drivers exist")%string
  else "an obligation fathomgate does not know cannot be met".

Definition denyReason (dec : Decision) : string :=
  let id := d_RuleID dec in
  if String.eqb id RuleBadArguments then d_Reason dec
  else if String.eqb id RuleUnknownTarget then reasonUnknownTarget
  else if String.eqb id RuleMaxDevices then reasonMaxDevices
  else if String.eqb id RuleMaxPending then reasonMaxPending
  else if String.eqb id RuleNoMatch then
    if String.eqb (d_Reason dec) reasonNoPolicy then reasonNoPolicy else reasonNoMatch
  else if String.eqb (trim_space (d_Reason dec)) "" then reasonNoReason
  else d_Reason dec.

Definition errorText (server tool : string) (dec : Decision) (class unmet : string) (unknown : bool) : string :=
  let '(verb, reason) :=
    if String.eqb (d_Effect dec) Allow then ("cannot run", unmetReason unmet)
    else if String.eqb (d_Effect dec) Hold then ("held", reasonHeld)
    else
      let reason := denyReason dec in
      ("denied", if unknown && negb (String.eqb reason reasonUnknownTarget)
                 then (reason ++ unknownSuffix)%string else reason) in
  ("fathomgate " ++ verb ++ " " ++ nameText server ++ "." ++ nameText tool ++ ": rule " ++
   oneLine (d_RuleID dec) ++ " (class " ++ class ++ "): " ++ oneLine reason)%string.

(** ** The decision log line *)

Definition maxLoggedNames : nat := 8.
Definition maxLoggedNameBytes : nat := 64.

(** The longest prefix of at most [cut] bytes that ends before a rune start. *)
Fixpoint rune_cut (s : string) (cut : nat) : nat :=
  match cut with
  | O => O
  | S k => match String.get cut s with
           | Some c => if rune_start c then cut else rune_cut s k
           | None => cut
           end
  end.

Definition cap_name (s : string) : string :=
  if (maxLoggedNameBytes <? String.length s)%nat
  then (s_take (rune_cut s maxLoggedNameBytes) s ++ "...")%string else s.

Definition capNames (names : list string) : list string :=
  let n := Nat.min (List.length names) maxLoggedNames in
  map cap_name (take n names) ++
  (if (n <? List.length names)%nat
   then [("(" ++ itoa (Z.of_nat (List.length names - n)) ++ " more)")%string] else []).

Definition recordReason (dec : Decision) : string :=
  if String.eqb (d_Effect dec) Deny then denyReason dec
  else if String.eqb (d_Effect dec) Hold then reasonHeld
  else d_Reason dec.

(** [traceValue.LogValue]. *)
Definition trace_line (e : TraceEntry) : string :=
  oneLine (te_RuleID e ++ (if Matched e then " matched" else " not matched") ++
           (if negb (String.eqb (Note e) "") && negb (String.eqb (Note e) "matched")
            then ": " ++ Note e else ""))%string.

Definition trace_lines (t : list TraceEntry) : list string := map trace_line t.

(** ** Lemmas *)

(** Text without a break: what a log reader sees as one line. *)
Definition one_line (s : string) : Prop := ∀ p, p ∈ runes s → isBreak (fst p) = false.

Lemma one_line_app a b : valid_utf8 a = true → one_line a → one_line b → one_line (a ++ b).
Proof.
  intros Hv Ha Hb p. rewrite runes_app by done. intros [Hp|Hp]%elem_of_app; auto.
Qed.

Lemma one_line_start a d u :
  rune_start d = true → one_line a → one_line (String d u) → one_line (a ++ String d u).
Proof. intros Hd Ha Hb p. rewrite runes_app_start by done. intros [Hp|Hp]%elem_of_app; auto. Qed.

Lemma one_line_concat l :
  (∀ x, x ∈ l → valid_utf8 x = true ∧ one_line x) → one_line (concat_str l).
Proof.
  induction l as [|x l IH]; intros Hl; [by intros p ?%not_elem_of_nil|]. cbn [concat_str foldr].
  destruct (Hl x) as [Hv Ho]; [by left|]. apply one_line_app; [done..|].
  apply IH. intros y Hy. apply Hl. by right.
Qed.

(** A printable ASCII text has no break. *)
Lemma one_line_ascii s : s_all (λ c, in_range 32 126 (bz c)) s = true → one_line s.
Proof.
  intros Hs p. rewrite runes_ascii.
  2:{ eapply s_all_impl; [|exact Hs]. intros c. unfold in_range. intros Hc. breflect. apply Z.ltb_lt. lia. }
  intros (c & -> & Hc)%list_elem_of_fmap. cbn [fst].
  assert (Hr : 32 <= bz c <= 126).
  { clear -Hs Hc. induction s as [|d s IH]; cbn in *; [by apply not_elem_of_nil in Hc|].
    apply andb_prop in Hs as [Hd Hs]. apply elem_of_cons in Hc as [->|Hc]; [|auto].
    unfold in_range in Hd. breflect. lia. }
  unfold isBreak, in_range. repeat match goal with |- context [?a <? ?b] => destruct (Z.ltb_spec a b) end;
    repeat match goal with |- context [?a =? ?b] => destruct (Z.eqb_spec a b) end;
    repeat match goal with |- context [?a <=? ?b] => destruct (Z.leb_spec a b) end; try lia; done.
Qed.

Lemma one_line_piece s p : p ∈ runes s → bad_rune p = false → isBreak (fst p) = false → one_line (snd p).
Proof. intros Hp Hb Hk q. rewrite (runes_piece s p Hp Hb). by intros ->%list_elem_of_singleton. Qed.

Lemma bad_rune_error p : bad_rune p = true → fst p = RuneError.
Proof. unfold bad_rune. intros [He _]%andb_prop. by apply Z.eqb_eq. Qed.

Lemma oneLine_one_line s : one_line (oneLine s).
Proof.
  unfold oneLine. destruct (existsb _ (runes s)) eqn:E.
  - unfold map_runes. apply one_line_concat. intros x (p & -> & Hp)%list_elem_of_fmap.
    destruct (isBreak (fst p)) eqn:Hk.
    { split; [done|]. by apply one_line_ascii. }
    destruct (bad_rune p) eqn:Hb.
    + apply bad_rune_error in Hb. rewrite Hb. split; [done|].
      intros q Hq. vm_compute in Hq. by apply list_elem_of_singleton in Hq as ->.
    + destruct (runes_good s p Hp Hb) as (He & _). rewrite He.
      split; [by eapply valid_utf8_piece|by eapply one_line_piece].
  - intros p Hp. rewrite existsb_false_elem in E. by apply E.
Qed.

Lemma hostByte_print c : hostByte c = true → in_range 32 126 (bz c) = true.
Proof.
  unfold hostByte, in_range. intros Hc.
  repeat (apply orb_true_iff in Hc as [Hc|Hc]); breflect; subst; try done; apply andb_true_iff; rewrite !Z.leb_le; lia.
Qed.

Lemma nameText_print s : printable (nameText s) = true.
Proof.
  unfold nameText. destruct (s_all hostByte s) eqn:E.
  { eapply s_all_impl; [|exact E]. apply hostByte_print. }
  induction (runes s) as [|p l IH]; [done|]. cbn [map concat_str foldr].
  change (foldr String.append EmptyString ?x) with (concat_str x). rewrite printable_app, IH, andb_true_r.
  destruct ((fst p <? 128) && hostByte (zb (fst p))) eqn:Hp; [|done].
  apply andb_prop in Hp as [Hlt Hh]. apply Z.ltb_lt in Hlt. apply hostByte_print in Hh.
  destruct (Z.ltb_spec (fst p) 0) as [Hneg|Hpos].
  - (* not a rune value *)
    unfold zb in Hh. replace (Z.to_N (fst p)) with 0%N in Hh by lia. done.
  - rewrite encode_rune_ascii by lia. unfold printable. cbn [s_all]. by rewrite Hh.
Qed.

(** whatever the rule id and reason of the policy hold, and whatever the
    server and tool are named, the error text for a call that is not forwarded
    is one line: it has no control character and no line or paragraph
    separator, and everything up to the rule id is printable ASCII. *)
Theorem errorText_one_line server tool dec class unmet unknown :
  printable class = true →
  one_line (errorText server tool dec class unmet unknown) ∧
  ∃ verb, verb ∈ ["cannot run"; "held"; "denied"] ∧
    has_prefix (errorText server tool dec class unmet unknown)
      ("fathomgate " ++ verb ++ " " ++ nameText server ++ "." ++ nameText tool ++ ": rule ")%string = true.
Proof.
  intros Hc. unfold errorText.
  set (vr := if String.eqb (d_Effect dec) Allow then _ else _).
  assert (Hverb : fst vr ∈ ["cannot run"; "held"; "denied"]).
  { unfold vr. destruct (String.eqb _ _); [by left|]. destruct (String.eqb _ _); [right; by left|].
    right; right; by left. }
  destruct vr as [verb reason]. cbn [fst] in Hverb.
  assert (Hvp : printable verb = true).
  { repeat (apply elem_of_cons in Hverb as [->|Hverb]; [done|]). by apply not_elem_of_nil in Hverb. }
  set (pre := ("fathomgate " ++ verb ++ " " ++ nameText server ++ "." ++ nameText tool ++ ": rule ")%string).
  set (mid := (" (class " ++ class ++ "): ")%string).
  assert (Hpre : printable pre = true).
  { unfold pre. rewrite !printable_app, Hvp, !nameText_print. done. }
  assert (Hmid : printable mid = true) by (unfold mid; by rewrite !printable_app, Hc).
  replace (_ ++ _)%string with (pre ++ oneLine (d_RuleID dec) ++ mid ++ oneLine reason)%string
    by (unfold pre, mid; rewrite <- !app_assoc_str; done).
  split.
  - apply one_line_app; [by apply printable_valid|by apply one_line_ascii|].
    apply (one_line_start _ " "); [done|apply oneLine_one_line|].
    apply (one_line_app mid); [by apply printable_valid|by apply one_line_ascii|apply oneLine_one_line].
  - exists verb. split; [done|]. apply has_prefix_app.
Qed.

Lemma errorText_one_line_witness :
  one_line (errorText "eos mcp" "push" {| d_Effect := Deny; d_RuleID := "r1"; d_Reason := String (ascii_of_nat 10) "no";
    d_Obligations := []; d_Approval := None; Trace := [] |} WriteConfig "" false).
Proof. apply (errorText_one_line "eos mcp" "push"). by vm_compute. Defined.
