(* ===== verification/Gate.v ===== *)
(** * The gate: internal/gate/gate.go, the record of record.go, seam.go

    [Decide] for one call, from the raw arguments to the verdict.  The
    intermediate [decision] the Go code fills in place is threaded here as a
    record. *)

From S2P Require Import Prelude GoStd Json GoNetip ToolClass Command ServerProfile Values ConfigPayload Classifier.
From S2P Require Import GoPath Policy Evaluate Inventory GateArgs GateText.

Open Scope string_scope.
Open Scope Z_scope.
Open Scope list_scope.

(** seam.CallInfo. *)
Record CallInfo := {
  in_Server : string; in_Tool : string;
  in_Arguments : string;
  ReadOnlyHint : option bool; DestructiveHint : option bool;
  AgentProtocol : string; AgentEra : string; UpstreamProtocol : string; UpstreamEra : string;
  Transport : string; Principal : string; SessionID : string;
  in_DevicesTouched : Z; in_PendingHolds : Z;
  Counted : option (string → bool);
}.

(** A slog attribute's value. *)
Inductive attr := AttrStr (s : string) | AttrStrs (l : list string) | AttrBool (b : bool).

(** seam.Verdict. *)
Record Verdict := {
  Forward : bool;
  v_Effect : string;
  v_RuleID : string;
  v_Class : string;
  v_ClassSource : string;
  v_Targets : list string;
  v_Error : string;
  v_Record : list (string * attr);
  v_Trace : list string;
}.

Record Config := {
  cfg_Policy : option Policy;
  cfg_Profiles : gmap string (option Profile);
  cfg_Inventory : option Resolver;
}.

Record Gate := {
  g_policy : option Policy;
  g_profiles : gmap string Profile;
  g_inventory : option Resolver;
}.

Inductive gate_error := GateNilProfile (name : string) | GateServerName (name server : string).

Fixpoint new_profiles (acc : gmap string Profile) (l : list (string * option Profile)) :
    result gate_error (gmap string Profile) :=
  match l with
  | [] => Ok acc
  | (name, None) :: _ => Err (GateNilProfile name)
  | (name, Some p) :: l =>
      if negb (String.eqb (Server p) name) then Err (GateServerName name (Server p))
      else new_profiles (<[name := p]> acc) l
  end.

(** [New]: the order of the map iteration only picks which error is reported. *)
Definition New (cfg : Config) : result gate_error Gate :=
  match new_profiles ∅ (map_to_list (cfg_Profiles cfg)) with
  | Err e => Err e
  | Ok profiles =>
      Ok {| g_policy := cfg_Policy cfg; g_profiles := profiles; g_inventory := cfg_Inventory cfg |}
  end.

Definition forwardable (obligation : string) : bool :=
  mem obligation ["redact"; "notify"; "require_ticket"; "canary_first"].

(** The decision under construction. *)
Record decision := {
  dn_res : Result;
  dn_class : Class;
  dn_source : Source;
  dn_targets : list string;
  dn_resolved : list Target;
  dn_dec : Decision;
  dn_parseError : string;
  dn_unnamed : list string;
  dn_malformed : list string;
}.

Definition raises (ci : CallInfo) : bool :=
  match ReadOnlyHint ci with Some b => negb b | None => false end ||
  match DestructiveHint ci with Some b => b | None => false end.

Definition isReadClass (c : Class) : bool :=
  String.eqb c ReadOperational || String.eqb c ReadConfig || String.eqb c InventoryRead.

Definition no_decision : Decision :=
  {| d_Effect := ""; d_RuleID := ""; d_Reason := ""; d_Obligations := []; d_Approval := None; Trace := [] |}.

Definition devicesTouched (ci : CallInfo) (targets : list string) : Z :=
  let n := match Counted ci with
    | None => in_DevicesTouched ci
    | Some counted =>
        in_DevicesTouched ci - Z.of_nat (List.length (List.filter counted targets))
    end in
  Z.max n 0.

Definition resolve (g : Gate) (name : string) : Target :=
  let unknown := {| t_Name := name; t_Role := ""; t_Tags := []; t_Site := ""; t_Known := false |} in
  match g_inventory g with
  | None => unknown
  | Some r =>
      match Known_name (Some r) name with
      | None => unknown
      | Some t => {| t_Name := name; t_Role := i_Role t; t_Tags := i_Tags t; t_Site := i_Site t; t_Known := true |}
      end
  end.

(** [refuse]: a deny before Evaluate. *)
Definition refuse (d : decision) (reason : string) : decision :=
  {| dn_res := dn_res d; dn_class := dn_class d; dn_source := dn_source d;
     dn_targets := []; dn_resolved := [];
     dn_dec := {| d_Effect := Deny; d_RuleID := RuleBadArguments; d_Reason := reason;
                  d_Obligations := []; d_Approval := None;
                  Trace := [ {| te_RuleID := RuleBadArguments; Matched := true; Note := reason |} ] |};
     dn_parseError := dn_parseError d; dn_unnamed := dn_unnamed d; dn_malformed := dn_malformed d |}.

Definition with_parseError (d : decision) (e : string) : decision :=
  {| dn_res := dn_res d; dn_class := dn_class d; dn_source := dn_source d; dn_targets := dn_targets d;
     dn_resolved := dn_resolved d; dn_dec := dn_dec d; dn_parseError := e;
     dn_unnamed := dn_unnamed d; dn_malformed := dn_malformed d |}.

Definition with_findings (d : decision) (unnamed malformed : list string) : decision :=
  {| dn_res := dn_res d; dn_class := dn_class d; dn_source := dn_source d; dn_targets := dn_targets d;
     dn_resolved := dn_resolved d; dn_dec := dn_dec d; dn_parseError := dn_parseError d;
     dn_unnamed := unnamed; dn_malformed := malformed |}.

Definition with_targets (d : decision) (names : list string) : decision :=
  {| dn_res := dn_res d; dn_class := dn_class d; dn_source := dn_source d; dn_targets := names;
     dn_resolved := dn_resolved d; dn_dec := dn_dec d; dn_parseError := dn_parseError d;
     dn_unnamed := dn_unnamed d; dn_malformed := dn_malformed d |}.

Definition with_decision (d : decision) (resolved : list Target) (dec : Decision) : decision :=
  {| dn_res := dn_res d; dn_class := dn_class d; dn_source := dn_source d; dn_targets := dn_targets d;
     dn_resolved := resolved; dn_dec := dec; dn_parseError := dn_parseError d;
     dn_unnamed := dn_unnamed d; dn_malformed := dn_malformed d |}.

Section Decide.
Context `{Unicode, GoFloat}.

Definition raw_result (profile : option Profile) (inProfile : bool) (ci : CallInfo) (args : arguments) : Result :=
  match profile with
  | None => Classify None (in_Tool ci) args
  | Some p =>
      if negb inProfile then fallback_result [] [] "tool not in profile"
      else Classify (Some p) (in_Tool ci) args
  end.

(** [decision.classify] on a fresh decision. *)
Definition classify (profile : option Profile) (spec : option ToolSpec) (ci : CallInfo) (args : arguments) :
    decision :=
  let inProfile := match spec with Some _ => true | None => false end in
  let res := raw_result profile inProfile ci args in
  let base := if String.eqb (ClassSource res) SourceCapabilityTable then res_Class res
              else match spec with Some s => spec_Class s | None => "" end in
  let raise := inProfile && isReadClass base && raises ci && negb (String.eqb (res_Class res) ExecArbitrary) in
  {| dn_res := res;
     dn_class := if raise then ExecArbitrary else res_Class res;
     dn_source := if raise then SourceAnnotationRaise else ClassSource res;
     dn_targets := []; dn_resolved := []; dn_dec := no_decision;
     dn_parseError := ""; dn_unnamed := []; dn_malformed := [] |}.

(** Steps 4 to 6: resolve, count, evaluate. *)
Definition evaluate_call (g : Gate) (ci : CallInfo) (d : decision) : decision :=
  let resolved := map (resolve g) (dn_targets d) in
  let req := {| req_Server := in_Server ci; req_Tool := in_Tool ci; req_Class := dn_class d;
                req_Targets := resolved;
                req_Session := {| DevicesTouched := devicesTouched ci (dn_targets d);
                                  PendingHolds := in_PendingHolds ci |} |} in
  with_decision d resolved (Evaluate (g_policy g) req).

(** The closed argument list's refusal, if any. *)
Definition argument_reason (spec : option ToolSpec) (unnamed malformed : list string) : option string :=
  if (0 <? List.length unnamed)%nat then Some reasonUnnamed
  else if (0 <? List.length malformed)%nat then
    match spec, malformed with
    | Some s, [m] =>
        if negb (String.eqb (CapabilityParam s) "") && String.eqb m (CapabilityParam s)
        then Some reasonMalformedCapability else Some reasonMalformed
    | _, _ => Some reasonMalformed
    end
  else None.

(** Step 3: the targets of a tool the profile lists; [Err] is a refusal. *)
Definition call_targets (spec : ToolSpec) (args : arguments) : result string (list string) :=
  match targets spec args with
  | None => Err reasonBadTarget
  | Some (names, groups) =>
      let exempt := String.eqb (spec_Class spec) InventoryRead || String.eqb (spec_Class spec) LocalAdmin in
      if negb exempt && groups then Err reasonGroup
      else if negb exempt && declaresTargets spec && (List.length names =? 0)%nat then Err reasonNoTarget
      else Ok names
  end.

Definition gate_decide (g : Gate) (ci : CallInfo) : decision :=
  let profile := g_profiles g !! in_Server ci in
  let spec := match profile with Some p => Tools p !! in_Tool ci | None => None end in
  match parseArguments (in_Arguments ci) with
  | Err e => refuse (with_parseError (classify profile spec ci ∅) e) reasonNotObject
  | Ok entries =>
      let args : arguments := list_to_map entries in
      match (match spec with Some s => overCaps s args | None => None end) with
      | Some (code, reason) => refuse (with_parseError (classify profile spec ci ∅) code) reason
      | None =>
          let d := classify profile spec ci args in
          match profile, spec with
          | Some _, None =>
              if (0 <? List.length entries)%nat
              then refuse (with_findings d (sortedKeys args) []) reasonUnnamed
              else evaluate_call g ci d
          | _, _ =>
              let unnamed := UnnamedArgs (dn_res d) in
              let malformed := MalformedArgs (dn_res d) in
              match argument_reason spec unnamed malformed with
              | Some reason => refuse (with_findings d unnamed malformed) reason
              | None =>
                  match spec with
                  | None => evaluate_call g ci d
                  | Some s =>
                      match call_targets s args with
                      | Err reason => refuse d reason
                      | Ok names => evaluate_call g ci (with_targets d names)
                      end
                  end
              end
          end
      end
  end.

Definition hasUnknown (d : decision) : bool := existsb (λ t, negb (t_Known t)) (dn_resolved d).

(** [decision.record]. *)
Definition record (ci : CallInfo) (d : decision) (effect : string) (forward : bool) : list (string * attr) :=
  [("server", AttrStr (in_Server ci)); ("tool", AttrStr (in_Tool ci));
   ("class", AttrStr (dn_class d)); ("class_source", AttrStr (dn_source d));
   ("targets", AttrStrs (map t_Name (dn_resolved d))); ("roles", AttrStrs (map t_Role (dn_resolved d)));
   ("unknown_target", AttrBool (hasUnknown d));
   ("decision", AttrStr effect); ("rule_id", AttrStr (d_RuleID (dn_dec d)));
   ("reason", AttrStr (oneLine (recordReason (dn_dec d))));
   ("obligations", AttrStrs (d_Obligations (dn_dec d)));
   ("forwarded", AttrBool forward);
   ("agent_protocol", AttrStr (AgentProtocol ci)); ("agent_era", AttrStr (AgentEra ci));
   ("upstream_protocol", AttrStr (UpstreamProtocol ci)); ("upstream_era", AttrStr (UpstreamEra ci));
   ("transport", AttrStr (Transport ci)); ("principal", AttrStr (Principal ci));
   ("session_id", AttrStr (SessionID ci))] ++
  (if negb (String.eqb (dn_parseError d) "") then [("parse_error", AttrStr (dn_parseError d))] else []) ++
  (if (0 <? List.length (dn_unnamed d))%nat then [("unnamed_args", AttrStrs (capNames (dn_unnamed d)))] else []) ++
  (if (0 <? List.length (dn_malformed d))%nat then [("malformed_args", AttrStrs (capNames (dn_malformed d)))] else []).

(** [decision.verdict]. *)
Definition verdict (ci : CallInfo) (d : decision) : Verdict :=
  let dec := dn_dec d in
  let unmet := if String.eqb (d_Effect dec) Allow
    then List.find (λ o, negb (forwardable o)) (d_Obligations dec) else None in
  let forward := String.eqb (d_Effect dec) Allow && match unmet with None => true | Some _ => false end in
  let effect := if mem (d_Effect dec) [Allow; Hold; Deny] then d_Effect dec else Deny in
  {| Forward := forward;
     v_Effect := effect; v_RuleID := d_RuleID dec; v_Class := dn_class d; v_ClassSource := dn_source d;
     v_Targets := dn_targets d;
     v_Error := if forward then "" else
       errorText (in_Server ci) (in_Tool ci) dec (dn_class d) (default "" unmet) (hasUnknown d);
     v_Record := record ci d effect forward;
     v_Trace := trace_lines (Trace dec) |}.

Definition Decide (g : Gate) (ci : CallInfo) : Verdict := verdict ci (gate_decide g ci).

Record Explanation := {
  ex_Verdict : Verdict; ex_Decision : Decision; ex_Targets : list Target;
  ex_ProfileClass : Class; ex_ClassNote : string; ex_ParseError : string;
  ex_Unnamed : list string; ex_Malformed : list string }.

Definition Explain (g : Gate) (ci : CallInfo) : Explanation :=
  let d := gate_decide g ci in
  {| ex_Verdict := verdict ci d; ex_Decision := dn_dec d; ex_Targets := dn_resolved d;
     ex_ProfileClass := ProfileClass (dn_res d); ex_ClassNote := Reason (dn_res d);
     ex_ParseError := dn_parseError d; ex_Unnamed := dn_unnamed d; ex_Malformed := dn_malformed d |}.
End Decide.

(** [Gate.Arguments]: the named set of a tool, [None] when the list is open. *)
Definition Gate_Arguments (g : Gate) (server tool : string) : option (list string) :=
  match g_profiles g !! server with
  | None => None
  | Some p =>
      match Tools p !! tool with
      | None => Some []
      | Some spec => Some (compact (sort_strings (NamedArgs spec)))
      end
  end.

(** ** Lemmas *)

Section Properties.
Context `{Unicode, GoFloat}.

Definition profile_of (g : Gate) (ci : CallInfo) : option Profile := g_profiles g !! in_Server ci.
Definition spec_of (g : Gate) (ci : CallInfo) : option ToolSpec :=
  match profile_of g ci with Some p => Tools p !! in_Tool ci | None => None end.

(** What a call that reaches the policy has passed. *)
Definition admissible (g : Gate) (ci : CallInfo) (entries : list (string * any)) (names : list string) : Prop :=
  let args : arguments := list_to_map entries in
  match profile_of g ci, spec_of g ci with
  | None, _ => names = []
  | Some _, None => entries = [] ∧ names = []
  | Some p, Some s =>
      overCaps s args = None ∧ CheckArguments (Some p) (in_Tool ci) args = ([], []) ∧
      call_targets s args = Ok names
  end.

Lemma Classify_findings profile tool args :
  (UnnamedArgs (Classify profile tool args), MalformedArgs (Classify profile tool args)) =
  CheckArguments profile tool args.
Proof.
  unfold Classify. destruct (CheckArguments profile tool args) as [u m].
  destruct profile as [p|]; [|done]. destruct (Lookup p tool) as [s|]; [|done].
  destruct (Normalize _ _ _) as [[ts cs] pl]. by destruct (classify_tool _ _ _ _ _) as [[c src] why].
Qed.

Lemma argument_reason_None spec u m : argument_reason spec u m = None → u = [] ∧ m = [].
Proof.
  unfold argument_reason. destruct u; [|done]. destruct m as [|a [|b m]]; cbn; [done|..];
    destruct spec as [s|]; try done. by destruct (_ && _).
Qed.

(** Every call is refused before the policy is asked, or passes the checks and
    is decided by it. *)
Lemma gate_decide_cases g ci :
  (∃ d reason, gate_decide g ci = refuse d reason) ∨
  (∃ entries names, parseArguments (in_Arguments ci) = Ok entries ∧ admissible g ci entries names ∧
     gate_decide g ci = evaluate_call g ci
       (with_targets (classify (profile_of g ci) (spec_of g ci) ci (list_to_map entries)) names)).
Proof.
  unfold gate_decide. fold (profile_of g ci). fold (spec_of g ci).
  destruct (parseArguments (in_Arguments ci)) as [entries|e] eqn:Hp; [|left; eauto].
  destruct (match spec_of g ci with Some s => overCaps s (list_to_map entries) | None => None end)
    as [[code reason]|] eqn:Hcap; [left; eauto|].
  unfold admissible. destruct (profile_of g ci) as [p|] eqn:Epr.
  - destruct (spec_of g ci) as [s|] eqn:Esp.
    + destruct (argument_reason (Some s) _ _) as [reason|] eqn:Ha; [left; eauto|].
      apply argument_reason_None in Ha as [Hu Hm].
      destruct (call_targets s (list_to_map entries)) as [names|reason] eqn:Ht; [|left; eauto].
      right. exists entries, names. split; [done|]. split; [|done]. split; [done|]. split; [|done].
      rewrite <- Classify_findings. cbn [classify dn_res raw_result negb] in Hu, Hm. by rewrite Hu, Hm.
    + destruct entries as [|x entries]; [|left; eauto]. right. exists [], []. done.
  - assert (spec_of g ci = None) as -> by (unfold spec_of; by rewrite Epr).
    destruct (argument_reason None _ _) as [reason|] eqn:Ha; [left; eauto|].
    right. exists entries, []. done.
Qed.

Lemma find_none_all o l : List.find (λ o, negb (forwardable o)) l = None → o ∈ l → forwardable o = true.
Proof.
  intros Hf Ho%list_elem_of_In. pose proof (List.find_none _ _ Hf o Ho) as Hn. by apply negb_false_iff in Hn.
Qed.

Lemma call_targets_Ok s args names :
  call_targets s args = Ok names →
  ∃ groups, targets s args = Some (names, groups) ∧
    (spec_Class s ≠ InventoryRead → spec_Class s ≠ LocalAdmin →
     groups = false ∧ (declaresTargets s = true → names ≠ [])).
Proof.
  unfold call_targets. destruct (targets s args) as [[ns groups]|]; [|done]. intros Hc. exists groups.
  destruct (String.eqb_spec (spec_Class s) InventoryRead), (String.eqb_spec (spec_Class s) LocalAdmin);
    cbn [orb negb andb] in Hc; try (simplify_eq; split; [done|by intros]).
  destruct groups; [done|]. destruct (declaresTargets s) eqn:Hd; cbn [andb] in Hc.
  - destruct ns; cbn [List.length Nat.eqb] in Hc; [done|]. by simplify_eq.
  - simplify_eq. split; [done|]. done.
Qed.

(** The request the policy is asked about. *)
Definition request_of (g : Gate) (ci : CallInfo) (c : Class) (names : list string) : Request :=
  {| req_Server := in_Server ci; req_Tool := in_Tool ci; req_Class := c;
     req_Targets := map (resolve g) names;
     req_Session := {| DevicesTouched := devicesTouched ci names; PendingHolds := in_PendingHolds ci |} |}.

Lemma resolve_known g n : t_Known (resolve g n) = true → is_Some (Known_name (g_inventory g) n).
Proof.
  unfold resolve. destruct (g_inventory g) as [r|]; [|done].
  destruct (Known_name (Some r) n); [by eexists|done].
Qed.

Lemma admissible_names g ci entries names :
  admissible g ci entries names →
  NoDup names ∧ (∀ t, t ∈ names → validTargetName t = true) ∧ (List.length names ≤ 256)%nat.
Proof.
  unfold admissible. destruct (profile_of g ci) as [q|]; [destruct (spec_of g ci) as [s|]|].
  - intros (Hcap & _ & (groups & Ht & _)%call_targets_Ok).
    apply targets_names in Ht as (Hnd & Hv & _ & Hlen). apply overCaps_None in Hcap as [_ Hcap].
    split; [done|]. split; [done|lia].
  - intros [_ ->]. split; [constructor|]. split; [by intros ? ?%not_elem_of_nil|cbn; lia].
  - intros ->. split; [constructor|]. split; [by intros ? ?%not_elem_of_nil|cbn; lia].
Qed.

(** A forwarded call passed the argument checks, and the loaded policy allows
    the request with obligations the proxy carries. *)
Lemma Decide_forward g ci :
  Forward (Decide g ci) = true →
  let names := v_Targets (Decide g ci) in
  ∃ entries p, parseArguments (in_Arguments ci) = Ok entries ∧ admissible g ci entries names ∧
    g_policy g = Some p ∧
    let dec := Evaluate (Some p) (request_of g ci (v_Class (Decide g ci)) names) in
    d_Effect dec = Allow ∧ ∀ o, o ∈ d_Obligations dec → forwardable o = true.
Proof.
  unfold Decide. destruct (gate_decide_cases g ci) as [(d & reason & ->)|(entries & names & Hp & Hadm & ->)].
  { cbn [verdict Forward dn_dec refuse d_Effect]. done. }
  set (d0 := classify _ _ _ _). unfold evaluate_call. cbn [with_targets dn_targets].
  fold (request_of g ci (dn_class (with_targets d0 names)) names).
  set (req := request_of g ci _ names). unfold verdict. cbn [Forward v_Targets v_Class dn_dec with_decision dn_targets dn_class with_targets].
  destruct (String.eqb_spec (d_Effect (Evaluate (g_policy g) req)) Allow) as [He|]; [|done]. cbn [andb].
  destruct (List.find _ _) eqn:Hf; [done|]. intros _.
  destruct (g_policy g) as [p|] eqn:Hpol; [|by cbn in He].
  exists entries, p. do 3 (split; [done|]). change (request_of g ci (dn_class d0) names) with req.
  split; [done|]. intros o. by apply find_none_all.
Qed.

(** C1: the gate forwards a call only when every check passed.  The arguments
    are one JSON object without repeated keys; for a server with a profile the
    tool is in it, names every argument, is within the per-call caps, and its
    targets are distinct valid names, given explicitly where the tool needs
    them; the loaded policy's first matching rule allows exactly this request;
    every obligation it carries is one the proxy can carry; and every target is
    listed by exact name in the inventory unless the policy says otherwise. *)
Theorem Decide_forward_sound g ci :
  Forward (Decide g ci) = true →
  ∃ entries p, parseArguments (in_Arguments ci) = Ok entries ∧
    admissible g ci entries (v_Targets (Decide g ci)) ∧
    g_policy g = Some p ∧
    d_Effect (Evaluate (Some p) (request_of g ci (v_Class (Decide g ci)) (v_Targets (Decide g ci)))) = Allow ∧
    (∀ o, o ∈ d_Obligations (Evaluate (Some p) (request_of g ci (v_Class (Decide g ci)) (v_Targets (Decide g ci)))) →
       forwardable o = true) ∧
    NoDup (v_Targets (Decide g ci)) ∧
    (∀ t, t ∈ v_Targets (Decide g ci) → validTargetName t = true) ∧
    (UnknownTarget (policy_Defaults p) ≠ Allow →
     ∀ t, t ∈ v_Targets (Decide g ci) → is_Some (Known_name (g_inventory g) t)).
Proof.
  intros (entries & p & Hp & Hadm & Hpol & He & Hob)%Decide_forward.
  exists entries, p. do 5 (split; [done|]).
  destruct (admissible_names _ _ _ _ Hadm) as (Hnd & Hval & _). do 2 (split; [done|]). intros Hun t Ht.
  apply resolve_known. clear Hob. revert He. set (req := request_of _ _ _ _). intros He.
  pose proof (Evaluate_decides (Some p) req) as Hd. destruct (Evaluate (Some p) req) as [e id why ob ap tr].
  cbn [outcome_of d_Effect d_RuleID d_Obligations d_Approval] in *. subst e.
  inversion Hd as [| | |q r' pre rule post Htk Hdv Hr Hpre Hs Hh | |]; subst.
  destruct Htk as [Hk|Hk]; [|done].
  apply Hk. unfold req, request_of. cbn [req_Targets]. by apply list_elem_of_fmap_2.
Qed.
End Properties.

(** A gate for the examples: the sample profile and policy, two devices. *)
Definition sample_inventory : Resolver := λ name,
  if String.eqb name "core-1" then Some (sample_device "core-1" "core") else None.

Definition sample_gate : Gate :=
  {| g_policy := Some {| Version := 1; policy_Defaults := policy_Defaults sample_policy;
       Rules := [ {| ID := "reads";
          rule_Match := {| m_Class := [ReadOperational]; DeviceRoles := ["core"]; DeviceTags := [];
                           m_Tools := ["run"]; Servers := [] |};
          rule_When := None; rule_Effect := Allow; rule_Reason := ""; rule_Obligations := ["redact"];
          rule_Approval := None |} ] |};
     g_profiles := {[ "srv" := sample_profile ]};
     g_inventory := Some sample_inventory |}.

Definition sample_call (args : string) (hint : option bool) : CallInfo :=
  {| in_Server := "srv"; in_Tool := "run"; in_Arguments := args; ReadOnlyHint := hint; DestructiveHint := None;
     AgentProtocol := ""; AgentEra := ""; UpstreamProtocol := ""; UpstreamEra := ""; Transport := "stdio";
     Principal := ""; SessionID := ""; in_DevicesTouched := 0; in_PendingHolds := 0; Counted := None |}.

Definition show_call (cmd : string) : string :=
  object_text [("host", AStr "core-1"); ("command", AStr cmd)].

Example ex_decide :
  let d cmd := @Decide ascii_tables plain_floats sample_gate (sample_call (show_call cmd) None) in
  (Forward (d "show version"), Forward (d "reload"), v_Error (d "reload")) =
  (true, false, "fathomgate denied srv.run: rule default:no-match (class EXEC_ARBITRARY): no rule matched").
Proof. vm_compute. reflexivity. Qed.

Lemma Decide_forward_sound_witness :
  ∃ (HU : Unicode) (HF : GoFloat), let ci := sample_call (show_call "show version") None in
    Forward (Decide sample_gate ci) = true ∧
    ∃ entries p, parseArguments (in_Arguments ci) = Ok entries ∧
      admissible sample_gate ci entries (v_Targets (Decide sample_gate ci)) ∧ g_policy sample_gate = Some p.
Proof.
  exists ascii_tables, plain_floats. cbv zeta. split; [by vm_compute|].
  destruct (@Decide_forward_sound ascii_tables plain_floats sample_gate
    (sample_call (show_call "show version") None)) as (entries & p & H1 & H2 & H3 & _); [by vm_compute|].
  by exists entries, p.
Defined.

(** the upstream's annotations can only raise the class: the class of a
    call is the classifier's or EXEC_ARBITRARY; without a raising hint it is
    the classifier's; and with one, a tool whose profile class is a read (for a
    meta-tool, a capability its table lists as a read) is EXEC_ARBITRARY
    whatever its commands say. *)
Theorem annotations_only_raise `{Unicode, GoFloat} profile spec ci args :
  let d := classify profile spec ci args in
  (dn_class d = res_Class (dn_res d) ∧ dn_source d = ClassSource (dn_res d) ∨
   dn_class d = ExecArbitrary ∧ dn_source d = SourceAnnotationRaise ∧ raises ci = true) ∧
  (raises ci = false → dn_class d = res_Class (dn_res d)) ∧
  (∀ p s, profile = Some p → spec = Some s → Tools p !! in_Tool ci = Some s → raises ci = true →
     isReadClass (if String.eqb (CapabilityParam s) "" then spec_Class s else res_Class (dn_res d)) = true →
     dn_class d = ExecArbitrary).
Proof.
  cbv zeta. unfold classify. cbn [dn_class dn_res dn_source].
  set (res := raw_result _ _ _ _). set (rd := isReadClass _).
  split; [|split].
  - destruct (_ && rd && raises ci && _) eqn:E; [right|by left].
    apply andb_prop in E as [[_ E]%andb_prop _]. done.
  - intros ->. by rewrite andb_false_r.
  - intros p s -> -> Ht Hr Hread. rewrite Hr. unfold rd, res in *. clear rd res. cbn [raw_result negb andb] in *.
    rewrite andb_true_r. revert Hread. unfold Classify, Normalize.
    destruct (CheckArguments _ _ _). unfold Lookup. rewrite Ht.
    destruct (classify_tool p (in_Tool ci) s args _) as [[c src] why] eqn:E. cbn [res_Class ClassSource].
    assert (Hsrc : src = SourceCapabilityTable ↔ CapabilityParam s ≠ "").
    { unfold classify_tool in E. destruct (String.eqb_spec (CapabilityParam s) "") as [Hc|Hc]; cbn [negb] in E.
      - split; [|done]. intros ->. exfalso. clear -E.
        repeat (case_match; simplify_eq). 
      - destruct (classifyCapability p s args). simplify_eq. done. }
    destruct (String.eqb_spec (CapabilityParam s) "") as [Hc|Hc], (String.eqb_spec src SourceCapabilityTable) as [Hs|Hs];
      try (exfalso; tauto); intros ->; cbn [andb]; by destruct (String.eqb_spec c ExecArbitrary).
Qed.

(** the closed argument list is enforced exactly as advertised: when
    [Arguments] reports a tool's list closed, a call carrying an argument that
    is not in it is never forwarded; and every name it reports is one the
    profile names. *)
Theorem Arguments_closed `{Unicode, GoFloat} g ci named entries k :
  Gate_Arguments g (in_Server ci) (in_Tool ci) = Some named →
  parseArguments (in_Arguments ci) = Ok entries →
  k ∈ map fst entries → k ∉ named →
  Forward (Decide g ci) = false ∧ v_Effect (Decide g ci) = Deny ∧ v_RuleID (Decide g ci) = RuleBadArguments.
Proof.
  intros Hn Hp Hk Hnk. unfold Decide.
  destruct (gate_decide_cases g ci) as [(d & reason & ->)|(es & names & Hp' & Hadm & ->)]; [done|].
  exfalso. rewrite Hp in Hp'. injection Hp' as <-. unfold Gate_Arguments in Hn. unfold admissible, profile_of, spec_of in Hadm.
  destruct (g_profiles g !! in_Server ci) as [p|] eqn:Epr; [|done]. unfold profile_of in Hadm. rewrite Epr in Hadm.
  destruct (Tools p !! in_Tool ci) as [s|] eqn:Es.
  - destruct Hadm as (_ & Hc & _). injection Hn as <-.
    assert (Hin : k ∉ NamedArgs s).
    { intros Hin. apply Hnk. apply elem_of_compact. by apply elem_of_sort_strings. }
    unfold CheckArguments in Hc. unfold Lookup in Hc. rewrite Es in Hc. injection Hc as Hu _.
    rewrite filter_sorted_nil in Hu. specialize (Hu k). rewrite keys_of_map in Hu.
    assert (Hsome : is_Some ((list_to_map entries : arguments) !! k)).
    { apply elem_of_dom. rewrite dom_list_to_map. apply elem_of_list_to_set. done. }
    specialize (Hu Hsome). apply negb_false_iff in Hu. by apply Named_spec in Hu.
  - destruct Hadm as [-> _]. by apply not_elem_of_nil in Hk.
Qed.

Lemma Arguments_closed_witness :
  ∃ (HU : Unicode) (HF : GoFloat),
    Forward (Decide sample_gate (sample_call (object_text [("host", AStr "core-1"); ("x", ANil)]) None)) = false.
Proof.
  exists ascii_tables, plain_floats.
  apply (@Arguments_closed ascii_tables plain_floats sample_gate
    (sample_call (object_text [("host", AStr "core-1"); ("x", ANil)]) None)
    ["command"; "host"; "timeout"] [("host", AStr "core-1"); ("x", ANil)] "x").
  - by vm_compute.
  - by vm_compute.
  - right. by left.
  - intros Hx. repeat (apply elem_of_cons in Hx as [Hx|Hx]; [done|]). by apply not_elem_of_nil in Hx.
Defined.
