(* ===== verification/PolicyTest.v ===== *)
(** * Policy tests: internal/policytest

    The load rules of a test file's cases and their runner: a class-given case
    runs Evaluate, a gate case runs the gate's Explain.  The decoded file is a
    parameter here; TestRun reads it.  Theorems: a case passes exactly when the
    decision serve would make is the one asserted; the load rules accept exactly
    the cases that can say something. *)

From S2P Require Import Prelude GoStd Termsafe GoNetip Json ToolClass Command ServerProfile Values.
From S2P Require Import ConfigPayload Classifier GoPath Policy Evaluate Inventory GateArgs GateText Gate.

Open Scope string_scope.
Open Scope Z_scope.
Open Scope list_scope.

Definition MaxArgumentBytes : Z := 65536.
Definition MaxCaseName : Z := 256.

Definition ParseErrors : list string :=
  ["invalid_utf8"; "invalid_json"; "not_object"; "duplicate_key"; "trailing_data"; "too_many_commands"; "too_many_targets"].

(** ** The file *)

(** A class-given case's target. *)
Record case_target := { ct_Name : string; ct_Role : string; ct_Tags : list string; ct_Site : string; ct_Known : option bool }.
Record Annotations := { an_ReadOnlyHint : option bool; an_DestructiveHint : option bool }.

(** [cr_Arguments] is the mapping as the JSON the gate receives. *)
Record case_request := {
  cr_Server : string; cr_Tool : string; cr_Class : Class; cr_Targets : option (list case_target); cr_Session : SessionCounters;
  cr_Arguments : option string; cr_ArgumentsJSON : option string; cr_Annotations : option Annotations;
}.

Record Expect := {
  e_Effect : Effect; e_Rule : string; e_Obligations : option (list string); e_Class : Class; e_ClassSource : string;
  e_Targets : option (list string); e_UnknownTarget : option bool; e_ParseError : string;
  e_UnnamedArgs : option (list string); e_MalformedArgs : option (list string); e_Forwarded : option bool; e_ToolError : option string;
}.

Record Case := { case_Name : string; case_Request : case_request; case_Expect : Expect }.

(** The inventory: a path, or the document inline. *)
Inductive inventory_source := InvPath (path : string) | InvInline (doc : string).

Record File := { file_Policy : string; file_Inventory : option inventory_source; file_Cases : list Case }.

Definition IsGate (c : Case) : bool :=
  match cr_Arguments (case_Request c), cr_ArgumentsJSON (case_Request c) with None, None => false | _, _ => true end.

Definition ArgumentBytes (c : Case) : string :=
  match cr_ArgumentsJSON (case_Request c) with
  | Some s => s
  | None => default "" (cr_Arguments (case_Request c))
  end.

(** [Request.request]. *)
Definition target_of (t : case_target) : Target :=
  {| t_Name := ct_Name t; t_Role := ct_Role t; t_Tags := ct_Tags t; t_Site := ct_Site t; t_Known := default true (ct_Known t) |}.

Definition request (r : case_request) : Request :=
  {| req_Server := cr_Server r; req_Tool := cr_Tool r; req_Class := cr_Class r;
     req_Targets := map target_of (default [] (cr_Targets r)); req_Session := cr_Session r |}.

(** ** The load rules *)

Section Run.
Context `{Unicode, GoFloat}.

Definition is_set {A} (o : option A) : bool := match o with Some _ => true | None => false end.

Definition gateOnly (e : Expect) : list string :=
  let add (set : bool) (name : string) := if set then [name] else [] in
  add (negb (String.eqb (e_Class e) "")) "class" ++ add (negb (String.eqb (e_ClassSource e) "")) "class_source" ++
  add (is_set (e_Targets e)) "targets" ++ add (is_set (e_UnknownTarget e)) "unknown_target" ++
  add (negb (String.eqb (e_ParseError e) "")) "parse_error" ++ add (is_set (e_UnnamedArgs e)) "unnamed_args" ++
  add (is_set (e_MalformedArgs e)) "malformed_args" ++ add (is_set (e_Forwarded e)) "forwarded" ++ add (is_set (e_ToolError e)) "tool_error".

(** [check]: [None] is no error. *)
Definition check (c : Case) : option string :=
  let r := case_Request c in let e := case_Expect c in
  if String.eqb (trim_space (case_Name c)) "" then Some "has no name"
  else if negb (effect_valid (e_Effect e)) then Some "expect.effect must be allow, hold or deny"
  else if negb (IsGate c) then
    if String.eqb (cr_Class r) "" then Some "give request.class, or request.arguments (or arguments_json) for a gate case"
    else if negb (class_valid (cr_Class r)) then Some "request.class is not a class"
    else if is_set (cr_Annotations r)
    then Some "request.annotations is for a gate case (request.arguments); a class-given case sets the class itself"
    else if (0 <? List.length (gateOnly e))%nat
    then Some ("expect." ++ join ", expect." (gateOnly e) ++ ": for a gate case only (request.arguments)")%string
    else None
  else if is_set (cr_Arguments r) && is_set (cr_ArgumentsJSON r) then Some "give request.arguments or request.arguments_json, not both"
  else if negb (String.eqb (cr_Class r) "")
  then Some "request.class with request.arguments: a gate case is classified by the gate; drop one"
  else if is_set (cr_Targets r)
  then Some "request.targets with request.arguments: the gate takes the targets from the arguments and resolves them through the inventory"
  else if String.eqb (cr_Server r) "" then Some "a gate case needs request.server, the profile's server key"
  else if String.eqb (cr_Tool r) "" then Some "a gate case needs request.tool"
  else if String.eqb (e_Rule e) ""
  then Some "a gate case needs expect.rule: the gate fails closed, so effect deny alone passes for any refusal"
  else if MaxArgumentBytes <? slen (ArgumentBytes c)
  then Some ("the arguments are " ++ itoa (slen (ArgumentBytes c)) ++ " bytes; the proxy refuses more than " ++ itoa MaxArgumentBytes ++
    " before the gate runs, so the gate path cannot show it")%string
  else if negb (String.eqb (e_Class e) "") && negb (class_valid (e_Class e)) then Some "expect.class is not a class"
  else if negb (String.eqb (e_ClassSource e) "") && negb (is_set (ParseSource (e_ClassSource e)))
  then Some "expect.class_source is not a class source"
  else if negb (String.eqb (e_ParseError e) "") && negb (mem (e_ParseError e) ParseErrors)
  then Some ("expect.parse_error must be one of " ++ join ", " ParseErrors)%string
  else if (negb (String.eqb (e_ParseError e) "") || is_set (e_UnnamedArgs e) || is_set (e_MalformedArgs e)) &&
          negb (String.eqb (e_Rule e) RuleBadArguments)
  then Some ("expect.parse_error, unnamed_args and malformed_args come only with rule " ++ RuleBadArguments)%string
  else None.

(** [Parse] after the strict decoder: the cases from number [i] on. *)
Fixpoint check_cases (i : Z) (cases : list Case) : option string :=
  match cases with
  | [] => None
  | c :: cases =>
      if MaxCaseName <? slen (case_Name c)
      then Some ("test file: case " ++ itoa i ++ ": the name is " ++ itoa (slen (case_Name c)) ++ " bytes; at most " ++ itoa MaxCaseName)%string
      else match check c with
      | Some e => Some ("test file: case " ++ itoa i ++ " " ++ Quote (case_Name c) ++ ": " ++ e)%string
      | None => check_cases (i + 1) cases
      end
  end.

Definition Parse (decoded : result string File) : result string File :=
  match decoded with
  | Err e => Err ("parse test file: " ++ e)%string
  | Ok f =>
      if String.eqb (trim_space (file_Policy f)) "" then Err "test file: policy is required"
      else match file_Cases f with
      | [] => Err "test file: cases is empty"
      | _ => match check_cases 1 (file_Cases f) with Some e => Err e | None => Ok f end
      end
  end.

(** ** Running *)

Record TestResult := {
  tr_Name : string; tr_Gate : bool; tr_Pass : bool; tr_Message : string; tr_Effect : Effect; tr_RuleID : string;
  tr_Class : string; tr_ClassSource : string; tr_Trace : list TraceEntry;
}.

Definition sameSet (a b : list string) : bool := bool_decide (sort_strings a = sort_strings b).

Definition listed (l : list string) : string := Termsafe.List (sort_strings l).

(** The first message of a list that is not empty. *)
Definition first_message (checks : list (bool * string)) : string :=
  match List.find fst checks with Some (_, m) => m | None => "" end.

(** [mismatch]. *)
Definition case_mismatch (e : Expect) (effect : Effect) (rule : string) (obligations : list string) : string :=
  first_message
    [(negb (String.eqb effect (e_Effect e)), "effect " ++ effect ++ " (rule " ++ Quote rule ++ "), want " ++ e_Effect e)%string;
     (negb (String.eqb (e_Rule e) "") && negb (String.eqb rule (e_Rule e)), "rule " ++ Quote rule ++ ", want " ++ Quote (e_Rule e))%string;
     (match e_Obligations e with Some want => negb (sameSet obligations want) | None => false end,
       "obligations " ++ listed obligations ++ ", want " ++ listed (default [] (e_Obligations e)))%string].

(** The log record by key: the last attribute of a key. *)
Definition rec_get (attrs : list (string * attr)) (key : string) : option attr :=
  foldl (λ acc kv, if String.eqb (fst kv) key then Some (snd kv) else acc) None attrs.

Definition has_list (attrs : list (string * attr)) (key : string) : bool := match rec_get attrs key with Some (AttrStrs _) => true | _ => false end.
Definition has_bool (attrs : list (string * attr)) (key : string) : bool := match rec_get attrs key with Some (AttrBool _) => true | _ => false end.
Definition has_string (attrs : list (string * attr)) (key : string) : bool := match rec_get attrs key with Some (AttrStr _) => true | _ => false end.
Definition rec_strings (attrs : list (string * attr)) (key : string) : list string := match rec_get attrs key with Some (AttrStrs l) => l | _ => [] end.
Definition rec_bool (attrs : list (string * attr)) (key : string) : bool := match rec_get attrs key with Some (AttrBool b) => b | _ => false end.
Definition rec_string (attrs : list (string * attr)) (key : string) : string := match rec_get attrs key with Some (AttrStr s) => s | _ => "" end.

Definition absent (key : string) : string := (key ++ " (none: the decision record has no " ++ key ++ " field)")%string.

Definition bool_text (b : bool) : string := if b then "true" else "false".

Definition call_of (c : Case) : CallInfo :=
  let r := case_Request c in
  {| in_Server := cr_Server r; in_Tool := cr_Tool r; in_Arguments := ArgumentBytes c;
     ReadOnlyHint := match cr_Annotations r with Some a => an_ReadOnlyHint a | None => None end;
     DestructiveHint := match cr_Annotations r with Some a => an_DestructiveHint a | None => None end;
     AgentProtocol := ""; AgentEra := ""; UpstreamProtocol := ""; UpstreamEra := ""; Transport := ""; Principal := ""; SessionID := "";
     in_DevicesTouched := DevicesTouched (cr_Session r); in_PendingHolds := PendingHolds (cr_Session r); Counted := None |}.

(** A list asserted of a field the record carries only when it is not empty. *)
Definition list_checks (rec : list (string * attr)) (key : string) (want : option (list string)) : list (bool * string) :=
  match want with
  | None => []
  | Some l =>
      [((0 <? List.length l)%nat && negb (has_list rec key), absent key ++ ", want " ++ listed l)%string;
       (negb (sameSet (rec_strings rec key) l), key ++ " " ++ listed (rec_strings rec key) ++ ", want " ++ listed l)%string]
  end.

(** The switch of [runGate]. *)
Definition gate_checks (e : Expect) (v : Verdict) : list (bool * string) :=
  let rec := v_Record v in
  [(negb (String.eqb (e_Class e) "") && negb (String.eqb (v_Class v) (e_Class e)),
     "class " ++ v_Class v ++ " (class_source " ++ v_ClassSource v ++ "), want " ++ e_Class e)%string;
   (negb (String.eqb (e_ClassSource e) "") && negb (String.eqb (v_ClassSource v) (e_ClassSource e)),
     "class_source " ++ v_ClassSource v ++ ", want " ++ e_ClassSource e)%string] ++
  match e_Obligations e with
  | None => []
  | Some want =>
      [(negb (has_list rec "obligations"), absent "obligations");
       (negb (sameSet (rec_strings rec "obligations") want), "obligations " ++ listed (rec_strings rec "obligations") ++ ", want " ++ listed want)%string]
  end ++
  match e_Targets e with
  | None => []
  | Some want => [(negb (bool_decide (v_Targets v = want)), "targets " ++ Termsafe.List (v_Targets v) ++ ", want " ++ Termsafe.List want)%string]
  end ++
  match e_UnknownTarget e with
  | None => []
  | Some want =>
      [(negb (has_bool rec "unknown_target"), absent "unknown_target");
       (negb (Bool.eqb (rec_bool rec "unknown_target") want),
         "unknown_target " ++ bool_text (rec_bool rec "unknown_target") ++ ", want " ++ bool_text want)%string]
  end ++
  [(negb (String.eqb (e_ParseError e) "") && negb (has_string rec "parse_error"), absent "parse_error" ++ ", want " ++ e_ParseError e)%string;
   (negb (String.eqb (e_ParseError e) "") && negb (String.eqb (rec_string rec "parse_error") (e_ParseError e)),
     "parse_error " ++ rec_string rec "parse_error" ++ ", want " ++ e_ParseError e)%string] ++
  list_checks rec "unnamed_args" (e_UnnamedArgs e) ++
  list_checks rec "malformed_args" (e_MalformedArgs e) ++
  match e_Forwarded e with
  | None => []
  | Some want => [(negb (Bool.eqb (Forward v) want), "forwarded " ++ bool_text (Forward v) ++ ", want " ++ bool_text want)%string]
  end ++
  match e_ToolError e with
  | None => []
  | Some want => [(negb (String.eqb (v_Error v) want), "tool_error " ++ quote_to_ascii (v_Error v) ++ ", want " ++ quote_to_ascii want)%string]
  end.

(** [mismatch] of the effect and the rule alone. *)
Definition without_obligations (e : Expect) : Expect :=
  {| e_Effect := e_Effect e; e_Rule := e_Rule e; e_Obligations := None; e_Class := ""; e_ClassSource := ""; e_Targets := None;
     e_UnknownTarget := None; e_ParseError := ""; e_UnnamedArgs := None; e_MalformedArgs := None; e_Forwarded := None; e_ToolError := None |}.

Definition runGate (g : Gate) (c : Case) : TestResult :=
  let ex := Explain g (call_of c) in
  let v := ex_Verdict ex in
  let e := case_Expect c in
  let msg := case_mismatch (without_obligations e) (v_Effect v) (v_RuleID v) [] in
  let msg := if negb (String.eqb msg "") then msg else first_message (gate_checks e v) in
  {| tr_Name := case_Name c; tr_Gate := true; tr_Pass := String.eqb msg ""; tr_Message := msg; tr_Effect := v_Effect v; tr_RuleID := v_RuleID v;
     tr_Class := v_Class v; tr_ClassSource := v_ClassSource v; tr_Trace := Trace (ex_Decision ex) |}.

Definition run_case (p : Policy) (g : Gate) (c : Case) : TestResult :=
  if IsGate c then runGate g c
  else
    let d := Evaluate (Some p) (request (case_Request c)) in
    let msg := case_mismatch (case_Expect c) (d_Effect d) (d_RuleID d) (d_Obligations d) in
    {| tr_Name := case_Name c; tr_Gate := false; tr_Pass := String.eqb msg ""; tr_Message := msg; tr_Effect := d_Effect d; tr_RuleID := d_RuleID d;
       tr_Class := ""; tr_ClassSource := ""; tr_Trace := Trace d |}.

Definition runCases (p : Policy) (g : Gate) (cases : list Case) : list TestResult := map (run_case p g) cases.
End Run.

(** ** When a case passes *)

Lemma leb_cons c d s t : String.leb (String c s) (String d t) = match (N_of_ascii c ?= N_of_ascii d)%N with Lt => true | Eq => String.leb s t | Gt => false end.
Proof. unfold String.leb. cbn [String.compare]. unfold Ascii.compare. by destruct (_ ?= _)%N. Qed.

#[local] Instance str_le_trans : Transitive str_le.
Proof.
  unfold str_le. intros a. induction a as [|c a IH]; intros [|d b] [|e t]; try done. rewrite !leb_cons.
  destruct (N.compare_spec (N_of_ascii c) (N_of_ascii d)), (N.compare_spec (N_of_ascii d) (N_of_ascii e)), (N.compare_spec (N_of_ascii c) (N_of_ascii e));
    try lia; try done. apply IH.
Qed.
#[local] Instance str_le_anti : AntiSymm (=) str_le.
Proof. intros a b. apply String.leb_antisym. Qed.

Lemma sameSet_spec a b : sameSet a b = true ↔ a ≡ₚ b.
Proof.
  unfold sameSet. rewrite bool_decide_eq_true. split.
  - intros E. by rewrite <- (sort_strings_perm a), E, sort_strings_perm.
  - intros Hp. apply (Sorted_unique str_le); [apply sort_strings_sorted|apply sort_strings_sorted|]. by rewrite !sort_strings_perm.
Qed.

Lemma first_message_empty checks : Forall (λ c, snd c ≠ "") checks → first_message checks = "" ↔ Forall (λ c, fst c = false) checks.
Proof.
  unfold first_message. induction 1 as [|[b m] checks Hm Hall IH]; cbn [List.find fst]; [done|]. destruct b.
  - split; [done|]. by intros Hf%Forall_inv.
  - rewrite IH. split; [by constructor|by intros Hf%Forall_inv_tail].
Qed.

Lemma rec_get_app a b key : rec_get (a ++ b) key = match rec_get b key with Some x => Some x | None => rec_get a key end.
Proof.
  unfold rec_get. rewrite foldl_app. generalize (foldl (λ acc kv, if String.eqb (fst kv) key then Some (snd kv) else acc) None a).
  induction b as [|[k x] b IH] using rev_ind; intros acc; [done|]. rewrite !foldl_app. cbn. by destruct (String.eqb k key).
Qed.

Section Passes.
Context `{Unicode, GoFloat}.

(** Where the runner finds the asserted fields. *)
Lemma record_fields ci d effect forward :
  let rec := record ci d effect forward in
  has_list rec "obligations" = true ∧ rec_strings rec "obligations" = d_Obligations (dn_dec d) ∧
  has_bool rec "unknown_target" = true ∧ rec_bool rec "unknown_target" = hasUnknown d ∧
  has_string rec "parse_error" = negb (String.eqb (dn_parseError d) "") ∧ rec_string rec "parse_error" = dn_parseError d ∧
  has_list rec "unnamed_args" = (0 <? List.length (dn_unnamed d))%nat ∧ rec_strings rec "unnamed_args" = capNames (dn_unnamed d) ∧
  has_list rec "malformed_args" = (0 <? List.length (dn_malformed d))%nat ∧ rec_strings rec "malformed_args" = capNames (dn_malformed d).
Proof.
  cbv zeta. unfold record, has_list, has_bool, has_string, rec_strings, rec_bool, rec_string. rewrite !rec_get_app.
  destruct (String.eqb_spec (dn_parseError d) "") as [Hp|Hp], (dn_unnamed d) as [|u us], (dn_malformed d) as [|m ms]; cbn; rewrite ?Hp; done.
Qed.

(** What a gate case asserts of the decision. *)
Record asserted (e : Expect) (v : Verdict) (d : decision) : Prop := {
  as_effect : v_Effect v = e_Effect e;
  as_rule : e_Rule e = "" ∨ v_RuleID v = e_Rule e;
  as_class : e_Class e = "" ∨ v_Class v = e_Class e;
  as_source : e_ClassSource e = "" ∨ v_ClassSource v = e_ClassSource e;
  as_obligations l : e_Obligations e = Some l → d_Obligations (dn_dec d) ≡ₚ l;
  as_targets l : e_Targets e = Some l → v_Targets v = l;
  as_unknown b : e_UnknownTarget e = Some b → hasUnknown d = b;
  as_parse : e_ParseError e = "" ∨ dn_parseError d = e_ParseError e;
  as_unnamed l : e_UnnamedArgs e = Some l → capNames (dn_unnamed d) ≡ₚ l;
  as_malformed l : e_MalformedArgs e = Some l → capNames (dn_malformed d) ≡ₚ l;
  as_forwarded b : e_Forwarded e = Some b → Forward v = b;
  as_error s : e_ToolError e = Some s → v_Error v = s;
}.

Lemma unset_or (a b : string) : negb (String.eqb a "") && negb (String.eqb b a) = false ↔ a = "" ∨ b = a.
Proof. destruct (String.eqb_spec a ""), (String.eqb_spec b a); cbn; naive_solver. Qed.

Lemma list_checks_spec rec key want names : key ≠ "" → has_list rec key = (0 <? List.length names)%nat → rec_strings rec key = capNames names →
  Forall (λ c, snd c ≠ "") (list_checks rec key want) ∧
  (Forall (λ c, fst c = false) (list_checks rec key want) ↔ ∀ l, want = Some l → capNames names ≡ₚ l).
Proof.
  intros Hk Hh Hs. destruct want as [l|]; cbn [list_checks]; [|split; [constructor|split; [by intros _ l|constructor] ] ].
  assert (Hne : ∀ s, (key ++ s)%string ≠ "") by (intros s; by destruct key). split.
  { repeat constructor; cbn [snd]; [unfold absent; rewrite <- app_assoc_str|]; apply Hne. }
  rewrite Hh, Hs. split.
  - intros [_ [Hf _]%Forall_cons]%Forall_cons l' [= <-]. cbn in Hf. apply sameSet_spec. by destruct (sameSet _ _).
  - intros Hp. specialize (Hp l eq_refl). pose proof Hp as Hp'. apply sameSet_spec in Hp'. repeat constructor; cbn [fst]; [|by rewrite Hp'].
    destruct names; [|apply andb_false_r]. apply Permutation_length in Hp. destruct l; [done|]. done.
Qed.

Lemma case_mismatch_spec e effect rule obligations :
  case_mismatch e effect rule obligations = "" ↔
  effect = e_Effect e ∧ (e_Rule e = "" ∨ rule = e_Rule e) ∧ ∀ l, e_Obligations e = Some l → obligations ≡ₚ l.
Proof.
  unfold case_mismatch. rewrite first_message_empty by (repeat constructor; done). rewrite !Forall_cons. cbn [fst].
  rewrite unset_or. destruct (String.eqb_spec effect (e_Effect e)); cbn [negb]; [|naive_solver].
  destruct (e_Obligations e) as [want|]; [|naive_solver]. pose proof (sameSet_spec obligations want) as Hs.
  destruct (sameSet obligations want); cbn [negb]; naive_solver.
Qed.

Lemma gate_checks_spec e ci d :
  let v := verdict ci d in
  Forall (λ c, snd c ≠ "") (gate_checks e v) ∧
  (Forall (λ c, fst c = false) (gate_checks e v) ↔
    (e_Class e = "" ∨ v_Class v = e_Class e) ∧ (e_ClassSource e = "" ∨ v_ClassSource v = e_ClassSource e) ∧
    (∀ l, e_Obligations e = Some l → d_Obligations (dn_dec d) ≡ₚ l) ∧ (∀ l, e_Targets e = Some l → v_Targets v = l) ∧
    (∀ b, e_UnknownTarget e = Some b → hasUnknown d = b) ∧ (e_ParseError e = "" ∨ dn_parseError d = e_ParseError e) ∧
    (∀ l, e_UnnamedArgs e = Some l → capNames (dn_unnamed d) ≡ₚ l) ∧ (∀ l, e_MalformedArgs e = Some l → capNames (dn_malformed d) ≡ₚ l) ∧
    (∀ b, e_Forwarded e = Some b → Forward v = b) ∧ (∀ s, e_ToolError e = Some s → v_Error v = s)).
Proof.
  cbv zeta. set (v := verdict ci d). destruct (record_fields ci d (v_Effect v) (Forward v)) as (R1 & R2 & R3 & R4 & R5 & R6 & R7 & R8 & R9 & R10).
  assert (Hrec : v_Record v = record ci d (v_Effect v) (Forward v)) by done. rewrite <- Hrec in *.
  unfold gate_checks. destruct (list_checks_spec (v_Record v) "unnamed_args" (e_UnnamedArgs e) (dn_unnamed d) ltac:(done) R7 R8) as [U1 U2].
  destruct (list_checks_spec (v_Record v) "malformed_args" (e_MalformedArgs e) (dn_malformed d) ltac:(done) R9 R10) as [M1 M2].
  split.
  - rewrite !Forall_app. split_and!; try done; repeat (case_match || constructor || done).
  - rewrite !Forall_app, U2, M2, !Forall_cons, !Forall_nil. cbn [fst]. rewrite R5, R6, !unset_or.
    assert (Hpe : (negb (String.eqb (e_ParseError e) "") && negb (negb (String.eqb (dn_parseError d) "")) = false ∧
      (e_ParseError e = "" ∨ dn_parseError d = e_ParseError e) ∧ True) ↔ (e_ParseError e = "" ∨ dn_parseError d = e_ParseError e)).
    { split; [tauto|]. intros Ho. split; [|tauto]. destruct (String.eqb_spec (e_ParseError e) ""), (String.eqb_spec (dn_parseError d) ""); cbn; [done..| |done].
      destruct Ho; congruence. }
    rewrite Hpe. clear Hpe U1 U2 M1 M2.
    assert (Ho : Forall (λ c : bool * string, fst c = false) match e_Obligations e with None => [] | Some want =>
        [(negb (has_list (v_Record v) "obligations"), absent "obligations");
         (negb (sameSet (rec_strings (v_Record v) "obligations") want), "obligations " ++ listed (rec_strings (v_Record v) "obligations") ++ ", want " ++ listed want)%string] end
      ↔ ∀ l, e_Obligations e = Some l → d_Obligations (dn_dec d) ≡ₚ l).
    { destruct (e_Obligations e) as [want|]; [|by rewrite Forall_nil]. rewrite !Forall_cons, Forall_nil. cbn [fst]. rewrite R1, R2, !negb_false_iff, sameSet_spec. naive_solver. }
    assert (Ht : Forall (λ c : bool * string, fst c = false) match e_Targets e with None => [] | Some want =>
        [(negb (bool_decide (v_Targets v = want)), "targets " ++ Termsafe.List (v_Targets v) ++ ", want " ++ Termsafe.List want)%string] end
      ↔ ∀ l, e_Targets e = Some l → v_Targets v = l).
    { destruct (e_Targets e) as [want|]; [|by rewrite Forall_nil]. rewrite Forall_cons, Forall_nil. cbn [fst]. rewrite negb_false_iff, bool_decide_eq_true. naive_solver. }
    assert (Hu : Forall (λ c : bool * string, fst c = false) match e_UnknownTarget e with None => [] | Some want =>
        [(negb (has_bool (v_Record v) "unknown_target"), absent "unknown_target");
         (negb (Bool.eqb (rec_bool (v_Record v) "unknown_target") want),
           "unknown_target " ++ bool_text (rec_bool (v_Record v) "unknown_target") ++ ", want " ++ bool_text want)%string] end
      ↔ ∀ b, e_UnknownTarget e = Some b → hasUnknown d = b).
    { destruct (e_UnknownTarget e) as [want|]; [|by rewrite Forall_nil]. rewrite !Forall_cons, Forall_nil. cbn [fst]. rewrite R3, R4, !negb_false_iff, eqb_true_iff. naive_solver. }
    rewrite Ho, Ht, Hu. clear Ho Ht Hu.
    destruct (e_Forwarded e) as [bf|], (e_ToolError e) as [se|]; rewrite ?Forall_cons, ?Forall_nil; cbn [fst]; rewrite ?negb_false_iff, ?eqb_true_iff, ?String.eqb_eq; naive_solver.
Qed.
End Passes.

(** a policy test passes exactly when the decision serve would make is the
    one it asserts.  A gate case passes when, for its call, the verdict the
    gate gives the proxy has the asserted effect, rule, class, class source,
    targets, forwarding and tool error, and its decision the asserted
    obligations, unknown target, parse error and refused argument names (lists
    but the targets in any order); a class-given case when Evaluate gives the
    asserted effect, rule and obligations.  What is not asserted is not
    checked. *)
Theorem case_passes `{Unicode, GoFloat} p g c :
  tr_Pass (run_case p g c) = true ↔
  if IsGate c then asserted (case_Expect c) (Decide g (call_of c)) (gate_decide g (call_of c))
  else
    let d := Evaluate (Some p) (request (case_Request c)) in
    d_Effect d = e_Effect (case_Expect c) ∧ (e_Rule (case_Expect c) = "" ∨ d_RuleID d = e_Rule (case_Expect c)) ∧
    ∀ l, e_Obligations (case_Expect c) = Some l → d_Obligations d ≡ₚ l.
Proof.
  unfold run_case. destruct (IsGate c).
  2:{ cbn [tr_Pass]. cbv zeta. by rewrite String.eqb_eq, case_mismatch_spec. }
  unfold runGate. cbv zeta. cbn [tr_Pass ex_Verdict Explain]. fold (Decide g (call_of c)). set (e := case_Expect c). set (v := Decide g (call_of c)).
  destruct (gate_checks_spec e (call_of c) (gate_decide g (call_of c))) as [Hne Hspec]. cbv zeta in Hne, Hspec.
  fold (Decide g (call_of c)) in Hne, Hspec. fold v in Hne, Hspec.
  pose proof (case_mismatch_spec (without_obligations e) (v_Effect v) (v_RuleID v) []) as Hm. cbn [without_obligations e_Effect e_Rule e_Obligations] in Hm.
  destruct (String.eqb_spec (case_mismatch (without_obligations e) (v_Effect v) (v_RuleID v) []) "") as [Hz|Hz]; cbn [negb].
  - rewrite String.eqb_eq, first_message_empty, Hspec by done. destruct (proj1 Hm Hz) as (E1 & E2 & _). split.
    + intros (H1 & H2 & H3 & H4 & H5 & H6 & H7 & H8 & H9 & H10). by split.
    + intros []. by split_and!.
  - apply String.eqb_neq in Hz as Hz'. rewrite Hz'. split; [done|]. intros []. destruct Hz. apply Hm. by split_and!.
Qed.

(** One load rule of a chain. *)
Lemma rule_passes {A} (b : bool) (x : A) k : (if b then Some x else k) = None ↔ b = false ∧ k = None.
Proof. destruct b; naive_solver. Qed.

Lemma is_set_false {A} (o : option A) : is_set o = false ↔ o = None.
Proof. by destruct o. Qed.
Lemma is_set_true {A} (o : option A) : is_set o = true ↔ is_Some o.
Proof. destruct o; cbn; split; try done; by intros [? ?]. Qed.

Lemma unset_and (a : string) b : negb (String.eqb a "") && negb b = false ↔ a = "" ∨ b = true.
Proof. destruct (String.eqb_spec a ""), b; cbn; naive_solver. Qed.

Lemma check_gate `{Unicode} c : IsGate c = true → check c = None ↔
  let r := case_Request c in let e := case_Expect c in
  trim_space (case_Name c) ≠ "" ∧ effect_valid (e_Effect e) = true ∧
  (cr_Arguments r = None ∨ cr_ArgumentsJSON r = None) ∧ cr_Class r = "" ∧ cr_Targets r = None ∧ cr_Server r ≠ "" ∧ cr_Tool r ≠ "" ∧
  e_Rule e ≠ "" ∧ slen (ArgumentBytes c) <= 65536 ∧ (e_Class e = "" ∨ class_valid (e_Class e) = true) ∧
  (e_ClassSource e = "" ∨ is_Some (ParseSource (e_ClassSource e))) ∧ (e_ParseError e = "" ∨ e_ParseError e ∈ ParseErrors) ∧
  ((e_ParseError e = "" ∧ e_UnnamedArgs e = None ∧ e_MalformedArgs e = None) ∨ e_Rule e = RuleBadArguments).
Proof.
  intros Hg. unfold check. rewrite Hg. cbn [negb]. cbv zeta. rewrite !rule_passes, !unset_and, !is_set_false, is_set_true, mem_true, !negb_false_iff, !String.eqb_neq, Z.ltb_ge.
  rewrite !andb_false_iff, !orb_false_iff, !negb_false_iff, !is_set_false, !String.eqb_eq. unfold MaxArgumentBytes. tauto.
Qed.

Lemma check_class `{Unicode} c : IsGate c = false → check c = None ↔
  let r := case_Request c in
  trim_space (case_Name c) ≠ "" ∧ effect_valid (e_Effect (case_Expect c)) = true ∧
  cr_Class r ≠ "" ∧ class_valid (cr_Class r) = true ∧ cr_Annotations r = None ∧ gateOnly (case_Expect c) = [].
Proof.
  intros Hg. unfold check. rewrite Hg. cbn [negb]. cbv zeta. rewrite !rule_passes, is_set_false, !negb_false_iff, !String.eqb_neq.
  assert (Hl : (0 <? List.length (gateOnly (case_Expect c)))%nat = false ↔ gateOnly (case_Expect c) = []) by (destruct (gateOnly _); cbn; naive_solver).
  rewrite Hl. tauto.
Qed.

Lemma check_cases_spec `{Unicode} cases : ∀ i, check_cases i cases = None ↔ ∀ c, c ∈ cases → slen (case_Name c) <= MaxCaseName ∧ check c = None.
Proof.
  induction cases as [|c cases IH]; intros i; cbn [check_cases]; [split; [by intros _ c ?%not_elem_of_nil|done]|].
  rewrite rule_passes, Z.ltb_ge. setoid_rewrite elem_of_cons. destruct (check c) eqn:Hc; [|rewrite IH]; naive_solver.
Qed.

(** only cases that can say something are loaded.  A test file is accepted
    exactly when it names a policy, has a case, and every case is named in at
    most 256 bytes, expects a valid effect, and either gives a valid class and
    asserts nothing only the gate decides, or gives the call's arguments in one
    form only, of at most the 64 KiB the proxy lets through, with a server, a
    tool and the rule it expects, no class and no targets of its own, known
    vocabulary, and argument errors only under the rule that reports them. *)
Theorem test_file_rules `{Unicode} f :
  Parse (Ok f) = Ok f ↔
  trim_space (file_Policy f) ≠ "" ∧ file_Cases f ≠ [] ∧
  ∀ c, c ∈ file_Cases f →
    let r := case_Request c in let e := case_Expect c in
    slen (case_Name c) <= MaxCaseName ∧ trim_space (case_Name c) ≠ "" ∧ effect_valid (e_Effect e) = true ∧
    if IsGate c then
      (cr_Arguments r = None ∨ cr_ArgumentsJSON r = None) ∧ cr_Class r = "" ∧ cr_Targets r = None ∧ cr_Server r ≠ "" ∧ cr_Tool r ≠ "" ∧
      e_Rule e ≠ "" ∧ slen (ArgumentBytes c) <= 65536 ∧ (e_Class e = "" ∨ class_valid (e_Class e) = true) ∧
      (e_ClassSource e = "" ∨ is_Some (ParseSource (e_ClassSource e))) ∧ (e_ParseError e = "" ∨ e_ParseError e ∈ ParseErrors) ∧
      ((e_ParseError e = "" ∧ e_UnnamedArgs e = None ∧ e_MalformedArgs e = None) ∨ e_Rule e = RuleBadArguments)
    else cr_Class r ≠ "" ∧ class_valid (cr_Class r) = true ∧ cr_Annotations r = None ∧ gateOnly e = [].
Proof.
  unfold Parse. destruct (String.eqb_spec (trim_space (file_Policy f)) "") as [|Hp]; [naive_solver|].
  destruct (file_Cases f) as [|c0 cs0] eqn:Ef; [naive_solver|]. set (cases := c0 :: cs0).
  assert (Hok : match check_cases 1 cases with Some e => Err e | None => Ok f end = Ok f ↔ check_cases 1 cases = None) by (destruct (check_cases 1 cases); naive_solver).
  rewrite Hok, check_cases_spec. split.
  - intros Hall. split; [done|]. split; [done|]. intros c Hin. destruct (Hall c Hin) as [Hn Hc]. cbv zeta. split; [done|].
    destruct (IsGate c) eqn:Hg; [apply check_gate in Hc|apply check_class in Hc]; done.
  - intros (_ & _ & Hall) c Hin. destruct (Hall c Hin) as (Hn & Hc). split; [done|].
    destruct (IsGate c) eqn:Hg; [by apply check_gate|by apply check_class].
Qed.
