(* ===== verification/TestArguments.v ===== *)
(** * The arguments of a policy test case: internal/policytest/testfile.go

    A gate case writes its arguments as a YAML mapping.  [plainYAML] walks the
    nodes and refuses what makes the YAML say something other than what it
    shows; the mapping is then decoded and encoded as the JSON the gate gets.
    [noAnchors] walks a whole test file.  The nodes are those of goccy/go-yaml;
    its parser and its decoder are arguments, with [YamlLaws] what the code
    relies on.

    [arguments_as_written]: the JSON is the mapping as it is written. *)

From S2P Require Import Prelude GoStd GoRegexp Json JsonMarshal JsonStruct YamlStrict PolicyTest Values.
From Stdlib Require Import SpecFloat.

Open Scope string_scope.
Open Scope Z_scope.
Open Scope list_scope.

(** ** Nodes *)

(** A token's type, as far as the code looks at it, and its line. *)
Inductive token_type := SingleQuoteType | DoubleQuoteType | IntegerType | ImplicitNullType | OtherType.
Record yaml_token := Tok { tk_Type : token_type; tk_Value : string; tk_Line : option Z }.

(** The Go type of a node.  A string or a block scalar carries its value. *)
Inductive kind :=
  | StringNode (value : string) | LiteralNode (value : string) | IntegerNode | FloatNode | BoolNode | NullNode
  | InfinityNode | NanNode | MappingNode | SequenceNode | TagNode | AnchorNode | AliasNode | OtherNode.

(** A node with its address, its token and the children Walk visits, in order.
    An entry of a mapping is a MappingValueNode: what IsMergeKey says of its
    key, the key and the value. *)
Inductive node :=
  | Node (id : N) (k : kind) (tk : option yaml_token) (children : list node)
  | MapValue (id : N) (tk : option yaml_token) (merge : bool) (key value : node).

Definition node_id (n : node) : N := match n with Node i _ _ _ | MapValue i _ _ _ _ => i end.
Definition GetToken (n : node) : option yaml_token := match n with Node _ _ tk _ | MapValue _ tk _ _ _ => tk end.

(** The line a message names: 0 (or [d]) where the node has no position. *)
Definition line_or (d : Z) (n : node) : Z := default d (GetToken n ≫= tk_Line).

(** [ast.Walk]: depth first, a node before its children, which are skipped
    when Visit returns nil.  The visitor is its state. *)
Section Walk.
Context {S : Type} (visit : node → S → S * bool).

Fixpoint Walk (n : node) (s : S) : S :=
  let '(s', into) := visit n s in
  if into then
    match n with
    | Node _ _ _ cs => fold_left (λ s c, Walk c s) cs s'
    | MapValue _ _ _ key value => Walk value (Walk key s')
    end
  else s'.
End Walk.

(** ** Anchors and aliases *)

Definition anchor_visit (n : node) (line : Z) : Z * bool :=
  if negb (line =? 0) then (line, false)
  else match n with
  | Node _ (AnchorNode | AliasNode) _ _ => (line_or 1 n, false)
  | _ => (line, true)
  end.

(** [noAnchors], on what the parser gives: [None] when it does not parse. *)
Fixpoint noAnchors (docs : list node) (line : Z) : option string :=
  match docs with
  | [] => None
  | d :: docs =>
      let line := Walk anchor_visit d line in
      if line =? 0 then noAnchors docs line
      else Some ("test file: line " ++ itoa line ++ ": anchors (&) and aliases (*) are not allowed; write each value out")%string
  end.

(** [Parse] of a file's bytes. *)
Definition ParseBytes `{Unicode, GoFloat} (parse : string → option (list node)) (parse_docs : string → result string (list (option bool)))
    (decode : string → result string File) (b : string) : result string File :=
  match noAnchors (default [] (parse b)) 0 with
  | Some e => Err e
  | None => PolicyTest.Parse (Unmarshal parse_docs decode b)
  end.

(** ** Scalars *)

Definition decimalInt : regexp := compile "^-?(0|[1-9][0-9]*)$".
Definition decimalFloat : regexp := compile "^-?(0|[1-9][0-9]*)\.[0-9]+$".
Definition numberLike : regexp := compile "^[-+]?([0-9][0-9_]*\.?[0-9_]*|\.[0-9][0-9_]*)([eE][-+]?[0-9]+)?$".
Definition dateLike : regexp := compile "^[0-9]{4}-[0-9]{1,2}-[0-9]{1,2}([Tt ]|$)".
Definition timeLike : regexp := compile "^[-+]?[0-9]+(:[0-9]+)+(\.[0-9]*)?$".

(** A decoded value of type [any]; [YOther] is a value of any other
    type, with the type's name. *)
Inductive yval :=
  | YNil | YBool (b : bool) | YStr (s : string) | YInt (z : Z) | YFloat (f : spec_float)
  | YList (l : list yval) | YMap (l : list (string * yval)) | YOther (type : string).

Section Decoder.
(** [yaml.NodeToValue] into an [any] and into a [map[string]any], which may
    stay nil; [None] is an error.  How encoding/json writes a finite float. *)
Context (node_value : node → option yval) (node_map : node → option (option (list (string * yval)))) (float_json : spec_float → string).

(** What [json.Marshal] makes of a value; a map's keys are sorted. *)
Fixpoint json_of (v : yval) : option any :=
  match v with
  | YNil => Some ANil
  | YBool b => Some (ABool b)
  | YStr s => Some (AStr s)
  | YInt z => Some (ANum (itoa z))
  | YFloat (S754_infinity _ | S754_nan) => None
  | YFloat f => Some (ANum (float_json f))
  | YList l => AArr <$> mapM json_of l
  | YMap l => (λ es, AObj (set_all [] es)) <$> mapM (λ kv, pair (fst kv) <$> json_of (snd kv)) l
  | YOther _ => None
  end.

Definition json_Marshal (v : yval) : option string := marshal <$> json_of v.

(** [jsonValue]: [None] is no error.  Go may meet the entries of a map in any
    order, which only chooses among its errors. *)
Fixpoint jsonValue (v : yval) : option string :=
  match v with
  | YFloat (S754_infinity _ | S754_nan) => Some "a number is not finite"
  | YList l => first_error jsonValue l
  | YMap l => first_error (λ kv, jsonValue (snd kv)) l
  | YOther type => Some ("a value of type " ++ type ++ " cannot be sent as JSON")%string
  | _ => None
  end.

Definition encodesAs (n : node) (text : string) : bool :=
  match node_value n ≫= json_Marshal with Some t => String.eqb t text | None => false end.

Definition plainScalar (n : node) : string * bool :=
  match n, GetToken n with
  | Node _ k _ _, Some tk =>
      let text := tk_Value tk in
      match k with
      | StringNode _ =>
          match tk_Type tk with
          | SingleQuoteType | DoubleQuoteType => ("", false)
          | _ => ("", MatchString numberLike text || MatchString dateLike text || MatchString timeLike text)
          end
      | IntegerNode =>
          (if negb match tk_Type tk with IntegerType => true | _ => false end || negb (MatchString decimalInt text) || negb (encodesAs n text)
           then "a different number" else "", false)
      | FloatNode => (if negb (MatchString decimalFloat text) || negb (encodesAs n text) then "a different number" else "", false)
      | BoolNode => (if negb (String.eqb text "true") && negb (String.eqb text "false") then "a boolean" else "", false)
      | NullNode =>
          (if negb match tk_Type tk with ImplicitNullType => true | _ => false end && negb (String.eqb text "null") then "null" else "", false)
      | InfinityNode | NanNode => ("a number JSON cannot carry", false)
      | _ => ("", false)
      end
  | _, _ => ("", false)
  end.

(** ** plainYAML *)

(** [plainVisitor]: the keys seen, by address, and the first error. *)
Record plain_visitor := Visitor { vis_keys : list N; vis_err : option string }.

Definition refuse (v : plain_visitor) (e : string) : plain_visitor * bool := (Visitor (vis_keys v) (Some e), false).

Definition isKey (v : plain_visitor) (n : node) : bool := mem (node_id n) (vis_keys v).

Definition is_string (n : node) : bool := match n with Node _ (StringNode _) _ _ => true | _ => false end.

Definition Visit (scalars : bool) (n : node) (v : plain_visitor) : plain_visitor * bool :=
  match vis_err v with
  | Some _ => (v, false)
  | None =>
      match n with
      | MapValue _ _ merge key _ =>
          let v := Visitor (node_id key :: vis_keys v) None in
          if merge then refuse v "a merge key (<<) is not allowed; write the keys out"
          else if negb (is_string key) then refuse v "every key must be a string; quote it"
          else (v, true)
      | Node _ TagNode _ _ => refuse v "a YAML tag is not allowed"
      | Node _ (AnchorNode | AliasNode) _ _ => refuse v "an anchor or alias is not allowed; write the value out"
      | Node _ (StringNode _ | IntegerNode | FloatNode | BoolNode | NullNode | InfinityNode | NanNode) _ _ =>
          if scalars && negb (isKey v n) then
            let '(what, lookalike) := plainScalar n in
            if negb (String.eqb what "") || lookalike then
              let line := itoa (line_or 0 n) in
              refuse v (if lookalike : bool then "the unquoted value at line " ++ line ++ " looks like a number, date or time; quote it"
                else "the unquoted value at line " ++ line ++ " would reach the gate as " ++ what ++
                  ", not as written; quote it, or give the exact bytes in arguments_json")%string
            else (v, true)
          else (v, true)
      | _ => (v, true)
      end
  end.

Definition plainYAML (n : node) (scalars : bool) : option string := vis_err (Walk (Visit scalars) n (Visitor [] None)).

(** ** The two decoders *)

Definition is_mapping (n : node) : bool := match n with Node _ MappingNode _ _ | MapValue _ _ _ _ _ => true | _ => false end.

(** [Arguments.UnmarshalYAML]: the JSON of the mapping. *)
Definition Arguments_UnmarshalYAML (n : node) : result string string :=
  if negb (is_mapping n)
  then Err "arguments must be a mapping; use {} for a call with none, or arguments_json for other bytes"
  else match plainYAML n true with
  | Some e => Err ("arguments: " ++ e)%string
  | None =>
      match node_map n with
      | None => Err "arguments: cannot be decoded as a mapping"
      | Some m =>
          let m := YMap (default [] m) in
          match jsonValue m with
          | Some e => Err ("arguments: " ++ e)%string
          | None => match json_Marshal m with None => Err "arguments: cannot be encoded as JSON" | Some b => Ok b end
          end
      end
  end.

(** [Inventory.UnmarshalYAML]: a path, or a document inline.  Decoding into a
    string and writing a node back as text are the library's. *)
Definition Inventory_UnmarshalYAML (node_string : node → option string) (node_text : node → string) (n : node) : result string inventory_source :=
  match n with
  | Node _ (StringNode _ | LiteralNode _) _ _ =>
      match node_string n with
      | None => Err "inventory: a path must be a string"
      | Some s => if String.eqb (trim_space s) "" then Err "inventory: the path is empty" else Ok (InvPath s)
      end
  | Node _ MappingNode _ _ | MapValue _ _ _ _ _ =>
      match plainYAML n false with
      | Some e => Err ("inventory: " ++ e)%string
      | None => Ok (InvInline (node_text n))
      end
  | _ => Err "inventory: give a path or the inventory document as a mapping"
  end.
End Decoder.

(** ** The patterns of numbers are those of JSON *)

Definition class_re (lo hi : Z) : re := RSet (RuneSet false false [(lo, hi)]).

(** The integers of [decimalInt], followed by [k]. *)
Definition int_re (k : re) : re :=
  RSeq (RAlt (class_re 45 45) REmpty)
    (RSeq (RGroup 1 (RAlt (RSeq (class_re 48 48) REmpty) (RSeq (class_re 49 57) (RSeq (RStar true (class_re 48 57)) REmpty)))) k).

Definition end_re : re := RSeq (RAssert EndText) REmpty.

Lemma decimalInt_shape : body decimalInt = RSeq (RAssert BeginText) (int_re end_re).
Proof. vm_compute. reflexivity. Qed.

Lemma decimalFloat_shape : body decimalFloat =
  RSeq (RAssert BeginText) (int_re (RSeq (class_re 46 46) (RSeq (RSeq (class_re 48 57) (RStar true (class_re 48 57))) end_re))).
Proof. vm_compute. reflexivity. Qed.

Lemma seq_run a b p c p' c' : matches (RSeq a b) p c p' c' → ∃ q d, matches a p c q d ∧ matches b q d p' c'.
Proof. intros Hm. inversion Hm; simplify_eq; eauto. Qed.

Lemma empty_run p c p' c' : matches REmpty p c p' c' → p' = p ∧ c' = c.
Proof. intros Hm. by inversion Hm. Qed.

Lemma group_run i a p c p' c' : matches (RGroup i a) p c p' c' → ∃ d, matches a p c p' d.
Proof. intros Hm. inversion Hm; simplify_eq; eauto. Qed.

Lemma alt_run a b p c p' c' : matches (RAlt a b) p c p' c' → matches a p c p' c' ∨ matches b p c p' c'.
Proof. intros Hm. inversion Hm; simplify_eq; eauto. Qed.

Lemma text_end_run p c p' c' : matches end_re p c p' c' → rest p = "".
Proof.
  intros (q & d & H1 & H2)%seq_run. inversion H1 as [| |? ? ? Hh| | | | | |]; simplify_eq. apply bool_decide_eq_true in Hh.
  unfold next, step in Hh. destruct (rest q) as [|a t]; [done|]. by destruct (decode_rune _).
Qed.

(** A pattern anchored at the beginning starts there. *)
Lemma anchored_run r k s :
  body r = RSeq (RAssert BeginText) k → proper (body r) = true → MatchString r s = true → ∃ q e c, rest q = s ∧ matches k q [] e c.
Proof.
  intros Hb Hp (q & e & c & Hq & Hm)%MatchString_spec; [|done]. rewrite Hb in Hm. apply seq_run in Hm as (q' & d & H0 & H1).
  inversion H0 as [| |? ? ? Hh| | | | | |]; simplify_eq. apply Nat.eqb_eq in Hh.
  assert (Ht : in_text s q') by (eapply reaches_in_text; [apply in_text_start|done]). destruct Ht as [_ Ht].
  rewrite Hh in Ht. by exists q', e, c.
Qed.

Lemma class_run lo hi p c p' c' : hi < 128 → matches (class_re lo hi) p c p' c' → ∃ a, rest p = String a (rest p') ∧ lo <= bz a <= hi.
Proof.
  intros Hhi Hm. apply (matches_byte _ (λ a, in_range lo hi (bz a))) in Hm as (_ & a & x & Ha & Hr & _).
  - exists a. split; [done|]. unfold in_range in Ha. breflect. lia.
  - intros r. unfold in_set, in_ranges, in_range. cbn. intros ?. destruct (Z.leb_spec lo r), (Z.leb_spec r hi); try done; lia.
  - intros a. unfold in_set, in_ranges. cbn. by destruct (in_range lo hi (bz a)).
Qed.

Lemma byte_is a d : bz d <= bz a <= bz d → a = d.
Proof. intros Hd. apply bz_inj. lia. Qed.

Lemma digits_run p c p' c' : matches (RStar true (class_re 48 57)) p c p' c' →
  ∃ t, rest p = (t ++ rest p')%string ∧ s_all is_digit_b t = true.
Proof.
  apply matches_bytes. cbn. intros r Hr. unfold in_set, in_ranges, in_range in Hr. cbn in Hr.
  destruct (Z.leb_spec 48 r), (Z.leb_spec r 57); try done. split; [lia|]. unfold is_digit_b, in_range. rewrite bz_zb by lia.
  apply andb_true_intro. split; by apply Z.leb_le.
Qed.

(** A literal's text up to the state [st] of the scanner. *)
Definition reads_to (w : string) (st : numst) : Prop :=
  ∀ r, num_lit (w ++ r) = match num_run st r with Some st' => num_final st' | None => false end.

Lemma digits_to st t r : st = N1 ∨ st = NDot0 → s_all is_digit_b t = true → num_run st (t ++ r) = num_run st r.
Proof.
  intros Hst. induction t as [|a t IH]; cbn [append s_all num_run]; [done|]. intros [Ha Ht]%andb_prop.
  destruct Hst as [-> | ->]; cbn [num_step]; rewrite Ha; auto.
Qed.

Lemma nonzero_digit a : 49 <= bz a <= 57 → ∀ r, lex_start a = ([], Some (LNum N1 (String a ""))) ∧ num_run NNeg (String a r) = num_run N1 r.
Proof. intros Ha r. destruct a as [[] [] [] [] [] [] [] []]; first [by destruct Ha as [Ha1 Ha2]; exfalso; (apply Ha1 || apply Ha2)|split; reflexivity]. Qed.

Lemma int_run k p c p' c' : matches (int_re k) p c p' c' →
  ∃ w st q d, rest p = (w ++ rest q)%string ∧ reads_to w st ∧ (st = N0 ∨ st = N1) ∧ matches k q d p' c'.
Proof.
  intros (p1 & c1 & Hsign & (q & d & (d' & Hdig)%group_run & Hk)%seq_run)%seq_run.
  assert (Hs : rest p = rest p1 ∨ rest p = String "-" (rest p1)).
  { apply alt_run in Hsign as [Hm|[-> _]%empty_run]; [right|by left]. apply class_run in Hm as (a & -> & Ha); [|lia].
    by rewrite (byte_is a "-" Ha). }
  assert (Hb : ∃ w st, rest p1 = (w ++ rest q)%string ∧ reads_to w st ∧ reads_to (String "-" w) st ∧ (st = N0 ∨ st = N1)).
  { apply alt_run in Hdig as [(p2 & c2 & Hm & [-> _]%empty_run)%seq_run | (p2 & c2 & Hm & (p3 & c3 & Ht & [-> _]%empty_run)%seq_run)%seq_run].
    - apply class_run in Hm as (a & -> & Ha); [|lia]. rewrite (byte_is a "0" Ha). exists "0", N0. split_and!; [done|by intros r..|by left].
    - apply class_run in Hm as (a & -> & Ha); [|lia]. apply digits_run in Ht as (t & -> & Ht). exists (String a t), N1.
      split_and!; [done| | |by right]; intros r; cbn [append]; unfold num_lit.
      + destruct (nonzero_digit a Ha "") as [-> _]. by rewrite digits_to by auto.
      + change (lex_start "-") with (@nil token, Some (LNum NNeg "-")). destruct (nonzero_digit a Ha (t ++ r)) as [_ ->]. by rewrite digits_to by auto. }
  destruct Hb as (w & st & Hw & H1 & H2 & Hst). destruct Hs as [Hs|Hs]; rewrite Hs, Hw.
  - by exists w, st, q, d.
  - by exists (String "-" w), st, q, d.
Qed.

Lemma decimalInt_lit s : MatchString decimalInt s = true → num_lit s = true.
Proof.
  intros (q & e & c & <- & Hm)%(anchored_run _ _ _ decimalInt_shape); [|vm_compute; reflexivity].
  apply int_run in Hm as (w & st & q' & d & -> & Hw & Hst & ->%text_end_run). rewrite Hw. by destruct Hst as [-> | ->].
Qed.

Lemma decimalFloat_lit s : MatchString decimalFloat s = true → num_lit s = true.
Proof.
  intros (q & e & c & <- & Hm)%(anchored_run _ _ _ decimalFloat_shape); [|vm_compute; reflexivity].
  apply int_run in Hm as (w & st & q' & d & -> & Hw & Hst & (q2 & d2 & H2 & (q3 & d3 & (q4 & d4 & H4 & H5)%seq_run & H6)%seq_run)%seq_run).
  apply class_run in H2 as (a & -> & Ha); [|lia]. apply class_run in H4 as (b & -> & Hb); [|lia]. apply digits_run in H5 as (t & -> & Ht).
  apply text_end_run in H6 as ->. rewrite (byte_is a "." Ha). rewrite Hw.
  assert (Hd : is_digit_b b = true) by (unfold is_digit_b, in_range; apply andb_true_intro; split; apply Z.leb_le; lia).
  assert (Hr : num_run st (String "." (String b (t ++ ""))) = Some NDot0).
  { destruct Hst as [-> | ->]; change (num_run NDot (String b (t ++ "")) = Some NDot0); cbn [num_run num_step];
      rewrite Hd, digits_to by auto; done. }
  by rewrite Hr.
Qed.

(** ** Trees *)

Section node_ind.
Variable P : node → Prop.
Hypothesis Hnode : ∀ i k tk cs, Forall P cs → P (Node i k tk cs).
Hypothesis Hmap : ∀ i tk merge key value, P key → P value → P (MapValue i tk merge key value).

(** Induction through the children. *)
Fixpoint node_nested_ind (n : node) : P n :=
  match n with
  | Node i k tk cs => Hnode i k tk cs ((fix go l : Forall P l := match l with
      | [] => @List.Forall_nil _ P
      | x :: l => @List.Forall_cons _ P x l (node_nested_ind x) (go l) end) cs)
  | MapValue i tk merge key value => Hmap i tk merge key value (node_nested_ind key) (node_nested_ind value)
  end.
End node_ind.

(** The nodes of a tree, before their children. *)
Fixpoint nodes (n : node) : list node :=
  n :: match n with
  | Node _ _ _ cs => List.concat (map nodes cs)
  | MapValue _ _ _ key value => nodes key ++ nodes value
  end.

Definition ids (n : node) : list N := map node_id (nodes n).

(** What the parser gives: every node is an object of its own, a scalar that
    is no key has its token, and a mapping holds its entries. *)
Definition is_entry (n : node) : bool := match n with MapValue _ _ _ _ _ => true | _ => false end.

Fixpoint shaped (n : node) : bool :=
  match n with
  | Node _ k tk cs =>
      match k with
      | IntegerNode | FloatNode | BoolNode | InfinityNode | NanNode => is_set tk
      | MappingNode => forallb is_entry cs
      | OtherNode => false
      | _ => true
      end && forallb shaped cs
  | MapValue _ _ _ _ value => shaped value
  end.

(** The JSON a mapping shows: keys and strings as their values, numbers and
    booleans as their text. *)
Definition text_of (n : node) : string := from_option tk_Value "" (GetToken n).
Definition key_text (n : node) : string := match n with Node _ (StringNode s) _ _ => s | _ => "" end.

Fixpoint written (n : node) : any :=
  match n with
  | Node _ k _ cs =>
      match k with
      | StringNode s | LiteralNode s => AStr s
      | IntegerNode | FloatNode => ANum (text_of n)
      | BoolNode => ABool (String.eqb (text_of n) "true")
      | MappingNode => AObj (set_all [] (map (λ c, match c with MapValue _ _ _ key v => (key_text key, written v) | _ => ("", ANil) end) cs))
      | SequenceNode => AArr (map written cs)
      | _ => ANil
      end
  | MapValue _ _ _ key v => AObj [(key_text key, written v)]
  end.

#[export] Instance kind_eq : EqDecision kind.
Proof. solve_decision. Defined.

(** ** What plainYAML accepts *)

Section Plain.
Context (node_value : node → option yval) (float_json : spec_float → string).
Notation plainScalar := (plainScalar node_value float_json).

Definition shown (n : node) : bool := let '(what, lookalike) := plainScalar n in String.eqb what "" && negb lookalike.

(** [key]: the node is the key of an entry. *)
Fixpoint plain_tree (scalars key : bool) (n : node) : bool :=
  match n with
  | MapValue _ _ merge k v => negb merge && is_string k && plain_tree scalars true k && plain_tree scalars false v
  | Node _ kd _ cs =>
      match kd with
      | TagNode | AnchorNode | AliasNode => false
      | StringNode _ | IntegerNode | FloatNode | BoolNode | NullNode | InfinityNode | NanNode => negb scalars || key || shown n
      | _ => true
      end && forallb (plain_tree scalars false) cs
  end.

Notation Visit := (Visit node_value float_json).

Lemma walk_stopped scalars n v e : vis_err v = Some e → Walk (Visit scalars) n v = v.
Proof. intros He. destruct n; cbn [Walk]; unfold TestArguments.Visit; by rewrite He. Qed.

Lemma walk_list_stopped scalars l v e : vis_err v = Some e → fold_left (λ s c, Walk (Visit scalars) c s) l v = v.
Proof. intros He. induction l as [|n l IH]; [done|]. cbn [fold_left]. by rewrite (walk_stopped _ _ _ e). Qed.

(** A walk of the tree [n] from the keys [ks]: an error, or the keys grown by
    addresses of the tree. *)
Definition walks (ok : bool) (own : list N) (ks : list N) (v : plain_visitor) : Prop :=
  if ok then vis_err v = None ∧ ∀ i, (i ∈ ks → i ∈ vis_keys v) ∧ (i ∈ vis_keys v → i ∈ ks ∨ i ∈ own)
  else is_Some (vis_err v).

Definition walked (scalars : bool) (n : node) : Prop := ∀ ks key, NoDup (ids n) →
  (∀ i, i ∈ ids n → i ∈ ks ↔ i = node_id n ∧ key = true) →
  walks (plain_tree scalars key n) (ids n) ks (Walk (Visit scalars) n (Visitor ks None)).

Lemma visitor_eta v : vis_err v = None → v = Visitor (vis_keys v) None.
Proof. destruct v. cbn. by intros ->. Qed.

Lemma walks_then a b o1 o2 ks v (f : plain_visitor → plain_visitor) :
  (∀ e v, vis_err v = Some e → f v = v) →
  walks a o1 ks v → (∀ ks', (∀ i, (i ∈ ks → i ∈ ks') ∧ (i ∈ ks' → i ∈ ks ∨ i ∈ o1)) → walks b o2 ks' (f (Visitor ks' None))) →
  walks (a && b) (o1 ++ o2) ks (f v).
Proof.
  intros Hstop Ha Hb. destruct a; cbn [andb walks] in *.
  - destruct Ha as [He Hk]. rewrite (visitor_eta v He). specialize (Hb _ Hk). destruct b; cbn [walks] in *; [|done].
    destruct Hb as [? Hk2]. split; [done|]. intros i. specialize (Hk i). specialize (Hk2 i). rewrite elem_of_app. naive_solver.
  - destruct Ha as [e He]. rewrite (Hstop e) by done. by exists e.
Qed.

Lemma walk_list scalars l ks : Forall (walked scalars) l → NoDup (List.concat (map ids l)) → (∀ i, i ∈ List.concat (map ids l) → i ∉ ks) →
  walks (forallb (plain_tree scalars false) l) (List.concat (map ids l)) ks (fold_left (λ s c, Walk (Visit scalars) c s) l (Visitor ks None)).
Proof.
  intros Hl. revert ks. induction Hl as [|n l Hn Hl IH]; intros ks Hnd Hks; cbn [map concat forallb fold_left] in *.
  { split; [done|]. intros i. cbn [vis_keys]. tauto. }
  apply NoDup_app in Hnd as (Hn1 & Hd & Hn2).
  apply (walks_then _ _ _ _ _ _ (λ v, fold_left (λ s c, Walk (Visit scalars) c s) l v)).
  - intros e v. apply walk_list_stopped.
  - apply Hn; [done|]. intros i Hi. split; [|by intros [_ ?]]. intros Hik. destruct (Hks i); [|done]. apply elem_of_app. by left.
  - intros ks' Hk'. apply IH; [done|]. intros i Hi Hik. destruct (Hk' i) as [_ [Ho|Ho]]; [done| |].
    + destruct (Hks i); [|done]. apply elem_of_app. by right.
    + by apply (Hd i).
Qed.

Lemma ids_node i k tk cs : ids (Node i k tk cs) = i :: List.concat (map ids cs).
Proof. unfold ids. cbn [nodes map node_id]. by rewrite concat_map, map_map. Qed.

Lemma ids_entry i tk m key v : ids (MapValue i tk m key v) = i :: ids key ++ ids v.
Proof. unfold ids. cbn [nodes map node_id]. by rewrite map_app. Qed.

Lemma walks_in ok o o' ks v : (∀ i, i ∈ o → i ∈ o') → walks ok o ks v → walks ok o' ks v.
Proof. intros Ho. destruct ok; cbn [walks]; [|done]. intros [? Hk]. split; [done|]. intros i. specialize (Hk i). naive_solver. Qed.

Lemma visit_scalar scalars i k tk cs ks key :
  (i ∈ ks ↔ key = true) → k ≠ TagNode → k ≠ AnchorNode → k ≠ AliasNode →
  let n := Node i k tk cs in
  let ok := match k with StringNode _ | IntegerNode | FloatNode | BoolNode | NullNode | InfinityNode | NanNode => negb scalars || key || shown n | _ => true end in
  if ok then Visit scalars n (Visitor ks None) = (Visitor ks None, true) else ∃ e, Visit scalars n (Visitor ks None) = (Visitor ks (Some e), false).
Proof.
  intros Hk H1 H2 H3. cbv zeta. unfold TestArguments.Visit, shown. cbn [vis_err].
  assert (Hi : isKey (Visitor ks None) (Node i k tk cs) = key).
  { unfold isKey. cbn [node_id vis_keys]. apply eq_bool_prop_intro. by rewrite !Is_true_true, mem_true. }
  rewrite Hi. clear Hi Hk. destruct k; try done; destruct scalars, key; try done; cbn [negb andb orb];
    destruct (plainScalar _) as [what look]; destruct (String.eqb what ""), look; cbn [negb andb orb]; try done; by eexists.
Qed.

Lemma walk_tree scalars n : walked scalars n.
Proof.
  induction n as [i k tk cs IH|i tk m k v IHk IHv] using node_nested_ind; intros ks key Hnd Hks.
  - rewrite ids_node in *. apply NoDup_cons in Hnd as [Hi Hnd]. cbn [node_id] in Hks.
    assert (Hik : i ∈ ks ↔ key = true). { rewrite (Hks i) by by left. tauto. }
    cbn [Walk plain_tree].
    destruct (decide (k = TagNode)) as [->|H1]; [by eexists|]. destruct (decide (k = AnchorNode)) as [->|H2]; [by eexists|].
    destruct (decide (k = AliasNode)) as [->|H3]; [by eexists|].
    pose proof (visit_scalar scalars i k tk cs ks key Hik H1 H2 H3) as Hv. cbv zeta in Hv.
    assert (Hrest : walks (forallb (plain_tree scalars false) cs) (i :: List.concat (map ids cs)) ks
      (fold_left (λ s c, Walk (Visit scalars) c s) cs (Visitor ks None))).
    { eapply walks_in; [|apply walk_list; [done|done|] ]; [by intros j Hj; right|].
      intros j Hj Hjk. apply Hks in Hjk as [-> _]; [done|by right]. }
    destruct k; try done; cbn [andb]; try (by rewrite Hv); (destruct (negb scalars || key || shown _); cbn [andb];
      [by rewrite Hv|destruct Hv as [e ->]; by eexists]).
  - rewrite ids_entry in *. apply NoDup_cons in Hnd as [Hi Hnd]. apply NoDup_app in Hnd as (Hn1 & Hd & Hn2). cbn [node_id] in Hks.
    assert (Hkid : node_id k ∈ ids k) by (destruct k; by left).
    assert (Hfresh : ∀ j, j ∈ ids k ++ ids v → j ∉ ks).
    { intros j Hj Hjk. apply Hks in Hjk as [-> _]; [done|by right]. }
    cbn [Walk plain_tree]. unfold TestArguments.Visit at 1. cbn [vis_err]. destruct m; [by eexists|]. destruct (is_string k); [|by eexists].
    cbn [negb andb vis_keys].
    assert (Hall : walks (plain_tree scalars true k && plain_tree scalars false v) (ids k ++ ids v) (node_id k :: ks)
      (Walk (Visit scalars) v (Walk (Visit scalars) k (Visitor (node_id k :: ks) None)))).
    { apply (walks_then _ _ _ _ _ _ (λ s, Walk (Visit scalars) v s)).
      - intros e s. apply walk_stopped.
      - apply IHk; [done|]. intros j Hj. rewrite elem_of_cons. split; [intros [->|Hjk]; [done|]|by intros [-> _]; left].
        destruct (Hfresh j); [|done]. apply elem_of_app. by left.
      - intros ks' Hk'. apply IHv; [done|]. intros j Hj. split; [|by intros [_ ?]]. intros Hjk.
        destruct (Hk' j) as [_ [Ho|Ho]]; [done| |by destruct (Hd j)].
        apply elem_of_cons in Ho as [->|Ho]; [by destruct (Hd (node_id k))|].
        destruct (Hfresh j); [|done]. apply elem_of_app. by right. }
    destruct (plain_tree scalars true k && plain_tree scalars false v); cbn [walks] in *; [|done].
    destruct Hall as [He Hall]. split; [done|]. intros j. specialize (Hall j). rewrite !elem_of_cons, elem_of_app in *. 
    split; [naive_solver|]. intros Hj. apply Hall in Hj as [[->|?]|[?|?]]; auto.
Qed.

Lemma plainYAML_spec scalars n : NoDup (ids n) → plainYAML node_value float_json n scalars = None ↔ plain_tree scalars false n = true.
Proof.
  intros Hnd. unfold plainYAML. pose proof (walk_tree scalars n [] false Hnd) as Hw.
  assert (H0 : ∀ i, i ∈ ids n → i ∈ @nil N ↔ i = node_id n ∧ false = true).
  { intros i _. split; [intros Hi; by apply not_elem_of_nil in Hi|by intros [_ ?]]. }
  specialize (Hw H0). destruct (plain_tree scalars false n); cbn [walks] in Hw.
  - by destruct Hw as [-> _].
  - destruct Hw as [e ->]. done.
Qed.
End Plain.

(** ** The arguments as they are written *)

(** The entry of a mapping once decoded. *)
Definition entry_value (node_value : node → option yval) (c : node) : option (string * yval) :=
  match c with MapValue _ _ _ key v => pair (key_text key) <$> node_value v | Node _ _ _ _ => None end.

Definition plain_entry (c : node) : bool := match c with MapValue _ _ merge key _ => negb merge && is_string key | Node _ _ _ _ => false end.

(** What the code relies on of the decoder: the values of the nodes it lets
    through.  Which number a number decodes to is not assumed. *)
Record YamlLaws (node_value : node → option yval) (node_map : node → option (option (list (string * yval)))) : Prop := {
  law_string i s tk cs v : node_value (Node i (StringNode s) tk cs) = Some v → v = YStr s;
  law_literal i s tk cs v : node_value (Node i (LiteralNode s) tk cs) = Some v → v = YStr s;
  law_number i k tk cs v : k = IntegerNode ∨ k = FloatNode → node_value (Node i k tk cs) = Some v → (∃ z, v = YInt z) ∨ (∃ f, v = YFloat f);
  law_bool i tk cs v : tk_Value tk = "true" ∨ tk_Value tk = "false" →
    node_value (Node i BoolNode (Some tk) cs) = Some v → v = YBool (String.eqb (tk_Value tk) "true");
  law_null i tk cs v : node_value (Node i NullNode tk cs) = Some v → v = YNil;
  law_sequence i tk cs v : node_value (Node i SequenceNode tk cs) = Some v → ∃ vs, mapM node_value cs = Some vs ∧ v = YList vs;
  law_mapping i tk cs v : forallb plain_entry cs = true → node_value (Node i MappingNode tk cs) = Some v →
    ∃ es, mapM (entry_value node_value) cs = Some es ∧ NoDup es.*1 ∧ v = YMap es;
  law_entry i tk key w v : is_string key = true → node_value (MapValue i tk false key w) = Some v →
    ∃ x, node_value w = Some x ∧ v = YMap [(key_text key, x)];
  law_into_map n m : is_mapping n = true → node_map n = Some m → node_value n = Some (YMap (default [] m));
}.

Section Written.
Context (node_value : node → option yval) (node_map : node → option (option (list (string * yval)))) (float_json : spec_float → string).
Context (laws : YamlLaws node_value node_map).
Notation json_of := (json_of float_json).
Notation plain_tree := (plain_tree node_value float_json true).

Definition good (v : yval) (a : any) : Prop := json_of v = Some a ∧ jsonValue v = None ∧ numbers_ok a = true.

Definition value_good (n : node) : Prop := ∀ v, shaped n = true → plain_tree false n = true → node_value n = Some v → good v (written n).

Lemma obj_set_elem l k x kv : kv ∈ obj_set l k x → kv ∈ l ∨ kv = (k, x).
Proof.
  induction l as [|[k' x'] l IH]; cbn [obj_set]; [by intros ->%list_elem_of_singleton; right|].
  destruct (String.eqb k k'); [|destruct (String.leb k k')]; rewrite ?elem_of_cons; naive_solver.
Qed.

Lemma set_all_elem l acc kv : kv ∈ set_all acc l → kv ∈ acc ∨ kv ∈ l.
Proof.
  revert acc. induction l as [|[k x] l IH]; intros acc; cbn [set_all foldl]; [by left|]. intros [Ha| Hl]%IH; [|right; by right].
  apply obj_set_elem in Ha as [?| ->]; [by left|right; by left].
Qed.

Lemma good_list vs l : Forall2 good vs l → good (YList vs) (AArr l).
Proof.
  intros Hf. split_and!.
  - cbn [TestArguments.json_of]. replace (mapM json_of vs) with (Some l); [done|]. symmetry. apply mapM_Some. eapply Forall2_impl; [exact Hf|]. by intros v a [? _].
  - cbn [jsonValue]. apply first_error_None. intros v (i & Hi)%list_elem_of_lookup. eapply Forall2_lookup_l in Hf as (a & _ & _ & ? & _); done.
  - cbn [numbers_ok]. apply forallb_elem. intros a (i & Hi)%list_elem_of_lookup. eapply Forall2_lookup_r in Hf as (v & _ & _ & _ & ?); done.
Qed.

Lemma good_map es l : Forall2 (λ e kv, fst e = fst kv ∧ good (snd e) (snd kv)) es l → good (YMap es) (AObj (set_all [] l)).
Proof.
  intros Hf. split_and!.
  - cbn [TestArguments.json_of]. replace (mapM _ es) with (Some l); [done|]. symmetry. apply mapM_Some. eapply Forall2_impl; [exact Hf|].
    intros [k v] [k' a]. cbn. by intros [-> [-> _]].
  - cbn [jsonValue]. apply first_error_None. intros e (i & Hi)%list_elem_of_lookup. eapply Forall2_lookup_l in Hf as (a & _ & _ & _ & ? & _); done.
  - cbn [numbers_ok]. apply forallb_elem. intros kv [Hn|(i & Hi)%list_elem_of_lookup]%set_all_elem; [by apply not_elem_of_nil in Hn|].
    eapply Forall2_lookup_r in Hf as (v & _ & _ & _ & _ & ?); done.
Qed.

(** A number whose JSON is its text. *)
Lemma number_good i k tk cs v : k = IntegerNode ∨ k = FloatNode → num_lit (tk_Value tk) = true →
  encodesAs node_value float_json (Node i k (Some tk) cs) (tk_Value tk) = true →
  node_value (Node i k (Some tk) cs) = Some v → good v (ANum (tk_Value tk)).
Proof.
  intros Hk Hlit He Hv. unfold encodesAs, json_Marshal in He. rewrite Hv in He. cbn in He.
  apply (law_number _ _ laws) in Hv as [[z ->]|[f ->]]; [|..|done].
  - cbn in He. apply String.eqb_eq in He. by rewrite <- He in *.
  - destruct f as [s|s| |s m e]; cbn in He; try done; apply String.eqb_eq in He; rewrite <- He in *; done.
Qed.

Lemma scalar_good i k tk cs : k ≠ MappingNode → k ≠ SequenceNode → value_good (Node i k tk cs).
Proof.
  intros H1 H2 v Hs Hp Hv. cbn [TestArguments.plain_tree negb orb] in Hp. cbn [shaped] in Hs.
  apply andb_prop in Hs as [Hs _]. apply andb_prop in Hp as [Hp _]. unfold shown in Hp.
  destruct k; try done.
  - apply (law_string _ _ laws) in Hv as ->. done.
  - apply (law_literal _ _ laws) in Hv as ->. done.
  - destruct tk as [tk|]; [|done]. cbn [plainScalar GetToken] in Hp. destruct (negb _ || negb (MatchString decimalInt (tk_Value tk)) || negb _) eqn:E; [done|]. breflect.
    eapply number_good in Hv; [exact Hv|by left|by apply decimalInt_lit|done].
  - destruct tk as [tk|]; [|done]. cbn [plainScalar GetToken] in Hp. destruct (negb (MatchString decimalFloat (tk_Value tk)) || negb _) eqn:E; [done|]. breflect.
    eapply number_good in Hv; [exact Hv|by right|by apply decimalFloat_lit|done].
  - destruct tk as [tk|]; [|done]. cbn [plainScalar GetToken] in Hp.
    assert (Ht : tk_Value tk = "true" ∨ tk_Value tk = "false").
    { destruct (String.eqb_spec (tk_Value tk) "true"), (String.eqb_spec (tk_Value tk) "false"); auto; done. }
    apply (law_bool _ _ laws) in Hv as ->; done.
  - apply (law_null _ _ laws) in Hv as ->. done.
  - by destruct tk.
  - by destruct tk.
Qed.

Lemma plain_entries cs : forallb is_entry cs = true → forallb (plain_tree false) cs = true → forallb plain_entry cs = true.
Proof.
  intros He Hp. apply forallb_elem. intros c Hc. rewrite forallb_elem in He, Hp. specialize (He c Hc). specialize (Hp c Hc).
  destruct c as [|i tk m key v]; [done|]. cbn in Hp |- *. by breflect; destruct m, (is_string key).
Qed.

Lemma tree_good n : value_good n ∧ match n with MapValue _ _ _ _ w => value_good w | _ => True end.
Proof.
  induction n as [i k tk cs IH|i tk m key w _ IHw] using node_nested_ind.
  - split; [|done]. destruct (decide (k = MappingNode)) as [->|H1]; [|destruct (decide (k = SequenceNode)) as [->|H2]; [|by apply scalar_good] ].
    + intros v Hs Hp Hv. cbn [shaped] in Hs. apply andb_prop in Hs as [He Hs]. cbn [TestArguments.plain_tree andb] in Hp.
      apply (law_mapping _ _ laws) in Hv as (es & Hes & _ & ->); [|by apply plain_entries]. cbn [written].
      apply good_map, Forall2_same_length_lookup_2; [rewrite length_fmap; symmetry; by eapply Forall2_length, mapM_Some|].
      intros j e kv Hj (c & -> & Hc)%list_lookup_fmap_Some. apply mapM_Some in Hes. eapply Forall2_lookup_lr in Hes; [|exact Hc|exact Hj].
      apply list_elem_of_lookup_2 in Hc. rewrite forallb_elem in He, Hs, Hp. specialize (He c Hc). specialize (Hs c Hc). specialize (Hp c Hc).
      rewrite Forall_forall in IH. destruct (IH c Hc) as [_ IHc]. destruct c as [|ci ctk cm ckey cw]; [done|]. cbn in Hes, Hs, Hp |- *. breflect.
      destruct (node_value cw) as [x|] eqn:Ex; [|done]. cbn in Hes. simplify_eq. split; [done|]. by apply IHc.
    + intros v Hs Hp Hv. cbn [shaped andb] in Hs. cbn [TestArguments.plain_tree andb] in Hp.
      apply (law_sequence _ _ laws) in Hv as (vs & Hvs & ->). cbn [written].
      apply good_list, Forall2_same_length_lookup_2; [rewrite length_fmap; symmetry; by eapply Forall2_length, mapM_Some|].
      intros j x a Hj (c & -> & Hc)%list_lookup_fmap_Some. apply mapM_Some in Hvs. eapply Forall2_lookup_lr in Hvs; [|exact Hc|exact Hj].
      apply list_elem_of_lookup_2 in Hc. rewrite forallb_elem in Hs, Hp. rewrite Forall_forall in IH. by apply IH; auto.
  - split; [|apply IHw]. intros v Hs Hp Hv. cbn [shaped] in Hs. cbn [TestArguments.plain_tree] in Hp. breflect. destruct m; [done|].
    apply (law_entry _ _ laws) in Hv as (x & Hx & ->); [|done]. cbn [written].
    apply (good_map [(key_text key, x)] [(key_text key, written w)]). constructor; [|constructor]. split; [done|]. by apply IHw.
Qed.
End Written.

(** C24: The arguments of a test case are the JSON that its YAML shows.  For
    every node the parser gives, whatever the decoder makes of a number: the
    case is accepted exactly when the node is a mapping without merge keys,
    tags, anchors and aliases, with string keys and with scalars that are shown
    as they are, and the decoder accepts it; and then the bytes the gate gets
    are the mapping with its keys sorted, every string and key with its value
    and every number, true, false and null as spelled, so that decoding them
    gives exactly that tree. *)
Theorem arguments_as_written node_value node_map float_json n :
  YamlLaws node_value node_map → NoDup (ids n) → shaped n = true →
  let accepted := is_mapping n = true ∧ plain_tree node_value float_json true false n = true ∧ is_Some (node_map n) in
  match Arguments_UnmarshalYAML node_value node_map float_json n with
  | Ok b =>
      accepted ∧ b = marshal (written n) ∧
      ((depth (coerced (written n)) <= maxNestingDepth)%nat → json_decode any_number b = Some (normal (coerced (written n))))
  | Err _ => ¬ accepted
  end.
Proof.
  intros laws Hnd Hs. cbv zeta. unfold Arguments_UnmarshalYAML. destruct (is_mapping n) eqn:Em; cbn [negb]; [|by intros [? _]].
  pose proof (plainYAML_spec node_value float_json true n Hnd) as Hp. destruct (plainYAML _ _ n true) as [e|].
  { intros (_ & H & _). by apply Hp in H. }
  destruct Hp as [Hp _]. specialize (Hp eq_refl). destruct (node_map n) as [m|] eqn:Emap; [|by intros (_ & _ & [? ?])].
  apply (law_into_map _ _ laws) in Emap; [|done]. destruct (tree_good _ _ float_json laws n) as [Hg _].
  destruct (Hg _ Hs Hp Emap) as (Hj & Hv & Hn). rewrite Hv. unfold json_Marshal. rewrite Hj. cbn [fmap option_fmap option_map].
  split_and!; [done|done|by eexists|done|]. intros Hd. by apply decode_marshal.
Qed.

(** ** Examples *)

(** A decoder of small cases. *)
Fixpoint toy_value (n : node) : option yval :=
  match n with
  | Node _ k tk cs =>
      let text := from_option tk_Value "" tk in
      match k with
      | StringNode s | LiteralNode s => Some (YStr s)
      | IntegerNode => Some (YInt (default 0 (digits_value 0 text)))
      | FloatNode => Some (YFloat (S754_finite false 3 (-1)))
      | BoolNode => Some (YBool (String.eqb text "true"))
      | NullNode => Some YNil
      | SequenceNode => YList <$> mapM toy_value cs
      | MappingNode =>
          match mapM (λ c, match c with MapValue _ _ _ key v => pair (key_text key) <$> toy_value v | Node _ _ _ _ => None end) cs with
          | Some es => if bool_decide (NoDup es.*1) then Some (YMap es) else None
          | None => None
          end
      | _ => None
      end
  | MapValue _ _ _ key v => (λ x, YMap [(key_text key, x)]) <$> toy_value v
  end.

Definition toy_map (n : node) : option (option (list (string * yval))) :=
  match toy_value n with Some (YMap es) => Some (Some es) | _ => None end.

Definition toy_json (_ : spec_float) : string := "1.5".

Lemma toy_laws : YamlLaws toy_value toy_map.
Proof.
  split; cbn [toy_value].
  - by intros i s tk cs v [= <-].
  - by intros i s tk cs v [= <-].
  - intros i k tk cs v [-> | ->]; cbn [toy_value]; intros [= <-]; eauto.
  - by intros i tk cs v _ [= <-].
  - by intros i tk cs v [= <-].
  - intros i tk cs v. destruct (mapM toy_value cs) as [vs|]; [|done]. intros [= <-]. by exists vs.
  - intros i tk cs v _. change (mapM _ cs) with (mapM (entry_value toy_value) cs). destruct (mapM (entry_value toy_value) cs) as [es|]; [|done].
    case_bool_decide; [|done]. intros [= <-]. by exists es.
  - intros i tk key w v _. destruct (toy_value w) as [x|]; [|done]. intros [= <-]. by exists x.
  - intros n m _. unfold toy_map. destruct (toy_value n) as [ [ | | | | | | es| ]|]; try done. by intros [= <-].
Qed.

Definition toy_scalar (i : N) (k : kind) (type : token_type) (text : string) : node := Node i k (Some (Tok type text (Some 4))) [].
Definition toy_entry (i : N) (key : string) (v : node) : node := MapValue i None false (toy_scalar (i + 1)%N (StringNode key) OtherType key) v.

(** [{vlan: 7, host: lab-sw-01, up: true, rate: 1.5, cmds: [show version], 1e3: null}] *)
Definition toy_arguments (vlan : string) (host : node) : node :=
  Node 1 MappingNode None
    [toy_entry 10 "vlan" (toy_scalar 12 IntegerNode IntegerType vlan); toy_entry 20 "host" host;
     toy_entry 30 "up" (toy_scalar 32 BoolNode OtherType "true"); toy_entry 40 "rate" (toy_scalar 42 FloatNode OtherType "1.5");
     toy_entry 50 "cmds" (Node 52 SequenceNode None [toy_scalar 53 (StringNode "show version") OtherType "show version"]);
     toy_entry 60 "1e3" (toy_scalar 62 NullNode OtherType "null")].

Definition toy_host : node := toy_scalar 22 (StringNode "lab-sw-01") OtherType "lab-sw-01".

Definition toy_unmarshal : node → result string string := Arguments_UnmarshalYAML toy_value toy_map toy_json.

Definition bare (text : string) : node := toy_scalar 22 (StringNode text) OtherType text.

Example ex_lookalike :
  map (λ t, snd (plainScalar toy_value toy_json (bare t)))
    ["1e3"; "2026-09-25"; "12:30"; "65000:100"; "00:11:22:33:44:55"; "lab-sw-01"; "2001:db8::1"; "v1"; ".5"; "2026-09-25x"]
  = [true; true; true; true; true; false; false; false; true; false].
Proof. vm_compute. reflexivity. Qed.

Example ex_refused :
  toy_unmarshal (toy_arguments "017" toy_host) =
    Err "arguments: the unquoted value at line 4 would reach the gate as a different number, not as written; quote it, or give the exact bytes in arguments_json" ∧
  toy_unmarshal (toy_arguments "7" (bare "12:30")) = Err "arguments: the unquoted value at line 4 looks like a number, date or time; quote it" ∧
  toy_unmarshal (toy_arguments "7" (toy_scalar 22 (StringNode "12:30") DoubleQuoteType "12:30")) ≠
    Err "arguments: the unquoted value at line 4 looks like a number, date or time; quote it" ∧
  toy_unmarshal (toy_arguments "7" (Node 22 AnchorNode None [toy_host])) = Err "arguments: an anchor or alias is not allowed; write the value out" ∧
  toy_unmarshal (toy_arguments "7" (MapValue 22 None true toy_host toy_host)) = Err "arguments: a merge key (<<) is not allowed; write the keys out" ∧
  toy_unmarshal toy_host = Err "arguments must be a mapping; use {} for a call with none, or arguments_json for other bytes".
Proof. vm_compute. done. Qed.

(** ** Anchors *)

Definition is_anchor (n : node) : bool := match n with Node _ (AnchorNode | AliasNode) _ _ => true | _ => false end.

Lemma anchor_walk n : (∀ m, m ∈ nodes n → is_anchor m = true → line_or 1 m ≠ 0) →
  Walk anchor_visit n 0 = 0 ↔ ∀ m, m ∈ nodes n → is_anchor m = false.
Proof.
  assert (Hstop : ∀ n line, line ≠ 0 → Walk anchor_visit n line = line).
  { intros m line Hl. apply Z.eqb_neq in Hl. destruct m; cbn [Walk]; unfold anchor_visit; by rewrite Hl. }
  assert (Hstops : ∀ l line, line ≠ 0 → fold_left (λ s c, Walk anchor_visit c s) l line = line).
  { intros l line Hl. induction l as [|c l IH]; [done|]. cbn [fold_left]. by rewrite Hstop. }
  induction n as [i k tk cs IH|i tk mg k v IHk IHv] using node_nested_ind; intros Hlines.
  - destruct (is_anchor (Node i k tk cs)) eqn:Ea.
    + assert (Hw : Walk anchor_visit (Node i k tk cs) 0 = line_or 1 (Node i k tk cs)) by (cbn in Ea |- *; destruct k; done).
      rewrite Hw. split; [intros Hl; by destruct (Hlines (Node i k tk cs) ltac:(by left) Ea)|].
      intros Hall. by rewrite Hall in Ea by by left.
    + assert (Hw : Walk anchor_visit (Node i k tk cs) 0 = fold_left (λ s c, Walk anchor_visit c s) cs 0) by (cbn in Ea |- *; destruct k; done).
      rewrite Hw. assert (Hcs : ∀ c m, c ∈ cs → m ∈ nodes c → m ∈ nodes (Node i k tk cs)).
      { intros c m Hc Hm. cbn [nodes]. right. apply list_elem_of_In, in_concat. exists (nodes c). split; apply list_elem_of_In; [|done].
        by apply list_elem_of_fmap_2. }
      trans (∀ c, c ∈ cs → ∀ m, m ∈ nodes c → is_anchor m = false).
      * clear Hw. assert (Hl : ∀ c, c ∈ cs → ∀ m, m ∈ nodes c → is_anchor m = true → line_or 1 m ≠ 0) by eauto. clear Hlines Hcs Ea.
        induction IH as [|c l Hc IHl IH]; cbn [fold_left]; [split; [intros _ c Hc; by apply not_elem_of_nil in Hc|done]|].
        specialize (Hc (Hl c ltac:(by left))). rewrite Forall_forall in IHl. destruct (decide (Walk anchor_visit c 0 = 0)) as [E|E].
        -- rewrite E, IH by (intros; eapply Hl; [by right|done..]). pose proof (proj1 Hc E) as Hn. split; [|intros Hall d Hd; apply Hall; by right].
           intros Hall d [->|Hd]%elem_of_cons; [exact Hn|by apply Hall].
        -- rewrite Hstops by done. split; [done|]. intros Hall. destruct E. apply Hc. apply Hall. by left.
      * split; [|eauto]. intros Hall m. cbn [nodes]. intros [->|Hm]%elem_of_cons; [done|].
        apply list_elem_of_In, in_concat in Hm as (l & Hl & Hm). apply list_elem_of_In, list_elem_of_fmap in Hl as (c & -> & Hc).
        apply (Hall c); [done|]. by apply list_elem_of_In.
  - change (Walk anchor_visit (MapValue i tk mg k v) 0) with (Walk anchor_visit v (Walk anchor_visit k 0)). cbn [nodes] in *.
    assert (Hk := IHk ltac:(intros m Hm; apply Hlines; right; apply elem_of_app; by left)).
    assert (Hv := IHv ltac:(intros m Hm; apply Hlines; right; apply elem_of_app; by right)).
    trans ((∀ m, m ∈ nodes k → is_anchor m = false) ∧ (∀ m, m ∈ nodes v → is_anchor m = false)).
    + destruct (decide (Walk anchor_visit k 0 = 0)) as [E|E]; [rewrite E; tauto|]. rewrite Hstop by done. tauto.
    + split; [intros [H1 H2] m [->|[Hm|Hm]%elem_of_app]%elem_of_cons; auto|]. intros Hall. split; intros m Hm; apply Hall; right; apply elem_of_app; auto.
Qed.

(** A file passes exactly when it has neither, from the lines on which its
    tokens are. *)
Lemma noAnchors_spec docs : (∀ d m, d ∈ docs → m ∈ nodes d → is_anchor m = true → line_or 1 m ≠ 0) →
  noAnchors docs 0 = None ↔ ∀ d m, d ∈ docs → m ∈ nodes d → is_anchor m = false.
Proof.
  intros Hl. induction docs as [|d docs IH]; cbn [noAnchors]; [split; [intros _ d m Hd; by apply not_elem_of_nil in Hd|done]|].
  pose proof (anchor_walk d ltac:(intros m; apply Hl; by left)) as Hd. destruct (Z.eqb_spec (Walk anchor_visit d 0) 0) as [E|E].
  - rewrite E, IH by (intros; eapply Hl; [by right|done..]). pose proof (proj1 Hd E) as Hn. split; [|intros Hall d' m Hd'; apply Hall; by right].
    intros Hall d' m [->|Hd']%elem_of_cons; [apply Hn|by apply Hall].
  - split; [done|]. intros Hall. destruct E. apply Hd. intros m. apply Hall. by left.
Qed.

Lemma arguments_as_written_witness :
  YamlLaws toy_value toy_map ∧ NoDup (ids (toy_arguments "7" toy_host)) ∧ shaped (toy_arguments "7" toy_host) = true ∧
  toy_unmarshal (toy_arguments "7" toy_host) = Ok (marshal (written (toy_arguments "7" toy_host))).
Proof.
  assert (Hnd : NoDup (ids (toy_arguments "7" toy_host))) by (apply (bool_decide_unpack _); vm_compute; exact I).
  split; [exact toy_laws|]. split; [exact Hnd|]. split; [reflexivity|].
  pose proof (arguments_as_written toy_value toy_map toy_json _ toy_laws Hnd eq_refl) as Hw. cbv zeta in Hw.
  fold toy_unmarshal in Hw. destruct (toy_unmarshal (toy_arguments "7" toy_host)) as [b|e] eqn:E; [by destruct Hw as (_ & -> & _)|vm_compute in E; discriminate].
Defined.
