(* ===== verification/Names.v ===== *)
(** * Server and tool names: internal/proxy/name.go

    The agent calls an upstream tool by "<server>.<tool>".  The names are
    checked rune by rune, as the Go loops do. *)

From S2P Require Import Prelude GoStd.

Open Scope string_scope.
Open Scope Z_scope.
Open Scope list_scope.

Definition separator : string := ".".
Definition maxToolName : Z := 128.

(** proxy.Name. *)
Definition Name : string := "fathomgate".

Definition isNameRune (r : Z) : bool :=
  in_range 97 122 r || in_range 65 90 r || in_range 48 57 r || (r =? 95) || (r =? 45) || (r =? 46).

(** [reservedServerName]: lower-cased, without '-' and '_', without trailing
    digits. *)
Definition fold_name_rune (r : Z) : option Z :=
  if (r =? 45) || (r =? 95) then None else if in_range 65 90 r then Some (r + 32) else Some r.

Definition reservedServerName (s : string) : bool :=
  String.eqb (trim_right (cutset "0123456789") (map_runes fold_name_rune s)) Name.

Inductive name_error :=
  | NameEmpty | NameChar (s : string) | NameReserved (s : string) | NameTooLong (s : string) (n : Z).

(** [ValidateServerName]: [None] is nil. *)
Definition ValidateServerName (s : string) : option name_error :=
  if String.eqb s "" then Some NameEmpty
  else if existsb (λ p, negb (isNameRune (fst p)) || (fst p =? 46)) (runes s) then Some (NameChar s)
  else if reservedServerName s then Some (NameReserved s)
  else None.

Definition validUpstreamToolName (server tool : string) : option name_error :=
  if String.eqb tool "" then Some NameEmpty
  else if existsb (λ p, negb (isNameRune (fst p))) (runes tool) then Some (NameChar tool)
  else let n := slen server + slen separator + slen tool in
    if n >? maxToolName then Some (NameTooLong tool n) else None.

Definition prefixName (server tool : string) : string := (server ++ separator ++ tool)%string.

Definition splitName (name : string) : option (string * string) :=
  match cut_b "." name with
  | Some (server, tool) => if String.eqb server "" || String.eqb tool "" then None else Some (server, tool)
  | None => None
  end.

(** How a principal is named in a log line; the local agent has none
    (input.go). *)
Definition localPrincipal : string := "(local)".
Definition logPrincipal (principal : string) : string :=
  if String.eqb principal "" then localPrincipal else principal.

(** ** Lemmas *)

(** A byte of a name. *)
Definition nameByte (c : ascii) : bool := isNameRune (bz c).

Lemma isNameRune_ascii r : isNameRune r = true → 0 <= r < 128.
Proof. unfold isNameRune, in_range. intros Hr. lia. Qed.

Lemma decode_rune_multibyte c s r n : decode_rune (String c s) = (r, n) → 128 <= bz c → 128 <= r.
Proof.
  intros Hd Hc. destruct (bad_rune (r, s_take n (String c s))) eqn:Hb.
  - unfold bad_rune in Hb. cbn [fst snd] in Hb. apply andb_prop in Hb as [Hb _]. unfold RuneError in Hb. lia.
  - pose proof (bz_range c). unfold decode_rune in Hd. repeat case_match; simplify_eq; unfold RuneError;
      repeat match goal with H : cont_byte _ _ _ _ = Some _ |- _ => apply cont_byte_Some in H as (? & ? & ?) end;
      unfold in_range in *; try lia.
Qed.

(** The rune test of a name is a byte test: a rune outside ASCII is never a
    name rune. *)
Lemma existsb_runes_bytes (q : Z → bool) s :
  (∀ r, 128 <= r → q r = false) →
  existsb (λ p, negb (q (fst p))) (runes s) = negb (s_all (λ c, q (bz c)) s).
Proof.
  intros Hq. induction s as [|c s IH]; [done|].
  destruct (decide (bz c < 128)) as [Hc|Hc].
  - rewrite runes_cons_ascii by done. cbn [existsb fst s_all]. rewrite IH. by destruct (q (bz c)).
  - rewrite runes_cons. destruct (decode_rune (String c s)) as [r n] eqn:E. cbn [existsb fst s_all].
    rewrite !Hq; [done|lia|]. eapply decode_rune_multibyte; [done|lia].
Qed.

Lemma nameByte_high r : 128 <= r → isNameRune r = false.
Proof. intros Hr. destruct (isNameRune r) eqn:E; [|done]. apply isNameRune_ascii in E. lia. Qed.

Lemma existsb_ext' {A} (f g : A → bool) l : (∀ x, f x = g x) → existsb f l = existsb g l.
Proof. intros Hfg. induction l as [|x l IH]; cbn; [done|]. by rewrite Hfg, IH. Qed.

(** The characters of a server name: a name byte other than the separator. *)
Definition serverByte (c : ascii) : bool := nameByte c && negb (Ascii.eqb "." c).

Lemma server_runes s :
  existsb (λ p, negb (isNameRune (fst p)) || (fst p =? 46)) (runes s) = negb (s_all serverByte s).
Proof.
  assert (s_all serverByte s = s_all (λ c, isNameRune (bz c) && negb (bz c =? 46)) s) as ->.
  { induction s as [|c s IH]; [done|]. cbn [s_all]. rewrite IH. unfold serverByte, nameByte. f_equal. f_equal. f_equal.
    destruct (Ascii.eqb_spec "." c) as [<-|Hc]; [done|]. symmetry. apply Z.eqb_neq.
    intros Heq. apply Hc. by apply bz_inj. }
  rewrite <- (existsb_runes_bytes (λ r, isNameRune r && negb (r =? 46))) by (intros r Hr; by rewrite nameByte_high).
  apply existsb_ext'. intros p. by destruct (isNameRune (fst p)), (fst p =? 46).
Qed.

Lemma ValidateServerName_spec s :
  ValidateServerName s = None ↔ s ≠ "" ∧ s_all serverByte s = true ∧ reservedServerName s = false.
Proof.
  unfold ValidateServerName. rewrite server_runes.
  destruct (String.eqb_spec s ""), (s_all serverByte s), (reservedServerName s); naive_solver.
Qed.

Lemma validUpstreamToolName_spec server tool :
  validUpstreamToolName server tool = None ↔
  tool ≠ "" ∧ s_all nameByte tool = true ∧ slen (prefixName server tool) <= maxToolName.
Proof.
  unfold validUpstreamToolName. rewrite existsb_runes_bytes by apply nameByte_high.
  fold nameByte. change (λ c, isNameRune (bz c)) with nameByte.
  assert (slen (prefixName server tool) = slen server + slen separator + slen tool) as ->.
  { unfold prefixName, slen. rewrite !length_app_str. lia. }
  destruct (String.eqb_spec tool ""), (s_all nameByte tool); cbn [negb]; [naive_solver..| |naive_solver].
  destruct (_ >? maxToolName) eqn:E; [split; [done|intros (_ & _ & ?); lia]|split; [|done]].
  intros _. repeat split; [done|lia].
Qed.

Lemma cut_b_app server tool :
  s_all serverByte server = true → cut_b "." (server ++ String "." tool) = Some (server, tool).
Proof.
  induction server as [|c s IH]; [done|]. cbn [s_all]. intros [Hc Hs]%andb_prop.
  unfold serverByte in Hc. apply andb_prop in Hc as [_ Hc]. apply negb_true_iff in Hc.
  cbn. rewrite (IH Hs), Ascii.eqb_sym, Hc. done.
Qed.

(** A byte comparison is the comparison of its code. *)
Ltac byte_eqb :=
  match goal with |- (bz ?c =? _) = Ascii.eqb ?c ?d =>
    destruct (Ascii.eqb_spec c d) as [->|Hne]; [done|]; apply Z.eqb_neq; intros ?; by apply Hne, bz_inj end.

(** How a name reads once case, '-' and '_' are put aside. *)
Fixpoint spoken (s : string) : string :=
  match s with
  | EmptyString => EmptyString
  | String c s => if Ascii.eqb c "-" || Ascii.eqb c "_" then spoken s else String (lower_b c) (spoken s)
  end.

Lemma trim_right_app cut s d : s_all cut d = true → trim_right cut (s ++ d) = trim_right cut s.
Proof.
  intros Hd. induction s as [|c s IH]; cbn.
  - induction d as [|c d IH]; [done|]. cbn in Hd |- *. apply andb_prop in Hd as [Hc Hd].
    rewrite IH by done. cbn. by rewrite Hc.
  - by rewrite IH.
Qed.

Lemma trim_right_split cut s : ∃ d, s = (trim_right cut s ++ d)%string ∧ s_all cut d = true.
Proof.
  induction s as [|c s (d & Hs & Hd)]; [by exists EmptyString|]. cbn.
  destruct (trim_right cut s) as [|e r] eqn:E.
  - destruct (cut c) eqn:Hc; [|exists d; by rewrite Hs at 1].
    exists (String c s). split; [done|]. cbn. rewrite Hc. by rewrite Hs.
  - exists d. rewrite Hs at 1. done.
Qed.

Lemma spoken_runes s : s_all serverByte s = true → map_runes fold_name_rune s = spoken s.
Proof.
  unfold map_runes. induction s as [|c s IH]; [done|]. cbn [s_all]. intros [Hc Hs]%andb_prop.
  unfold serverByte, nameByte in Hc. apply andb_prop in Hc as [Hc%isNameRune_ascii _].
  rewrite runes_cons_ascii by lia. cbn [map concat_str foldr fst spoken]. rewrite <- IH by done.
  assert (H45 : (bz c =? 45) = Ascii.eqb c "-") by byte_eqb. assert (H95 : (bz c =? 95) = Ascii.eqb c "_") by byte_eqb.
  unfold fold_name_rune. rewrite H45, H95. destruct (_ || _); [done|].
  unfold lower_b, is_upper_b. destruct (in_range 65 90 (bz c)) eqn:E.
  - unfold in_range in E. by rewrite encode_rune_ascii by lia.
  - rewrite encode_rune_ascii by lia. by rewrite zb_bz.
Qed.

Lemma reservedServerName_spec s :
  s_all serverByte s = true →
  reservedServerName s = true ↔ ∃ d, spoken s = (Name ++ d)%string ∧ s_all is_digit_b d = true.
Proof.
  intros Hs. unfold reservedServerName. rewrite spoken_runes by done.
  assert (Hcut : ∀ d, s_all (cutset "0123456789") d = s_all is_digit_b d).
  { induction d as [|c d IH]; [done|]. cbn [s_all]. rewrite IH. f_equal.
    by destruct c as [[] [] [] [] [] [] [] []]. }
  split.
  - intros Hr%String.eqb_eq. destruct (trim_right_split (cutset "0123456789") (spoken s)) as (d & Hd & Hall).
    rewrite Hr in Hd. exists d. by rewrite <- Hcut.
  - intros (d & -> & Hd). apply String.eqb_eq. rewrite trim_right_app; [done|]. by rewrite Hcut.
Qed.

(** a server name is accepted exactly when it is a non-empty run of ASCII
    letters, digits, '_' and '-' that does not read, case, '-' and '_' aside, as
    "fathomgate" followed by digits; and under accepted names the agent-facing
    name has only name characters, fits the MCP limit and routes back to the
    server and tool it was built from, so no two tools share one. *)
Theorem names_route :
  (∀ s, ValidateServerName s = None ↔
    s ≠ "" ∧ s_all serverByte s = true ∧ ¬ ∃ d, spoken s = (Name ++ d)%string ∧ s_all is_digit_b d = true) ∧
  (∀ server tool, ValidateServerName server = None → validUpstreamToolName server tool = None →
    splitName (prefixName server tool) = Some (server, tool) ∧
    s_all nameByte (prefixName server tool) = true ∧
    slen (prefixName server tool) <= 128).
Proof.
  split.
  - intros s. rewrite ValidateServerName_spec. split.
    + intros (Hs & Hall & Hr). repeat split; [done..|]. rewrite <- reservedServerName_spec by done. by rewrite Hr.
    + intros (Hs & Hall & Hr). repeat split; [done..|]. rewrite <- reservedServerName_spec in Hr by done.
      by destruct (reservedServerName s).
  - intros server tool (Hs & Hall & _)%ValidateServerName_spec (Ht & Htool & Hlen)%validUpstreamToolName_spec.
    split; [|split; [|done]]; unfold splitName, prefixName, separator.
    + change ("." ++ tool)%string with (String "." tool). rewrite cut_b_app by done.
      by destruct (String.eqb_spec server ""), (String.eqb_spec tool "").
    + rewrite !s_all_app, Htool. rewrite (s_all_impl serverByte nameByte server); [done| |done].
      intros c Hc. by apply andb_prop in Hc as [Hc _].
Qed.

Lemma names_route_witness :
  splitName (prefixName "napalm" "show.version") = Some ("napalm", "show.version") ∧
  map ValidateServerName ["napalm"; "Fathom-Gate2"] = [None; Some (NameReserved "Fathom-Gate2")].
Proof. split; [|by vm_compute]. by apply (proj2 names_route "napalm" "show.version"). Defined.
