(* ===== verification/Prompts.v ===== *)
(** * Upstream prompts: internal/proxy/input.go, the checks

    What of an upstream's input request reaches the agent, what of the agent's
    answer reaches the upstream, and the verification of a retry.  Theorems:
    only labelled, escaped forms are passed on; a retry that is accepted is the
    retry of the call its state was sealed for, and only outstanding,
    allow-listed answers go up. *)

From S2P Require Import Prelude GoStd Sanitize Label GoCrypto Json JsonCompact JsonMarshal JsonStruct ReqState Schema Names.

Open Scope string_scope.
Open Scope Z_scope.
Open Scope list_scope.

Definition maxInputRequests : nat := 16.
Definition maxInputRequestID : Z := 128.
Definition maxPromptsPerCall : Z := 10.

(** Agent-supplied names in errors. *)
Definition clip (s : string) : string := if slen s <=? 200 then s else (s_take 200 s ++ "...")%string.

(** ** go-sdk's messages *)

(** *mcp.ElicitParams without its _meta. *)
Record ElicitParams := { ep_Mode : string; ep_Message : string; ep_RequestedSchema : any; ep_URL : string; ep_ElicitationID : string }.

(** *mcp.ElicitResult without its _meta; a nil map is [ANil]. *)
Record ElicitResult := { er_Action : string; er_Content : any }.

(** mcp.InputRequest by its dynamic type; a pointer may be nil. *)
Inductive InputRequest :=
  | InElicit (ep : option ElicitParams) | InCreateMessage | InCreateMessageWithTools | InListRoots | InOther.

(** mcp.InputResponse by its dynamic type. *)
Inductive InputResponse := ReElicit (r : option ElicitResult) | ReOther.

(** ** Refusals *)

Record refusal := { rf_server : string; rf_tool : string; rf_kind : string; rf_reason : string }.

Definition newRefusal (server tool kind reason : string) : refusal :=
  {| rf_server := server; rf_tool := tool; rf_kind := kind; rf_reason := reason |}.

Definition refusal_Error (r : refusal) : string :=
  if String.eqb (rf_tool r) "" then
    ("fathomgate refused an input request (" ++ rf_kind r ++ ") from upstream " ++ rf_server r ++ ": " ++ rf_reason r)%string
  else ("fathomgate refused an input request (" ++ rf_kind r ++ ") from upstream " ++ rf_server r ++ " during " ++ rf_tool r ++ ": " ++
        rf_reason r)%string.

Definition errFormOnly : string := "only form elicitation is passed to the agent".

Definition inputKind (ir : InputRequest) : string :=
  match ir with
  | InCreateMessage | InCreateMessageWithTools => "sampling"
  | InListRoots => "roots"
  | InElicit _ => "elicitation"
  | InOther => "unknown"
  end.

Section Relabel.
Context `{Unicode}.

Definition relabelElicit (server tool : string) (ep : option ElicitParams) : result refusal ElicitParams :=
  match ep with
  | None => Err (newRefusal server tool "elicitation" "empty request")
  | Some ep =>
      if negb (String.eqb (ep_Mode ep) "" || String.eqb (ep_Mode ep) "form") || negb (String.eqb (ep_URL ep) "") ||
         negb (String.eqb (ep_ElicitationID ep) "")
      then Err (newRefusal server tool "URL elicitation" errFormOnly)
      else if hasOriginLabel (ep_Message ep)
      then Err (newRefusal server tool "elicitation"
                  ("the message reads as an origin label (" ++ quoted "[from" ++ "); only fathomgate labels prompts"))
      else match relabelSchema server (ep_RequestedSchema ep) with
      | Err e => Err (newRefusal server tool "elicitation" ("requested schema: " ++ schema_error_text e))
      | Ok schema =>
          Ok {| ep_Mode := "form"; ep_Message := promptLabel server ++ escapeControl (ep_Message ep) maxPromptText;
                ep_RequestedSchema := default ANil schema; ep_URL := ""; ep_ElicitationID := "" |}
      end
  end.

Definition bad_request_id (id : string) : bool := String.eqb id "" || (maxInputRequestID <? slen id) || has_control id.

Definition relabel_request (server tool : string) (kv : string * InputRequest) : result refusal (string * ElicitParams) :=
  let '(id, ir) := kv in
  if bad_request_id id
  then Err (newRefusal server tool "input_required" "an input request id is empty, too long or has control characters")
  else match ir with
  | InElicit ep => match relabelElicit server tool ep with Ok clean => Ok (id, clean) | Err r => Err r end
  | _ => Err (newRefusal server tool (inputKind ir) errFormOnly)
  end.

(** [reqs] is the map in the order Go visits it: which of several refusals is
    given depends on it. *)
Definition relabelInputRequests (server tool : string) (reqs : list (string * InputRequest)) :
    result refusal (gmap string ElicitParams) :=
  if (maxInputRequests <? List.length reqs)%nat
  then Err (newRefusal server tool "input_required" ("more than " ++ itoa (Z.of_nat maxInputRequests) ++ " input requests"))
  else match map_result (relabel_request server tool) reqs with
       | Ok out => Ok (list_to_map out)
       | Err r => Err r
       end.

(** ** The agent's answer *)

Definition cleanElicitResult (r : option ElicitResult) : result string ElicitResult :=
  match r with
  | None => Err "empty elicitation result"
  | Some r =>
      if String.eqb (er_Action r) "accept" then Ok {| er_Action := er_Action r; er_Content := er_Content r |}
      else if String.eqb (er_Action r) "decline" || String.eqb (er_Action r) "cancel"
      then Ok {| er_Action := er_Action r; er_Content := ANil |}
      else Err ("elicitation action " ++ quote (clip (er_Action r)) ++ " is not accept, decline or cancel")%string
  end.

(** ** A retry *)

Definition reasonInvalidRequestState : string := "invalid_request_state".
Definition reasonInvalidInputResponse : string := "invalid_input_responses".
Definition CodeInvalidParams : Z := -32602.

(** jsonrpc.Error. *)
Record rpc_error := { je_Code : Z; je_Message : string; je_Data : string }.

Definition retryErrorData (tool reason detail : string) : any :=
  AObj [("tool", AStr tool); ("reason", AStr reason); ("detail", AStr detail)].

Definition invalidRetry (prefixed reason detail : string) : rpc_error :=
  {| je_Code := CodeInvalidParams;
     je_Message := (reason ++ ": " ++ clip prefixed ++ ": " ++ detail)%string;
     je_Data := marshal (retryErrorData (clip prefixed) reason detail) |}.

Definition errStateOtherTool : string := "requestState was issued for another tool".
Definition errStateOtherArgs : string := "arguments differ from the call that asked for input".

(** The parts of a call that [resume] reads; the responses in the order Go
    visits them. *)
Record retry := {
  rt_server : string; rt_tool : string; rt_arguments : string; rt_binding : stateBinding;
  rt_requestState : string; rt_responses : list (string * InputResponse);
}.

Record resumed := { rs_responses : gmap string ElicitResult; rs_upState : string; rs_round : Z; rs_prompts : Z }.

(** The answers, those to ids that are not outstanding left out. *)
Fixpoint resume_responses (name : string) (ids : list string) (rs : list (string * InputResponse)) :
    result rpc_error (list (string * ElicitResult)) :=
  match rs with
  | [] => Ok []
  | (id, r) :: rs =>
      if negb (mem id ids) then resume_responses name ids rs
      else match r with
      | ReOther => Err (invalidRetry name reasonInvalidInputResponse ("response " ++ quote (clip id) ++ " is not an elicitation result"))
      | ReElicit er =>
          match cleanElicitResult er with
          | Err e => Err (invalidRetry name reasonInvalidInputResponse e)
          | Ok clean => match resume_responses name ids rs with Ok out => Ok ((id, clean) :: out) | Err e => Err e end
          end
      end
  end.

(** The reason [warnState] logs, if it is called, and the result. *)
Definition resume `{AEAD} (now : Z) (c : retry) : option string * result rpc_error resumed :=
  let name := prefixName (rt_server c) (rt_tool c) in
  match open now (rt_requestState c) (rt_binding c) with
  | Err e => (Some (state_error_text e), Err (invalidRetry name reasonInvalidRequestState (state_error_text e)))
  | Ok st =>
      if negb (String.eqb (ss_Server st) (rt_server c)) || negb (String.eqb (ss_Tool st) (rt_tool c)) then
        (Some errStateOtherTool,
         Err (invalidRetry name reasonInvalidRequestState
                ("requestState was issued for " ++ clip (prefixName (ss_Server st) (ss_Tool st)))))
      else if negb (String.eqb (ss_Args st) (argsDigest (rt_arguments c))) then
        (Some errStateOtherArgs, Err (invalidRetry name reasonInvalidRequestState errStateOtherArgs))
      else match resume_responses name (default [] (ss_IDs st)) (rt_responses c) with
      | Err e => (None, Err e)
      | Ok out => (None, Ok {| rs_responses := list_to_map out; rs_upState := ss_Up st; rs_round := ss_Round st; rs_prompts := ss_Prompts st |})
      end
  end.
End Relabel.

(** ** Only labelled forms are passed on *)

Section Safe.
Context `{Unicode}.

(** A prompt as the agent gets it. *)
Definition prompt_ok (server : string) (ep clean : ElicitParams) : Prop :=
  ep_Mode clean = "form" ∧ ep_URL clean = "" ∧ ep_ElicitationID clean = "" ∧
  (hasOriginLabel (ep_Message ep) = false ∧
   ep_Message clean = (promptLabel server ++ escapeControl (ep_Message ep) maxPromptText)%string) ∧
  relabelSchema server (ep_RequestedSchema ep) = Ok (match ep_RequestedSchema clean with ANil => None | x => Some x end).

(** Fathomgate's own words. *)
Definition schema_errors : list schema_error :=
  [errSchemaNotObject; errSchemaRootType; errSchemaTooLarge; errSchemaRebuiltSize; errSchemaProperties; errSchemaTooMany; errSchemaName;
   errSchemaPropObject; errSchemaPropType; errSchemaRequired; errSchemaEnum; errSchemaOneOf; errSchemaItems; errSchemaLabel].

Definition refusal_reasons : list string :=
  ["empty request"; errFormOnly; "an input request id is empty, too long or has control characters";
   ("more than " ++ itoa (Z.of_nat maxInputRequests) ++ " input requests")%string;
   ("the message reads as an origin label (" ++ quoted "[from" ++ "); only fathomgate labels prompts")%string] ++
  map (λ e, "requested schema: " ++ schema_error_text e)%string schema_errors.

Definition refusal_kinds : list string := ["elicitation"; "URL elicitation"; "input_required"; "sampling"; "roots"; "unknown"].

(** A refusal names the upstream, the tool and fixed texts. *)
Definition own_words (server tool : string) (r : refusal) : Prop :=
  rf_server r = server ∧ rf_tool r = tool ∧ rf_kind r ∈ refusal_kinds ∧ rf_reason r ∈ refusal_reasons.

Lemma elem_of_bool (x : string) l : existsb (String.eqb x) l = true → x ∈ l.
Proof. intros (y & Hy & ->%String.eqb_eq)%existsb_exists. by apply list_elem_of_In. Qed.

Lemma own_words_new server tool kind reason :
  existsb (String.eqb kind) refusal_kinds = true → reason ∈ refusal_reasons → own_words server tool (newRefusal server tool kind reason).
Proof. intros Hk Hr. repeat split; [by apply elem_of_bool|done]. Qed.

Lemma schema_reason e : ("requested schema: " ++ schema_error_text e)%string ∈ refusal_reasons.
Proof.
  unfold refusal_reasons. apply elem_of_app. right. apply (list_elem_of_fmap_2 (λ e, "requested schema: " ++ schema_error_text e)%string).
  apply list_elem_of_In. destruct e; cbn; tauto.
Qed.

Lemma relabelElicit_spec server tool ep :
  match relabelElicit server tool ep with
  | Ok clean => ∃ e, ep = Some e ∧ prompt_ok server e clean
  | Err r => own_words server tool r
  end.
Proof.
  unfold relabelElicit. destruct ep as [ep|]; [|apply own_words_new; [done|by apply elem_of_bool] ].
  destruct (_ || _); [apply own_words_new; [done|by apply elem_of_bool]|].
  destruct (hasOriginLabel (ep_Message ep)) eqn:Hl; [apply own_words_new; [done|by apply elem_of_bool]|].
  destruct (relabelSchema server (ep_RequestedSchema ep)) as [schema|e] eqn:Hs; [|apply own_words_new; [done|apply schema_reason] ].
  exists ep. split; [done|]. split; [done|]. split; [done|]. split; [done|]. split; [done|]. cbn [ep_RequestedSchema]. rewrite Hs. f_equal.
  destruct schema as [x|]; [|done]. cbn [default]. destruct x; try done. exfalso.
  unfold relabelSchema in Hs. destruct (ep_RequestedSchema ep); try discriminate Hs.
  all: destruct (maxSchemaInput <? _); [discriminate Hs|].
  all: destruct (json_decode _ _) as [[| | | | | |input]|]; try discriminate Hs.
  all: apply bind_Ok in Hs as (o & _ & Hs); destruct (maxSchemaBytes <? _); discriminate Hs.
Qed.

Lemma relabel_request_spec server tool kv :
  match relabel_request server tool kv with
  | Ok kv' => fst kv' = fst kv ∧ bad_request_id (fst kv) = false ∧ ∃ e, snd kv = InElicit (Some e) ∧ prompt_ok server e (snd kv')
  | Err r => own_words server tool r
  end.
Proof.
  destruct kv as [id ir]. cbn [relabel_request fst snd]. destruct (bad_request_id id) eqn:Hb; [apply own_words_new; [done|by apply elem_of_bool]|].
  destruct ir as [ep| | | |]; try (apply own_words_new; [done|by apply elem_of_bool]).
  pose proof (relabelElicit_spec server tool ep) as Hs. destruct (relabelElicit server tool ep) as [clean|r]; [|done].
  destruct Hs as (e & -> & He). cbn [fst snd]. eauto.
Qed.

Lemma map_result_Err {A B E} (f : A → result E B) l e : map_result f l = Err e → ∃ x, x ∈ l ∧ f x = Err e.
Proof.
  induction l as [|x l IH]; cbn [map_result]; [done|]. destruct (f x) as [y|e'] eqn:Hf.
  - destruct (map_result f l) as [ys|e'']; [done|]. intros [= ->]. destruct (IH eq_refl) as (z & Hz & He). exists z. split; [by right|done].
  - intros [= ->]. exists x. split; [by left|done].
Qed.
Lemma relabelInputRequests_prompt server tool reqs out id clean :
  relabelInputRequests server tool reqs = Ok out → out !! id = Some clean →
  bad_request_id id = false ∧ ∃ ep, (id, InElicit (Some ep)) ∈ reqs ∧ prompt_ok server ep clean.
Proof.
  unfold relabelInputRequests. destruct (_ <? _)%nat; [done|].
  destruct (map_result (relabel_request server tool) reqs) as [l|r] eqn:Hm; [|done]. intros [= <-] Hc.
  apply map_result_Ok in Hm. apply elem_of_list_to_map_2, list_elem_of_lookup in Hc as [i Hi].
  destruct (Forall2_lookup_r _ _ _ _ _ Hm Hi) as ([id' ir] & Hx & Hr).
  pose proof (relabel_request_spec server tool (id', ir)) as Hs. rewrite Hr in Hs. cbn [fst snd] in Hs.
  destruct Hs as (-> & Hb & e & -> & Hp). split; [done|]. exists e. split; [by eapply list_elem_of_lookup_2|done].
Qed.
End Safe.

(** An upstream's input requests reach the agent only as form prompts: at
    most sixteen, each id kept and without control characters, each message
    labelled and escaped, each schema rebuilt, none a URL, sampling or roots
    request; every request is passed on or none is; and a refusal's text is
    made of the server's and tool's names and fathomgate's own words, never of
    anything the upstream sent. *)
Theorem relabelInputRequests_safe `{Unicode} server tool reqs :
  NoDup (map fst reqs) →
  match relabelInputRequests server tool reqs with
  | Ok out =>
      (List.length reqs <= maxInputRequests)%nat ∧
      (∀ id, is_Some (out !! id) ↔ id ∈ map fst reqs) ∧
      (∀ id clean, out !! id = Some clean → bad_request_id id = false ∧ ∃ ep, (id, InElicit (Some ep)) ∈ reqs ∧ prompt_ok server ep clean)
  | Err r => own_words server tool r
  end.
Proof.
  intros Hnd. unfold relabelInputRequests. destruct (Nat.ltb_spec maxInputRequests (List.length reqs)).
  { apply own_words_new; [done|by apply elem_of_bool]. }
  destruct (map_result (relabel_request server tool) reqs) as [out|r] eqn:Hmap.
  2:{ apply map_result_Err in Hmap as (kv & _ & Hr). pose proof (relabel_request_spec server tool kv) as Hs. by rewrite Hr in Hs. }
  apply map_result_Ok in Hmap as Hm.
  assert (Hkeys : map fst out = map fst reqs).
  { clear -Hm. induction Hm as [|kv kv' reqs out Hr Hm IH]; [done|]. cbn. f_equal; [|done].
    pose proof (relabel_request_spec server tool kv) as Hs. rewrite Hr in Hs. apply Hs. }
  assert (Hnd' : NoDup out.*1) by (change (out.*1) with (map fst out); by rewrite Hkeys).
  split; [lia|]. split.
  - intros id. rewrite <- Hkeys. change (map fst out) with (out.*1). split.
    + intros [c Hc]. apply elem_of_list_to_map_2 in Hc. by apply (list_elem_of_fmap_2 fst) in Hc.
    + intros (kv & -> & Hin)%list_elem_of_fmap. destruct kv as [i c]. exists c. by apply elem_of_list_to_map.
  - intros id clean Hc. eapply relabelInputRequests_prompt; [|exact Hc]. unfold relabelInputRequests.
    destruct (Nat.ltb_spec maxInputRequests (List.length reqs)); [lia|]. by rewrite Hmap.
Qed.

Definition sample_requests : list (string * InputRequest) :=
  [("q", InElicit (Some {| ep_Mode := ""; ep_Message := "Which site?"; ep_RequestedSchema := ANil; ep_URL := ""; ep_ElicitationID := "" |}))].

Lemma relabelInputRequests_safe_witness :
  match @relabelInputRequests ascii_tables "nb" "run" sample_requests with Ok out => is_Some (out !! "q") | Err _ => False end.
Proof.
  pose proof (@relabelInputRequests_safe ascii_tables "nb" "run" sample_requests (NoDup_cons_2 _ _ (not_elem_of_nil _) NoDup_nil_2)) as Hs.
  destruct (@relabelInputRequests ascii_tables "nb" "run" sample_requests) as [out|r] eqn:E.
  - exact (proj2 (proj1 (proj2 Hs) "q") (list_elem_of_here _ _)).
  - vm_compute in E. discriminate E.
Defined.

(** ** A retry is the retry of its own call *)

Section Retry.
Context `{Unicode}.

Definition answer_ok (er : ElicitResult) : Prop :=
  er_Action er = "accept" ∨ (er_Action er = "decline" ∨ er_Action er = "cancel") ∧ er_Content er = ANil.

Lemma cleanElicitResult_ok r er : cleanElicitResult r = Ok er → answer_ok er.
Proof.
  destruct r as [r|]; [|done]. cbn [cleanElicitResult]. destruct (String.eqb_spec (er_Action r) "accept"); [intros [= <-]; by left|].
  destruct (String.eqb_spec (er_Action r) "decline"); [intros [= <-]; by right; split; [left|]|].
  destruct (String.eqb_spec (er_Action r) "cancel"); [intros [= <-]; by right; split; [right|]|done].
Qed.

Lemma resume_responses_elem name ids rs out :
  resume_responses name ids rs = Ok out →
  ∀ id er, (id, er) ∈ out ↔ id ∈ ids ∧ ∃ g, (id, ReElicit g) ∈ rs ∧ cleanElicitResult g = Ok er.
Proof.
  revert out. induction rs as [|[i r] rs IH]; intros out; cbn [resume_responses].
  { intros [= <-] id er. split; [by intros ?%not_elem_of_nil|]. by intros (_ & g & ?%not_elem_of_nil & _). }
  destruct (mem i ids) eqn:Hm; cbn [negb].
  - apply mem_true in Hm. destruct r as [g|]; [|done]. destruct (cleanElicitResult g) as [c|] eqn:Hc; [|done].
    destruct (resume_responses name ids rs) as [o|] eqn:Ho; [|done]. intros [= <-] id er. rewrite elem_of_cons, (IH o eq_refl id er). split.
    + intros [[= -> ->]|(Hid & g' & Hg & Hc')]; [split; [done|]; exists g; split; [by left|done]|split; [done|]; exists g'; split; [by right|done] ].
    + intros (Hid & g' & [[= -> ->]|Hg]%elem_of_cons & Hc'); [left; congruence|right; split; [done|by exists g'] ].
  - intros Ho id er. rewrite (IH out Ho id er). apply mem_false in Hm. split; intros (Hid & g & Hg & Hc); (split; [done|]).
    + exists g. split; [by right|done].
    + apply elem_of_cons in Hg as [Hg|Hg]; [injection Hg as -> _; done|by exists g].
Qed.

Lemma resume_responses_keys name ids rs out :
  resume_responses name ids rs = Ok out → NoDup (map fst rs) → NoDup (out.*1).
Proof.
  intros Ho. pose proof (resume_responses_elem _ _ _ _ Ho) as Hin. revert out Ho Hin.
  induction rs as [|[i r] rs IH]; intros out; cbn [resume_responses]; [intros [= <-] _ _; constructor|].
  intros Ho _ Hnd. cbn [map fst] in Hnd. apply NoDup_cons in Hnd as [Hni Hnd]. destruct (mem i ids); cbn [negb] in Ho.
  - destruct r as [g|]; [|done]. destruct (cleanElicitResult g) as [c|]; [|done].
    destruct (resume_responses name ids rs) as [o|] eqn:Ho'; [|done]. injection Ho as <-.
    pose proof (resume_responses_elem _ _ _ _ Ho') as Hin'. cbn [fmap list_fmap fst]. constructor; [|by apply IH].
    intros ([j er] & -> & He)%list_elem_of_fmap. apply Hin' in He as (_ & g' & Hg & _). apply Hni.
    by apply (list_elem_of_fmap_2 fst) in Hg.
  - by apply (IH out Ho (resume_responses_elem _ _ _ _ Ho)).
Qed.

(** The retry [c] resumes the call sealed as [st], and [r] is what it carries
    on. *)
Definition resumes (st : sealedState) (args : string) (c : retry) (r : resumed) : Prop :=
  rt_server c = ss_Server st ∧ rt_tool c = ss_Tool st ∧ tokens (sent_args (rt_arguments c)) = tokens (sent_args args) ∧
  rs_upState r = ss_Up st ∧ rs_round r = ss_Round st ∧ rs_prompts r = ss_Prompts st ∧
  (∀ id er, rs_responses r !! id = Some er ↔
     id ∈ default [] (ss_IDs st) ∧ ∃ g, (id, ReElicit g) ∈ rt_responses c ∧ cleanElicitResult g = Ok er) ∧
  (∀ id er, rs_responses r !! id = Some er → answer_ok er).

Lemma resume_Ok `{AEAD} now c r : NoDup (map fst (rt_responses c)) → snd (resume now c) = Ok r →
  ∃ st, open now (rt_requestState c) (rt_binding c) = Ok st ∧ rt_server c = ss_Server st ∧ rt_tool c = ss_Tool st ∧
    ss_Args st = argsDigest (rt_arguments c) ∧ rs_upState r = ss_Up st ∧ rs_round r = ss_Round st ∧ rs_prompts r = ss_Prompts st ∧
    (∀ id er, rs_responses r !! id = Some er ↔
       id ∈ default [] (ss_IDs st) ∧ ∃ g, (id, ReElicit g) ∈ rt_responses c ∧ cleanElicitResult g = Ok er).
Proof.
  intros Hnd. unfold resume. destruct (open now (rt_requestState c) (rt_binding c)) as [st|] eqn:Ho; [|done].
  destruct (String.eqb_spec (ss_Server st) (rt_server c)) as [Hs|]; [|done].
  destruct (String.eqb_spec (ss_Tool st) (rt_tool c)) as [Ht|]; [|done]. cbn [negb orb].
  destruct (String.eqb_spec (ss_Args st) (argsDigest (rt_arguments c))) as [Ha|]; [|done]. cbn [negb].
  destruct (resume_responses _ _ _) as [out|] eqn:Hr; [|done]. intros [= <-]. cbn [rs_upState rs_round rs_prompts rs_responses].
  exists st. repeat (split; [done|]). intros id er. rewrite <- (resume_responses_elem _ _ _ _ Hr).
  apply resume_responses_keys in Hr as Hk; [|done]. symmetry. by apply elem_of_list_to_map.
Qed.

End Retry.


Definition sample_retry : retry :=
  {| rt_server := "nb"; rt_tool := "run"; rt_arguments := " { } "; rt_binding := sample_binding; rt_requestState := sample_sealed;
     rt_responses := [("q1", ReElicit (Some {| er_Action := "accept"; er_Content := AObj [("site", AStr "ams")] |})); ("q2", ReOther)] |}.

Definition sample_resumed : resumed :=
  {| rs_responses := {[ "q1" := {| er_Action := "accept"; er_Content := AObj [("site", AStr "ams")] |} ]};
     rs_upState := "u"; rs_round := 1; rs_prompts := 1 |}.

