(* ===== verification/SessionKeys.v ===== *)
(** * Agent session keys: internal/proxy/input.go and proxy.go

    The key that names the agent session behind a call, for the records of
    ended calls: the session's id over the listener, the number of the Run that
    serves it on stdio, or a number of its own.  [Run] records its session while
    requests may already arrive; a request that may be that session's waits.
    Theorem: only calls of one agent session share a key. *)

From S2P Require Import Prelude GoStd.

Open Scope string_scope.
Open Scope Z_scope.
Open Scope list_scope.

Definition localKeyPrefix : string := "l".
Definition requestKeyPrefix : string := "r".

(** The fields of Proxy under localMu, and requestKeys. *)
Record keys := { k_connecting : gset nat; k_locals : gmap nat string; k_runs : Z; k_requests : Z }.

Definition no_keys : keys := {| k_connecting := ∅; k_locals := ∅; k_runs := 0; k_requests := 0 |}.

(** What [agentSessionKey] reads of a call; a session is an address. *)
Record caller := { ca_session : option nat; ca_id : string; ca_stateless : bool; ca_principal : string }.

(** [requestKey]; the counter is a uint64. *)
Definition requestKey (k : keys) : keys * string :=
  let n := (k_requests k + 1) mod 2 ^ 64 in
  ({| k_connecting := k_connecting k; k_locals := k_locals k; k_runs := k_runs k; k_requests := n |}, (requestKeyPrefix ++ itoa n)%string).

(** One turn of [localKey]'s loop: [None] waits for a connecting Run, unless
    the request's context has ended. *)
Definition localKey (k : keys) (ss : nat) (ended : bool) : option string :=
  match k_locals k !! ss with
  | Some key => Some key
  | None => if decide (k_connecting k = ∅) then Some "" else if ended then Some "" else None
  end.

Definition agentSessionKey (k : keys) (c : caller) (ended : bool) : option (keys * string) :=
  match ca_session c with
  | None => Some (requestKey k)
  | Some ss =>
      if negb (String.eqb (ca_id c) "") && negb (ca_stateless c) then Some (k, ("s" ++ ca_id c)%string)
      else if String.eqb (ca_principal c) "" then
        match localKey k ss ended with
        | None => None
        | Some key => if negb (String.eqb key "") then Some (k, key) else Some (requestKey k)
        end
      else Some (requestKey k)
  end.

(** ** Run, by its steps *)

Definition run_begin (k : keys) (ready : nat) : keys :=
  {| k_connecting := {[ ready ]} ∪ k_connecting k; k_locals := k_locals k; k_runs := k_runs k; k_requests := k_requests k |}.

(** The session is connected and recorded. *)
Definition run_record (k : keys) (ss : nat) : keys :=
  {| k_connecting := k_connecting k; k_locals := <[ss := (localKeyPrefix ++ itoa (k_runs k + 1))%string]> (k_locals k);
     k_runs := k_runs k + 1; k_requests := k_requests k |}.

Definition run_release (k : keys) (ready : nat) : keys :=
  {| k_connecting := k_connecting k ∖ {[ ready ]}; k_locals := k_locals k; k_runs := k_runs k; k_requests := k_requests k |}.

Definition run_end (k : keys) (ss : nat) : keys :=
  {| k_connecting := k_connecting k; k_locals := delete ss (k_locals k); k_runs := k_runs k; k_requests := k_requests k |}.

(** The calls keyed so far, newest first, and the Run that served each
    session. *)
Record key_run := { kr_keys : keys; kr_log : list (caller * string); kr_served : gmap nat Z }.

Definition key_run0 : key_run := {| kr_keys := no_keys; kr_log := []; kr_served := ∅ |}.

Section Keys.
(** go-sdk's session ids; empty for a session that has none. *)
Variable id_of : nat → string.

Inductive key_step : key_run → key_run → Prop :=
  | KBegin h ready : ready ∉ k_connecting (kr_keys h) →
      key_step h {| kr_keys := run_begin (kr_keys h) ready; kr_log := kr_log h; kr_served := kr_served h |}
  | KRecord h ready ss : ready ∈ k_connecting (kr_keys h) → kr_served h !! ss = None →
      key_step h {| kr_keys := run_record (kr_keys h) ss; kr_log := kr_log h;
                    kr_served := <[ss := k_runs (kr_keys h) + 1]> (kr_served h) |}
  | KRelease h ready :
      key_step h {| kr_keys := run_release (kr_keys h) ready; kr_log := kr_log h; kr_served := kr_served h |}
  | KEnd h ss : key_step h {| kr_keys := run_end (kr_keys h) ss; kr_log := kr_log h; kr_served := kr_served h |}
  | KCall h c ended k key :
      (∀ ss, ca_session c = Some ss → ca_id c = id_of ss) →
      agentSessionKey (kr_keys h) c ended = Some (k, key) →
      key_step h {| kr_keys := k; kr_log := (c, key) :: kr_log h; kr_served := kr_served h |}.

Inductive keyed : key_run → Prop :=
  | keyed0 : keyed key_run0
  | keyedS h h' : keyed h → key_step h h' → keyed h'.

(** ** The invariant *)

(** Where a key comes from. *)
Definition from_session (c : caller) (key : string) : Prop :=
  ∃ ss, ca_session c = Some ss ∧ id_of ss ≠ "" ∧ ca_stateless c = false ∧ key = ("s" ++ id_of ss)%string.
Definition from_run (served : gmap nat Z) (c : caller) (key : string) : Prop :=
  ∃ ss n, ca_session c = Some ss ∧ ca_principal c = "" ∧ served !! ss = Some n ∧ key = (localKeyPrefix ++ itoa n)%string.
Definition from_request (lo hi : Z) (key : string) : Prop := ∃ n, lo < n <= hi ∧ key = (requestKeyPrefix ++ itoa n)%string.

(** The log, newest first: request keys fall. *)
Fixpoint log_ok (served : gmap nat Z) (hi : Z) (log : list (caller * string)) : Prop :=
  match log with
  | [] => True
  | (c, key) :: log =>
      ((from_session c key ∨ from_run served c key) ∧ log_ok served hi log) ∨
      ∃ n, n <= hi ∧ from_request (n - 1) n key ∧ log_ok served (n - 1) log
  end.

Record keys_ok (h : key_run) : Prop := {
  ko_locals ss key : k_locals (kr_keys h) !! ss = Some key → ∃ n, kr_served h !! ss = Some n ∧ key = (localKeyPrefix ++ itoa n)%string;
  ko_served ss n : kr_served h !! ss = Some n → n <= k_runs (kr_keys h);
  ko_inj ss ss' n : kr_served h !! ss = Some n → kr_served h !! ss' = Some n → ss = ss';
  ko_range : 0 <= k_requests (kr_keys h) < 2 ^ 64;
  ko_count : k_requests (kr_keys h) <= Z.of_nat (List.length (kr_log h));
  ko_log : log_ok (kr_served h) (k_requests (kr_keys h)) (kr_log h);
}.

Lemma log_ok_weaken served hi hi' log : hi <= hi' → log_ok served hi log → log_ok served hi' log.
Proof.
  intros Hle. induction log as [|[c key] log IH]; cbn [log_ok]; [done|].
  intros [[Hf Hl]|(n & Hn & Hk & Hl)]; [left; auto|right]. exists n. split; [lia|done].
Qed.

Lemma log_ok_served served ss n hi log : served !! ss = None → log_ok served hi log → log_ok (<[ss := n]> served) hi log.
Proof.
  intros Hss. revert hi. induction log as [|[c key] log IH]; intros hi; cbn [log_ok]; [done|].
  intros [[[Hf|Hf] Hl]|(m & Hm & Hk & Hl)]; [left; auto|left|right; eauto]. split; [right|auto].
  destruct Hf as (s & m & Hs & Hp & Hsv & ->). exists s, m. rewrite lookup_insert_ne by congruence. done.
Qed.

(** The counter has not wrapped. *)
Definition no_wrap (h : key_run) : Prop := Z.of_nat (List.length (kr_log h)) < 2 ^ 64.

Lemma localKey_run h c ss ended key : keys_ok h → ca_session c = Some ss → ca_principal c = "" → key ≠ "" →
  localKey (kr_keys h) ss ended = Some key → from_run (kr_served h) c key.
Proof.
  intros Hok Hss Hp Hne. unfold localKey. destruct (k_locals (kr_keys h) !! ss) as [k|] eqn:Hl; [|destruct (decide _), ended; congruence].
  intros [= ->]. apply (ko_locals _ Hok) in Hl as (n & Hn & ->). by exists ss, n.
Qed.

Lemma agentSessionKey_cases h c ended k key :
  keys_ok h → k_requests (kr_keys h) + 1 < 2 ^ 64 → (∀ ss, ca_session c = Some ss → ca_id c = id_of ss) →
  agentSessionKey (kr_keys h) c ended = Some (k, key) →
  (k = kr_keys h ∧ (from_session c key ∨ from_run (kr_served h) c key)) ∨
  (k = fst (requestKey (kr_keys h)) ∧ key = (requestKeyPrefix ++ itoa (k_requests (kr_keys h) + 1))%string ∧
   k_requests k = k_requests (kr_keys h) + 1).
Proof.
  intros Hok Hw Hid. pose proof (ko_range _ Hok) as Hr.
  assert (Hreq : Some (requestKey (kr_keys h)) = Some (k, key) → k = fst (requestKey (kr_keys h)) ∧
    key = (requestKeyPrefix ++ itoa (k_requests (kr_keys h) + 1))%string ∧ k_requests k = k_requests (kr_keys h) + 1).
  { unfold requestKey. rewrite Z.mod_small by lia. by intros [= <- <-]. }
  unfold agentSessionKey. destruct (ca_session c) as [ss|] eqn:Hss; [|intros E; right; by apply Hreq].
  destruct (negb (String.eqb (ca_id c) "") && negb (ca_stateless c)) eqn:Hs.
  { intros [= <- <-]. left. split; [done|]. left. apply andb_prop in Hs as [H1 H2]. apply negb_true_iff in H1, H2.
    apply String.eqb_neq in H1. rewrite (Hid ss eq_refl) in *. by exists ss. }
  destruct (String.eqb_spec (ca_principal c) "") as [Hp|Hp]; [|intros E; right; by apply Hreq].
  destruct (localKey (kr_keys h) ss ended) as [lk|] eqn:Hlk; [|done].
  destruct (String.eqb_spec lk "") as [->|Hne]; cbn [negb]; [intros E; right; by apply Hreq|].
  intros [= <- <-]. left. split; [done|]. right. by eapply localKey_run.
Qed.

Lemma key_step_ok h h' : keys_ok h → no_wrap h' → key_step h h' → keys_ok h'.
Proof.
  intros Hok Hw Hs. destruct Hs as [h ready Hf|h ready ss Hready Hnew|h ready|h ss|h c ended k key Hid Hkey].
  - by destruct Hok.
  - destruct Hok as [H1 H2 H3 H4 H5 H6]. split; cbn [kr_keys kr_served kr_log run_record k_locals k_runs k_requests]; [| | |done|done|by apply log_ok_served].
    + intros s key. destruct (decide (s = ss)) as [->|Hne]; [|rewrite !lookup_insert_ne by done; apply H1].
      rewrite !lookup_insert_eq. intros [= <-]. eauto.
    + intros s n. destruct (decide (s = ss)) as [->|Hne]; [rewrite lookup_insert_eq; intros [= <-]; lia|].
      rewrite lookup_insert_ne by done. intros Hn. apply H2 in Hn. lia.
    + intros s s' n. rewrite !lookup_insert_Some. intros [[<- <-]|[Hne Hs]] [[<- ?]|[Hne' Hs'] ]; try done; try (by eapply H3).
      * apply H2 in Hs'. lia.
      * subst. apply H2 in Hs. lia.
  - by destruct Hok.
  - destruct Hok as [H1 H2 H3 H4 H5 H6]. split; cbn [kr_keys kr_served kr_log run_end k_locals k_runs k_requests]; [|done..].
    intros s key [_ Hl]%lookup_delete_Some. by apply H1.
  - pose proof Hok as [H1 H2 H3 H4 H5 H6]. unfold no_wrap in Hw. cbn [kr_log List.length] in Hw.
    destruct (agentSessionKey_cases h c ended k key Hok ltac:(lia) Hid Hkey) as [[-> Hf]|(-> & -> & Hn)].
    + split; cbn [kr_keys kr_served kr_log]; [done..| |]; [cbn [List.length]; lia|]. left. by split.
    + split; cbn [kr_keys kr_served kr_log]; [done..| | |].
      * rewrite Hn. lia.
      * rewrite Hn. cbn [List.length]. lia.
      * rewrite Hn. right. exists (k_requests (kr_keys h) + 1). split; [lia|]. split; [eexists; split; [|done]; lia|].
        eapply log_ok_weaken; [|exact H6]. lia.
Qed.

Lemma key_step_log h h' : key_step h h' → no_wrap h' → no_wrap h.
Proof. unfold no_wrap. intros Hs. destruct Hs; cbn [kr_log]; try done. cbn [List.length]. lia. Qed.

Lemma keyed_ok h : keyed h → no_wrap h → keys_ok h.
Proof.
  induction 1 as [|h h' Hk IH Hs]; intros Hw.
  - split; cbn; try done.
  - eapply key_step_ok; [|done|done]. apply IH. by eapply key_step_log.
Qed.

(** A session that can name its calls, and how. *)
Definition names (served : gmap nat Z) (c : caller) (ss : nat) : Prop :=
  ca_session c = Some ss ∧
  ((id_of ss ≠ "" ∧ ca_stateless c = false) ∨ (is_Some (served !! ss) ∧ ca_principal c = "")).

Lemma log_ok_elem served hi log c key : log_ok served hi log → (c, key) ∈ log →
  (from_session c key ∨ from_run served c key) ∨ ∃ n, n <= hi ∧ key = (requestKeyPrefix ++ itoa n)%string.
Proof.
  revert hi. induction log as [|[c' key'] log IH]; intros hi; cbn [log_ok]; [by intros _ ?%not_elem_of_nil|].
  intros Hl [[= -> ->]|Hin]%elem_of_cons.
  - destruct Hl as [[Hf _]|(n & Hn & (m & Hm & ->) & _)]; [by left|right]. exists m. split; [lia|done].
  - destruct Hl as [[_ Hl]|(n & Hn & _ & Hl)]; [by eapply IH|].
    destruct (IH _ Hl Hin) as [Hf|(m & Hm & ->)]; [by left|right]. exists m. split; [lia|done].
Qed.

Lemma log_ok_pair served hi log i j x y :
  log_ok served hi log → (i < j)%nat → log !! i = Some x → log !! j = Some y → snd x = snd y →
  (from_session (fst x) (snd x) ∨ from_run served (fst x) (snd x)) ∧ (from_session (fst y) (snd y) ∨ from_run served (fst y) (snd y)).
Proof.
  revert hi i j. induction log as [|[c key] log IH]; intros hi i j Hl Hij Hi Hj He; [done|].
  destruct j as [|j]; [lia|]. cbn [lookup list_lookup] in Hj. destruct i as [|i].
  2:{ cbn [lookup list_lookup] in Hi. destruct Hl as [[_ Hl]|(n & _ & _ & Hl)]; eapply (IH _ i j); eauto; lia. }
  injection Hi as <-. cbn [fst snd] in *. destruct y as [c' key']. cbn [fst snd] in *. subst key'.
  apply list_elem_of_lookup_2 in Hj. destruct Hl as [[Hf Hl]|(n & Hn & (m & Hm & ->) & Hl)].
  - split; [done|]. destruct (log_ok_elem _ _ _ _ _ Hl Hj) as [Hf'|(m & _ & ->)]; [done|].
    destruct Hf as [(ss & _ & _ & _ & E)|(ss & k & _ & _ & _ & E)]; discriminate E.
  - exfalso. destruct (log_ok_elem _ _ _ _ _ Hl Hj) as [[(ss & _ & _ & _ & E)|(ss & k & _ & _ & _ & E)]|(m' & Hm' & E)]; try discriminate E.
    apply (f_equal (s_drop 1)) in E. apply itoa_inj in E. lia.
Qed.
End Keys.

(** C17: However requests and Runs interleave, two calls have the same session
    key only if they come from one agent session that can name its calls: a
    stateful session with its own id over the listener, or one that a Run
    serves, with no principal.  Every other call has a key no other call gets;
    and a request waits for its key only if it can be a local agent's that a
    connecting Run has not recorded yet, and its context has not ended. *)
Theorem session_keys_sound id_of h :
  (∀ ss ss', id_of ss = id_of ss' → id_of ss ≠ "" → ss = ss') → keyed id_of h → no_wrap h →
  (∀ i j x y, i ≠ j → kr_log h !! i = Some x → kr_log h !! j = Some y → snd x = snd y →
     ∃ ss, names id_of (kr_served h) (fst x) ss ∧ names id_of (kr_served h) (fst y) ss) ∧
  (∀ c ended, agentSessionKey (kr_keys h) c ended = None ↔
     ended = false ∧ ca_principal c = "" ∧ (ca_id c = "" ∨ ca_stateless c = true) ∧ k_connecting (kr_keys h) ≠ ∅ ∧
     ∃ ss, ca_session c = Some ss ∧ k_locals (kr_keys h) !! ss = None).
Proof.
  intros Hinj Hk Hw. pose proof (keyed_ok _ _ Hk Hw) as Hok. split.
  - assert (Hpair : ∀ i j x y, (i < j)%nat → kr_log h !! i = Some x → kr_log h !! j = Some y → snd x = snd y →
      ∃ ss, names id_of (kr_served h) (fst x) ss ∧ names id_of (kr_served h) (fst y) ss).
    { intros i j [c k] [c' k'] Hij Hi Hj He. destruct (log_ok_pair _ _ _ _ _ _ _ _ (ko_log _ _ Hok) Hij Hi Hj He) as [Hx Hy].
      cbn [fst snd] in *. subst k'. destruct Hx as [(ss & Hs & Hid & Hst & ->)|(ss & n & Hs & Hp & Hn & ->)];
        destruct Hy as [(ss' & Hs' & Hid' & Hst' & E)|(ss' & n' & Hs' & Hp' & Hn' & E)]; try discriminate E.
      - injection E as E. apply (Hinj _ _ E) in Hid as ->. exists ss'. split; split; auto.
      - injection E as E. apply itoa_inj in E as ->. pose proof (ko_inj _ _ Hok _ _ _ Hn Hn') as ->. exists ss'. split; split; eauto. }
    intros i j x y Hne Hi Hj He. destruct (decide (i < j)%nat); [by eapply Hpair|].
    destruct (Hpair j i y x ltac:(lia) Hj Hi (eq_sym He)) as (ss & H1 & H2). by exists ss.
  - intros c ended. unfold agentSessionKey, localKey. destruct (ca_session c) as [ss|].
    2:{ split; [done|]. intros (_ & _ & _ & _ & ss & Hs & _). done. }
    destruct (String.eqb_spec (ca_id c) "") as [He|He], (ca_stateless c) eqn:Hst; cbn [negb andb];
      try (split; [done|intros (_ & _ & [?|?] & _); done]).
    all: destruct (String.eqb_spec (ca_principal c) "") as [Hp|Hp]; [|split; [done|by intros (_ & ? & _)]].
    all: destruct (k_locals (kr_keys h) !! ss) as [key|] eqn:Hl.
    all: try (split; [by destruct (String.eqb key "")|intros (_ & _ & _ & _ & ss' & [= <-] & Hl'); congruence]).
    all: destruct (decide (k_connecting (kr_keys h) = ∅)) as [E|E]; [split; [done|by intros (_ & _ & _ & ? & _)]|].
    all: destruct ended; [split; [done|by intros (? & _)]|].
    all: split; [intros _; repeat (split; [tauto|]); by exists ss|done].
Qed.

(** ** A local agent that calls twice *)

Definition sample_ids (ss : nat) : string := if (ss =? 1)%nat then "f00d" else "".

Definition sample_caller : caller := {| ca_session := Some 5%nat; ca_id := ""; ca_stateless := false; ca_principal := "" |}.

Definition sample_run : key_run :=
  {| kr_keys := run_record (run_begin no_keys 0) 5; kr_log := [(sample_caller, "l1"); (sample_caller, "l1")]; kr_served := {[ 5%nat := 1 ]} |}.

Lemma sample_run_keyed : keyed sample_ids sample_run.
Proof.
  assert (Hid : ∀ ss, ca_session sample_caller = Some ss → ca_id sample_caller = sample_ids ss) by (intros ss [= <-]; reflexivity).
  assert (Hcall : ∀ log, key_step sample_ids {| kr_keys := run_record (run_begin no_keys 0) 5; kr_log := log; kr_served := {[ 5%nat := 1 ]} |}
    {| kr_keys := run_record (run_begin no_keys 0) 5; kr_log := (sample_caller, "l1") :: log; kr_served := {[ 5%nat := 1 ]} |}).
  { intros log. apply (KCall sample_ids {| kr_keys := _; kr_log := _; kr_served := _ |} sample_caller false); [exact Hid|reflexivity]. }
  eapply keyedS; [|apply Hcall]. eapply keyedS; [|apply Hcall].
  eapply keyedS; [eapply keyedS; [apply keyed0|]|].
  - apply (KBegin sample_ids key_run0 0). set_solver.
  - apply (KRecord sample_ids {| kr_keys := run_begin no_keys 0; kr_log := []; kr_served := ∅ |} 0 5); [set_solver|done].
Qed.

Lemma session_keys_sound_witness :
  (∃ ss, names sample_ids (kr_served sample_run) sample_caller ss) ∧
  agentSessionKey (run_begin no_keys 0) sample_caller false = None.
Proof.
  assert (Hinj : ∀ ss ss', sample_ids ss = sample_ids ss' → sample_ids ss ≠ "" → ss = ss').
  { intros ss ss'. unfold sample_ids. destruct (Nat.eqb_spec ss 1), (Nat.eqb_spec ss' 1); congruence. }
  assert (Hw : no_wrap sample_run) by reflexivity.
  destruct (session_keys_sound sample_ids sample_run Hinj sample_run_keyed Hw) as [Hpair _].
  split; [|reflexivity].
  destruct (Hpair 0%nat 1%nat (sample_caller, "l1") (sample_caller, "l1") ltac:(discriminate) eq_refl eq_refl eq_refl) as (ss & Hss & _).
  exists ss. exact Hss.
Defined.
