(* ===== verification/Hints.v ===== *)
(** * Listing hints: internal/proxy/hints.go

    The readOnlyHint of each tool, read from the upstream's tools/list answers
    on the wire, with absence kept apart from false.  Theorem: a hint is read
    only from an answer to a listing request of the proxy's own, while it lists
    the tools, and only where a tool spells the keys exactly and sends a
    boolean. *)

From S2P Require Import Prelude GoStd Json.

Open Scope string_scope.
Open Scope Z_scope.
Open Scope list_scope.

Definition methodToolsList : string := "tools/list".

(** A JSON-RPC id, as go-sdk's jsonrpc.ID holds it; [IDNone] is not valid. *)
Inductive rpc_id := IDNone | IDNum (n : Z) | IDStr (s : string).

#[export] Instance rpc_id_eq_dec : EqDecision rpc_id.
Proof. solve_decision. Defined.
#[export] Instance rpc_id_countable : Countable rpc_id.
Proof.
  apply (inj_countable' (λ i, match i with IDNone => inl () | IDNum n => inr (inl n) | IDStr s => inr (inr s) end)
    (λ x, match x with inl _ => IDNone | inr (inl n) => IDNum n | inr (inr s) => IDStr s end)).
  by intros [].
Defined.

(** [hintCapture]; [done] says what [stopped] says, without the lock. *)
Record hintCapture := { hc_stopped : bool; hc_pending : gset rpc_id; hc_readOnly : gmap string bool; hc_wired : bool }.

Definition newCapture : hintCapture := {| hc_stopped := false; hc_pending := ∅; hc_readOnly := ∅; hc_wired := false |}.

(** trackedTransport.Connect, on a connection it wraps. *)
Definition wire (h : hintCapture) : hintCapture :=
  {| hc_stopped := hc_stopped h; hc_pending := hc_pending h; hc_readOnly := hc_readOnly h; hc_wired := true |}.

(** ** One answer *)

(** A member decoded into a string: null leaves it empty. *)
Definition name_of (v : option any) : option string :=
  match v with Some (AStr s) => Some s | Some ANil => Some "" | _ => None end.

(** A member decoded into a map: null is the nil map. *)
Definition map_of (v : option any) : option (list (string * any)) :=
  match v with Some (AObj l) => Some l | Some ANil => Some [] | _ => None end.

Definition tool_hint (t : list (string * any)) : option (string * bool) :=
  match name_of (obj_get t "name") with
  | None => None
  | Some name =>
      match map_of (obj_get t "annotations") with
      | None => None
      | Some ann => match obj_get ann "readOnlyHint" with Some (ABool b) => Some (name, b) | _ => None end
      end
  end.

(** The elements of a slice of maps; any other element is an error. *)
Fixpoint tool_maps (l : list any) : option (list (list (string * any))) :=
  match l with
  | [] => Some []
  | v :: l => match map_of (Some v), tool_maps l with Some t, Some ts => Some (t :: ts) | _, _ => None end
  end.

Definition listed_tools (result : string) : list (list (string * any)) :=
  match json_decode any_number result with
  | Some (AObj page) =>
      match obj_get page "tools" with
      | Some (AArr l) => default [] (tool_maps l)
      | _ => []
      end
  | _ => []
  end.

Definition add_hint (m : gmap string bool) (t : list (string * any)) : gmap string bool :=
  match tool_hint t with Some (name, b) => <[name := b]> m | None => m end.

Definition readOnlyHintsOf (result : string) : gmap string bool := foldl add_hint ∅ (listed_tools result).

(** ** The capture *)

Definition sent (h : hintCapture) (method : string) (id : rpc_id) : hintCapture :=
  if hc_stopped h || negb (String.eqb method methodToolsList) || bool_decide (id = IDNone) then h
  else {| hc_stopped := false; hc_pending := {[ id ]} ∪ hc_pending h; hc_readOnly := hc_readOnly h; hc_wired := hc_wired h |}.

(** A response: its id, and its result unless it is an error. *)
Definition received (h : hintCapture) (id : rpc_id) (result : option string) : hintCapture :=
  match result with
  | None => h
  | Some result =>
      if hc_stopped h || negb (bool_decide (id ∈ hc_pending h)) then h
      else {| hc_stopped := false; hc_pending := hc_pending h ∖ {[ id ]};
              hc_readOnly := readOnlyHintsOf result ∪ hc_readOnly h; hc_wired := hc_wired h |}
  end.

(** [readOnlyHints]. *)
Definition readOnlyHints (h : hintCapture) : hintCapture * (gmap string bool * bool) :=
  ({| hc_stopped := true; hc_pending := ∅; hc_readOnly := ∅; hc_wired := hc_wired h |}, (hc_readOnly h, hc_wired h)).

(** ** What is captured *)

Inductive wire_event := Sent (method : string) (id : rpc_id) | Received (id : rpc_id) (result : option string) | Stop.

Definition capture_step (h : hintCapture) (e : wire_event) : hintCapture :=
  match e with Sent m id => sent h m id | Received id r => received h id r | Stop => fst (readOnlyHints h) end.

Definition capture (es : list wire_event) : hintCapture := foldl capture_step (wire newCapture) es.

(** A tool of a listing that gives a hint: its exact keys, a boolean. *)
Definition hinted (result name : string) (b : bool) : Prop :=
  ∃ t ann, t ∈ listed_tools result ∧ (obj_get t "name" = Some (AStr name) ∨ (obj_get t "name" = Some ANil ∧ name = "")) ∧
    obj_get t "annotations" = Some (AObj ann) ∧ obj_get ann "readOnlyHint" = Some (ABool b).

Lemma tool_hint_spec t name b : tool_hint t = Some (name, b) ↔
  (obj_get t "name" = Some (AStr name) ∨ (obj_get t "name" = Some ANil ∧ name = "")) ∧
  ∃ ann, obj_get t "annotations" = Some (AObj ann) ∧ obj_get ann "readOnlyHint" = Some (ABool b).
Proof.
  unfold tool_hint, name_of, map_of. split.
  - intros Ht. repeat case_match; simplify_eq/=; naive_solver.
  - intros [Hn (ann & Ha & Hr)]. rewrite Ha, Hr. by destruct Hn as [->|[-> ->] ].
Qed.

Lemma add_hints_lookup ts : ∀ m name b, foldl add_hint m ts !! name = Some b →
  m !! name = Some b ∨ ∃ t, t ∈ ts ∧ tool_hint t = Some (name, b).
Proof.
  induction ts as [|t ts IH]; intros m name b; cbn [foldl]; [by left|]. intros [Hm|(t' & Hin & Ht)]%IH.
  - unfold add_hint in Hm. destruct (tool_hint t) as [ [n b']|] eqn:Et; [|by left].
    apply lookup_insert_Some in Hm as [ [-> ->]|[_ Hm] ]; [right; exists t; split; [by left|done]|by left].
  - right. exists t'. split; [by right|done].
Qed.

(** A tool the listing has hints for is hinted, whatever the order. *)
Lemma add_hints_known ts name : ∀ m, is_Some (m !! name) ∨ (∃ t b, t ∈ ts ∧ tool_hint t = Some (name, b)) → is_Some (foldl add_hint m ts !! name).
Proof.
  induction ts as [|t ts IH]; intros m; cbn [foldl]; [intros [?|(? & ? & ?%not_elem_of_nil & _)]; done|].
  intros Hor. apply IH. unfold add_hint. destruct (tool_hint t) as [ [n b']|] eqn:Et.
  - destruct (decide (n = name)) as [->|]; [left; by rewrite lookup_insert_eq|]. rewrite lookup_insert_ne by done.
    destruct Hor as [?|(t' & b & [->|Hin]%elem_of_cons & Ht)]; [by left|congruence|right; by exists t', b].
  - destruct Hor as [?|(t' & b & [->|Hin]%elem_of_cons & Ht)]; [by left|congruence|right; by exists t', b].
Qed.

Lemma readOnlyHintsOf_hinted result name b : readOnlyHintsOf result !! name = Some b → hinted result name b.
Proof.
  intros [Hm|(t & Hin & [Hn (ann & Ha & Hr)]%tool_hint_spec)]%add_hints_lookup; [by rewrite lookup_empty in Hm|]. by exists t, ann.
Qed.

(** What a run of the capture remembers: each answer it read. *)
Definition answered (es : list wire_event) (result : string) : Prop :=
  ∃ es1 id es2, es = es1 ++ Received id (Some result) :: es2 ∧ id ≠ IDNone ∧ Sent methodToolsList id ∈ es1 ∧ Stop ∉ es1.

Lemma answered_snoc es e result : answered es result → answered (es ++ [e]) result.
Proof. intros (es1 & id & es2 & -> & H). exists es1, id, (es2 ++ [e]). by rewrite <- app_assoc. Qed.

Record capture_ok (es : list wire_event) (h : hintCapture) : Prop := {
  co_stopped : hc_stopped h = false → Stop ∉ es;
  co_pending id : id ∈ hc_pending h → id ≠ IDNone ∧ Sent methodToolsList id ∈ es;
  co_hints name b : hc_readOnly h !! name = Some b → ∃ result, answered es result ∧ readOnlyHintsOf result !! name = Some b;
}.

Lemma capture_ok_run es : capture_ok es (capture es).
Proof.
  induction es as [|e es [H1 H2 H3] ] using rev_ind; [by split; intros; [apply not_elem_of_nil|..]; cbn in *; set_solver|].
  unfold capture in *. rewrite foldl_app. cbn [foldl]. set (h := foldl capture_step (wire newCapture) es) in *.
  assert (Hkeep : e ≠ Stop → capture_ok (es ++ [e]) h).
  { intros Hne. split; [intros Hs; specialize (H1 Hs); set_solver|intros id Hid; destruct (H2 id Hid); set_solver|].
    intros name b (r & Hr & Hl)%H3. exists r. split; [by apply answered_snoc|done]. }
  destruct e as [m id|id r|]; cbn [capture_step]; [unfold sent|unfold received|].
  - specialize (Hkeep ltac:(done)). destruct (hc_stopped h) eqn:Hs; [done|]. destruct (String.eqb_spec m methodToolsList) as [->|]; [|done].
    case_bool_decide as Hid; [done|]. cbn [orb negb]. destruct Hkeep as [K1 K2 K3]. split; cbn; [by intros _; apply K1| |done].
    intros id' [->%elem_of_singleton|Hin]%elem_of_union; [split; [done|set_solver]|by apply K2].
  - specialize (Hkeep ltac:(done)). destruct r as [result|]; [|done]. destruct (hc_stopped h) eqn:Hs; [done|].
    case_bool_decide as Hid; [|done]. cbn [orb negb]. destruct Hkeep as [K1 K2 K3]. split; cbn; [by intros _; apply K1|intros id' Hin; apply K2; set_solver|].
    intros name b [Hn|[_ Hn] ]%lookup_union_Some_raw; [|by apply K3]. exists result. split; [|done].
    destruct (H2 id Hid) as [? ?]. exists es, id, []. by split_and!; try apply H1.
  - split; cbn; [done|set_solver|]. intros name b. by rewrite lookup_empty.
Qed.

(** a readOnlyHint is taken only from what the upstream itself listed.
    Whatever crosses the wire, a hint the capture gives at its end was read
    from an answer without error to a tools/list request sent before it and
    while the tools were being listed, and that answer lists a tool with the
    exact keys "name" and "annotations", whose annotations hold the exact key
    "readOnlyHint" with that boolean; a tool with no such hint has none, and
    once stopped the capture reads nothing more. *)
Theorem hints_exact es name :
  let '(h, (hints, wired)) := readOnlyHints (capture es) in
  wired = true ∧
  (∀ b, hints !! name = Some b → ∃ result, answered es result ∧ hinted result name b) ∧
  ((∀ result b, answered es result → ¬ hinted result name b) → hints !! name = None) ∧
  (∀ es', hc_readOnly (foldl capture_step h es') = ∅).
Proof.
  cbn. pose proof (capture_ok_run es) as [H1 H2 H3].
  assert (Hb : ∀ b, hc_readOnly (capture es) !! name = Some b → ∃ result, answered es result ∧ hinted result name b).
  { intros b (r & Hr & Hl)%H3. exists r. split; [done|]. by apply readOnlyHintsOf_hinted. }
  split_and!; [|exact Hb|..].
  - unfold capture. assert (∀ h, hc_wired h = true → hc_wired (foldl capture_step h es) = true) as Hw; [|by apply Hw].
    clear. induction es as [|e es IH]; intros h Hh; cbn [foldl]; [done|]. apply IH. destruct e; cbn; unfold sent, received; by repeat case_match.
  - intros Hno. destruct (hc_readOnly (capture es) !! name) as [b|]; [|done]. destruct (Hb b eq_refl) as (r & Hr & Hh). by destruct (Hno r b Hr).
  - intros es'.
    assert (∀ h, hc_stopped h = true → hc_readOnly h = ∅ → hc_readOnly (foldl capture_step h es') = ∅) as Hs; [|by apply Hs].
    clear. induction es' as [|e es' IH]; intros h H1 H2; cbn [foldl]; [done|]. destruct e as [m id|id [r|]|]; cbn [capture_step]; unfold sent, received; rewrite ?H1; by apply IH.
Qed.

Example ex_hints :
  let tool n k v := AObj [("annotations", AObj [(k, v)]); ("name", AStr n)] in
  let page := json_encode (AObj [("tools", AArr [tool "a" "readOnlyHint" (ABool false); tool "b" "READONLYHINT" (ABool true);
    tool "c" "readOnlyHint" ANil; tool "a" "readOnlyHint" (ABool true); ANil])]) in
  let h := capture [Sent "tools/list" (IDNum 1); Received (IDNum 2) (Some page); Received (IDNum 1) (Some page)] in
  (hc_readOnly h !! "a", hc_readOnly h !! "b", hc_readOnly h !! "c") = (Some true, None, None).
Proof. vm_compute. reflexivity. Qed.
