(* ===== verification/Attribution.v ===== *)
(** * Attribution of upstream prompts: internal/proxy/input.go

    A stateful upstream's elicitation/create names no call.  An upstream keeps
    the calls in flight and, for a while, the calls that ended (orphans); a
    prompt is relayed only when one agent session alone can have caused it.
    The upstream's lock makes every operation below one step. *)

From S2P Require Import Prelude GoStd Sanitize Label Json ReqState Schema Names Prompts.

Open Scope string_scope.
Open Scope Z_scope.
Open Scope list_scope.

Definition maxOrphansPerPrincipal : Z := 256.

(** Times are in nanoseconds. *)
Record orphan := { or_principal : string; or_expires : Z; or_overflow : Z }.

(** One call in flight; the agent is whether it is stateless and whether it
    can show a form. *)
Record inflight := {
  if_stateless : bool; if_canElicit : bool;
  if_tool : string; if_principal : string; if_sessionKey : string;
  if_refused : option refusal; if_note : option refusal;
  if_prompting : bool; if_prompts : Z;
}.

(** The calls by their address ([u_heap]; a call outlives its place in the
    table while a prompt of it is open), and those in flight. *)
Record upstream_calls := {
  u_heap : gmap nat inflight;
  u_calls : gset nat;
  u_orphans : gmap string orphan;
  u_orphansOf : gmap string Z;
  u_overflow : gmap string orphan;
}.

Definition empty_upstream : upstream_calls := {| u_heap := ∅; u_calls := ∅; u_orphans := ∅; u_orphansOf := ∅; u_overflow := ∅ |}.

Definition set_calls (u : upstream_calls) (h : gmap nat inflight) (c : gset nat) : upstream_calls :=
  {| u_heap := h; u_calls := c; u_orphans := u_orphans u; u_orphansOf := u_orphansOf u; u_overflow := u_overflow u |}.

(** [begin]: [id] is the address of the new entry. *)
Definition begin (u : upstream_calls) (id : nat) (stateless canElicit : bool) (tool principal sessionKey : string) (prompts : Z) :
    upstream_calls :=
  set_calls u (<[id := {| if_stateless := stateless; if_canElicit := canElicit; if_tool := tool; if_principal := principal;
                          if_sessionKey := sessionKey; if_refused := None; if_note := None; if_prompting := false; if_prompts := prompts |}]>
                 (u_heap u)) ({[ id ]} ∪ u_calls u).

Definition later (a b : Z) : Z := if b <? a then a else b.

Definition expired (now : Z) (o : orphan) : bool := negb (now <? or_expires o).

(** One round of the loop that forgets a keyed orphan. *)
Definition drop_orphan (counts : gmap string Z) (o : orphan) : gmap string Z :=
  let n := default 0 (counts !! or_principal o) - 1 in
  if n <=? 0 then delete (or_principal o) counts else <[or_principal o := n]> counts.

Definition pruneOrphans (u : upstream_calls) (now : Z) : upstream_calls * list orphan :=
  let dead := filter (λ kv, expired now (snd kv) = true) (u_orphans u) in
  let over := filter (λ kv, expired now (snd kv) = true) (u_overflow u) in
  ({| u_heap := u_heap u; u_calls := u_calls u;
      u_orphans := filter (λ kv, expired now (snd kv) = false) (u_orphans u);
      u_orphansOf := foldl drop_orphan (u_orphansOf u) (map snd (map_to_list dead));
      u_overflow := filter (λ kv, expired now (snd kv) = false) (u_overflow u) |},
   map snd (map_to_list dead) ++ map snd (map_to_list over)).

Definition prune : upstream_calls → Z → upstream_calls * list orphan := pruneOrphans.

(** An ended call past the quota of its principal; a record that is not there
    has the zero time. *)
Definition add_overflow (u : upstream_calls) (p : string) (expires : Z) : upstream_calls :=
  let o := match u_overflow u !! p with
           | Some o => {| or_principal := p; or_expires := later (or_expires o) expires; or_overflow := or_overflow o + 1 |}
           | None => {| or_principal := p; or_expires := expires; or_overflow := 1 |}
           end in
  {| u_heap := u_heap u; u_calls := u_calls u; u_orphans := u_orphans u; u_orphansOf := u_orphansOf u; u_overflow := <[p := o]> (u_overflow u) |}.

Definition set_orphan (u : upstream_calls) (key : string) (o : orphan) (counts : gmap string Z) : upstream_calls :=
  {| u_heap := u_heap u; u_calls := u_calls u; u_orphans := <[key := o]> (u_orphans u); u_orphansOf := counts; u_overflow := u_overflow u |}.

(** What an ended call leaves: the upstream, and whether its principal just
    went over its quota. *)
Definition record_ended (u : upstream_calls) (key p : string) (expires : Z) : upstream_calls * bool :=
  match (if String.eqb key "" then None else u_orphans u !! key) with
  | Some o =>
      (set_orphan u key {| or_principal := or_principal o; or_expires := later (or_expires o) expires; or_overflow := 0 |} (u_orphansOf u),
       false)
  | None =>
      let n := default 0 (u_orphansOf u !! p) in
      if negb (String.eqb key "") && (n <? maxOrphansPerPrincipal)
      then (set_orphan u key {| or_principal := p; or_expires := expires; or_overflow := 0 |} (<[p := n + 1]> (u_orphansOf u)), false)
      else (add_overflow u p expires, match u_overflow u !! p with Some _ => false | None => true end)
  end.

(** [end]: also the orphans forgotten. *)
Definition end_call (u : upstream_calls) (id : nat) (f : inflight) (now expires : Z) : upstream_calls * list orphan * bool :=
  let '(u, reaped) := pruneOrphans (set_calls u (u_heap u) (u_calls u ∖ {[ id ]})) now in
  if negb (now <? expires) then (u, reaped, false)
  else let '(u, overflowed) := record_ended u (if_sessionKey f) (if_principal f) expires in (u, reaped, overflowed).

(** ** Attribution *)

Inductive attribution_error := ACount (n : Z) | errEndedElsewhere.

Definition attribution_text (e : attribution_error) : string :=
  match e with
  | ACount n => ("it cannot be attributed to one call (" ++ itoa n ++ " in flight)")%string
  | errEndedElsewhere => "it cannot be attributed to one call: another agent session's call on this upstream has ended recently and the upstream may still be working on it"
  end.

Record attribution := {
  at_sole : option nat; at_err : option attribution_error;
  at_endedCallsOf : list string; at_inFlightOf : list string;
}.

(** principalSet: the names of a log line, each once and sorted. *)
Definition principalSet (l : list string) : list string := sort_strings (elements (list_to_set (map logPrincipal l) : gset string)).

(** The live records that are foreign to a call with key [key]. *)
Definition foreign (u : upstream_calls) (now : Z) (key : string) : list string :=
  map (λ kv, or_principal (snd kv)) (map_to_list (filter (λ kv, (now <? or_expires (snd kv)) && negb (String.eqb (fst kv) key) = true) (u_orphans u))) ++
  map fst (map_to_list (filter (λ kv, now <? or_expires (snd kv) = true) (u_overflow u))).

Definition attribute (u : upstream_calls) (now : Z) : attribution :=
  match elements (u_calls u) with
  | [id] =>
      match foreign u now (match u_heap u !! id with Some f => if_sessionKey f | None => "" end) with
      | [] => {| at_sole := Some id; at_err := None; at_endedCallsOf := []; at_inFlightOf := [] |}
      | ended => {| at_sole := Some id; at_err := Some errEndedElsewhere; at_endedCallsOf := principalSet ended; at_inFlightOf := [] |}
      end
  | l => {| at_sole := None; at_err := Some (ACount (Z.of_nat (List.length l))); at_endedCallsOf := [];
            at_inFlightOf := principalSet (map (λ id, match u_heap u !! id with Some f => if_principal f | None => "" end) l) |}
  end.

(** ** Prompts of one call *)

Definition errTooManyPrompts : string := ("more than " ++ itoa maxPromptsPerCall ++ " prompts in one call")%string.
Definition errPromptOpen : string := "another prompt from this upstream is still open for this call".

Definition set_prompting (f : inflight) (b : bool) (n : Z) : inflight :=
  {| if_stateless := if_stateless f; if_canElicit := if_canElicit f; if_tool := if_tool f; if_principal := if_principal f;
     if_sessionKey := if_sessionKey f; if_refused := if_refused f; if_note := if_note f; if_prompting := b; if_prompts := n |}.
Definition set_refused (f : inflight) (r : refusal) : inflight :=
  {| if_stateless := if_stateless f; if_canElicit := if_canElicit f; if_tool := if_tool f; if_principal := if_principal f;
     if_sessionKey := if_sessionKey f; if_refused := match if_refused f with None => Some r | o => o end; if_note := if_note f;
     if_prompting := if_prompting f; if_prompts := if_prompts f |}.
Definition set_note (f : inflight) (r : refusal) : inflight :=
  {| if_stateless := if_stateless f; if_canElicit := if_canElicit f; if_tool := if_tool f; if_principal := if_principal f;
     if_sessionKey := if_sessionKey f; if_refused := if_refused f; if_note := match if_note f with None => Some r | o => o end;
     if_prompting := if_prompting f; if_prompts := if_prompts f |}.

Definition update_call (u : upstream_calls) (id : nat) (g : inflight → inflight) : upstream_calls := set_calls u (alter g id (u_heap u)) (u_calls u).

Definition promptsSoFar (u : upstream_calls) (id : nat) : Z := match u_heap u !! id with Some f => if_prompts f | None => 0 end.

Definition startPrompt (u : upstream_calls) (id : nat) : upstream_calls * option string :=
  match u_heap u !! id with
  | None => (u, None)
  | Some f =>
      if if_prompting f then (u, Some errPromptOpen)
      else if maxPromptsPerCall <=? if_prompts f then (u, Some errTooManyPrompts)
      else (update_call u id (λ f, set_prompting f true (if_prompts f + 1)), None)
  end.

Definition endPrompt (u : upstream_calls) (id : nat) : upstream_calls := update_call u id (λ f, set_prompting f false (if_prompts f)).

Definition refusalsFor (u : upstream_calls) (id : nat) : option refusal * option refusal :=
  match u_heap u !! id with Some f => (if_refused f, if_note f) | None => (None, None) end.

Definition refuse (u : upstream_calls) (id : nat) (r : refusal) : upstream_calls := update_call u id (λ f, set_refused f r).
Definition refuseAsNote (u : upstream_calls) (id : nat) (r : refusal) : upstream_calls := update_call u id (λ f, set_note f r).
Definition refuseUnattributed (u : upstream_calls) (r : refusal) : upstream_calls := set_calls u (map_imap (λ id f, Some (if decide (id ∈ u_calls u) then set_note f r else f)) (u_heap u)) (u_calls u).

(** ** A server-initiated prompt *)

Definition errNoFormElicitation : string := "this client does not support form elicitation".
Definition errStatelessClient : string := "this client speaks the stateless era (2026-07-28) and cannot receive a server-initiated prompt; see ADR 0014".
Definition errDiscoveredUpstream : string :=
  "this upstream was connected with server/discover (the stateless era), where input requests come as input_required results, so a server-initiated prompt from it is not relayed; see ADR 0008".
Definition errPromptsUnchecked : string :=
  "a policy is enforced and fathomgate cannot check an answer against the server profile, so upstream prompts are not relayed".

Definition promptable (f : inflight) : option string :=
  if if_stateless f then Some errStatelessClient else if negb (if_canElicit f) then Some errNoFormElicitation else None.

(** The request is refused with this error, or put to the agent of this
    call. *)
Inductive elicitation := Refused (r : refusal) | Relayed (id : nat) (clean : ElicitParams).

(** [upstreamElicitation] up to the prompt; [closed] is argumentsClosed, the
    log lines are left out. *)
Definition upstreamElicitation `{Unicode} (server : string) (handshake : bool) (closed : string → bool)
    (u : upstream_calls) (now : Z) (ep : option ElicitParams) : upstream_calls * elicitation :=
  let '(u, _) := prune u now in
  let at_ := attribute u now in
  match at_err at_, at_sole at_ with
  | Some e, sole =>
      let unattributed := let r := newRefusal server "" "elicitation" (attribution_text e) in (refuseUnattributed u r, Refused r) in
      match sole with
      | Some id =>
          match u_heap u !! id with
          | Some f => match promptable f with
                      | Some why => let r := newRefusal server (if_tool f) "elicitation" why in (refuseAsNote u id r, Refused r)
                      | None => unattributed
                      end
          | None => unattributed
          end
      | None => unattributed
      end
  | None, Some id =>
      match u_heap u !! id with
      | None => (u, Refused (newRefusal server "" "elicitation" ""))      (* not reached: the call is in flight *)
      | Some f =>
          let refused why := let r := newRefusal server (if_tool f) "elicitation" why in (refuse u id r, Refused r) in
          if negb handshake then refused errDiscoveredUpstream
          else match promptable f with
          | Some why => refused why
          | None =>
              if closed (if_tool f) then refused errPromptsUnchecked
              else match relabelElicit server (if_tool f) ep with
              | Err r => (refuse u id r, Refused r)
              | Ok clean =>
                  match startPrompt u id with
                  | (_, Some why) => refused why
                  | (u, None) => (u, Relayed id clean)
                  end
              end
          end
      end
  | None, None => (u, Refused (newRefusal server "" "elicitation" ""))    (* not reached: attribute names a call *)
  end.

(** What the upstream gets once the agent has answered, or failed to. *)
Definition elicitation_answer `{Unicode} (res : option (option ElicitResult)) : result rpc_error ElicitResult :=
  let failed := {| je_Code := -32603; je_Message := "fathomgate: the client did not answer the elicitation"; je_Data := "" |} in
  match res with
  | None => Err failed
  | Some r => match cleanElicitResult r with Ok c => Ok c | Err _ => Err failed end
  end.

Definition upstreamElicitation_end `{Unicode} (u : upstream_calls) (id : nat) (res : option (option ElicitResult)) :
    upstream_calls * result rpc_error ElicitResult := (endPrompt u id, elicitation_answer res).

(** ** The records of one principal *)

Lemma map_to_list_filter {A} (P : string * A → Prop) `{!∀ x, Decision (P x)} (m : gmap string A) :
  map_to_list (filter P m) ≡ₚ filter P (map_to_list m).
Proof.
  rewrite map_filter_alt, map_to_list_to_map; [done|]. pose proof (NoDup_fst_map_to_list m) as Hnd.
  induction (map_to_list m) as [|kv l IH]; [constructor|]. cbn [fmap list_fmap] in Hnd. apply NoDup_cons in Hnd as [Hni Hnd].
  rewrite filter_cons. destruct (decide (P kv)); [|auto]. cbn. constructor; [|auto].
  intros (x & Hx & Hin)%list_elem_of_fmap. apply list_elem_of_filter in Hin as [_ Hin]. apply Hni. rewrite Hx. by apply list_elem_of_fmap_2.
Qed.

Definition of_principal (p : string) (kv : string * orphan) : Prop := or_principal (snd kv) = p.
#[export] Instance of_principal_dec p kv : Decision (of_principal p kv).
Proof. unfold of_principal. apply _. Defined.

Definition count_of (m : gmap string orphan) (p : string) : Z := Z.of_nat (List.length (filter (of_principal p) (map_to_list m))).

Definition count_list (l : list orphan) (p : string) : Z := Z.of_nat (List.length (filter (λ o, or_principal o = p) l)).

Lemma count_of_perm l l' p : l ≡ₚ l' → List.length (filter (of_principal p) l) = List.length (filter (of_principal p) l').
Proof. intros E. by rewrite E. Qed.

Lemma count_filter_split (f : string * orphan → bool) m p :
  count_of m p = count_list (map snd (map_to_list (filter (λ kv, f kv = true) m))) p + count_of (filter (λ kv, f kv = false) m) p.
Proof.
  unfold count_of, count_list.
  rewrite (count_of_perm _ _ p (map_to_list_filter (λ kv, f kv = false) m)).
  assert (E : List.length (filter (λ o, or_principal o = p) (map snd (map_to_list (filter (λ kv, f kv = true) m)))) =
              List.length (filter (of_principal p) (filter (λ kv, f kv = true) (map_to_list m)))).
  { rewrite <- (count_of_perm _ _ p (map_to_list_filter (λ kv, f kv = true) m)).
    induction (map_to_list (filter (λ kv, f kv = true) m)) as [|kv l IH]; [done|]. cbn [map]. rewrite !filter_cons. unfold of_principal in *.
    destruct (decide (or_principal (snd kv) = p)); cbn [List.length]; by rewrite IH. }
  rewrite E. clear E. rewrite <- Nat2Z.inj_add. f_equal. induction (map_to_list m) as [|kv l IH]; [done|]. destruct (f kv) eqn:Hf.
  - rewrite (filter_cons_True (λ kv, f kv = true)), (filter_cons_False (λ kv, f kv = false)) by congruence. rewrite !filter_cons.
    destruct (decide (of_principal p kv)); cbn [List.length]; lia.
  - rewrite (filter_cons_False (λ kv, f kv = true)), (filter_cons_True (λ kv, f kv = false)) by congruence. rewrite !filter_cons.
    destruct (decide (of_principal p kv)); cbn [List.length]; lia.
Qed.

Lemma count_insert_new m k o p : m !! k = None →
  count_of (<[k := o]> m) p = count_of m p + (if decide (or_principal o = p) then 1 else 0).
Proof.
  intros Hk. unfold count_of. rewrite (count_of_perm _ _ p (map_to_list_insert m k o Hk)), filter_cons. unfold of_principal at 1. cbn [snd].
  destruct (decide (or_principal o = p)); cbn [List.length]; lia.
Qed.

Lemma count_insert_same m k o o' p : m !! k = Some o → or_principal o' = or_principal o → count_of (<[k := o']> m) p = count_of m p.
Proof.
  intros Hk Ho. rewrite <- (insert_delete_id m k o Hk) at 2. rewrite <- (insert_delete_eq m k o').
  rewrite !count_insert_new by apply lookup_delete_eq. by rewrite Ho.
Qed.

(** The counters after the records of a list are dropped. *)
Lemma drop_orphans_count l counts p :
  (∀ q, count_list l q ≤ default 0 (counts !! q)) →
  default 0 (foldl drop_orphan counts l !! p) = default 0 (counts !! p) - count_list l p.
Proof.
  revert counts. induction l as [|o l IH]; intros counts Hc; [cbn; unfold count_list; cbn; lia|]. cbn [foldl].
  assert (Hl : ∀ q, count_list (o :: l) q = (if decide (or_principal o = q) then 1 else 0) + count_list l q).
  { intros q. unfold count_list. rewrite filter_cons. destruct (decide (or_principal o = q)); cbn [List.length]; lia. }
  assert (Hd : ∀ q, default 0 (drop_orphan counts o !! q) = default 0 (counts !! q) - (if decide (or_principal o = q) then 1 else 0)).
  { intros q. unfold drop_orphan. pose proof (Hc (or_principal o)) as Ho. rewrite Hl, decide_True in Ho by done.
    assert (0 <= count_list l (or_principal o)) by (unfold count_list; lia).
    destruct (Z.leb_spec (default 0 (counts !! or_principal o) - 1) 0).
    - destruct (decide (or_principal o = q)) as [<-|]; [rewrite lookup_delete_eq; cbn; lia|rewrite lookup_delete_ne by done; lia].
    - destruct (decide (or_principal o = q)) as [<-|]; [by rewrite lookup_insert_eq|rewrite lookup_insert_ne by done; lia]. }
  rewrite IH.
  - rewrite Hd, Hl. lia.
  - intros q. rewrite Hd. specialize (Hc q). rewrite Hl in Hc. lia.
Qed.

(** ** The calls of an upstream over time *)

(** An upstream with the latest time any operation ran at and every call that
    has ended: its principal, its session key and until when it counts. *)
Record history := { h_u : upstream_calls; h_clock : Z; h_ended : list (string * string * Z) }.

Definition history0 : history := {| h_u := empty_upstream; h_clock := 0; h_ended := [] |}.

(** Operations on one call's entry that keep whose it is. *)
Definition same_call (f g : inflight) : Prop := if_principal g = if_principal f ∧ if_sessionKey g = if_sessionKey f.

Inductive call_step : history → history → Prop :=
  | CBegin h id stateless canElicit tool principal key prompts :
      u_heap (h_u h) !! id = None → 0 <= prompts <= maxPromptsPerCall →
      call_step h {| h_u := begin (h_u h) id stateless canElicit tool principal key prompts; h_clock := h_clock h; h_ended := h_ended h |}
  | CEnd h id f now expires :
      u_heap (h_u h) !! id = Some f → h_clock h <= now →
      call_step h {| h_u := fst (fst (end_call (h_u h) id f now expires)); h_clock := now;
                     h_ended := (if_principal f, if_sessionKey f, expires) :: h_ended h |}
  | CPrune h now : h_clock h <= now →
      call_step h {| h_u := fst (prune (h_u h) now); h_clock := now; h_ended := h_ended h |}
  | CStartPrompt h id : call_step h {| h_u := fst (startPrompt (h_u h) id); h_clock := h_clock h; h_ended := h_ended h |}
  | CEndPrompt h id : call_step h {| h_u := endPrompt (h_u h) id; h_clock := h_clock h; h_ended := h_ended h |}
  | CRefuse h id r : call_step h {| h_u := refuse (h_u h) id r; h_clock := h_clock h; h_ended := h_ended h |}
  | CNote h id r : call_step h {| h_u := refuseAsNote (h_u h) id r; h_clock := h_clock h; h_ended := h_ended h |}
  | CNoteAll h r : call_step h {| h_u := refuseUnattributed (h_u h) r; h_clock := h_clock h; h_ended := h_ended h |}.

Inductive reached : history → Prop :=
  | reached0 : reached history0
  | reachedS h h' : reached h → call_step h h' → reached h'.

(** *** The tables of ended calls *)

Record tables_ok (u : upstream_calls) (clock : Z) (ended : list (string * string * Z)) : Prop := {
  t_count p : default 0 (u_orphansOf u !! p) = count_of (u_orphans u) p;
  t_quota p : count_of (u_orphans u) p <= maxOrphansPerPrincipal;
  t_nokey : u_orphans u !! "" = None;
  (* every ended call that still counts is behind a record *)
  t_cover p k e : (p, k, e) ∈ ended → clock < e →
    (∃ o, u_orphans u !! k = Some o ∧ e <= or_expires o) ∨ (∃ o, u_overflow u !! p = Some o ∧ e <= or_expires o);
  (* and every record stands for an ended call *)
  t_orphan k o : u_orphans u !! k = Some o → ∃ p, (p, k, or_expires o) ∈ ended;
  t_over p o : u_overflow u !! p = Some o → ∃ k, (p, k, or_expires o) ∈ ended;
}.

Lemma tables_heap u clock ended h c : tables_ok u clock ended → tables_ok (set_calls u h c) clock ended.
Proof. intros [? ? ? ? ? ?]. by split. Qed.

Lemma tables_prune u clock ended now : tables_ok u clock ended → clock <= now → tables_ok (fst (pruneOrphans u now)) now ended.
Proof.
  intros [Hc Hq Hn Hcov Ho Hov] Hnow. unfold pruneOrphans. cbn [fst].
  assert (Hlive : ∀ (m : gmap string orphan) k o, m !! k = Some o → now < or_expires o →
    filter (λ kv : string * orphan, expired now (snd kv) = false) m !! k = Some o).
  { intros m k o Hk He. apply map_lookup_filter_Some. split; [done|]. cbn. unfold expired. destruct (Z.ltb_spec now (or_expires o)); [done|lia]. }
  split; cbn [u_orphans u_orphansOf u_overflow].
  - intros p. rewrite drop_orphans_count.
    + rewrite Hc, (count_filter_split (λ kv, expired now (snd kv)) (u_orphans u) p). lia.
    + intros q. rewrite Hc, (count_filter_split (λ kv, expired now (snd kv)) (u_orphans u) q). unfold count_of. lia.
  - intros p. specialize (Hq p). rewrite (count_filter_split (λ kv, expired now (snd kv)) (u_orphans u) p) in Hq. unfold count_list in Hq. lia.
  - apply map_lookup_filter_None. by left.
  - intros p k e He Hlt. destruct (Hcov p k e He ltac:(lia)) as [(o & Hk & Hle)|(o & Hk & Hle)]; [left|right]; exists o;
      (split; [apply Hlive; [done|lia]|done]).
  - intros k o [Hk _]%map_lookup_filter_Some. eauto.
  - intros p o [Hk _]%map_lookup_filter_Some. eauto.
Qed.

Lemma later_ge a b : a <= later a b ∧ b <= later a b ∧ (later a b = a ∨ later a b = b).
Proof. unfold later. destruct (Z.ltb_spec b a); lia. Qed.

Lemma tables_add_overflow u clock ended key p e :
  tables_ok u clock ended → tables_ok (add_overflow u p e) clock ((p, key, e) :: ended).
Proof.
  intros [Hc Hq Hn Hcov Ho Hov]. unfold add_overflow. set (o' := match u_overflow u !! p with Some _ => _ | None => _ end).
  assert (He : e <= or_expires o' ∧ ∀ o, u_overflow u !! p = Some o → or_expires o <= or_expires o').
  { unfold o'. destruct (u_overflow u !! p) as [o0|]; cbn; [|split; [lia|done] ]. pose proof (later_ge (or_expires o0) e).
    split; [lia|]. intros o [= <-]. lia. }
  split; cbn [u_orphans u_orphansOf u_overflow]; auto.
  - intros q k x [[= -> -> ->]|Hx]%elem_of_cons Hlt.
    + right. exists o'. split; [apply lookup_insert_eq|apply He].
    + destruct (Hcov q k x Hx Hlt) as [?|(o & Hk & Hle)]; [by left|right]. destruct (decide (q = p)) as [->|Hne].
      * exists o'. split; [apply lookup_insert_eq|]. pose proof (proj2 He o Hk). lia.
      * exists o. by rewrite lookup_insert_ne.
  - intros k o Hk. destruct (Ho k o Hk) as [q Hq']. exists q. by right.
  - intros q o. destruct (decide (q = p)) as [->|Hne].
    + rewrite lookup_insert_eq. intros [= <-]. unfold o'. destruct (u_overflow u !! p) as [o0|] eqn:E; cbn [or_expires]; [|exists key; by left].
      destruct (later_ge (or_expires o0) e) as (_ & _ & [-> | ->]); [|exists key; by left]. destruct (Hov p o0 E) as [k Hk]. exists k. by right.
    + rewrite lookup_insert_ne by done. intros Hk. destruct (Hov q o Hk) as [k Hk']. exists k. by right.
Qed.

Lemma tables_set_orphan u clock ended key p e o counts :
  tables_ok u clock ended → key ≠ "" → e <= or_expires o →
  (∀ o1, u_orphans u !! key = Some o1 → or_expires o1 <= or_expires o) →
  (∃ q, (q, key, or_expires o) ∈ (p, key, e) :: ended) →
  (∀ q, default 0 (counts !! q) = count_of (<[key := o]> (u_orphans u)) q ∧ count_of (<[key := o]> (u_orphans u)) q <= maxOrphansPerPrincipal) →
  tables_ok (set_orphan u key o counts) clock ((p, key, e) :: ended).
Proof.
  intros [Hc Hq Hn Hcov Ho Hov] Hkey He Hold Hjust Hcount.
  split; cbn [set_orphan u_orphans u_orphansOf u_overflow]; try (intros q; apply Hcount).
  - by rewrite lookup_insert_ne.
  - intros q k x [[= -> -> ->]|Hx]%elem_of_cons Hlt.
    + left. exists o. split; [apply lookup_insert_eq|done].
    + destruct (Hcov q k x Hx Hlt) as [(o1 & Hk1 & Hle)|?]; [left|by right]. destruct (decide (k = key)) as [->|Hne].
      * exists o. split; [apply lookup_insert_eq|]. specialize (Hold o1 Hk1). lia.
      * exists o1. by rewrite lookup_insert_ne.
  - intros k o1. destruct (decide (k = key)) as [->|Hne]; [by rewrite lookup_insert_eq; intros [= <-]|].
    rewrite lookup_insert_ne by done. intros Hk1. destruct (Ho k o1 Hk1) as [q Hq']. exists q. by right.
  - intros q o1 Hk1. destruct (Hov q o1 Hk1) as [k Hk']. exists k. by right.
Qed.

Lemma tables_record u clock ended key p e :
  tables_ok u clock ended → tables_ok (fst (record_ended u key p e)) clock ((p, key, e) :: ended).
Proof.
  intros Ht. unfold record_ended. destruct (String.eqb_spec key "") as [->|Hkey]; [by apply tables_add_overflow|].
  pose proof (t_count _ _ _ Ht) as Hc. pose proof (t_quota _ _ _ Ht) as Hq. destruct (u_orphans u !! key) as [o|] eqn:Hk.
  - cbn [fst]. pose proof (later_ge (or_expires o) e) as Hl. apply tables_set_orphan; [done|done|cbn; lia| | |].
    + intros o1 Hk1. replace o1 with o by congruence. cbn. lia.
    + cbn [or_expires]. destruct Hl as (_ & _ & [-> | ->]); [|exists p; by left].
      destruct (t_orphan _ _ _ Ht key o Hk) as [q Hq']. exists q. by right.
    + intros q. by rewrite (count_insert_same _ _ o), Hc.
  - cbn [negb andb]. destruct (Z.ltb_spec (default 0 (u_orphansOf u !! p)) maxOrphansPerPrincipal) as [Hlt|]; [|by apply tables_add_overflow].
    cbn [fst]. apply tables_set_orphan; [done|done|cbn; lia|congruence|exists p; by left|].
    intros q. rewrite count_insert_new by done. cbn [or_principal]. specialize (Hq q). destruct (decide (p = q)) as [->|Hne].
    + rewrite lookup_insert_eq. cbn. rewrite Hc in *. lia.
    + rewrite lookup_insert_ne by done. rewrite Hc. lia.
Qed.

Lemma tables_cons u clock ended x : tables_ok u clock ended → snd x <= clock → tables_ok u clock (x :: ended).
Proof.
  intros [Hc Hq Hn Hcov Ho Hov] Hx. split; [done..| | |].
  - intros p k e [<-|He]%elem_of_cons Hlt; [cbn in Hx; lia|eauto].
  - intros k o Hk. destruct (Ho k o Hk) as [p Hp]. exists p. by right.
  - intros p o Hk. destruct (Hov p o Hk) as [k Hk']. exists k. by right.
Qed.

Lemma tables_end u clock ended id f now expires :
  tables_ok u clock ended → clock <= now →
  tables_ok (fst (fst (end_call u id f now expires))) now ((if_principal f, if_sessionKey f, expires) :: ended).
Proof.
  intros Ht Hn. unfold end_call. pose proof (tables_heap _ _ _ (u_heap u) (u_calls u ∖ {[ id ]}) Ht) as Hh.
  apply (tables_prune _ _ _ now) in Hh; [|done]. destruct (pruneOrphans _ now) as [u' reaped]. cbn [fst] in Hh.
  destruct (Z.ltb_spec now expires); cbn [negb].
  - pose proof (tables_record u' now ended (if_sessionKey f) (if_principal f) expires Hh) as Hr.
    by destruct (record_ended u' (if_sessionKey f) (if_principal f) expires).
  - cbn [fst]. by apply tables_cons.
Qed.

(** *** Calls and prompts *)

Definition calls_ok (u : upstream_calls) : Prop :=
  (∀ id, id ∈ u_calls u → is_Some (u_heap u !! id)) ∧
  (∀ id f, u_heap u !! id = Some f → 0 <= if_prompts f <= maxPromptsPerCall).

Lemma calls_update u id g : calls_ok u → (∀ f, u_heap u !! id = Some f → 0 <= if_prompts f <= maxPromptsPerCall → 0 <= if_prompts (g f) <= maxPromptsPerCall) →
  calls_ok (update_call u id g).
Proof.
  intros [Hc Hp] Hg. split; cbn.
  - intros i Hi. rewrite lookup_alter_is_Some. auto.
  - intros i f. destruct (decide (i = id)) as [->|Hne].
    + rewrite lookup_alter_eq. intros (f0 & Hf & ->)%fmap_Some. eauto.
    + rewrite lookup_alter_ne by done. apply Hp.
Qed.

Lemma end_call_heap u id f now e : u_heap (fst (fst (end_call u id f now e))) = u_heap u ∧
  u_calls (fst (fst (end_call u id f now e))) = u_calls u ∖ {[ id ]}.
Proof.
  unfold end_call. destruct (pruneOrphans _ now) as [u' reaped] eqn:E. unfold pruneOrphans in E. injection E as <- _.
  destruct (negb _); [done|]. unfold record_ended. destruct (if String.eqb _ _ then _ else _); [done|]. by destruct (_ && _).
Qed.

Definition history_ok (h : history) : Prop := tables_ok (h_u h) (h_clock h) (h_ended h) ∧ calls_ok (h_u h).

Lemma step_calls h h' : calls_ok (h_u h) → call_step h h' → calls_ok (h_u h').
Proof.
  intros Hc Hs. destruct Hs; cbn [h_u].
  - destruct Hc as [Hc Hp]. split; cbn.
    + intros i [->%elem_of_singleton|Hi]%elem_of_union; [rewrite lookup_insert_eq; eauto|].
      rewrite lookup_insert_is_Some'. auto.
    + intros i f. destruct (decide (i = id)) as [->|Hne]; [rewrite lookup_insert_eq; by intros [= <-]|rewrite lookup_insert_ne by done; apply Hp].
  - destruct (end_call_heap (h_u h) id f now expires) as [E1 E2]. destruct Hc as [Hc Hp].
    split; rewrite E1; [rewrite E2; intros i [Hi _]%elem_of_difference; auto|done].
  - exact Hc.
  - unfold startPrompt. destruct (u_heap (h_u h) !! id) as [f|] eqn:Hf; [|done]. destruct (if_prompting f); [done|].
    destruct (Z.leb_spec maxPromptsPerCall (if_prompts f)); [done|]. cbn [fst].
    apply calls_update; [done|]. intros f0 Hf0 Hr. cbn. assert (f0 = f) as -> by congruence. unfold maxPromptsPerCall in *. lia.
  - by apply calls_update.
  - by apply calls_update.
  - by apply calls_update.
  - destruct Hc as [Hc Hp]. split; cbn.
    + intros i Hi. rewrite map_lookup_imap. destruct (Hc i Hi) as [f ->]. cbn. eauto.
    + intros i f. rewrite map_lookup_imap. destruct (u_heap (h_u h) !! i) as [f0|] eqn:E; [|done]. cbn. intros [= <-].
      apply Hp in E. by destruct (decide (i ∈ u_calls (h_u h))).
Qed.

Lemma step_ok h h' : history_ok h → call_step h h' → history_ok h'.
Proof.
  intros [Ht Hc] Hs. split; [|by eapply step_calls]. destruct Hs; cbn [h_u h_clock h_ended].
  - by apply tables_heap.
  - by apply (tables_end _ (h_clock h)).
  - by apply (tables_prune _ (h_clock h)).
  - unfold startPrompt. destruct (u_heap (h_u h) !! id); [|done]. destruct (if_prompting _); [done|].
    destruct (_ <=? _); [done|by apply tables_heap].
  - by apply tables_heap.
  - by apply tables_heap.
  - by apply tables_heap.
  - by apply tables_heap.
Qed.

Lemma reached_ok h : reached h → history_ok h.
Proof.
  induction 1 as [|h h' _ IH Hs]; [|by eapply step_ok]. split; [|split; cbn; [set_solver|by intros id f ?%lookup_empty_Some] ].
  split; cbn; try (intros; set_solver); try done; try (by intros k o ?%lookup_empty_Some).
Qed.

(** Whatever calls begin, end and are refused on an upstream, in any order,
    as long as the clock does not go back: an upstream's prompt is attributed
    to a call only when that call is the only one in flight and every call
    that ended and still counts was its own agent session's, so no prompt of
    another session's call reaches its human; and when it is refused for
    ended calls, such a call there is. *)
Lemma attribute_sound h now :
  reached h → h_clock h <= now →
  match at_err (attribute (h_u h) now) with
  | None => ∃ id f, at_sole (attribute (h_u h) now) = Some id ∧ u_calls (h_u h) = {[ id ]} ∧ u_heap (h_u h) !! id = Some f ∧
      ∀ p k e, (p, k, e) ∈ h_ended h → now < e → k = if_sessionKey f
  | Some (ACount n) => n = Z.of_nat (size (u_calls (h_u h))) ∧ n ≠ 1 ∧ at_sole (attribute (h_u h) now) = None
  | Some errEndedElsewhere => ∃ p k e, (p, k, e) ∈ h_ended h ∧ now < e
  end.
Proof.
  intros Hr Hclock. destruct (reached_ok h Hr) as [Ht [Hcalls _] ]. unfold attribute, size, set_size. cbn.
  destruct (elements (u_calls (h_u h))) as [|id [|id2 l] ] eqn:El; [done| |cbn; split; [done|split; [lia|done] ] ].
  assert (Hsingle : u_calls (h_u h) = {[ id ]}).
  { apply set_eq. intros x. rewrite <- elem_of_elements, El. set_solver. }
  destruct (Hcalls id ltac:(set_solver)) as [f Hf]. rewrite Hf.
  destruct (foreign (h_u h) now (if_sessionKey f)) as [|x ended] eqn:Ef; cbn.
  - exists id, f. split; [done|]. split; [done|]. split; [done|]. intros p k e He Hlt. unfold foreign in Ef.
    apply app_eq_nil in Ef as [E1 E2]. apply fmap_nil_inv in E1, E2.
    destruct (t_cover _ _ _ Ht p k e He ltac:(lia)) as [(o & Hk & Hle)|(o & Hk & Hle)].
    + destruct (String.eqb_spec k (if_sessionKey f)) as [|Hne]; [done|]. exfalso. apply map_to_list_empty_iff in E1.
      assert (Hx : filter (λ kv : string * orphan, (now <? or_expires kv.2) && negb (kv.1 =? if_sessionKey f)%string = true) (u_orphans (h_u h)) !! k = Some o).
      { apply map_lookup_filter_Some. split; [done|]. cbn. rewrite (proj2 (String.eqb_neq _ _) Hne). destruct (Z.ltb_spec now (or_expires o)); [done|lia]. }
      by rewrite E1 in Hx.
    + exfalso. apply map_to_list_empty_iff in E2.
      assert (Hx : filter (λ kv : string * orphan, (now <? or_expires kv.2) = true) (u_overflow (h_u h)) !! p = Some o).
      { apply map_lookup_filter_Some. split; [done|]. cbn. destruct (Z.ltb_spec now (or_expires o)); [done|lia]. }
      by rewrite E2 in Hx.
  - assert (Hin : x ∈ foreign (h_u h) now (if_sessionKey f)) by (rewrite Ef; by left). unfold foreign in Hin.
    apply elem_of_app in Hin as [Hin|Hin]; apply list_elem_of_fmap in Hin as ([k o] & -> & Hin%elem_of_map_to_list);
      apply map_lookup_filter_Some in Hin as [Hk Hlive]; cbn in Hlive.
    + apply andb_prop in Hlive as [Hlive _]. apply Z.ltb_lt in Hlive. destruct (t_orphan _ _ _ Ht k o Hk) as [p Hp]. by exists p, k, (or_expires o).
    + apply Z.ltb_lt in Hlive. destruct (t_over _ _ _ Ht k o Hk) as [k' Hk']. by exists k, k', (or_expires o).
Qed.

(** What one principal's ended calls can take up, and how many prompts one call
    can put to its human. *)
Lemma reached_bounds h : reached h →
  (∀ p, count_of (u_orphans (h_u h)) p <= maxOrphansPerPrincipal ∧
        default 0 (u_orphansOf (h_u h) !! p) = count_of (u_orphans (h_u h)) p) ∧
  (∀ id f, u_heap (h_u h) !! id = Some f → 0 <= if_prompts f <= maxPromptsPerCall).
Proof.
  intros Hr. destruct (reached_ok h Hr) as [Ht [_ Hp] ]. split; [|done]. intros p. split; [apply (t_quota _ _ _ Ht)|apply (t_count _ _ _ Ht)].
Qed.

(** C12: However the calls on an upstream interleave, as long as the clock does
    not go back, an upstream's own elicitation request is put to a human only
    when the upstream speaks the stateful era, exactly one call is in flight,
    every call that ended and still counts was of that call's agent session,
    the agent takes form prompts in a stateful session, no closed argument list
    applies, the call has no prompt open and fewer than ten so far; and it is
    put as the labelled form. *)
Theorem upstreamElicitation_safe `{Unicode} h server handshake closed now ep u' id clean :
  reached h → h_clock h <= now →
  upstreamElicitation server handshake closed (h_u h) now ep = (u', Relayed id clean) →
  handshake = true ∧ u_calls (h_u h) = {[ id ]} ∧
  ∃ f, u_heap (h_u h) !! id = Some f ∧
    (∀ p k e, (p, k, e) ∈ h_ended h → now < e → k = if_sessionKey f) ∧
    if_stateless f = false ∧ if_canElicit f = true ∧ closed (if_tool f) = false ∧
    if_prompting f = false ∧ if_prompts f < maxPromptsPerCall ∧ promptsSoFar u' id = if_prompts f + 1 ∧
    ∃ e, ep = Some e ∧ prompt_ok server e clean.
Proof.
  intros Hr Hclock. set (h' := {| h_u := fst (prune (h_u h) now); h_clock := now; h_ended := h_ended h |}).
  assert (Hr' : reached h') by (eapply reachedS; [exact Hr|by apply CPrune]).
  pose proof (attribute_sound h' now Hr' ltac:(cbn; lia)) as Ha. unfold upstreamElicitation.
  destruct (prune (h_u h) now) as [u reaped] eqn:Ep. cbn [h_u h' fst] in Ha.
  assert (Hsame : u_heap u = u_heap (h_u h) ∧ u_calls u = u_calls (h_u h)) by (unfold prune, pruneOrphans in Ep; by injection Ep as <- _).
  destruct (at_err (attribute u now)) as [er|].
  { destruct (at_sole (attribute u now)) as [i|]; [|done]. destruct (u_heap u !! i); [|done]. by destruct (promptable _). }
  destruct Ha as (i & f & Hsole & Hcalls & Hf & Hended). rewrite Hsole, Hf. destruct handshake; [|done]. cbn [negb].
  unfold promptable. destruct (if_stateless f) eqn:Hst; [done|]. destruct (if_canElicit f) eqn:Hel; [|done]. cbn [negb].
  destruct (closed (if_tool f)) eqn:Hcl; [done|]. pose proof (relabelElicit_spec server (if_tool f) ep) as Hrel.
  destruct (relabelElicit server (if_tool f) ep) as [c|]; [|done]. unfold startPrompt. rewrite Hf.
  destruct (if_prompting f) eqn:Hpr; [done|]. destruct (Z.leb_spec maxPromptsPerCall (if_prompts f)); [done|]. intros [= <- <- <-].
  destruct Hsame as [E1 E2]. rewrite <- E1, <- E2. split; [done|]. split; [done|]. exists f. repeat (split; [done|]).
  split; [|done]. unfold promptsSoFar, update_call. cbn [u_heap set_calls]. rewrite lookup_alter_eq, Hf. done.
Qed.

Definition sample_history : history :=
  {| h_u := begin empty_upstream 0 false true "run" "alice" "s1" 0; h_clock := 0; h_ended := [] |}.

Definition sample_prompt : ElicitParams :=
  {| ep_Mode := ""; ep_Message := "Which site?"; ep_RequestedSchema := ANil; ep_URL := ""; ep_ElicitationID := "" |}.

Lemma upstreamElicitation_safe_witness : u_calls (h_u sample_history) = {[ 0%nat ]}.
Proof.
  destruct (@upstreamElicitation ascii_tables "nb" true (λ _, false) (h_u sample_history) 5 (Some sample_prompt)) as [u' o] eqn:E.
  destruct o as [r|id clean]; [vm_compute in E; discriminate E|].
  assert (id = 0%nat) as -> by (vm_compute in E; by injection E).
  refine (proj1 (proj2 (@upstreamElicitation_safe ascii_tables sample_history "nb" true (λ _, false) 5 (Some sample_prompt) u' 0 clean _ _ E))).
  - eapply reachedS; [apply reached0|]. apply (CBegin history0 0 false true "run" "alice" "s1" 0); [reflexivity|split; discriminate].
  - discriminate.
Defined.
