(* ===== verification/RefusalLog.v ===== *)
(** * The rate limit of refusal lines: internal/proxy/input.go, refusalLimiter

    One table for the Warn lines of refused prompts and requestStates.  Theorem:
    no refusal is lost count of; a key's lines are ten seconds apart unless the
    table was cleared to make room; the table is bounded. *)

From S2P Require Import Prelude GoStd GoCrypto Json Names ReqState Prompts.

Open Scope string_scope.
Open Scope Z_scope.
Open Scope list_scope.

Definition refusalLogInterval : Z := 10.     (* seconds *)
Definition maxRefusalLogKeys : nat := 1024.

Record refusalLogEntry := { le_at : Z; le_suppressed : Z }.

Abbreviation limiter := (gmap string refusalLogEntry) (only parsing).

Definition old_entry (now : Z) (e : refusalLogEntry) : bool := refusalLogInterval <=? now - le_at e.

(** The held-back lines a table counts. *)
Definition held_back (l : limiter) : Z := map_fold (λ _ e n, n + le_suppressed e) 0 l.

(** Make room for a new key: the table and the lines whose count is lost. *)
Definition sweep (l : limiter) (now : Z) : limiter * Z :=
  let dropped := filter (λ kv, old_entry now (snd kv) = true) l in
  let l := filter (λ kv, old_entry now (snd kv) = false) l in
  if (maxRefusalLogKeys <=? size l)%nat then (∅, held_back dropped + held_back l) else (l, held_back dropped).

(** [allow]: the table, whether a line may be logged, and the two counts it
    carries. *)
Definition allow (l : limiter) (key : string) (now : Z) : limiter * (bool * Z * Z) :=
  match l !! key with
  | Some e =>
      if now - le_at e <? refusalLogInterval
      then (<[key := {| le_at := le_at e; le_suppressed := le_suppressed e + 1 |}]> l, (false, 0, 0))
      else (<[key := {| le_at := now; le_suppressed := 0 |}]> l, (true, le_suppressed e, 0))
  | None =>
      let '(l, lost) := if (maxRefusalLogKeys <=? size l)%nat then sweep l now else (l, 0) in
      (<[key := {| le_at := now; le_suppressed := 0 |}]> l, (true, 0, lost))
  end.

(** ** The lines *)

Inductive log_attr := LStr (s : string) | LStrs (l : list string) | LBool (b : bool) | LInt (z : Z).

Definition suppressed_attrs (suppressed lost : Z) : list (string * log_attr) :=
  ("suppressed", LInt suppressed) :: (if 0 <? lost then [("suppressed_lost", LInt lost)] else []).

(** [warnRefusal]: the table and the line, if one is logged. *)
Definition warnRefusal (l : limiter) (now : Z) (server : string) (r : refusal) (attributed : bool) (class : string)
    (who : list string) (attrs : list (string * log_attr)) : limiter * option (list (string * log_attr)) :=
  let key := (server ++ String nul ((if attributed then "true" else "false") ++ String nul (class ++ String nul (join "," who))))%string in
  let '(l, (ok, suppressed, lost)) := allow l key now in
  (l, if ok then Some ([("server", LStr server); ("tool", LStr (rf_tool r)); ("kind", LStr (rf_kind r));
                        ("reason", LStr (rf_reason r)); ("attributed", LBool attributed)] ++ attrs ++ suppressed_attrs suppressed lost)
      else None).

(** [warnState]. *)
Definition warnState (l : limiter) (now : Z) (server tool transport principal reason : string) :
    limiter * option (list (string * log_attr)) :=
  let key := ("state" ++ String nul (server ++ String nul (transport ++ String nul (principal ++ String nul reason))))%string in
  let '(l, (ok, suppressed, lost)) := allow l key now in
  (l, if ok then Some ([("server", LStr server); ("tool", LStr tool); ("transport", LStr transport);
                        ("principal", LStr (logPrincipal principal)); ("reason", LStr reason)] ++ suppressed_attrs suppressed lost)
      else None).

(** ** The counts *)

Lemma held_back_empty : held_back ∅ = 0.
Proof. apply map_fold_empty. Qed.

Lemma held_back_insert_new l k e : l !! k = None → held_back (<[k := e]> l) = held_back l + le_suppressed e.
Proof. intros Hk. unfold held_back. rewrite map_fold_insert_L; [done| |done]. intros. lia. Qed.

Lemma held_back_insert l k e e' : l !! k = Some e → held_back (<[k := e']> l) = held_back l - le_suppressed e + le_suppressed e'.
Proof.
  intros Hk. rewrite <- insert_delete_eq, held_back_insert_new by apply lookup_delete_eq.
  rewrite <- (insert_delete_id l k e Hk) at 2. rewrite held_back_insert_new by apply lookup_delete_eq. lia.
Qed.

Lemma held_back_split (f : refusalLogEntry → bool) l :
  held_back (filter (λ kv, f (snd kv) = true) l) + held_back (filter (λ kv, f (snd kv) = false) l) = held_back l.
Proof.
  induction l as [|k e l Hk IH] using map_ind.
  { rewrite !map_filter_empty, held_back_empty. done. }
  destruct (f e) eqn:Hf.
  - rewrite map_filter_insert_True by done. rewrite map_filter_insert_False by (cbn; congruence). rewrite delete_id by done.
    rewrite !held_back_insert_new; [lia|done|]. apply map_lookup_filter_None. by left.
  - rewrite map_filter_insert_False by (cbn; congruence). rewrite map_filter_insert_True by done. rewrite delete_id by done.
    rewrite !held_back_insert_new; [lia|done|]. apply map_lookup_filter_None. by left.
Qed.

Lemma sweep_counts l now : let '(l', lost) := sweep l now in held_back l = held_back l' + lost.
Proof.
  unfold sweep. pose proof (held_back_split (old_entry now) l) as Hs.
  destruct (_ <=? _)%nat; [rewrite held_back_empty|]; lia.
Qed.

Lemma sweep_small l now : (size (fst (sweep l now)) < maxRefusalLogKeys)%nat.
Proof.
  unfold sweep. destruct (Nat.leb_spec maxRefusalLogKeys (size (filter (λ kv, old_entry now (snd kv) = false) l))); cbn [fst]; [|done].
  rewrite map_size_empty. apply Nat.ltb_lt. by vm_compute.
Qed.

Lemma sweep_keeps l now k e : l !! k = Some e → old_entry now e = false →
  fst (sweep l now) !! k = Some e ∨ fst (sweep l now) = ∅ ∧ (maxRefusalLogKeys <= size (filter (λ kv, old_entry now (snd kv) = false) l))%nat.
Proof.
  intros Hk He. unfold sweep. destruct (Nat.leb_spec maxRefusalLogKeys (size (filter (λ kv, old_entry now (snd kv) = false) l))); cbn [fst]; [by right|].
  left. by apply map_lookup_filter_Some.
Qed.

Lemma allow_counts l key now l' ok suppressed lost : allow l key now = (l', (ok, suppressed, lost)) →
  held_back l + (if ok then 0 else 1) = held_back l' + suppressed + lost.
Proof.
  unfold allow. destruct (l !! key) as [e|] eqn:He.
  - destruct (_ <? _); intros [= <- <- <- <-]; rewrite (held_back_insert _ _ _ _ He); cbn [le_suppressed]; lia.
  - pose proof (sweep_counts l now) as Hs. destruct (maxRefusalLogKeys <=? size l)%nat.
    + destruct (sweep l now) as [l1 lost1] eqn:E. intros [= <- <- <- <-]. rewrite held_back_insert_new; [cbn [le_suppressed]; lia|].
      unfold sweep in E. destruct (_ <=? _)%nat; injection E as <- _; [apply lookup_empty|]. apply map_lookup_filter_None. by left.
    + intros [= <- <- <- <-]. rewrite held_back_insert_new by done. cbn [le_suppressed]. lia.
Qed.

Lemma allow_size l key now l' r : (size l <= maxRefusalLogKeys)%nat → allow l key now = (l', r) → (size l' <= maxRefusalLogKeys)%nat.
Proof.
  intros Hl. unfold allow. destruct (l !! key) as [e|] eqn:He.
  - destruct (_ <? _); intros [= <- _]; by rewrite map_size_insert_Some.
  - destruct (Nat.leb_spec maxRefusalLogKeys (size l)).
    + pose proof (sweep_small l now) as Hs. destruct (sweep l now) as [l1 lost1]. cbn [fst] in Hs. intros [= <- _].
      rewrite map_size_insert. destruct (l1 !! key); cbn; lia.
    + intros [= <- _]. rewrite map_size_insert_None by done. lia.
Qed.

(** Requests at their times, and what each was told. *)
Fixpoint allow_all (l : limiter) (reqs : list (string * Z)) : limiter * list (bool * Z * Z) :=
  match reqs with
  | [] => (l, [])
  | (key, now) :: reqs =>
      let '(l, r) := allow l key now in
      let '(l, rs) := allow_all l reqs in
      (l, r :: rs)
  end.

Definition total (f : bool * Z * Z → Z) (rs : list (bool * Z * Z)) : Z := foldr (λ r n, f r + n) 0 rs.

Lemma allow_all_counts l reqs : (size l <= maxRefusalLogKeys)%nat → let '(l', rs) := allow_all l reqs in
  (size l' <= maxRefusalLogKeys)%nat ∧
  held_back l + total (λ r, if fst (fst r) then 0 else 1) rs = held_back l' + total (λ r, snd (fst r) + snd r) rs.
Proof.
  revert l. induction reqs as [|[key now] reqs IH]; intros l Hl; cbn [allow_all]; [cbn; split; [done|lia]|].
  destruct (allow l key now) as [l1 [[ok suppressed] lost]] eqn:Ha. apply allow_counts in Ha as Hc. apply (allow_size _ _ _ _ _ Hl) in Ha.
  specialize (IH l1 Ha). destruct (allow_all l1 reqs) as [l2 rs]. destruct IH as [IHs IHc]. split; [done|].
  cbn [total foldr fst snd]. fold (total (λ r, if fst (fst r) then 0 else 1) rs) (total (λ r, snd (fst r) + snd r) rs). lia.
Qed.

(** Refusals are logged without flooding the log and without losing count.
    Over any sequence of refusals the table keeps at most 1024 keys, and every
    refusal that was not logged is counted by a later line (as held back for
    its key, or as lost when the table was swept) or is still in the table; a
    key that was logged less than ten seconds ago is not logged again unless
    1024 keys were that young and the whole table was cleared. *)
Theorem allow_accounts :
  (∀ reqs, let '(l, rs) := allow_all ∅ reqs in
     (size l <= maxRefusalLogKeys)%nat ∧
     total (λ r, if fst (fst r) then 0 else 1) rs = total (λ r, snd (fst r) + snd r) rs + held_back l) ∧
  (∀ l key now l' r key' e, l !! key' = Some e → now - le_at e < refusalLogInterval → allow l key now = (l', r) →
     (key = key' → fst (fst r) = false) ∧
     ((∃ e', l' !! key' = Some e' ∧ le_at e' = le_at e) ∨
      l' = {[ key := {| le_at := now; le_suppressed := 0 |} ]} ∧
      (maxRefusalLogKeys <= size (filter (λ kv, old_entry now (snd kv) = false) l))%nat)).
Proof.
  split.
  - intros reqs. pose proof (allow_all_counts ∅ reqs) as Hc. destruct (allow_all ∅ reqs) as [l rs].
    rewrite map_size_empty, held_back_empty in Hc. destruct Hc as [Hs Hc]; [lia|]. split; [done|lia].
  - intros l key now l' r key' e He Hyoung. unfold allow. destruct (decide (key = key')) as [->|Hne].
    + rewrite He. destruct (Z.ltb_spec (now - le_at e) refusalLogInterval); [|lia]. intros [= <- <-]. split; [done|]. left.
      rewrite lookup_insert_eq. by eexists.
    + destruct (l !! key) as [e0|] eqn:H0.
      { destruct (_ <? _); intros [= <- <-]; (split; [done|]); left; rewrite lookup_insert_ne by done; by exists e. }
      destruct (maxRefusalLogKeys <=? size l)%nat.
      * assert (Hold : old_entry now e = false) by (apply Z.leb_gt; lia).
        pose proof (sweep_keeps l now key' e He Hold) as Hk. destruct (sweep l now) as [l1 lost]. cbn [fst] in Hk. intros [= <- <-]. split; [done|].
        destruct Hk as [Hk|[-> Hfull]]; [left; rewrite lookup_insert_ne by done; by exists e|right; by split].
      * intros [= <- <-]. split; [done|]. left. rewrite lookup_insert_ne by done. by exists e.
Qed.
