(* ===== verification/Progress.v ===== *)
(** * The progress relay: internal/proxy/progress.go

    One relay per call: the agent's token, the ordering and rate-limit state,
    the queue its sender drains, and the table of an upstream's tokens.  A relay
    is a state under its lock with three parties: the upstream's notifications,
    the sender and the end of the call.  Theorems: the agent sees its own token,
    rising progress and labelled messages only; at the end of a call that is
    waited for, the newest update is delivered; a token is one call's alone. *)

From S2P Require Import Prelude GoStd Sanitize Label Scrub Stderr.
From Stdlib Require Import SpecFloat.

Open Scope string_scope.
Open Scope Z_scope.
Open Scope list_scope.

(** ** float64 *)

Definition f64_of_Z (z : Z) : spec_float := binary_normalize 53 1024 z 0 false.
Definition f64_add : spec_float → spec_float → spec_float := SFadd 53 1024.
Definition f64_sub : spec_float → spec_float → spec_float := SFsub 53 1024.
Definition f64_mul : spec_float → spec_float → spec_float := SFmul 53 1024.
Definition f64_div : spec_float → spec_float → spec_float := SFdiv 53 1024.

(** The integer part, toward zero; 0 for what has none. *)
Definition f64_trunc (f : spec_float) : Z :=
  match f with S754_finite s m e => cond_Zopp s (Z.shiftl (Zpos m) e) | _ => 0 end.

(** math.Min. *)
Definition f64_min (x y : spec_float) : spec_float :=
  match x, y with
  | S754_infinity true, _ | _, S754_infinity true => S754_infinity true
  | S754_nan, _ | _, S754_nan => S754_nan
  | S754_zero sx, S754_zero sy => S754_zero (sx || sy)
  | _, _ => if SFltb x y then x else y
  end.

Definition second : Z := 1000000000.

(** Duration.Seconds, for a duration in nanoseconds. *)
Definition Seconds (d : Z) : spec_float :=
  f64_add (f64_of_Z (Z.quot d second)) (f64_div (f64_of_Z (Z.rem d second)) (f64_of_Z second)).

(** ** Tokens and messages *)

Definition maxProgressMessage : Z := maxRelayedMessage.
Definition progressBurst : nat := 10.
Definition progressRate : spec_float := f64_of_Z 5.
Definition maxExactInt : Z := 2 ^ 53 - 1.

(** A progressToken as go-sdk hands it over, by its dynamic type. *)
Inductive any_token := NoToken | TokString (s : string) | TokFloat (f : spec_float) | TokInt (z : Z) | TokOther.

Definition is_integer (f : spec_float) : bool :=
  match f with
  | S754_zero _ | S754_infinity _ => true
  | S754_finite _ m e => (0 <=? e) || (Z.pos m mod 2 ^ (- e) =? 0)
  | S754_nan => false
  end.

Definition agentProgressToken (t : any_token) : any_token :=
  match t with
  | TokString _ | TokInt _ => t
  | TokFloat f => if is_integer f && SFleb (SFabs f) (f64_of_Z maxExactInt) then t else NoToken
  | NoToken | TokOther => NoToken
  end.

(** *mcp.ProgressNotificationParams without its _meta. *)
Record notification := { pn_Token : any_token; pn_Progress : spec_float; pn_Total : spec_float; pn_Message : string }.

Definition progressMessage `{Unicode} (server msg : string) : string :=
  if String.eqb msg "" || hasOriginLabel msg then "" else (promptLabel server ++ escapeControl msg maxProgressMessage)%string.

(** ** The relay *)

(** What [mu] guards, and the fields set once; the clock is in nanoseconds. *)
Record progressRelay := {
  pr_server : string; pr_agentToken : any_token;
  pr_done : bool; pr_abandoned : bool; pr_started : bool; pr_last : spec_float;
  pr_tokens : spec_float; pr_refilled : Z;
  pr_held : option notification; pr_queue : list notification; pr_running : bool; pr_sent : Z;
}.

(** [session] says whether the call has one. *)
Definition newProgressRelay (server : string) (token : any_token) (session : bool) (now : Z) : option progressRelay :=
  match token, session with
  | NoToken, _ | _, false => None
  | _, true =>
      Some {| pr_server := server; pr_agentToken := token; pr_done := false; pr_abandoned := false; pr_started := false;
              pr_last := S754_zero false; pr_tokens := f64_of_Z (Z.of_nat progressBurst); pr_refilled := now;
              pr_held := None; pr_queue := []; pr_running := false; pr_sent := 0 |}
  end.

Definition set_bucket (r : progressRelay) (tokens : spec_float) (refilled : Z) : progressRelay :=
  {| pr_server := pr_server r; pr_agentToken := pr_agentToken r; pr_done := pr_done r; pr_abandoned := pr_abandoned r;
     pr_started := pr_started r; pr_last := pr_last r; pr_tokens := tokens; pr_refilled := refilled;
     pr_held := pr_held r; pr_queue := pr_queue r; pr_running := pr_running r; pr_sent := pr_sent r |}.

Definition set_pending (r : progressRelay) (held : option notification) (queue : list notification) : progressRelay :=
  {| pr_server := pr_server r; pr_agentToken := pr_agentToken r; pr_done := pr_done r; pr_abandoned := pr_abandoned r;
     pr_started := pr_started r; pr_last := pr_last r; pr_tokens := pr_tokens r; pr_refilled := pr_refilled r;
     pr_held := held; pr_queue := queue; pr_running := pr_running r; pr_sent := pr_sent r |}.

Definition set_flags (r : progressRelay) (done abandoned : bool) : progressRelay :=
  {| pr_server := pr_server r; pr_agentToken := pr_agentToken r; pr_done := done; pr_abandoned := abandoned;
     pr_started := pr_started r; pr_last := pr_last r; pr_tokens := pr_tokens r; pr_refilled := pr_refilled r;
     pr_held := pr_held r; pr_queue := pr_queue r; pr_running := pr_running r; pr_sent := pr_sent r |}.

(** A notification is accepted, and the sender runs. *)
Definition set_accepted (r : progressRelay) (p : spec_float) : progressRelay :=
  {| pr_server := pr_server r; pr_agentToken := pr_agentToken r; pr_done := pr_done r; pr_abandoned := pr_abandoned r;
     pr_started := true; pr_last := p; pr_tokens := pr_tokens r; pr_refilled := pr_refilled r;
     pr_held := pr_held r; pr_queue := pr_queue r; pr_running := true; pr_sent := pr_sent r |}.

Definition count_sent (r : progressRelay) : progressRelay :=
  {| pr_server := pr_server r; pr_agentToken := pr_agentToken r; pr_done := pr_done r; pr_abandoned := pr_abandoned r;
     pr_started := pr_started r; pr_last := pr_last r; pr_tokens := pr_tokens r; pr_refilled := pr_refilled r;
     pr_held := pr_held r; pr_queue := pr_queue r; pr_running := pr_running r; pr_sent := pr_sent r + 1 |}.

(** [take]; the product and sum are rounded one after the other, which the
    language also lets a compiler fuse. *)
Definition take (r : progressRelay) (now : Z) : progressRelay * bool :=
  let d := now - pr_refilled r in
  let r := if 0 <? d
    then set_bucket r (f64_min (f64_of_Z (Z.of_nat progressBurst)) (f64_add (pr_tokens r) (f64_mul (Seconds d) progressRate))) now
    else r in
  if SFltb (pr_tokens r) (f64_of_Z 1) then (r, false)
  else (set_bucket r (f64_sub (pr_tokens r) (f64_of_Z 1)) (pr_refilled r), true).

Definition push_queue (q : list notification) (p : notification) : list notification :=
  if (List.length q =? progressBurst)%nat then removelast q ++ [p] else q ++ [p].

Definition push (r : progressRelay) (p : notification) : progressRelay := set_pending r (pr_held r) (push_queue (pr_queue r) p).

Definition untilToken (r : progressRelay) (now : Z) : Z :=
  let d := f64_trunc (f64_mul (f64_div (f64_sub (f64_of_Z 1) (pr_tokens r)) progressRate) (f64_of_Z second)) in
  Z.max (d - (now - pr_refilled r)) 1000000.

Definition out_of `{Unicode} (r : progressRelay) (n : notification) : notification :=
  {| pn_Token := pr_agentToken r; pn_Progress := pn_Progress n; pn_Total := pn_Total n;
     pn_Message := progressMessage (pr_server r) (pn_Message n) |}.

(** [relay]: [ended] says whether the agent's request context has. *)
Definition accepts (r : progressRelay) (ended : bool) (n : notification) : bool :=
  negb (pr_done r || ended || (pr_started r && negb (SFltb (pr_last r) (pn_Progress n)))).

Definition relay `{Unicode} (r : progressRelay) (now : Z) (ended : bool) (n : notification) : progressRelay :=
  if negb (accepts r ended n) then r
  else
    let out := out_of r n in
    let '(r, ok) := take (set_accepted r (pn_Progress n)) now in
    if ok then push (set_pending r None (pr_queue r)) out else set_pending r (Some out) (pr_queue r).

(** What one pass of the sender's loop does after the lock: write, return, or
    wait for a ring or (when not zero) a timer. *)
Inductive pass := PWrite (n : notification) | PStop | PWait (d : Z).

Definition run_pass (r : progressRelay) (now : Z) : progressRelay * pass :=
  let r :=
    match pr_held r with
    | Some h => if pr_done r then r
                else let '(r, ok) := take r now in if ok then let r := push r h in set_pending r None (pr_queue r) else r
    | None => r
    end in
  match (if pr_abandoned r then [] else pr_queue r) with
  | n :: q => (set_pending r (pr_held r) q, PWrite n)
  | [] =>
      if pr_abandoned r || pr_done r then (r, PStop)
      else (r, PWait (match pr_held r with Some _ => untilToken r now | None => 0 end))
  end.

(** [finish], up to the wait for the sender, and its giving up. *)
Definition finish (r : progressRelay) (ended : bool) : progressRelay :=
  let r := set_flags r true (pr_abandoned r) in
  let r := match pr_held r with Some h => if ended then r else push r h | None => r end in
  set_pending r None (pr_queue r).

Definition drop_finish (r : progressRelay) : progressRelay := set_pending (set_flags r (pr_done r) true) (pr_held r) [].

(** ** The tokens of an upstream *)

(** u.progress, the relays by address; [draws] are the tokens crypto/rand
    gives. *)
Fixpoint draw (fuel : nat) (progress : gmap string nat) (token : string) (draws : nat → string) (i : nat) : option string :=
  if String.eqb token "" || bool_decide (is_Some (progress !! token)) then
    match fuel with O => None | S fuel => draw fuel progress (draws i) draws (S i) end
  else Some token.

Definition watchProgress (fuel : nat) (progress : gmap string nat) (r : nat) (token : string) (draws : nat → string) :
    option (gmap string nat * string) :=
  (λ t, (<[t := r]> progress, t)) <$> draw fuel progress token draws 0.

Definition unwatchProgress (progress : gmap string nat) (r : nat) (token : string) : gmap string nat :=
  if decide (progress !! token = Some r) then delete token progress else progress.

(** The relay a notification is for. *)
Definition upstreamProgress (progress : gmap string nat) (n : option notification) : option (nat * notification) :=
  match n with
  | Some n => match pn_Token n with TokString t => (λ r, (r, n)) <$> progress !! t | _ => None end
  | None => None
  end.

(** ** Three parties on one relay *)

(** The sender: not started, about to take the lock, writing, waiting for the
    doorbell (or a timer), returned. *)
Inductive sender := SNone | SReady | SWriting | SWaiting (timer : bool) | SExited.

(** The relay with its sender and doorbell, and whether [finish] has yet to
    ring; the notifications whose write has begun, the newest one accepted, and
    whether the end of the call has dropped one. *)
Record session := {
  s_relay : progressRelay; s_sender : sender; s_bell : bool; s_ring : bool;
  s_written : list notification; s_newest : option notification; s_dropped : bool;
}.

Definition session0 (r : progressRelay) : session :=
  {| s_relay := r; s_sender := SNone; s_bell := false; s_ring := false; s_written := []; s_newest := None; s_dropped := false |}.

Definition set_sender (s : session) (r : progressRelay) (snd' : sender) (bell ring : bool) : session :=
  {| s_relay := r; s_sender := snd'; s_bell := bell; s_ring := ring; s_written := s_written s; s_newest := s_newest s; s_dropped := s_dropped s |}.

Definition started_sender (s : sender) : sender := match s with SNone => SReady | _ => s end.

(** After a pass. *)
Definition passed (s : session) (r : progressRelay) (p : pass) : session :=
  {| s_relay := r; s_sender := match p with PWrite _ => SWriting | PStop => SExited | PWait d => SWaiting (0 <? d) end;
     s_bell := s_bell s; s_ring := s_ring s;
     s_written := s_written s ++ match p with PWrite n => [n] | _ => [] end; s_newest := s_newest s; s_dropped := s_dropped s |}.

Section Parties.
Context `{Unicode}.

(** The sender, and the ring of a [finish] that has let the lock go. *)
Inductive sender_step : session → session → Prop :=
  | SPass s now r p : s_sender s = SReady → run_pass (s_relay s) now = (r, p) → sender_step s (passed s r p)
  | SWrote s (ok : bool) : s_sender s = SWriting →
      sender_step s (set_sender s (if ok then count_sent (s_relay s) else s_relay s) SReady (s_bell s) (s_ring s))
  | SWake s b : s_sender s = SWaiting b → s_bell s = true → sender_step s (set_sender s (s_relay s) SReady false (s_ring s))
  | STick s : s_sender s = SWaiting true → sender_step s (set_sender s (s_relay s) SReady (s_bell s) (s_ring s))
  | SRing s : s_ring s = true → sender_step s (set_sender s (s_relay s) (s_sender s) true false).

Inductive relay_step : session → session → Prop :=
  | RSender s s' : sender_step s s' → relay_step s s'
  | RNotify s now ended n :
      relay_step s (if accepts (s_relay s) ended n
        then {| s_relay := relay (s_relay s) now ended n; s_sender := started_sender (s_sender s); s_bell := true; s_ring := s_ring s;
                s_written := s_written s; s_newest := Some (out_of (s_relay s) n); s_dropped := s_dropped s |}
        else s)
  | RFinish s ended :
      relay_step s {| s_relay := finish (s_relay s) ended; s_sender := s_sender s; s_bell := s_bell s;
                      s_ring := s_ring s || pr_running (s_relay s); s_written := s_written s; s_newest := s_newest s;
                      s_dropped := s_dropped s || (ended && match pr_held (s_relay s) with Some _ => true | None => false end) |}
  | RGiveUp s : pr_done (s_relay s) = true →
      relay_step s (set_sender s (drop_finish (s_relay s)) (s_sender s) (s_bell s) (s_ring s)).

(** ** Rising progress *)

Definition rises (a b : notification) : Prop := SFltb (pn_Progress a) (pn_Progress b) = true.

Lemma SFltb_trans a b c : SFltb a b = true → SFltb b c = true → SFltb a c = true.
Proof.
  unfold SFltb. destruct a as [sa|sa| |sa ma ea], b as [sb|sb| |sb mb eb], c as [sc|sc| |sc mc ec];
    try destruct sa; try destruct sb; try destruct sc; cbn; try done.
  all: destruct (Z.compare_spec ea eb), (Z.compare_spec eb ec), (Z.compare_spec ea ec); try done; try lia; subst.
  all: change (Pos.compare_cont Eq) with Pos.compare.
  all: destruct (Pos.compare_spec ma mb), (Pos.compare_spec mb mc), (Pos.compare_spec ma mc); cbn; try done; lia.
Qed.

Lemma SFltb_irrefl a : SFltb a a = true → False.
Proof.
  unfold SFltb. destruct a as [s|s| |s m e]; try destruct s; cbn; try done.
  all: rewrite Z.compare_refl; change (Pos.compare_cont Eq) with Pos.compare; by rewrite Pos.compare_refl.
Qed.

#[local] Instance rises_trans : Transitive rises.
Proof. intros a b c. apply SFltb_trans. Qed.

Lemma rising_drop l x y : StronglySorted rises (l ++ [x; y]) → StronglySorted rises (l ++ [y]).
Proof.
  rewrite !StronglySorted_app. intros (Ha & Hl & Hxy). split; [|split; [done|repeat constructor] ].
  intros a b Ha' ->%list_elem_of_singleton. apply Ha; [done|]. by right; left.
Qed.

Lemma removelast_snoc {A} (l : list A) (x : A) : removelast (l ++ [x]) = l.
Proof. apply removelast_last. Qed.

(** Pushing at most replaces the last one. *)
Lemma push_queue_cases q p :
  push_queue q p = q ++ [p] ∧ (List.length q ≠ progressBurst)%nat ∨
  ∃ q' x, q = q' ++ [x] ∧ push_queue q p = q' ++ [p] ∧ List.length q = progressBurst.
Proof.
  unfold push_queue. destruct (Nat.eqb_spec (List.length q) progressBurst) as [Hl|Hl]; [right|by left].
  induction q as [|x q' _] using rev_ind; [discriminate Hl|]. exists q', x. by rewrite removelast_snoc.
Qed.

Lemma push_queue_rising w q p : StronglySorted rises (w ++ q ++ [p]) → StronglySorted rises (w ++ push_queue q p).
Proof.
  destruct (push_queue_cases q p) as [[-> _]|(q' & x & -> & -> & _)]; [done|].
  rewrite <- !app_assoc. rewrite !(app_assoc w). apply rising_drop.
Qed.

Lemma push_queue_length q p : (List.length q <= progressBurst)%nat → (List.length (push_queue q p) <= progressBurst)%nat.
Proof.
  destruct (push_queue_cases q p) as [[-> Hl]|(q' & x & -> & -> & Hl)]; rewrite !length_app; cbn [List.length]; [lia|].
  rewrite length_app in Hl. cbn [List.length] in Hl. lia.
Qed.

Lemma push_queue_elem q p n : n ∈ push_queue q p → n ∈ q ∨ n = p.
Proof.
  destruct (push_queue_cases q p) as [[-> _]|(q' & x & -> & -> & _)]; rewrite ?elem_of_app, ?list_elem_of_singleton; tauto.
Qed.

Lemma push_queue_last w q p : last (w ++ push_queue q p) = Some p.
Proof. destruct (push_queue_cases q p) as [[-> _]|(q' & x & -> & -> & _)]; by rewrite app_assoc, last_snoc. Qed.

(** ** The invariant *)

Definition pending (r : progressRelay) : list notification := pr_queue r ++ match pr_held r with Some h => [h] | None => [] end.

(** Written, queued and held back, in order. *)
Definition chain (s : session) : list notification := s_written s ++ pending (s_relay s).

Definition own_form (server : string) (token : any_token) (n : notification) : Prop :=
  pn_Token n = token ∧ ∃ msg, pn_Message n = progressMessage server msg.

(** The chain [l] of a relay whose newest accepted progress is [p]. *)
Record chain_ok (server : string) (token : any_token) (p : spec_float) (l : list notification) : Prop := {
  ch_rising : StronglySorted rises l;
  ch_form n : n ∈ l → own_form server token n;
  ch_last n : n ∈ l → pn_Progress n = p ∨ SFltb (pn_Progress n) p = true;
}.

Lemma chain_sub server token p l l' : chain_ok server token p l → StronglySorted rises l' → (∀ n, n ∈ l' → n ∈ l) → chain_ok server token p l'.
Proof. intros [H1 H2 H3] Hs Hin. split; auto. Qed.

(** One more, in the place of the last one or behind it. *)
Lemma chain_push server token p w q h : chain_ok server token p (w ++ q ++ [h]) → chain_ok server token p (w ++ push_queue q h).
Proof.
  intros Hc. eapply chain_sub; [exact Hc|apply push_queue_rising, Hc|].
  intros n. rewrite !elem_of_app, list_elem_of_singleton. intros [?|Hn]; [by left|]. apply push_queue_elem in Hn. tauto.
Qed.

Lemma chain_accept server token p l out : chain_ok server token p l → own_form server token out →
  (l ≠ [] → SFltb p (pn_Progress out) = true) → chain_ok server token (pn_Progress out) (l ++ [out]).
Proof.
  intros [H1 H2 H3] Ho Hp. assert (Hall : ∀ n, n ∈ l → rises n out).
  { intros n Hn. unfold rises. destruct (H3 n Hn) as [->|Hlt]; [|eapply SFltb_trans; [exact Hlt|] ]; apply Hp; intros ->; by apply not_elem_of_nil in Hn. }
  split.
  - apply StronglySorted_app. split; [|split; [done|repeat constructor] ]. by intros a b Ha ->%list_elem_of_singleton; apply Hall.
  - intros n [Hn| ->%list_elem_of_singleton]%elem_of_app; auto.
  - intros n [Hn| ->%list_elem_of_singleton]%elem_of_app; [right; by apply Hall|by left].
Qed.

Lemma chain_prefix server token p a b : chain_ok server token p (a ++ b) → chain_ok server token p a.
Proof.
  intros [H1 H2 H3]. apply StronglySorted_app in H1 as (_ & H1 & _).
  split; [done|..]; intros n Hn; [apply H2|apply H3]; apply elem_of_app; by left.
Qed.

Record session_ok (server : string) (token : any_token) (s : session) : Prop := {
  so_server : pr_server (s_relay s) = server;
  so_token : pr_agentToken (s_relay s) = token;
  so_chain : chain_ok server token (pr_last (s_relay s)) (chain s);
  so_bound : (List.length (pr_queue (s_relay s)) <= progressBurst)%nat;
  so_started : pr_started (s_relay s) = false → chain s = [] ∧ s_newest s = None;
  so_running : pr_running (s_relay s) = pr_started (s_relay s);
  so_done : pr_done (s_relay s) = true → pr_held (s_relay s) = None;
  so_abandoned : pr_abandoned (s_relay s) = true → pr_done (s_relay s) = true ∧ pr_queue (s_relay s) = [];
  so_newest n : s_newest s = Some n → pr_abandoned (s_relay s) = false → s_dropped s = false → last (chain s) = Some n;
}.

(** No wake-up is lost: a sender waits without a ring to come only when there
    is nothing to write and the call goes on. *)
Record sender_ok (s : session) : Prop := {
  se_running : pr_running (s_relay s) = true ↔ s_sender s ≠ SNone;
  se_waiting b : s_sender s = SWaiting b → s_bell s = false → s_ring s = false → pr_queue (s_relay s) = [] ∧ pr_done (s_relay s) = false;
  se_exited : s_sender s = SExited → pr_queue (s_relay s) = [] ∧ pr_done (s_relay s) = true;
}.

Lemma session0_ok server token b now r : newProgressRelay server token b now = Some r → session_ok server token (session0 r).
Proof.
  unfold newProgressRelay. destruct token, b; try done; intros [= <-]; (split; cbn; try done; [split; cbn; [constructor|..]; by intros n ?%not_elem_of_nil|lia]).
Qed.

Lemma take_same r now : ∃ t z, fst (take r now) = set_bucket r t z.
Proof.
  unfold take. destruct (0 <? now - pr_refilled r); destruct (SFltb _ _); cbn [fst]; eauto.
  exists (pr_tokens r), (pr_refilled r). by destruct r.
Qed.

Lemma set_pending_id r : set_pending r (pr_held r) (pr_queue r) = r.
Proof. by destruct r. Qed.

(** A relay that changed in its bucket alone, or moved the held one up. *)
Lemma pass_cases r now r' p : run_pass r now = (r', p) →
  (pr_done r = true → pr_held r = None) → (pr_abandoned r = true → pr_done r = true ∧ pr_queue r = []) →
  ∃ t z q h, (q = pr_queue r ∧ h = pr_held r ∨ (∃ x, pr_held r = Some x ∧ q = push_queue (pr_queue r) x ∧ h = None)) ∧
    match q with
    | n :: q => r' = set_pending (set_bucket r t z) h q ∧ p = PWrite n
    | [] => r' = set_pending (set_bucket r t z) h [] ∧
        if pr_abandoned r || pr_done r then p = PStop else ∃ d, p = PWait d
    end.
Proof.
  intros Hr Hdone Hab. unfold run_pass in Hr.
  assert (Hfin : ∀ t z q h r1, r1 = set_pending (set_bucket r t z) h q →
    (q = pr_queue r ∧ h = pr_held r ∨ (∃ x, pr_held r = Some x ∧ q = push_queue (pr_queue r) x ∧ h = None)) →
    (pr_abandoned r = true → q = []) →
    match (if pr_abandoned r1 then [] else pr_queue r1) with
    | n :: q => (set_pending r1 (pr_held r1) q, PWrite n)
    | [] => if pr_abandoned r1 || pr_done r1 then (r1, PStop) else (r1, PWait (match pr_held r1 with Some _ => untilToken r1 now | None => 0 end))
    end = (r', p) →
    ∃ t z q h, (q = pr_queue r ∧ h = pr_held r ∨ (∃ x, pr_held r = Some x ∧ q = push_queue (pr_queue r) x ∧ h = None)) ∧
    match q with
    | n :: q => r' = set_pending (set_bucket r t z) h q ∧ p = PWrite n
    | [] => r' = set_pending (set_bucket r t z) h [] ∧ if pr_abandoned r || pr_done r then p = PStop else ∃ d, p = PWait d
    end).
  { intros t z q h r1 -> Hq Hqa Hp. exists t, z, q, h. split; [done|]. cbn [pr_abandoned pr_done pr_queue pr_held set_pending set_bucket] in Hp.
    destruct (pr_abandoned r) eqn:Ha; [rewrite (Hqa eq_refl) in *; by injection Hp as <- <-|]. cbn [orb] in *.
    destruct q as [|n q]; [destruct (pr_done r); injection Hp as <- <-; eauto|by injection Hp as <- <-]. }
  destruct (pr_held r) as [x|] eqn:Hh.
  - destruct (pr_done r) eqn:Hd; [by specialize (Hdone eq_refl)|]. pose proof (take_same r now) as (t & z & Ht).
    destruct (take r now) as [r1 ok]. cbn [fst] in Ht. subst r1. destruct ok.
    + eapply (Hfin t z (push_queue (pr_queue r) x) None); [reflexivity|eauto| |exact Hr]. intros Ha. by destruct (Hab Ha).
    + eapply (Hfin t z (pr_queue r) (Some x) (set_bucket r t z)); [rewrite <- Hh; symmetry; apply (set_pending_id (set_bucket r t z))|by left|by intros Ha; destruct (Hab Ha)|exact Hr].
  - eapply (Hfin (pr_tokens r) (pr_refilled r) (pr_queue r) None r); [rewrite <- Hh; by destruct r|by left|by intros Ha; destruct (Hab Ha)|exact Hr].
Qed.

(** A pass of the sender leaves the chain but for a replaced entry. *)
Lemma pass_ok server token s now r p :
  session_ok server token s → pr_started (s_relay s) = true → run_pass (s_relay s) now = (r, p) →
  session_ok server token (passed s r p) ∧ pr_running r = pr_running (s_relay s) ∧
  match p with PWait d => pr_queue r = [] ∧ pr_done r = false | PStop => pr_queue r = [] ∧ pr_done r = true | PWrite _ => True end.
Proof.
  intros [H1 H2 Hc Hb Hst Hrun Hd Ha Hn] Hsame Hp. apply pass_cases in Hp as (t & z & q & h & Hq & Hp); [|done..].
  unfold chain, pending in Hc, Hn.
  assert (Hchain : chain_ok server token (pr_last (s_relay s)) (s_written s ++ q ++ match h with Some h => [h] | None => [] end) ∧
    (List.length q <= progressBurst)%nat ∧
    (∀ n, s_newest s = Some n → pr_abandoned (s_relay s) = false → s_dropped s = false →
       last (s_written s ++ q ++ match h with Some h => [h] | None => [] end) = Some n) ∧
    (pr_done (s_relay s) = true → h = None) ∧ (pr_abandoned (s_relay s) = true → q = [])).
  { destruct Hq as [[-> ->]|(x & Hx & -> & ->)]; [do 4 (split; [done|]); intros Hab; by destruct (Ha Hab)|]. rewrite Hx in Hc, Hn. rewrite !app_nil_r.
    split; [by apply chain_push|]. split; [by apply push_queue_length|]. split.
    - intros n Hn1 Hn2 Hn3. rewrite push_queue_last, <- (Hn n Hn1 Hn2 Hn3). by rewrite app_assoc, last_snoc.
    - split; [done|]. intros Hab. destruct (Ha Hab) as [Hdn _]. rewrite (Hd Hdn) in Hx. done. }
  destruct Hchain as (Hc' & Hb' & Hn' & Hd' & Ha').
  destruct q as [|n q].
  - destruct Hp as [-> Hp]. assert (match p with PWrite n => False | PStop => pr_done (s_relay s) = true | PWait d => pr_done (s_relay s) = false end) as Hx.
    { destruct (pr_abandoned (s_relay s)); cbn [orb] in Hp; [by destruct (Ha eq_refl); subst p|].
      destruct (pr_done (s_relay s)); [by subst p|]. by destruct Hp as [d ->]. }
    assert (match p with PWrite n => [n] | _ => [] end = @nil notification) as Hnil by (by destruct p).
    split; [|split; [done|by destruct p] ].
    split; cbn [s_relay s_sender s_bell s_ring s_written s_newest s_dropped set_sender passed set_pending set_bucket set_flags set_accepted
    pr_server pr_agentToken pr_last pr_queue pr_started pr_running pr_done pr_held pr_abandoned]; rewrite ?Hnil, ?app_nil_r; try done; [|by rewrite Hsame|intros Hab; by destruct (Ha Hab)|];
      unfold chain, pending; cbn [s_relay s_sender s_bell s_ring s_written s_newest s_dropped set_sender passed set_pending set_bucket set_flags set_accepted
    pr_server pr_agentToken pr_last pr_queue pr_started pr_running pr_done pr_held pr_abandoned]; by rewrite Hnil, app_nil_r.
  - destruct Hp as [-> ->]. assert (Happ : ∀ rest, (s_written s ++ [n]) ++ q ++ rest = s_written s ++ (n :: q) ++ rest) by (intros; by rewrite <- !app_assoc).
    split; [|done]. split; cbn [s_relay s_sender s_bell s_ring s_written s_newest s_dropped set_sender passed set_pending set_bucket set_flags set_accepted
    pr_server pr_agentToken pr_last pr_queue pr_started pr_running pr_done pr_held pr_abandoned]; try done.
    + unfold chain, pending. cbn [s_relay s_sender s_bell s_ring s_written s_newest s_dropped set_sender passed set_pending set_bucket set_flags set_accepted
    pr_server pr_agentToken pr_last pr_queue pr_started pr_running pr_done pr_held pr_abandoned]. by rewrite Happ.
    + cbn [List.length] in Hb'. lia.
    + by rewrite Hsame.
    + intros Hab. by specialize (Ha' Hab).
    + unfold chain, pending. cbn [s_relay s_sender s_bell s_ring s_written s_newest s_dropped set_sender passed set_pending set_bucket set_flags set_accepted
    pr_server pr_agentToken pr_last pr_queue pr_started pr_running pr_done pr_held pr_abandoned]. by rewrite Happ.
Qed.

Lemma relay_ok server token s now ended n bell ring :
  session_ok server token s → accepts (s_relay s) ended n = true →
  let r := relay (s_relay s) now ended n in
  session_ok server token {| s_relay := r; s_sender := started_sender (s_sender s); s_bell := bell; s_ring := ring; s_written := s_written s;
                             s_newest := Some (out_of (s_relay s) n); s_dropped := s_dropped s |} ∧ pr_running r = true.
Proof.
  intros [H1 H2 Hc Hb Hst Hrun Hd Ha Hn] Hacc. unfold relay. rewrite Hacc. cbn [negb].
  pose proof (take_same (set_accepted (s_relay s) (pn_Progress n)) now) as (t & z & Ht).
  destruct (take (set_accepted (s_relay s) (pn_Progress n)) now) as [r1 ok]. cbn [fst] in Ht. subst r1. cbv zeta.
  unfold accepts in Hacc. apply negb_true_iff, orb_false_elim in Hacc as [Hacc Hlt]. apply orb_false_elim in Hacc as [Hdone _].
  set (out := out_of (s_relay s) n) in *. unfold chain, pending in Hc, Hst.
  assert (Hnew : chain_ok server token (pn_Progress n) ((s_written s ++ pr_queue (s_relay s)) ++ [out])).
  { change (pn_Progress n) with (pn_Progress out). eapply chain_accept.
    - rewrite app_assoc in Hc. by apply chain_prefix in Hc.
    - split; [exact H2|]. exists (pn_Message n). by rewrite <- H1.
    - intros Hne. destruct (pr_started (s_relay s)) eqn:E.
      + cbn in Hlt. by apply negb_false_iff in Hlt.
      + destruct (Hst eq_refl) as [E' _]. apply app_eq_nil in E' as [E1 E2]. apply app_eq_nil in E2 as [E2 _]. by rewrite E1, E2 in Hne. }
  rewrite <- app_assoc in Hnew. assert (Hab : pr_abandoned (s_relay s) = false).
  { destruct (pr_abandoned (s_relay s)); [|done]. destruct (Ha eq_refl). congruence. }
  split; [|by destruct ok]. destruct ok; (split; unfold push; cbn [s_relay s_sender s_bell s_ring s_written s_newest s_dropped set_sender passed set_pending set_bucket set_flags set_accepted
    pr_server pr_agentToken pr_last pr_queue pr_started pr_running pr_done pr_held pr_abandoned]; try done; try congruence).
  - unfold chain, pending. cbn [s_relay s_sender s_bell s_ring s_written s_newest s_dropped set_sender passed set_pending set_bucket set_flags set_accepted
    pr_server pr_agentToken pr_last pr_queue pr_started pr_running pr_done pr_held pr_abandoned]. rewrite app_nil_r. by apply chain_push.
  - by apply push_queue_length.
  - intros m [= <-] _ _. unfold chain, pending. cbn [s_relay s_sender s_bell s_ring s_written s_newest s_dropped set_sender passed set_pending set_bucket set_flags set_accepted
    pr_server pr_agentToken pr_last pr_queue pr_started pr_running pr_done pr_held pr_abandoned]. rewrite app_nil_r. apply push_queue_last.
  - intros m [= <-] _ _. unfold chain, pending. cbn [s_relay s_sender s_bell s_ring s_written s_newest s_dropped set_sender passed set_pending set_bucket set_flags set_accepted
    pr_server pr_agentToken pr_last pr_queue pr_started pr_running pr_done pr_held pr_abandoned]. by rewrite app_assoc, last_snoc.
Qed.

Lemma finish_ok server token s ended snd' bell ring :
  session_ok server token s →
  session_ok server token {| s_relay := finish (s_relay s) ended; s_sender := snd'; s_bell := bell; s_ring := ring; s_written := s_written s;
                             s_newest := s_newest s;
                             s_dropped := s_dropped s || (ended && match pr_held (s_relay s) with Some _ => true | None => false end) |} ∧
  pr_running (finish (s_relay s) ended) = pr_running (s_relay s).
Proof.
  intros [H1 H2 Hc Hb Hst Hrun Hd Ha Hn]. unfold chain, pending in Hc, Hst, Hn.
  assert (Hf : finish (s_relay s) ended = set_pending (set_flags (s_relay s) true (pr_abandoned (s_relay s))) None
    match pr_held (s_relay s) with Some h => if ended then pr_queue (s_relay s) else push_queue (pr_queue (s_relay s)) h | None => pr_queue (s_relay s) end).
  { unfold finish, push. cbn [pr_held set_flags]. by destruct (pr_held (s_relay s)), ended. }
  rewrite Hf. split; [|done]. split; cbn [s_relay s_sender s_bell s_ring s_written s_newest s_dropped set_sender passed set_pending set_bucket set_flags set_accepted
    pr_server pr_agentToken pr_last pr_queue pr_started pr_running pr_done pr_held pr_abandoned]; try done; unfold chain, pending; cbn [s_relay s_sender s_bell s_ring s_written s_newest s_dropped set_sender passed set_pending set_bucket set_flags set_accepted
    pr_server pr_agentToken pr_last pr_queue pr_started pr_running pr_done pr_held pr_abandoned]; rewrite ?app_nil_r.
  - destruct (pr_held (s_relay s)) as [h|]; [|by rewrite app_nil_r in Hc]. destruct ended; [|by apply chain_push].
    rewrite app_assoc in Hc. by apply chain_prefix in Hc.
  - destruct (pr_held (s_relay s)) as [h|]; [|done]. destruct ended; [done|by apply push_queue_length].
  - intros Hs. destruct (Hst Hs) as (E & E2). destruct (pr_held (s_relay s)) as [h|].
    + by apply app_eq_nil in E as [_ [_ ?]%app_eq_nil].
    + by rewrite app_nil_r in E.
  - intros Hab. destruct (Ha Hab) as [Hdn Hq]. rewrite (Hd Hdn). done.
  - intros m Hm Hab [Hdr Hdr']%orb_false_elim. specialize (Hn m Hm Hab Hdr). destruct (pr_held (s_relay s)) as [h|].
    + destruct ended; [done|]. rewrite push_queue_last, <- Hn. by rewrite app_assoc, last_snoc.
    + by rewrite app_nil_r in Hn.
Qed.

Lemma drop_finish_ok server token s snd' bell ring : session_ok server token s → pr_done (s_relay s) = true →
  session_ok server token (set_sender s (drop_finish (s_relay s)) snd' bell ring).
Proof.
  intros [H1 H2 Hc Hb Hst Hrun Hd Ha Hn] Hdone. unfold chain, pending in Hc, Hst. rewrite (Hd Hdone), app_nil_r in *.
  split; cbn; try done; try lia; unfold chain, pending; cbn; rewrite ?(Hd Hdone), ?app_nil_r; try done.
  - by apply chain_prefix in Hc.
  - intros Hf. destruct (Hst Hf) as (E & ?). by apply app_eq_nil in E as [-> _].
Qed.

(** The sender's state and the bell are nothing to the relay. *)
Lemma set_sender_ok server token s r snd' bell ring : session_ok server token s → r = s_relay s ∨ r = count_sent (s_relay s) →
  session_ok server token (set_sender s r snd' bell ring).
Proof. intros [H1 H2 Hc Hb Hst Hrun Hd Ha Hn] [->| ->]; by split. Qed.

Definition state_ok (server : string) (token : any_token) (s : session) : Prop := session_ok server token s ∧ sender_ok s.

Lemma sender_step_ok server token s s' : state_ok server token s → sender_step s s' → state_ok server token s'.
Proof.
  intros [Hok [Hr Hw He] ] Hs. destruct Hs as [s now r p Hs Hp|s ok Hs|s b Hs Hb|s Hs|s Hring].
  - rewrite Hs in Hr. apply pass_ok with (server := server) (token := token) in Hp as (Hp & Hrun & Hwait); [|done|].
    2:{ rewrite <- (so_running _ _ _ Hok). by apply Hr. }
    split; [done|]. split; cbn [passed s_relay s_sender s_bell s_ring].
    + rewrite Hrun. destruct p; split; try done; intros _; by apply Hr.
    + intros b E _ _. by destruct p.
    + intros E. by destruct p.
  - split; [apply set_sender_ok; [done|destruct ok; auto]|]. rewrite Hs in Hr. split; cbn [set_sender s_relay s_sender s_bell s_ring]; [|done..].
    split; [done|]. intros _. destruct ok; by apply Hr.
  - split; [apply set_sender_ok; auto|]. rewrite Hs in Hr. split; cbn [set_sender s_relay s_sender s_bell s_ring]; [|done..]. split; [done|]. intros _. by apply Hr.
  - split; [apply set_sender_ok; auto|]. rewrite Hs in Hr. split; cbn [set_sender s_relay s_sender s_bell s_ring]; [|done..]. split; [done|]. intros _. by apply Hr.
  - split; [apply set_sender_ok; auto|]. split; cbn [set_sender s_relay s_sender s_bell s_ring]; done.
Qed.

Lemma finish_done r ended : pr_done r = true → pr_held r = None → pr_queue (finish r ended) = pr_queue r.
Proof. intros Hd Hh. unfold finish. cbn [set_flags pr_held]. by rewrite Hh. Qed.

Lemma relay_step_ok server token s s' : state_ok server token s → relay_step s s' → state_ok server token s'.
Proof.
  intros Hst Hs. pose proof Hst as [Hok [Hr Hw He] ]. destruct Hs as [s s' Hs|s now ended n|s ended|s Hdone].
  - by eapply sender_step_ok.
  - destruct (accepts (s_relay s) ended n) eqn:Hacc; [|done].
    destruct (relay_ok server token s now ended n true (s_ring s) Hok Hacc) as [Hok' Hrun]. split; [done|].
    split; cbn [s_relay s_sender s_bell s_ring]; [|done|].
    + rewrite Hrun. split; [intros _; by destruct (s_sender s)|done].
    + intros E. unfold accepts in Hacc. destruct (s_sender s) eqn:Es; try done. destruct (He eq_refl) as [_ Hd]. by rewrite Hd in Hacc.
  - destruct (finish_ok server token s ended (s_sender s) (s_bell s) (s_ring s || pr_running (s_relay s)) Hok) as [Hok' Hrun]. split; [done|].
    split; cbn [s_relay s_sender s_bell s_ring].
    + by rewrite Hrun.
    + intros b E _ [_ Hn]%orb_false_elim. assert (pr_running (s_relay s) = true) by (apply Hr; by rewrite E). congruence.
    + intros E. destruct (He E) as [Hq Hd]. rewrite finish_done by (done || by apply (so_done _ _ _ Hok)).
      split; [done|]. unfold finish. by destruct (pr_held _), ended.
  - split; [by apply drop_finish_ok|]. split; cbn [set_sender s_relay s_sender s_bell s_ring]; [done| |done].
    intros b E Hb Hri. destruct (Hw b E Hb Hri). congruence.
Qed.

(** ** The end of a call *)

(** The steps of the sender left once [finish] has run, and its ring. *)
Definition left_to_do (s : session) : nat :=
  match s_sender s with
  | SNone | SExited => 0
  | SReady => 2 * List.length (pr_queue (s_relay s)) + 1
  | SWriting | SWaiting _ => 2 * List.length (pr_queue (s_relay s)) + 2
  end + (if s_ring s then 1 else 0).

Definition ending (s : session) : Prop :=
  pr_done (s_relay s) = true ∧ pr_abandoned (s_relay s) = false ∧ pr_held (s_relay s) = None.

Lemma ending_step s s' : ending s → sender_step s s' →
  ending s' ∧ left_to_do s = S (left_to_do s') ∧ s_written s' ++ pr_queue (s_relay s') = s_written s ++ pr_queue (s_relay s) ∧
  (s_sender s ≠ SNone → s_sender s' ≠ SNone).
Proof.
  intros (Hd & Ha & Hh) Hs. destruct Hs as [s now r p Hs Hp|s ok Hs|s b Hs Hb|s Hs|s Hring]; unfold left_to_do, ending;
    cbn [set_sender passed s_relay s_sender s_ring s_written].
  - rewrite Hs. unfold run_pass in Hp. rewrite Hh, Ha, Hd in Hp. destruct (pr_queue (s_relay s)) as [|n q] eqn:Hq; injection Hp as <- <-.
    + rewrite Hq, app_nil_r. done.
    + cbn [set_pending pr_done pr_abandoned pr_held pr_queue List.length]. rewrite <- app_assoc. do 3 (split; [done || lia|]). done.
  - rewrite Hs. destruct ok; cbn [count_sent pr_done pr_abandoned pr_held pr_queue]; (split; [done|]; split; [lia|done]).
  - rewrite Hs. split; [done|]. split; [lia|done].
  - rewrite Hs. split; [done|]. split; [lia|done].
  - rewrite Hring. split; [done|]. split; [lia|done].
Qed.

Lemma ending_enabled s : ending s → sender_ok s → left_to_do s ≠ O → ∃ s', sender_step s s'.
Proof.
  intros (Hd & Ha & Hh) [Hr Hw He] Hl. unfold left_to_do in Hl. destruct (s_ring s) eqn:Hring; [eexists; by apply SRing|].
  destruct (s_sender s) as [| | |b|] eqn:Hs; try done.
  - destruct (run_pass (s_relay s) 0) as [r p] eqn:Hp. eexists. by apply (SPass s 0 r p).
  - eexists. by apply (SWrote s true).
  - destruct (s_bell s) eqn:Hb; [eexists; by eapply SWake|]. destruct (Hw b eq_refl eq_refl eq_refl). congruence.
Qed.

Lemma ending_steps server token n s s' : ending s → state_ok server token s → nsteps sender_step n s s' →
  ending s' ∧ state_ok server token s' ∧ left_to_do s = (n + left_to_do s')%nat ∧
  s_written s' ++ pr_queue (s_relay s') = s_written s ++ pr_queue (s_relay s) ∧ (s_sender s ≠ SNone → s_sender s' ≠ SNone).
Proof.
  intros He Hok Hn. induction Hn as [s|n s s1 s' Hs Hn IH]; [done|]. destruct (ending_step s s1 He Hs) as (He1 & Hl & Hw & H1).
  apply (sender_step_ok _ _ _ _ Hok) in Hs. destruct (IH He1 Hs) as (He' & Hok' & Hl' & Hw' & H1').
  split; [done|]. split; [done|]. split; [lia|]. split; [congruence|auto].
Qed.

Lemma relay_reached_ok server token b now r s :
  newProgressRelay server token b now = Some r → rtc relay_step (session0 r) s → state_ok server token s.
Proof.
  intros Hr Hs. assert (state_ok server token (session0 r)) as Hok.
  { split; [by eapply session0_ok|]. split; cbn; [|done..]. unfold newProgressRelay in Hr. by destruct token, b; simplify_eq/=. }
  clear Hr. induction Hs as [|s1 s2 s3 H1 H2 IH]; [done|]. apply IH. by eapply relay_step_ok.
Qed.
End Parties.

(** Whatever the upstream sends and however slow the agent is, the progress
    notifications written for a call carry the agent's own token and a message
    of fathomgate's making, their progress rises from each to the next, at most
    ten wait in the queue; none is accepted once the call has ended, and no
    write begins after the end of the call has given up. *)
Theorem progress_in_order `{Unicode} server token b now r s :
  newProgressRelay server token b now = Some r → rtc relay_step (session0 r) s →
  StronglySorted rises (s_written s) ∧ (∀ n, n ∈ s_written s → own_form server token n) ∧
  (List.length (pr_queue (s_relay s)) <= progressBurst)%nat ∧
  (pr_done (s_relay s) = true → ∀ ended n, accepts (s_relay s) ended n = false) ∧
  (pr_abandoned (s_relay s) = true → ∀ t r' n, run_pass (s_relay s) t ≠ (r', PWrite n)).
Proof.
  intros Hr Hs. destruct (relay_reached_ok _ _ _ _ _ _ Hr Hs) as [ [H1 H2 Hc Hb Hst Hrun Hd Ha Hn] _]. apply chain_prefix in Hc as [Hc1 Hc2 _].
  do 3 (split; [done|]). split.
  - intros Hdone ended n. unfold accepts. by rewrite Hdone.
  - intros Hab t r' n Hp. destruct (Ha Hab) as [Hdone _]. unfold run_pass in Hp. rewrite (Hd Hdone), Hab in Hp. done.
Qed.

(** C34: At the end of a call that waits for its progress, no wake-up is lost:
    the sender always comes to its end, after at most two steps for each queued
    notification and three more; by then it has begun to write everything that
    was queued, in order, and if the agent's request had not ended, the last of
    it is the newest update the relay ever accepted. *)
Theorem progress_delivered `{Unicode} server token b now r s k s' :
  newProgressRelay server token b now = Some r → rtc relay_step (session0 r) s →
  pr_done (s_relay s) = true → pr_abandoned (s_relay s) = false → nsteps sender_step k s s' →
  (k <= 2 * List.length (pr_queue (s_relay s)) + 3)%nat ∧
  ((∃ s'', sender_step s' s'') ∨
   (s_sender s ≠ SNone → s_sender s' = SExited ∧ s_written s' = s_written s ++ pr_queue (s_relay s) ∧
      ∀ n, s_newest s = Some n → s_dropped s = false → last (s_written s') = Some n)).
Proof.
  intros Hr Hs Hdone Hab Hk. pose proof (relay_reached_ok _ _ _ _ _ _ Hr Hs) as Hok. pose proof (so_done _ _ _ (proj1 Hok) Hdone) as Hheld.
  destruct (ending_steps _ _ k s s' (conj Hdone (conj Hab Hheld)) Hok Hk) as (He' & [Hok' Hse'] & Hl & Hw & Hne). split.
  { unfold left_to_do in Hl. destruct (s_sender s), (s_ring s); lia. }
  destruct (decide (left_to_do s' = O)) as [E|E]; [right|left; by apply ending_enabled]. intros Hsn. specialize (Hne Hsn).
  assert (s_sender s' = SExited) as Hex by (unfold left_to_do in E; destruct (s_sender s'); done || lia). split; [done|].
  rewrite (proj1 (se_exited _ Hse' Hex)), app_nil_r in Hw. split; [done|]. intros n Hn Hdr. rewrite Hw.
  pose proof (so_newest _ _ _ (proj1 Hok) n Hn Hab Hdr) as Hlast. unfold chain, pending in Hlast. by rewrite Hheld, app_nil_r in Hlast.
Qed.

(** ** Tokens *)

Definition taken (progress : gmap string nat) (t : string) : Prop := t = "" ∨ is_Some (progress !! t).

Lemma draw_None fuel progress token draws i : draw fuel progress token draws i = None →
  taken progress token ∧ ∀ j, (j < fuel)%nat → taken progress (draws (i + j)%nat).
Proof.
  revert token i. induction fuel as [|fuel IH]; intros token i; cbn [draw].
  all: destruct (String.eqb token "" || bool_decide (is_Some (progress !! token))) eqn:E; [|done].
  all: assert (taken progress token) as Ht by (apply orb_true_iff in E as [->%String.eqb_eq|E%bool_decide_eq_true]; [by left|by right]).
  - intros _. split; [done|]. lia.
  - intros [Hd Hr]%IH. split; [done|]. intros [|j] Hj; [by rewrite Nat.add_0_r|].
    replace (i + S j)%nat with (S i + j)%nat by lia. apply Hr. lia.
Qed.

Lemma draw_Some fuel progress token draws i t : draw fuel progress token draws i = Some t →
  ¬ taken progress t ∧ (t = token ∨ ∃ j, t = draws j).
Proof.
  revert token i. induction fuel as [|fuel IH]; intros token i; cbn [draw].
  all: destruct (String.eqb token "" || bool_decide (is_Some (progress !! token))) eqn:E.
  1: done. 2: intros Hd; apply IH in Hd as [Hf [-> |Hj] ]; (split; [done|right; eauto]).
  all: intros [= <-]; apply orb_false_elim in E as [E1%String.eqb_neq E2%bool_decide_eq_false]; (split; [by intros [?|?]|by left]).
Qed.

(** A call's upstream token is always drawn, within one draw more than the
    upstream has calls, as long as those draws are distinct and not empty; the
    token is no other call's, every other call keeps its own, and a
    notification reaches the call whose token it names, from then until the
    call is unwatched and not after. *)
Theorem watchProgress_fresh progress r token draws :
  (∀ i, (i <= size progress)%nat → draws i ≠ "") →
  (∀ i j, (i <= size progress)%nat → (j <= size progress)%nat → draws i = draws j → i = j) →
  ∃ t, watchProgress (S (size progress)) progress r token draws = Some (<[t := r]> progress, t) ∧
    t ≠ "" ∧ progress !! t = None ∧
    (∀ n, pn_Token n = TokString t → upstreamProgress (<[t := r]> progress) (Some n) = Some (r, n)) ∧
    (∀ t' n, t' ≠ t → pn_Token n = TokString t' → upstreamProgress (<[t := r]> progress) (Some n) = upstreamProgress progress (Some n)) ∧
    unwatchProgress (<[t := r]> progress) r t = progress.
Proof.
  intros Hne Hinj. unfold watchProgress. destruct (draw (S (size progress)) progress token draws 0) as [t|] eqn:Hd.
  - apply draw_Some in Hd as [Hfree _]. exists t. split; [done|]. split; [intros ->; by apply Hfree; left|].
    assert (progress !! t = None) as Hn by (apply eq_None_not_Some; intros Hs; apply Hfree; by right). split; [done|].
    split; [intros n Hn'; unfold upstreamProgress; by rewrite Hn', lookup_insert_eq|].
    split; [intros t' n Hne' Hn'; unfold upstreamProgress; by rewrite Hn', lookup_insert_ne|].
    unfold unwatchProgress. rewrite lookup_insert_eq. destruct (decide _); [by apply delete_insert_id|done].
  - exfalso. apply draw_None in Hd as [_ Hall]. cbn [Nat.add] in Hall.
    set (l := map draws (seq 0 (S (size progress)))).
    assert (NoDup l) as Hnd.
    { apply NoDup_fmap_2_strong; [|apply NoDup_seq]. intros i j Hi%elem_of_seq Hj%elem_of_seq. apply Hinj; lia. }
    assert (list_to_set l ⊆ (dom progress : gset string)) as Hsub.
    { intros t Ht. rewrite elem_of_list_to_set in Ht. apply list_elem_of_fmap in Ht as (i & -> & Hi%elem_of_seq).
      destruct (Hall i ltac:(lia)) as [He|Hs]; [by destruct (Hne i ltac:(lia))|by apply elem_of_dom]. }
    apply subseteq_size in Hsub. rewrite size_list_to_set in Hsub by done. rewrite size_dom in Hsub.
    unfold l in Hsub. rewrite length_map, length_seq in Hsub. lia.
Qed.

(** ** A call that reports twice *)

Definition sample_relay : progressRelay :=
  match newProgressRelay "nb" (TokString "p1") true 0 with
  | Some r => r
  | None => {| pr_server := ""; pr_agentToken := NoToken; pr_done := false; pr_abandoned := false; pr_started := false; pr_last := S754_nan;
               pr_tokens := S754_nan; pr_refilled := 0; pr_held := None; pr_queue := []; pr_running := false; pr_sent := 0 |}
  end.

Definition sample_note (n : Z) : notification :=
  {| pn_Token := TokString "up"; pn_Progress := f64_of_Z n; pn_Total := f64_of_Z 2; pn_Message := "step" |}.

Definition notify (s : session) (n : notification) : session :=
  {| s_relay := @relay ascii_tables (s_relay s) 0 false n; s_sender := started_sender (s_sender s); s_bell := true; s_ring := s_ring s;
     s_written := s_written s; s_newest := Some (@out_of ascii_tables (s_relay s) n); s_dropped := s_dropped s |}.

Definition two_notes : session := notify (notify (session0 sample_relay) (sample_note 1)) (sample_note 2).

Definition ended_session : session :=
  {| s_relay := finish (s_relay two_notes) false; s_sender := s_sender two_notes; s_bell := s_bell two_notes;
     s_ring := s_ring two_notes || pr_running (s_relay two_notes); s_written := s_written two_notes;
     s_newest := s_newest two_notes; s_dropped := false |}.

Lemma notify_step s n : accepts (s_relay s) false n = true → @relay_step ascii_tables s (notify s n).
Proof. intros Ha. pose proof (@RNotify ascii_tables s 0 false n) as Hs. rewrite Ha in Hs. exact Hs. Qed.

Lemma ended_reached : rtc (@relay_step ascii_tables) (session0 sample_relay) ended_session.
Proof.
  eapply rtc_l; [apply (notify_step _ (sample_note 1)); vm_compute; reflexivity|].
  eapply rtc_l; [apply (notify_step _ (sample_note 2)); vm_compute; reflexivity|].
  apply rtc_once. exact (@RFinish ascii_tables two_notes false).
Qed.

Lemma progress_in_order_witness : (List.length (pr_queue (s_relay ended_session)) <= progressBurst)%nat.
Proof.
  destruct (@progress_in_order ascii_tables "nb" (TokString "p1") true 0 sample_relay ended_session eq_refl ended_reached) as (_ & _ & Hq & _).
  exact Hq.
Defined.

Lemma progress_delivered_witness : ∃ s', sender_step ended_session s' ∧ s_sender ended_session = SReady.
Proof.
  destruct (@progress_delivered ascii_tables "nb" (TokString "p1") true 0 sample_relay ended_session 0 ended_session eq_refl ended_reached
              eq_refl eq_refl (nsteps_O _ _)) as [_ [[s' Hs]|Hend]].
  - exists s'. split; [exact Hs|reflexivity].
  - destruct Hend as [Hx _]; [discriminate|]. vm_compute in Hx. discriminate Hx.
Defined.

Lemma watchProgress_fresh_witness : ∃ t, watchProgress 2 {[ "a" := 7%nat ]} 8 "" (λ i, if (i =? 0)%nat then "a" else "b") =
  Some (<[t := 8%nat]> {[ "a" := 7%nat ]}, t) ∧ t ≠ "".
Proof.
  destruct (watchProgress_fresh {[ "a" := 7%nat ]} 8 "" (λ i, if (i =? 0)%nat then "a" else "b")) as (t & Ht & Hne & _).
  - intros i _. by destruct (i =? 0)%nat.
  - intros i j. rewrite map_size_singleton. intros Hi Hj. destruct i as [|[|i]], j as [|[|j]]; try lia; done.
  - exists t. split; [exact Ht|exact Hne].
Defined.
