(* ===== verification/Forward.v ===== *)
(** * Forwarding one call: internal/proxy/proxy.go

    [forward] and what it calls: the request to the upstream, its rounds of
    input, the prompts put to a stateful agent, the sealed state given to a
    stateless one, and the result the agent sees.  The upstream, the agent, the
    clock and other calls' operations on the same upstream are an environment
    [Env] that answers by the events so far. *)

From S2P Require Import Prelude GoStd Sanitize Label GoCrypto Json JsonCompact JsonMarshal JsonStruct.
From S2P Require Import Scrub Stderr ReqState Schema Names Prompts Attribution.

Open Scope string_scope.
Open Scope Z_scope.
Open Scope list_scope.

(** ** Messages *)

(** mcp.Content: text, or content the proxy passes on unread. *)
Inductive content := TextContent (text : string) | OtherContent (raw : any).

(** *mcp.CallToolResult as an upstream sends it. *)
Record CallToolResult := {
  ct_Content : list content; ct_Structured : any; ct_IsError : bool; ct_Meta : any;
  ct_NeedsInput : bool; ct_InputRequests : list (string * InputRequest); ct_RequestState : string;
}.

(** *mcp.CallToolParams as the proxy sends it; no _meta but the progress token. *)
Record CallToolParams := {
  pa_Name : string; pa_Arguments : option string;
  pa_InputResponses : gmap string ElicitResult; pa_RequestState : string; pa_ProgressToken : option string;
}.

(** What the agent gets: a result, a request for input, a JSON-RPC error, or
    the end of its own context. *)
Inductive answer :=
  | AResult (content : list content) (structured : any) (isError : bool)
  | AInput (reqs : gmap string ElicitParams) (state : string)
  | AError (code : Z) (message : string) (data : string)
  | ACancelled.

Definition toolError (text : string) : answer := AResult [TextContent text] ANil true.

Definition passResult (res : CallToolResult) : answer := AResult (ct_Content res) (ct_Structured res) (ct_IsError res).

Definition withRefusals (res : answer) (own note : option refusal) : answer :=
  match res with
  | AResult content structured isError =>
      let add content r := match r with Some r => content ++ [TextContent (refusal_Error r)] | None => content end in
      AResult (foldl add content [own; note]) structured isError
  | _ => res
  end.

(** How a call on the upstream fails, as callFailed tells the cases apart;
    [exited] is what awaitExit reports. *)
Inductive call_error :=
  | FRefusal (r : refusal) | FRPC (code : Z) (message : string) | FClosed | FOther (text : string) (exited : bool).

(** ** The environment *)

Inductive event :=
  | ToUpstream (p : CallToolParams)
  | ToAgent (id : string) (prompt : ElicitParams).

(** Each answer also says how the upstream's table of calls has changed
    meanwhile, and whether the agent's context has ended. *)
Class Env := {
  env_call : list event → upstream_calls → upstream_calls * (bool * result call_error (option CallToolResult));
  env_elicit : list event → upstream_calls → upstream_calls * (bool * option (option ElicitResult));
  env_now : list event → Z;                  (* seconds *)
  env_nonce : list event → option string;
}.

(** The fields of a call, its route and its upstream. *)
Record fwd_call := {
  fc_server : string; fc_tool : string; fc_arguments : string;
  fc_upArguments : option string;            (* when the gate has let it through *)
  fc_stateless : bool; fc_canElicit : bool; fc_binding : stateBinding;
  fc_sessionKey : string;
  fc_requestState : string; fc_responses : list (string * InputResponse);
  fc_resumed : option resumed;               (* opened before the decision *)
  fc_closed : bool;                          (* argumentsClosed *)
  fc_upToken : option string;                (* the progress token drawn for the upstream *)
  fc_red : option Redactor;
}.

Definition retry_of (c : fwd_call) : retry :=
  {| rt_server := fc_server c; rt_tool := fc_tool c; rt_arguments := fc_arguments c; rt_binding := fc_binding c;
     rt_requestState := fc_requestState c; rt_responses := fc_responses c |}.

Definition upstreamDown (server : string) : answer := toolError ("upstream " ++ server ++ " is not running; restart fathomgate serve").

Section Forward.
Context `{Unicode} `{AEAD} `{Env}.

(** The trace so far, oldest first, and the upstream's table. *)
Record world := { w_trace : list event; w_u : upstream_calls }.

Definition set_u (w : world) (u : upstream_calls) : world := {| w_trace := w_trace w; w_u := u |}.

Definition call_upstream (w : world) (p : CallToolParams) : world * (bool * result call_error (option CallToolResult)) :=
  let tr := w_trace w ++ [ToUpstream p] in
  let '(u, r) := env_call tr (w_u w) in ({| w_trace := tr; w_u := u |}, r).

Definition ask (w : world) (id : string) (prompt : ElicitParams) : world * (bool * option (option ElicitResult)) :=
  let tr := w_trace w ++ [ToAgent id prompt] in
  let '(u, r) := env_elicit tr (w_u w) in ({| w_trace := tr; w_u := u |}, r).

(** [callFailed]; the log line is left out. *)
Definition callFailed (c : fwd_call) (ctx_done : bool) (e : call_error) : answer :=
  if ctx_done then ACancelled
  else match e with
  | FRefusal r => toolError (refusal_Error r)
  | FRPC code message => let '(code, message) := relayUpstreamError (fc_server c) code message (fc_red c) in AError code message ""
  | FClosed | FOther _ true => upstreamDown (fc_server c)
  | FOther text false =>
      toolError ("upstream " ++ fc_server c ++ ": calling " ++ fc_tool c ++ " failed: " ++
                 escapeControl (Redact (fc_red c) text) maxRelayedMessage)
  end.

(** [askAgent]: one prompt at a time, in id order; [inr] is what to return
    instead of the answers. *)
Fixpoint askAgent (c : fwd_call) (f : nat) (reqs : list (string * ElicitParams)) (out : gmap string ElicitResult) (w : world) :
    world * (gmap string ElicitResult + answer) :=
  match reqs with
  | [] => (w, inl out)
  | (id, prompt) :: reqs =>
      match startPrompt (w_u w) f with
      | (_, Some why) =>
          let r := newRefusal (fc_server c) (fc_tool c) "input_required" why in
          (set_u w (refuse (w_u w) f r), inr (toolError (refusal_Error r)))
      | (u, None) =>
          let '(w, (ctx_done, res)) := ask (set_u w u) id prompt in
          let w := set_u w (endPrompt (w_u w) f) in
          match (match res with Some r => cleanElicitResult r | None => Err "" end) with
          | Ok clean => askAgent c f reqs (<[id := clean]> out) w
          | Err _ =>
              if ctx_done then (w, inr ACancelled)
              else (w, inr (toolError ("fathomgate could not relay an input request from upstream " ++ fc_server c ++ " during " ++ fc_tool c ++
                      " to the agent: the client did not answer it, or its answer did not fit the form")))
          end
      end
  end.

(** The requests in id order. *)
Definition sorted_requests (reqs : gmap string ElicitParams) : list (string * ElicitParams) :=
  omap (λ id, (λ p, (id, p)) <$> reqs !! id) (sort_strings (elements (dom reqs : gset string))).

Definition errTooManyRounds : string := ("more than " ++ itoa maxInputRounds ++ " rounds of input in one call")%string.
Definition errUpstreamState : string := "the upstream's requestState is too large".

(** The checks of a request for input, in order. *)
Definition check_input (c : fwd_call) (f : nat) (round : Z) (w : world) (res : CallToolResult) : result refusal (gmap string ElicitParams) :=
  match relabelInputRequests (fc_server c) (fc_tool c) (ct_InputRequests res) with
  | Err r => Err r
  | Ok reqs =>
      let refused kind why := Err (newRefusal (fc_server c) (fc_tool c) kind why) in
      if fc_closed c then refused "input_required" errPromptsUnchecked
      else if negb (fc_canElicit c) then refused "elicitation" errNoFormElicitation
      else if maxInputRounds <=? round then refused "input_required" errTooManyRounds
      else if maxPromptsPerCall <? promptsSoFar (w_u w) f + Z.of_nat (size reqs) then refused "input_required" errTooManyPrompts
      else if maxRequestState <? slen (ct_RequestState res) then refused "input_required" errUpstreamState
      else Ok reqs
  end.

Definition refuse_call (w : world) (f : nat) (r : refusal) : world * answer := (set_u w (refuse (w_u w) f r), toolError (refusal_Error r)).

(** The state sealed for a stateless agent. *)
Definition state_for (c : fwd_call) (f : nat) (round : Z) (w : world) (res : CallToolResult) (reqs : gmap string ElicitParams) : sealedState :=
  {| ss_Server := fc_server c; ss_Tool := fc_tool c; ss_Args := argsDigest (fc_arguments c);
     ss_IDs := Some (map fst (sorted_requests reqs)); ss_Up := ct_RequestState res; ss_Round := round + 1;
     ss_Prompts := promptsSoFar (w_u w) f + Z.of_nat (size reqs); ss_Exp := 0 |}.

(** The body of the loop of [forward]: what to return, or the next request. *)
Definition one_round (c : fwd_call) (f : nat) (params : CallToolParams) (round : Z) (w : world) : world * (CallToolParams + answer) :=
  let '(w, (ctx_done, res)) := call_upstream w params in
  let '(own, note) := refusalsFor (w_u w) f in
  match res with
  | Err e =>
      match own with
      | Some r => if ctx_done then (w, inr (callFailed c ctx_done e)) else (w, inr (toolError (refusal_Error r)))
      | None => (w, inr (callFailed c ctx_done e))
      end
  | Ok None => (w, inr (toolError ("upstream " ++ fc_server c ++ " returned no result for " ++ fc_tool c)))
  | Ok (Some res) =>
      if negb (ct_NeedsInput res) then (w, inr (withRefusals (passResult res) own note))
      else if (List.length (ct_InputRequests res) =? 0)%nat then
        (w, inr (toolError ("upstream " ++ fc_server c ++ " is busy (input_required with no requests); retry " ++ fc_tool c ++ " later")))
      else match check_input c f round w res with
      | Err r => let '(w, a) := refuse_call w f r in (w, inr a)
      | Ok reqs =>
          if fc_stateless c then
            match seal (env_now (w_trace w)) (env_nonce (w_trace w)) (state_for c f round w res reqs) (fc_binding c) with
            | Err e => let '(w, a) := refuse_call w f (newRefusal (fc_server c) (fc_tool c) "input_required" (state_error_text e)) in (w, inr a)
            | Ok state => (w, inr (AInput reqs state))
            end
          else match askAgent c f (sorted_requests reqs) ∅ w with
          | (w, inr stop) => (w, inr stop)
          | (w, inl answers) =>
              (w, inl {| pa_Name := pa_Name params; pa_Arguments := pa_Arguments params; pa_InputResponses := answers;
                         pa_RequestState := ct_RequestState res; pa_ProgressToken := pa_ProgressToken params |})
          end
      end
  end.

(** The loop; [fuel] bounds the rounds, [None] if it runs out. *)
Fixpoint rounds (fuel : nat) (c : fwd_call) (f : nat) (params : CallToolParams) (round : Z) (w : world) : option (world * answer) :=
  match fuel with
  | O => None
  | S fuel =>
      match one_round c f params round w with
      | (w, inr a) => Some (w, a)
      | (w, inl params) => rounds fuel c f params (round + 1) w
      end
  end.

(** The arguments as the upstream gets them. *)
Definition sent_arguments (c : fwd_call) : option string :=
  let args := default (fc_arguments c) (fc_upArguments c) in
  if (0 <? slen args) && negb (String.eqb args "null") then Some args else None.

(** What the retry carries on, if the call is one. *)
Definition resumed_of (c : fwd_call) (now : Z) : result rpc_error resumed :=
  if String.eqb (fc_requestState c) "" then Ok {| rs_responses := ∅; rs_upState := ""; rs_round := 0; rs_prompts := 0 |}
  else match fc_resumed c with Some rs => Ok rs | None => snd (resume now (retry_of c)) end.

Definition first_params (c : fwd_call) (rs : resumed) : CallToolParams :=
  {| pa_Name := fc_tool c; pa_Arguments := sent_arguments c; pa_InputResponses := rs_responses rs;
     pa_RequestState := rs_upState rs; pa_ProgressToken := fc_upToken c |}.

(** [forward]: [exited] says whether the upstream has ended, [f] is the address
    of the call's entry, [ended] the clock when the call ends, [ttl] the orphan
    TTL. *)
Definition forward (fuel : nat) (c : fwd_call) (exited : bool) (f : nat) (ended ttl : Z) (w : world) : option (world * answer) :=
  match resumed_of c (env_now (w_trace w)) with
  | Err e => Some (w, AError (je_Code e) (je_Message e) (je_Data e))
  | Ok rs =>
      if exited then Some (w, upstreamDown (fc_server c))
      else
        let w := set_u w (begin (w_u w) f (fc_stateless c) (fc_canElicit c) (fc_tool c) (sb_principal (fc_binding c)) (fc_sessionKey c) (rs_prompts rs)) in
        match rounds fuel c f (first_params c rs) (rs_round rs) w with
        | None => None
        | Some (w, a) =>
            let entry := default {| if_stateless := fc_stateless c; if_canElicit := fc_canElicit c; if_tool := fc_tool c;
                                    if_principal := sb_principal (fc_binding c); if_sessionKey := fc_sessionKey c; if_refused := None;
                                    if_note := None; if_prompting := false; if_prompts := 0 |} (u_heap (w_u w) !! f) in
            Some (set_u w (fst (fst (end_call (w_u w) f entry ended (ended + ttl)))), a)
        end
  end.
End Forward.

(** ** Other calls on the same upstream *)

(** The table changes by operations of the upstream's calls alone. *)
Definition others (u u' : upstream_calls) : Prop := ∃ h h', h_u h = u ∧ h_u h' = u' ∧ rtc call_step h h'.

(** [f] is a call with at least [n] prompts. *)
Definition prompted (u : upstream_calls) (f : nat) (n : Z) : Prop := ∃ e, u_heap u !! f = Some e ∧ n <= if_prompts e.

Definition table_ok (u : upstream_calls) (f : nat) (n : Z) : Prop := calls_ok u ∧ prompted u f n.

Lemma prompted_update u f n id g : (∀ e, if_prompts e <= if_prompts (g e)) → prompted u f n → prompted (update_call u id g) f n.
Proof.
  intros Hg (e & He & Hn). unfold prompted, update_call. cbn. destruct (decide (id = f)) as [->|Hne].
  - rewrite lookup_alter_eq, He. cbn. exists (g e). split; [done|]. specialize (Hg e). lia.
  - rewrite lookup_alter_ne by done. by exists e.
Qed.

Lemma step_prompted h h' f n : prompted (h_u h) f n → call_step h h' → prompted (h_u h') f n.
Proof.
  intros Hp Hs. destruct Hs; cbn [h_u].
  - destruct Hp as (e & He & Hn). exists e. split; [|done]. cbn. rewrite lookup_insert_ne; [done|congruence].
  - destruct Hp as (e & He & Hn). exists e. by rewrite (proj1 (end_call_heap _ _ _ _ _)).
  - exact Hp.
  - unfold startPrompt. destruct (u_heap (h_u h) !! id); [|done]. destruct (if_prompting _); [done|]. destruct (_ <=? _); [done|].
    apply prompted_update; [|done]. intros e. cbn. lia.
  - apply prompted_update; [|done]. intros e. cbn. lia.
  - apply prompted_update; [|done]. intros e. cbn. lia.
  - apply prompted_update; [|done]. intros e. cbn. lia.
  - destruct Hp as (e & He & Hn). unfold prompted. cbn. rewrite map_lookup_imap, He. cbn. eexists. split; [done|]. by destruct (decide _).
Qed.

Lemma others_ok u u' f n : others u u' → table_ok u f n → table_ok u' f n.
Proof.
  intros (h & h' & <- & <- & Hs). induction Hs as [|h1 h2 h3 Hstep Hs IH]; [done|]. intros [Hc Hp]. apply IH. split.
  - by eapply step_calls.
  - by eapply step_prompted.
Qed.

Class EnvLaws (E : Env) : Prop := {
  env_call_others tr u : others u (fst (env_call tr u));
  env_elicit_others tr u : others u (fst (env_elicit tr u));
}.

Definition is_call (e : event) : bool := match e with ToUpstream _ => true | ToAgent _ _ => false end.
Definition calls_in (evs : list event) : Z := Z.of_nat (List.length (List.filter is_call evs)).
Definition asks_in (evs : list event) : Z := Z.of_nat (List.length (List.filter (λ e, negb (is_call e)) evs)).

Lemma calls_in_app a b : calls_in (a ++ b) = calls_in a + calls_in b.
Proof. unfold calls_in. rewrite List.filter_app, length_app. lia. Qed.
Lemma asks_in_app a b : asks_in (a ++ b) = asks_in a + asks_in b.
Proof. unfold asks_in. rewrite List.filter_app, length_app. lia. Qed.

Lemma calls_nil : calls_in [] = 0. Proof. reflexivity. Qed.
Lemma asks_nil : asks_in [] = 0. Proof. reflexivity. Qed.
Lemma calls_call p : calls_in [ToUpstream p] = 1. Proof. reflexivity. Qed.
Lemma asks_call p : asks_in [ToUpstream p] = 0. Proof. reflexivity. Qed.
Lemma calls_ask i p : calls_in [ToAgent i p] = 0. Proof. reflexivity. Qed.
Lemma asks_ask i p : asks_in [ToAgent i p] = 1. Proof. reflexivity. Qed.

Lemma calls_pos evs : 0 <= calls_in evs.
Proof. unfold calls_in. lia. Qed.
Lemma asks_pos evs : 0 <= asks_in evs.
Proof. unfold asks_in. lia. Qed.

Section Facts.
Context `{Unicode} `{AEAD} `{E : Env} `{!EnvLaws E}.

Lemma startPrompt_ok u f n u' : table_ok u f n → startPrompt u f = (u', None) → table_ok u' f (n + 1).
Proof.
  intros [Hc (e & He & Hn)]. unfold startPrompt. rewrite He. destruct (if_prompting e); [done|].
  destruct (Z.leb_spec maxPromptsPerCall (if_prompts e)); [done|]. intros [= <-]. split.
  - apply calls_update; [done|]. intros e' He' Hr. cbn. assert (e' = e) as -> by congruence. unfold maxPromptsPerCall in *. lia.
  - exists (set_prompting e true (if_prompts e + 1)). unfold update_call. cbn. rewrite lookup_alter_eq, He. cbn. split; [done|lia].
Qed.

Lemma endPrompt_ok u f n id : table_ok u f n → table_ok (endPrompt u id) f n.
Proof. intros [Hc Hp]. split; [by apply calls_update|]. apply prompted_update; [cbn; lia|done]. Qed.

Lemma refuse_ok u f n id r : table_ok u f n → table_ok (refuse u id r) f n.
Proof. intros [Hc Hp]. split; [by apply calls_update|]. apply prompted_update; [cbn; lia|done]. Qed.

(** One round's prompts: only of these requests, each counted; an answer is to
    one of them and a stop asks for nothing more. *)
Definition asked_ok (f : nat) (n : Z) (reqs : list (string * ElicitParams)) (out : gmap string ElicitResult)
    (w w' : world) (r : gmap string ElicitResult + answer) : Prop :=
  ∃ evs, w_trace w' = w_trace w ++ evs ∧ table_ok (w_u w') f (n + asks_in evs) ∧ calls_in evs = 0 ∧
    (∀ ev, ev ∈ evs → ∃ id p, ev = ToAgent id p ∧ (id, p) ∈ reqs) ∧
    match r with
    | inl answers => ∀ id er, answers !! id = Some er →
        out !! id = Some er ∨ (answer_ok er ∧ ∃ p, (id, p) ∈ reqs ∧ ToAgent id p ∈ evs)
    | inr a => a = ACancelled ∨ ∃ text, a = toolError text
    end.

Lemma asked_nil f n reqs out w u r : table_ok u f n →
  match r with inl answers => answers = out | inr a => a = ACancelled ∨ ∃ text, a = toolError text end →
  asked_ok f n reqs out w (set_u w u) r.
Proof.
  intros Ht Hr. exists []. rewrite app_nil_r, asks_nil, Z.add_0_r. split; [done|]. split; [done|]. split; [done|].
  split; [by intros ev ?%not_elem_of_nil|]. destruct r as [answers|a]; [subst; by left|done].
Qed.

Lemma asked_stop f n id p reqs out w u a : table_ok u f (n + 1) → a = ACancelled ∨ (∃ text, a = toolError text) →
  asked_ok f n ((id, p) :: reqs) out w {| w_trace := w_trace w ++ [ToAgent id p]; w_u := u |} (inr a).
Proof.
  intros Ht Ha. exists [ToAgent id p]. split; [done|]. split; [exact Ht|]. split; [done|].
  split; [intros ev ->%list_elem_of_singleton; exists id, p; split; [done|by left]|done].
Qed.

Lemma asked_cons f n id p reqs out w u w' clean r : answer_ok clean →
  asked_ok f (n + 1) reqs (<[id := clean]> out) {| w_trace := w_trace w ++ [ToAgent id p]; w_u := u |} w' r →
  asked_ok f n ((id, p) :: reqs) out w w' r.
Proof.
  intros Hok (evs & Htr & Ht & Hcalls & Hev & Hans). exists ([ToAgent id p] ++ evs).
  split; [rewrite Htr; cbn [w_trace]; by rewrite <- app_assoc|]. split; [by rewrite asks_in_app, asks_ask, Z.add_assoc|].
  split; [by rewrite calls_in_app, calls_ask|]. split.
  { intros ev [->%list_elem_of_singleton|Hin']%elem_of_app; [exists id, p; split; [done|by left]|].
    destruct (Hev ev Hin') as (i & q & -> & Hq). exists i, q. split; [done|by right]. }
  destruct r as [answers|a]; [|done]. intros i er Hi. destruct (Hans i er Hi) as [Hout|(Ha & q & Hq & Hq')].
  - destruct (decide (i = id)) as [->|Hne].
    + rewrite lookup_insert_eq in Hout. injection Hout as <-. right. split; [done|]. exists p. split; by left.
    + rewrite lookup_insert_ne in Hout by done. by left.
  - right. split; [done|]. exists q. split; by right.
Qed.

Lemma askAgent_ok c f reqs out w w' r n :
  table_ok (w_u w) f n → askAgent c f reqs out w = (w', r) → asked_ok f n reqs out w w' r.
Proof.
  revert out w n. induction reqs as [|[id p] reqs IH]; intros out w n Ht; cbn [askAgent].
  { intros [= <- <-]. destruct w as [tr u]. by apply (asked_nil f n [] out {| w_trace := tr; w_u := u |} u). }
  destruct (startPrompt (w_u w) f) as [u [why|] ] eqn:Hs.
  { intros [= <- <-]. apply asked_nil; [by apply refuse_ok|eauto]. }
  pose proof (startPrompt_ok _ _ _ _ Ht Hs) as Ht1. unfold ask. cbn [w_trace set_u w_u].
  pose proof (env_elicit_others (w_trace w ++ [ToAgent id p]) u) as Ho.
  destruct (env_elicit (w_trace w ++ [ToAgent id p]) u) as [u2 [ended res] ]. cbn [fst] in Ho.
  apply (others_ok _ _ _ _ Ho) in Ht1. apply (endPrompt_ok _ _ _ f) in Ht1. cbn [w_u w_trace set_u].
  destruct (match res with Some r0 => cleanElicitResult r0 | None => Err "" end) as [clean|e] eqn:Hclean.
  - intros Hr. eapply asked_cons; [|eapply IH; [|exact Hr]; exact Ht1]. destruct res as [r0|]; [by eapply cleanElicitResult_ok|done].
  - destruct ended; intros [= <- <-]; (apply asked_stop; [exact Ht1|eauto]).
Qed.

(** ** What crosses *)

(** The upstream gave [res] at some point of the trace. *)
Definition said (past : list event) (res : CallToolResult) : Prop :=
  ∃ tr u, tr `prefix_of` past ∧ snd (snd (env_call tr u)) = Ok (Some res).

Definition event_ok (c : fwd_call) (params : CallToolParams) (past : list event) (ev : event) : Prop :=
  match ev with
  | ToUpstream p =>
      pa_Name p = pa_Name params ∧ pa_Arguments p = pa_Arguments params ∧ pa_ProgressToken p = pa_ProgressToken params ∧
      (p = params ∨
       (∃ res, said past res ∧ pa_RequestState p = ct_RequestState res) ∧
       ∀ id er, pa_InputResponses p !! id = Some er → answer_ok er ∧ ∃ q, ToAgent id q ∈ past)
  | ToAgent id q =>
      fc_stateless c = false ∧ fc_canElicit c = true ∧ fc_closed c = false ∧ bad_request_id id = false ∧
      ∃ res ep, said past res ∧ (id, InElicit (Some ep)) ∈ ct_InputRequests res ∧ prompt_ok (fc_server c) ep q
  end.

Fixpoint events_ok (c : fwd_call) (params : CallToolParams) (past evs : list event) : Prop :=
  match evs with [] => True | ev :: evs => event_ok c params past ev ∧ events_ok c params (past ++ [ev]) evs end.

Lemma events_app c params past a b : events_ok c params past (a ++ b) ↔ events_ok c params past a ∧ events_ok c params (past ++ a) b.
Proof.
  revert past. induction a as [|ev a IH]; intros past; cbn [events_ok app]; [rewrite app_nil_r; tauto|].
  rewrite IH, <- app_assoc. cbn [app]. tauto.
Qed.

Lemma said_mono past past' res : past `prefix_of` past' → said past res → said past' res.
Proof. intros Hp (tr & u & Ht & Hs). exists tr, u. split; [by etrans|done]. Qed.

(** How a call ends. *)
Definition ends_ok (c : fwd_call) (past : list event) (n : Z) (a : answer) : Prop :=
  match a with
  | AResult content structured isError =>
      (∃ text, a = toolError text) ∨
      ∃ res own note, said past res ∧ ct_NeedsInput res = false ∧ a = withRefusals (passResult res) own note
  | AInput reqs state =>
      fc_stateless c = true ∧ fc_canElicit c = true ∧ fc_closed c = false ∧ state ≠ "" ∧
      (∀ id q, reqs !! id = Some q → bad_request_id id = false ∧
         ∃ res ep, said past res ∧ (id, InElicit (Some ep)) ∈ ct_InputRequests res ∧ prompt_ok (fc_server c) ep q) ∧
      ∃ st now nonce, seal now nonce st (fc_binding c) = Ok state ∧
        ss_Server st = fc_server c ∧ ss_Tool st = fc_tool c ∧ ss_Args st = argsDigest (fc_arguments c) ∧
        (∀ id, id ∈ default [] (ss_IDs st) ↔ is_Some (reqs !! id)) ∧
        1 <= ss_Round st <= maxInputRounds ∧ n <= ss_Prompts st <= maxPromptsPerCall
  | _ => True
  end.

Lemma elem_of_sorted_requests reqs id q : (id, q) ∈ sorted_requests reqs ↔ reqs !! id = Some q.
Proof.
  unfold sorted_requests. rewrite list_elem_of_omap. split.
  - intros (i & _ & Hq). destruct (reqs !! i) as [p|] eqn:Hi; [|done]. cbn in Hq. by injection Hq as -> ->.
  - intros Hq. exists id. split; [|by rewrite Hq]. rewrite elem_of_sort_strings, elem_of_elements, elem_of_dom. eauto.
Qed.

Lemma check_input_ok c f round w res reqs : check_input c f round w res = Ok reqs →
  fc_closed c = false ∧ fc_canElicit c = true ∧ round < maxInputRounds ∧
  promptsSoFar (w_u w) f + Z.of_nat (size reqs) <= maxPromptsPerCall ∧
  ∀ id q, reqs !! id = Some q → bad_request_id id = false ∧
    ∃ ep, (id, InElicit (Some ep)) ∈ ct_InputRequests res ∧ prompt_ok (fc_server c) ep q.
Proof.
  unfold check_input. destruct (relabelInputRequests _ _ _) as [out|] eqn:Hr; [|done]. destruct (fc_closed c); [done|].
  destruct (fc_canElicit c); [|done]. cbn [negb]. destruct (Z.leb_spec maxInputRounds round); [done|].
  destruct (Z.ltb_spec maxPromptsPerCall (promptsSoFar (w_u w) f + Z.of_nat (size out))); [done|].
  destruct (_ <? _); [done|]. intros [= <-]. repeat (split; [done|]). intros id q Hq. by eapply relabelInputRequests_prompt.
Qed.

Lemma promptsSoFar_ge u f n : table_ok u f n → n <= promptsSoFar u f.
Proof. intros (_ & e & He & Hn). unfold promptsSoFar. by rewrite He. Qed.

Lemma callFailed_ends c past n ended e : ends_ok c past n (callFailed c ended e).
Proof.
  unfold callFailed. destruct ended; [done|]. destruct e as [r|code m| |t [|] ]; try (left; eexists; reflexivity).
  by destruct (relayUpstreamError _ _ _ _).
Qed.

Lemma tool_ends c past n text : ends_ok c past n (toolError text).
Proof. left. by exists text. Qed.

Lemma seal_ends c f round w now nonce res reqs state past n :
  said past res → check_input c f round w res = Ok reqs → n <= promptsSoFar (w_u w) f → 0 <= round → fc_stateless c = true →
  seal now nonce (state_for c f round w res reqs) (fc_binding c) = Ok state →
  ends_ok c past n (AInput reqs state).
Proof.
  intros Hsaid Hc Hn Hround Hst Hseal. apply check_input_ok in Hc as (Hcl & Hcan & Hlt & Hsize & Hq).
  split; [done|]. split; [done|]. split; [done|]. split.
  { unfold seal in Hseal. destruct nonce; [|done]. destruct (_ <? _); [done|]. by injection Hseal as <-. }
  split. { intros id q Hid. destruct (Hq id q Hid) as (Hb & ep & Hep). split; [done|]. by exists res, ep. }
  exists (state_for c f round w res reqs), now, nonce. split; [done|].
  unfold state_for. cbn [ss_Server ss_Tool ss_Args ss_IDs ss_Round ss_Prompts default]. do 3 (split; [done|]). split; [|lia].
  intros id. transitivity (id ∈ (sorted_requests reqs).*1); [done|]. rewrite list_elem_of_fmap. split.
  - intros ([i q] & -> & Hi). apply elem_of_sorted_requests in Hi. by exists q.
  - intros [q Hi]. exists (id, q). split; [done|]. by apply elem_of_sorted_requests.
Qed.

Definition round_ok (c : fwd_call) (params : CallToolParams) (round n : Z) (f : nat) (w w' : world) (r : CallToolParams + answer) : Prop :=
  ∃ evs, w_trace w' = w_trace w ++ evs ∧ table_ok (w_u w') f (n + asks_in evs) ∧ calls_in evs = 1 ∧
    events_ok c params (w_trace w) evs ∧
    match r with
    | inr a => ends_ok c (w_trace w') (n + asks_in evs) a
    | inl p => event_ok c params (w_trace w') (ToUpstream p) ∧ round < maxInputRounds
    end.

(** A round that ends after the upstream's answer. *)
Lemma round_ends c params0 params round n f w u u' a :
  event_ok c params0 (w_trace w) (ToUpstream params) → table_ok u f n → u' = u ∨ (∃ r, u' = refuse u f r) →
  ends_ok c (w_trace w ++ [ToUpstream params]) n a →
  round_ok c params0 round n f w {| w_trace := w_trace w ++ [ToUpstream params]; w_u := u' |} (inr a).
Proof.
  intros Hp Ht Hu Ha. exists [ToUpstream params]. rewrite asks_call, Z.add_0_r. split; [done|].
  split; [destruct Hu as [->|[r ->] ]; [done|by apply refuse_ok]|]. done.
Qed.

Lemma asks_events c params past evs reqs res :
  (∀ ev, ev ∈ evs → ∃ id p, ev = ToAgent id p ∧ (id, p) ∈ sorted_requests reqs) → said past res →
  fc_stateless c = false → fc_canElicit c = true → fc_closed c = false →
  (∀ id q, reqs !! id = Some q → bad_request_id id = false ∧
    ∃ ep, (id, InElicit (Some ep)) ∈ ct_InputRequests res ∧ prompt_ok (fc_server c) ep q) →
  events_ok c params past evs.
Proof.
  intros Hev Hs H1 H2 H3 Hq. revert past Hs. induction evs as [|ev evs IH]; intros past Hs; [done|]. cbn [events_ok]. split.
  - destruct (Hev ev (list_elem_of_here _ _)) as (id & p & -> & Hp). apply elem_of_sorted_requests in Hp.
    destruct (Hq id p Hp) as (Hb & ep & Hin & Hok). do 4 (split; [done|]). by exists res, ep.
  - apply IH; [intros ev' Hin; apply Hev; by right|]. eapply said_mono; [|exact Hs]. by apply prefix_app_r.
Qed.

Lemma one_round_ok c f params0 params round n w w' r :
  table_ok (w_u w) f n → 0 <= round → event_ok c params0 (w_trace w) (ToUpstream params) →
  one_round c f params round w = (w', r) → round_ok c params0 round n f w w' r.
Proof.
  intros Ht Hround Hp. unfold one_round, call_upstream.
  pose proof (env_call_others (w_trace w ++ [ToUpstream params]) (w_u w)) as Ho.
  destruct (env_call (w_trace w ++ [ToUpstream params]) (w_u w)) as [u [ended ans] ] eqn:He. cbn [fst] in Ho.
  apply (others_ok _ _ _ _ Ho) in Ht. clear Ho. cbn [w_u w_trace]. destruct (refusalsFor u f) as [own note].
  assert (Hend : ∀ w1 a u', u' = u ∨ (∃ r, u' = refuse u f r) → ends_ok c (w_trace w ++ [ToUpstream params]) n a →
    ({| w_trace := w_trace w ++ [ToUpstream params]; w_u := u' |}, inr a) = (w1, r) → round_ok c params0 round n f w w1 r).
  { intros w1 a u' Hu Ha [= <- <-]. by eapply round_ends. }
  destruct ans as [ [res|]|e].
  2:{ apply Hend; [by left|apply tool_ends]. }
  2:{ destruct own as [o|]; [destruct ended|]; (apply Hend; [by left|apply callFailed_ends || apply tool_ends]). }
  assert (Hsaid : said (w_trace w ++ [ToUpstream params]) res) by (eexists _, (w_u w); split; [reflexivity|by rewrite He]).
  destruct (ct_NeedsInput res) eqn:Hneeds; cbn [negb].
  2:{ apply Hend; [by left|]. right. by exists res, own, note. }
  destruct (_ =? 0)%nat; [apply Hend; [by left|apply tool_ends]|].
  destruct (check_input c f round _ res) as [reqs|why] eqn:Hcheck; [|apply Hend; [right; eauto|apply tool_ends] ].
  destruct (fc_stateless c) eqn:Hst.
  { destruct (seal _ _ _ _) as [state|e] eqn:Hseal; [|apply Hend; [right; eauto|apply tool_ends] ].
    apply Hend; [by left|]. eapply seal_ends; [done|exact Hcheck|by apply promptsSoFar_ge|done|done|exact Hseal]. }
  apply check_input_ok in Hcheck as (Hcl & Hcan & Hlt & _ & Hq).
  destruct (askAgent c f (sorted_requests reqs) ∅ _) as [w2 r2] eqn:Hask. eapply askAgent_ok in Hask; [|exact Ht].
  destruct Hask as (evs & Htr & Ht2 & Hcalls & Hev & Hr2). cbn [w_trace w_u] in *. intros Hr.
  exists ([ToUpstream params] ++ evs). assert (Htr' : w_trace w' = w_trace w ++ [ToUpstream params] ++ evs ∧ w_u w' = w_u w2).
  { destruct r2; injection Hr as <- _; by rewrite Htr, <- app_assoc. }
  destruct Htr' as [Htr1 Htr2]. rewrite Htr1, Htr2.
  split; [done|]. rewrite asks_in_app, calls_in_app, asks_call, calls_call, Hcalls. split; [done|]. split; [done|]. split.
  { split; [done|]. by eapply asks_events. }
  destruct r2 as [answers|stop]; injection Hr as <- <-.
  - split; [|done]. split; [apply Hp|]. split; [apply Hp|]. split; [apply Hp|]. right. split.
    { exists res. split; [|done]. eapply said_mono; [|exact Hsaid]. rewrite app_assoc. by apply prefix_app_r. }
    cbn [pa_InputResponses]. intros id er Her. destruct (Hr2 id er Her) as [Habs|(Ha & q & _ & Hq')]; [done|].
    split; [done|]. exists q. apply elem_of_app. right. apply elem_of_app. by right.
  - destruct Hr2 as [->|[text ->] ]; [done|apply tool_ends].
Qed.

Lemma rounds_total c f params round w : rounds (S (Z.to_nat (maxInputRounds - round))) c f params round w ≠ None.
Proof.
  remember (Z.to_nat (maxInputRounds - round)) as k eqn:Hk. revert params round w Hk.
  induction k as [|k IH]; intros params round w Hk; cbn [rounds]; destruct (one_round c f params round w) as [w' [p|a] ] eqn:Hr; try done.
  - exfalso. unfold one_round in Hr. destruct (call_upstream w params) as [w1 [ended [ [res|]|e] ] ]; destruct (refusalsFor (w_u w1) f) as [own note].
    3:{ by destruct own, ended. } 2:{ done. }
    destruct (negb _); [done|]. destruct (_ =? 0)%nat; [done|]. destruct (check_input c f round w1 res) as [reqs|why] eqn:Hc; [|done].
    apply check_input_ok in Hc as (_ & _ & Hlt & _). lia.
  - apply IH. lia.
Qed.

Lemma rounds_more fuel fuel' c f params round w r : rounds fuel c f params round w = Some r → (fuel ≤ fuel')%nat →
  rounds fuel' c f params round w = Some r.
Proof.
  revert fuel' params round w. induction fuel as [|fuel IH]; intros fuel' params round w; [done|].
  destruct fuel' as [|fuel']; [lia|]. cbn [rounds]. destruct (one_round c f params round w) as [w' [p|a] ]; [|done]. intros Hr Hle. apply IH; [done|lia].
Qed.

Lemma rounds_ok fuel c f params0 params round n w w' a :
  table_ok (w_u w) f n → 0 <= round <= maxInputRounds → event_ok c params0 (w_trace w) (ToUpstream params) →
  rounds fuel c f params round w = Some (w', a) →
  ∃ evs, w_trace w' = w_trace w ++ evs ∧ table_ok (w_u w') f (n + asks_in evs) ∧ calls_in evs <= maxInputRounds + 1 - round ∧
    events_ok c params0 (w_trace w) evs ∧ ends_ok c (w_trace w') (n + asks_in evs) a.
Proof.
  revert params round n w. induction fuel as [|fuel IH]; intros params round n w Ht Hround Hp; [done|]. cbn [rounds].
  destruct (one_round c f params round w) as [w1 r] eqn:Hr. apply (one_round_ok c f params0 params round n) in Hr; [|done|lia|done].
  destruct Hr as (evs & Htr & Ht1 & Hcalls & Hev & Hr). destruct r as [p|a1].
  - destruct Hr as [Hp1 Hlt]. intros Hrounds. apply (IH _ _ (n + asks_in evs)) in Hrounds as (evs' & Htr' & Ht' & Hcalls' & Hev' & Hends); [|done|lia|done].
    exists (evs ++ evs'). rewrite Htr', Htr, app_assoc, asks_in_app, calls_in_app, Z.add_assoc, events_app. split; [done|]. split; [done|].
    split; [lia|]. rewrite <- Htr. split; [done|]. rewrite <- Htr'. exact Hends.
  - intros [= <- <-]. exists evs. do 2 (split; [done|]). split; [lia|]. done.
Qed.

(** What a call carries on is within the limits a sealed state keeps. *)
Definition resumed_ok (c : fwd_call) (now : Z) : Prop :=
  ∀ rs, resumed_of c now = Ok rs → 0 <= rs_round rs <= maxInputRounds ∧ 0 <= rs_prompts rs <= maxPromptsPerCall.

Lemma begin_ok u f stateless canElicit tool principal key n :
  calls_ok u → u_heap u !! f = None → 0 <= n <= maxPromptsPerCall → table_ok (begin u f stateless canElicit tool principal key n) f n.
Proof.
  intros Hc Hf Hn. split.
  - pose proof (step_calls {| h_u := u; h_clock := 0; h_ended := [] |} _ Hc (CBegin {| h_u := u; h_clock := 0; h_ended := [] |} f stateless canElicit tool principal key n Hf Hn)) as Hs.
    exact Hs.
  - eexists. unfold begin. cbn. rewrite lookup_insert_eq. split; [done|]. cbn. lia.
Qed.

Lemma forward_ok fuel c exited f ended ttl w w' a :
  calls_ok (w_u w) → u_heap (w_u w) !! f = None → resumed_ok c (env_now (w_trace w)) →
  forward fuel c exited f ended ttl w = Some (w', a) →
  match resumed_of c (env_now (w_trace w)) with
  | Err e => w' = w ∧ a = AError (je_Code e) (je_Message e) (je_Data e)
  | Ok rs =>
      if exited then w' = w ∧ a = upstreamDown (fc_server c)
      else ∃ evs, w_trace w' = w_trace w ++ evs ∧ 0 <= rs_prompts rs + asks_in evs <= maxPromptsPerCall ∧
        calls_in evs <= maxInputRounds + 1 - rs_round rs ∧ events_ok c (first_params c rs) (w_trace w) evs ∧
        ends_ok c (w_trace w') (rs_prompts rs + asks_in evs) a ∧ f ∉ u_calls (w_u w')
  end.
Proof.
  intros Hc Hf Hres. unfold forward. specialize (Hres). destruct (resumed_of c (env_now (w_trace w))) as [rs|e] eqn:Hrs.
  2:{ by intros [= <- <-]. }
  destruct exited; [by intros [= <- <-]|]. destruct (Hres rs Hrs) as [Hround Hprompts].
  destruct (rounds _ _ _ _ _ _) as [[w1 a1]|] eqn:Hr; [|done]. intros [= <- <-].
  eapply (rounds_ok _ _ _ (first_params c rs)) in Hr as (evs & Htr & Ht & Hcalls & Hev & Hends);
    [|by apply begin_ok|done|split; [done|]; split; [done|]; split; [done|by left] ].
  exists evs. split; [done|]. split.
  { destruct Ht as [[_ Hle] (e & He & Hn)]. specialize (Hle f e He). pose proof (asks_pos evs). lia. }
  split; [done|]. split; [done|]. split; [done|].
  destruct (end_call_heap (w_u w1) f (default {| if_stateless := fc_stateless c; if_canElicit := fc_canElicit c; if_tool := fc_tool c;
                                    if_principal := sb_principal (fc_binding c); if_sessionKey := fc_sessionKey c; if_refused := None;
                                    if_note := None; if_prompting := false; if_prompts := 0 |} (u_heap (w_u w1) !! f)) ended (ended + ttl)) as [_ E2].
  cbn [w_u set_u]. rewrite E2. set_solver.
Qed.
End Facts.

Section Theorems.
Context `{Unicode} `{AEAD} `{E : Env}.

(** C15: A forwarded call always returns: whatever the upstream, the agent and
    the other calls answer, eleven rounds are enough, and more change nothing. *)
Theorem forward_terminates c exited f ended ttl w :
  resumed_ok c (env_now (w_trace w)) →
  ∃ r, ∀ fuel, (S (Z.to_nat maxInputRounds) <= fuel)%nat → forward fuel c exited f ended ttl w = Some r.
Proof.
  intros Hres. unfold forward. destruct (resumed_of c (env_now (w_trace w))) as [rs|e] eqn:Hrs; [|by eexists].
  destruct exited; [by eexists|]. destruct (Hres rs Hrs) as [Hround _]. set (w0 := set_u w _).
  destruct (rounds (S (Z.to_nat (maxInputRounds - rs_round rs))) c f (first_params c rs) (rs_round rs) w0) as [[w' a]|] eqn:Hr;
    [|by apply rounds_total in Hr].
  eexists. intros fuel Hle. by rewrite (rounds_more _ fuel _ _ _ _ _ _ Hr) by lia.
Qed.


End Theorems.

(** ** An upstream that asks once and then answers *)

Definition sample_asks : CallToolResult :=
  {| ct_Content := []; ct_Structured := ANil; ct_IsError := false; ct_Meta := ANil; ct_NeedsInput := true;
     ct_InputRequests := sample_requests; ct_RequestState := "half-way" |}.

Definition sample_done : CallToolResult :=
  {| ct_Content := [TextContent "ok"]; ct_Structured := ANil; ct_IsError := false; ct_Meta := ANil; ct_NeedsInput := false;
     ct_InputRequests := []; ct_RequestState := "" |}.

Definition sample_env : Env :=
  {| env_call tr u := (u, (false, Ok (Some (if calls_in tr =? 1 then sample_asks else sample_done))));
     env_elicit tr u := (u, (false, Some (Some {| er_Action := "accept"; er_Content := ANil |})));
     env_now tr := 1000; env_nonce tr := Some "n" |}.

Lemma sample_laws : EnvLaws sample_env.
Proof. split; intros tr u; exists {| h_u := u; h_clock := 0; h_ended := [] |}; eexists; (split; [done|split; [|apply rtc_refl]; done]). Qed.

Definition sample_fwd (stateless : bool) : fwd_call :=
  {| fc_server := "nb"; fc_tool := "run"; fc_arguments := "{}"; fc_upArguments := None; fc_stateless := stateless; fc_canElicit := true;
     fc_binding := {| sb_transport := transportStdio; sb_principal := "" |}; fc_sessionKey := "stdio"; fc_requestState := ""; fc_responses := [];
     fc_resumed := None; fc_closed := false; fc_upToken := None; fc_red := None |}.

Definition sample_world : world := {| w_trace := []; w_u := empty_upstream |}.

Definition run_sample (stateless : bool) : option (world * answer) :=
  @forward ascii_tables toy_AEAD sample_env 11 (sample_fwd stateless) false 0 2000 600 sample_world.

Lemma sample_resumed b now : @resumed_ok ascii_tables toy_AEAD (sample_fwd b) now.
Proof. intros rs [= <-]. by vm_compute. Qed.

Lemma sample_calls_ok : calls_ok empty_upstream.
Proof. split; intros id; [by intros ?%not_elem_of_empty|]. intros f Hf. cbn [u_heap empty_upstream] in Hf. by rewrite lookup_empty in Hf. Qed.

Definition first_resumed : resumed := {| rs_responses := ∅; rs_upState := ""; rs_round := 0; rs_prompts := 0 |}.

Lemma forward_terminates_witness : ∃ r, run_sample false = Some r.
Proof.
  destruct (@forward_terminates ascii_tables toy_AEAD sample_env (sample_fwd false) false 0 2000 600 sample_world (sample_resumed false _)) as [r Hr].
  exists r. exact (Hr 11%nat (Nat.le_refl 11)).
Defined.


