(* ===== verification/ProxyGate.v ===== *)
(** * The proxy's decision stage: internal/proxy/gate.go

    What the proxy does around the gate for one tools/call: the size cap, the
    session counters and their lock, the panic guard, the re-encoding of the
    arguments, the refusals it writes itself and the narrowing of the advertised
    schemas.  The gate is an interface ([GateIface]); Gate.v implements it. *)

From S2P Require Import Prelude GoStd GoCrypto Json GoNetip ToolClass Command ServerProfile Values.
From S2P Require Import ConfigPayload Classifier GoPath Policy Evaluate Inventory GateArgs GateText Gate Names.

Open Scope string_scope.
Open Scope Z_scope.
Open Scope list_scope.

(** The [Gate] interface.  [None] is a panic; the second component of
    [iface_Arguments] is "closed". *)
Class GateIface := {
  iface_Decide : CallInfo → option Verdict;
  iface_Arguments : string → string → option (list string * bool);
}.

Definition maxArgumentBytes : Z := 65536.

Definition ruleBadArguments : string := "default:bad_arguments".
Definition ruleInternalError : string := "default:internal_error".

Definition unclassified : string := "EXEC_ARBITRARY".
Definition unclassifiedSource : string := "proxy".
Definition reasonTooLarge : string := "the arguments are larger than 64 KiB".
Definition reasonInternalError : string := "fathomgate could not decide this call, so it was not run".
Definition reasonNotForwarded : string := "the policy does not allow this call".
Definition parseTooLarge : string := "too_large".
Definition reasonNotObject : string :=
  "the arguments must be one JSON object, in UTF-8, with no key given twice".

(** ** Calls *)

(** The protocol eras of era.go. *)
Definition statelessVersion : string := "2026-07-28".
Definition eraStateful : string := "stateful".
Definition eraStateless : string := "stateless".

Definition eraOf (version : string) : string :=
  if String.leb statelessVersion version then eraStateless else eraStateful.

Definition upstreamEra (version : string) (handshake : bool) : string :=
  if handshake then eraStateful else eraOf version.

Definition transportStdio : string := "stdio".
Definition transportHTTP : string := "http".

(** The fields of [upstream], [route] and [call] the decision reads. *)
Record upstream := { up_name : string; up_version : string; up_era : string }.

Record route := {
  route_up : string; route_tool : string;
  route_readOnly : option bool; route_destructive : option bool; route_closed : bool }.

Record call := {
  c_up : upstream;
  c_tool : string;
  c_arguments : string;
  c_agent_version : string;
  c_transport : string;
  c_principal : string;
  c_sessionKey : string;
}.

Definition shortHash (s : string) : string := hex_encode (s_take 6 (sha256 s)).

Definition logSessionID (sessionKey : string) : string :=
  match cut_prefix "s" sessionKey with
  | Some id => if String.eqb id "" then "" else shortHash id
  | None => ""
  end.

(** A route that is missing reads as Go's zero value. *)
Definition no_route : route :=
  {| route_up := ""; route_tool := ""; route_readOnly := None; route_destructive := None; route_closed := false |}.

Definition route_of (routes : gmap string route) (server tool : string) : route :=
  default no_route (routes !! prefixName server tool).

Definition callInfo (routes : gmap string route) (c : call) : CallInfo :=
  let r := route_of routes (up_name (c_up c)) (c_tool c) in
  {| in_Server := up_name (c_up c); in_Tool := c_tool c; in_Arguments := c_arguments c;
     ReadOnlyHint := route_readOnly r; DestructiveHint := route_destructive r;
     AgentProtocol := c_agent_version c; AgentEra := eraOf (c_agent_version c);
     UpstreamProtocol := up_version (c_up c); UpstreamEra := up_era (c_up c);
     Transport := c_transport c; Principal := logPrincipal (c_principal c);
     SessionID := logSessionID (c_sessionKey c);
     in_DevicesTouched := 0; in_PendingHolds := 0; Counted := None |}.

Definition argumentsClosed (routes : gmap string route) (server tool : string) : bool :=
  route_closed (route_of routes server tool).

(** ** Refusals *)

Definition refusalText (verb server tool rule class reason : string) : string :=
  ("fathomgate " ++ verb ++ " " ++ prefixName server tool ++ ": rule " ++ rule ++
   " (class " ++ class ++ "): " ++ reason)%string.

Definition orUnknown (rule : string) : string := if String.eqb rule "" then ruleInternalError else rule.
Definition orUnclassified (class : string) : string := if String.eqb class "" then unclassified else class.

Definition refusalVerdict (ci : CallInfo) (rule reason parseError : string) : Verdict :=
  {| Forward := false; v_Effect := "deny"; v_RuleID := rule;
     v_Class := unclassified; v_ClassSource := unclassifiedSource; v_Targets := [];
     v_Error := refusalText "denied" (in_Server ci) (in_Tool ci) rule unclassified reason;
     v_Record :=
       [("server", AttrStr (in_Server ci)); ("tool", AttrStr (in_Tool ci));
        ("class", AttrStr unclassified); ("class_source", AttrStr unclassifiedSource);
        ("targets", AttrStrs []); ("roles", AttrStrs []); ("unknown_target", AttrBool false);
        ("decision", AttrStr "deny"); ("rule_id", AttrStr rule); ("reason", AttrStr reason);
        ("obligations", AttrStrs []); ("forwarded", AttrBool false);
        ("agent_protocol", AttrStr (AgentProtocol ci)); ("agent_era", AttrStr (AgentEra ci));
        ("upstream_protocol", AttrStr (UpstreamProtocol ci)); ("upstream_era", AttrStr (UpstreamEra ci));
        ("transport", AttrStr (Transport ci)); ("principal", AttrStr (Principal ci));
        ("session_id", AttrStr (SessionID ci))] ++
       (if negb (String.eqb parseError "") then [("parse_error", AttrStr parseError)] else []);
     v_Trace := [] |}.

Definition with_Error (v : Verdict) (e : string) : Verdict :=
  {| Forward := Forward v; v_Effect := v_Effect v; v_RuleID := v_RuleID v; v_Class := v_Class v;
     v_ClassSource := v_ClassSource v; v_Targets := v_Targets v; v_Error := e;
     v_Record := v_Record v; v_Trace := v_Trace v |}.

(** ** The arguments the upstream receives *)

Inductive reencode_error := ErrNotObject | ErrTrailing | ErrJSON.

(** [reencode]: [Ok None] is nil, no arguments.  The decoder reads one value;
    null and the end of the text are looked at afterwards. *)
Definition reencode (raw : string) : result reencode_error (option string) :=
  let t := trim_space raw in
  if String.eqb t "" || String.eqb t "null" then Ok None
  else match run any_number maxNestingDepth false (tokens t) MVal [] with
  | JOk (AObj m) [] => Ok (Some (json_encode (AObj m)))
  | JOk (AObj _) _ => Err ErrTrailing
  | JOk ANil _ => Err ErrNotObject
  | _ => Err ErrJSON
  end.

Definition parseCode (e : reencode_error) : string :=
  match e with ErrTrailing => "trailing_data" | ErrNotObject => "not_object" | ErrJSON => "invalid_json" end.

(** ** The session counters *)

Definition maxTouchedNames : nat := 4096.

Definition counterKey (c : call) : string :=
  if String.eqb (c_transport c) transportHTTP then ("principal:" ++ c_principal c)%string else "process".

(** [sem] is kept beside the counters, in the world below. *)
Record sessionCounter := { touched : gset string; extra : Z }.

Definition new_counter : sessionCounter := {| touched := ∅; extra := 0 |}.

(** [counters.get]: the entry, and the map with it. *)
Definition counters_get (keys : gmap string sessionCounter) (key : string) :
    sessionCounter * gmap string sessionCounter :=
  match keys !! key with
  | Some sc => (sc, keys)
  | None => (new_counter, <[key := new_counter]> keys)
  end.

Definition touchedCount (s : sessionCounter) : Z := Z.of_nat (size (touched s)) + extra s.

Definition counted (s : sessionCounter) (target : string) : bool := bool_decide (target ∈ touched s).

Fixpoint dedupe_from (seen out targets : list string) : list string :=
  match targets with
  | [] => out
  | t :: targets =>
      if mem t seen then dedupe_from seen out targets else dedupe_from (t :: seen) (out ++ [t]) targets
  end.

Definition dedupe (targets : list string) : list string :=
  if (List.length targets <? 2)%nat then targets else dedupe_from [] [] targets.

Definition touch_one (s : sessionCounter) (t : string) : sessionCounter :=
  if counted s t then s
  else if (size (touched s) <? maxTouchedNames)%nat
  then {| touched := {[ t ]} ∪ touched s; extra := extra s |}
  else {| touched := touched s; extra := extra s + 1 |}.

Definition touch (s : sessionCounter) (targets : list string) : sessionCounter :=
  fold_left touch_one (dedupe targets) s.

(** ** The decision *)

Record pdecision := { pd_v : Verdict; pd_args : option string }.

Definition with_counter (ci : CallInfo) (sc : sessionCounter) : CallInfo :=
  {| in_Server := in_Server ci; in_Tool := in_Tool ci; in_Arguments := in_Arguments ci;
     ReadOnlyHint := ReadOnlyHint ci; DestructiveHint := DestructiveHint ci;
     AgentProtocol := AgentProtocol ci; AgentEra := AgentEra ci;
     UpstreamProtocol := UpstreamProtocol ci; UpstreamEra := UpstreamEra ci;
     Transport := Transport ci; Principal := Principal ci; SessionID := SessionID ci;
     in_DevicesTouched := touchedCount sc; in_PendingHolds := in_PendingHolds ci;
     Counted := Some (counted sc) |}.

(** [decideLocked] after [Decide] has returned (or panicked): the decision and
    the counter. *)
Definition finish (c : call) (ci : CallInfo) (v : option Verdict) (sc : sessionCounter) :
    pdecision * sessionCounter :=
  match v with
  | None => ({| pd_v := refusalVerdict ci ruleInternalError reasonInternalError ""; pd_args := None |}, sc)
  | Some v =>
      if negb (Forward v) then
        let v := if String.eqb (v_Error v) ""
          then with_Error v (refusalText "denied" (in_Server ci) (in_Tool ci) (orUnknown (v_RuleID v))
                 (orUnclassified (v_Class v)) reasonNotForwarded)
          else v in
        ({| pd_v := v; pd_args := None |}, sc)
      else match reencode (c_arguments c) with
      | Err e =>
          ({| pd_v := refusalVerdict ci ruleBadArguments reasonNotObject (parseCode e); pd_args := None |}, sc)
      | Ok args => ({| pd_v := with_Error v ""; pd_args := args |}, touch sc (v_Targets v))
      end
  end.

(** The tool error the agent gets for a call that is not forwarded. *)
Definition respond (d : pdecision) : option string :=
  if Forward (pd_v d) then None else Some (v_Error (pd_v d)).

Section Proxy.
Context `{GateIface}.

(** [decideLocked]. *)
Definition decideLocked (routes : gmap string route) (c : call) (sc : sessionCounter) :
    pdecision * sessionCounter :=
  let ci := with_counter (callInfo routes c) sc in
  finish c ci (iface_Decide ci) sc.

Definition too_large (c : call) : bool := slen (c_arguments c) >? maxArgumentBytes.

(** [decide] when nothing else holds the key's lock. *)
Definition decide_call (routes : gmap string route) (keys : gmap string sessionCounter) (c : call) :
    pdecision * gmap string sessionCounter :=
  if too_large c then
    ({| pd_v := refusalVerdict (callInfo routes c) ruleBadArguments reasonTooLarge parseTooLarge;
        pd_args := None |}, keys)
  else
    let '(sc, keys) := counters_get keys (counterKey c) in
    let '(d, sc) := decideLocked routes c sc in
    (d, <[counterKey c := sc]> keys).

(** [toolArguments]: a panic is closed with no names. *)
Definition toolArguments (server tool : string) : list string * bool :=
  match iface_Arguments server tool with Some r => r | None => ([], true) end.
End Proxy.

(** ** The advertised schema *)

Definition is_named (named : list string) (v : any) : bool :=
  match v with AStr s => mem s named | _ => false end.

Definition narrow_properties (m : list (string * any)) (named : list string) :
    list (string * any) * list string :=
  match obj_get m "properties" with
  | Some (AObj props) =>
      (obj_set m "properties" (AObj (List.filter (λ kv, mem (fst kv) named) props)),
       map fst (List.filter (λ kv, negb (mem (fst kv) named)) props))
  | _ => (m, [])
  end.

Definition narrow_required (m out : list (string * any)) (named : list string) : list (string * any) :=
  match obj_get m "required" with
  | Some (AArr req) => obj_set out "required" (AArr (List.filter (is_named named) req))
  | _ => out
  end.

Definition narrowSchema (schema : any) (named : list string) : any * list string :=
  match schema with
  | AObj m =>
      let '(out, dropped) := narrow_properties m named in
      let out := narrow_required m out named in
      (AObj (obj_set out "additionalProperties" (ABool false)), sort_strings dropped)
  | _ => (schema, [])
  end.

(** ** Re-encoding *)

Lemma keys_sorted_NoDup l : keys_sorted l = true → NoDup (map fst l).
Proof.
  induction l as [|[k v] l IH]; [constructor|]. cbn [keys_sorted map fst]. intros [Hk Hl]%andb_prop.
  constructor; [|by apply IH]. intros (e & -> & He)%list_elem_of_fmap. rewrite forallb_elem in Hk.
  specialize (Hk e He). unfold key_lt in Hk. assert (String.leb (fst e) (fst e) = true) as Hr; [|by rewrite Hr in Hk].
  destruct (str_le_total (fst e) (fst e)) as [H0|H0]; exact H0.
Qed.

(** The gate reads its own encoding back. *)
Lemma parse_encode `{GoFloat} l :
  wf_json float_in_range (AObj l) = true → (depth (AObj l) ≤ maxNestingDepth)%nat →
  parseArguments (json_encode (AObj l)) = Ok l.
Proof.
  intros Hw Hd. pose proof Hw as Hw'. cbn [wf_json] in Hw'. apply andb_prop in Hw' as [Hs Hall].
  assert (Hent : ∀ e, e ∈ l → (S (depth (snd e)) ≤ maxNestingDepth)%nat).
  { intros e He. etrans; [|exact Hd]. cbn [depth]. apply le_n_S. clear -He.
    induction l as [|x l IH]; [by apply not_elem_of_nil in He|]. cbn [foldr].
    apply elem_of_cons in He as [->|He]; [lia|]. specialize (IH He). lia. }
  change (json_encode (AObj l)) with (object_text l).
  rewrite parse_object_text; [|done|intros e He; specialize (Hent e He); lia].
  rewrite decide_True by (by apply keys_sorted_NoDup). f_equal.
  pose proof (run_object_text float_in_range maxNestingDepth false l Hall) as Hr.
  specialize (Hr ltac:(apply Nat.ltb_lt; by vm_compute) Hent). cbn [andb] in Hr.
  pose proof (json_decode_encode float_in_range (AObj l) Hw Hd) as Hj. unfold json_decode in Hj.
  change (json_encode (AObj l)) with (object_text l) in Hj. rewrite Hr in Hj. by injection Hj.
Qed.

(** C11: the upstream receives exactly the object the gate checked.  For
    arguments the gate accepts, absent and null arguments are sent as none, and
    otherwise the text sent is the canonical encoding of the gate's own object,
    which any JSON decoder, and the gate itself, reads back as that object; the
    one exception is a text nested more than 10000 deep, which is refused. *)
Theorem reencode_faithful `{GoFloat} raw entries :
  parseArguments raw = Ok entries →
  if String.eqb (trim_space raw) "" || String.eqb (trim_space raw) "null"
  then entries = [] ∧ reencode raw = Ok None
  else if (nest 0 (tokens (trim_space raw)) <=? maxNestingDepth)%nat
  then ∃ out, reencode raw = Ok (Some out) ∧ out = json_encode (AObj entries) ∧ parseArguments out = Ok entries ∧
    valid_utf8 out = true ∧ json_decode any_number out = Some (AObj entries) ∧
    json_decode float_in_range out = Some (AObj entries)
  else reencode raw = Err ErrJSON.
Proof.
  unfold parseArguments, reencode. set (t := trim_space raw).
  destruct (_ || _); [by intros [= <-]|]. destruct (valid_utf8 t); [|done]. cbn [negb].
  assert (Hrun : ∀ l, run float_in_range (S maxNestingDepth) true (tokens t) MVal [] = JOk (AObj l) [] →
    if (nest 0 (tokens t) <=? maxNestingDepth)%nat then
      run any_number maxNestingDepth false (tokens t) MVal [] = JOk (AObj l) [] ∧
      wf_json float_in_range (AObj l) = true ∧ wf_json any_number (AObj l) = true ∧
      (depth (AObj l) ≤ maxNestingDepth)%nat
    else run any_number maxNestingDepth false (tokens t) MVal [] = JBad).
  { intros l Hr. pose proof (run_nest _ _ _ any_number maxNestingDepth _ MVal [] _ (λ _ _, eq_refl) (Nat.le_0_l _) Hr) as Hr2.
    cbn [opened List.length] in Hr2. destruct (_ <=? _)%nat; [|done]. split; [done|].
    split; [|split].
    - eapply (run_wf _ _ _ (tokens t) MVal []); [by apply lex_good|done|constructor|exact Hr].
    - eapply (run_wf _ _ _ (tokens t) MVal []); [by apply lex_good|done|constructor|exact Hr2].
    - eapply (run_depth _ _ _ (tokens t) MVal []); [done|done|exact Hr2]. }
  destruct (tokens t) as [|[] ts] eqn:Et; try done.
  destruct (run float_in_range _ _ _ _ _) as [w rest| |] eqn:Er; [|done..].
  destruct w; try done. destruct rest; [|done]. intros [= <-]. specialize (Hrun _ eq_refl).
  destruct (_ <=? _)%nat; [|by rewrite Hrun].
  destruct Hrun as (-> & Hwf & Hwa & Hd). exists (json_encode (AObj l)). split; [done|]. split; [done|].
  split; [by apply parse_encode|]. split; [by eapply json_encode_valid|].
  split; by apply json_decode_encode.
Qed.

(** ** The counters *)

Lemma elem_of_dedupe_from x seen out l :
  (∀ y, y ∈ seen ↔ y ∈ out) → x ∈ dedupe_from seen out l ↔ x ∈ out ∨ x ∈ l.
Proof.
  revert seen out. induction l as [|t l IH]; intros seen out Hs; cbn [dedupe_from].
  { rewrite elem_of_nil. naive_solver. }
  destruct (mem t seen) eqn:E.
  - apply mem_true in E. rewrite IH by done. rewrite elem_of_cons. apply Hs in E. naive_solver.
  - rewrite IH; [rewrite elem_of_app, list_elem_of_singleton, elem_of_cons; naive_solver|].
    intros y. rewrite elem_of_cons, elem_of_app, list_elem_of_singleton, Hs. naive_solver.
Qed.

Lemma NoDup_dedupe_from seen out l :
  (∀ y, y ∈ seen ↔ y ∈ out) → NoDup out → NoDup (dedupe_from seen out l).
Proof.
  revert seen out. induction l as [|t l IH]; intros seen out Hs Hn; cbn [dedupe_from]; [done|].
  destruct (mem t seen) eqn:E; [by apply IH|]. apply mem_false in E. apply IH.
  - intros y. rewrite elem_of_cons, elem_of_app, list_elem_of_singleton, Hs. naive_solver.
  - apply NoDup_app. split; [done|]. split; [|apply NoDup_singleton].
    intros y Hy ->%list_elem_of_singleton. by apply E, Hs.
Qed.

Lemma elem_of_dedupe x l : x ∈ dedupe l ↔ x ∈ l.
Proof.
  unfold dedupe. destruct (_ <? _)%nat; [done|]. rewrite elem_of_dedupe_from by done. rewrite elem_of_nil. naive_solver.
Qed.

Lemma NoDup_dedupe l : NoDup (dedupe l).
Proof.
  unfold dedupe. destruct l as [|x [|y l]]; cbn [List.length Nat.ltb Nat.leb].
  - constructor.
  - apply NoDup_singleton.
  - apply NoDup_dedupe_from; [done|constructor].
Qed.

(** The targets a call adds to the count. *)
Definition fresh (s : sessionCounter) (l : list string) : list string :=
  List.filter (λ t, negb (counted s t)) (dedupe l).

Lemma counted_touch_one s t u : u ≠ t → counted (touch_one s t) u = counted s u.
Proof.
  intros Hne. unfold touch_one. destruct (counted s t); [done|]. destruct (_ <? _)%nat; [|done].
  unfold counted. cbn [touched]. apply bool_decide_ext. set_solver.
Qed.

Lemma touch_one_count s t :
  touchedCount (touch_one s t) = touchedCount s + (if counted s t then 0 else 1).
Proof.
  unfold touch_one. destruct (counted s t) eqn:E; [lia|]. apply bool_decide_eq_false in E.
  destruct (_ <? _)%nat; unfold touchedCount; cbn [touched extra]; [|lia].
  rewrite size_union, size_singleton by set_solver. lia.
Qed.

Lemma fold_touch_count l s :
  NoDup l →
  touchedCount (fold_left touch_one l s) =
  touchedCount s + Z.of_nat (List.length (List.filter (λ t, negb (counted s t)) l)).
Proof.
  revert s. induction l as [|t l IH]; intros s Hn; cbn [fold_left List.filter]; [cbn; lia|].
  apply NoDup_cons in Hn as [Ht Hn]. rewrite IH, touch_one_count by done.
  assert (Hf : List.filter (λ u, negb (counted (touch_one s t) u)) l = List.filter (λ u, negb (counted s u)) l).
  { clear -Ht. induction l as [|u l IH]; [done|]. cbn. apply not_elem_of_cons in Ht as [Hu Ht].
    rewrite counted_touch_one by done. by rewrite (IH Ht). }
  rewrite Hf. destruct (counted s t); cbn [negb List.length]; lia.
Qed.

(** The count grows by exactly the distinct targets not remembered. *)
Lemma touch_count s l : touchedCount (touch s l) = touchedCount s + Z.of_nat (List.length (fresh s l)).
Proof. apply fold_touch_count, NoDup_dedupe. Qed.

Lemma touch_subset s l : touched s ⊆ touched (touch s l) ⊆ touched s ∪ list_to_set l.
Proof.
  assert (H0 : ∀ l s, touched s ⊆ touched (fold_left touch_one l s) ⊆ touched s ∪ list_to_set l).
  { clear. induction l as [|t l IH]; intros s; cbn [fold_left list_to_set]; [set_solver|].
    destruct (IH (touch_one s t)) as [H1 H2].
    assert (touched s ⊆ touched (touch_one s t) ⊆ {[ t ]} ∪ touched s); [|set_solver].
    unfold touch_one. destruct (counted s t); [set_solver|]. destruct (_ <? _)%nat; cbn [touched]; set_solver. }
  destruct (H0 (dedupe l) s) as [H1 H2]. split; [done|]. etrans; [exact H2|].
  intros x. rewrite !elem_of_union, !elem_of_list_to_set, elem_of_dedupe. done.
Qed.

(** The devices a key's forwarded calls have reached, and the counter that
    stands for them: it remembers only such devices and counts no fewer. *)
Record counts (sent : gset string) (s : sessionCounter) : Prop := {
  counts_touched : touched s ⊆ sent;
  counts_high : Z.of_nat (size sent) <= touchedCount s;
}.

Lemma touch_counts sent s l : counts sent s → counts (sent ∪ list_to_set l) (touch s l).
Proof.
  intros [Ht Hc]. split.
  - destruct (touch_subset s l) as [_ Hs]. set_solver.
  - rewrite touch_count. unfold fresh.
    assert (Hsub : sent ∪ list_to_set l ⊆ sent ∪ list_to_set (List.filter (λ t, negb (counted s t)) (dedupe l))).
    { intros x. rewrite !elem_of_union, !elem_of_list_to_set. intros [?|Hx]; [by left|].
      destruct (decide (x ∈ sent)); [by left|right]. apply list_elem_of_In, List.filter_In. split.
      - apply list_elem_of_In. by apply elem_of_dedupe.
      - apply negb_true_iff, bool_decide_eq_false. set_solver. }
    apply subseteq_size in Hsub. set (f := List.filter _ _) in *.
    assert (size (sent ∪ list_to_set f) ≤ size sent + List.length f)%nat; [|lia].
    rewrite size_union_alt. apply Nat.add_le_mono_l. 
    etrans; [apply (subseteq_size _ (list_to_set f : gset string)); set_solver|]. clear. induction f as [|x f IH]; [done|]. cbn [list_to_set List.length].
    pose proof (size_union_alt {[x]} (list_to_set f : gset string)) as Hu.
    assert (size (list_to_set f ∖ {[x]} : gset string) ≤ size (list_to_set f : gset string))%nat
      by (apply subseteq_size; set_solver).
    rewrite size_singleton in Hu. lia.
Qed.

(** ** Concurrent calls

    Every tools/call runs on its own goroutine.  A call takes its counter key's
    lock, reads the counter, asks the gate, updates the counter and releases
    the lock; these are separate steps here, interleaved with every other
    call's. *)

Inductive thread :=
  | Waiting (c : call)                          (* for the key's lock *)
  | Holding (c : call)                          (* lock taken, counter not read *)
  | Deciding (c : call) (ci : CallInfo) (v : option Verdict)  (* Decide returned *)
  | Returned (d : option pdecision).            (* None: ctx ended while waiting *)

(** The calls decided so far, in the order they released the lock, are kept as
    history. *)
Record world := {
  w_keys : gmap string sessionCounter;
  w_locks : gmap string nat;
  w_threads : gmap nat thread;
  w_history : list (call * pdecision);
}.

Definition world0 : world := {| w_keys := ∅; w_locks := ∅; w_threads := ∅; w_history := [] |}.

Section Concurrent.
Context `{GateIface} (routes : gmap string route).

(** One counter key's calls, one after the other. *)
Definition replay (h : list (call * pdecision)) : gmap string sessionCounter :=
  foldl (λ keys cd, snd (decide_call routes keys (fst cd))) ∅ h.

Inductive step : world → world → Prop :=
  | step_too_large w i c :
      w_threads w !! i = None → too_large c = true →
      step w {| w_keys := w_keys w; w_locks := w_locks w;
                w_threads := <[i := Returned (Some (fst (decide_call routes ∅ c)))]> (w_threads w);
                w_history := w_history w |}
  | step_call w i c :
      w_threads w !! i = None → too_large c = false →
      step w {| w_keys := snd (counters_get (w_keys w) (counterKey c)); w_locks := w_locks w;
                w_threads := <[i := Waiting c]> (w_threads w); w_history := w_history w |}
  | step_lock w i c :
      w_threads w !! i = Some (Waiting c) → w_locks w !! counterKey c = None →
      step w {| w_keys := w_keys w; w_locks := <[counterKey c := i]> (w_locks w);
                w_threads := <[i := Holding c]> (w_threads w); w_history := w_history w |}
  | step_give_up w i c :
      w_threads w !! i = Some (Waiting c) →
      step w {| w_keys := w_keys w; w_locks := w_locks w;
                w_threads := <[i := Returned None]> (w_threads w); w_history := w_history w |}
  | step_decide w i c sc :
      w_threads w !! i = Some (Holding c) → w_keys w !! counterKey c = Some sc →
      step w {| w_keys := w_keys w; w_locks := w_locks w;
                w_threads := <[i := Deciding c (with_counter (callInfo routes c) sc)
                                     (iface_Decide (with_counter (callInfo routes c) sc))]> (w_threads w);
                w_history := w_history w |}
  | step_finish w i c ci v sc d sc' :
      w_threads w !! i = Some (Deciding c ci v) → w_keys w !! counterKey c = Some sc →
      finish c ci v sc = (d, sc') →
      step w {| w_keys := <[counterKey c := sc']> (w_keys w); w_locks := delete (counterKey c) (w_locks w);
                w_threads := <[i := Returned (Some d)]> (w_threads w);
                w_history := w_history w ++ [(c, d)] |}.

Definition reachable (w : world) : Prop := rtc step world0 w.

(** The counter of a key: a key never seen reads as a new one. *)
Definition counter_of (keys : gmap string sessionCounter) (k : string) : sessionCounter :=
  default new_counter (keys !! k).

(** The key whose lock a thread holds. *)
Definition holds (t : thread) : option string :=
  match t with Holding c | Deciding c _ _ => Some (counterKey c) | _ => None end.

(** What holds of a thread: the lock is its own while it decides, and what it
    has read is still the counter. *)
Definition thread_ok (w : world) (i : nat) (t : thread) : Prop :=
  match t with
  | Waiting c => too_large c = false ∧ is_Some (w_keys w !! counterKey c)
  | Holding c => too_large c = false ∧ is_Some (w_keys w !! counterKey c) ∧ w_locks w !! counterKey c = Some i
  | Deciding c ci v =>
      too_large c = false ∧ w_locks w !! counterKey c = Some i ∧
      ∃ sc, w_keys w !! counterKey c = Some sc ∧ ci = with_counter (callInfo routes c) sc ∧ v = iface_Decide ci
  | Returned None => True
  | Returned (Some d) =>
      (∃ c, (c, d) ∈ w_history w) ∨ (∃ c, too_large c = true ∧ d = fst (decide_call routes ∅ c))
  end.

Record inv (w : world) : Prop := {
  inv_threads : ∀ i t, w_threads w !! i = Some t → thread_ok w i t;
  inv_locks : ∀ k j, w_locks w !! k = Some j → ∃ t, w_threads w !! j = Some t ∧ holds t = Some k;
  inv_keys : ∀ k, counter_of (w_keys w) k = counter_of (replay (w_history w)) k;
  inv_history : ∀ h1 c d h2, w_history w = h1 ++ (c, d) :: h2 →
    too_large c = false ∧ d = fst (decide_call routes (replay h1) c);
}.

Lemma counters_get_counter keys k k' :
  counter_of (snd (counters_get keys k)) k' = counter_of keys k' ∧
  (is_Some (keys !! k') → snd (counters_get keys k) !! k' = keys !! k').
Proof.
  unfold counters_get, counter_of. destruct (keys !! k) eqn:E; [done|]. cbn [snd].
  destruct (decide (k = k')) as [<-|Hne]; [|by rewrite lookup_insert_ne].
  rewrite lookup_insert_eq, E. split; [done|]. by intros [? ?].
Qed.

Lemma decide_call_counter keys c :
  too_large c = false →
  decide_call routes keys c =
  let '(d, sc) := decideLocked routes c (counter_of keys (counterKey c)) in
  (d, <[counterKey c := sc]> (snd (counters_get keys (counterKey c)))).
Proof.
  intros Hl. unfold decide_call. rewrite Hl. unfold counters_get, counter_of.
  by destruct (keys !! counterKey c).
Qed.

Lemma thread_ok_mono w w' i t :
  thread_ok w i t →
  (∀ k, is_Some (w_keys w !! k) → is_Some (w_keys w' !! k)) →
  (∀ k, w_locks w !! k = Some i → w_locks w' !! k = Some i ∧ w_keys w' !! k = w_keys w !! k) →
  w_history w ⊆ w_history w' →
  thread_ok w' i t.
Proof.
  intros Ht Hk Hl Hh. destruct t as [c|c|c ci v|[d|]]; cbn in *.
  - naive_solver.
  - destruct Ht as (H1 & H2 & H3). destruct (Hl _ H3). naive_solver.
  - destruct Ht as (H1 & H2 & sc & H3 & H4 & H5). destruct (Hl _ H2) as [? Heq]. split; [done|]. split; [done|].
    exists sc. by rewrite Heq.
  - destruct Ht as [[c Hc]|?]; [left; exists c; by apply Hh|by right].
  - done.
Qed.

(** One thread moves to [t]; the others keep what they hold. *)
Lemma threads_update w i t keys locks h :
  let w' := {| w_keys := keys; w_locks := locks; w_threads := <[i := t]> (w_threads w); w_history := h |} in
  (∀ j u, w_threads w !! j = Some u → thread_ok w j u) →
  (∀ k, is_Some (w_keys w !! k) → is_Some (keys !! k)) →
  (∀ j k, j ≠ i → w_locks w !! k = Some j → locks !! k = Some j ∧ keys !! k = w_keys w !! k) →
  w_history w ⊆ h → thread_ok w' i t →
  ∀ j u, w_threads w' !! j = Some u → thread_ok w' j u.
Proof.
  cbv zeta. intros Hall Hk Hl Hh Hi j u. cbn [w_threads]. destruct (decide (j = i)) as [->|Hne].
  - rewrite lookup_insert_eq. by intros [= <-].
  - rewrite lookup_insert_ne by done. intros Hu%Hall. eapply thread_ok_mono; [done|done| |done].
    intros k Hlk. by apply Hl.
Qed.

(** A thread that held nothing, or moves without releasing, leaves every lock
    with its holder. *)
Lemma locks_update w i t k j :
  (∀ u, w_threads w !! i = Some u → holds u = Some k → holds t = Some k) →
  (∃ u, w_threads w !! j = Some u ∧ holds u = Some k) →
  ∃ u, <[i := t]> (w_threads w) !! j = Some u ∧ holds u = Some k.
Proof.
  intros Hi (u & Hu & Hk). destruct (decide (j = i)) as [->|Hne].
  - exists t. rewrite lookup_insert_eq. split; [done|]. by eapply Hi.
  - exists u. by rewrite lookup_insert_ne.
Qed.

Lemma locked_key w k j : inv w → w_locks w !! k = Some j → is_Some (w_keys w !! k).
Proof.
  intros [Ht Hlk _ _] Hj. destruct (Hlk k j Hj) as (t & Hjt & Hh). specialize (Ht j t Hjt).
  destruct t as [c|c|c ci v|d]; cbn in Hh, Ht; simplify_eq; naive_solver.
Qed.

Lemma inv_world0 : inv world0.
Proof. split; [done|done|done|]. by intros [] ? ? ?. Qed.

Lemma replay_snoc h c d : replay (h ++ [(c, d)]) = snd (decide_call routes (replay h) c).
Proof. unfold replay. by rewrite foldl_app. Qed.

Lemma inv_step_call w i c :
  inv w → w_threads w !! i = None → too_large c = false →
  inv {| w_keys := snd (counters_get (w_keys w) (counterKey c)); w_locks := w_locks w;
         w_threads := <[i := Waiting c]> (w_threads w); w_history := w_history w |}.
Proof.
  intros Hinv Hi Hl. pose proof Hinv as [Ht Hlk Hk Hh].
  assert (Hsame : ∀ k, is_Some (w_keys w !! k) → snd (counters_get (w_keys w) (counterKey c)) !! k = w_keys w !! k)
    by (intros k; apply counters_get_counter).
  split; cbn [w_keys w_history w_locks w_threads];
    [|intros k j Hj; apply locks_update; [by rewrite Hi|by apply Hlk]|intros k; rewrite <- Hk; apply counters_get_counter|done].
  apply threads_update; [done|intros k Hx; by rewrite Hsame|intros j k _ Hj; split; [done|by eapply Hsame, locked_key]|done|].
  cbn. split; [done|]. unfold counters_get. destruct (w_keys w !! counterKey c) eqn:E; cbn [snd]; [done|].
  by rewrite lookup_insert_eq.
Qed.

(** What a call computes under the lock is the atomic decision. *)
Lemma inv_step_finish w i c ci v sc d sc' :
  inv w → w_threads w !! i = Some (Deciding c ci v) → w_keys w !! counterKey c = Some sc →
  finish c ci v sc = (d, sc') →
  inv {| w_keys := <[counterKey c := sc']> (w_keys w); w_locks := delete (counterKey c) (w_locks w);
         w_threads := <[i := Returned (Some d)]> (w_threads w); w_history := w_history w ++ [(c, d)] |}.
Proof.
  intros [Ht Hlk Hk Hh] Hi Hc Hf.
  destruct (Ht _ _ Hi) as (Hl & Hown & sc0 & Hsc & -> & ->). rewrite Hc in Hsc. injection Hsc as <-.
  assert (Hcur : counter_of (replay (w_history w)) (counterKey c) = sc).
  { rewrite <- Hk. unfold counter_of. by rewrite Hc. }
  assert (Hdec : decide_call routes (replay (w_history w)) c =
    (d, <[counterKey c := sc']> (snd (counters_get (replay (w_history w)) (counterKey c))))).
  { rewrite decide_call_counter by done. rewrite Hcur. unfold decideLocked. by rewrite Hf. }
  split; cbn [w_keys w_history w_locks].
  - apply threads_update; [done| | |set_solver|cbn; left; exists c; set_solver].
    + intros k Hx. destruct (decide (counterKey c = k)) as [<-|]; [by rewrite lookup_insert_eq|by rewrite lookup_insert_ne].
    + intros j k Hj Hlj. destruct (decide (counterKey c = k)) as [<-|]; [congruence|].
      by rewrite lookup_delete_ne, lookup_insert_ne.
  - intros k j. destruct (decide (counterKey c = k)) as [<-|]; [by rewrite lookup_delete_eq|].
    rewrite lookup_delete_ne by done. intros Hj. apply locks_update; [|by apply Hlk].
    rewrite Hi. intros u [= <-]. cbn. congruence.
  - intros k. rewrite replay_snoc, Hdec. cbn [snd]. unfold counter_of.
    destruct (decide (counterKey c = k)) as [<-|]; [by rewrite !lookup_insert_eq|].
    rewrite !lookup_insert_ne by done. fold (counter_of (w_keys w) k). rewrite Hk.
    symmetry. apply (counters_get_counter (replay (w_history w)) (counterKey c) k).
  - intros h1 c' d' h2 Heq. destruct h2 as [|x h2 _] using rev_ind.
    + apply app_inj_tail in Heq as [<- [= <- <-]]. by rewrite Hdec.
    + rewrite app_comm_cons, app_assoc in Heq. apply app_inj_tail in Heq as [Heq _]. by apply (Hh _ _ _ _ Heq).
Qed.

Lemma inv_step w w' : inv w → step w w' → inv w'.
Proof.
  intros Hinv Hs. pose proof Hinv as [Ht Hlk Hk Hh].
  destruct Hs as [w i c Hi Hl|w i c Hi Hl|w i c Hi Hl|w i c Hi|w i c sc Hi Hc|w i c ci v sc d sc' Hi Hc Hf].
  - split; [| |done|done]; cbn [w_locks w_threads].
    + apply threads_update; [done..|]. cbn. right. by exists c.
    + intros k j Hj. apply locks_update; [by rewrite Hi|by apply Hlk].
  - by apply inv_step_call.
  - destruct (Ht _ _ Hi) as [Hsz Hkey]. split; cbn [w_keys w_locks w_history w_threads]; [| |done|done].
    + apply threads_update; [done|done| |done|].
      * intros j k Hne Hj. split; [|done]. destruct (decide (counterKey c = k)) as [<-|]; [congruence|by rewrite lookup_insert_ne].
      * cbn. split; [done|]. split; [done|]. by rewrite lookup_insert_eq.
    + intros k j. destruct (decide (counterKey c = k)) as [<-|].
      * rewrite lookup_insert_eq. intros [= <-]. exists (Holding c). by rewrite lookup_insert_eq.
      * rewrite lookup_insert_ne by done. intros Hj. apply locks_update; [|by apply Hlk]. rewrite Hi. by intros u [= <-].
  - split; [| |done|done]; cbn [w_locks w_threads].
    + by apply threads_update.
    + intros k j Hj. apply locks_update; [|by apply Hlk]. rewrite Hi. by intros u [= <-].
  - destruct (Ht _ _ Hi) as (Hsz & _ & Hown). split; [| |done|done]; cbn [w_locks w_threads].
    + apply threads_update; [done..|]. cbn. split; [done|]. split; [done|]. by exists sc.
    + intros k j Hj. apply locks_update; [|by apply Hlk]. rewrite Hi. by intros u [= <-].
  - by eapply inv_step_finish.
Qed.

Lemma reachable_inv w : reachable w → inv w.
Proof. unfold reachable. revert w. apply rtc_ind_r; [apply inv_world0|]. intros w w' _ Hs Hw. by eapply inv_step. Qed.

(** A call that has the lock returns a decision by its own steps alone, and
    releases the lock. *)
Lemma holder_returns w i c :
  inv w → (∃ t, w_threads w !! i = Some t ∧ holds t = Some (counterKey c)) →
  ∃ w' d, rtc step w w' ∧ w_threads w' !! i = Some (Returned (Some d)) ∧ w_locks w' !! counterKey c = None ∧
    ∀ j, j ≠ i → w_threads w' !! j = w_threads w !! j.
Proof.
  intros Hinv (t & Hi & Ht).
  assert (Hfin : ∀ w c' ci v, inv w → w_threads w !! i = Some (Deciding c' ci v) → counterKey c' = counterKey c →
    ∃ w' d, step w w' ∧ w_threads w' !! i = Some (Returned (Some d)) ∧ w_locks w' !! counterKey c = None ∧
      ∀ j, j ≠ i → w_threads w' !! j = w_threads w !! j).
  { clear. intros w c' ci v Hinv Hi Hc. destruct (inv_threads _ Hinv _ _ Hi) as (_ & _ & sc & Hsc & _).
    destruct (finish c' ci v sc) as [d sc'] eqn:Hf. eexists _, d. split; [by eapply step_finish|].
    cbn [w_threads w_locks]. rewrite lookup_insert_eq, <- Hc, lookup_delete_eq. split_and!; [done..|].
    intros j Hj. by rewrite lookup_insert_ne. }
  destruct t as [c'|c'|c' ci v|d]; cbn in Ht; simplify_eq.
  - destruct (inv_threads _ Hinv _ _ Hi) as (_ & [sc Hsc] & _).
    pose proof (step_decide w i c' sc Hi Hsc) as Hs. pose proof (inv_step _ _ Hinv Hs) as Hinv2.
    destruct (Hfin _ c' _ _ Hinv2 (lookup_insert_eq _ _ _) Ht) as (w' & d & Hs2 & Hd & Hlk & Hoth).
    exists w', d. split; [by eapply rtc_l, rtc_once|]. split_and!; [done..|].
    intros j Hj. rewrite Hoth by done. cbn. by rewrite lookup_insert_ne.
  - destruct (Hfin w c' ci v) as (w' & d & Hs2 & Hrest); [done..|]. exists w', d. split; [by apply rtc_once|done].
Qed.

(** No deadlock: a call that waits gets its decision once the call that holds
    its key's lock has finished, which it can do by itself. *)
Lemma call_returns w i t :
  inv w → w_threads w !! i = Some t → t ≠ Returned None →
  ∃ w' d, rtc step w w' ∧ w_threads w' !! i = Some (Returned (Some d)).
Proof.
  intros Hinv Hi Ht.
  assert (Hlock : ∀ w c, inv w → w_threads w !! i = Some (Waiting c) → w_locks w !! counterKey c = None →
    ∃ w' d, rtc step w w' ∧ w_threads w' !! i = Some (Returned (Some d))).
  { clear. intros w c Hinv Hi Hl. pose proof (step_lock w i c Hi Hl) as Hs.
    edestruct (holder_returns _ i c (inv_step _ _ Hinv Hs)) as (w' & d & Hr & Hd & _).
    { exists (Holding c). cbn. by rewrite lookup_insert_eq. }
    exists w', d. split; [by eapply rtc_l|done]. }
  destruct t as [c|c|c ci v|[d|]]; [| | | |done].
  - destruct (w_locks w !! counterKey c) as [j|] eqn:Hj; [|by eapply Hlock].
    pose proof (inv_locks _ Hinv _ _ Hj) as Hhold.
    destruct (holder_returns w j c Hinv Hhold) as (w1 & d1 & Hr & Hd & Hfree & Hoth).
    assert (i ≠ j) by (intros ->; destruct Hhold as (u & Hu & Hk); rewrite Hi in Hu; by injection Hu as <-).
    assert (Hinv1 : inv w1). { clear -Hinv Hr. induction Hr as [|? ? ? Hs _ IH]; [done|]. apply IH. by eapply inv_step. }
    destruct (Hlock w1 c) as (w2 & d2 & Hr2 & Hd2); [done|by rewrite Hoth|done|].
    exists w2, d2. split; [by etrans|done].
  - destruct (holder_returns w i c Hinv) as (w' & d & ? & ? & _); [by exists (Holding c)|]. by exists w', d.
  - destruct (holder_returns w i c Hinv) as (w' & d & ? & ? & _); [by exists (Deciding c ci v)|]. by exists w', d.
  - exists w, d. split; [constructor|done].
Qed.
End Concurrent.

(** C8: concurrent calls are decided as if one after the other.  In every
    interleaving, each decision returned is the refusal of an oversized call or
    appears in the history, where it is the decision the call gets on its own
    from the counters its predecessors left; the counters are those of the
    history; no two calls decide on one key at once; and from every such state
    a call whose agent has not given up can still get its decision. *)
Theorem decide_linearizable `{GateIface} routes w :
  reachable routes w →
  (∀ h1 c d h2, w_history w = h1 ++ (c, d) :: h2 → d = fst (decide_call routes (replay routes h1) c)) ∧
  (∀ k, counter_of (w_keys w) k = counter_of (replay routes (w_history w)) k) ∧
  (∀ i d, w_threads w !! i = Some (Returned (Some d)) →
     (∃ c, (c, d) ∈ w_history w) ∨ (∃ c, too_large c = true ∧ d = fst (decide_call routes ∅ c))) ∧
  (∀ i j c c' ci ci' v v', w_threads w !! i = Some (Deciding c ci v) → w_threads w !! j = Some (Deciding c' ci' v') →
     counterKey c = counterKey c' → i = j) ∧
  (∀ i t, w_threads w !! i = Some t → t ≠ Returned None →
     ∃ w' d, rtc (step routes) w w' ∧ w_threads w' !! i = Some (Returned (Some d))).
Proof.
  intros Hinv%reachable_inv. pose proof Hinv as [Ht _ Hk Hh]. split; [|split; [|split; [|split]]].
  - intros h1 c d h2 Heq. by apply (Hh _ _ _ _ Heq).
  - done.
  - intros i d Hi. apply (Ht _ _ Hi).
  - intros i j c c' ci ci' v v' Hi Hj Hc.
    destruct (Ht _ _ Hi) as (_ & Hli & _), (Ht _ _ Hj) as (_ & Hlj & _). congruence.
  - intros i t Hi Hne. by eapply call_returns.
Qed.

(** ** The device cap *)

(** What the proxy relies on from a gate: it forwards only while the devices
    touched, with the call's own new ones, stay within [cap]. *)
Class DeviceCap (G : GateIface) (cap : Z) : Prop :=
  device_cap ci v seen :
    iface_Decide ci = Some v → Forward v = true → Counted ci = Some seen →
    Z.of_nat (List.length (List.filter seen (dedupe (v_Targets v)))) <= in_DevicesTouched ci <= cap →
    in_DevicesTouched ci + Z.of_nat (List.length (List.filter (λ t, negb (seen t)) (dedupe (v_Targets v)))) <= cap.

(** The devices the forwarded calls of a key have reached. *)
Definition reached (k : string) (cd : call * pdecision) : gset string :=
  if String.eqb (counterKey (fst cd)) k && Forward (pd_v (snd cd))
  then list_to_set (v_Targets (pd_v (snd cd))) else ∅.

Definition sent (k : string) (h : list (call * pdecision)) : gset string := ⋃ (map (reached k) h).

Section Cap.
Context (G : GateIface) (cap : Z) `{!DeviceCap G cap} (routes : gmap string route).

Definition within (s : gset string) (sc : sessionCounter) : Prop := counts s sc ∧ touchedCount sc <= cap.

Lemma counted_few s sc l : counts s sc → Z.of_nat (List.length (List.filter (counted sc) (dedupe l))) <= touchedCount sc.
Proof.
  intros [Ht Hh]. etrans; [|exact Hh]. apply Nat2Z.inj_le.
  set (f := List.filter (counted sc) (dedupe l)).
  assert (Hf : List.NoDup f) by (apply List.NoDup_filter, NoDup_ListNoDup, NoDup_dedupe).
  apply NoDup_ListNoDup in Hf. rewrite <- (size_list_to_set (C := gset string) f Hf). apply subseteq_size.
  intros x. rewrite elem_of_list_to_set. intros Hx%list_elem_of_In. apply List.filter_In in Hx as [_ Hx].
  apply bool_decide_eq_true in Hx. set_solver.
Qed.

Lemma decideLocked_within c s sc :
  within s sc →
  let '(d, sc') := decideLocked routes c sc in within (s ∪ reached (counterKey c) (c, d)) sc'.
Proof.
  intros [Hc Hcap]. unfold decideLocked, reached. cbn [fst snd]. rewrite String.eqb_refl. cbn [andb].
  set (ci := with_counter (callInfo routes c) sc). unfold finish.
  assert (Hnone : ∀ v, Forward v = false → within (s ∪ (if Forward v then list_to_set (v_Targets v) else ∅)) sc).
  { intros v ->. split; [|done]. by rewrite union_empty_r_L. }
  destruct (iface_Decide ci) as [v|] eqn:Hd; [|by apply Hnone].
  destruct (Forward v) eqn:Hf; cbn [negb].
  2:{ cbn [pd_v]. destruct (String.eqb (v_Error v) ""); by apply Hnone. }
  destruct (reencode (c_arguments c)) as [args|e]; [|by apply Hnone].
  cbn [pd_v with_Error Forward v_Targets]. rewrite Hf. split; [by apply touch_counts|].
  rewrite touch_count. eapply (device_cap ci v); [done..|]. split; [|done].
  by apply counted_few with (s := s).
Qed.

Lemma replay_within h k :
  0 <= cap →
  (∀ h1 c d h2, h = h1 ++ (c, d) :: h2 → too_large c = false ∧ d = fst (decide_call routes (replay routes h1) c)) →
  within (sent k h) (counter_of (replay routes h) k).
Proof.
  intros H0. induction h as [|[c d] h IH] using rev_ind; intros Hh.
  { split; [split; [set_solver|done]|done]. }
  assert (Hin : within (sent k h) (counter_of (replay routes h) k)).
  { apply IH. intros h1 c' d' h2 ->. apply (Hh h1 c' d' (h2 ++ [(c, d)])). by rewrite <- app_assoc. }
  destruct (Hh h c d [] eq_refl) as [Hl ->]. rewrite replay_snoc, decide_call_counter by done.
  assert (Hs : ∀ x, sent k (h ++ [x]) = sent k h ∪ reached k x).
  { intros x. unfold sent. rewrite map_app, union_list_app_L. cbn. set_solver. }
  rewrite Hs. clear Hs.
  destruct (decideLocked routes c (counter_of (replay routes h) (counterKey c))) as [d sc'] eqn:Hdl.
  cbn [fst snd]. unfold counter_of at 1.
  destruct (decide (counterKey c = k)) as [<-|Hne].
  - rewrite lookup_insert_eq. cbn [default]. apply (decideLocked_within c) in Hin. by rewrite Hdl in Hin.
  - rewrite lookup_insert_ne by done.
    fold (counter_of (snd (counters_get (replay routes h) (counterKey c))) k).
    rewrite (proj1 (counters_get_counter _ _ k)).
    unfold reached. cbn [fst]. apply String.eqb_neq in Hne. rewrite Hne. cbn [andb]. by rewrite union_empty_r_L.
Qed.

(** C7: the session's device cap holds under concurrency.  With a gate that
    keeps the cap for the counts it is given, no interleaving of calls makes
    the forwarded calls of one counter key (a principal, or the process on
    stdio) reach more distinct devices than the cap; and the counter never
    reads below the devices reached. *)
Theorem session_cap w k :
  0 <= cap → reachable routes w →
  Z.of_nat (size (sent k (w_history w))) <= touchedCount (counter_of (w_keys w) k) <= cap.
Proof.
  intros H0 Hr%reachable_inv. rewrite (inv_keys _ _ Hr).
  destruct (replay_within (w_history w) k H0 (inv_history _ _ Hr)) as [[_ Hh] Hc]. done.
Qed.
End Cap.

(** ** The gate of Gate.v behind the interface *)

Definition gate_iface `{Unicode, GoFloat} (g : Gate) : GateIface :=
  {| iface_Decide ci := Some (Decide g ci);
     iface_Arguments server tool :=
       Some (match Gate_Arguments g server tool with Some named => (named, true) | None => ([], false) end) |}.

Lemma dedupe_NoDup l : NoDup l → dedupe l ≡ₚ l.
Proof. intros Hl. apply NoDup_Permutation; [apply NoDup_dedupe|done|]. intros x. apply elem_of_dedupe. Qed.

Lemma filter_length_perm (p : string → bool) l l' :
  l ≡ₚ l' → List.length (List.filter p l) = List.length (List.filter p l').
Proof. induction 1 as [|x l l' _ IH|x y l|l1 l2 l3 _ IH1 _ IH2]; cbn; [done| | |congruence]; repeat destruct (p _); cbn; lia. Qed.

Lemma filter_length_split (p : string → bool) l :
  (List.length (List.filter p l) + List.length (List.filter (λ t, negb (p t)) l) = List.length l)%nat.
Proof. induction l as [|x l IH]; cbn; [done|]. destruct (p x); cbn; lia. Qed.

(** The largest cap for which the int64 sums cannot wrap. *)
Definition cap_bound : Z := 2 ^ 62.

#[export] Instance gate_device_cap `{Unicode, GoFloat} g p cap :
  TCEq (g_policy g) (Some p) → TCEq (MaxDevices (Session_limits (policy_Defaults p))) cap →
  TCEq (0 <? cap) true → TCEq (cap <=? cap_bound) true → DeviceCap (gate_iface g) cap.
Proof.
  intros Hp%TCEq_eq Hm%TCEq_eq Hpos%TCEq_eq Hb%TCEq_eq ci v seen [= <-] Hf Hseen [Hfew Hle].
  apply Decide_forward in Hf as (entries & p' & _ & Hadm & Hpol & He & _). rewrite Hp in Hpol. injection Hpol as <-.
  apply admissible_names in Hadm as (Hnd & _ & Hlen). set (names := v_Targets (Decide g ci)) in *.
  pose proof (dedupe_NoDup names Hnd) as Hperm.
  rewrite (filter_length_perm seen _ _ Hperm) in Hfew. rewrite (filter_length_perm (λ t, negb (seen t)) _ _ Hperm).
  pose proof (filter_length_split seen names) as Hsplit. unfold cap_bound in Hb.
  set (req := request_of g ci (v_Class (Decide g ci)) names) in *.
  assert (Hdt : DevicesTouched (req_Session req) = in_DevicesTouched ci - Z.of_nat (List.length (List.filter seen names))).
  { change (devicesTouched ci names = in_DevicesTouched ci - Z.of_nat (List.length (List.filter seen names))).
    unfold devicesTouched. rewrite Hseen. clear -Hfew. lia. }
  assert (Htc : target_count req = Z.of_nat (List.length names)).
  { unfold target_count. cbn [req req_Targets request_of]. by rewrite length_map. }
  destruct (undenied_caps p req) as [Hcap _]; [by rewrite He|lia|lia|].
  rewrite Hm, Hdt, Htc in Hcap. lia.
Qed.

(** A gate whose policy caps a session at one device. *)
Definition capped_gate : Gate :=
  {| g_policy := Some {| Version := 1;
       policy_Defaults := {| UnknownTarget := Deny; Session_limits := {| MaxDevices := 1; MaxPending := 0 |} |};
       Rules := match g_policy sample_gate with Some p => Rules p | None => [] end |};
     g_profiles := g_profiles sample_gate; g_inventory := g_inventory sample_gate |}.

Definition http_call (args : string) : call :=
  {| c_up := {| up_name := "srv"; up_version := "2025-11-25"; up_era := eraStateful |}; c_tool := "run";
     c_arguments := args; c_agent_version := "2025-11-25"; c_transport := transportHTTP;
     c_principal := "alice"; c_sessionKey := "sABC" |}.

(** One call, waiting, then decided and forwarded. *)
Definition one_call : world :=
  let c := http_call (show_call "show version") in
  let '(d, keys) := @decide_call (@gate_iface ascii_tables plain_floats capped_gate) ∅ ∅ c in
  {| w_keys := keys; w_locks := ∅; w_threads := {[ 0%nat := Returned (Some d) ]}; w_history := [(c, d)] |}.

Lemma one_call_reachable : @reachable (@gate_iface ascii_tables plain_floats capped_gate) ∅ one_call.
Proof.
  set (c := http_call (show_call "show version")).
  eapply rtc_l; [apply (step_call _ _ 0%nat c); by vm_compute|].
  eapply rtc_l; [apply (step_lock _ _ 0%nat c); by vm_compute|].
  eapply rtc_l; [apply (step_decide _ _ 0%nat c new_counter); by vm_compute|].
  eapply rtc_l; [eapply (step_finish _ _ 0%nat c); [by vm_compute..|reflexivity]|].
  assert (Hw : ∀ w w' : world, w = w' → rtc (@step (@gate_iface ascii_tables plain_floats capped_gate) ∅) w w')
    by (intros w ? ->; constructor).
  apply Hw. by vm_compute.
Qed.

Lemma session_cap_witness :
  ∃ (HU : Unicode) (HF : GoFloat),
    Z.of_nat (size (sent "principal:alice" (w_history one_call))) <=
      touchedCount (counter_of (w_keys one_call) "principal:alice") <= 1 ∧
    sent "principal:alice" (w_history one_call) = {[ "core-1" ]}.
Proof.
  exists ascii_tables, plain_floats. split; [|by vm_compute].
  apply (session_cap (@gate_iface ascii_tables plain_floats capped_gate) 1 ∅); [done|apply one_call_reachable].
Defined.

Lemma decide_linearizable_witness :
  ∃ G : GateIface, ∀ h1 c d h2, w_history one_call = h1 ++ (c, d) :: h2 →
    d = fst (decide_call ∅ (replay ∅ h1) c).
Proof.
  exists (@gate_iface ascii_tables plain_floats capped_gate).
  apply (@decide_linearizable (@gate_iface ascii_tables plain_floats capped_gate) ∅ one_call one_call_reachable).
Defined.

Lemma reencode_faithful_witness :
  ∃ H : GoFloat, let raw := (" " ++ object_text [("b", ANum "1"); ("a", AStr "x")])%string in
    parseArguments raw = Ok [("a", AStr "x"); ("b", ANum "1")] ∧
    ∃ out, reencode raw = Ok (Some out) ∧ parseArguments out = Ok [("a", AStr "x"); ("b", ANum "1")].
Proof.
  exists plain_floats. cbv zeta. split; [by vm_compute|].
  pose proof (@reencode_faithful plain_floats (" " ++ object_text [("b", ANum "1"); ("a", AStr "x")])%string
    [("a", AStr "x"); ("b", ANum "1")] eq_refl) as Hr.
  destruct (String.eqb (trim_space _) "" || _) eqn:E1 in Hr; [by vm_compute in E1|].
  destruct (nest 0 _ <=? maxNestingDepth)%nat eqn:E2 in Hr; [|by vm_compute in E2].
  destruct Hr as (out & H1 & _ & H2 & _). exists out. exact (conj H1 H2).
Defined.

(** *** Nesting past the limit *)

(** [n] arrays, one in the other. *)
Fixpoint nested (n : nat) : any :=
  match n with O => AArr [] | S n => AArr [nested n] end.

Lemma nested_facts num_ok n :
  wf_json num_ok (nested n) = true ∧ depth (nested n) = S n ∧
  ∀ o ts, (o + S n ≤ nest o (toks (nested n) ++ ts))%nat.
Proof.
  induction n as [|n (Hw & Hd & Hn)]; cbn [nested].
  - split; [done|]. split; [done|]. intros o ts. cbn [toks commas map app nest]. pose proof (nest_ge (S o) ts). lia.
  - split; [cbn [wf_json forallb]; by rewrite Hw|]. split.
    + cbn [depth foldr]. rewrite Hd. lia.
    + intros o ts. cbn [toks map commas app nest]. rewrite <- app_assoc. etrans; [|apply Nat.le_max_r].
      etrans; [|apply (Hn (S o))]. lia.
Qed.

(** The sample call, with a value nested [n] deep in an argument the profile
    passes through unread. *)
Definition deep_entries (v : any) : list (string * any) :=
  [("command", AStr "show version"); ("host", AStr "core-1"); ("timeout", v)].

Definition deep_arguments : string := object_text (deep_entries (nested (pred maxNestingDepth))).

Lemma deep_parse `{GoFloat} :
  parseArguments deep_arguments = Ok (deep_entries (nested (pred maxNestingDepth))).
Proof.
  unfold deep_arguments. set (v := nested _). destruct (nested_facts float_in_range (pred maxNestingDepth)) as (Hw & Hd & _).
  fold v in Hw, Hd. clearbody v. rewrite parse_object_text.
  - by rewrite decide_True by (apply (bool_decide_unpack _); by vm_compute).
  - cbn. by rewrite Hw.
  - intros e He. unfold deep_entries in He. repeat (apply elem_of_cons in He as [->|He]; [cbn [snd]|]).
    + apply Nat.le_0_l.
    + apply Nat.le_0_l.
    + by rewrite Hd.
    + by apply not_elem_of_nil in He.
Qed.

Lemma nest_tail n o t ts :
  (n ≤ nest (match t with TLBrace | TLBrack => S o | TRBrace | TRBrack => pred o | _ => o end) ts)%nat →
  (n ≤ nest o (t :: ts))%nat.
Proof. cbn [nest]. lia. Qed.

Lemma deep_nest n v :
  (∀ o ts, (o + S n ≤ nest o (toks v ++ ts))%nat) →
  (S (S n) ≤ nest 0 (TLBrace :: commas (map entry_toks (deep_entries v)) ++ [TRBrace]))%nat.
Proof.
  intros Hn. unfold deep_entries, entry_toks. cbn [map fst snd commas app toks].
  do 11 apply nest_tail. exact (Hn 1%nat [TRBrace]).
Qed.

Lemma deep_reencode : reencode deep_arguments = Err ErrJSON.
Proof.
  unfold reencode, deep_arguments. set (v := nested _).
  destruct (nested_facts any_number (pred maxNestingDepth)) as (Hw & Hd & Hn). fold v in Hw, Hd, Hn. clearbody v.
  assert (He : wf_entries any_number (deep_entries v) = true) by (cbn; by rewrite Hw).
  rewrite (trim_object_text any_number) by done.
  replace (_ || _) with false by done.
  assert (Hr : run any_number (S maxNestingDepth) false (tokens (object_text (deep_entries v))) MVal [] =
    JOk (AObj (set_all [] (deep_entries v))) []).
  { apply (run_object_text any_number (S maxNestingDepth) false); [done|apply Nat.lt_0_succ|].
    intros e Hin. apply le_n_S. unfold deep_entries in Hin. repeat (apply elem_of_cons in Hin as [->|Hin]; [cbn [snd]|]);
      [apply Nat.le_0_l..| |by apply not_elem_of_nil in Hin]. by rewrite Hd. }
  rewrite (run_nest _ _ _ any_number maxNestingDepth _ MVal [] _ (λ _ _, eq_refl) (Nat.le_0_l _) Hr).
  rewrite (proj2 (Nat.leb_gt _ _)); [done|]. rewrite (tokens_object any_number) by done.
  apply (deep_nest (pred maxNestingDepth) v Hn).
Qed.

(** The sample gate does not look into the value it passes through. *)
Lemma deep_forward `{Unicode, GoFloat} raw v ci :
  parseArguments raw = Ok (deep_entries v) → ci = with_counter (callInfo ∅ (http_call raw)) new_counter →
  Forward (Decide sample_gate ci) = true.
Proof.
  intros Hp ->. unfold Decide, gate_decide.
  change (in_Arguments (with_counter (callInfo ∅ (http_call raw)) new_counter)) with raw. rewrite Hp.
  by vm_compute.
Qed.

(** the gate can allow a call whose arguments the proxy then refuses.  A
    value nested exactly as deep as one JSON value may be, in an argument the
    profile passes through, is read by the gate, which decodes each argument by
    itself, and not by [reencode], which decodes the whole object: the call is
    refused as bad arguments, and its targets are not counted. *)
Theorem deep_arguments_refused `{Unicode, GoFloat} :
  Forward (Decide sample_gate (with_counter (callInfo ∅ (http_call deep_arguments)) new_counter)) = true ∧
  let r := @decideLocked (gate_iface sample_gate) ∅ (http_call deep_arguments) new_counter in
  Forward (pd_v (fst r)) = false ∧ v_RuleID (pd_v (fst r)) = ruleBadArguments ∧ pd_args (fst r) = None ∧
  snd r = new_counter.
Proof.
  pose proof (deep_forward deep_arguments _ _ deep_parse eq_refl) as Hf. split; [exact Hf|]. cbv zeta.
  unfold decideLocked, finish. cbn [gate_iface iface_Decide]. rewrite Hf. cbn [negb].
  change (c_arguments (http_call deep_arguments)) with deep_arguments. rewrite deep_reencode.
  clear Hf. cbn [fst snd pd_v pd_args]. repeat split.
Qed.

(** ** The narrowed schema *)

Definition schema_properties (schema : any) : list (string * any) :=
  match schema with
  | AObj m => match obj_get m "properties" with Some (AObj props) => props | _ => [] end
  | _ => []
  end.

Definition schema_required (schema : any) : list any :=
  match schema with
  | AObj m => match obj_get m "required" with Some (AArr req) => req | _ => [] end
  | _ => []
  end.

Lemma elem_of_filter_bool {A} (p : A → bool) l x : x ∈ List.filter p l ↔ x ∈ l ∧ p x = true.
Proof. rewrite !list_elem_of_In. apply List.filter_In. Qed.

Lemma narrow_properties_spec m named :
  let '(o, d) := narrow_properties m named in
  (∀ k v, (k, v) ∈ schema_properties (AObj o) ↔ (k, v) ∈ schema_properties (AObj m) ∧ k ∈ named) ∧
  (∀ k, k ∈ d ↔ k ∉ named ∧ ∃ v, (k, v) ∈ schema_properties (AObj m)) ∧
  ∀ k, k ≠ "properties" → obj_get o k = obj_get m k.
Proof.
  unfold narrow_properties, schema_properties.
  destruct (obj_get m "properties") as [[| | | | | |props]|] eqn:E;
    try (rewrite E; split_and!; [intros k v|intros k|done]; setoid_rewrite elem_of_nil; naive_solver).
  rewrite obj_get_set_eq. split_and!.
  - intros k v. rewrite elem_of_filter_bool. cbn [fst]. by rewrite mem_true.
  - intros k. rewrite list_elem_of_fmap. setoid_rewrite elem_of_filter_bool. setoid_rewrite negb_true_iff.
    setoid_rewrite mem_false. split.
    + intros ([k' v] & -> & Hin & Hn). cbn in *. eauto.
    + intros (Hn & v & Hin). by exists (k, v).
  - intros k Hk. by rewrite obj_get_set_ne.
Qed.

Lemma narrow_required_spec m o named :
  obj_get o "required" = obj_get m "required" →
  let o' := narrow_required m o named in
  (∀ r, r ∈ schema_required (AObj o') ↔ r ∈ schema_required (AObj m) ∧ ∃ s, r = AStr s ∧ s ∈ named) ∧
  ∀ k, k ≠ "required" → obj_get o' k = obj_get o k.
Proof.
  intros Ho. cbv zeta. unfold narrow_required, schema_required.
  destruct (obj_get m "required") as [[| | | | |req|]|] eqn:E;
    try (rewrite Ho; split; [intros r; rewrite elem_of_nil; naive_solver|done]).
  rewrite obj_get_set_eq. split.
  - intros r. rewrite elem_of_filter_bool. apply and_iff_compat_l. unfold is_named.
    destruct r; try (split; [done|by intros (? & ? & _)]). rewrite mem_true. split; [eauto|]. by intros (? & [= <-] & ?).
  - intros k Hk. by rewrite obj_get_set_ne.
Qed.

(** the schema advertised for a closed tool offers exactly the named
    arguments.  A property is offered, with its own schema, exactly when the
    upstream offered it and the profile names it; what is required is what was
    required among those; nothing further is allowed; every other keyword is
    the upstream's; and the properties reported as dropped are the rest, in
    order. *)
Theorem narrowSchema_correct m named :
  let '(out, dropped) := narrowSchema (AObj m) named in
  (∀ k v, (k, v) ∈ schema_properties out ↔ (k, v) ∈ schema_properties (AObj m) ∧ k ∈ named) ∧
  (∀ r, r ∈ schema_required out ↔ r ∈ schema_required (AObj m) ∧ ∃ s, r = AStr s ∧ s ∈ named) ∧
  (∀ k, k ∈ dropped ↔ k ∉ named ∧ ∃ v, (k, v) ∈ schema_properties (AObj m)) ∧
  Sorted str_le dropped ∧
  ∃ o, out = AObj o ∧ obj_get o "additionalProperties" = Some (ABool false) ∧
    ∀ k, k ∉ ["properties"; "required"; "additionalProperties"] → obj_get o k = obj_get m k.
Proof.
  unfold narrowSchema. pose proof (narrow_properties_spec m named) as Hp.
  destruct (narrow_properties m named) as [o1 d]. destruct Hp as (Hprops & Hdrop & Hrest).
  destruct (narrow_required_spec m o1 named) as [Hreq Hrest2]; [by apply Hrest|]. cbv zeta in Hreq, Hrest2.
  set (o2 := narrow_required m o1 named) in *. split; [|split; [|split; [|split]]].
  - intros k v. rewrite <- Hprops. unfold schema_properties. by rewrite obj_get_set_ne, Hrest2.
  - intros r. rewrite <- Hreq. unfold schema_required. by rewrite obj_get_set_ne.
  - intros k. rewrite elem_of_sort_strings. apply Hdrop.
  - apply sort_strings_sorted.
  - exists (obj_set o2 "additionalProperties" (ABool false)). split; [done|]. split; [apply obj_get_set_eq|].
    intros k Hk. rewrite obj_get_set_ne, Hrest2, Hrest by (intros Heq; subst k; apply Hk; set_solver). done.
Qed.
