(* ===== verification/Routing.v ===== *)
(** * Starting the proxy: internal/proxy/proxy.go

    [New]: each configured upstream is connected and listed once and its tools
    are exposed as "<server>.<tool>"; then the middlewares that refuse an
    unknown tool and a capability the proxy does not declare.  Connecting,
    listing and go-sdk's own checks are answers of the surroundings.  Theorems:
    the routes are exactly the tools that can be exposed, each under the one
    name that leads back to it; an unknown name gets the error that says why. *)

From S2P Require Import Prelude GoStd GoNetip Json JsonMarshal Names Values Gate ProxyGate Prompts Hints.

Open Scope string_scope.
Open Scope Z_scope.
Open Scope list_scope.

Definition maxUpstreamTools : nat := 1024.

(** mcp.Tool: its texts, schemas and annotations; [tl_destructive] is the
    annotations' DestructiveHint. *)
Record tool := {
  tl_Name : string; tl_Title : string; tl_Description : string; tl_InputSchema : any; tl_OutputSchema : option any;
  tl_Annotations : option any; tl_destructive : option bool;
}.

(** One configured upstream and what it answers: the version and whether it
    was opened with the handshake, or why not; the tools it lists, with nil
    ones and where the listing fails; the hints read from the wire. *)
Record configured := {
  cf_Server : string; cf_NewTransport : bool; cf_connected : result string (string * bool);
  cf_tools : list (result string (option tool)); cf_hints : gmap string bool;
}.

Inductive new_error :=
  | NoUpstream | BadServer (e : name_error) | ConfiguredTwice (server : string) | NoTransport (server : string)
  | NotConnected (server err : string) | NotListed (server err : string) | TooManyTools (server : string)
  | ListedTwice (server tool : string) | Collides (name : string).

(** The part of [Proxy] that New builds, with the tools given to the go-sdk server. *)
Record table := { tb_upstreams : gmap string upstream; tb_routes : gmap string route; tb_exposed : gmap string tool }.

Definition empty_table : table := {| tb_upstreams := ∅; tb_routes := ∅; tb_exposed := ∅ |}.

(** [listTools]: the tools read so far, and the rest of the listing. *)
Fixpoint listTools (server : string) (tools : list (option tool)) (listing : list (result string (option tool))) :
    result new_error (list (option tool)) :=
  match listing with
  | [] => Ok tools
  | Err e :: _ => Err (NotListed server e)
  | Ok t :: rest =>
      if (List.length tools =? maxUpstreamTools)%nat then Err (TooManyTools server) else listTools server (tools ++ [t]) rest
  end.

(** [checkInputSchema]: whether the schema is accepted. *)
Definition checkInputSchema (s : any) : bool :=
  match s with
  | AObj m => match obj_get m "type" with Some (AStr t) => String.eqb t "object" | _ => false end
  | _ => false
  end.

Section New.
(** Whether there is a gate; whether Server.AddTool takes a tool. *)
Context `{GateIface} (gated : bool) (accepts : tool → bool).

(** The schema advertised, and whether the tool's argument list is closed. *)
Definition advertised (server : string) (t : tool) : any * bool :=
  if gated then
    match toolArguments server (tl_Name t) with
    | (named, true) => (fst (narrowSchema (tl_InputSchema t) named), true)
    | (_, false) => (tl_InputSchema t, false)
    end
  else (tl_InputSchema t, false).

Definition exposed (server : string) (t : tool) : tool :=
  {| tl_Name := prefixName server (tl_Name t); tl_Title := tl_Title t; tl_Description := tl_Description t;
     tl_InputSchema := fst (advertised server t); tl_OutputSchema := tl_OutputSchema t; tl_Annotations := tl_Annotations t;
     tl_destructive := tl_destructive t |}.

Definition make_route (server : string) (hints : gmap string bool) (t : tool) : route :=
  {| route_up := server; route_tool := tl_Name t; route_readOnly := hints !! tl_Name t;
     route_destructive := match tl_Annotations t with Some _ => tl_destructive t | None => None end;
     route_closed := snd (advertised server t) |}.

(** [addUpstreamTools]: [seen] are the names met so far. *)
Fixpoint add_tools (server : string) (hints : gmap string bool) (seen : list string) (tb : table) (tools : list (option tool)) :
    result new_error table :=
  match tools with
  | [] => Ok tb
  | None :: tools => add_tools server hints seen tb tools
  | Some t :: tools =>
      if mem (tl_Name t) seen then Err (ListedTwice server (tl_Name t))
      else
        let seen := tl_Name t :: seen in
        match validUpstreamToolName server (tl_Name t) with
        | Some _ => add_tools server hints seen tb tools
        | None =>
            if negb (checkInputSchema (tl_InputSchema t)) then add_tools server hints seen tb tools
            else
              let name := prefixName server (tl_Name t) in
              match tb_routes tb !! name with
              | Some _ => Err (Collides name)
              | None =>
                  if accepts (exposed server t) then
                    add_tools server hints seen
                      {| tb_upstreams := tb_upstreams tb; tb_routes := <[name := make_route server hints t]> (tb_routes tb);
                         tb_exposed := <[name := exposed server t]> (tb_exposed tb) |} tools
                  else add_tools server hints seen tb tools
              end
        end
  end.

Definition addUpstreamTools (cf : configured) (tb : table) (tools : list (option tool)) : result new_error table :=
  add_tools (cf_Server cf) (cf_hints cf) [] tb tools.

(** [connectUpstream], once connected. *)
Definition connected_upstream (cf : configured) (version : string) (handshake : bool) : upstream :=
  {| up_name := cf_Server cf; up_version := version; up_era := upstreamEra version handshake |}.

Definition add_upstream (tb : table) (cf : configured) : result new_error table :=
  match ValidateServerName (cf_Server cf) with
  | Some e => Err (BadServer e)
  | None =>
      match tb_upstreams tb !! cf_Server cf with
      | Some _ => Err (ConfiguredTwice (cf_Server cf))
      | None =>
          if negb (cf_NewTransport cf) then Err (NoTransport (cf_Server cf))
          else match cf_connected cf with
          | Err e => Err (NotConnected (cf_Server cf) e)
          | Ok (version, handshake) =>
              let tb := {| tb_upstreams := <[cf_Server cf := connected_upstream cf version handshake]> (tb_upstreams tb);
                           tb_routes := tb_routes tb; tb_exposed := tb_exposed tb |} in
              match listTools (cf_Server cf) [] (cf_tools cf) with
              | Err e => Err e
              | Ok tools => addUpstreamTools cf tb tools
              end
          end
      end
  end.

Fixpoint add_upstreams (tb : table) (cfs : list configured) : result new_error table :=
  match cfs with
  | [] => Ok tb
  | cf :: cfs => match add_upstream tb cf with Ok tb => add_upstreams tb cfs | Err e => Err e end
  end.

Definition New (cfs : list configured) : result new_error table :=
  match cfs with [] => Err NoUpstream | _ => add_upstreams empty_table cfs end.

(** [toolCount]. *)
Definition toolCount (tb : table) (server : string) : nat := size (filter (λ kv : string * route, route_up kv.2 = server) (tb_routes tb)).

End New.

(** ** What the agent may ask for *)

Definition reasonUnprefixed : string := "unprefixed".
Definition reasonUnknownServer : string := "unknown_server".
Definition reasonUnknownTool : string := "unknown_tool".

Definition unknownToolData (tool reason : string) (servers : list string) : any :=
  AObj [("tool", AStr tool); ("reason", AStr reason); ("servers", AArr (map AStr servers))].

Definition undeclaredCapability (method : string) : string :=
  if mem method ["prompts/list"; "prompts/get"] then "prompts"
  else if mem method ["resources/list"; "resources/read"; "resources/templates/list"; "resources/subscribe"; "resources/unsubscribe"]
  then "resources"
  else if String.eqb method "logging/setLevel" then "logging"
  else if String.eqb method "completion/complete" then "completions"
  else "".

Definition CodeMethodNotFound : Z := -32601.

Section Middleware.
Context `{Unicode}.

(** [refuseUndeclared]: the error, or on to the next. *)
Definition refuseUndeclared (method : string) : option rpc_error :=
  let capability := undeclaredCapability method in
  if String.eqb capability "" then None
  else Some {| je_Code := CodeMethodNotFound;
    je_Message := ("method " ++ quote method ++ " is not supported: fathomgate does not declare the " ++ capability ++ " capability")%string;
    je_Data := "" |}.

Definition unknown_reason (tb : table) (name : string) : string :=
  match splitName name with
  | None => reasonUnprefixed
  | Some (server, _) => match tb_upstreams tb !! server with None => reasonUnknownServer | Some _ => reasonUnknownTool end
  end.

Definition unknownTool (tb : table) (name : string) : rpc_error :=
  let servers := sort_strings (map fst (map_to_list (tb_upstreams tb))) in
  let shown := clip name in
  {| je_Code := CodeInvalidParams;
     je_Message := ("unknown tool " ++ quote shown ++ ": " ++
       match splitName name with
       | None => "tool names are <server>.<tool>; servers: " ++ join ", " servers
       | Some (server, tool) =>
           match tb_upstreams tb !! server with
           | None => "no upstream server " ++ quote (clip server) ++ "; servers: " ++ join ", " servers
           | Some _ => "server " ++ server ++ " has no tool " ++ quote (clip tool)
           end
       end)%string;
     je_Data := marshal (unknownToolData shown (unknown_reason tb name) servers) |}.

(** [checkToolName]: [name] is the tool of a tools/call with parameters. *)
Definition checkToolName (tb : table) (name : option string) : option rpc_error :=
  match name with
  | Some name => match tb_routes tb !! name with None => Some (unknownTool tb name) | Some _ => None end
  | None => None
  end.

End Middleware.

(** ** The routes *)

Section Routes.
Context `{GateIface} (gated : bool) (accepts : tool → bool).

(** A listed tool that can be exposed: its prefixed name is valid, its input
    schema is an object's and go-sdk takes it. *)
Definition exposable (server : string) (t : tool) : bool :=
  match validUpstreamToolName server (tl_Name t) with Some _ => false | None => true end &&
  checkInputSchema (tl_InputSchema t) && accepts (exposed gated server t).

Definition entry_at (server : string) (hints : gmap string bool) (t : tool) (name : string) (r : route) : Prop :=
  exposable server t = true ∧ name = prefixName server (tl_Name t) ∧ r = make_route gated server hints t.

Lemma add_tools_ok server hints tools : ∀ seen tb tb', add_tools gated accepts server hints seen tb tools = Ok tb' →
  tb_upstreams tb' = tb_upstreams tb ∧
  (∀ name r, tb_routes tb' !! name = Some r ↔ tb_routes tb !! name = Some r ∨ ∃ t, Some t ∈ tools ∧ entry_at server hints t name r) ∧
  (∀ name x, tb_exposed tb' !! name = Some x → tb_exposed tb !! name = Some x ∨ ∃ t, Some t ∈ tools ∧ exposable server t = true ∧
    name = prefixName server (tl_Name t) ∧ x = exposed gated server t).
Proof.
  induction tools as [| [t|] tools IH]; intros seen tb tb'; cbn [add_tools].
  - intros [= <-]. split; [done|]. split; [|by left]. intros name r. split; [by left|]. intros [?|(t & ?%not_elem_of_nil & _)]; done.
  - destruct (mem (tl_Name t) seen); [done|].
    assert (Hskip : exposable server t = false → add_tools gated accepts server hints (tl_Name t :: seen) tb tools = Ok tb' →
      tb_upstreams tb' = tb_upstreams tb ∧
      (∀ name r, tb_routes tb' !! name = Some r ↔ tb_routes tb !! name = Some r ∨ ∃ t', Some t' ∈ Some t :: tools ∧ entry_at server hints t' name r) ∧
      (∀ name x, tb_exposed tb' !! name = Some x → tb_exposed tb !! name = Some x ∨ ∃ t', Some t' ∈ Some t :: tools ∧ exposable server t' = true ∧
        name = prefixName server (tl_Name t') ∧ x = exposed gated server t')).
    { intros Hno Hadd. destruct (IH _ _ _ Hadd) as (E1 & E2 & E3). split; [done|]. split.
      - intros name r. rewrite E2. split; (intros [?|(t' & Hin & He)]; [by left|right; exists t']); [split; [by right|done]|].
        apply elem_of_cons in Hin as [ [= ->]|Hin]; [destruct He as [He _]; congruence|done].
      - intros name x [?|(t' & Hin & He)]%E3; [by left|right; exists t'; split; [by right|done] ]. }
    destruct (validUpstreamToolName server (tl_Name t)) eqn:Hv; [apply Hskip; unfold exposable; by rewrite Hv|].
    destruct (checkInputSchema (tl_InputSchema t)) eqn:Hc; cbn [negb]; [|apply Hskip; unfold exposable; by rewrite Hv, Hc].
    destruct (tb_routes tb !! prefixName server (tl_Name t)) eqn:Hr; [done|].
    destruct (accepts (exposed gated server t)) eqn:Ha; [|apply Hskip; unfold exposable; by rewrite Hv, Hc, Ha].
    intros Hadd. destruct (IH _ _ _ Hadd) as (E1 & E2 & E3). cbn in E1, E2, E3.
    assert (Hex : exposable server t = true) by (unfold exposable; by rewrite Hv, Hc, Ha). split; [done|]. split.
    + intros name r. rewrite E2, lookup_insert_Some. split.
      * intros [ [ [<- <-]|[_ ?] ]|(t' & Hin & He)]; [right; exists t; split; [by left|done]|by left|right; exists t'; split; [by right|done] ].
      * intros [Hold|(t' & [ [= ->]|Hin]%elem_of_cons & He)]; [left; right; split; [congruence|done]| |right; by exists t'].
        destruct He as (_ & -> & ->). left; left. done.
    + intros name x [Hx|(t' & Hin & He)]%E3; [|right; exists t'; split; [by right|done] ].
      apply lookup_insert_Some in Hx as [ [<- <-]|[_ ?] ]; [|by left]. right. exists t. split; [by left|done].
  - intros Hadd. destruct (IH _ _ _ Hadd) as (E1 & E2 & E3). split; [done|]. split.
    + intros name r. rewrite E2. split; (intros [?|(t' & Hin & He)]; [by left|right; exists t']); [split; [by right|done]|].
      apply elem_of_cons in Hin as [?|Hin]; [done|done].
    + intros name x [?|(t' & Hin & He)]%E3; [by left|right; exists t'; split; [by right|done] ].
Qed.

(** The only collision the check could find is a tool listed twice, which is
    refused before. *)
Definition routed_names (P : string → string → Prop) (tb : table) : Prop :=
  ∀ name r, tb_routes tb !! name = Some r → ∃ server tool, ValidateServerName server = None ∧ validUpstreamToolName server tool = None ∧
    name = prefixName server tool ∧ P server tool.

Lemma prefixName_inj s t s' t' : ValidateServerName s = None → validUpstreamToolName s t = None →
  ValidateServerName s' = None → validUpstreamToolName s' t' = None → prefixName s t = prefixName s' t' → s = s' ∧ t = t'.
Proof.
  intros H1 H2 H3 H4 E. destruct (proj2 names_route s t H1 H2) as [S1 _], (proj2 names_route s' t' H3 H4) as [S2 _].
  rewrite E, S2 in S1. by injection S1 as -> ->.
Qed.

Lemma add_tools_no_collision server hints tools : ValidateServerName server = None → ∀ seen tb,
  routed_names (λ s t, s = server → t ∈ seen) tb →
  ∀ name, add_tools gated accepts server hints seen tb tools ≠ Err (Collides name).
Proof.
  intros Hs. induction tools as [| [t|] tools IH]; intros seen tb Htb; cbn [add_tools]; [done| |by apply IH].
  destruct (mem (tl_Name t) seen) eqn:Hm; [done|]. apply mem_false in Hm.
  assert (Hmore : routed_names (λ s t0, s = server → t0 ∈ tl_Name t :: seen) tb).
  { intros name r Hr. destruct (Htb name r Hr) as (s & u & H1 & H2 & H3 & H4). exists s, u. split_and!; try done. intros ->. right. by apply H4. }
  destruct (validUpstreamToolName server (tl_Name t)) eqn:Hv; [by apply IH|]. destruct (negb _); [by apply IH|].
  destruct (tb_routes tb !! prefixName server (tl_Name t)) as [r|] eqn:Hr.
  { destruct (Htb _ _ Hr) as (s & u & H1 & H2 & H3 & H4). destruct (prefixName_inj _ _ _ _ Hs Hv H1 H2 H3) as [<- <-]. by destruct (Hm (H4 eq_refl)). }
  destruct (accepts _); [|by apply IH].
  match goal with |- context [add_tools _ _ _ _ _ ?tb1 _] => set (tb2 := tb1) end.
  assert (Hnew : ∀ P : string → string → Prop, P server (tl_Name t) → routed_names P tb → routed_names P tb2).
  { intros P HP Hold name r'. cbn. rewrite lookup_insert_Some. intros [ [<- _]|[_ Hr'] ]; [by exists server, (tl_Name t)|by apply (Hold name r')]. }
  apply IH, Hnew; [intros _; left|done].
Qed.

Definition exposes (cf : configured) (t : tool) : Prop := Ok (Some t) ∈ cf_tools cf ∧ exposable (cf_Server cf) t = true.

Lemma listTools_ok server listing : ∀ tools out, listTools server tools listing = Ok out →
  ∃ more, out = tools ++ more ∧ listing = map Ok more ∧ (List.length tools ≤ maxUpstreamTools → List.length out ≤ maxUpstreamTools)%nat.
Proof.
  induction listing as [| [t|e] listing IH]; intros tools out; cbn [listTools]; [intros [= <-]; exists []; by rewrite app_nil_r| |done].
  destruct (Nat.eqb_spec (List.length tools) maxUpstreamTools) as [|Hne]; [done|]. intros (more & -> & -> & Hlen)%IH.
  exists (t :: more). rewrite <- app_assoc. split; [done|]. split; [done|]. intros Hle. rewrite <- app_assoc in Hlen. apply Hlen. rewrite length_app. cbn. lia.
Qed.

(** What holds of the table after the upstreams [cfs]. *)
Record table_of (cfs : list configured) (tb : table) : Prop := {
  to_server cf : cf ∈ cfs → ValidateServerName (cf_Server cf) = None ∧ is_Some (tb_upstreams tb !! cf_Server cf) ∧
    (List.length (cf_tools cf) ≤ maxUpstreamTools)%nat;
  to_upstreams server u : tb_upstreams tb !! server = Some u → up_name u = server ∧ ∃ cf, cf ∈ cfs ∧ cf_Server cf = server;
  to_distinct : NoDup (map cf_Server cfs);
  to_routes name r : tb_routes tb !! name = Some r ↔ ∃ cf t, cf ∈ cfs ∧ exposes cf t ∧ name = prefixName (cf_Server cf) (tl_Name t) ∧
    r = make_route gated (cf_Server cf) (cf_hints cf) t;
  to_exposed name x : tb_exposed tb !! name = Some x → ∃ cf t, cf ∈ cfs ∧ exposes cf t ∧ name = prefixName (cf_Server cf) (tl_Name t) ∧
    x = exposed gated (cf_Server cf) t;
}.

Lemma add_upstream_ok cfs tb cf tb' : table_of cfs tb → add_upstream gated accepts tb cf = Ok tb' → table_of (cfs ++ [cf]) tb'.
Proof.
  intros [T1 T2 T3 T4 T5]. unfold add_upstream. destruct (ValidateServerName (cf_Server cf)) eqn:Hv; [done|].
  destruct (tb_upstreams tb !! cf_Server cf) eqn:Hu; [done|]. destruct (negb _); [done|]. destruct (cf_connected cf) as [ [v hs]|]; [|done].
  destruct (listTools _ [] _) as [tools|] eqn:Hl; [|done]. apply listTools_ok in Hl as (more & Hout & Hmap & Hlen). cbn in Hout. subst more.
  unfold addUpstreamTools. intros (E1 & E2 & E3)%add_tools_ok. cbn in E1, E2, E3.
  assert (Hin : ∀ t, Some t ∈ tools ↔ Ok (Some t) ∈ cf_tools cf).
  { intros t. rewrite Hmap, list_elem_of_fmap. split; [intros Hi; by exists (Some t)|by intros (x & [= ->] & ?)]. }
  split.
  - intros cf' [Hc| ->%list_elem_of_singleton]%elem_of_app.
    + destruct (T1 cf' Hc) as (? & ? & ?). split; [done|]. rewrite E1. split; [|done]. rewrite lookup_insert_ne; [done|]. intros Eq. rewrite Eq in Hu. destruct (T1 cf' Hc) as (_ & [? ?] & _). congruence.
    + rewrite E1, lookup_insert_eq. split; [done|]. split; [by eexists|]. rewrite Hmap, length_map. apply Hlen. cbn. lia.
  - intros server u. rewrite E1, lookup_insert_Some. intros [ [<- <-]|[_ Hold] ]; [split; [done|exists cf; split; [set_solver|done] ]|].
    destruct (T2 _ _ Hold) as (? & cf' & ? & ?). split; [done|]. exists cf'. split; [set_solver|done].
  - rewrite map_app. apply NoDup_app. split; [done|]. split; [|by apply NoDup_singleton]. intros x (cf' & -> & Hc)%list_elem_of_fmap Hx%list_elem_of_singleton.
    destruct (T1 cf' Hc) as (_ & [? Hs] & _). rewrite Hx in Hs. congruence.
  - intros name r. rewrite E2, T4. split.
    + intros [(cf' & t & Hc & He)|(t & Ht & Hx & -> & ->)]; [exists cf', t; split; [set_solver|done]|].
      exists cf, t. split; [set_solver|]. split; [split; [by apply Hin|done]|done].
    + intros (cf' & t & [Hc| ->%list_elem_of_singleton]%elem_of_app & [Ht Hx] & He); [left; by exists cf', t|].
      right. exists t. split; [by apply Hin|]. by destruct He.
  - intros name x [(cf' & t & Hc & He)%T5|(t & Ht & Hx & -> & ->)]%E3; [exists cf', t; split; [set_solver|done]|].
    exists cf, t. split; [set_solver|]. split; [split; [by apply Hin|done]|done].
Qed.

Lemma exposes_valid cf t : exposes cf t → validUpstreamToolName (cf_Server cf) (tl_Name t) = None.
Proof. intros [_ He]. unfold exposable in He. by destruct (validUpstreamToolName _ _). Qed.

Lemma add_upstream_no_collision cfs tb cf name : table_of cfs tb → add_upstream gated accepts tb cf ≠ Err (Collides name).
Proof.
  intros [T1 T2 T3 T4 T5]. unfold add_upstream. destruct (ValidateServerName (cf_Server cf)) eqn:Hv; [done|].
  destruct (tb_upstreams tb !! cf_Server cf) eqn:Hu; [done|]. destruct (negb _); [done|]. destruct (cf_connected cf) as [ [v hs]|]; [|done].
  destruct (listTools _ [] _) as [tools|e] eqn:Hl.
  - apply add_tools_no_collision; [done|]. intros n r (cf' & t & Hc & He & -> & _)%T4. exists (cf_Server cf'), (tl_Name t). destruct (T1 cf' Hc) as (Hs & Hi & _).
    split_and!; try done; [by apply exposes_valid|]. intros Eq. rewrite Eq in Hi. destruct Hi. congruence.
  - intros [= ->]. clear -Hl. remember [] as tools eqn:Et. clear Et. revert tools Hl.
    induction (cf_tools cf) as [| [t|e] listing IH]; intros tools; cbn [listTools]; [done| |done]. destruct (_ =? _)%nat; [done|apply IH].
Qed.

Lemma add_upstreams_ok cfs' : ∀ cfs tb, table_of cfs tb →
  match add_upstreams gated accepts tb cfs' with
  | Ok tb' => table_of (cfs ++ cfs') tb'
  | Err (Collides _) => False
  | Err _ => True
  end.
Proof.
  induction cfs' as [|cf cfs' IH]; intros cfs tb Ht; cbn [add_upstreams]; [by rewrite app_nil_r|].
  destruct (add_upstream gated accepts tb cf) as [tb1|e] eqn:E.
  - specialize (IH (cfs ++ [cf]) tb1 (add_upstream_ok _ _ _ _ Ht E)). by rewrite <- app_assoc in IH.
  - destruct e; try done. by apply (add_upstream_no_collision cfs tb cf name Ht).
Qed.

Lemma table_of_empty : table_of [] empty_table.
Proof.
  split; try (by intros ? ?%not_elem_of_nil); cbn.
  - intros server u. by rewrite lookup_empty.
  - constructor.
  - intros name r. rewrite lookup_empty. split; [done|]. by intros (cf & t & ?%not_elem_of_nil & _).
  - intros name x. by rewrite lookup_empty.
Qed.
End Routes.

(** the routes are exactly the tools that can be exposed, and the name
    the agent uses leads to one of them only.  When New succeeds, the server
    names are valid and distinct and no upstream lists more than 1024 tools; a
    name is known exactly when it is "<server>.<tool>" for a tool the
    configured server lists that has a valid name, an object's input schema and
    that go-sdk takes; it then splits back into that server and tool, which is
    a connected upstream, and the route carries the hints that tool sent and
    whether the gate closes its arguments; the tool advertised under it has the
    narrowed schema when they are closed.  New never fails on a collision
    between upstreams. *)
Theorem New_routes `{GateIface} gated accepts cfs :
  match New gated accepts cfs with
  | Ok tb =>
      NoDup (map cf_Server cfs) ∧
      (∀ cf, cf ∈ cfs → ValidateServerName (cf_Server cf) = None ∧ (List.length (cf_tools cf) ≤ maxUpstreamTools)%nat) ∧
      (∀ name r, tb_routes tb !! name = Some r ↔ ∃ cf t, cf ∈ cfs ∧ exposes gated accepts cf t ∧ name = prefixName (cf_Server cf) (tl_Name t) ∧
         r = make_route gated (cf_Server cf) (cf_hints cf) t) ∧
      (∀ name r, tb_routes tb !! name = Some r → splitName name = Some (route_up r, route_tool r) ∧
         ∃ u, tb_upstreams tb !! route_up r = Some u ∧ up_name u = route_up r) ∧
      (∀ name x, tb_exposed tb !! name = Some x → tl_Name x = name ∧ ∃ cf t, cf ∈ cfs ∧ exposes gated accepts cf t ∧
         name = prefixName (cf_Server cf) (tl_Name t) ∧ tl_Description x = tl_Description t ∧
         ∀ named, gated = true → toolArguments (cf_Server cf) (tl_Name t) = (named, true) → tl_InputSchema x = fst (narrowSchema (tl_InputSchema t) named))
  | Err (Collides _) => False
  | Err _ => True
  end.
Proof.
  unfold New. destruct cfs as [|cf0 cfs0]; [done|]. set (cfs := cf0 :: cfs0). pose proof (add_upstreams_ok gated accepts cfs [] empty_table (table_of_empty gated accepts)) as Ha.
  destruct (add_upstreams gated accepts empty_table cfs) as [tb|e]; [|done]. rewrite app_nil_l in Ha. destruct Ha as [T1 T2 T3 T4 T5]. split_and!; [done| |done|..].
  - intros cf Hc. destruct (T1 cf Hc) as (? & _ & ?). done.
  - intros name r (cf & t & Hc & He & -> & ->)%T4. destruct (T1 cf Hc) as (Hs & [u Hu] & _). cbn [route_up route_tool make_route].
    split; [by apply names_route; [|eapply exposes_valid]|]. exists u. split; [done|]. by apply T2.
  - intros name x (cf & t & Hc & He & -> & ->)%T5. split; [done|]. exists cf, t. split_and!; try done. intros named Hg Hn.
    cbn [exposed tl_InputSchema]. unfold advertised. by rewrite Hg, Hn.
Qed.

(** a call to an unknown tool is answered with what is wrong with its
    name, before anything sees it.  Against the table New built, a tools/call
    passes exactly when a route has its name; otherwise it gets invalid params
    (-32602), as unprefixed when the name is not "<server>.<tool>" with both
    parts present, as an unknown server when no upstream has the server's name,
    and as an unknown tool when one has but does not expose the tool. *)
Theorem unknown_tool_error `{Unicode, GateIface} gated accepts cfs tb name :
  New gated accepts cfs = Ok tb →
  match checkToolName tb (Some name) with
  | None => is_Some (tb_routes tb !! name)
  | Some e => je_Code e = -32602 ∧ tb_routes tb !! name = None ∧
      je_Data e = marshal (unknownToolData (clip name) (unknown_reason tb name) (sort_strings (map fst (map_to_list (tb_upstreams tb))))) ∧
      ((unknown_reason tb name = reasonUnprefixed ∧ ¬ ∃ server tool, server ≠ "" ∧ tool ≠ "" ∧ contains_b "." server = false ∧ name = prefixName server tool) ∨
       ∃ server tool, splitName name = Some (server, tool) ∧ name = prefixName server tool ∧
         ((unknown_reason tb name = reasonUnknownServer ∧ ∀ cf, cf ∈ cfs → cf_Server cf ≠ server) ∨
          (unknown_reason tb name = reasonUnknownTool ∧ ∃ cf, cf ∈ cfs ∧ cf_Server cf = server ∧ ∀ t, exposes gated accepts cf t → tl_Name t ≠ tool)))
  end.
Proof.
  intros Hnew. unfold New in Hnew. destruct cfs as [|cf0 cfs0]; [done|]. set (cfs := cf0 :: cfs0) in *.
  pose proof (add_upstreams_ok gated accepts cfs [] empty_table (table_of_empty gated accepts)) as Ha. rewrite Hnew, app_nil_l in Ha.
  destruct Ha as [T1 T2 T3 T4 T5]. unfold checkToolName. destruct (tb_routes tb !! name) eqn:Hr; [by eexists|].
  split; [done|]. split; [done|]. split; [done|]. unfold unknown_reason. destruct (splitName name) as [ [server tl]|] eqn:Hs.
  - right. exists server, tl. split; [done|]. unfold splitName in Hs. pose proof (cut_b_spec "." name) as Hc. destruct (cut_b "." name) as [ [a b]|]; [|done].
    destruct (_ || _); [done|]. injection Hs as -> ->. destruct Hc as [-> _]. split; [done|]. destruct (tb_upstreams tb !! server) as [u|] eqn:Hu.
    + right. split; [done|]. destruct (T2 _ _ Hu) as (_ & cf & Hcf & <-). exists cf. split; [done|]. split; [done|]. intros t He <-.
      assert (is_Some (tb_routes tb !! prefixName (cf_Server cf) (tl_Name t))) as [? Hsome]; [|unfold prefixName, separator in Hsome; cbn in Hsome; congruence].
      eexists. apply T4. by exists cf, t.
    + left. split; [done|]. intros cf Hcf <-. destruct (T1 cf Hcf) as (_ & [? ?] & _). congruence.
  - left. split; [done|]. intros (server & tl & Hse & Htl & Hdot & ->). unfold splitName, prefixName, separator in Hs. cbn in Hs.
    rewrite (cut_b_first "." server tl Hdot) in Hs. apply String.eqb_neq in Hse, Htl. by rewrite Hse, Htl in Hs.
Qed.

(** ** Witness *)

Definition sample_tool (name : string) : tool :=
  {| tl_Name := name; tl_Title := ""; tl_Description := "a tool"; tl_InputSchema := AObj [("type", AStr "object")]; tl_OutputSchema := None;
     tl_Annotations := None; tl_destructive := None |}.

Definition sample_configured : configured :=
  {| cf_Server := "napalm"; cf_NewTransport := true; cf_connected := Ok ("2025-11-25", true);
     cf_tools := [Ok (Some (sample_tool "show.version")); Ok None; Ok (Some (sample_tool "bad name"))]; cf_hints := ∅ |}.

Definition no_gate : GateIface := {| iface_Decide := λ _, None; iface_Arguments := λ _ _, None |}.

Definition sample_table : table := match @New no_gate false (λ _, true) [sample_configured] with Ok tb => tb | Err _ => empty_table end.

Lemma unknown_tool_error_witness :
  @checkToolName ascii_tables sample_table (Some "napalm.show.version") = None ∧
  ∀ e, @checkToolName ascii_tables sample_table (Some "napalm.reload") = Some e → je_Code e = -32602.
Proof.
  assert (Hn : @New no_gate false (λ _, true) [sample_configured] = Ok sample_table) by (vm_compute; reflexivity).
  split; [vm_compute; reflexivity|]. intros e He.
  pose proof (@unknown_tool_error ascii_tables no_gate false (λ _, true) [sample_configured] sample_table "napalm.reload" Hn) as H.
  rewrite He in H. exact (proj1 H).
Defined.
