(* ===== verification/Startup.v ===== *)
(** * Connecting an upstream: internal/proxy/proxy.go, era.go

    The handshake check, the transport that remembers who ended its process,
    and the two connect attempts.  go-sdk, the clock and the process are the
    surroundings: what each attempt met is an argument.  Theorems: an exit
    status is reported only for a process that ended by itself; at most two
    processes are started, the second only after an unanswered probe and once
    the first has been killed; an upstream's era label is its version's. *)

From S2P Require Import Prelude GoStd GoNetip Json Sanitize ProxyGate Prompts.

Open Scope string_scope.
Open Scope Z_scope.
Open Scope list_scope.

(** ** The handshake: era.go *)

Definition methodInitialize : string := "initialize".

(** [hybridError], its text. *)
Definition hybridError `{Unicode} (requested answered : string) : string :=
  ("the upstream answered the " ++ methodInitialize ++ " request for protocol " ++ requested ++ " with the " ++
   (if String.leb answered requested then "stateless" else "later") ++ " version " ++ quote (clip answered) ++ "; " ++
   "fathomgate refuses a hybrid upstream, which opens a stateful session and then speaks a later version on it, " ++
   "so the session was closed and the upstream stopped (ADR 0008)")%string.

(** [handshakes]: the sessions opened with the initialise handshake. *)
Definition handshakes : Type := gset nat.

(** [middleware] after the request was answered: [failed] says it got an error;
    [None] passes the answer on, [Some] refuses it and aborts the attempt. *)
Definition middleware `{Unicode} (h : handshakes) (method : string) (session : nat) (failed : bool) (requested answered : string) :
    handshakes * option string :=
  if failed || negb (String.eqb method methodInitialize) then (h, None)
  else if negb (String.leb answered requested) || String.eqb (eraOf answered) eraStateless then (h, Some (hybridError requested answered))
  else ({[ session ]} ∪ h, None).

Definition take (h : handshakes) (session : nat) : handshakes * bool := (∅, bool_decide (session ∈ h)).

(** ** The tracked transport *)

(** Nanoseconds. *)
Definition exitGrace : Z := 2000000000.

Record trackedTransport := {
  tt_conn : bool; tt_proc : bool; tt_killed : bool; tt_closeRequested : bool; tt_closeDone : option Z; tt_reapedUnkilled : bool;
  tt_hungUp : bool; tt_hungUpAt : Z;
}.

Definition new_transport : trackedTransport :=
  {| tt_conn := false; tt_proc := false; tt_killed := false; tt_closeRequested := false; tt_closeDone := None; tt_reapedUnkilled := false;
     tt_hungUp := false; tt_hungUpAt := 0 |}.

(** [Connect], once the process runs in its tree: whether it must be killed at once. *)
Definition transport_connect (t : trackedTransport) (proc : bool) : trackedTransport * bool :=
  ({| tt_conn := true; tt_proc := proc; tt_killed := tt_killed t; tt_closeRequested := tt_closeRequested t; tt_closeDone := tt_closeDone t;
      tt_reapedUnkilled := tt_reapedUnkilled t; tt_hungUp := tt_hungUp t; tt_hungUpAt := tt_hungUpAt t |}, tt_killed t && proc).

Definition failed (t : trackedTransport) (now : Z) : trackedTransport :=
  if negb (tt_hungUp t) && negb (tt_closeRequested t) && negb (tt_killed t) then
    {| tt_conn := tt_conn t; tt_proc := tt_proc t; tt_killed := tt_killed t; tt_closeRequested := tt_closeRequested t; tt_closeDone := tt_closeDone t;
       tt_reapedUnkilled := tt_reapedUnkilled t; tt_hungUp := true; tt_hungUpAt := now |}
  else t.

(** What a read of the connection gave. *)
Inductive read_result := ReadOk | ReadEOF | ReadOther.

Definition conn_read (t : trackedTransport) (r : read_result) (ctx_live : bool) (now : Z) : trackedTransport :=
  match r with ReadEOF => if ctx_live then failed t now else t | _ => t end.
Definition conn_write (t : trackedTransport) (ok ctx_live : bool) (now : Z) : trackedTransport :=
  if negb ok && ctx_live then failed t now else t.

Definition killProcess (t : trackedTransport) : trackedTransport :=
  {| tt_conn := tt_conn t; tt_proc := tt_proc t; tt_killed := true; tt_closeRequested := tt_closeRequested t; tt_closeDone := tt_closeDone t;
     tt_reapedUnkilled := tt_reapedUnkilled t; tt_hungUp := tt_hungUp t; tt_hungUpAt := tt_hungUpAt t |}.

(** [trackedConn.Close], before and after go-sdk's own close. *)
Definition close_begin (t : trackedTransport) : trackedTransport :=
  {| tt_conn := tt_conn t; tt_proc := tt_proc t; tt_killed := tt_killed t; tt_closeRequested := true; tt_closeDone := tt_closeDone t;
     tt_reapedUnkilled := tt_reapedUnkilled t; tt_hungUp := tt_hungUp t; tt_hungUpAt := tt_hungUpAt t |}.
Definition close_end (t : trackedTransport) (now : Z) : trackedTransport :=
  match tt_closeDone t with
  | Some _ => t
  | None =>
      {| tt_conn := tt_conn t; tt_proc := tt_proc t; tt_killed := tt_killed t; tt_closeRequested := tt_closeRequested t; tt_closeDone := Some now;
         tt_reapedUnkilled := negb (tt_killed t); tt_hungUp := tt_hungUp t; tt_hungUpAt := tt_hungUpAt t |}
  end.

Definition endedOnItsOwn (t : trackedTransport) : bool :=
  tt_hungUp t && tt_reapedUnkilled t && (match tt_closeDone t with Some d => d | None => 0 end - tt_hungUpAt t <=? exitGrace).

(** The error go-sdk's close returns: none, a process's status, another. *)
Inductive wait_error := WaitNil | WaitExit (status : string) | WaitOther.

Definition exitStatus (e : wait_error) : string :=
  match e with WaitNil => "exit status 0" | WaitExit s => s | WaitOther => "" end.

(** One step of a transport's life, each at a time. *)
Inductive transport_event :=
  | TConnect (proc : bool) | TRead (r : read_result) (ctx_live : bool) (now : Z) | TWrite (ok ctx_live : bool) (now : Z)
  | TKill | TCloseBegin | TCloseEnd (now : Z).

Definition transport_step (t : trackedTransport) (e : transport_event) : trackedTransport :=
  match e with
  | TConnect proc => fst (transport_connect t proc)
  | TRead r live now => conn_read t r live now
  | TWrite ok live now => conn_write t ok live now
  | TKill => killProcess t
  | TCloseBegin => close_begin t
  | TCloseEnd now => close_end t now
  end.

Definition run_transport (t : trackedTransport) (es : list transport_event) : trackedTransport := foldl transport_step t es.

(** [kill]: the steps it takes itself; the other goroutines' steps [during]
    come while it waits, [after] between its kill and the end of the close.
    [in_time] says the close ended within the grace. *)
Definition kill_steps (t : trackedTransport) (grace : Z) (in_time : bool) (during after : list transport_event) (now : Z) : list transport_event :=
  if negb (tt_conn t) then []
  else if negb (tt_proc t) || (grace <=? 0) then [TKill; TCloseBegin] ++ after ++ [TCloseEnd now]
  else if in_time then [TCloseBegin] ++ during ++ [TCloseEnd now]
  else [TCloseBegin] ++ during ++ [TKill] ++ after ++ [TCloseEnd now].

Definition kill (t : trackedTransport) (grace : Z) (in_time : bool) (during after : list transport_event) (now : Z) (wait : wait_error) :
    trackedTransport * string :=
  let t' := run_transport t (kill_steps t grace in_time during after now) in
  (t', if negb (tt_conn t) || negb (tt_proc t) || negb (endedOnItsOwn t') then "" else exitStatus wait).

(** [graceFor]: [left] is what is left of the context's deadline. *)
Definition graceFor (ctx_done : bool) (left : option Z) : Z :=
  if ctx_done then 0 else Z.max (match left with Some d => Z.min exitGrace d | None => exitGrace end) 0.

Definition withExit (err exit : string) : string :=
  if String.eqb exit "" then err else (err ++ "; upstream process ended: " ++ exit)%string.

(** ** The connect attempts *)

Definition discoverProbeTimeout : string := "5s".
Definition restartProtocolVersion : string := "2025-11-25".
Definition initOnly : string := "initialize only".

(** Why an attempt's context ended first. *)
Inductive cause := NotCancelled | ProbeExpired | Hybrid (err : string) | Outer (err : string).

Definition cause_text (c : cause) : string :=
  match c with
  | NotCancelled => "" | ProbeExpired => "server/discover got no answer within the bound" | Hybrid e => e | Outer e => e
  end.

(** What one Client.Connect met: its error; whether the attempt's context
    ended before it returned; what the watcher saw; whether the outer context
    had ended after it. *)
Record attempt := {
  at_connect : option string; at_killed : bool; at_didExpire : bool; at_closedFirst : bool; at_cause : cause; at_ctx : bool;
}.

(** [connectAttempt]: the error, and whether the probe timed out. *)
Definition connectAttempt (a : attempt) : option string * bool :=
  let err := match at_connect a with
             | None => if at_killed a then Some (cause_text (at_cause a)) else None
             | Some e => Some e
             end in
  (err, match err with
        | None => false
        | Some _ => negb (at_ctx a) && at_didExpire a && match at_cause a with ProbeExpired => true | _ => false end && negb (at_closedFirst a)
        end).

(** What [connect] does to processes, in order. *)
Inductive start_action := Connect (process : nat) (init_only : bool) | KillProcess (process : nat) (grace : Z) | WarnRestart.

Definition escaped_error `{Unicode} (e : string) : string := escapeControl e 0.

(** The surroundings of [connect]: the two attempts, how each process ended
    when it was killed, whether startup had ended after the first was, the
    deadline left at each kill, and whether there is a transport to restart. *)
Record startup := {
  su_first : attempt; su_second : attempt; su_exit1 : string; su_exit2 : string; su_ended : option string;
  su_left1 : option Z; su_left2 : option Z; su_done1 : bool; su_done2 : bool; su_transport : bool;
}.

Definition connect `{Unicode} (server : string) (su : startup) : result string nat * list start_action :=
  match connectAttempt (su_first su) with
  | (None, _) => (Ok 1%nat, [Connect 1 false])
  | (Some e, false) =>
      (Err (withExit ("proxy: upstream " ++ server ++ ": connect: " ++ escaped_error e)%string (su_exit1 su)),
       [Connect 1 false; KillProcess 1 (graceFor (su_done1 su) (su_left1 su))])
  | (Some _, true) =>
      let acts := [Connect 1 false; KillProcess 1 0; WarnRestart] in
      match su_ended su with
      | Some e =>
          (Err ("proxy: upstream " ++ server ++ ": connect: server/discover got no answer within " ++ discoverProbeTimeout ++
                ", and startup ended before the restart: " ++ e)%string, acts)
      | None =>
          if negb (su_transport su) then
            (Err ("proxy: server " ++ quote server ++ ": NewTransport returned no transport for the restart")%string, acts)
          else match fst (connectAttempt (su_second su)) with
          | None => (Ok 2%nat, acts ++ [Connect 2 true])
          | Some e =>
              (Err (withExit ("proxy: upstream " ++ server ++ ": connect with " ++ initOnly ++
                 " (restarted after server/discover got no answer within " ++ discoverProbeTimeout ++ "): " ++ escaped_error e)%string (su_exit2 su)),
               acts ++ [Connect 2 true; KillProcess 2 (graceFor (su_done2 su) (su_left2 su))])
          end
      end
  end.

(** [connectUpstream] once connected: the era label. *)
Definition era_label (h : handshakes) (session : nat) (version : string) : string := upstreamEra version (snd (take h session)).

(** ** Who ended the process *)

(** A step that shows the upstream hanging up. *)
Definition hangs_up (e : transport_event) (now : Z) : Prop := e = TRead ReadEOF true now ∨ e = TWrite false true now.

Definition quiet (es : list transport_event) : Prop := TKill ∉ es ∧ TCloseBegin ∉ es.

Definition no_close_end (es : list transport_event) : Prop := ∀ now, TCloseEnd now ∉ es.

(** What the flags remember of the steps so far. *)
Record remembers (es : list transport_event) (t : trackedTransport) : Prop := {
  rm_killed : tt_killed t = false → TKill ∉ es;
  rm_close : tt_closeRequested t = false → TCloseBegin ∉ es;
  rm_open : tt_closeDone t = None → no_close_end es;
  rm_hung : tt_hungUp t = true → ∃ a e b, es = a ++ e :: b ∧ hangs_up e (tt_hungUpAt t) ∧ quiet a;
  rm_done now : tt_closeDone t = Some now → ∃ a b, es = a ++ TCloseEnd now :: b ∧ no_close_end a ∧ (tt_reapedUnkilled t = true → TKill ∉ a);
}.

Lemma remembers_same es e t : remembers es t → e ≠ TKill → e ≠ TCloseBegin → (∀ now, e ≠ TCloseEnd now) → remembers (es ++ [e]) t.
Proof.
  intros [R1 R2 R3 R4 R5] N1 N2 N3. split.
  - intros Hk. specialize (R1 Hk). set_solver.
  - intros Hc. specialize (R2 Hc). set_solver.
  - intros Ho now. specialize (R3 Ho now). specialize (N3 now). set_solver.
  - intros Hh. destruct (R4 Hh) as (a & e' & b & -> & H). exists a, e', (b ++ [e]). by rewrite <- app_assoc.
  - intros now Hd. destruct (R5 now Hd) as (a & b & -> & H). exists a, (b ++ [e]). by rewrite <- app_assoc.
Qed.

Lemma remembers_failed es e t now : remembers es t → hangs_up e now → remembers (es ++ [e]) (failed t now).
Proof.
  intros Hr He. assert (Hs : remembers (es ++ [e]) t) by (apply remembers_same; [done|..]; by destruct He as [->| ->]).
  unfold failed. destruct (tt_hungUp t) eqn:Hh; [done|]. destruct (tt_closeRequested t) eqn:Hc; [done|]. destruct (tt_killed t) eqn:Hk; [done|]. cbn.
  destruct Hs as [S1 S2 S3 S4 S5]. split; cbn; try done; [by intros _; apply S1|by intros _; apply S2|]. intros _. exists es, e, []. split; [done|]. split; [done|].
  split; [by apply (rm_killed _ _ Hr)|by apply (rm_close _ _ Hr)].
Qed.

Lemma remembers_run es : remembers es (run_transport new_transport es).
Proof.
  induction es as [|e es IH] using rev_ind; [split; cbn; try done; unfold no_close_end; set_solver|].
  unfold run_transport in *. rewrite foldl_app. cbn [foldl]. set (t := foldl transport_step new_transport es) in *.
  assert (Hsame : e ≠ TKill → e ≠ TCloseBegin → (∀ now, e ≠ TCloseEnd now) → remembers (es ++ [e]) t) by (intros; by apply remembers_same).
  destruct e as [proc|r live now|ok live now| | |now]; cbn [transport_step].
  - destruct (Hsame ltac:(done) ltac:(done) ltac:(done)). by split.
  - unfold conn_read. destruct r; [by apply Hsame| |by apply Hsame]. destruct live; [|by apply Hsame]. apply remembers_failed; [done|by left].
  - unfold conn_write. destruct ok; [by apply Hsame|]. destruct live; [|by apply Hsame]. apply remembers_failed; [done|by right].
  - destruct IH as [R1 R2 R3 R4 R5]. split; cbn; [done|intros Hc; specialize (R2 Hc); set_solver|intros Ho n; specialize (R3 Ho n); set_solver|..].
    + intros Hh. destruct (R4 Hh) as (a & e' & b & -> & H). exists a, e', (b ++ [TKill]). by rewrite <- app_assoc.
    + intros n Hd. destruct (R5 n Hd) as (a & b & -> & H). exists a, (b ++ [TKill]). by rewrite <- app_assoc.
  - destruct IH as [R1 R2 R3 R4 R5]. split; cbn; [intros Hk; specialize (R1 Hk); set_solver|done|intros Ho n; specialize (R3 Ho n); set_solver|..].
    + intros Hh. destruct (R4 Hh) as (a & e' & b & -> & H). exists a, e', (b ++ [TCloseBegin]). by rewrite <- app_assoc.
    + intros n Hd. destruct (R5 n Hd) as (a & b & -> & H). exists a, (b ++ [TCloseBegin]). by rewrite <- app_assoc.
  - destruct IH as [R1 R2 R3 R4 R5]. unfold close_end. destruct (tt_closeDone t) as [d|] eqn:Hd.
    + split; [intros Hk; specialize (R1 Hk); set_solver|intros Hc; specialize (R2 Hc); set_solver|congruence|..].
      * intros Hh. destruct (R4 Hh) as (a & e' & b & -> & H). exists a, e', (b ++ [TCloseEnd now]). by rewrite <- app_assoc.
      * intros n Hn. rewrite Hd in Hn. destruct (R5 n Hn) as (a & b & -> & H). exists a, (b ++ [TCloseEnd now]). by rewrite <- app_assoc.
    + split; cbn; [intros Hk; specialize (R1 Hk); set_solver|intros Hc; specialize (R2 Hc); set_solver|done|..].
      * intros Hh. destruct (R4 Hh) as (a & e' & b & -> & H). exists a, e', (b ++ [TCloseEnd now]). by rewrite <- app_assoc.
      * intros n [= <-]. exists es, []. split; [done|]. split; [by apply R3|]. intros Hk%negb_true_iff. by apply R1.
Qed.

(** an exit status is reported as the upstream's only when the process
    ended on its own.  Whatever the order of reads, writes, kills and closes,
    when kill gives a status the connection had a process, the upstream hung up
    (its output ended, or its input was gone, with the context live) before
    anyone had asked for a close or a kill, and the first close to end did so
    before any kill and within the grace of the hang-up. *)
Theorem exit_status_own es grace in_time during after now wait t' status :
  kill (run_transport new_transport es) grace in_time during after now wait = (t', status) → status ≠ "" →
  let t := run_transport new_transport es in
  let all := es ++ kill_steps t grace in_time during after now in
  tt_conn t = true ∧ tt_proc t = true ∧ status = exitStatus wait ∧
  ∃ hung ended, ended - hung <= exitGrace ∧
    (∃ a e b, all = a ++ e :: b ∧ hangs_up e hung ∧ quiet a) ∧
    (∃ a b, all = a ++ TCloseEnd ended :: b ∧ no_close_end a ∧ TKill ∉ a).
Proof.
  unfold kill. cbv zeta. set (t := run_transport new_transport es). set (ks := kill_steps t grace in_time during after now).
  assert (Hall : run_transport t ks = run_transport new_transport (es ++ ks)) by (unfold t, run_transport; by rewrite foldl_app).
  rewrite Hall. intros [= <- <-] Hs. destruct (tt_conn t) eqn:Hcn; [|done]. destruct (tt_proc t) eqn:Hpr; [|done]. cbn [negb orb] in *.
  destruct (endedOnItsOwn (run_transport new_transport (es ++ ks))) eqn:He; [|done]. cbn [negb] in *. split_and!; try done.
  pose proof (remembers_run (es ++ ks)) as [R1 R2 R3 R4 R5]. set (t' := run_transport new_transport (es ++ ks)) in *.
  unfold endedOnItsOwn in He. apply andb_true_iff in He as [ [Hh Hr]%andb_true_iff Hle%Z.leb_le].
  destruct (tt_closeDone t') as [d|] eqn:Hd.
  - exists (tt_hungUpAt t'), d. split; [done|]. split; [by apply R4|]. destruct (R5 d eq_refl) as (a & b & E & Hne & Hk). exists a, b. split_and!; try done. by apply Hk.
  - exfalso. assert (Hun : ∀ es', tt_closeDone (run_transport new_transport es') = None → tt_reapedUnkilled (run_transport new_transport es') = false).
    { clear. induction es' as [|e es' IH] using rev_ind; [done|]. unfold run_transport in *. rewrite foldl_app. cbn [foldl].
      destruct e as [proc|r live n|ok live n| | |n]; cbn; try done; unfold conn_read, conn_write, failed, close_end; repeat case_match; cbn in *; try done; congruence. }
    specialize (Hun _ Hd). fold t' in Hun. congruence.
Qed.

Definition sample_transport : list transport_event := [TConnect true; TRead ReadEOF true 10].

Lemma exit_status_own_witness :
  snd (kill (run_transport new_transport sample_transport) 2000 true [] [] 500 (WaitExit "exit status 3")) = "exit status 3" ∧
  tt_proc (run_transport new_transport sample_transport) = true.
Proof.
  assert (Hk : kill (run_transport new_transport sample_transport) 2000 true [] [] 500 (WaitExit "exit status 3") =
    (run_transport new_transport (sample_transport ++ [TCloseBegin; TCloseEnd 500]), "exit status 3")) by (vm_compute; reflexivity).
  split; [by rewrite Hk|].
  assert (Hne : "exit status 3" ≠ "") by discriminate.
  destruct (exit_status_own sample_transport 2000 true [] [] 500 (WaitExit "exit status 3") _ _ Hk Hne) as (_ & Hp & _). exact Hp.
Defined.

(** ** The attempts *)

(** connecting starts at most two processes, and leaves none behind.  The
    second is started, with the initialise handshake only, just when the first
    attempt failed with its probe expired while startup was live, before go-sdk
    had begun to close and not for a hybrid answer, and only after the first
    process was killed without grace and startup had still not ended; when
    connect fails every process it started has been killed, with a grace within
    the bound; when it succeeds the session's process has not. *)
Theorem connect_processes `{Unicode} server su :
  let '(r, acts) := connect server su in
  (∀ i init, Connect i init ∈ acts → (i = 1%nat ∧ init = false) ∨ (i = 2%nat ∧ init = true)) ∧
  (Connect 2 true ∈ acts ↔ snd (connectAttempt (su_first su)) = true ∧ su_ended su = None ∧ su_transport su = true) ∧
  (Connect 2 true ∈ acts → at_ctx (su_first su) = false ∧ at_didExpire (su_first su) = true ∧ at_closedFirst (su_first su) = false ∧
     at_cause (su_first su) = ProbeExpired ∧ ∃ rest, acts = [Connect 1 false; KillProcess 1 0; WarnRestart; Connect 2 true] ++ rest) ∧
  match r with
  | Ok i => Connect i (bool_decide (i = 2%nat)) ∈ acts ∧ ∀ g, KillProcess i g ∉ acts
  | Err _ => ∀ i init, Connect i init ∈ acts → ∃ g, KillProcess i g ∈ acts ∧ 0 <= g <= exitGrace
  end.
Proof.
  assert (Hgrace : ∀ d l, 0 <= graceFor d l <= exitGrace) by (intros d l; unfold graceFor, exitGrace; destruct d; [lia|]; destruct l; lia).
  unfold connect. destruct (connectAttempt (su_first su)) as [ [e|] timedOut] eqn:Ea.
  2:{ assert (timedOut = false) as -> by (unfold connectAttempt in Ea; repeat case_match; naive_solver). cbn. set_unfold. naive_solver. }
  destruct timedOut.
  2:{ cbn. pose proof (Hgrace (su_done1 su) (su_left1 su)). split_and!; set_unfold; naive_solver. }
  assert (Hto : at_ctx (su_first su) = false ∧ at_didExpire (su_first su) = true ∧ at_closedFirst (su_first su) = false ∧ at_cause (su_first su) = ProbeExpired).
  { unfold connectAttempt in Ea. injection Ea as E1 E2. rewrite E1 in E2. apply andb_true_iff in E2 as [ [ [H1 H2]%andb_true_iff H3]%andb_true_iff H4%negb_true_iff].
    apply negb_true_iff in H1. destruct (at_cause (su_first su)); try done. }
  destruct (su_ended su) as [err|].
  { cbn. split_and!; try (set_unfold; naive_solver). intros i init Hi. exists 0. unfold exitGrace. split; [set_unfold; naive_solver|lia]. }
  destruct (su_transport su); cbn [negb].
  2:{ cbn. split_and!; try (set_unfold; naive_solver). intros i init Hi. exists 0. unfold exitGrace. split; [set_unfold; naive_solver|lia]. }
  destruct (fst (connectAttempt (su_second su))) as [e2|]; cbn.
  - split_and!; try (set_unfold; naive_solver). intros i init Hi. set_unfold in Hi. destruct Hi as [ [= -> ->]|[?|[?|[ [= -> ->]|?] ] ] ]; try naive_solver.
    + exists 0. unfold exitGrace. split; [set_solver|lia].
    + exists (graceFor (su_done2 su) (su_left2 su)). split; [set_solver|apply Hgrace].
  - split_and!; try (set_unfold; naive_solver).
Qed.

(** ** The era label *)

(** A request go-sdk sent while connecting, and its answer. *)
Record handshake_call := { hk_method : string; hk_session : nat; hk_failed : bool; hk_requested : string; hk_answered : string }.

Definition hand `{Unicode} (h : handshakes) (c : handshake_call) : handshakes :=
  fst (middleware h (hk_method c) (hk_session c) (hk_failed c) (hk_requested c) (hk_answered c)).

(** The answer the middleware lets through. *)
Definition opened `{Unicode} (c : handshake_call) : Prop :=
  hk_method c = methodInitialize ∧ hk_failed c = false ∧
  snd (middleware ∅ (hk_method c) (hk_session c) (hk_failed c) (hk_requested c) (hk_answered c)) = None.

(** no session opened with the initialise handshake carries a version
    later than was asked for, or a stateless one, so the era label of an
    upstream, taken from how it was opened, is always its version's. *)
Theorem era_label_true `{Unicode} calls session version :
  (∀ c, c ∈ calls → hk_session c = session → opened c → hk_answered c = version) →
  era_label (foldl hand ∅ calls) session version = eraOf version ∧
  ∀ c, c ∈ calls → opened c → String.leb (hk_answered c) (hk_requested c) = true ∧ eraOf (hk_answered c) = eraStateful.
Proof.
  intros Hv.
  assert (Hop : ∀ c, opened c → String.leb (hk_answered c) (hk_requested c) = true ∧ eraOf (hk_answered c) = eraStateful).
  { intros c (Hm & Hf & Hs). unfold middleware in Hs. rewrite Hm, Hf, String.eqb_refl in Hs. cbn in Hs. destruct (String.leb _ _); [|done]. cbn in Hs. split; [done|].
    destruct (String.eqb_spec (eraOf (hk_answered c)) eraStateless) as [|Hne]; [done|]. unfold eraOf in *. by destruct (String.leb _ _). }
  split; [|by intros c _; apply Hop]. unfold era_label, take. cbn [snd].
  assert (Hin : ∀ calls h, session ∈ foldl hand h calls → session ∈ h ∨ ∃ c, c ∈ calls ∧ hk_session c = session ∧ opened c).
  { clear. induction calls as [|c calls IH]; intros h; cbn [foldl]; [by left|]. intros [Hh|(c' & Hc & Ho)]%IH; [|right; exists c'; split; [by right|done] ].
    unfold hand, middleware in Hh. destruct (hk_failed c) eqn:Hf; [by left|]. destruct (String.eqb_spec (hk_method c) methodInitialize) as [Hm|Hm]; [|by left]. cbn in Hh.
    destruct (negb _ || _) eqn:Hr; [by left|]. cbn in Hh. apply elem_of_union in Hh as [->%elem_of_singleton|Hh]; [|by left]. right. exists c. split; [by left|].
    split; [done|]. unfold opened, middleware. rewrite Hm, Hf, String.eqb_refl. cbn. by rewrite Hr. }
  case_bool_decide as Hs; [|done]. destruct (Hin calls ∅ Hs) as [?|(c & Hc & Hcs & Ho)]; [set_solver|].
  cbn [upstreamEra]. rewrite <- (Hv c Hc Hcs Ho). symmetry. by apply Hop.
Qed.

Definition sample_handshake : list handshake_call :=
  [{| hk_method := "initialize"; hk_session := 1; hk_failed := false; hk_requested := "2025-11-25"; hk_answered := "2025-06-18" |}].

Lemma era_label_true_witness : era_label (foldl (@hand ascii_tables) ∅ sample_handshake) 1 "2025-06-18" = "stateful".
Proof.
  assert (Hv : ∀ c, c ∈ sample_handshake → hk_session c = 1%nat → @opened ascii_tables c → hk_answered c = "2025-06-18").
  { intros c Hc _ _. apply elem_of_cons in Hc as [->|Hc]; [reflexivity|]. exfalso. exact (not_elem_of_nil c Hc). }
  exact (proj1 (@era_label_true ascii_tables sample_handshake 1 "2025-06-18" Hv)).
Defined.
