(* ===== verification/Listener.v ===== *)
(** * The HTTP listener's front: internal/proxy/http.go

    The options and bearer tokens of the listener, and the checks a request
    passes before anything is served: Host, Origin, path and token.  Theorem: a
    request is served exactly when it passes them, as the principal its token is
    configured for. *)

From S2P Require Import Prelude GoStd GoNetip GoCrypto Json Names Prompts.

Open Scope string_scope.
Open Scope Z_scope.
Open Scope list_scope.

Definition HTTPPath : string := "/mcp".

(** ** Options *)

(** The numbers of HTTPOptions; the durations in nanoseconds. *)
Record HTTPOptions := {
  MaxInFlight : Z; MaxInFlightPerPrincipal : Z; MaxSessions : Z; MaxSessionsPerPrincipal : Z;
  MaxCallsPerSession : Z; MaxCallsPerPrincipal : Z;
  SessionTimeout : Z; OrphanTTL : Z; WriteTimeout : Z; BodyReadTimeout : Z;
}.

Definition options_error (name : string) : string := ("proxy: HTTPOptions." ++ name ++ " is negative")%string.

Definition resolve_one (name : string) (v def : Z) : result string Z :=
  if v <? 0 then Err (options_error name) else if v =? 0 then Ok def else Ok v.

Definition second : Z := 1000000000.

Definition resolved (o : HTTPOptions) : result string HTTPOptions :=
  a ← resolve_one "MaxInFlight" (MaxInFlight o) 64;
  b ← resolve_one "MaxInFlightPerPrincipal" (MaxInFlightPerPrincipal o) 32;
  c ← resolve_one "MaxSessions" (MaxSessions o) 16;
  d ← resolve_one "MaxSessionsPerPrincipal" (MaxSessionsPerPrincipal o) 4;
  e ← resolve_one "MaxCallsPerSession" (MaxCallsPerSession o) 8;
  f ← resolve_one "MaxCallsPerPrincipal" (MaxCallsPerPrincipal o) 32;
  g ← resolve_one "SessionTimeout" (SessionTimeout o) (1800 * second);
  h ← resolve_one "OrphanTTL" (OrphanTTL o) (300 * second);
  i ← resolve_one "WriteTimeout" (WriteTimeout o) (10 * second);
  j ← resolve_one "BodyReadTimeout" (BodyReadTimeout o) (30 * second);
  mret {| MaxInFlight := a; MaxInFlightPerPrincipal := b; MaxSessions := c; MaxSessionsPerPrincipal := d;
          MaxCallsPerSession := e; MaxCallsPerPrincipal := f; SessionTimeout := g; OrphanTTL := h; WriteTimeout := i; BodyReadTimeout := j |}.

(** ** Tokens *)

Definition minTokenBytes : Z := 32.

Definition principal_rune (r : Z) : bool :=
  in_range 97 122 r || in_range 65 90 r || in_range 48 57 r || (r =? 95) || (r =? 46) || (r =? 58) || (r =? 45).

(** [validPrincipalName]: [None] is no error. *)
Definition validPrincipalName `{Unicode} (name : string) : option string :=
  if String.eqb name "" || (64 <? slen name) then Some ("proxy: principal name " ++ quote (clip name) ++ " must be 1 to 64 characters")%string
  else if negb (forallb (λ p, principal_rune (fst p)) (runes name))
  then Some ("proxy: principal name " ++ quote (clip name) ++ " may contain only letters, digits and _.:-")%string
  else None.

Record tokenEntry := { te_name : string; te_digest : string }.

Definition token_byte (c : ascii) : bool := (32 <? bz c) && (bz c <? 127).

Definition str_min (a b : string) : string := if String.leb a b then a else b.
Definition str_max (a b : string) : string := if String.leb a b then b else a.

(** The tokens in the order Go visits them; [seen] are those accepted so far. *)
Fixpoint check_tokens `{Unicode} (seen : list tokenEntry) (tokens : list (string * string)) : result string (list tokenEntry) :=
  match tokens with
  | [] => Ok seen
  | (name, tok) :: tokens =>
      match validPrincipalName name with
      | Some e => Err e
      | None =>
          if slen tok <? minTokenBytes then
            Err ("proxy: the token for principal " ++ name ++ " is " ++ itoa (slen tok) ++ " bytes; at least " ++ itoa minTokenBytes ++ " are required")%string
          else if negb (s_all token_byte tok) then
            Err ("proxy: the token for principal " ++ name ++ " contains white space, a control character or a non-ASCII byte")%string
          else
            let d := sha256 tok in
            match List.find (λ e, String.eqb (te_digest e) d) seen with
            | Some other => Err ("proxy: principals " ++ str_min name (te_name other) ++ " and " ++ str_max name (te_name other) ++ " have the same token")%string
            | None => check_tokens (seen ++ [{| te_name := name; te_digest := d |}]) tokens
            end
      end
  end.

Definition entry_le (a b : tokenEntry) : Prop := String.leb (te_name a) (te_name b) = true.
#[export] Instance entry_le_dec a b : Decision (entry_le a b).
Proof. unfold entry_le. apply _. Defined.

Definition checkTokens `{Unicode} (tokens : list (string * string)) : result string (list tokenEntry) :=
  match tokens with
  | [] => Err "proxy: the HTTP listener needs at least one bearer token"
  | _ => match check_tokens [] tokens with Ok out => Ok (merge_sort entry_le out) | Err e => Err e end
  end.

(** [verify]: the last entry whose digest matches. *)
Definition verify (tokens : list tokenEntry) (token : string) : option string :=
  let d := sha256 token in
  te_name <$> foldl (λ m e, if String.eqb d (te_digest e) then Some e else m) None tokens.

(** ** Host and Origin *)

Definition colon : ascii := ":"%char.

(** strings.LastIndexByte. *)
Fixpoint last_index (c : ascii) (s : string) : option nat :=
  match s with
  | EmptyString => None
  | String d s => match last_index c s with Some i => Some (S i) | None => if Ascii.eqb d c then Some O else None end
  end.

(** net.SplitHostPort: the host. *)
Definition SplitHostPort (s : string) : option string :=
  match last_index colon s with
  | None => None
  | Some i =>
      match s with
      | String "[" rest =>
          match cut_b "]" rest with
          | None => None
          | Some (host, after) =>
              if negb (String.length host + 2 =? i)%nat then None
              else if contains_b "[" rest || contains_b "]" after then None
              else Some host
          end
      | _ =>
          let host := s_take i s in
          if contains_b colon host || contains_b "[" s || contains_b "]" s then None else Some host
      end
  end.

Definition hex_value (c : ascii) : Z := if is_digit_b c then bz c - 48 else if in_range 97 102 (bz c) then bz c - 87 else bz c - 55.
Fixpoint hex_number (n : Z) (s : string) : Z := match s with EmptyString => n | String c s => hex_number (16 * n + hex_value c) s end.
Fixpoint dec_number (n : Z) (s : string) : Z := match s with EmptyString => n | String c s => dec_number (10 * n + (bz c - 48)) s end.

(** The 16-bit groups of a part of an IPv6 literal that parses. *)
Definition group_words (g : string) : list Z :=
  if contains_b "." g then
    match map (dec_number 0) (split_b "." g) with [a; b; c; d] => [256 * a + b; 256 * c + d] | _ => [] end
  else [hex_number 0 g].
Definition part_words (s : string) : list Z := List.concat (map group_words (List.filter (λ g, negb (String.eqb g "")) (split_b colon s))).

Fixpoint cut_ellipsis (s : string) : option (string * string) :=
  match s with
  | String ":" (String ":" r) => Some (EmptyString, r)
  | String c r => match cut_ellipsis r with Some (a, b) => Some (String c a, b) | None => None end
  | EmptyString => None
  end.

Definition ipv6_words (s : string) : list Z :=
  match cut_ellipsis s with
  | None => part_words s
  | Some (a, b) => part_words a ++ repeat 0 (8 - List.length (part_words a) - List.length (part_words b)) ++ part_words b
  end.

(** netip.ParseAddr and Addr.IsLoopback. *)
Definition loopback_ip (s : string) : bool :=
  match parse_addr s with
  | None => false
  | Some Addr4 => match split_b "." s with a :: _ => dec_number 0 a =? 127 | [] => false end
  | Some (Addr6 _) =>
      match ipv6_words (match cut_b "%" s with Some (a, _) => a | None => s end) with
      | [0; 0; 0; 0; 0; f; a; b] => ((f =? 65535) && (a / 256 =? 127)) || ((f =? 0) && (a =? 0) && (b =? 1))
      | _ => false
      end
  end.

Definition isLoopback (addr : string) : bool :=
  let host := match SplitHostPort addr with Some h => h | None => trim (cutset "[]") addr end in
  if String.eqb host "localhost" then true else loopback_ip host.

(** What the front reads of a request: the connection's local address, Host,
    the headers by canonical name, the path, and the token go-sdk's bearer
    check hands to [verify]. *)
Record http_request := {
  hr_local : option string; hr_host : string; hr_header : gmap string (list string); hr_path : string; hr_method : string;
  hr_bearer : option string;
}.

Definition hostAllowed (r : http_request) : bool :=
  match hr_local r with
  | None => true
  | Some l => if negb (isLoopback l) then true else isLoopback (hr_host r)
  end.

Definition crossOrigin (r : http_request) : bool :=
  match hr_header r !! "Origin" with
  | Some _ => true
  | None => existsb (λ v, negb (String.eqb v "none") && negb (String.eqb v "same-origin")) (default [] (hr_header r !! "Sec-Fetch-Site"))
  end.

(** The first value of a header, or "". *)
Definition header_get (r : http_request) (name : string) : string :=
  match hr_header r !! name with Some (v :: _) => v | _ => "" end.

Definition statelessRequest (r : http_request) : bool :=
  let v := header_get r "Mcp-Protocol-Version" in negb (String.eqb v "") && String.leb "2026-07-28" v.

(** closesConnection. *)
Definition closesConnection (code : Z) : bool := (code =? 401) || (code =? 403) || (code =? 404) || (code =? 413) || (code =? 503).

(** [ServeHTTP] up to [serveAuthed]: a status, or the principal. *)
Definition front (tokens : list tokenEntry) (r : http_request) : Z + string :=
  if negb (hostAllowed r) then inl 403
  else if crossOrigin r then inl 403
  else if negb (String.eqb (hr_path r) HTTPPath) then inl 404
  else match hr_bearer r with
  | None => inl 401
  | Some t => match verify tokens t with None => inl 401 | Some p => inr p end
  end.

(** [logRefusal]; strings.EqualFold with these letters is ASCII folding;
    [last] and [now] in nanoseconds; the CompareAndSwap is one
    with the load. *)
Definition logRefusal (last now : Z) (authorization : string) : Z * option string :=
  if now - last <? 1000000000 then (last, None)
  else (now, Some (match fields authorization with
    | [] => "no Authorization header"
    | [a; _] => if String.eqb (s_map lower_b a) "bearer" then "unknown token" else "not a bearer token"
    | _ => "not a bearer token"
    end)).

Example ex_loopback : map isLoopback ["localhost"; "localhost:8080"; "127.0.0.1:80"; "[::1]:80"; "[::1]"; "::ffff:127.9.9.9"; "::1%lo";
  "0:0:0:0:0:0:0:1"; "127.0.0.1.evil.com"; "evil.com:80"; "128.0.0.1"; "::2"; ""] =
  [true; true; true; true; true; true; true; true; false; false; false; false; false].
Proof. vm_compute. reflexivity. Qed.
Example ex_split : map SplitHostPort ["a:1"; "[::1]:80"; "::1"; "a"; "[a]b:1"; "a]:1"; "[a:1"] = [Some "a"; Some "::1"; None; None; None; None; None].
Proof. vm_compute. reflexivity. Qed.

(** ** Tokens that pass *)

Section Tokens.
Context `{Unicode}.

Definition entry_of (kv : string * string) : tokenEntry := {| te_name := fst kv; te_digest := sha256 (snd kv) |}.

Definition token_ok (kv : string * string) : Prop :=
  validPrincipalName (fst kv) = None ∧ minTokenBytes <= slen (snd kv) ∧ s_all token_byte (snd kv) = true.

Lemma check_tokens_ok seen tokens out :
  check_tokens seen tokens = Ok out → NoDup (map te_digest seen) →
  out = seen ++ map entry_of tokens ∧ NoDup (map te_digest out) ∧ Forall token_ok tokens.
Proof.
  revert seen. induction tokens as [|[name tok] tokens IH]; intros seen; cbn [check_tokens].
  { intros [= <-] Hnd. cbn. rewrite app_nil_r. done. }
  destruct (validPrincipalName name) eqn:Hn; [done|]. destruct (Z.ltb_spec (slen tok) minTokenBytes); [done|].
  destruct (s_all token_byte tok) eqn:Hb; [|done]. cbn [negb].
  destruct (List.find _ seen) as [other|] eqn:Hf; [done|]. intros Hc Hnd.
  destruct (IH _ Hc) as (-> & Hnd' & Hall).
  - rewrite map_app. apply NoDup_app. split; [done|]. split; [|repeat constructor; apply not_elem_of_nil].
    intros d (e & -> & He)%list_elem_of_fmap Hd%list_elem_of_singleton. cbn [te_digest] in Hd.
    apply list_elem_of_In in He. pose proof (List.find_none _ _ Hf e He) as Hne. cbn in Hne. by rewrite Hd, String.eqb_refl in Hne.
  - split; [by rewrite <- app_assoc|]. split; [done|]. constructor; [by split|done].
Qed.

Lemma checkTokens_ok tokens out : checkTokens tokens = Ok out →
  tokens ≠ [] ∧ out ≡ₚ map entry_of tokens ∧ Sorted entry_le out ∧ NoDup (map te_digest out) ∧ Forall token_ok tokens.
Proof.
  unfold checkTokens. destruct tokens as [|t tokens]; [done|]. set (ts := t :: tokens).
  destruct (check_tokens [] ts) as [o|] eqn:Hc; [|done]. intros [= <-].
  destruct (check_tokens_ok _ _ _ Hc) as (-> & Hnd & Hall); [constructor|]. rewrite app_nil_l in *.
  pose proof (merge_sort_Permutation entry_le (map entry_of ts)) as Hp. split; [done|]. split; [done|]. split; [|split; [|done] ].
  - apply Sorted_merge_sort. intros a b. unfold entry_le. apply str_le_total.
  - by rewrite (Permutation_map te_digest Hp).
Qed.

Lemma verify_fold d es m : NoDup (map te_digest es) → (∀ e, m = Some e → te_digest e = d ∧ d ∉ map te_digest es) →
  ∀ e, foldl (λ m e, if String.eqb d (te_digest e) then Some e else m) m es = Some e ↔ m = Some e ∨ (e ∈ es ∧ te_digest e = d).
Proof.
  revert m. induction es as [|x es IH]; intros m Hnd Hm e; cbn [foldl].
  { split; [by left|intros [?|[Hin _]]; [done|by apply not_elem_of_nil in Hin] ]. }
  cbn [map] in Hnd. apply NoDup_cons in Hnd as [Hni Hnd]. destruct (String.eqb_spec d (te_digest x)) as [Hd|Hd].
  - rewrite IH; [|done|intros e' [= <-]; by rewrite Hd]. split.
    + intros [[= <-]|[Hin He]]; [right; split; [by left|done]|right; split; [by right|done] ].
    + intros [Hs|[[->|Hin]%elem_of_cons He]]; [destruct (Hm e Hs) as [_ Hc]; destruct Hc; cbn; rewrite <- Hd; by left|by left|right; done].
  - rewrite IH; [|done|]. 2:{ intros e' He'. destruct (Hm e' He') as [H1 H2]. split; [done|]. intros Hin. apply H2. by right. }
    split; intros [Hs|[Hin He]]; [by left|right; split; [by right|done]|by left|]. apply elem_of_cons in Hin as [->|Hin]; [congruence|right; done].
Qed.
End Tokens.


Definition sample_tokens : list (string * string) :=
  [("alice", "0123456789abcdef0123456789abcdef"); ("bob", "fedcba9876543210fedcba9876543210")].

Definition sample_entries : list tokenEntry := match @checkTokens ascii_tables sample_tokens with Ok l => l | Err _ => [] end.

Definition sample_http : http_request :=
  {| hr_local := Some "127.0.0.1:8080"; hr_host := "localhost:8080"; hr_header := ∅; hr_path := "/mcp"; hr_method := "POST";
     hr_bearer := Some "fedcba9876543210fedcba9876543210" |}.

