(* ===== verification/Bind.v ===== *)
(** * The listener's sockets: cmd/fathomgate/listen.go

    The checked --listen address, the binding of both loopback families, the
    cap on open connections and the count of requests the shutdown waits for.
    What the operating system answers to each listen and each hold is a
    parameter.  Theorems: only loopback sockets are ever opened and none is left
    behind; the connection cap holds under any interleaving; a shutdown that
    waits is woken. *)

From S2P Require Import Prelude GoStd GoNetip Listener.

Open Scope string_scope.
Open Scope Z_scope.
Open Scope list_scope.

(** ** The address *)

(** A netip.Addr: octets, or 16-bit groups with a zone. *)
Inductive ip := IPv4 (octets : list Z) | IPv6 (groups : list Z) (zone : string).

#[export] Instance ip_eq_dec : EqDecision ip.
Proof. solve_decision. Defined.

Definition ipv4Loopback : ip := IPv4 [127; 0; 0; 1].
Definition IPv6Loopback : ip := IPv6 [0; 0; 0; 0; 0; 0; 0; 1] "".

(** netip.ParseAddr: the address. *)
Definition ParseAddr (s : string) : option ip :=
  match parse_addr s with
  | None => None
  | Some Addr4 => Some (IPv4 (map (dec_number 0) (split_b "." s)))
  | Some (Addr6 _) => let '(a, zone) := match cut_b "%" s with Some az => az | None => (s, "") end in Some (IPv6 (ipv6_words a) zone)
  end.

(** net.SplitHostPort: the host and the port. *)
Definition split_host_port (s : string) : option (string * string) :=
  match SplitHostPort s, last_index colon s with Some h, Some i => Some (h, s_drop (S i) s) | _, _ => None end.

(** strconv.ParseUint in base 10 and 16 bits. *)
Definition parse_uint16 (s : string) : option Z :=
  if String.eqb s "" || negb (s_all is_digit_b s) then None
  else let n := dec_number 0 s in if 65535 <? n then None else Some n.

Record listenAddr := { la_host : ip; la_port : Z }.

Definition other (a : listenAddr) : ip := match la_host a with IPv4 _ => IPv6Loopback | IPv6 _ _ => ipv4Loopback end.

Definition errListenAddr : string :=
  "--listen takes localhost:<port>, 127.0.0.1:<port> or [::1]:<port>; fathomgate listens on loopback only until remote binding with TLS arrives (M2)".

Definition parseListenAddr (s : string) : result string listenAddr :=
  match split_host_port s with
  | None => Err errListenAddr
  | Some (host, port) =>
      match parse_uint16 port with
      | None => Err "--listen: the port must be a number from 0 to 65535"
      | Some p =>
          let host := if String.eqb host "localhost" then "127.0.0.1" else host in
          match ParseAddr host with
          | Some i => if bool_decide (i = ipv4Loopback) || bool_decide (i = IPv6Loopback)
                      then Ok {| la_host := i; la_port := p |} else Err errListenAddr
          | None => Err errListenAddr
          end
      end
  end.

Definition is_ok {A} (r : result string A) : bool := match r with Ok _ => true | Err _ => false end.

Example ex_listen_addr : map (λ s, is_ok (parseListenAddr s))
  ["localhost:8080"; "127.0.0.1:0"; "[::1]:65535"; "[0:0:0:0:0:0:0:1]:1"; "127.0.0.2:80"; ":80"; "0.0.0.0:80"; "[::ffff:127.0.0.1]:80";
   "[::1%lo]:80"; "localhost:65536"; "localhost:+1"; "localhost:"; "127.0.0.1"; "example.com:80"] =
  [true; true; true; true; false; false; false; false; false; false; false; false; false; false].
Proof. vm_compute. reflexivity. Qed.

(** ** Binding *)

Definition bindAttempts : Z := 8.

(** A failed listen: the host lacks the family, or anything else. *)
Inductive listen_error := FamilyMissing (text : string) | ListenFailed (text : string).

(** A bound listener: which listen it came from, its address and its port. *)
Record bound_socket := { bd_id : nat; bd_host : ip; bd_port : Z }.

Inductive bind_error :=
  | CannotListen (e : listen_error) | NoPort (host : ip) (port : Z) | OtherTaken (host : ip) (port : Z) (cause : string)
  | HoldFailed (cause : string).

(** What was asked of the operating system, and the listeners still open. *)
Record sockets := { so_calls : list (ip * Z); so_open : list nat }.

Section Bind.
(** [os n host port]: the n-th listen; its bound port, unless the listener
    cannot say.  [hold]: taking the port on the wildcard addresses. *)
Context (os : nat → ip → Z → result listen_error (option Z)) (hold : option (nat → Z → result string unit)).

Definition listen (w : sockets) (host : ip) (port : Z) : result listen_error (nat * option Z) * sockets :=
  let n := List.length (so_calls w) in
  let calls := so_calls w ++ [(host, port)] in
  match os n host port with
  | Err e => (Err e, {| so_calls := calls; so_open := so_open w |})
  | Ok p => (Ok (n, p), {| so_calls := calls; so_open := n :: so_open w |})
  end.

Definition close_listener (w : sockets) (id : nat) : sockets :=
  {| so_calls := so_calls w; so_open := List.filter (λ n, negb (n =? id)%nat) (so_open w) |}.

(** [bindLoopbackFamilies]: [None] is out of fuel. *)
Fixpoint bindLoopbackFamilies (fuel : nat) (attempt : Z) (a : listenAddr) (w : sockets) :
    option (result bind_error (list bound_socket * Z) * sockets) :=
  match fuel with
  | O => None
  | S fuel =>
      match listen w (la_host a) (la_port a) with
      | (Err e, w) => Some (Err (CannotListen e), w)
      | (Ok (id, reported), w) =>
          let fail := Some (Err (NoPort (la_host a) (la_port a)), close_listener w id) in
          match reported with
          | None => fail
          | Some port =>
              if (port <=? 0) || (65535 <? port) then fail
              else
                let first := {| bd_id := id; bd_host := la_host a; bd_port := port |} in
                match listen w (other a) port with
                | (Ok (id2, _), w) => Some (Ok ([first; {| bd_id := id2; bd_host := other a; bd_port := port |}], port), w)
                | (Err (FamilyMissing _), w) => Some (Ok ([first], port), w)
                | (Err (ListenFailed cause), w) =>
                    let w := close_listener w id in
                    if (la_port a =? 0) && (attempt <? bindAttempts) then bindLoopbackFamilies fuel (attempt + 1) a w
                    else Some (Err (OtherTaken (other a) port cause), w)
                end
          end
      end
  end.

Definition close_all (w : sockets) (lns : list bound_socket) : sockets := foldl (λ w l, close_listener w (bd_id l)) w lns.

Fixpoint bindLoopback (fuel : nat) (attempt : Z) (a : listenAddr) (w : sockets) : option (result bind_error (list bound_socket) * sockets) :=
  match fuel with
  | O => None
  | S fuel =>
      match bindLoopbackFamilies (Z.to_nat bindAttempts) 1 a w with
      | None => None
      | Some (Err e, w) => Some (Err e, w)
      | Some (Ok (lns, port), w) =>
          match hold with
          | None => Some (Ok lns, w)
          | Some hold =>
              match hold (List.length (so_calls w)) port with
              | Ok _ => Some (Ok lns, w)
              | Err cause =>
                  let w := close_all w lns in
                  if (la_port a =? 0) && (attempt <? bindAttempts) then bindLoopback fuel (attempt + 1) a w
                  else Some (Err (HoldFailed cause), w)
              end
          end
      end
  end.

Definition no_sockets : sockets := {| so_calls := []; so_open := [] |}.

Definition bind_listener (a : listenAddr) : option (result bind_error (list bound_socket) * sockets) :=
  bindLoopback (Z.to_nat bindAttempts) 1 a no_sockets.
End Bind.

(** ** The connection cap *)

Definition maxConnections : nat := 128.

(** The listeners of one [limitListeners]: the slots taken of the shared
    semaphore; the Accepts that hold a slot and wait for a connection, by
    listener; the connections accepted, with whether each is closed; the
    listeners closed. *)
Record limited := { li_sem : nat; li_waiting : list nat; li_conns : gmap nat bool; li_done : gset nat }.

Definition new_limited : limited := {| li_sem := 0; li_waiting := []; li_conns := ∅; li_done := ∅ |}.

Inductive limit_event :=
  | TakeSlot (l : nat) | AcceptClosed (l : nat) | Accepted (l c : nat) | AcceptFailed (l : nat) | ConnClose (c : nat) | CloseListener (l : nat).

Fixpoint remove_one (l : nat) (ws : list nat) : option (list nat) :=
  match ws with
  | [] => None
  | w :: ws => if (w =? l)%nat then Some ws else cons w <$> remove_one l ws
  end.

(** The receive that frees a slot; it would wait on an empty semaphore. *)
Definition free_slot (s : limited) : option limited :=
  match li_sem s with
  | O => None
  | S n => Some {| li_sem := n; li_waiting := li_waiting s; li_conns := li_conns s; li_done := li_done s |}
  end.

(** One step of an Accept or a Close; [None] is a step that cannot be taken. *)
Definition limit_step (n : nat) (s : limited) (e : limit_event) : option limited :=
  match e with
  | TakeSlot l =>
      if (li_sem s <? n)%nat
      then Some {| li_sem := S (li_sem s); li_waiting := l :: li_waiting s; li_conns := li_conns s; li_done := li_done s |} else None
  | AcceptClosed l => if bool_decide (l ∈ li_done s) then Some s else None
  | Accepted l c =>
      match remove_one l (li_waiting s), li_conns s !! c with
      | Some ws, None => Some {| li_sem := li_sem s; li_waiting := ws; li_conns := <[c := false]> (li_conns s); li_done := li_done s |}
      | _, _ => None
      end
  | AcceptFailed l =>
      match remove_one l (li_waiting s) with
      | Some ws => free_slot {| li_sem := li_sem s; li_waiting := ws; li_conns := li_conns s; li_done := li_done s |}
      | None => None
      end
  | ConnClose c =>
      match li_conns s !! c with
      | None => None
      | Some true => Some s
      | Some false => free_slot {| li_sem := li_sem s; li_waiting := li_waiting s; li_conns := <[c := true]> (li_conns s); li_done := li_done s |}
      end
  | CloseListener l => Some {| li_sem := li_sem s; li_waiting := li_waiting s; li_conns := li_conns s; li_done := {[ l ]} ∪ li_done s |}
  end.

Definition limit_run (n : nat) (es : list limit_event) : option limited :=
  foldl (λ s e, match s with Some s => limit_step n s e | None => None end) (Some new_limited) es.

Definition open_conns (s : limited) : gmap nat bool := filter (λ kv : nat * bool, kv.2 = false) (li_conns s).

(** ** The requests a shutdown waits for *)

Definition longLived (r : http_request) : bool :=
  String.eqb (hr_method r) "GET" || String.eqb (header_get r "Mcp-Method") "subscriptions/listen".

(** [requestTracker]: the count, the channel of those who wait, and the
    channels closed so far; channels are numbered as they are made. *)
Record requestTracker := { rt_n : Z; rt_idle : option nat; rt_closed : gset nat; rt_next : nat }.

Definition new_tracker : requestTracker := {| rt_n := 0; rt_idle := None; rt_closed := ∅; rt_next := 0 |}.

(** [add]. *)
Definition track_add (t : requestTracker) (d : Z) : requestTracker :=
  let n := rt_n t + d in
  match rt_idle t with
  | Some ch => if n =? 0 then {| rt_n := n; rt_idle := None; rt_closed := {[ ch ]} ∪ rt_closed t; rt_next := rt_next t |}
               else {| rt_n := n; rt_idle := rt_idle t; rt_closed := rt_closed t; rt_next := rt_next t |}
  | None => {| rt_n := n; rt_idle := None; rt_closed := rt_closed t; rt_next := rt_next t |}
  end.

(** [wait], up to its select: [None] returns true at once, [Some] waits on the
    channel. *)
Definition wait_begin (t : requestTracker) : requestTracker * option nat :=
  if rt_n t =? 0 then (t, None)
  else match rt_idle t with
  | Some ch => (t, Some ch)
  | None => ({| rt_n := rt_n t; rt_idle := Some (rt_next t); rt_closed := rt_closed t; rt_next := S (rt_next t) |}, Some (rt_next t))
  end.

(** A request begins or ends being served, or a shutdown starts to wait. *)
Inductive track_event := ReqBegin (r : http_request) | ReqEnd (r : http_request) | WaitBegin.

(** [wrap] around a request, and [wait]. *)
Definition track_step (t : requestTracker) (e : track_event) : requestTracker :=
  match e with
  | ReqBegin r => if longLived r then t else track_add t 1
  | ReqEnd r => if longLived r then t else track_add t (-1)
  | WaitBegin => fst (wait_begin t)
  end.

Definition track_run (es : list track_event) : requestTracker := foldl track_step new_tracker es.

(** The requests that count, begun less ended. *)
Definition in_service (es : list track_event) : Z :=
  foldr (λ e n, n + match e with ReqBegin r => if longLived r then 0 else 1 | ReqEnd r => if longLived r then 0 else -1 | WaitBegin => 0 end) 0 es.

(** ** Only loopback sockets *)

Definition loopback (h : ip) : Prop := h = ipv4Loopback ∨ h = IPv6Loopback.

Section BindProofs.
Context (os : nat → ip → Z → result listen_error (option Z)) (a : listenAddr).

(** The listeners a bind returns: both families on one port, or [a] alone
    where the host lacks the other. *)
Definition bound_pair (lns : list bound_socket) (port : Z) : Prop :=
  0 < port <= 65535 ∧
  ∃ i, os i (la_host a) (la_port a) = Ok (Some port) ∧
    ((∃ j r, os j (other a) port = Ok r ∧ i ≠ j ∧
        lns = [ {| bd_id := i; bd_host := la_host a; bd_port := port |}; {| bd_id := j; bd_host := other a; bd_port := port |} ]) ∨
     (∃ j text, os j (other a) port = Err (FamilyMissing text) ∧ lns = [ {| bd_id := i; bd_host := la_host a; bd_port := port |} ])).

Definition fresh_ids (w : sockets) : Prop := ∀ n, n ∈ so_open w → (n < List.length (so_calls w))%nat.

(** From [w] to [w']: at most [k] more listens, each for one of the two addresses. *)
Definition asks (k : nat) (w w' : sockets) : Prop :=
  ∃ more, so_calls w' = so_calls w ++ more ∧ (List.length more ≤ k)%nat ∧ Forall (λ hp : ip * Z, hp.1 = la_host a ∨ hp.1 = other a) more.

Lemma asks_trans k k' w1 w2 w3 : asks k w1 w2 → asks k' w2 w3 → asks (k + k') w1 w3.
Proof.
  intros (m1 & E1 & L1 & F1) (m2 & E2 & L2 & F2). exists (m1 ++ m2). rewrite E2, E1, app_assoc, length_app. split_and!; [done|lia|by apply Forall_app].
Qed.

Lemma asks_close k w w' id : asks k w w' → asks k w (close_listener w' id).
Proof. done. Qed.

Lemma asks_le k k' w w' : asks k w w' → (k ≤ k')%nat → asks k' w w'.
Proof. intros (m & E & L & F) Hk. exists m. split_and!; [done|lia|done]. Qed.

Lemma listen_spec w h p : h = la_host a ∨ h = other a →
  let '(r, w') := listen os w h p in
  asks 1 w w' ∧ List.length (so_calls w') = S (List.length (so_calls w)) ∧
  match r with
  | Err e => os (List.length (so_calls w)) h p = Err e ∧ so_open w' = so_open w
  | Ok (id, reported) => id = List.length (so_calls w) ∧ os id h p = Ok reported ∧ so_open w' = id :: so_open w
  end.
Proof.
  intros Hh. unfold listen. destruct (os _ h p) as [r|e] eqn:E; cbn;
    (split; [exists [(h, p)]; split_and!; [done|cbn; lia|by apply Forall_singleton]|split; [rewrite length_app; cbn; lia|done] ]).
Qed.

Lemma filter_out_none (id : nat) k : id ∉ k → List.filter (λ n, negb (n =? id)%nat) k = k.
Proof.
  induction k as [|n k IHk]; [done|]. intros [Hne Hk]%not_elem_of_cons. cbn. destruct (Nat.eqb_spec n id); [congruence|]. cbn. by rewrite IHk.
Qed.

Lemma close_head w id o : so_open w = id :: o → id ∉ o → so_open (close_listener w id) = o.
Proof. intros E Hni. cbn. rewrite E. cbn. rewrite Nat.eqb_refl. cbn. by apply filter_out_none. Qed.

Lemma families_spec fuel : ∀ attempt w, fresh_ids w → attempt <= bindAttempts →
  match bindLoopbackFamilies os fuel attempt a w with
  | None => Z.of_nat fuel + attempt <= bindAttempts
  | Some (r, w') => asks (2 * fuel) w w' ∧
      match r with
      | Err _ => so_open w' = so_open w
      | Ok (lns, port) => bound_pair lns port ∧ so_open w' = rev (map bd_id lns) ++ so_open w ∧ Forall (λ l, List.length (so_calls w) ≤ bd_id l)%nat lns
      end
  end.
Proof.
  induction fuel as [|fuel IH]; intros attempt w Hw Ha; cbn [bindLoopbackFamilies]; [lia|].
  pose proof (listen_spec w (la_host a) (la_port a) (or_introl eq_refl)) as Hl. destruct (listen os w (la_host a) (la_port a)) as [ [ [id reported]|e] w1].
  2:{ destruct Hl as (Hk & _ & _ & Ho). split; [|done]. apply (asks_le 1); [done|lia]. }
  destruct Hl as (Hk & Hlen & -> & Hos & Ho). set (id := List.length (so_calls w)) in *.
  assert (Hni : id ∉ so_open w) by (intros Hin; specialize (Hw _ Hin); lia).
  assert (Hfail : asks (2 * S fuel) w (close_listener w1 id) ∧ so_open (close_listener w1 id) = so_open w).
  { split; [apply (asks_le 1); [done|lia]|by apply close_head]. }
  destruct reported as [port|]; [|done]. destruct (Z.leb_spec port 0); [done|]. destruct (Z.ltb_spec 65535 port); [done|]. cbn [orb].
  pose proof (listen_spec w1 (other a) port (or_intror eq_refl)) as Hl2. destruct (listen os w1 (other a) port) as [ [ [id2 r2]|e2] w2].
  - destruct Hl2 as (Hk2 & _ & -> & Hos2 & Ho2). split; [apply (asks_le (1 + 1)); [by eapply asks_trans|lia]|]. rewrite Hlen in *. split_and!.
    + split; [done|]. exists id. split; [done|]. left. exists (S id), r2. split_and!; [done|lia|done].
    + by rewrite Ho2, Ho.
    + repeat constructor; cbn; lia.
  - destruct Hl2 as (Hk2 & Hlen2 & Hos2 & Ho2). assert (Hk3 : asks 2 w w2) by (by apply (asks_trans 1 1 w w1)). destruct e2 as [text|cause].
    + split; [apply (asks_le 2); [done|lia]|]. split_and!; [|by rewrite Ho2, Ho|by repeat constructor].
      split; [done|]. exists id. split; [done|]. right. by exists (List.length (so_calls w1)), text.
    + assert (Ho3 : so_open (close_listener w2 id) = so_open w) by (apply close_head; [by rewrite Ho2|done]).
      destruct (la_port a =? 0); cbn [andb]; [|split; [apply (asks_le 2); [done|lia]|done] ].
      destruct (Z.ltb_spec attempt bindAttempts); [|split; [apply (asks_le 2); [done|lia]|done] ].
      specialize (IH (attempt + 1) (close_listener w2 id)).
      assert (Hf : fresh_ids (close_listener w2 id)).
      { intros n Hn. rewrite Ho3 in Hn. specialize (Hw n Hn). cbn. fold id in Hw. lia. }
      specialize (IH Hf ltac:(lia)). destruct (bindLoopbackFamilies os fuel (attempt + 1) a (close_listener w2 id)) as [ [r w']|]; [|lia].
      destruct IH as [Hk4 IH]. split; [apply (asks_le (2 + 2 * fuel)); [by apply (asks_trans _ _ w (close_listener w2 id))|lia]|].
      rewrite Ho3 in IH. destruct r as [ [lns q]|]; [|done]. destruct IH as (Hb & Hop & Hge). split_and!; [done..|].
      eapply Forall_impl; [done|]. cbn. intros l Hl. lia.
Qed.

Lemma in_rev_elem {A} (x : A) l : x ∈ l ↔ x ∈ rev l.
Proof. rewrite !list_elem_of_In. apply in_rev. Qed.

Lemma close_all_spec lns : ∀ w o, so_open w = rev (map bd_id lns) ++ o → NoDup (map bd_id lns) → (∀ l, l ∈ lns → bd_id l ∉ o) →
  so_open (close_all w lns) = o ∧ so_calls (close_all w lns) = so_calls w.
Proof.
  induction lns as [|l lns IH]; intros w o Ho Hnd Hni; cbn [close_all foldl]; [done|]. cbn in Ho, Hnd. apply NoDup_cons in Hnd as [Hnl Hnd].
  rewrite <- app_assoc in Ho. cbn in Ho.
  assert (Hc : so_open (close_listener w (bd_id l)) = rev (map bd_id lns) ++ o).
  { cbn. rewrite Ho, List.filter_app. cbn. rewrite Nat.eqb_refl. cbn.
    rewrite !filter_out_none; [done|apply Hni; by left|]. by rewrite <- in_rev_elem. }
  destruct (IH _ o Hc Hnd) as [E1 E2]; [intros l' Hl'; apply Hni; by right|]. done.
Qed.

Lemma bound_pair_ids lns port : bound_pair lns port → NoDup (map bd_id lns).
Proof.
  intros (_ & i & _ & [(j & r & _ & Hij & ->)|(j & t & _ & ->)]); cbn; repeat constructor; try apply not_elem_of_nil.
  by intros ?%list_elem_of_singleton.
Qed.

Lemma bindLoopback_spec hold fuel : ∀ attempt w, fresh_ids w → attempt <= bindAttempts →
  match bindLoopback os hold fuel attempt a w with
  | None => Z.of_nat fuel + attempt <= bindAttempts
  | Some (r, w') => asks (16 * fuel) w w' ∧
      match r with
      | Err _ => so_open w' = so_open w
      | Ok lns => ∃ port, bound_pair lns port ∧ so_open w' = rev (map bd_id lns) ++ so_open w ∧
          (∀ h, hold = Some h → ∃ k, h k port = Ok tt)
      end
  end.
Proof.
  induction fuel as [|fuel IH]; intros attempt w Hw Ha; cbn [bindLoopback]; [lia|].
  pose proof (families_spec (Z.to_nat bindAttempts) 1 w Hw ltac:(unfold bindAttempts; lia)) as Hf.
  destruct (bindLoopbackFamilies os (Z.to_nat bindAttempts) 1 a w) as [ [r w1]|]; [|unfold bindAttempts in Hf; lia].
  destruct Hf as [Hk Hr]. change (2 * Z.to_nat bindAttempts)%nat with 16%nat in Hk.
  assert (Hk1 : asks (16 * S fuel) w w1) by (apply (asks_le 16); [done|lia]).
  destruct r as [ [lns port]|e]; [|by split]. destruct Hr as (Hb & Ho & Hge).
  destruct hold as [h|]; [|split; [done|]; by exists port].
  destruct (h (List.length (so_calls w1)) port) as [ []|cause] eqn:Eh; [split; [done|]; exists port; split_and!; try done; intros h' [= <-]; by eexists|].
  assert (Hc : so_open (close_all w1 lns) = so_open w ∧ so_calls (close_all w1 lns) = so_calls w1).
  { apply close_all_spec; [done|by eapply bound_pair_ids|]. intros l Hl Hin. rewrite Forall_forall in Hge. specialize (Hge l Hl). specialize (Hw _ Hin). lia. }
  destruct Hc as [Hco Hcc]. assert (Hk2 : asks 16 w (close_all w1 lns)) by (unfold asks; rewrite Hcc; done).
  destruct (la_port a =? 0); cbn [andb]; [|split; [apply (asks_le 16); [done|lia]|done] ].
  destruct (Z.ltb_spec attempt bindAttempts); [|split; [apply (asks_le 16); [done|lia]|done] ].
  assert (Hw2 : fresh_ids (close_all w1 lns)).
  { intros n Hn. rewrite Hco in Hn. specialize (Hw n Hn). rewrite Hcc. destruct Hk as (m & -> & _). rewrite length_app. lia. }
  specialize (IH (attempt + 1) _ Hw2 ltac:(lia)). destruct (bindLoopback os (Some h) fuel (attempt + 1) a (close_all w1 lns)) as [ [r w']|]; [|lia].
  destruct IH as [Hk4 IH]. split; [apply (asks_le (16 + 16 * fuel)); [by apply (asks_trans _ _ w (close_all w1 lns))|lia]|]. by rewrite Hco in IH.
Qed.
End BindProofs.

Lemma parseListenAddr_loopback text a : parseListenAddr text = Ok a → loopback (la_host a) ∧ loopback (other a) ∧ other a ≠ la_host a ∧ la_port a <= 65535.
Proof.
  unfold parseListenAddr. destruct (split_host_port text) as [ [host port]|]; [|done]. unfold parse_uint16.
  destruct (_ || _); [done|]. destruct (Z.ltb_spec 65535 (dec_number 0 port)); [done|].
  destruct (ParseAddr _) as [i|]; [|done]. destruct (bool_decide (i = ipv4Loopback) || bool_decide (i = IPv6Loopback)) eqn:E; [|done].
  intros [= <-]. unfold loopback, other. cbn. apply orb_true_iff in E as [->%bool_decide_eq_true| ->%bool_decide_eq_true]; cbn.
  - split_and!; [by left|by right|done|done].
  - split_and!; [by right|by left|done|done].
Qed.

(** C38: whatever address is given and whatever the operating system answers,
    the listener opens loopback sockets only and never leaves one behind.  If
    --listen is accepted, binding ends, after at most 128 listens, each for
    127.0.0.1 or [::1]; when it fails no listener is open; when it succeeds
    the open listeners are those returned, the first on the address asked for,
    the second on the other loopback address at the same port, or only the
    first when the host has no address of the other family; and the wildcard
    addresses of that port are held where they have to be. *)
Theorem bind_loopback_only os hold text a :
  parseListenAddr text = Ok a →
  match bind_listener os hold a with
  | None => False
  | Some (r, w) =>
      (List.length (so_calls w) ≤ 128)%nat ∧ (∀ h p, (h, p) ∈ so_calls w → loopback h) ∧
      match r with
      | Err _ => so_open w = []
      | Ok lns => ∃ port, (∀ n, n ∈ so_open w ↔ n ∈ map bd_id lns) ∧ bound_pair os a lns port ∧ other a ≠ la_host a ∧
          (∀ h, hold = Some h → ∃ k, h k port = Ok tt)
      end
  end.
Proof.
  intros (H1 & H2 & H3 & _)%parseListenAddr_loopback. unfold bind_listener.
  pose proof (bindLoopback_spec os a hold (Z.to_nat bindAttempts) 1 no_sockets) as Hs.
  specialize (Hs ltac:(by intros n ?%not_elem_of_nil) ltac:(unfold bindAttempts; lia)).
  destruct (bindLoopback _ _ _ _ _ _) as [ [r w]|]; [|unfold bindAttempts in Hs; lia]. destruct Hs as [(more & Hc & Hl & Hall) Hr]. cbn in Hc. split_and!.
  - rewrite Hc. exact Hl.
  - intros h p Hin. rewrite Hc in Hin. rewrite Forall_forall in Hall. by destruct (Hall _ Hin) as [E|E]; cbn in E; subst.
  - destruct r as [lns|e]; [|done]. destruct Hr as (port & Hb & Ho & Hh). exists port. split_and!; try done. intros n. rewrite Ho, app_nil_r. symmetry. apply in_rev_elem.
Qed.

(** Port 0: the other family is taken on the first port the system picks. *)
Definition sample_os (n : nat) (h : ip) (p : Z) : result listen_error (option Z) :=
  match n with 1%nat => Err (ListenFailed "address already in use") | O => Ok (Some 50000) | 2%nat => Ok (Some 50001) | _ => Ok (Some p) end.

Definition sample_addr : listenAddr := {| la_host := ipv4Loopback; la_port := 0 |}.

Lemma bind_loopback_only_witness :
  match bind_listener sample_os None sample_addr with
  | Some (Ok lns, w) => map bd_port lns = [50001; 50001] ∧ so_open w = [3; 2]%nat ∧ ∀ h p, (h, p) ∈ so_calls w → loopback h
  | _ => False
  end.
Proof.
  assert (Ha : parseListenAddr "localhost:0" = Ok sample_addr) by (vm_compute; reflexivity).
  pose proof (bind_loopback_only sample_os None "localhost:0" sample_addr Ha) as H.
  revert H. destruct (bind_listener sample_os None sample_addr) as [ [r w]|] eqn:E; [|exact (λ f, f)].
  intros (_ & Hcalls & _). vm_compute in E. injection E as <- <-. exact (conj eq_refl (conj eq_refl Hcalls)).
Defined.

(** ** The cap holds *)

Lemma remove_one_length l ws ws' : remove_one l ws = Some ws' → List.length ws = S (List.length ws').
Proof.
  revert ws'. induction ws as [|w ws IH]; intros ws'; cbn [remove_one]; [done|]. destruct (w =? l)%nat; [by intros [= <-]|].
  intros (k & Hk & ->)%fmap_Some. cbn. by rewrite (IH k Hk).
Qed.

Lemma open_conns_accept s c (conns : gmap nat bool) : li_conns s = conns → conns !! c = None →
  size (filter (λ kv : nat * bool, kv.2 = false) (<[c := false]> conns)) = S (size (open_conns s)).
Proof.
  intros <- Hc. rewrite map_filter_insert_True by done. rewrite map_size_insert_None; [done|]. apply map_lookup_filter_None. by left.
Qed.

Lemma open_conns_close s c : li_conns s !! c = Some false →
  size (open_conns s) = S (size (filter (λ kv : nat * bool, kv.2 = false) (<[c := true]> (li_conns s)))).
Proof.
  intros Hc. rewrite map_filter_insert_False by done. rewrite map_filter_delete.
  assert (Hf : open_conns s !! c = Some false) by (by apply map_lookup_filter_Some). unfold open_conns in *.
  rewrite map_size_delete_Some by (by eexists). assert (size (filter (λ kv : nat * bool, kv.2 = false) (li_conns s)) ≠ 0)%nat; [|lia].
  intros H0. apply map_size_empty_inv in H0. rewrite H0 in Hf. by rewrite lookup_empty in Hf.
Qed.

Definition slots_exact (n : nat) (s : limited) : Prop :=
  li_sem s = (List.length (li_waiting s) + size (open_conns s))%nat ∧ (li_sem s ≤ n)%nat.

Lemma limit_step_exact n s e s' : slots_exact n s → limit_step n s e = Some s' → slots_exact n s'.
Proof.
  unfold slots_exact. intros [Hs Hn]. destruct e as [l|l|l c|l|c|l]; cbn [limit_step].
  - destruct (Nat.ltb_spec (li_sem s) n); [|done]. intros [= <-]. cbn. unfold open_conns in *. cbn. lia.
  - case_bool_decide; [|done]. by intros [= <-].
  - destruct (remove_one l (li_waiting s)) as [ws|] eqn:Ew; [|done]. destruct (li_conns s !! c) eqn:Ec; [done|]. intros [= <-]. cbn.
    apply remove_one_length in Ew. unfold open_conns at 1. cbn. rewrite (open_conns_accept s c _ eq_refl Ec). lia.
  - destruct (remove_one l (li_waiting s)) as [ws|] eqn:Ew; [|done]. apply remove_one_length in Ew. unfold free_slot. cbn. destruct (li_sem s); [done|].
    intros [= <-]. cbn. unfold open_conns in *. cbn. lia.
  - destruct (li_conns s !! c) as [ []|] eqn:Ec; [by intros [= <-]| |done]. apply open_conns_close in Ec. unfold free_slot. cbn. destruct (li_sem s); [done|].
    intros [= <-]. cbn. unfold open_conns at 1. cbn. lia.
  - intros [= <-]. done.
Qed.

Lemma limit_run_exact n es s : limit_run n es = Some s → slots_exact n s.
Proof.
  unfold limit_run. revert s. induction es as [|e es IH] using rev_ind; intros s; cbn; [intros [= <-]; split; [done|cbn; lia]|].
  rewrite foldl_app. cbn. destruct (foldl _ _ _) as [t|] eqn:E; [|done]. intros Hs. eapply limit_step_exact; [by apply IH|done].
Qed.

(** the listeners of one limitListeners together never hold more than n
    connections open, however their Accepts and Closes interleave, and no slot
    is lost: the slots taken are exactly the Accepts that wait and the
    connections not closed; closing an open connection frees one slot, closing
    it again none, a failed Accept gives its slot back, and a slot can be taken
    whenever fewer than n are. *)
Theorem connections_bounded n es s :
  limit_run n es = Some s →
  (size (open_conns s) + List.length (li_waiting s) = li_sem s)%nat ∧ (li_sem s ≤ n)%nat ∧
  (∀ c, open_conns s !! c = Some false → ∃ s', limit_step n s (ConnClose c) = Some s' ∧ li_sem s = S (li_sem s') ∧ open_conns s' !! c = None) ∧
  (∀ c, li_conns s !! c = Some true → limit_step n s (ConnClose c) = Some s) ∧
  (∀ l, l ∈ li_waiting s → ∃ s', limit_step n s (AcceptFailed l) = Some s' ∧ li_sem s = S (li_sem s')) ∧
  (∀ l, (li_sem s < n)%nat ↔ is_Some (limit_step n s (TakeSlot l))).
Proof.
  intros Hr. destruct (limit_run_exact n es s Hr) as [Hs Hn]. split_and!; [lia|done|..].
  - intros c Hc. apply map_lookup_filter_Some in Hc as [Hc _]. cbn [limit_step]. rewrite Hc. pose proof (open_conns_close s c Hc). unfold free_slot. cbn.
    destruct (li_sem s) as [|k]; [lia|]. eexists. split; [done|]. split; [done|]. apply map_lookup_filter_None. right. cbn. intros b. rewrite lookup_insert_eq. by intros [= <-].
  - intros c Hc. cbn. by rewrite Hc.
  - intros l Hl. cbn. assert (is_Some (remove_one l (li_waiting s))) as [ws Hw].
    { clear -Hl. induction (li_waiting s) as [|w ws IH]; [by apply not_elem_of_nil in Hl|]. cbn. destruct (Nat.eqb_spec w l); [by eexists|].
      apply elem_of_cons in Hl as [->|Hl]; [done|]. destruct (IH Hl) as [k ->]. by eexists. }
    rewrite Hw. unfold free_slot. cbn. apply remove_one_length in Hw. destruct (li_sem s) as [|k]; [lia|]. by eexists.
  - intros l. cbn [limit_step]. destruct (Nat.ltb_spec (li_sem s) n) as [H|H]; split; intros Hx; [by eexists|done|lia|by destruct Hx].
Qed.

Definition sample_limit : list limit_event := [TakeSlot 0; TakeSlot 1; Accepted 1 7; TakeSlot 1; ConnClose 7; ConnClose 7].

Lemma connections_bounded_witness :
  match limit_run 3 sample_limit with Some s => li_sem s = 2%nat ∧ (li_sem s ≤ 3)%nat | None => False end.
Proof.
  destruct (limit_run 3 sample_limit) as [s|] eqn:E; [|vm_compute in E; discriminate].
  pose proof (proj1 (proj2 (connections_bounded 3 sample_limit s E))) as H. split; [|exact H].
  vm_compute in E. injection E as <-. reflexivity.
Defined.

(** ** A waiting shutdown is woken *)

Lemma rt_n_add t d : rt_n (track_add t d) = rt_n t + d.
Proof. unfold track_add. by destruct (rt_idle t), (rt_n t + d =? 0). Qed.

Lemma rt_n_step t e : rt_n (track_step t e) = rt_n t + in_service [e].
Proof.
  destruct e as [r|r|]; cbn; [destruct (longLived r); rewrite ?rt_n_add; lia..|].
  unfold wait_begin. destruct (rt_n t =? 0), (rt_idle t); cbn; lia.
Qed.

Lemma in_service_app a b : in_service (a ++ b) = in_service a + in_service b.
Proof. induction a as [|e a IH]; cbn [in_service foldr app]; [done|]. fold (in_service (a ++ b)) (in_service a) in *. rewrite IH. lia. Qed.

Lemma rt_n_run es : ∀ t, rt_n (foldl track_step t es) = rt_n t + in_service es.
Proof.
  induction es as [|e es IH]; intros t; cbn [foldl]; [cbn; lia|]. rewrite IH, rt_n_step. change (e :: es) with ([e] ++ es). rewrite in_service_app. lia.
Qed.

(** One step of a tracker somebody waits on. *)
Lemma track_step_waited t e ch : rt_idle t = Some ch → rt_n t ≠ 0 →
  (rt_n (track_step t e) = 0 → ch ∈ rt_closed (track_step t e)) ∧
  (rt_n (track_step t e) ≠ 0 → rt_idle (track_step t e) = Some ch ∧ rt_closed (track_step t e) = rt_closed t).
Proof.
  intros Hi Hn. destruct e as [r|r|]; cbn [track_step]; [destruct (longLived r)..|]; try done.
  1-2: unfold track_add; rewrite Hi; case_match eqn:E; [apply Z.eqb_eq in E|apply Z.eqb_neq in E]; cbn; split; [set_solver|done|done|done].
  unfold wait_begin. apply Z.eqb_neq in Hn as Hn'. rewrite Hn', Hi. done.
Qed.

Lemma track_closed_mono t e : rt_closed t ⊆ rt_closed (track_step t e).
Proof.
  destruct e as [r|r|]; cbn [track_step]; [destruct (longLived r)..|]; try done; unfold track_add, wait_begin; repeat case_match; cbn; set_solver.
Qed.

Lemma track_closed_run es : ∀ t, rt_closed t ⊆ rt_closed (foldl track_step t es).
Proof. induction es as [|e es IH]; intros t; cbn; [done|]. etrans; [apply track_closed_mono|apply IH]. Qed.

Lemma waited_closed es : ∀ t ch, rt_idle t = Some ch → ch ∉ rt_closed t → rt_n t ≠ 0 →
  ch ∈ rt_closed (foldl track_step t es) ↔ ∃ es1 es2, es = es1 ++ es2 ∧ rt_n (foldl track_step t es1) = 0.
Proof.
  induction es as [|e es IH]; intros t ch Hi Hc Hn; cbn [foldl].
  { split; [done|]. intros (es1 & es2 & E & H0). symmetry in E. apply app_eq_nil in E as [-> ->]. done. }
  destruct (track_step_waited t e ch Hi Hn) as [S1 S2]. destruct (decide (rt_n (track_step t e) = 0)) as [H0|H0].
  - split; [intros _; by exists [e], es|]. intros _. apply track_closed_run, S1, H0.
  - destruct (S2 H0) as [Hi' Hc']. rewrite (IH _ ch Hi') by (by rewrite ?Hc'). split.
    + intros (es1 & es2 & -> & Hz). by exists (e :: es1), es2.
    + intros ([|e' es1] & es2 & E & Hz); [done|]. injection E as <- ->. by exists es1, es2.
Qed.

Record tracked (t : requestTracker) : Prop := {
  tk_idle ch : rt_idle t = Some ch → rt_n t ≠ 0 ∧ ch ∉ rt_closed t ∧ (ch < rt_next t)%nat;
  tk_closed ch : ch ∈ rt_closed t → (ch < rt_next t)%nat;
}.

Lemma track_add_tracked t d : tracked t → tracked (track_add t d).
Proof.
  intros [T1 T2]. unfold track_add. destruct (rt_idle t) as [ch|] eqn:Hi; [|by split]. destruct (T1 ch eq_refl) as (H1 & H2 & H3).
  destruct (Z.eqb_spec (rt_n t + d) 0); (split; cbn; [|]).
  - done.
  - intros c [->%elem_of_singleton|Hc]%elem_of_union; [done|by apply T2].
  - intros c [= <-]. done.
  - done.
Qed.

Lemma tracked_run es : tracked (track_run es).
Proof.
  unfold track_run. induction es as [|e es IH] using rev_ind; [split; cbn; [done|set_solver]|]. rewrite foldl_app. cbn [foldl].
  destruct e as [r|r|]; cbn [track_step]; [destruct (longLived r); [done|by apply track_add_tracked]..|].
  unfold wait_begin. destruct (Z.eqb_spec (rt_n (foldl track_step new_tracker es)) 0); [done|]. destruct (rt_idle _) eqn:Hi; [done|].
  destruct IH as [T1 T2]. split; cbn.
  - intros c [= <-]. split; [done|]. split; [|lia]. intros Hc. specialize (T2 _ Hc). lia.
  - intros c Hc. specialize (T2 c Hc). lia.
Qed.

(** a shutdown that waits for the requests in flight is woken exactly when
    it should be.  After any requests and waits it does not wait when no
    counted request is in service; otherwise its channel is closed once the
    number in service has reached zero since it began to wait, even if it has
    risen again, and never before. *)
Theorem shutdown_woken es :
  (snd (wait_begin (track_run es)) = None ↔ in_service es = 0) ∧
  ∀ ch es', snd (wait_begin (track_run es)) = Some ch →
    (ch ∈ rt_closed (track_run (es ++ WaitBegin :: es')) ↔ ∃ es1 es2, es' = es1 ++ es2 ∧ in_service (es ++ WaitBegin :: es1) = 0).
Proof.
  assert (Hn : rt_n (track_run es) = in_service es) by (unfold track_run; rewrite rt_n_run; cbn; lia).
  split; [unfold wait_begin; rewrite Hn; destruct (Z.eqb_spec (in_service es) 0); [done|]; destruct (rt_idle _); by split|].
  intros ch es' Hch. unfold track_run. rewrite foldl_app. cbn [foldl track_step]. fold (track_run es).
  set (t := fst (wait_begin (track_run es))).
  assert (Ht : rt_idle t = Some ch ∧ ch ∉ rt_closed t ∧ rt_n t ≠ 0).
  { pose proof (tracked_run es) as [T1 T2]. subst t. unfold wait_begin in *. destruct (Z.eqb_spec (rt_n (track_run es)) 0); [done|].
    destruct (rt_idle (track_run es)) as [c|] eqn:Hi; cbn in *; injection Hch as <-; [destruct (T1 c eq_refl) as (? & ? & ?); done|].
    split_and!; [done| |done]. intros Hc. specialize (T2 _ Hc). lia. }
  destruct Ht as (Hi & Hc & H0). rewrite (waited_closed es' t ch Hi Hc H0).
  assert (He : ∀ es1, rt_n (foldl track_step t es1) = in_service (es ++ WaitBegin :: es1)).
  { intros es1. rewrite rt_n_run, in_service_app. change (WaitBegin :: es1) with ([WaitBegin] ++ es1). rewrite in_service_app. subst t.
    change (fst (wait_begin (track_run es))) with (track_step (track_run es) WaitBegin). rewrite rt_n_step, Hn. lia. }
  by setoid_rewrite He.
Qed.
