(* ===== verification/ListenTokens.v ===== *)
(** * Bearer tokens of the listener: cmd/fathomgate/listen_token.go

    The tokens of serve --listen, from owner-only files or from the
    environment.  Reading a file with its ownership checks is a parameter.
    Theorem: what is loaded is what the handler accepts, one valid token for each
    principal, taken from one source. *)

From S2P Require Import Prelude GoStd GoCrypto Listener.

Open Scope string_scope.
Open Scope Z_scope.
Open Scope list_scope.

Definition listenTokenEnv : string := "FATHOMGATE_LISTEN_TOKEN".
Definition envPrincipal : string := "env".
Definition minListenTokenBytes : Z := 32.
Definition principalPattern : string := "[A-Za-z0-9_.:-]".

(** [listenTokens]: [lt_names] are sorted. *)
Record listenTokens := { lt_byName : gmap string string; lt_names : list string }.

(** [checkListenToken]: [None] is no error. *)
Definition checkListenToken (tok : string) : option string :=
  if slen tok <? minListenTokenBytes
  then Some ("is " ++ itoa (slen tok) ++ " bytes; at least " ++ itoa minListenTokenBytes ++ " are required (generate one with: openssl rand -hex 32)")%string
  else if negb (s_all token_byte tok) then Some "contains white space, a control character or a non-ASCII byte"
  else None.

Definition principal_byte (c : ascii) : bool := is_lower_b c || is_upper_b c || is_digit_b c || contains_b c "_.:-".

(** [validPrincipalName] of the command. *)
Definition principal_name_ok (name : string) : bool :=
  negb (String.eqb name "" || (64 <? slen name)) && s_all principal_byte name.

Definition newline : string := String "010"%char EmptyString.
Definition crlf : string := String "013"%char newline.

(** bytes.CutSuffix. *)
Definition cut_suffix (s p : string) : option string := if has_suffix s p then Some (s_take (String.length s - String.length p) s) else None.

Definition trimOneNewline (s : string) : string :=
  match cut_suffix s crlf with Some t => t | None => default s (cut_suffix s newline) end.

Definition flag_name (name : string) : string := ("--listen-token-file " ++ name)%string.
Definition argument (i : Z) : string := ("--listen-token-file argument " ++ itoa i)%string.

Section Load.
(** [read path]: the file, or why it is refused; [lookup]: the environment. *)
Context (read : string → result string string) (lookup : string → option string).

(** The loop over the entries from number [i] on. *)
Fixpoint load_token_files (i : Z) (out : listenTokens) (files : list string) : result string listenTokens :=
  match files with
  | [] => Ok out
  | entry :: files =>
      let not_pair := Err (argument i ++ " is not NAME=PATH")%string in
      match cut_b "=" entry with
      | None => not_pair
      | Some (name, path) =>
          if String.eqb name "" || String.eqb path "" then not_pair
          else if negb (principal_name_ok name)
          then Err (argument i ++ ": the name must be 1 to 64 characters of " ++ principalPattern)%string
          else match lt_byName out !! name with
          | Some _ => Err (flag_name name ++ " is given twice; each principal has one token")%string
          | None =>
              match read path with
              | Err e => Err (flag_name name ++ ": " ++ e)%string
              | Ok raw =>
                  let tok := trimOneNewline raw in
                  match checkListenToken tok with
                  | Some e => Err (flag_name name ++ ": the token " ++ e)%string
                  | None =>
                      match List.find (λ kv : string * string, String.eqb kv.2 tok) (map_to_list (lt_byName out)) with
                      | Some (o, _) => Err (flag_name (str_min name o) ++ " and " ++ str_max name o ++ " have the same token; give each principal its own")%string
                      | None => load_token_files (i + 1) {| lt_byName := <[name := tok]> (lt_byName out); lt_names := lt_names out ++ [name] |} files
                      end
                  end
              end
          end
      end
  end.

Definition no_tokens : listenTokens := {| lt_byName := ∅; lt_names := [] |}.

Definition loadListenTokens (files : list string) : result string listenTokens :=
  match lookup listenTokenEnv, files with
  | Some _, _ :: _ => Err (listenTokenEnv ++ " and --listen-token-file are both set; use one")%string
  | Some tok, [] =>
      if String.eqb tok "" then Err (listenTokenEnv ++ " is set but empty")%string
      else match checkListenToken tok with
      | Some e => Err (listenTokenEnv ++ ": the token " ++ e)%string
      | None => Ok {| lt_byName := {[ envPrincipal := tok ]}; lt_names := [envPrincipal] |}
      end
  | None, [] => Err ("--listen needs a bearer token: --listen-token-file NAME=PATH (repeatable) or " ++ listenTokenEnv)%string
  | None, _ =>
      match load_token_files 1 no_tokens files with
      | Ok out => Ok {| lt_byName := lt_byName out; lt_names := sort_strings (lt_names out) |}
      | Err e => Err e
      end
  end.

(** ** What is loaded *)

(** The token a --listen-token-file entry names. *)
Definition entry_token (entry name tok : string) : Prop :=
  ∃ path raw, entry = (name ++ String "=" path)%string ∧ path ≠ "" ∧ read path = Ok raw ∧ tok = trimOneNewline raw.

Definition good_token (name tok : string) : Prop := principal_name_ok name = true ∧ checkListenToken tok = None.

Record loaded (files : list string) (out : listenTokens) : Prop := {
  ld_names : lt_names out ≡ₚ map fst (map_to_list (lt_byName out));
  ld_good name tok : lt_byName out !! name = Some tok → good_token name tok ∧ ∃ e, e ∈ files ∧ entry_token e name tok;
  ld_distinct n m tok : lt_byName out !! n = Some tok → lt_byName out !! m = Some tok → n = m;
  ld_all e : e ∈ files → ∃ name tok, lt_byName out !! name = Some tok ∧ entry_token e name tok;
}.

Lemma load_token_files_ok files : ∀ i done out out', loaded done out → load_token_files i out files = Ok out' → loaded (done ++ files) out'.
Proof.
  induction files as [|entry files IH]; intros i dn out out' Hl; cbn [load_token_files]; [intros [= <-]; by rewrite app_nil_r|].
  pose proof (cut_b_spec "=" entry) as Hcut. destruct (cut_b "=" entry) as [ [name path]|]; [|done]. destruct Hcut as [He _].
  destruct (String.eqb_spec name ""); [done|]. destruct (String.eqb_spec path ""); [done|]. cbn [orb].
  destruct (principal_name_ok name) eqn:Hn; [|done]. cbn [negb]. destruct (lt_byName out !! name) eqn:Hnew; [done|].
  destruct (read path) as [raw|] eqn:Hread; [|done]. destruct (checkListenToken (trimOneNewline raw)) eqn:Ht; [done|].
  destruct (List.find _ _) as [ [o t]|] eqn:Hf; [done|]. intros Hload. eapply (IH _ (dn ++ [entry])) in Hload; [by rewrite <- app_assoc in Hload|]. clear IH Hload.
  destruct Hl as [L1 L2 L3 L4].
  set (tok := trimOneNewline raw) in *. assert (Hent : entry_token entry name tok) by (by exists path, raw).
  assert (Hfresh : ∀ m t, lt_byName out !! m = Some t → t ≠ tok).
  { intros m t Hm ->. apply elem_of_map_to_list, list_elem_of_In in Hm. pose proof (List.find_none _ _ Hf _ Hm) as Hx. cbn in Hx. by rewrite String.eqb_refl in Hx. }
  split; cbn.
  - rewrite map_to_list_insert by done. cbn. rewrite L1. by rewrite Permutation_app_comm.
  - intros m t [ [<- <-]|[_ Hm] ]%lookup_insert_Some; [split; [done|]; exists entry; split; [set_solver|done]|].
    destruct (L2 m t Hm) as (? & e & ? & ?). split; [done|]. exists e. split; [set_solver|done].
  - intros n1 m t [ [<- <-]|[_ H1] ]%lookup_insert_Some [ [<- E]|[_ H2] ]%lookup_insert_Some; [done|by destruct (Hfresh _ _ H2)|subst; by destruct (Hfresh _ _ H1)|by eapply L3].
  - intros e [Hin| ->%list_elem_of_singleton]%elem_of_app.
    + destruct (L4 e Hin) as (m & t & Hm & Het). exists m, t. split; [|done]. rewrite lookup_insert_ne; [done|]. intros ->. congruence.
    + exists name, tok. by rewrite lookup_insert_eq.
Qed.
End Load.

Lemma principal_byte_rune c : principal_byte c = true → bz c < 128 ∧ principal_rune (bz c) = true.
Proof. destruct c as [ [] [] [] [] [] [] [] []]; vm_compute; done. Qed.

(** A name the command accepts is one the handler accepts. *)
Lemma principal_name_valid `{Unicode} name : principal_name_ok name = true → validPrincipalName name = None.
Proof.
  unfold principal_name_ok, validPrincipalName. intros [Hl%negb_true_iff Hb]%andb_true_iff. rewrite Hl.
  assert (forallb (λ p : Z * string, principal_rune p.1) (runes name) = true) as ->; [|done]. clear Hl.
  induction name as [|c s IH]; [done|]. cbn in Hb. apply andb_true_iff in Hb as [ [Hc Hr]%principal_byte_rune Hs].
  rewrite runes_cons_ascii by done. cbn. rewrite Hr. by apply IH.
Qed.

Lemma good_token_ok `{Unicode} name tok : good_token name tok → token_ok (name, tok).
Proof.
  intros [Hn Ht]. split; [by apply principal_name_valid|]. unfold checkListenToken in Ht. cbn. change minTokenBytes with minListenTokenBytes.
  destruct (Z.ltb_spec (slen tok) minListenTokenBytes); [done|]. split; [done|]. by destruct (s_all token_byte tok).
Qed.

(** The handler's check passes on valid tokens with digests of their own. *)
Lemma check_tokens_pass `{Unicode} tokens : ∀ seen, Forall token_ok tokens → NoDup (map te_digest seen ++ map (λ kv, sha256 kv.2) tokens) →
  ∃ out, check_tokens seen tokens = Ok out.
Proof.
  induction tokens as [|[name tok] tokens IH]; intros seen Hall Hnd; cbn [check_tokens]; [by eexists|].
  apply Forall_cons in Hall as [(H1 & H2 & H3) Hall]. cbn in H1, H2, H3. rewrite H1, H3. destruct (Z.ltb_spec (slen tok) minTokenBytes); [lia|]. cbn [negb].
  destruct (List.find _ seen) as [o|] eqn:Hf.
  - apply List.find_some in Hf as [Hin Hd%String.eqb_eq]. apply NoDup_app in Hnd as (_ & Hd' & _). destruct (Hd' (te_digest o)).
    + apply list_elem_of_fmap. exists o. split; [done|]. by apply list_elem_of_In.
    + rewrite Hd. by left.
  - apply IH; [done|]. rewrite map_app, <- app_assoc. done.
Qed.

Lemma principal_no_equals name : principal_name_ok name = true → contains_b "=" name = false.
Proof.
  intros [_ Hb]%andb_true_iff. apply contains_b_all. revert Hb. apply s_all_impl. intros c. destruct (Ascii.eqb_spec "=" c) as [<-|]; [vm_compute; done|done].
Qed.

Lemma entry_token_fun read e n a m b : contains_b "=" n = false → contains_b "=" m = false → entry_token read e n a → entry_token read e m b → n = m ∧ a = b.
Proof.
  intros Hn Hm (p & r & -> & _ & Hp & ->) (q & r' & E & _ & Hq & ->). apply (f_equal (cut_b "=")) in E. rewrite !cut_b_first in E by done.
  injection E as -> ->. rewrite Hp in Hq. by injection Hq as ->.
Qed.

Lemma loaded_none read : loaded read [] no_tokens.
Proof. split; cbn; try done. by intros e ?%not_elem_of_nil. Qed.

(** the tokens serve loads are the ones the listener then accepts.  When
    loading succeeds, either the environment gave the one token of principal
    "env" and no file was named, or the environment gave none and every file
    named gives, less one newline, the token of its principal, and no other
    token exists; the names are sorted and distinct; every token is at least 32
    printable bytes, no two the same; and, unless SHA-256 collides on them, the
    handler accepts them in whatever order it visits them, as the same
    principals. *)
Theorem listen_tokens_accepted `{Unicode} read lookup files t :
  loadListenTokens read lookup files = Ok t →
  Sorted str_le (lt_names t) ∧ lt_names t ≡ₚ map fst (map_to_list (lt_byName t)) ∧ lt_names t ≠ [] ∧
  (∀ name tok, lt_byName t !! name = Some tok ↔
     (files = [] ∧ name = envPrincipal ∧ lookup listenTokenEnv = Some tok) ∨
     (lookup listenTokenEnv = None ∧ ∃ e, e ∈ files ∧ contains_b "=" name = false ∧ entry_token read e name tok)) ∧
  (∀ n m tok, lt_byName t !! n = Some tok → lt_byName t !! m = Some tok → n = m) ∧
  ∀ tokens, tokens ≡ₚ map_to_list (lt_byName t) → Forall token_ok tokens ∧
    ((∀ n m a b, lt_byName t !! n = Some a → lt_byName t !! m = Some b → sha256 a = sha256 b → a = b) →
     ∃ entries, checkTokens tokens = Ok entries ∧ map te_name entries ≡ₚ lt_names t).
Proof.
  intros Hload.
  assert (Hcommon : Sorted str_le (lt_names t) ∧ lt_names t ≡ₚ map fst (map_to_list (lt_byName t)) ∧ lt_names t ≠ [] ∧
    (∀ name tok, lt_byName t !! name = Some tok → good_token name tok) ∧
    (∀ name tok, lt_byName t !! name = Some tok ↔
     (files = [] ∧ name = envPrincipal ∧ lookup listenTokenEnv = Some tok) ∨
     (lookup listenTokenEnv = None ∧ ∃ e, e ∈ files ∧ contains_b "=" name = false ∧ entry_token read e name tok)) ∧
    (∀ n m tok, lt_byName t !! n = Some tok → lt_byName t !! m = Some tok → n = m)).
  { unfold loadListenTokens in Hload. destruct (lookup listenTokenEnv) as [tok|] eqn:He.
    - destruct files; [|done]. destruct (String.eqb_spec tok "") as [|Hne]; [done|]. destruct (checkListenToken tok) eqn:Ht; [done|]. injection Hload as <-. cbn [lt_names lt_byName].
      split_and!; [by repeat constructor|by rewrite map_to_list_singleton|done|..].
      + intros n a [<- <-]%lookup_singleton_Some. by split.
      + intros n a. rewrite lookup_singleton_Some. naive_solver.
      + by intros n m a [<- _]%lookup_singleton_Some [<- _]%lookup_singleton_Some.
    - destruct files as [|f0 files0]; [done|]. set (fs := f0 :: files0) in *. destruct (load_token_files _ _ _ _) as [out|] eqn:Hf; [|done]. injection Hload as <-. cbn [lt_names lt_byName].
      apply (load_token_files_ok _ lookup _ _ _ _ _ (loaded_none read)) in Hf. destruct Hf as [L1 L2 L3 L4]. cbn [app] in L2, L4. split_and!.
      + apply sort_strings_sorted.
      + by rewrite sort_strings_perm.
      + rewrite sort_strings_nil. intros E. rewrite E in L1. apply Permutation_nil_l in L1. destruct (L4 f0 ltac:(left)) as (n & a & Hn & _).
        apply elem_of_map_to_list in Hn. symmetry in L1. apply map_eq_nil in L1. rewrite L1 in Hn. by apply not_elem_of_nil in Hn.
      + intros n a Hn. by apply L2.
      + intros n a. split.
        * intros Hn. right. split; [done|]. destruct (L2 n a Hn) as [ [Hok _] (e & Hin & He')]. exists e. split_and!; [done|by apply principal_no_equals|done].
        * intros [(? & _)|(_ & e & Hin & Hno & He')]; [done|]. destruct (L4 e Hin) as (n' & a' & Hn & He2).
          destruct (L2 n' a' Hn) as [ [Hok _] _]. destruct (entry_token_fun read e n a n' a' Hno (principal_no_equals _ Hok) He' He2) as [-> ->]. done.
      + done. }
  destruct Hcommon as (H1 & H2 & H3 & H4 & H5 & H6). split_and!; [done..|]. intros tokens Hp.
  assert (Hall : Forall token_ok tokens).
  { apply Forall_forall. intros [n a] Hin. rewrite Hp in Hin. apply elem_of_map_to_list in Hin. by apply good_token_ok, H4. }
  split; [done|]. intros Hcol.
  assert (Hnd : NoDup (map (λ kv : string * string, sha256 kv.2) tokens)).
  { rewrite (Permutation_map _ Hp). apply NoDup_fmap_2_strong; [|apply NoDup_map_to_list].
    intros [n a] [m b] Hn%elem_of_map_to_list Hm%elem_of_map_to_list Hab. cbn in Hab. pose proof (Hcol n m a b Hn Hm Hab) as ->. f_equal. by eapply H6. }
  destruct (check_tokens_pass tokens [] Hall Hnd) as [out Hout]. unfold checkTokens.
  destruct tokens as [|kv tokens]; [apply Permutation_nil_l in Hp; rewrite <- Hp in H2; cbn in H2; by apply Permutation_nil_r in H2|].
  rewrite Hout. eexists. split; [done|]. destruct (check_tokens_ok _ _ _ Hout) as (-> & _ & _); [constructor|]. cbn [app].
  rewrite (Permutation_map te_name (merge_sort_Permutation entry_le _)). rewrite map_map. rewrite H2, <- Hp. done.
Qed.

Definition sample_read (path : string) : result string string :=
  if String.eqb path "a.tok" then Ok ("0123456789abcdef0123456789abcdef" ++ crlf)%string
  else if String.eqb path "b.tok" then Ok ("fedcba9876543210fedcba9876543210" ++ newline)%string
  else Err "no such file".

Definition no_env (_ : string) : option string := None.

Definition sample_loaded : listenTokens :=
  match loadListenTokens sample_read no_env ["ops=b.tok"; "agent=a.tok"] with Ok t => t | Err _ => no_tokens end.

Lemma listen_tokens_accepted_witness :
  lt_names sample_loaded = ["agent"; "ops"] ∧ Forall (@token_ok ascii_tables) (map_to_list (lt_byName sample_loaded)).
Proof.
  assert (Hl : loadListenTokens sample_read no_env ["ops=b.tok"; "agent=a.tok"] = Ok sample_loaded) by (vm_compute; reflexivity).
  split; [vm_compute; reflexivity|].
  destruct (@listen_tokens_accepted ascii_tables sample_read no_env ["ops=b.tok"; "agent=a.tok"] sample_loaded Hl) as (_ & _ & _ & _ & _ & H).
  exact (proj1 (H _ (reflexivity _))).
Defined.

Example ex_load_errors : map (λ files, match loadListenTokens sample_read no_env files with Err e => e | Ok _ => "" end)
  [[]; ["x"]; ["bad name=a.tok"]; ["a=a.tok"; "a=b.tok"]; ["a=a.tok"; "b=a.tok"]; ["a=c.tok"] ] =
  ["--listen needs a bearer token: --listen-token-file NAME=PATH (repeatable) or FATHOMGATE_LISTEN_TOKEN";
   "--listen-token-file argument 1 is not NAME=PATH";
   "--listen-token-file argument 1: the name must be 1 to 64 characters of [A-Za-z0-9_.:-]";
   "--listen-token-file a is given twice; each principal has one token";
   "--listen-token-file a and b have the same token; give each principal its own";
   "--listen-token-file a: no such file"].
Proof. vm_compute. reflexivity. Qed.
