(* ===== verification/ChildEnv.v ===== *)
(** * The environment of an upstream process: internal/proxy/command.go

    What a spawned upstream inherits: the allow-listed variables of the proxy's
    own environment, then the secrets passed to it, then the configured
    entries.  Starting the process is the operating system's. *)

From S2P Require Import Prelude GoStd Scrub.

Open Scope string_scope.
Open Scope Z_scope.
Open Scope list_scope.

Definition unixEnvAllow : list string :=
  ["PATH"; "HOME"; "USER"; "LANG"; "TMPDIR"; "LC_ALL"; "LC_COLLATE"; "LC_CTYPE"; "LC_MESSAGES"; "LC_MONETARY"; "LC_NUMERIC"; "LC_TIME"].
Definition windowsEnvAllow : list string :=
  ["PATH"; "SystemRoot"; "SystemDrive"; "TEMP"; "TMP"; "USERPROFILE"; "APPDATA"; "LOCALAPPDATA"; "PATHEXT"; "COMSPEC"].

(** The loop of [asciiEqualFold], on strings of one length. *)
Fixpoint equal_fold_bytes (a b : string) : bool :=
  match a, b with
  | String x a, String y b => Ascii.eqb (lower_b x) (lower_b y) && equal_fold_bytes a b
  | _, _ => true
  end.

Definition asciiEqualFold (a b : string) : bool :=
  if negb (String.length a =? String.length b)%nat then false else equal_fold_bytes a b.

Definition windows : string := "windows".

Definition envAllowed (k goos : string) : bool :=
  if String.eqb goos windows then existsb (asciiEqualFold k) windowsEnvAllow else mem k unixEnvAllow.

(** An entry is kept when it has a name that is allowed. *)
Definition keep_entry (goos kv : string) : bool :=
  match cut_b "=" kv with
  | Some (k, _) => negb (String.eqb k "") && envAllowed k goos
  | None => false
  end.

Definition baseEnv (environ : list string) (goos : string) : list string := List.filter (keep_entry goos) environ.

(** [Command]: what of it the environment takes. *)
Record Command := { cmd_Path : string; cmd_Args : list string; cmd_Env : list string; cmd_Secrets : list Secret }.

Definition secret_entry (s : Secret) : string := (Secret_Name s ++ "=" ++ Secret_val s)%string.

(** [Transport]: the child's environment. *)
Definition Transport (c : Command) (environ : list string) (goos : string) : list string :=
  baseEnv environ goos ++ map secret_entry (cmd_Secrets c) ++ cmd_Env c.

(** ** Lemmas *)

Lemma equal_fold_map a b : asciiEqualFold a b = true ↔ s_map lower_b a = s_map lower_b b.
Proof.
  unfold asciiEqualFold. revert b. induction a as [|x a IH]; intros [|y b]; cbn; try done. specialize (IH b).
  destruct (Nat.eqb_spec (String.length a) (String.length b)) as [Hl|Hl]; cbn in *.
  - rewrite andb_true_iff, Ascii.eqb_eq, IH. split; [by intros [-> ->]|by intros [= -> ->] ].
  - split; [done|]. intros [= _ E]. destruct Hl. by rewrite <- (s_map_length lower_b a), E, s_map_length.
Qed.

Lemma baseEnv_entry environ goos kv : kv ∈ baseEnv environ goos ↔
  kv ∈ environ ∧ ∃ k v, kv = (k ++ String "=" v)%string ∧ contains_b "=" k = false ∧ k ≠ "" ∧ envAllowed k goos = true.
Proof.
  unfold baseEnv. rewrite list_elem_of_In, filter_In, <- list_elem_of_In. unfold keep_entry. pose proof (cut_b_spec "=" kv) as Hc.
  destruct (cut_b "=" kv) as [ [k v]|].
  - destruct Hc as [-> Hk]. rewrite andb_true_iff, negb_true_iff, String.eqb_neq. split.
    + intros (Hin & Hne & Ha). split; [done|]. by exists k, v.
    + intros (Hin & k' & v' & E & Hk' & Hne & Ha). split; [done|]. apply (f_equal (cut_b "=")) in E. rewrite !cut_b_first in E by done. by injection E as -> ->.
  - split; [by intros [_ ?]|]. intros (_ & k & v & -> & Hk & _).
    assert (contains_b "=" (k ++ String "=" v) = true) as E; [|rewrite E in Hc; done].
    clear. induction k as [|c k IH]; cbn [append contains_b]; [by rewrite Ascii.eqb_refl|]. by rewrite IH, orb_true_r.
Qed.
