(* ===== verification/Flags.v ===== *)
(** * Command-line flags: package flag as cmd/fathomgate uses it, and the
    command's own errors about it

    flag.FlagSet.Parse with the kinds of value serve declares, and
    parseFlagError, which walks the arguments again to name the one at fault by
    its position.  Theorem: it names the argument the flag package stopped
    at. *)

From S2P Require Import Prelude GoStd.

Open Scope string_scope.
Open Scope Z_scope.
Open Scope list_scope.

(** The exit codes of the command, cmd/fathomgate/main.go. *)
Definition exitOK : Z := 0.
Definition exitFail : Z := 1.
Definition exitUsage : Z := 2.
Definition exitHold : Z := 3.

(** How a flag takes its value: fs.StringVar and fs.String, a stringList, a
    onceFlag, fs.BoolVar and fs.Bool. *)
Inductive flag_kind := KString | KList | KOnce | KBool.

#[export] Instance flag_kind_eq_dec : EqDecision flag_kind.
Proof. solve_decision. Defined.

(** The values set, the onceFlags given again, and the flags seen. *)
Record flags := { fl_strings : gmap string string; fl_lists : gmap string (list string); fl_bools : gmap string bool;
  fl_repeated : gset string; fl_actual : gset string }.

Definition no_flags : flags := {| fl_strings := ∅; fl_lists := ∅; fl_bools := ∅; fl_repeated := ∅; fl_actual := ∅ |}.

Definition flag_string (st : flags) (name : string) : string := default "" (fl_strings st !! name).
Definition flag_list (st : flags) (name : string) : list string := default [] (fl_lists st !! name).
Definition flag_bool (st : flags) (name : string) : bool := default false (fl_bools st !! name).

(** strconv.ParseBool. *)
Definition parse_bool (s : string) : option bool :=
  if mem s ["1"; "t"; "T"; "TRUE"; "true"; "True"] then Some true
  else if mem s ["0"; "f"; "F"; "FALSE"; "false"; "False"] then Some false
  else None.

Definition set_string (st : flags) (name value : string) : flags :=
  {| fl_strings := <[name := value]> (fl_strings st); fl_lists := fl_lists st; fl_bools := fl_bools st;
     fl_repeated := fl_repeated st; fl_actual := fl_actual st |}.

(** [stringList.Set]. *)
Definition stringList_Set (st : flags) (name value : string) : flags :=
  {| fl_strings := fl_strings st; fl_lists := <[name := flag_list st name ++ [value] ]> (fl_lists st); fl_bools := fl_bools st;
     fl_repeated := fl_repeated st; fl_actual := fl_actual st |}.

(** [onceFlag.Set]; false is its error. *)
Definition onceFlag_Set (st : flags) (name value : string) : flags * bool :=
  if negb (String.eqb (flag_string st name) "")
  then ({| fl_strings := fl_strings st; fl_lists := fl_lists st; fl_bools := fl_bools st;
           fl_repeated := {[ name ]} ∪ fl_repeated st; fl_actual := fl_actual st |}, false)
  else (set_string st name value, true).

Definition set_value (st : flags) (kind : flag_kind) (name value : string) : flags * bool :=
  match kind with
  | KString => (set_string st name value, true)
  | KList => (stringList_Set st name value, true)
  | KOnce => onceFlag_Set st name value
  | KBool =>
      match parse_bool value with
      | Some b => ({| fl_strings := fl_strings st; fl_lists := fl_lists st; fl_bools := <[name := b]> (fl_bools st);
                      fl_repeated := fl_repeated st; fl_actual := fl_actual st |}, true)
      | None => (st, false)
      end
  end.

Definition seen (st : flags) (name : string) : flags :=
  {| fl_strings := fl_strings st; fl_lists := fl_lists st; fl_bools := fl_bools st; fl_repeated := fl_repeated st;
     fl_actual := {[ name ]} ∪ fl_actual st |}.

(** Why the flag package stops. *)
Inductive flag_error := HelpAsked | BadSyntax | NotDefined | BadBool | NeedsArgument | InvalidValue.

#[export] Instance flag_error_eq_dec : EqDecision flag_error.
Proof. solve_decision. Defined.

(** The flags and what is left of the arguments with how many were used; or
    the error, the number of the argument it is about, from 0, and the flags
    so far. *)
Inductive parsed := Parsed (st : flags) (rest : list string) (consumed : nat) | ParseFailed (e : flag_error) (at_arg : nat) (st : flags).

Definition dash : ascii := "-"%char.
Definition equals : ascii := "="%char.

(** The name and the value of "name=value": the first '=' past the first byte. *)
Definition cut_value (name : string) : string * option string :=
  match name with
  | EmptyString => (name, None)
  | String c rest => match cut_b equals rest with Some (n, v) => (String c n, Some v) | None => (name, None) end
  end.

(** An argument, as the flag package reads it: not a flag, the terminator, bad
    syntax, or a flag with its value. *)
Inductive argument_form := NotFlag | Terminator | Malformed | FlagArg (name : string) (value : option string).

Definition read_argument (a : string) : argument_form :=
  match a with
  | String c1 (String c2 r) =>
      if negb (Ascii.eqb c1 dash) then NotFlag
      else if Ascii.eqb c2 dash && String.eqb r "" then Terminator
      else
        let name := if Ascii.eqb c2 dash then r else String c2 r in
        match name with
        | String c _ => if Ascii.eqb c dash || Ascii.eqb c equals then Malformed else let '(n, v) := cut_value name in FlagArg n v
        | EmptyString => Malformed
        end
  | _ => NotFlag
  end.

Section Parse.
(** The flags declared. *)
Context (formal : string → option flag_kind).

(** [FlagSet.Parse] from argument number [i] on. *)
Fixpoint Parse (i : nat) (st : flags) (args : list string) : parsed :=
  match args with
  | [] => Parsed st [] i
  | a :: rest =>
      match read_argument a with
      | NotFlag => Parsed st args i
      | Terminator => Parsed st rest (S i)
      | Malformed => ParseFailed BadSyntax i st
      | FlagArg name value =>
          match formal name with
          | None => ParseFailed (if String.eqb name "help" || String.eqb name "h" then HelpAsked else NotDefined) i st
          | Some KBool =>
              match set_value st KBool name (default "true" value) with
              | (st, true) => Parse (S i) (seen st name) rest
              | (st, false) => ParseFailed BadBool i st
              end
          | Some kind =>
              match value with
              | Some v =>
                  match set_value st kind name v with
                  | (st, true) => Parse (S i) (seen st name) rest
                  | (st, false) => ParseFailed InvalidValue i st
                  end
              | None =>
                  match rest with
                  | [] => ParseFailed NeedsArgument i st
                  | v :: rest =>
                      match set_value st kind name v with
                      | (st, true) => Parse (S (S i)) (seen st name) rest
                      | (st, false) => ParseFailed InvalidValue i st
                      end
                  end
              end
          end
      end
  end.

(** strings.TrimPrefix of a dash, twice. *)
Definition trim_dashes (a : string) : string := trim_prefix (trim_prefix a "-") "-".

Definition run_help : string := "; run fathomgate serve -h for the flags".

Definition at_argument (what : string) (i : nat) (more : string) : string := (what ++ " at argument " ++ itoa (Z.of_nat i + 1) ++ more)%string.

(** [parseFlagError] from argument number [i] on. *)
Fixpoint parseFlagError (i : nat) (args : list string) : string :=
  let invalid := ("invalid flags" ++ run_help)%string in
  match args with
  | [] => invalid
  | a :: rest =>
      if String.eqb a "--" || (slen a <? 2) || negb (has_prefix a "-") then invalid
      else
        let t := trim_dashes a in
        let '(name, hasValue) := match cut_b equals t with Some (n, _) => (n, true) | None => (t, false) end in
        if String.eqb name "" || has_prefix name "-" || has_prefix name "=" then at_argument "bad flag syntax" i run_help
        else match formal name with
        | None => at_argument "unknown flag" i run_help
        | Some KBool => if hasValue then at_argument "flag" i " takes no value" else parseFlagError (S i) rest
        | Some _ =>
            if hasValue then parseFlagError (S i) rest
            else match rest with
            | [] => at_argument "flag" i " needs a value"
            | _ :: rest => parseFlagError (S (S i)) rest
            end
        end
  end.
End Parse.

(** [parseInterspersed]: [None] is out of fuel; each round uses an argument. *)
Fixpoint parseInterspersed (formal : string → option flag_kind) (fuel : nat) (st : flags) (args positional : list string) :
    option (result flag_error (flags * list string)) :=
  match fuel with
  | O => None
  | S fuel =>
      match Parse formal 0 st args with
      | ParseFailed e _ _ => Some (Err e)
      | Parsed st [] _ => Some (Ok (st, positional))
      | Parsed st (a :: rest) _ => parseInterspersed formal fuel st rest (positional ++ [a])
      end
  end.

(** [flagName]: the name in "-name", "--name" or "--name=value". *)
Definition flagName (a : string) : option string :=
  if (slen a <? 2) || negb (has_prefix a "-") then None
  else
    let t := trim_dashes a in
    let name := match cut_b equals t with Some (n, _) => n | None => t end in
    if String.eqb name "" then None else Some name.

(** ** The argument at fault *)

Lemma slen_lt2 a : (slen a <? 2) = match a with String _ (String _ _) => false | _ => true end.
Proof. destruct a as [|c1 [|c2 r] ]; cbn; [done|done|]. unfold slen. cbn. apply Z.ltb_ge. lia. Qed.

Lemma trim_dashes_spec c r : trim_dashes (String dash (String c r)) = if Ascii.eqb c dash then r else String c r.
Proof.
  unfold trim_dashes. rewrite (trim_prefix_app "-" (String c r) : trim_prefix (String dash (String c r)) "-" = String c r).
  destruct (Ascii.eqb_spec c dash) as [->|Hc]; [apply (trim_prefix_app "-" r)|]. unfold trim_prefix. cbn [cut_prefix]. by rewrite (proj2 (Ascii.eqb_neq "-" c)) by (intros <-; done).
Qed.

Lemma has_prefix_byte c d r : has_prefix (String c r) (String d EmptyString) = Ascii.eqb c d.
Proof. unfold has_prefix. cbn [cut_prefix]. rewrite Ascii.eqb_sym. by destruct (Ascii.eqb c d). Qed.

(** What follows the dashes. *)
Definition read_name (name : string) : argument_form :=
  match name with
  | String c _ => if Ascii.eqb c dash || Ascii.eqb c equals then Malformed else let '(n, v) := cut_value name in FlagArg n v
  | EmptyString => Malformed
  end.

Lemma read_name_again t :
  let '(name, hasValue) := match cut_b equals t with Some (n, _) => (n, true) | None => (t, false) end in
  match read_name t with
  | FlagArg n v => name = n ∧ hasValue = bool_decide (is_Some v) ∧ String.eqb n "" || has_prefix n "-" || has_prefix n "=" = false
  | Malformed => String.eqb name "" || has_prefix name "-" || has_prefix name "=" = true
  | _ => False
  end.
Proof.
  destruct t as [|c r]; [done|]. unfold read_name. cbn [cut_value cut_b]. destruct (Ascii.eqb_spec c equals) as [->|He].
  { rewrite orb_true_r. done. }
  destruct (Ascii.eqb_spec c dash) as [->|Hd]; cbn [orb].
  { destruct (cut_b equals r) as [ [n v]|]; by rewrite has_prefix_byte. }
  destruct (cut_b equals r) as [ [n v]|]; (split; [done|]; split; [done|]; rewrite !has_prefix_byte; cbn);
    by rewrite (proj2 (Ascii.eqb_neq c "-") Hd), (proj2 (Ascii.eqb_neq c "=") He).
Qed.

(** The second walk reads an argument as the flag package does. *)
Lemma read_argument_cases a :
  (read_argument a = NotFlag ∧ (slen a <? 2) || negb (has_prefix a "-") = true) ∨
  (read_argument a = Terminator ∧ a = "--") ∨
  (read_argument a = read_name (trim_dashes a) ∧ String.eqb a "--" || (slen a <? 2) || negb (has_prefix a "-") = false).
Proof.
  rewrite slen_lt2. unfold read_argument. destruct a as [|c1 [|c2 r] ]; [by left..|]. rewrite has_prefix_byte.
  destruct (Ascii.eqb_spec c1 dash) as [->|Hd]; cbn [negb].
  2:{ left. split; [done|]. by rewrite (proj2 (Ascii.eqb_neq c1 "-") Hd). }
  right. rewrite trim_dashes_spec. destruct (Ascii.eqb_spec c2 dash) as [->|Hd2]; cbn [andb].
  - destruct (String.eqb_spec r "") as [->|Hr]; [by left|]. right. split; [done|]. destruct r; [done|]. done.
  - right. split; [done|]. destruct (String.eqb_spec (String dash (String c2 r)) "--") as [E|]; [|done]. injection E as -> _. done.
Qed.

(** The first boolean flag given a value, as far as the walks go. *)
Fixpoint first_bool_value (formal : string → option flag_kind) (i : nat) (args : list string) : option nat :=
  match args with
  | [] => None
  | a :: rest =>
      match read_argument a with
      | FlagArg name value =>
          match formal name with
          | None => None
          | Some KBool => match value with Some _ => Some i | None => first_bool_value formal (S i) rest end
          | Some _ =>
              match value with
              | Some _ => first_bool_value formal (S i) rest
              | None => match rest with [] => None | _ :: rest => first_bool_value formal (S (S i)) rest end
              end
          end
      | _ => None
      end
  end.

(** What parseFlagError says of an error of the flag package. *)
Definition fault (e : flag_error) (n : nat) : string :=
  match e with
  | BadSyntax => at_argument "bad flag syntax" n run_help
  | NotDefined => at_argument "unknown flag" n run_help
  | BadBool => at_argument "flag" n " takes no value"
  | NeedsArgument => at_argument "flag" n " needs a value"
  | HelpAsked | InvalidValue => ""
  end.

Lemma parse_ge formal : ∀ args i m, first_bool_value formal i args = Some m → (i ≤ m)%nat.
Proof.
  fix IH 1. intros [|a rest] i m; cbn [first_bool_value]; [done|]. destruct (read_argument a) as [| | |name value]; try done.
  destruct (formal name) as [k|]; [|done]. destruct k; [..|destruct value; [by intros [= <-]|intros Hm%IH; lia] ].
  all: destruct value; [intros Hm%IH; lia|]; destruct rest as [|v rest]; [done|intros Hm%IH; lia].
Qed.

(** serve names the argument the flag package stopped at, by its position
    only.  When parsing stops with an error that is not a request for help or
    a refused value, the text is the error's kind and the number of the
    argument it is about, except that a boolean flag written with a value
    before it, which the flag package takes, is reported in its place. *)
Theorem flag_error_position formal args e n st :
  Parse formal 0 no_flags args = ParseFailed e n st → e ≠ HelpAsked → e ≠ InvalidValue →
  (n < List.length args)%nat ∧
  match first_bool_value formal 0 args with
  | Some m => (m ≤ n)%nat ∧ parseFlagError formal 0 args = fault BadBool m
  | None => e ≠ BadBool ∧ parseFlagError formal 0 args = fault e n
  end.
Proof.
  intros Hp He1 He2.
  assert (Hgen : ∀ args i s, Parse formal i s args = ParseFailed e n st →
    (i ≤ n < i + List.length args)%nat ∧
    match first_bool_value formal i args with
    | Some m => (m ≤ n)%nat ∧ parseFlagError formal i args = fault BadBool m
    | None => e ≠ BadBool ∧ parseFlagError formal i args = fault e n
    end); [|destruct (Hgen args 0%nat no_flags Hp) as [ [_ Hlt] Hm]; by split].
  clear Hp args. intros args. remember (List.length args) as k0 eqn:Hlen0. assert (Hlen : (List.length args ≤ k0)%nat) by lia. rewrite Hlen0. clear Hlen0.
  revert args Hlen. induction k0 as [|k0 IH]; intros [|a rest] Hlen i s; cbn in Hlen; cbn [Parse first_bool_value parseFlagError]; [done|lia|done|].
  pose proof (read_name_again (trim_dashes a)) as Hr.
  destruct (read_argument_cases a) as [ [-> _]|[ [-> _]|[Ea ->] ] ]; [done..|]. rewrite <- Ea in Hr.
  destruct (match cut_b equals (trim_dashes a) with Some (n0, _) => (n0, true) | None => (trim_dashes a, false) end) as [name0 hv].
  destruct (read_argument a) as [| | |name value]; [done|done| |].
  { rewrite Hr. intros [= <- <- <-]. split; [cbn; lia|done]. }
  destruct Hr as (-> & -> & ->). destruct (formal name) as [k|] eqn:Hk.
  2:{ destruct (String.eqb name "help" || String.eqb name "h"); intros [= <- <- <-]; [by destruct He1|]. split; [cbn; lia|done]. }
  destruct (decide (k = KBool)) as [->|Hnb].
  - destruct (set_value s KBool name (default "true" value)) as [s' [|] ] eqn:Es.
    + destruct value as [v|]; cbn.
      * intros Hp. destruct (IH rest ltac:(cbn in *; lia) _ _ Hp) as [Hn _]. split; [cbn; lia|]. split; [lia|done].
      * intros Hp. destruct (IH rest ltac:(cbn in *; lia) _ _ Hp) as [Hn Hrest]. split; [cbn; lia|]. done.
    + intros [= <- <- <-]. destruct value as [v|]; [split; [cbn; lia|done]|]. by vm_compute in Es.
  - assert (Hfail : ∀ v s', set_value s k name v = (s', false) → ParseFailed InvalidValue i s' ≠ ParseFailed e n st).
    { intros v s' _ [= <- _ _]. done. }
    destruct value as [v|]; cbn [bool_decide decide].
    + destruct k; try done; (destruct (set_value s _ name v) as [s' [|] ] eqn:Es; [|by intros ?%(Hfail v s' Es)]);
        intros Hp; destruct (IH rest ltac:(cbn in *; lia) _ _ Hp) as [Hn Hrest]; (split; [cbn; lia|done]).
    + destruct rest as [|v rest].
      * destruct k; try done; intros [= <- <- <-]; (split; [cbn; lia|done]).
      * destruct k; try done; (destruct (set_value s _ name v) as [s' [|] ] eqn:Es; [|by intros ?%(Hfail v s' Es)]);
          intros Hp; destruct (IH rest ltac:(cbn in *; lia) _ _ Hp) as [Hn Hrest]; (split; [cbn in *; lia|done]).
Qed.

Definition sample_formal (name : string) : option flag_kind :=
  if String.eqb name "policy" then Some KOnce else if String.eqb name "no-policy" then Some KBool else None.

Lemma flag_error_position_witness :
  parseFlagError sample_formal 0 ["--policy"; "p.yaml"; "-hunter2"] = "unknown flag at argument 3; run fathomgate serve -h for the flags".
Proof.
  assert (Hp : Parse sample_formal 0 no_flags ["--policy"; "p.yaml"; "-hunter2"] =
    ParseFailed NotDefined 2 (match Parse sample_formal 0 no_flags ["--policy"; "p.yaml"] with Parsed st _ _ => st | ParseFailed _ _ st => st end)) by reflexivity.
  pose proof (flag_error_position sample_formal _ _ _ _ Hp ltac:(discriminate) ltac:(discriminate)) as H.
  exact (proj2 (proj2 H)).
Defined.

(** The flag package takes --no-policy=true and stops at the next argument; the
    text blames the first. *)
Lemma bool_value_blamed :
  (∃ st, Parse sample_formal 0 no_flags ["--no-policy=true"; "--bogus"] = ParseFailed NotDefined 1 st) ∧
  parseFlagError sample_formal 0 ["--no-policy=true"; "--bogus"] = "flag at argument 1 takes no value".
Proof. split; [by eexists|reflexivity]. Qed.

(** One round of parseInterspersed uses at least the argument it sets aside. *)
Lemma Parse_rest formal : ∀ args i st st' rest n, Parse formal i st args = Parsed st' rest n → (List.length rest ≤ List.length args)%nat.
Proof.
  intros args. remember (List.length args) as k eqn:Hk0. assert (Hk : (List.length args ≤ k)%nat) by lia. rewrite Hk0. clear Hk0. revert args Hk.
  induction k as [|k IH]; intros [|a args] Hk i st st' rest n; cbn in Hk; cbn [Parse]; try (intros [= _ <- _]; done); [lia|].
  destruct (read_argument a) as [| | |name value]; [by intros [= _ <- _]|intros [= _ <- _]; cbn; lia|done|].
  destruct (formal name) as [ []|]; [..|done]; destruct value; cbn [default]; repeat case_match; try done; intros Hp%IH; cbn in *; lia.
Qed.

(** parseInterspersed always ends: one round more than there are arguments is
    enough fuel, whatever they are. *)
Lemma parseInterspersed_total formal fuel : ∀ st args pos, (List.length args < fuel)%nat →
  is_Some (parseInterspersed formal fuel st args pos).
Proof.
  induction fuel as [|fuel IH]; intros st args pos Hf; [lia|]. cbn [parseInterspersed]. destruct (Parse formal 0 st args) as [st' rest n|e n st'] eqn:Hp; [|by eexists].
  destruct rest as [|a rest]; [by eexists|]. apply Parse_rest in Hp. apply IH. cbn in Hp. lia.
Qed.
