(* ===== verification/ServeArgs.v ===== *)
(** * The serve command line: cmd/fathomgate/serve.go and serve_policy.go

    [parseServe]: every rule a serve command line has to pass before anything
    is bound or spawned.  The command's environment and the reading of token
    files are parameters.  Theorems: what an accepted command line guarantees;
    the environment the upstream then gets. *)

From S2P Require Import Prelude GoStd Names Scrub Listener Bind ListenTokens ChildEnv Flags.

Open Scope string_scope.
Open Scope Z_scope.
Open Scope list_scope.

Definition upstreamReservedFlags : list string := ["policy"; "inventory"; "profiles"; "audit"].
Definition reservedListenFlags : list string := ["listen-remote"; "listen-host"].
Definition envNamePattern : string := "[A-Za-z_][A-Za-z0-9_]*".

(** [pipelineFlags]. *)
Record pipelineFlags := { pf_policy : string; pf_inventory : string; pf_profiles : string; pf_noPolicy : bool }.

(** [pipelineFlags.check]: [None] is no error. *)
Definition pipeline_check (pf : pipelineFlags) : option string :=
  let extra := (if String.eqb (pf_inventory pf) "" then [] else ["--inventory"]) ++ (if String.eqb (pf_profiles pf) "" then [] else ["--profiles"]) in
  let has_policy := negb (String.eqb (pf_policy pf) "") in
  let has_extra := (0 <? List.length extra)%nat in
  if has_policy && pf_noPolicy pf then
    Some "--policy and --no-policy cannot be used together: --policy decides every call, --no-policy forwards every call unchecked"
  else if pf_noPolicy pf && has_extra then
    Some (join " and " extra ++ ": only with --policy <file>; --no-policy forwards every call unchecked, so leave them out or use --policy <file> instead of --no-policy")%string
  else if pf_noPolicy pf then None
  else if negb has_policy && has_extra then Some (join " and " extra ++ ": only with --policy <file>")%string
  else if negb has_policy then
    Some "--policy <file> or --no-policy is required: --policy decides every call before it reaches the upstream; --no-policy forwards every call unchecked, as v0.1.0 did"
  else None.

Record serveConfig := {
  sc_server : string; sc_upstream : string; sc_upstreamArgs : list string; sc_upstreamEnv : list string; sc_passNames : list string;
  sc_secrets : list Secret; sc_listen : option listenAddr; sc_tokens : listenTokens; sc_pipeline : pipelineFlags;
}.

(** An error: the request for help, a text, or a server name's. *)
Inductive serve_error := ErrHelp | ErrText (text : string) | ErrServer (e : name_error).

(** The flags serve declares. *)
Definition serve_flag (name : string) : option flag_kind :=
  if mem name ["policy"; "inventory"; "profiles"] then Some KOnce
  else if mem name ["no-policy"; "listen-remote"] then Some KBool
  else if mem name ["server"; "upstream"; "audit"; "listen"] then Some KString
  else if mem name ["upstream-env"; "upstream-env-pass"; "listen-token-file"; "listen-host"] then Some KList
  else None.

(** ** Variable names *)

Definition name_letter (c : ascii) : bool := Ascii.eqb c "_" || is_upper_b c || is_lower_b c.

Definition validEnvName (k : string) : bool :=
  match k with
  | EmptyString => false
  | String c rest => name_letter c && s_all (λ c, name_letter c || is_digit_b c) rest
  end.

(** strings.EqualFold on Windows, on the ASCII names it is given. *)
Definition sameEnvName (a b goos : string) : bool :=
  if String.eqb goos windows then String.eqb (s_map lower_b a) (s_map lower_b b) else String.eqb a b.

Definition fathomgate_prefix : string := "FATHOMGATE_".

Definition isFathomgateEnvName (k goos : string) : bool :=
  (slen fathomgate_prefix <=? slen k) && sameEnvName (s_take (String.length fathomgate_prefix) k) fathomgate_prefix goos.

Section Serve.
Context `{Unicode} (read : string → result string string) (lookup : string → option string) (goos : string).

(** The --upstream-env entries from number [i] on: their names. *)
Fixpoint env_keys (i : Z) (env : list string) : result string (list string) :=
  match env with
  | [] => Ok []
  | kv :: env =>
      match cut_b "=" kv with
      | None => Err ("--upstream-env argument " ++ itoa i ++ " is not KEY=VALUE")%string
      | Some (k, _) =>
          if negb (validEnvName k) then Err ("--upstream-env argument " ++ itoa i ++ ": key must match " ++ envNamePattern)%string
          else if isFathomgateEnvName k goos then
            Err ("--upstream-env " ++ k ++ ": FATHOMGATE_* variables are fathomgate's own settings and are never passed to an upstream")%string
          else match env_keys (i + 1) env with Ok ks => Ok (k :: ks) | Err e => Err e end
      end
  end.

(** The --upstream-env-pass names from number [i] on, added to [names]. *)
Fixpoint pass_names (i : Z) (names : list string) (pass : list string) : result string (list string) :=
  match pass with
  | [] => Ok names
  | name :: pass =>
      if contains_b "=" name then
        Err ("--upstream-env-pass argument " ++ itoa i ++ " is not a variable name; it takes NAME only and reads the value from fathomgate's environment")%string
      else if negb (validEnvName name) then Err ("--upstream-env-pass argument " ++ itoa i ++ ": name must match " ++ envNamePattern)%string
      else if isFathomgateEnvName name goos then
        Err ("--upstream-env-pass " ++ name ++ ": FATHOMGATE_* variables are fathomgate's own settings and are never passed to an upstream")%string
      else pass_names (i + 1) (if existsb (λ n, sameEnvName n name goos) names then names else names ++ [name]) pass
  end.

(** The first name given both ways. *)
Definition both_ways (names keys : list string) : option string :=
  List.find (λ name, existsb (λ k, sameEnvName name k goos) keys) names.

Fixpoint read_secrets (names : list string) : result string (list Secret) :=
  match names with
  | [] => Ok []
  | name :: names =>
      match lookup name with
      | None => Err ("--upstream-env-pass " ++ name ++ ": not set in fathomgate's environment")%string
      | Some v =>
          if String.eqb v "" then Err ("--upstream-env-pass " ++ name ++ ": set but empty in fathomgate's environment")%string
          else match read_secrets names with Ok l => Ok (NewSecret name v :: l) | Err e => Err e end
      end
  end.

(** The reserved names among the arguments for the upstream, each once. *)
Definition add_refused (refused : list string) (a : string) : list string :=
  match flagName a with
  | Some name =>
      if mem name upstreamReservedFlags && negb (mem ("--" ++ name)%string refused) then refused ++ [("--" ++ name)%string] else refused
  | None => refused
  end.

Definition reserved_args (rest : list string) : list string := foldl add_refused [] rest.

(** fs.Visit goes through the flags in order of name. *)
Definition reserved_listen (st : flags) : list string :=
  map (λ n, ("--" ++ n)%string) (List.filter (λ n, mem n reservedListenFlags) (sort_strings (elements (fl_actual st)))).

(** The argument before the rest is the terminator. *)
Definition saw_dash_dash (args : list string) (consumed : nat) : bool :=
  match consumed with O => false | S i => match args !! i with Some a => String.eqb a "--" | None => false end end.

(** --listen and the tokens. *)
Definition listen_flags (listen : string) (files : list string) : result string (option listenAddr * listenTokens) :=
  if negb (String.eqb listen "") then
    match parseListenAddr listen with
    | Err e => Err e
    | Ok addr => match loadListenTokens read lookup files with Err e => Err e | Ok tokens => Ok (Some addr, tokens) end
    end
  else match files with
  | _ :: _ => Err "--listen-token-file is only used with --listen"
  | [] => Ok (None, no_tokens)
  end.

(** [parseServe] once the flags are parsed; [rest] is what follows. *)
Definition check_serve (args : list string) (st : flags) (rest : list string) (consumed : nat) : result serve_error serveConfig :=
  let text {A} (r : result string A) (k : A → result serve_error serveConfig) := match r with Ok x => k x | Err e => Err (ErrText e) end in
  let server := flag_string st "server" in
  let upstream := flag_string st "upstream" in
  let pf := {| pf_policy := flag_string st "policy"; pf_inventory := flag_string st "inventory"; pf_profiles := flag_string st "profiles";
               pf_noPolicy := flag_bool st "no-policy" |} in
  let refused := reserved_args rest in
  if (0 <? List.length refused)%nat then
    Err (ErrText (join ", " refused ++ " among the upstream arguments: fathomgate's own flags go before --, and a flag of that name is never passed to an upstream")%string)
  else if bool_decide ("audit" ∈ fl_actual st) then
    Err (ErrText "--audit arrives in M4 with the signed audit chain; until then serve --policy logs every decision to stderr")
  else if (0 <? List.length (reserved_listen st))%nat then
    Err (ErrText (join ", " (reserved_listen st) ++ " reserved for M2: the listener is loopback-only until remote binding with TLS arrives")%string)
  else if (0 <? List.length rest)%nat && negb (saw_dash_dash args consumed) then
    Err (ErrText ("unexpected argument " ++ itoa (Z.of_nat consumed + 1) ++ "; arguments for the upstream go after --")%string)
  else if String.eqb server "" || String.eqb upstream "" then Err (ErrText "--server and --upstream are required")
  else if String.eqb upstream "--" || String.eqb (trim_space upstream) "" then
    Err (ErrText ("--upstream " ++ quote upstream ++ " is not an executable path")%string)
  else match ValidateServerName server with
  | Some e => Err (ErrServer e)
  | None =>
      text (env_keys 1 (flag_list st "upstream-env")) (λ keys,
      text (pass_names 1 [] (flag_list st "upstream-env-pass")) (λ names,
      match both_ways names keys with
      | Some name => Err (ErrText (name ++ " is given with both --upstream-env and --upstream-env-pass; use one")%string)
      | None =>
          text (read_secrets names) (λ secrets,
          text (listen_flags (flag_string st "listen") (flag_list st "listen-token-file")) (λ lt,
          match pipeline_check pf with
          | Some e => Err (ErrText e)
          | None => Ok {| sc_server := server; sc_upstream := upstream; sc_upstreamArgs := rest; sc_upstreamEnv := flag_list st "upstream-env";
                          sc_passNames := names; sc_secrets := secrets; sc_listen := fst lt; sc_tokens := snd lt; sc_pipeline := pf |}
          end))
      end))
  end.

Definition parseServe (args : list string) : result serve_error serveConfig :=
  match Parse serve_flag 0 no_flags args with
  | ParseFailed HelpAsked _ _ => Err ErrHelp
  | ParseFailed _ _ st =>
      match List.find (λ n, bool_decide (n ∈ fl_repeated st)) ["policy"; "inventory"; "profiles"] with
      | Some n => Err (ErrText ("--" ++ n ++ " is given more than once; give it once")%string)
      | None => Err (ErrText (parseFlagError serve_flag 0 args))
      end
  | Parsed st rest consumed => check_serve args st rest consumed
  end.

End Serve.

(** [serveBinding]: the command of the upstream, and what its log scrubs. *)
Definition serve_command (cfg : serveConfig) : Command :=
  {| cmd_Path := sc_upstream cfg; cmd_Args := sc_upstreamArgs cfg; cmd_Env := sc_upstreamEnv cfg; cmd_Secrets := sc_secrets cfg |}.

Definition scrub_secrets (cfg : serveConfig) : list Secret :=
  sc_secrets cfg ++ map (λ name, NewSecret ("listen-token:" ++ name) (default "" (lt_byName (sc_tokens cfg) !! name))) (lt_names (sc_tokens cfg)).

(** ** What an accepted command line guarantees *)

Lemma Parse_drop formal : ∀ args i st st' rest n, Parse formal i st args = Parsed st' rest n → (i ≤ n)%nat ∧ rest = drop (n - i) args.
Proof.
  intros args. remember (List.length args) as k eqn:Hk0. assert (Hk : (List.length args ≤ k)%nat) by lia. clear Hk0. revert args Hk.
  induction k as [|k IH]; intros [|a args] Hk i st st' rest n; cbn in Hk; cbn [Parse];
    try (intros [= _ <- <-]; split; [lia|by rewrite drop_nil]); [lia|].
  assert (Hone : ∀ args' s, (List.length args' ≤ k)%nat → Parse formal (S i) s args' = Parsed st' rest n → (i ≤ n)%nat ∧ rest = drop (n - i) (a :: args')).
  { intros args' s Hl Hp. destruct (IH args' Hl _ _ _ _ _ Hp) as [Hle ->]. split; [lia|]. by replace (n - i)%nat with (S (n - S i)) by lia. }
  assert (Htwo : ∀ v args' s, (List.length args' ≤ k)%nat → Parse formal (S (S i)) s args' = Parsed st' rest n → (i ≤ n)%nat ∧ rest = drop (n - i) (a :: v :: args')).
  { intros v args' s Hl Hp. destruct (IH args' Hl _ _ _ _ _ Hp) as [Hle ->]. split; [lia|]. by replace (n - i)%nat with (S (S (n - S (S i)))) by lia. }
  destruct (read_argument a) as [| | |name value].
  - intros [= _ <- <-]. split; [lia|]. by rewrite Nat.sub_diag.
  - intros [= _ <- <-]. split; [lia|]. by replace (S i - i)%nat with 1%nat by lia.
  - done.
  - destruct (formal name) as [ []|]; [..|done]; destruct value; cbn [default]; repeat case_match; try done; intros Hp;
      (eapply Hone; [|done]; cbn in *; lia) || (eapply Htwo; [|done]; cbn in *; lia).
Qed.

Lemma saw_dash_dash_spec args n : saw_dash_dash args n = true → ∃ pre, args = pre ++ "--" :: drop n args.
Proof.
  unfold saw_dash_dash. destruct n as [|i]; [done|]. destruct (args !! i) as [a|] eqn:Ha; [|done]. intros ->%String.eqb_eq.
  exists (take i args). rewrite <- (drop_S args "--" i Ha). symmetry. apply take_drop.
Qed.

Lemma add_refused_grows a r : add_refused r a = [] → r = [] ∧ ∀ name, flagName a = Some name → name ∉ upstreamReservedFlags.
Proof.
  unfold add_refused. destruct (flagName a) as [name|]; [|by intros ->]. destruct (mem name upstreamReservedFlags) eqn:Hm; cbn [andb].
  - destruct (mem _ r) eqn:Hr; cbn [negb]; [|by intros [_ ?]%app_nil]. intros ->. by apply mem_true, not_elem_of_nil in Hr.
  - intros ->. split; [done|]. intros n [= <-]. by apply mem_false.
Qed.

Lemma reserved_args_none rest : reserved_args rest = [] → ∀ a name, a ∈ rest → flagName a = Some name → name ∉ upstreamReservedFlags.
Proof.
  unfold reserved_args. induction rest as [|a rest IH] using rev_ind; [by intros _ a name ?%not_elem_of_nil|].
  rewrite foldl_app. cbn. intros [Hr Ha]%add_refused_grows b name [Hin| ->%list_elem_of_singleton]%elem_of_app; [by apply IH|by apply Ha].
Qed.

Lemma length_zero {A} (l : list A) : (0 <? List.length l)%nat = false → l = [].
Proof. by destruct l. Qed.

Lemma pipeline_check_None pf : pipeline_check pf = None →
  (pf_noPolicy pf = true ↔ pf_policy pf = "") ∧ (pf_noPolicy pf = true → pf_inventory pf = "" ∧ pf_profiles pf = "").
Proof.
  unfold pipeline_check. destruct pf as [p i q np]. cbn.
  destruct (String.eqb_spec p ""), np, (String.eqb_spec i ""), (String.eqb_spec q ""); cbn; try done; intros _; (split; [split; intros ?; done|intros ?; done]).
Qed.

Lemma sameEnvName_refl goos a : sameEnvName a a goos = true.
Proof. unfold sameEnvName. destruct (String.eqb goos windows); apply String.eqb_refl. Qed.

Lemma sameEnvName_sym goos a b : sameEnvName a b goos = sameEnvName b a goos.
Proof. unfold sameEnvName. destruct (String.eqb goos windows); apply String.eqb_sym. Qed.

Lemma sameEnvName_trans goos a b c : sameEnvName a b goos = true → sameEnvName b c goos = true → sameEnvName a c goos = true.
Proof. unfold sameEnvName. destruct (String.eqb goos windows); rewrite !String.eqb_eq; congruence. Qed.

Lemma pass_names_distinct goos pass : ∀ i names out, pass_names goos i names pass = Ok out →
  (∀ n m, n ∈ names → m ∈ names → sameEnvName n m goos = true → n = m) → ∀ n m, n ∈ out → m ∈ out → sameEnvName n m goos = true → n = m.
Proof.
  induction pass as [|name pass IH]; intros i names out; cbn [pass_names]; [by intros [= <-]|].
  destruct (contains_b "=" name); [done|]. destruct (negb _); [done|]. destruct (isFathomgateEnvName name goos); [done|].
  intros Hp Hd. apply (IH _ _ _ Hp). destruct (existsb _ names) eqn:He; [done|]. rewrite existsb_false_elem in He.
  intros n m [Hn| ->%list_elem_of_singleton]%elem_of_app [Hm| ->%list_elem_of_singleton]%elem_of_app Hs; [by apply Hd|..|done].
  - specialize (He n Hn). cbn in He. congruence.
  - specialize (He m Hm). cbn in He. rewrite sameEnvName_sym in Hs. congruence.
Qed.

Section Accepted.
Context `{Unicode} (read : string → result string string) (lookup : string → option string) (goos : string).

Lemma env_keys_ok env : ∀ i keys, env_keys goos i env = Ok keys →
  Forall2 (λ kv k, ∃ v, kv = (k ++ String "=" v)%string ∧ contains_b "=" k = false ∧ validEnvName k = true ∧ isFathomgateEnvName k goos = false) env keys.
Proof.
  induction env as [|kv env IH]; intros i keys; cbn [env_keys]; [intros [= <-]; constructor|].
  pose proof (cut_b_spec "=" kv) as Hc. destruct (cut_b "=" kv) as [ [k v]|]; [|done]. destruct Hc as [Hkv Hk].
  destruct (validEnvName k) eqn:Hv; [|done]. destruct (isFathomgateEnvName k goos) eqn:Hf; [done|]. cbn [negb].
  destruct (env_keys goos (i + 1) env) as [ks|] eqn:He; [|done]. intros [= <-]. constructor; [by exists v|by eapply IH].
Qed.

Definition passable (name : string) : Prop := contains_b "=" name = false ∧ validEnvName name = true ∧ isFathomgateEnvName name goos = false.

Lemma pass_names_ok pass : ∀ i names out, pass_names goos i names pass = Ok out → Forall passable names →
  Forall passable out ∧ (∀ n, n ∈ names → n ∈ out) ∧ ∀ n, n ∈ pass → ∃ m, m ∈ out ∧ sameEnvName m n goos = true.
Proof.
  induction pass as [|name pass IH]; intros i names out; cbn [pass_names].
  { intros [= <-] Hall. split_and!; [done..|]. by intros n ?%not_elem_of_nil. }
  destruct (contains_b "=" name) eqn:Hc; [done|]. destruct (validEnvName name) eqn:Hv; [|done]. destruct (isFathomgateEnvName name goos) eqn:Hf; [done|]. cbn [negb].
  intros Hp Hall. destruct (existsb _ names) eqn:He; destruct (IH _ _ _ Hp) as (H1 & H2 & H3).
  - done.
  - split_and!; [done..|]. intros n [->|Hn]%elem_of_cons; [|by apply H3]. apply existsb_elem in He as (m & Hm & Hs). exists m. split; [by apply H2|done].
  - apply Forall_app. split; [done|]. by apply Forall_singleton.
  - split_and!; [done|set_solver|]. intros n [->|Hn]%elem_of_cons; [|by apply H3]. exists name. split; [set_solver|].
    unfold sameEnvName. destruct (String.eqb goos windows); apply String.eqb_refl.
Qed.

Lemma read_secrets_ok names : ∀ secrets, read_secrets lookup names = Ok secrets →
  Forall2 (λ n s, ∃ v, lookup n = Some v ∧ v ≠ "" ∧ s = NewSecret n v) names secrets.
Proof.
  induction names as [|n names IH]; intros secrets; cbn [read_secrets]; [intros [= <-]; constructor|].
  destruct (lookup n) as [v|] eqn:Hl; [|done]. destruct (String.eqb_spec v ""); [done|]. destruct (read_secrets lookup names) as [l|] eqn:Hr; [|done].
  intros [= <-]. constructor; [by exists v|by apply IH].
Qed.

(** What holds of a configuration that was accepted. *)
Record accepted (args : list string) (cfg : serveConfig) : Prop := {
  ac_server : ValidateServerName (sc_server cfg) = None;
  ac_upstream : trim_space (sc_upstream cfg) ≠ "" ∧ sc_upstream cfg ≠ "--";
  ac_args : sc_upstreamArgs cfg = [] ∨ ∃ pre, args = pre ++ "--" :: sc_upstreamArgs cfg;
  ac_reserved a name : a ∈ sc_upstreamArgs cfg → flagName a = Some name → name ∉ upstreamReservedFlags;
  ac_pipeline : pipeline_check (sc_pipeline cfg) = None;
  ac_env : ∃ keys, env_keys goos 1 (sc_upstreamEnv cfg) = Ok keys ∧ both_ways goos (sc_passNames cfg) keys = None;
  ac_pass : Forall passable (sc_passNames cfg);
  ac_distinct n m : n ∈ sc_passNames cfg → m ∈ sc_passNames cfg → sameEnvName n m goos = true → n = m;
  ac_secrets : read_secrets lookup (sc_passNames cfg) = Ok (sc_secrets cfg);
  ac_listen : match sc_listen cfg with
    | Some a => ∃ text files, parseListenAddr text = Ok a ∧ loadListenTokens read lookup files = Ok (sc_tokens cfg)
    | None => sc_tokens cfg = no_tokens
    end;
}.

Lemma parseServe_accepted args cfg : parseServe read lookup goos args = Ok cfg → accepted args cfg.
Proof.
  unfold parseServe. destruct (Parse serve_flag 0 no_flags args) as [st rest n|e n st] eqn:Hp; [|destruct e; by repeat case_match].
  apply Parse_drop in Hp as [_ Hrest]. rewrite Nat.sub_0_r in Hrest. unfold check_serve. cbv zeta.
  destruct (0 <? List.length (reserved_args rest))%nat eqn:Hres; [done|]. apply length_zero in Hres.
  case_bool_decide; [done|]. destruct (0 <? List.length (reserved_listen st))%nat; [done|].
  destruct (_ && negb _) eqn:Hdash; [done|]. destruct (_ || _) eqn:Hreq; [done|]. destruct (String.eqb _ "--" || _) eqn:Hup; [done|].
  destruct (ValidateServerName _) eqn:Hs; [done|]. destruct (env_keys _ _ _) as [keys|] eqn:Hk; [|done].
  destruct (pass_names _ _ _ _) as [names|] eqn:Hn; [|done]. destruct (both_ways _ _ _) eqn:Hb; [done|].
  destruct (read_secrets _ _) as [secrets|] eqn:Hsec; [|done]. destruct (listen_flags _ _ _ _) as [ [la toks]|] eqn:Hl; [|done].
  destruct (pipeline_check _) eqn:Hpc; [done|]. intros [= <-].
  apply orb_false_iff in Hup as [H1%String.eqb_neq H2%String.eqb_neq]. split; cbn; try done.
  - apply andb_false_iff in Hdash as [Hd%length_zero|Hd%negb_false_iff]; [by left|]. right. rewrite Hrest. by apply saw_dash_dash_spec.
  - intros a name. by apply reserved_args_none.
  - by exists keys.
  - by apply (pass_names_ok _ _ _ _ Hn).
  - apply (pass_names_distinct goos _ _ _ _ Hn). by intros n1 m ?%not_elem_of_nil.
  - unfold listen_flags in Hl. destruct (String.eqb (flag_string st "listen") ""); cbn [negb] in Hl.
    + destruct (flag_list st "listen-token-file"); [|done]. injection Hl as <- <-. done.
    + destruct (parseListenAddr _) as [a|] eqn:Ha; [|done]. destruct (loadListenTokens _ _ _) as [t|] eqn:Ht; [|done]. injection Hl as <- <-.
      by exists (flag_string st "listen"), (flag_list st "listen-token-file").
Qed.
End Accepted.

(** ** The upstream's environment *)

Lemma s_take_map f n s : s_take n (s_map f s) = s_map f (s_take n s).
Proof. revert s. induction n as [|n IH]; intros [|c s]; cbn; try done. by rewrite IH. Qed.

(** No variable of fathomgate's own is on the allow-list. *)
Lemma envAllowed_not_fathomgate k goos : envAllowed k goos = true → isFathomgateEnvName k goos = false.
Proof.
  unfold envAllowed, isFathomgateEnvName, sameEnvName. destruct (String.eqb goos windows).
  - intros (a & Ha & Hk%equal_fold_map)%existsb_elem. rewrite <- s_take_map, Hk, s_take_map. apply andb_false_iff. right.
    assert (Hall : forallb (λ a, negb (String.eqb (s_map lower_b (s_take (String.length fathomgate_prefix) a)) (s_map lower_b fathomgate_prefix))) windowsEnvAllow = true) by (vm_compute; reflexivity).
    rewrite forallb_elem in Hall. specialize (Hall a Ha). by apply negb_true_iff in Hall.
  - intros Hk%mem_true. apply andb_false_iff. right.
    assert (Hall : forallb (λ a, negb (String.eqb (s_take (String.length fathomgate_prefix) a) fathomgate_prefix)) unixEnvAllow = true) by (vm_compute; reflexivity).
    rewrite forallb_elem in Hall. specialize (Hall k Hk). by apply negb_true_iff in Hall.
Qed.

(** The value the child sees: os/exec keeps the last entry of a name. *)
Definition env_value (goos : string) (env : list string) (name : string) : option string :=
  foldl (λ acc kv, match cut_b "=" kv with Some (k, v) => if sameEnvName k name goos then Some v else acc | None => acc end) None env.

Lemma env_value_app_none goos env env' name :
  (∀ kv k v, kv ∈ env' → cut_b "=" kv = Some (k, v) → sameEnvName k name goos = false) → env_value goos (env ++ env') name = env_value goos env name.
Proof.
  unfold env_value. rewrite foldl_app. generalize (foldl (λ (acc : option string) (kv : string), match cut_b "=" kv with Some (k, v) => if sameEnvName k name goos then Some v else acc | None => acc end) None env).
  induction env' as [|kv env' IH]; intros acc Hno; cbn [foldl]; [done|]. rewrite IH by (intros kv' k v Hin; apply (Hno kv' k v); by right).
  destruct (cut_b "=" kv) as [ [k v]|] eqn:Hc; [|done]. by rewrite (Hno kv k v ltac:(left) Hc).
Qed.

Lemma env_value_snoc goos env k v name : contains_b "=" k = false → sameEnvName k name goos = true →
  env_value goos (env ++ [(k ++ String "=" v)%string]) name = Some v.
Proof. intros Hk Hs. unfold env_value. rewrite foldl_app. cbn. by rewrite cut_b_first, Hs. Qed.

Lemma secret_entry_new n v : secret_entry (NewSecret n v) = (n ++ String "=" v)%string.
Proof. done. Qed.

(** an accepted serve command line is a safe one.  The server name is a
    valid prefix and the upstream a path; the upstream's arguments are what
    follows "--", and none of them is one of fathomgate's own policy flags;
    exactly one of --policy and --no-policy is given, inventory and profiles
    only with a policy; with --listen the address is loopback and there are
    tokens, without it there are none. *)
Theorem serve_accepted `{Unicode} read lookup goos args cfg :
  parseServe read lookup goos args = Ok cfg →
  ValidateServerName (sc_server cfg) = None ∧ trim_space (sc_upstream cfg) ≠ "" ∧
  (sc_upstreamArgs cfg = [] ∨ ∃ pre, args = pre ++ "--" :: sc_upstreamArgs cfg) ∧
  (∀ a name, a ∈ sc_upstreamArgs cfg → flagName a = Some name → name ∉ ["policy"; "inventory"; "profiles"; "audit"]) ∧
  (pf_noPolicy (sc_pipeline cfg) = true ↔ pf_policy (sc_pipeline cfg) = "") ∧
  (pf_noPolicy (sc_pipeline cfg) = true → pf_inventory (sc_pipeline cfg) = "" ∧ pf_profiles (sc_pipeline cfg) = "") ∧
  match sc_listen cfg with
  | Some a => loopback (la_host a) ∧ ∃ files, loadListenTokens read lookup files = Ok (sc_tokens cfg)
  | None => lt_byName (sc_tokens cfg) = ∅
  end.
Proof.
  intros [A1 [A2 _] A3 A4 A5 A6 A7 _ A8 A9]%parseServe_accepted. apply pipeline_check_None in A5 as [P1 P2]. split_and!; try done.
  destruct (sc_listen cfg) as [a|]; [|by rewrite A9]. destruct A9 as (text & files & Ha & Ht). split; [by apply (parseListenAddr_loopback text)|by exists files].
Qed.


Definition sample_env (name : string) : option string :=
  if String.eqb name "DEVICE_PASSWORD" then Some "hunter2-hunter2"
  else if String.eqb name "FATHOMGATE_LISTEN_TOKEN" then Some "0123456789abcdef0123456789abcdef" else None.

Definition sample_args : list string :=
  ["--server"; "napalm"; "-upstream=uvx"; "--policy"; "p.yaml"; "--upstream-env"; "SITE=lab"; "--upstream-env-pass"; "DEVICE_PASSWORD";
   "--listen"; "localhost:8080"; "--"; "napalm-mcp"; "--verbose"].

Definition no_config : serveConfig :=
  {| sc_server := ""; sc_upstream := ""; sc_upstreamArgs := []; sc_upstreamEnv := []; sc_passNames := []; sc_secrets := []; sc_listen := None;
     sc_tokens := no_tokens; sc_pipeline := {| pf_policy := ""; pf_inventory := ""; pf_profiles := ""; pf_noPolicy := false |} |}.

Definition no_read (_ : string) : result string string := Err "".

Definition sample_serve : serveConfig :=
  match @parseServe ascii_tables no_read sample_env "linux" sample_args with Ok cfg => cfg | Err _ => no_config end.

Lemma serve_accepted_witness :
  sc_upstreamArgs sample_serve = ["napalm-mcp"; "--verbose"] ∧ ValidateServerName (sc_server sample_serve) = None.
Proof.
  assert (Hp : @parseServe ascii_tables no_read sample_env "linux" sample_args = Ok sample_serve) by (vm_compute; reflexivity).
  split; [vm_compute; reflexivity|]. exact (proj1 (@serve_accepted ascii_tables no_read sample_env "linux" sample_args sample_serve Hp)).
Defined.

