(* ===== verification/Pipeline.v ===== *)
(** * The decision pipeline serve starts with: cmd/fathomgate/serve_policy.go
    and internal/configset

    The policy, the inventory and the profile set are loaded and checked, the
    gate is built from them, and the start-up warnings say what the policy asks
    that is not enforced.  Reading and decoding files are parameters.  Theorems:
    a pipeline with a policy always has a gate, which refuses every call with
    arguments to a tool no profile lists; the warnings are exactly those the
    policy earns. *)

From S2P Require Import Prelude GoStd GoCrypto Termsafe ToolClass Command ServerProfile Values Classifier Policy Evaluate Inventory GateArgs GateText Gate ServeArgs.

Open Scope string_scope.
Open Scope Z_scope.
Open Scope list_scope.

(** ** The profile set *)

Record dir_entry := { de_name : string; de_dir : bool }.

(** [ProfileFile]. *)
Record ProfileFile := { pfl_Name : string; pfl_Sum : string; pfl_Profile : Profile }.

Inductive set_error :=
  | SetDir (e : string) | SetSubdir (name : string) | SetYml (name : string) | SetRead (name e : string) | SetParse (name : string) (e : load_error)
  | SetNamed (name server want : string) | SetTwice (first name server : string) | SetEmpty (dir : string).

(** A warning or a start-up line's attributes. *)
Inductive log_value := LStr (s : string) | LInt (n : Z).

Record warnLine := { wl_msg : string; wl_attrs : list (string * log_value) }.

Record pipeline := { pl_gate : option Gate; pl_attrs : list (string * log_value); pl_warns : list warnLine }.

Definition Embedded : string := "embedded".

Definition noPolicyValue : string := "none (--no-policy: every call is forwarded)".
Definition noPolicyWarning : string :=
  "--no-policy: every call is forwarded to the upstream unchecked; nothing is classified, decided or logged as a decision; use --policy <file> in front of real devices".
Definition unknownTargetAllowLint : string :=
  "unknown_target: allow lets the rules decide for hosts no inventory resolves; upstreams such as eos-mcp and netdev-ssh-mcp then send device credentials to any host the agent names (ADR 0032)".
Definition unknownTargetAllowWarning : string := (unknownTargetAllowLint ++ "; set unknown_target: deny and list the hosts in --inventory")%string.
Definition noInventoryValue : string := "none (every target is unknown)".
Definition noInventoryWarning : string :=
  "no --inventory: every target is unknown, so this policy denies every call that names a device (rule default:unknown_target); add --inventory <file>".
Definition noProfileValue : string := "none (every call with arguments is denied)".
Definition noProfileWarning : string :=
  "no profile for this server: every call that carries arguments is denied (rule default:bad_arguments); use a --server key that fathomgate version lists, or add a profile with --profiles <dir>".
Definition cannotMeetWarning : string :=
  "obligation cannot be met until M3: a call these rules allow cannot run, and the agent is told why; remove the obligation from these rules to run such calls now".
Definition carriedWarning : string := "obligation not enforced yet: a call these rules allow is forwarded without it".
(** The character between "held" and the colon is U+2026. *)
Definition ellipsis : string := String "226" (String "128" (String "166" EmptyString)).
Definition holdWarning : string :=
  ("calls these rules hold are not run yet: approvals arrive in M3; until then the agent gets " ++ String dquote EmptyString ++
   "fathomgate held " ++ ellipsis ++ ": needs approval" ++ String dquote EmptyString)%string.

(** [carriedUntil]: the milestone, for the obligations that have one. *)
Definition carriedUntil (o : string) : option string :=
  if String.eqb o "redact" then Some "M2"
  else if mem o ["canary_first"; "require_ticket"; "notify"] then Some "M4"
  else None.
Definition cannotMeet : list string := ["dry_run"; "diff"; "timed_rollback"].

(** ** The warnings of a policy *)

(** The rules that allow with an obligation, each once. *)
Definition add_user (o : string) (users : list string) (r : Rule) : list string :=
  if negb (String.eqb (rule_Effect r) Allow) || negb (mem o (rule_Obligations r)) || mem (ID r) users then users else users ++ [ID r].
Definition rulesUsing (p : Policy) (o : string) : list string := foldl (add_user o) [] (Rules p).

Definition obligation_warning (p : Policy) (o : string) : list warnLine :=
  let rules := rulesUsing p o in
  if (List.length rules =? 0)%nat then []
  else match carriedUntil o with
  | Some until =>
      [ {| wl_msg := carriedWarning; wl_attrs := [("obligation", LStr o); ("rules", LStr (join "," rules)); ("enforced_from", LStr until)] |} ]
  | None => [ {| wl_msg := cannotMeetWarning; wl_attrs := [("obligation", LStr o); ("rules", LStr (join "," rules))] |} ]
  end.

Definition holding (p : Policy) : list string := map ID (List.filter (λ r, String.eqb (rule_Effect r) Hold) (Rules p)).

Definition policyWarnings (p : Policy) (file : string) : list warnLine :=
  (if String.eqb (UnknownTarget (policy_Defaults p)) Allow
   then [ {| wl_msg := unknownTargetAllowWarning; wl_attrs := [("policy", LStr file)] |} ] else []) ++
  flat_map (obligation_warning p) KnownObligations ++
  (if (List.length (holding p) =? 0)%nat then []
   else [ {| wl_msg := holdWarning; wl_attrs := [("rules", LStr (join "," (holding p)))] |} ]).

Section Load.
(** The file system and the strict decoders: [read_dir] lists the embedded set
    or a directory after its checks, [read_profile] reads a file of it. *)
Context `{Unicode} (compile : string → option (string → bool)).
Context (read_dir : string → result string (list dir_entry)) (read_profile : string → string → result string string).
Context (decode_profile : string → option Profile) (read_config : string → result string string).
Context (decode_policy : string → option Policy) (decode_inventory : string → option File).

(** [loadProfiles]: the entries in name order; [out] and [seen] so far. *)
Fixpoint loadProfiles (dir : string) (out : list ProfileFile) (seen : gmap string string) (entries : list dir_entry) : result set_error (list ProfileFile) :=
  match entries with
  | [] => Ok out
  | e :: entries =>
      let name := de_name e in
      if de_dir e then Err (SetSubdir name)
      else if has_suffix name ".yml" then Err (SetYml name)
      else if negb (has_suffix name ".yaml") then loadProfiles dir out seen entries
      else match read_profile dir name with
      | Err e => Err (SetRead name e)
      | Ok b =>
          match ParseProfile decode_profile b with
          | Err e => Err (SetParse name e)
          | Ok p =>
              let want := (Server p ++ ".yaml")%string in
              if negb (String.eqb name want) then Err (SetNamed name (Server p) want)
              else match seen !! Server p with
              | Some first => Err (SetTwice first name (Server p))
              | None => loadProfiles dir (out ++ [ {| pfl_Name := name; pfl_Sum := sha256 b; pfl_Profile := p |} ]) (<[Server p := name]> seen) entries
              end
          end
      end
  end.

(** [Profiles], with [EmbeddedProfiles] and [ProfileDir]: the set and the name
    of its source. *)
Definition Profiles (dir : string) : result set_error (list ProfileFile * string) :=
  match read_dir dir with
  | Err e => Err (SetDir e)
  | Ok entries =>
      match loadProfiles dir [] ∅ entries with
      | Err e => Err e
      | Ok set =>
          if String.eqb dir "" then Ok (set, Embedded)
          else if (List.length set =? 0)%nat then Err (SetEmpty dir)
          else Ok (set, dir)
      end
  end.

Definition ByServer (set : list ProfileFile) : gmap string Profile :=
  foldl (λ m f, <[Server (pfl_Profile f) := pfl_Profile f]> m) ∅ set.

(** filepath.Ext on Unix: from the last dot of the last element, in bytes from
    the end. *)
Fixpoint ext_of (rev acc : string) : string :=
  match rev with
  | EmptyString => ""
  | String c rev =>
      if Ascii.eqb c "/" then "" else if Ascii.eqb c "." then String c acc else ext_of rev (String c acc)
  end.
Definition Ext (path : string) : string := ext_of (s_rev path) "".

(** strings.EqualFold with a lower-case ASCII text: U+017F and U+212A fold to
    letters of it. *)
Definition fold_ascii_rune (r : Z) : Z := if in_range 65 90 r then r + 32 else if r =? 383 then 115 else if r =? 8490 then 107 else r.
Definition equal_fold (s lower : string) : bool := bool_decide (map (λ p, fold_ascii_rune (fst p)) (runes s) = map fst (runes lower)).

Inductive pipeline_error :=
  | PolicyUnread (e : string) | PolicyBad (e : policy_load_error) | InventoryIsCSV | InventoryUnread (e : string)
  | InventoryBad (e : file_error) | ProfilesBad (e : set_error) | GateBad (e : gate_error).

Definition inventory_of (path : string) (unknown : Effect) (policy : string) :
    result pipeline_error (option Resolver * list (string * log_value) * list warnLine) :=
  if String.eqb path "" then
    Ok (None, [("inventory", LStr noInventoryValue)],
        if String.eqb unknown Allow then [] else [ {| wl_msg := noInventoryWarning; wl_attrs := [("policy", LStr policy)] |} ])
  else if equal_fold (Ext path) ".csv" then Err InventoryIsCSV
  else match read_config path with
  | Err e => Err (InventoryUnread e)
  | Ok b =>
      match ParseFile decode_inventory b with
      | Err e => Err (InventoryBad e)
      | Ok f =>
          match File_Chain compile f with
          | Err e => Err (InventoryBad e)
          | Ok chain =>
              Ok (Some (Chain_Resolve chain), [("inventory", LStr path); ("devices", LInt (Z.of_nat (List.length (Devices f))))],
                  map (λ w, {| wl_msg := w; wl_attrs := [("inventory", LStr path)] |}) (PatternWarnings compile f))
          end
      end
  end.

(** The profile of a server that has none: every tool is one it does not list. *)
Definition empty_profile (server : string) : Profile :=
  {| Server := server; profile_Source := ""; Description := ""; Capabilities := ∅; Tools := ∅ |}.

Definition profiles_of (set : list ProfileFile) (source server : string) : gmap string Profile * list (string * log_value) * list warnLine :=
  let byServer := ByServer set in
  match byServer !! server with
  | Some _ => (byServer, [("profiles", LStr source); ("profile", LStr (server ++ ".yaml")%string)], [])
  | None =>
      (<[server := empty_profile server]> byServer, [("profiles", LStr source); ("profile", LStr noProfileValue)],
       [ {| wl_msg := noProfileWarning; wl_attrs := [("server", LStr server); ("profiles", LStr source);
              ("servers_with_a_profile", LStr (join "," (map (λ f, Server (pfl_Profile f)) set)))] |} ])
  end.

Definition loadPipeline (pf : pipelineFlags) (server : string) : result pipeline_error pipeline :=
  if pf_noPolicy pf then
    Ok {| pl_gate := None; pl_attrs := [("policy", LStr noPolicyValue)]; pl_warns := [ {| wl_msg := noPolicyWarning; wl_attrs := [] |} ] |}
  else match read_config (pf_policy pf) with
  | Err e => Err (PolicyUnread e)
  | Ok b =>
      match policy_Parse decode_policy b with
      | Err e => Err (PolicyBad e)
      | Ok pol =>
          match inventory_of (pf_inventory pf) (UnknownTarget (policy_Defaults pol)) (pf_policy pf) with
          | Err e => Err e
          | Ok (resolver, inv_attrs, inv_warns) =>
              match Profiles (pf_profiles pf) with
              | Err e => Err (ProfilesBad e)
              | Ok (set, source) =>
                  let '(byServer, prof_attrs, prof_warns) := profiles_of set source server in
                  match Gate.New {| cfg_Policy := Some pol; cfg_Profiles := Some <$> byServer; cfg_Inventory := resolver |} with
                  | Err e => Err (GateBad e)
                  | Ok g =>
                      Ok {| pl_gate := Some g;
                            pl_attrs := [("policy", LStr (pf_policy pf)); ("rules", LInt (Z.of_nat (List.length (Rules pol))))] ++ inv_attrs ++ prof_attrs;
                            pl_warns := inv_warns ++ prof_warns ++ policyWarnings pol (pf_policy pf) |}
                  end
              end
          end
      end
  end.
End Load.

(** ** The gate a pipeline gets *)

(** Profiles keyed by their servers always make a gate, with those profiles. *)
Lemma new_profiles_keyed l : ∀ acc, NoDup (map fst l) → (∀ n x, (n, x) ∈ l → ∃ p, x = Some p ∧ Server p = n) →
  ∃ m, new_profiles acc l = Ok m ∧ ∀ k p, m !! k = Some p ↔ (k, Some p) ∈ l ∨ (acc !! k = Some p ∧ k ∉ map fst l).
Proof.
  induction l as [| [n x] l IH]; intros acc Hnd Hkey; cbn [new_profiles].
  { exists acc. split; [done|]. intros k p. set_solver. }
  cbn [map fst] in Hnd. apply NoDup_cons in Hnd as [Hni Hnd]. destruct (Hkey n x ltac:(left)) as (p & -> & Hs). rewrite Hs, String.eqb_refl. cbn [negb].
  destruct (IH (<[n := p]> acc) Hnd) as (m & -> & Hm); [intros n' x' Hin; apply Hkey; by right|]. exists m. split; [done|].
  intros k q. rewrite Hm. cbn [map fst]. rewrite lookup_insert_Some, !elem_of_cons. destruct (decide (k = n)) as [->|Hne]; naive_solver.
Qed.

Lemma Gate_New_keyed pol (ps : gmap string Profile) inv : (∀ n p, ps !! n = Some p → Server p = n) →
  ∃ g, Gate.New {| cfg_Policy := pol; cfg_Profiles := Some <$> ps; cfg_Inventory := inv |} = Ok g ∧ g_policy g = pol ∧ g_profiles g = ps ∧ g_inventory g = inv.
Proof.
  intros Hk. unfold Gate.New. cbn [cfg_Profiles].
  destruct (new_profiles_keyed (map_to_list (Some <$> ps)) ∅) as (m & -> & Hm).
  - apply NoDup_fst_map_to_list.
  - intros n x Hin%elem_of_map_to_list. apply lookup_fmap_Some in Hin as (p & <- & Hp). exists p. split; [done|by apply Hk].
  - eexists. split; [done|]. split_and!; [done| |done]. cbn. apply map_eq. intros k. apply option_eq. intros p. rewrite Hm, elem_of_map_to_list, lookup_fmap_Some, lookup_empty. naive_solver.
Qed.

Lemma ByServer_keyed set n p : ByServer set !! n = Some p → Server p = n.
Proof.
  unfold ByServer. assert (∀ m : gmap string Profile, (∀ n p, m !! n = Some p → Server p = n) →
    foldl (λ (m : gmap string Profile) f, <[Server (pfl_Profile f) := pfl_Profile f]> m) m set !! n = Some p → Server p = n) as Hg.
  { induction set as [|f set IH]; intros m Hm; cbn [foldl]; [by apply Hm|]. apply IH. intros k q. rewrite lookup_insert_Some. naive_solver. }
  apply Hg. intros ? ?. by rewrite lookup_empty.
Qed.

Lemma profiles_of_keyed set source server m a w : profiles_of set source server = (m, a, w) →
  (∀ n p, m !! n = Some p → Server p = n) ∧ is_Some (m !! server) ∧ ∀ n, n ≠ server → m !! n = ByServer set !! n.
Proof.
  unfold profiles_of. destruct (ByServer set !! server) as [p|] eqn:Hs; intros [= <- _ _].
  - split_and!; [apply ByServer_keyed|by eexists|done].
  - split_and!; [|rewrite lookup_insert_eq; by eexists|intros n Hn; by rewrite lookup_insert_ne].
    intros n p. rewrite lookup_insert_Some. intros [ [<- <-]|[_ Hp] ]; [done|by eapply ByServer_keyed].
Qed.

(** A call with anything but an empty argument object to a tool its profile
    does not list. *)
Lemma unlisted_refused `{Unicode, GoFloat} g ci prof :
  g_profiles g !! in_Server ci = Some prof → Tools prof !! in_Tool ci = None → parseArguments (in_Arguments ci) ≠ Ok [] →
  v_RuleID (Decide g ci) = RuleBadArguments ∧ v_Effect (Decide g ci) = Deny ∧ Forward (Decide g ci) = false.
Proof.
  intros Hp Ht Ha. unfold Decide, gate_decide. rewrite Hp, Ht. destruct (parseArguments (in_Arguments ci)) as [ [|e entries]|err]; done.
Qed.

(** C37: serve with a policy never runs without a gate, and a server it has no
    profile for is not open but closed.  Building the gate cannot fail once the
    files load; there is no gate exactly with --no-policy; otherwise it holds
    the policy that was read and the profile set with one for the server, and
    every call on that server to a tool the profile does not list is denied as
    bad arguments unless its argument object is empty. *)
Theorem loadPipeline_gate `{Unicode, GoFloat} compile read_dir read_profile decode_profile read_config decode_policy decode_inventory pf server :
  match loadPipeline compile read_dir read_profile decode_profile read_config decode_policy decode_inventory pf server with
  | Err (GateBad _) => False
  | Err _ => True
  | Ok pl =>
      (pl_gate pl = None ↔ pf_noPolicy pf = true) ∧
      ∀ g, pl_gate pl = Some g →
        (∃ b pol, read_config (pf_policy pf) = Ok b ∧ policy_Parse decode_policy b = Ok pol ∧ g_policy g = Some pol) ∧
        (∃ prof, g_profiles g !! server = Some prof ∧ Server prof = server ∧
           ((∃ set source, Profiles read_dir read_profile decode_profile (pf_profiles pf) = Ok (set, source) ∧ ByServer set !! server = Some prof) ∨ Tools prof = ∅)) ∧
        ∀ ci, in_Server ci = server → (∀ prof, g_profiles g !! server = Some prof → Tools prof !! in_Tool ci = None) →
          parseArguments (in_Arguments ci) ≠ Ok [] →
          v_RuleID (Decide g ci) = RuleBadArguments ∧ v_Effect (Decide g ci) = Deny ∧ Forward (Decide g ci) = false
  end.
Proof.
  unfold loadPipeline. destruct (pf_noPolicy pf) eqn:Hnp; [split; [done|by intros g]|].
  destruct (read_config (pf_policy pf)) as [b|] eqn:Hb; [|done]. destruct (policy_Parse decode_policy b) as [pol|] eqn:Hpol; [|done].
  destruct (inventory_of _ _ _ _ _ _) as [ [ [resolver ia] iw]|] eqn:Hi; [|].
  2:{ unfold inventory_of in Hi. repeat case_match; simplify_eq; done. }
  destruct (Profiles _ _ _ _) as [ [set source]|] eqn:Hset; [|done].
  destruct (profiles_of set source server) as [ [m pa] pw] eqn:Hof. destruct (profiles_of_keyed _ _ _ _ _ _ Hof) as (Hk & [prof Hprof] & _).
  destruct (Gate_New_keyed (Some pol) m resolver Hk) as (g & -> & G1 & G2 & G3). split; [done|]. cbn [pl_gate]. intros g' [= <-]. rewrite G1, G2. split_and!.
  - by exists b, pol.
  - exists prof. split; [done|]. split; [by apply Hk|]. unfold profiles_of in Hof. destruct (ByServer set !! server) as [p|] eqn:Hp; injection Hof as <- _ _.
    + left. exists set, source. split; [done|]. congruence.
    + right. rewrite lookup_insert_eq in Hprof. by injection Hprof as <-.
  - intros ci Hs Hun Ha. apply (unlisted_refused g ci prof); [by rewrite G2, Hs|by apply Hun|done].
Qed.

(** ** What the warnings say *)

Lemma users_spec o rules : ∀ acc, NoDup acc → NoDup (foldl (add_user o) acc rules) ∧
  ∀ x, x ∈ foldl (add_user o) acc rules ↔ x ∈ acc ∨ ∃ r, r ∈ rules ∧ rule_Effect r = Allow ∧ o ∈ rule_Obligations r ∧ ID r = x.
Proof.
  induction rules as [|r rules IH]; intros acc Hnd; cbn [foldl].
  { split; [done|]. intros x. split; [by left|]. intros [?|(r & ?%not_elem_of_nil & _)]; done. }
  assert (Hstep : NoDup (add_user o acc r) ∧ ∀ x, x ∈ add_user o acc r ↔ x ∈ acc ∨ (rule_Effect r = Allow ∧ o ∈ rule_Obligations r ∧ ID r = x)).
  { unfold add_user. destruct (String.eqb_spec (rule_Effect r) Allow) as [Ha|Ha]; cbn [negb orb]; [|split; [done|naive_solver] ].
    destruct (mem o (rule_Obligations r)) eqn:Ho; cbn [negb orb]; [apply mem_true in Ho|apply mem_false in Ho; split; [done|naive_solver] ].
    destruct (mem (ID r) acc) eqn:Hi; [apply mem_true in Hi; split; [done|naive_solver]|apply mem_false in Hi].
    split; [apply NoDup_app; split_and!; [done|set_solver|apply NoDup_singleton]|]. intros x. rewrite elem_of_app, list_elem_of_singleton. naive_solver. }
  destruct Hstep as [H1 H2]. destruct (IH _ H1) as [H3 H4]. split; [done|]. intros x. rewrite H4, H2. setoid_rewrite elem_of_cons. naive_solver.
Qed.

Lemma rulesUsing_spec p o : NoDup (rulesUsing p o) ∧
  ∀ x, x ∈ rulesUsing p o ↔ ∃ r, r ∈ Rules p ∧ rule_Effect r = Allow ∧ o ∈ rule_Obligations r ∧ ID r = x.
Proof. destruct (users_spec o (Rules p) [] (NoDup_nil_2)) as [H1 H2]. split; [done|]. intros x. rewrite H2. set_solver. Qed.

(** The obligations the gate cannot forward are those no milestone carries. *)
Lemma carried_forwardable o : forwardable o = false → carriedUntil o = None.
Proof.
  unfold forwardable, carriedUntil. intros Hf%mem_false. destruct (String.eqb_spec o "redact"); [set_solver|].
  destruct (mem o _) eqn:Hm; [|done]. apply mem_true in Hm. set_solver.
Qed.

Lemma obligation_warning_in p file o w : o ∈ KnownObligations → w ∈ obligation_warning p o → w ∈ policyWarnings p file.
Proof.
  intros Ho Hw. unfold policyWarnings. apply elem_of_app. right. apply elem_of_app. left. apply list_elem_of_In, in_flat_map. exists o. by rewrite <- !list_elem_of_In.
Qed.

Lemma decided_rule `{Unicode} p r e : d_Effect (Evaluate (Some p) r) = e → e ≠ Deny →
  ∃ rule, rule ∈ Rules p ∧ rule_Effect rule = e ∧ d_RuleID (Evaluate (Some p) r) = ID rule ∧ d_Obligations (Evaluate (Some p) r) = rule_Obligations rule ∧ targets_ok p r.
Proof.
  intros He Hne. pose proof (Evaluate_decides (Some p) r) as Hd. destruct (Evaluate (Some p) r) as [e' id why ob ap tr].
  cbn [outcome_of d_Effect d_RuleID d_Obligations d_Approval] in *. subst e'.
  inversion Hd as [| | |q r' pre rule post Ht Hdv Hr Hpre Hs Hh | |]; subst; try done. exists rule. rewrite Hr. split_and!; try done. set_solver.
Qed.

(** A verdict that is not a deny is the policy's. *)
Lemma verdict_decided `{Unicode, GoFloat} g ci p e : g_policy g = Some p → v_Effect (Decide g ci) = e → e ≠ Deny →
  ∃ r, d_Effect (Evaluate (Some p) r) = e ∧ v_RuleID (Decide g ci) = d_RuleID (Evaluate (Some p) r) ∧ req_Targets r = map (resolve g) (v_Targets (Decide g ci)) ∧
    (e = Allow → Forward (Decide g ci) = false → ∃ o, o ∈ d_Obligations (Evaluate (Some p) r) ∧ forwardable o = false).
Proof.
  intros Hp. unfold Decide. destruct (gate_decide_cases g ci) as [(d & reason & ->)|(entries & names & _ & _ & ->)].
  { cbn. intros <-. done. }
  unfold evaluate_call. rewrite Hp. cbn [with_targets dn_targets dn_class]. match goal with |- context [Evaluate (Some p) ?x] => set (r := x) end.
  unfold verdict. cbn [v_Effect v_RuleID v_Targets Forward dn_dec with_decision dn_targets with_targets].
  intros He Hne. exists r. destruct (mem (d_Effect (Evaluate (Some p) r)) [Allow; Hold; Deny]) eqn:Hm; [|congruence]. split_and!; [done|done|done|].
  intros ->. rewrite He. cbn [String.eqb andb]. rewrite String.eqb_refl. cbn [andb]. destruct (List.find _ _) as [o|] eqn:Hf; [|done]. intros _.
  apply List.find_some in Hf as [Hin Hnf]. exists o. split; [by apply list_elem_of_In|]. by apply negb_true_iff.
Qed.

(** the operator is told at start of everything the policy asks that is
    not done.  The warnings name an obligation exactly when an allow rule of
    the policy carries it; a call the gate then allows but does not run is one
    whose rule was named in the warning about an obligation that cannot be met;
    a call it holds is one whose rule was named in the warning about holds; and
    a target no inventory resolves passes only when the warning about
    unknown_target: allow was given. *)
Theorem policyWarnings_cover `{Unicode, GoFloat} decode b pol file :
  policy_Parse decode b = Ok pol →
  (∀ o, (∃ w, w ∈ policyWarnings pol file ∧ ("obligation", LStr o) ∈ wl_attrs w) ↔ ∃ r, r ∈ Rules pol ∧ rule_Effect r = Allow ∧ o ∈ rule_Obligations r) ∧
  ∀ g ci, g_policy g = Some pol →
    (v_Effect (Decide g ci) = Allow → Forward (Decide g ci) = false → ∃ o ids, forwardable o = false ∧ v_RuleID (Decide g ci) ∈ ids ∧
       {| wl_msg := cannotMeetWarning; wl_attrs := [("obligation", LStr o); ("rules", LStr (join "," ids))] |} ∈ policyWarnings pol file) ∧
    (v_Effect (Decide g ci) = Hold → ∃ ids, v_RuleID (Decide g ci) ∈ ids ∧
       {| wl_msg := holdWarning; wl_attrs := [("rules", LStr (join "," ids))] |} ∈ policyWarnings pol file) ∧
    (v_Effect (Decide g ci) ≠ Deny → ∀ t, t ∈ v_Targets (Decide g ci) → Known_name (g_inventory g) t = None →
       {| wl_msg := unknownTargetAllowWarning; wl_attrs := [("policy", LStr file)] |} ∈ policyWarnings pol file).
Proof.
  intros Hparse.
  assert (Hknown : ∀ r o, r ∈ Rules pol → o ∈ rule_Obligations r → o ∈ KnownObligations).
  { unfold policy_Parse in Hparse. destruct (decode b) as [p|]; [|done]. destruct (policy_Validate p) eqn:Hv; [done|]. apply policy_Validate_correct in Hv as (_ & _ & _ & _ & _ & _ & _ & Hall).
    assert (Rules pol = Rules p) as -> by (destruct (String.eqb _ _) in Hparse; by injection Hparse as <-). intros r o Hr Ho. by apply (rule_obligations_ok r (Hall r Hr)). }
  split.
  - intros o. split.
    + intros (w & Hw & Ha). unfold policyWarnings in Hw. apply elem_of_app in Hw as [Hw|[Hw|Hw]%elem_of_app].
      * destruct (String.eqb _ _); [|by apply not_elem_of_nil in Hw]. apply list_elem_of_singleton in Hw as ->. cbn in Ha. set_solver.
      * apply list_elem_of_In, in_flat_map in Hw as (o' & _ & Hw). apply list_elem_of_In in Hw. unfold obligation_warning in Hw.
        destruct (Nat.eqb_spec (List.length (rulesUsing pol o')) 0) as [|Hne]; [by apply not_elem_of_nil in Hw|].
        assert (o = o') as ->.
        { destruct (carriedUntil o'); apply list_elem_of_singleton in Hw as ->; cbn in Ha; set_unfold in Ha; naive_solver. }
        destruct (rulesUsing pol o') as [|x l] eqn:Hx; [done|]. destruct (proj1 (proj2 (rulesUsing_spec pol o') x)) as (r & Hr & He & Ho & _); [rewrite Hx; by left|]. by exists r.
      * destruct (_ =? _)%nat; [by apply not_elem_of_nil in Hw|]. apply list_elem_of_singleton in Hw as ->. cbn in Ha. set_solver.
    + intros (r & Hr & He & Ho). pose proof (proj2 (proj2 (rulesUsing_spec pol o) (ID r)) (ex_intro _ r (conj Hr (conj He (conj Ho eq_refl))))) as Hin.
      assert (Hw : ∃ w, w ∈ obligation_warning pol o ∧ ("obligation", LStr o) ∈ wl_attrs w).
      { unfold obligation_warning. destruct (rulesUsing pol o) as [|x l]; [by apply not_elem_of_nil in Hin|]. cbn [List.length Nat.eqb].
        destruct (carriedUntil o); (eexists; split; [apply list_elem_of_singleton; reflexivity|]; cbn; left). }
      destruct Hw as (w & Hw & Ha). exists w. split; [|done]. by apply (obligation_warning_in pol file o); [apply (Hknown r o)|].
  - intros g ci Hg. split_and!.
    + intros He Hf. destruct (verdict_decided g ci pol Allow Hg He ltac:(done)) as (r & Hd & Hid & _ & Hun). destruct (Hun eq_refl Hf) as (o & Ho & Hnf).
      destruct (decided_rule pol r Allow Hd ltac:(done)) as (rule & Hr & Hre & Hri & Hro & _). rewrite Hro in Ho. exists o, (rulesUsing pol o).
      assert (Hin : ID rule ∈ rulesUsing pol o) by (apply (proj2 (rulesUsing_spec pol o)); by exists rule).
      split; [done|]. rewrite Hid, Hri. split; [done|]. apply (obligation_warning_in pol file o); [by apply (Hknown rule o)|]. unfold obligation_warning.
      rewrite (carried_forwardable o Hnf). destruct (rulesUsing pol o); [by apply not_elem_of_nil in Hin|]. cbn. by left.
    + intros He. destruct (verdict_decided g ci pol Hold Hg He ltac:(done)) as (r & Hd & Hid & _ & _).
      destruct (decided_rule pol r Hold Hd ltac:(done)) as (rule & Hr & Hre & Hri & _). exists (holding pol). rewrite Hid, Hri.
      assert (Hin : ID rule ∈ holding pol).
      { unfold holding. apply list_elem_of_fmap_2, list_elem_of_In, filter_In. split; [by apply list_elem_of_In|]. rewrite Hre. apply String.eqb_refl. }
      split; [done|]. unfold policyWarnings. apply elem_of_app. right. apply elem_of_app. right. destruct (holding pol); [by apply not_elem_of_nil in Hin|]. by left.
    + intros Hne t Ht Hk. destruct (verdict_decided g ci pol _ Hg eq_refl Hne) as (r & Hd & _ & Htg & _).
      destruct (decided_rule pol r _ Hd Hne) as (rule & _ & _ & _ & _ & [Hall|Ha]).
      * exfalso. assert (Hin : resolve g t ∈ req_Targets r) by (rewrite Htg; by apply list_elem_of_fmap_2). apply Hall in Hin. apply resolve_known in Hin as [? Hx]. congruence.
      * unfold policyWarnings. rewrite Ha, String.eqb_refl. by left.
Qed.

Definition careful_policy : Policy :=
  {| Version := 1; policy_Defaults := policy_Defaults sample_policy;
     Rules := [ {| ID := "reads";
        rule_Match := {| m_Class := [ReadOperational]; DeviceRoles := []; DeviceTags := []; m_Tools := []; Servers := [] |};
        rule_When := None; rule_Effect := Allow; rule_Reason := ""; rule_Obligations := ["dry_run"]; rule_Approval := None |} ] |}.

Definition careful_gate : Gate := {| g_policy := Some careful_policy; g_profiles := {[ "srv" := sample_profile ]}; g_inventory := Some sample_inventory |}.

Definition careful_call : CallInfo := sample_call (show_call "show version") None.

Lemma policyWarnings_cover_witness :
  ∃ (HU : Unicode) (HF : GoFloat),
    v_Effect (Decide careful_gate careful_call) = Allow ∧ Forward (Decide careful_gate careful_call) = false ∧
    ∃ o (ids : list string), forwardable o = false ∧ v_RuleID (Decide careful_gate careful_call) ∈ ids.
Proof.
  exists ascii_tables, plain_floats.
  assert (Hp : @policy_Parse ascii_tables (λ _, Some careful_policy) "" = Ok careful_policy) by (vm_compute; reflexivity).
  assert (He : v_Effect (@Decide ascii_tables plain_floats careful_gate careful_call) = Allow) by (vm_compute; reflexivity).
  assert (Hf : Forward (@Decide ascii_tables plain_floats careful_gate careful_call) = false) by (vm_compute; reflexivity).
  split; [exact He|]. split; [exact Hf|].
  destruct (@policyWarnings_cover ascii_tables plain_floats (λ _, Some careful_policy) "" careful_policy "p.yaml" Hp) as [_ H].
  destruct (proj1 (H careful_gate careful_call eq_refl) He Hf) as (o & ids & H1 & H2 & _). exists o, ids. exact (conj H1 H2).
Defined.

Example ex_ext : map Ext ["/a.b/inv.CSV"; "inv"; "a/b.c/d"; ".csv"] = [".CSV"; ""; ""; ".csv"] ∧
  equal_fold ".CSV" ".csv" = true ∧ equal_fold ".csvx" ".csv" = false.
Proof. vm_compute. done. Qed.
