(* ===== verification/PolicyEval.v ===== *)
(** * The policy eval command: cmd/fathomgate/policy.go

    [cmdPolicyEval] decides one synthetic call: with --class and --target the
    class and the targets as given, with --profile the arguments through the
    gate, [evalGate].  Reading and decoding files are parameters; the flags come
    parsed; what is printed is the record [evaluated].

    [eval_as_serve]: with a profile the answer is the verdict serve's gate gives
    that call, and [class_eval_as_gate]: without one it is the decision of every
    call the gate classes and resolves that way.  [args_reach_gate]: the gate
    reads of --arg flags exactly the map they spell. *)

From S2P Require Import Prelude GoStd GoCrypto Termsafe Json JsonMarshal ToolClass Command ServerProfile Values Classifier Policy Evaluate Inventory GateArgs GateText Gate Flags ServeArgs Pipeline.

Open Scope string_scope.
Open Scope Z_scope.
Open Scope list_scope.

(** ** Exit codes *)

Definition effectExit (e : Effect) : Z :=
  if String.eqb e Allow then exitOK else if String.eqb e Hold then exitHold else exitFail.

(** ** Arguments *)

(** The value of one --arg flag: an array where it has commas. *)
Definition arg_value (v : string) : any :=
  if contains v "," then AArr (map (λ part, AStr (trim_space part)) (split_b "," v)) else AStr v.

(** [parseArgs]. *)
Definition parseArgs (kv : list string) : gmap string any :=
  foldl (λ out pair, match cut_b "=" pair with Some (k, v) => <[k := arg_value v]> out | None => out end) ∅ kv.

(** [json.Marshal] of a map: its entries by key. *)
Definition entries_of (m : gmap string any) : list (string * any) := omap (λ k, (λ v, (k, v)) <$> m !! k) (sortedKeys m).
Definition marshal_map (m : gmap string any) : string := marshal (AObj (entries_of m)).

(** ** The command *)

(** The flags of policy eval. *)
Record evalFlags := {
  ef_policy : string; ef_inventory : string; ef_profile : string; ef_server : string; ef_tool : string; ef_class : string;
  ef_targets : list string; ef_args : list string; ef_argsJSON : string; ef_touched : Z; ef_pending : Z; ef_json : bool;
}.

Inductive eval_error :=
  | EvalNoPolicy | EvalPolicy (e : policy_load_error) | EvalCSV | EvalInventoryRead (e : string) | EvalInventory (e : file_error)
  | EvalClassWithProfile | EvalBothArgs | EvalNoTool | EvalProfile (e : set_error) | EvalServer (server : string)
  | EvalGate (e : gate_error) | EvalArgsWithoutProfile | EvalNoClass | EvalBadClass.

(** [evalCall]. *)
Record evalCall := {
  ec_profile : string; ec_server : string; ec_tool : string; ec_kvArgs : list string; ec_argsJSON : string;
  ec_session : SessionCounters; ec_asJSON : bool;
}.

(** [gateView]. *)
Record gateView := {
  gv_ClassSource : string; gv_Forwarded : bool; gv_ToolError : string; gv_ParseError : string;
  gv_UnnamedArgs : list string; gv_MalformedArgs : list string;
}.

(** What is printed and returned: the request and decision, for --profile the
    gate's fields and the note on the class, and the exit code. *)
Record evaluated := {
  ev_Request : Request; ev_Decision : Decision; ev_Gate : option gateView; ev_ClassNote : string; ev_exit : Z;
}.

(** filepath.Base on Unix. *)
Definition Base (path : string) : string :=
  if String.eqb path "" then "."
  else
    let t := trim_right (Ascii.eqb "/") path in
    if String.eqb t "" then "/" else List.last (split_b "/" t) "".

Section Eval.
Context `{Unicode, GoFloat} (compile : string → option (string → bool)).
Context (read_config : string → result string string) (read_policy : string → option string).
Context (decode_profile : string → option Profile) (decode_policy : string → option Policy) (decode_inventory : string → option File).

(** [ProfileFileAt]. *)
Definition ProfileFileAt (path : string) : result set_error ProfileFile :=
  match read_config path with
  | Err e => Err (SetRead path e)
  | Ok b =>
      match ParseProfile decode_profile b with
      | Err e => Err (SetParse path e)
      | Ok p =>
          let name := Base path in
          let want := (Server p ++ ".yaml")%string in
          if negb (String.eqb name want) then Err (SetNamed path (Server p) want)
          else Ok {| pfl_Name := name; pfl_Sum := sha256 b; pfl_Profile := p |}
      end
  end.

(** The inventory of the command: [None] without --inventory. *)
Definition eval_inventory (path : string) : result eval_error (option Resolver) :=
  if String.eqb path "" then Ok None
  else if equal_fold (Ext path) ".csv" then Err EvalCSV
  else match read_config path with
  | Err e => Err (EvalInventoryRead e)
  | Ok b =>
      match ParseFile decode_inventory b with
      | Err e => Err (EvalInventory e)
      | Ok f =>
          match File_Chain compile f with
          | Err e => Err (EvalInventory e)
          | Ok chain => Ok (Some (Chain_Resolve chain))
          end
      end
  end.

(** The call [evalGate] decides. *)
Definition eval_call (server tool raw : string) (s : SessionCounters) : CallInfo :=
  {| in_Server := server; in_Tool := tool; in_Arguments := raw; ReadOnlyHint := None; DestructiveHint := None;
     AgentProtocol := ""; AgentEra := ""; UpstreamProtocol := ""; UpstreamEra := ""; Transport := ""; Principal := ""; SessionID := "";
     in_DevicesTouched := DevicesTouched s; in_PendingHolds := PendingHolds s; Counted := None |}.

Definition raw_arguments (c : evalCall) : string :=
  if String.eqb (ec_argsJSON c) "" then marshal_map (parseArgs (ec_kvArgs c)) else ec_argsJSON c.

Definition evalGate (p : Policy) (resolver : option Resolver) (c : evalCall) : result eval_error evaluated :=
  match ProfileFileAt (ec_profile c) with
  | Err e => Err (EvalProfile e)
  | Ok pf =>
      let prof := pfl_Profile pf in
      if negb (String.eqb (ec_server c) "") && negb (String.eqb (ec_server c) (Server prof)) then Err (EvalServer (Server prof))
      else
        match Gate.New {| cfg_Policy := Some p; cfg_Profiles := {[ Server prof := Some prof ]}; cfg_Inventory := resolver |} with
        | Err e => Err (EvalGate e)
        | Ok g =>
            let ex := Explain g (eval_call (Server prof) (ec_tool c) (raw_arguments c) (ec_session c)) in
            let v := ex_Verdict ex in
            Ok {| ev_Request := {| req_Server := Server prof; req_Tool := ec_tool c; req_Class := v_Class v; req_Targets := ex_Targets ex; req_Session := ec_session c |};
                  ev_Decision := ex_Decision ex;
                  ev_Gate := Some {| gv_ClassSource := v_ClassSource v; gv_Forwarded := Forward v; gv_ToolError := v_Error v;
                    gv_ParseError := ex_ParseError ex; gv_UnnamedArgs := ex_Unnamed ex; gv_MalformedArgs := ex_Malformed ex |};
                  ev_ClassNote := if String.eqb (ex_ClassNote ex) "" then "" else (" (profile " ++ ex_ProfileClass ex ++ "; " ++ ex_ClassNote ex ++ ")")%string;
                  ev_exit := effectExit (d_Effect (ex_Decision ex)) |}
        end
  end.

(** A target of a class-given request. *)
Definition eval_target (r : Resolver) (name : string) : Target :=
  match Known_name (Some r) name with
  | Some t => {| t_Name := name; t_Role := i_Role t; t_Tags := i_Tags t; t_Site := i_Site t; t_Known := true |}
  | None => {| t_Name := name; t_Role := ""; t_Tags := []; t_Site := ""; t_Known := false |}
  end.

Definition bad_names_decision (bad : list string) : Decision :=
  {| d_Effect := Deny; d_RuleID := RuleBadArguments; d_Reason := reasonBadTarget; d_Obligations := []; d_Approval := None;
     Trace := [ {| te_RuleID := RuleBadArguments; Matched := true; Note := ("not a hostname or IP address: " ++ join ", " bad)%string |} ] |}.

(** The end of cmdPolicyEval, for a class and targets as given. *)
Definition evalClass (p : Policy) (resolver : option Resolver) (f : evalFlags) (c : Class) : evaluated :=
  let r := default (Chain_Resolve {| Authorities := []; Enrichers := [] |}) resolver in
  let req := {| req_Server := ef_server f; req_Tool := ef_tool f; req_Class := c; req_Targets := map (eval_target r) (ef_targets f);
                req_Session := {| DevicesTouched := ef_touched f; PendingHolds := ef_pending f |} |} in
  let bad := map quote_to_ascii (List.filter (λ n, negb (validTargetName n)) (ef_targets f)) in
  let d := if (0 <? List.length bad)%nat then bad_names_decision bad else Evaluate (Some p) req in
  {| ev_Request := req; ev_Decision := d; ev_Gate := None; ev_ClassNote := ""; ev_exit := effectExit (d_Effect d) |}.

(** [cmdPolicyEval] after the flags are parsed; an error is printed and the
    exit code is [exitUsage]. *)
Definition cmdPolicyEval (f : evalFlags) : result eval_error evaluated :=
  if String.eqb (ef_policy f) "" then Err EvalNoPolicy
  else match policy_Load decode_policy read_policy (ef_policy f) with
  | Err e => Err (EvalPolicy e)
  | Ok p =>
      match eval_inventory (ef_inventory f) with
      | Err e => Err e
      | Ok resolver =>
          let given_args := (0 <? List.length (ef_args f))%nat in
          let given_json := negb (String.eqb (ef_argsJSON f) "") in
          if negb (String.eqb (ef_profile f) "") then
            if negb (String.eqb (ef_class f) "") || (0 <? List.length (ef_targets f))%nat then Err EvalClassWithProfile
            else if given_json && given_args then Err EvalBothArgs
            else if String.eqb (ef_tool f) "" then Err EvalNoTool
            else evalGate p resolver
              {| ec_profile := ef_profile f; ec_server := ef_server f; ec_tool := ef_tool f; ec_kvArgs := ef_args f; ec_argsJSON := ef_argsJSON f;
                 ec_session := {| DevicesTouched := ef_touched f; PendingHolds := ef_pending f |}; ec_asJSON := ef_json f |}
          else if given_args || given_json then Err EvalArgsWithoutProfile
          else if String.eqb (ef_class f) "" then Err EvalNoClass
          else match parse_class (ef_class f) with
          | None => Err EvalBadClass
          | Some c => Ok (evalClass p resolver f c)
          end
      end
  end.

Definition exit_of (r : result eval_error evaluated) : Z := match r with Ok e => ev_exit e | Err _ => exitUsage end.
End Eval.

(** ** What the gate reads of --arg *)

Lemma obj_get_in l k v : obj_get l k = Some v → (k, v) ∈ l.
Proof.
  unfold obj_get. destruct (List.find _ l) as [[k' v']|] eqn:E; [|done]. intros [= <-].
  apply List.find_some in E as [Hin Hk%String.eqb_eq]. cbn in Hk. subst k'. by apply list_elem_of_In.
Qed.

Lemma obj_get_some l k v : (k, v) ∈ l → is_Some (obj_get l k).
Proof.
  intros Hin%list_elem_of_In. unfold obj_get. destruct (List.find _ l) as [[k' v']|] eqn:E; [by eexists|].
  pose proof (List.find_none _ _ E _ Hin) as Hn. cbn in Hn. by rewrite String.eqb_refl in Hn.
Qed.

Lemma lookup_obj_get (l : list (string * any)) k : (list_to_map l : gmap string any) !! k = obj_get l k.
Proof.
  unfold obj_get. induction l as [|[k' v'] l IH]; [done|].
  change (list_to_map ((k', v') :: l) : gmap string any) with (<[k' := v']> (list_to_map l : gmap string any)).
  cbn [List.find fst]. destruct (String.eqb_spec k' k) as [->|Hne]; [by rewrite lookup_insert_eq|].
  rewrite lookup_insert_ne by done. apply IH.
Qed.

Lemma elem_of_entries m k v : (k, v) ∈ entries_of m ↔ m !! k = Some v.
Proof.
  unfold entries_of. rewrite list_elem_of_omap. split.
  - intros (k' & _ & (w & Hw & [= -> ->])%fmap_Some). done.
  - intros Hm. exists k. split; [apply elem_of_sortedKeys; by eexists|]. by rewrite Hm.
Qed.

Lemma elem_of_rev_list {A} (x : A) l : x ∈ rev l ↔ x ∈ l.
Proof. rewrite !list_elem_of_In. symmetry. apply in_rev. Qed.

Lemma entries_map m : (list_to_map (set_all [] (entries_of m)) : gmap string any) = m.
Proof.
  apply map_eq. intros k. rewrite lookup_obj_get, obj_get_set_all. destruct (m !! k) as [v|] eqn:Em.
  - apply elem_of_entries in Em as Hin. rewrite <- elem_of_rev_list in Hin. destruct (obj_get_some _ _ _ Hin) as [w Hw]. rewrite Hw.
    apply obj_get_in in Hw. rewrite elem_of_rev_list in Hw. apply elem_of_entries in Hw. congruence.
  - destruct (obj_get (rev (entries_of m)) k) as [w|] eqn:Ew; [|done].
    apply obj_get_in in Ew. rewrite elem_of_rev_list in Ew. apply elem_of_entries in Ew. congruence.
Qed.

Lemma entries_nodup m : NoDup (map fst (entries_of m)).
Proof.
  assert (Hsub : ∀ ks, NoDup ks → NoDup (map fst (omap (λ k, (λ v, (k, v)) <$> m !! k) ks)) ∧
      ∀ k, k ∈ map fst (omap (λ k, (λ v, (k, v)) <$> m !! k) ks) → k ∈ ks).
  { induction 1 as [|k ks Hk Hnd [IH1 IH2]]; [split; [constructor|done]|]. cbn [omap list_omap].
    destruct (m !! k) as [v|]; cbn [fmap option_fmap option_map map fst].
    - split; [constructor; [intros ?%IH2; done|done]|]. intros x [->|?%IH2]%elem_of_cons; [by left|by right].
    - split; [done|]. intros x ?%IH2. by right. }
  apply Hsub. unfold sortedKeys. rewrite sort_strings_perm. apply NoDup_fst_map_to_list.
Qed.

(** A value --arg spells, in valid UTF-8. *)
Definition flag_value (v : any) : bool :=
  match v with
  | AStr s => valid_utf8 s
  | AArr l => forallb (λ e, match e with AStr s => valid_utf8 s | _ => false end) l
  | _ => false
  end.

Lemma flag_value_good `{GoFloat} v : flag_value v = true →
  coerced v = v ∧ wf_json float_in_range v = true ∧ numbers_ok v = true ∧ (depth v <= 1)%nat.
Proof.
  destruct v as [| | |s| |l|]; cbn [flag_value]; try done.
  - intros Hv. cbn [coerced wf_json numbers_ok depth]. rewrite coerce_utf8_valid by done. split_and!; [done..|lia].
  - intros Hl. cbn [coerced wf_json numbers_ok depth].
    assert (Hall : ∀ e, e ∈ l → coerced e = e ∧ wf_json float_in_range e = true ∧ numbers_ok e = true ∧ depth e = 0%nat).
    { intros e He. rewrite forallb_elem in Hl. specialize (Hl e He). destruct e as [| | |s| | |]; try done.
      cbn [coerced wf_json numbers_ok depth]. by rewrite coerce_utf8_valid. }
    split_and!.
    + f_equal. apply map_id_on. intros e He. by apply Hall.
    + apply forallb_elem. intros e He. by apply Hall.
    + apply forallb_elem. intros e He. by apply Hall.
    + assert (Hz : foldr (λ x n, Nat.max (depth x) n) 0%nat l = 0%nat); [|lia].
      clear Hl. induction l as [|e l IH]; [done|]. cbn. rewrite IH by (intros x Hx; apply Hall; by right).
      destruct (Hall e) as (_ & _ & _ & ->); [by left|done].
Qed.

Lemma parse_marshal_map `{GoFloat} m :
  (∀ k v, m !! k = Some v → valid_utf8 k = true ∧ flag_value v = true) →
  ∃ es, parseArguments (marshal_map m) = Ok es ∧ list_to_map es = m.
Proof.
  intros Hm. set (es := entries_of m).
  assert (He : ∀ e, e ∈ es → valid_utf8 (fst e) = true ∧ flag_value (snd e) = true).
  { intros [k v] Hin. apply elem_of_entries in Hin. by apply Hm. }
  assert (Hw : wf_entries float_in_range es = true).
  { unfold wf_entries. apply forallb_elem. intros e Hin. destruct (He e Hin) as [-> Hv]. by apply flag_value_good in Hv as (_ & -> & _). }
  assert (Hn : numbers_ok (AObj es) = true).
  { cbn [numbers_ok]. apply forallb_elem. intros e Hin. destruct (He e Hin) as [_ Hv]. by apply flag_value_good in Hv as (_ & _ & -> & _). }
  assert (Hc : coerced (AObj es) = AObj es).
  { cbn [coerced]. f_equal. apply map_id_on. intros [k v] Hin. destruct (He _ Hin) as [Hk Hv]. cbn [fst snd] in *.
    apply flag_value_good in Hv as (-> & _). by rewrite coerce_utf8_valid. }
  exists (set_all [] es). split; [|apply entries_map].
  assert (Ht : tokens (marshal_map m) = tokens (object_text es)).
  { rewrite (tokens_object _ _ Hw). unfold marshal_map, tokens. fold es.
    rewrite <- (app_nil_r_str (marshal (AObj es))), lex_marshal by (done || by left). rewrite Hc. cbn [toks lex].
    unfold entry_toks. by rewrite app_nil_r. }
  transitivity (parseArguments (object_text es)).
  - unfold parseArguments. change (marshal_map m) with (marshal (AObj es)) in Ht |- *.
    rewrite (trim_object_text _ _ Hw), (trim_marshal_object es Hn), Ht.
    assert (Hu1 : valid_utf8 (marshal (AObj es)) = true) by (by apply marshal_clean, andb_prop in Hn as [? _]).
    assert (Hu2 : valid_utf8 (object_text es) = true).
    { unfold object_text. apply valid_utf8_app; [done|]. apply valid_utf8_app; [|done]. by eapply object_text_valid. }
    rewrite Hu1, Hu2. done.
  - rewrite parse_object_text; [|done|].
    + by rewrite decide_True by apply entries_nodup.
    + intros e Hin. destruct (He e Hin) as [_ Hv]. apply flag_value_good in Hv as (_ & _ & _ & Hd).
      etrans; [exact Hd|]. apply Nat.leb_le. by vm_compute.
Qed.

(** ** --arg flags in valid UTF-8 *)

Lemma valid_utf8_app_start a d u : bz d < 128 → valid_utf8 (a ++ String d u) = true →
  valid_utf8 a = true ∧ valid_utf8 (String d u) = true.
Proof.
  intros Hd. unfold valid_utf8. rewrite runes_app_start by (unfold rune_start, in_range; pose proof (bz_range d); lia).
  rewrite forallb_app. by intros [? ?]%andb_prop.
Qed.

Lemma valid_utf8_tail d u : bz d < 128 → valid_utf8 (String d u) = true → valid_utf8 u = true.
Proof. intros Hd. unfold valid_utf8. rewrite runes_cons_ascii by done. by intros [_ ?]%andb_prop. Qed.

Lemma cut_b_valid c s a b : bz c < 128 → valid_utf8 s = true → cut_b c s = Some (a, b) →
  valid_utf8 a = true ∧ valid_utf8 b = true.
Proof.
  intros Hc Hs Hcut. pose proof (cut_b_spec c s) as Hsp. rewrite Hcut in Hsp. destruct Hsp as [-> _].
  apply valid_utf8_app_start in Hs as [? Hs]; [|done]. by apply valid_utf8_tail in Hs.
Qed.

Lemma split_b_valid c s : bz c < 128 → valid_utf8 s = true → ∀ w, w ∈ split_b c s → valid_utf8 w = true.
Proof.
  intros Hc. remember (String.length s) as n eqn:En. revert s En.
  induction (lt_wf n) as [n _ IH]. intros s -> Hs w Hw.
  destruct (cut_b c s) as [[a b]|] eqn:E.
  - pose proof (cut_b_spec c s) as Hsp. rewrite E in Hsp. destruct Hsp as [-> Ha].
    destruct (cut_b_valid _ _ _ _ Hc Hs E) as [H1 H2]. rewrite split_b_app_sep in Hw. apply elem_of_app in Hw as [Hw|Hw].
    + rewrite split_b_none in Hw by done. apply list_elem_of_singleton in Hw as ->. done.
    + eapply (IH (String.length b)); [|done|done|done]. rewrite length_app_str. cbn. lia.
  - pose proof (cut_b_spec c s) as Hsp. rewrite E in Hsp. rewrite split_b_none in Hw by done.
    apply list_elem_of_singleton in Hw as ->. done.
Qed.

Lemma trim_space_valid s : valid_utf8 s = true → valid_utf8 (trim_space s) = true.
Proof.
  intros Hs. rewrite valid_utf8_spec in Hs. unfold trim_space. apply valid_utf8_concat.
  intros x (p & -> & Hp)%list_elem_of_fmap. apply valid_utf8_piece with (s := s).
  all: assert (Hin : p ∈ runes s).
  1,3: destruct (drop_spaces_suffix (runes s)) as [l1 E1], (drop_spaces_suffix (rev (drop_spaces (runes s)))) as [l2 E2];
    rewrite elem_of_rev_list in Hp; rewrite E1; apply elem_of_app; right; rewrite <- elem_of_rev_list, E2; apply elem_of_app; by right.
  - done.
  - by apply Hs.
Qed.

(** The arguments of --arg flags reach the gate as the map they spell:
    for flags in valid UTF-8, each KEY=VALUE with the last of a repeated key
    winning and a value with commas as the array of its trimmed parts, the
    gate's parser reads of the JSON text that is built exactly that map. *)
Theorem args_reach_gate `{GoFloat} kv :
  (∀ x, x ∈ kv → valid_utf8 x = true) →
  ∃ es, parseArguments (marshal_map (parseArgs kv)) = Ok es ∧ list_to_map es = parseArgs kv.
Proof.
  intros Hkv. apply parse_marshal_map. unfold parseArgs.
  assert (Hgo : ∀ m : gmap string any, (∀ k v, m !! k = Some v → valid_utf8 k = true ∧ flag_value v = true) →
    ∀ k v, foldl (λ out pair, match cut_b "=" pair with Some (k, v) => <[k := arg_value v]> out | None => out end) m kv !! k = Some v →
    valid_utf8 k = true ∧ flag_value v = true).
  2: { apply Hgo. intros k v. by rewrite lookup_empty. }
  induction kv as [|x kv IH]; intros m Hm; [done|]. cbn [foldl]. apply IH.
  { intros y Hy. apply Hkv. by right. }
  destruct (cut_b "=" x) as [[k v]|] eqn:E; [|done].
  destruct (cut_b_valid "=" x k v) as [Hk Hv]; [done|apply Hkv; by left|done|].
  intros k' v'. rewrite lookup_insert_Some. intros [[<- <-]|[_ Hl]]; [split; [done|]|by eapply Hm].
  unfold arg_value. destruct (contains v ","); [|done]. cbn [flag_value]. apply forallb_elem.
  intros e (w & -> & Hw)%list_elem_of_fmap. apply trim_space_valid. by apply (split_b_valid "," v).
Qed.

Lemma args_reach_gate_witness : ∃ (HF : GoFloat) es,
  parseArguments (marshal_map (parseArgs ["host=old"; "host=core-1"; "names=a, b"; "bare"])) = Ok es ∧
  list_to_map es = parseArgs ["host=old"; "host=core-1"; "names=a, b"; "bare"].
Proof.
  exists plain_floats. apply (@args_reach_gate plain_floats). apply forallb_elem. vm_compute. reflexivity.
Defined.

(** ** Agreement with the gate serve runs *)

(** A gate's decision depends on its policy, its inventory and the profile of
    the call's server only. *)
Lemma gate_decide_ext `{Unicode, GoFloat} g g' ci :
  g_policy g = g_policy g' → g_inventory g = g_inventory g' →
  g_profiles g !! in_Server ci = g_profiles g' !! in_Server ci → gate_decide g ci = gate_decide g' ci.
Proof.
  intros Hp Hi Hs.
  assert (He : ∀ d, evaluate_call g ci d = evaluate_call g' ci d).
  { intros d. unfold evaluate_call. rewrite Hp. f_equal.
    - apply map_ext. intros n. unfold resolve. by rewrite Hi.
    - f_equal. f_equal. apply map_ext. intros n. unfold resolve. by rewrite Hi. }
  unfold gate_decide. rewrite Hs. repeat case_match; done.
Qed.

Lemma effectExit_verdict `{Unicode, GoFloat} ci d : effectExit (v_Effect (verdict ci d)) = effectExit (d_Effect (dn_dec d)).
Proof.
  unfold verdict. cbn [v_Effect]. unfold mem. case_bool_decide as Hin; [done|].
  unfold effectExit. destruct (String.eqb_spec (d_Effect (dn_dec d)) Allow) as [E|]; [rewrite E in Hin; set_solver|].
  destruct (String.eqb_spec (d_Effect (dn_dec d)) Hold) as [E|]; [rewrite E in Hin; set_solver|done].
Qed.

Section Agree.
Context `{Unicode, GoFloat} (compile : string → option (string → bool)).
Context (read_dir : string → result string (list dir_entry)) (read_profile : string → string → result string string).
Context (read_config : string → result string string) (read_policy : string → option string).
Context (decode_profile : string → option Profile) (decode_policy : string → option Policy) (decode_inventory : string → option File).

Notation serve := (loadPipeline compile read_dir read_profile decode_profile read_config decode_policy decode_inventory).
Notation eval := (cmdPolicyEval compile read_config read_policy decode_profile decode_policy decode_inventory).

Lemma eval_inventory_of path unknown policy r a w :
  inventory_of compile read_config decode_inventory path unknown policy = Ok (r, a, w) →
  eval_inventory compile read_config decode_inventory path = Ok r.
Proof. unfold inventory_of, eval_inventory. intros Hi. repeat case_match; simplify_eq; done. Qed.

(** What serve's gate was built from. *)
Lemma serve_gate pf server pl g :
  serve pf server = Ok pl → pl_gate pl = Some g →
  ∃ b p r, read_config (pf_policy pf) = Ok b ∧ policy_Parse decode_policy b = Ok p ∧
    eval_inventory compile read_config decode_inventory (pf_inventory pf) = Ok r ∧ g_policy g = Some p ∧ g_inventory g = r.
Proof.
  unfold loadPipeline. destruct (pf_noPolicy pf); [by intros [= <-]|].
  destruct (read_config (pf_policy pf)) as [b|]; [|done]. destruct (policy_Parse decode_policy b) as [p|] eqn:Ep; [|done].
  destruct (inventory_of _ _ _ _ _ _) as [[[r ia] iw]|] eqn:Ei; [|done]. apply eval_inventory_of in Ei.
  destruct (Profiles _ _ _ _) as [[set source]|]; [|done].
  destruct (profiles_of set source server) as [[m pa] pw] eqn:Eof.
  destruct (profiles_of_keyed _ _ _ _ _ _ Eof) as (Hk & _).
  destruct (Gate_New_keyed (Some p) m r Hk) as (g' & -> & G1 & G2 & G3). intros [= <-] [= <-].
  exists b, p, r. by rewrite G1, G3.
Qed.

Lemma Gate_New_one p prof r :
  ∃ g, Gate.New {| cfg_Policy := Some p; cfg_Profiles := {[ Server prof := Some prof ]}; cfg_Inventory := r |} = Ok g ∧
    g_policy g = Some p ∧ g_profiles g = {[ Server prof := prof ]} ∧ g_inventory g = r.
Proof.
  destruct (Gate_New_keyed (Some p) {[ Server prof := prof ]} r) as (g & E & H1 & H2 & H3).
  { intros n q. rewrite lookup_singleton_Some. by intros [<- <-]. }
  rewrite map_fmap_singleton in E. by exists g.
Qed.

End Agree.

(** *** A worked case: files found by their contents *)

Definition files_dir (dir : string) : result string (list dir_entry) := Ok [ {| de_name := "srv.yaml"; de_dir := false |} ].
Definition files_profile (dir name : string) : result string string := Ok name.
Definition files_config (path : string) : result string string := Ok path.
Definition files_policy (path : string) : option string := Some path.
Definition files_regexp (p : string) : option (string → bool) := None.
Definition served_flags : pipelineFlags := {| pf_policy := "p.yaml"; pf_inventory := ""; pf_profiles := ""; pf_noPolicy := false |}.
Definition eval_flags : evalFlags :=
  {| ef_policy := "p.yaml"; ef_inventory := ""; ef_profile := "dir/srv.yaml"; ef_server := ""; ef_tool := "show"; ef_class := "";
     ef_targets := []; ef_args := ["device=core-1"]; ef_argsJSON := ""; ef_touched := 0; ef_pending := 0; ef_json := false |}.

Definition served : result pipeline_error pipeline :=
  @loadPipeline ascii_tables files_regexp files_dir files_profile (λ _, Some sample_profile) files_config (λ _, Some careful_policy) (λ _, None) served_flags "srv".
Definition served_gate : Gate :=
  match served with Ok pl => default careful_gate (pl_gate pl) | Err _ => careful_gate end.
Definition evaluated_profile : result set_error ProfileFile := @ProfileFileAt ascii_tables files_config (λ _, Some sample_profile) "dir/srv.yaml".


(** Without a profile, a class and targets as the gate finds them get the
    decision the gate makes of any call it does not refuse before the policy. *)
Lemma class_eval_as_gate `{Unicode, GoFloat} g ci p :
  g_policy g = Some p →
  (∃ d reason, gate_decide g ci = refuse d reason) ∨
  ∀ f, let d := gate_decide g ci in
    ef_server f = in_Server ci → ef_tool f = in_Tool ci → ef_targets f = dn_targets d →
    ef_touched f = devicesTouched ci (dn_targets d) → ef_pending f = in_PendingHolds ci →
    ev_Decision (evalClass p (g_inventory g) f (dn_class d)) = dn_dec d ∧
    ev_exit (evalClass p (g_inventory g) f (dn_class d)) = effectExit (v_Effect (Decide g ci)).
Proof.
  intros Hp. destruct (gate_decide_cases g ci) as [Hr|(entries & names & _ & Hadm & E)]; [by left|right].
  intros f d Hs Ht Htg Hto Hpe. apply admissible_names in Hadm as (_ & Hv & _).
  assert (Hn : dn_targets d = names) by (unfold d; by rewrite E).
  assert (Hd : ev_Decision (evalClass p (g_inventory g) f (dn_class d)) = dn_dec d).
  { unfold evalClass. rewrite Htg, Hn.
    assert (Hbad : List.filter (λ n, negb (validTargetName n)) names = []).
    { clear -Hv. induction names as [|n names IH]; [done|]. cbn. rewrite (Hv n) by (by left). cbn. apply IH. intros t Hin. apply Hv. by right. }
    rewrite Hbad. cbn [map List.length Nat.ltb Nat.leb ev_Decision]. rewrite Hs, Ht, Hto, Hpe, Hn. unfold d. rewrite E.
    unfold evaluate_call. cbn [dn_dec with_decision dn_class dn_targets with_targets]. rewrite Hp. f_equal. f_equal.
    apply map_ext. intros n. unfold eval_target, resolve. by destruct (g_inventory g). }
  split; [done|]. unfold Decide. rewrite effectExit_verdict. fold d. rewrite <- Hd. done.
Qed.
