(* ===== verification/ServeRun.v ===== *)
(** * Running serve: cmd/fathomgate/serve.go and listen.go

    [serveBinding] composes what serve is made of: the command line (ServeArgs),
    the decision pipeline (Pipeline), the listener's sockets (Bind), the start of
    the upstream, the handler's options and tokens (Listener), and then the run
    over stdio or over the listener ([runListener]).  A run is the list of its
    effects, in order, and its exit code; what the operating system, go-sdk and
    net/http answer are parameters.

    [serve_lifecycle]: nothing is started before all that can refuse it was
    checked, and whatever was opened or started is closed at the end. *)

From S2P Require Import Prelude GoStd GoCrypto ToolClass ServerProfile Policy Inventory Gate Scrub Listener Bind ListenTokens ChildEnv Flags ServeArgs Pipeline.

Open Scope string_scope.
Open Scope Z_scope.
Open Scope list_scope.

(** In nanoseconds. *)
Definition shutdownGrace : Z := 5 * second.
Definition closeWait : Z := 5 * second.

(** ** Effects *)

Inductive effect :=
  | Warned (w : list warnLine)
  | Opened (lns : list bound_socket)
  | Closed (l : bound_socket)
  | Spawned (cmd : Command) (g : option Gate)
  | Serving (l : bound_socket)
  | Listening (l : bound_socket) (attrs : list (string * log_value))
  | OnStdio (attrs : list (string * log_value))
  | Shutdown (timeout : Z)          (* srv.Shutdown: the listeners close, the hook gives the grace and closes the proxy *)
  | Forced                          (* srv.Close *)
  | HookDone
  | ServeReturned
  | ProxyClosed
  | Printed.

(** What ends a listener's run. *)
Inductive ended := ContextDone | UpstreamGone | ListenerFailed (e : string).

(** The answers of the surroundings: [proxy.New], whether a handler was built
    for the proxy before, the run's end, Shutdown, and the error of [Run] with
    whether it is the context's. *)
Record surroundings := {
  an_new : result string unit; an_built : bool; an_end : ended; an_shutdown : option string; an_run : option (bool * string);
}.

(** ** HTTPHandler *)

Inductive handler_error := HandlerEnvironment | HandlerOptions (e : string) | HandlerTokens (e : string) | HandlerBuilt.

Definition zero_options : HTTPOptions :=
  {| MaxInFlight := 0; MaxInFlightPerPrincipal := 0; MaxSessions := 0; MaxSessionsPerPrincipal := 0; MaxCallsPerSession := 0;
     MaxCallsPerPrincipal := 0; SessionTimeout := 0; OrphanTTL := 0; WriteTimeout := 0; BodyReadTimeout := 0 |}.

(** [Proxy.HTTPHandler]: the resolved options and the digests of the tokens. *)
Definition HTTPHandler `{Unicode} (lookup : string → option string) (built : bool) (o : HTTPOptions) (tokens : list (string * string)) :
    result handler_error (HTTPOptions * list tokenEntry) :=
  match lookup "MCPGODEBUG" with
  | Some _ => Err HandlerEnvironment
  | None =>
      match resolved o with
      | Err e => Err (HandlerOptions e)
      | Ok o =>
          match checkTokens tokens with
          | Err e => Err (HandlerTokens e)
          | Ok entries => if built then Err HandlerBuilt else Ok (o, entries)
          end
      end
  end.

(** [checkListenEnvironment]. *)
Definition checkListenEnvironment (lookup : string → option string) : bool :=
  match lookup "MCPGODEBUG" with Some _ => false | None => true end.

Section Run.
Context `{Unicode} (lookup : string → option string).

(** The attributes of one listening line. *)
Definition listening_attrs (cfg : serveConfig) (pl : pipeline) : list (string * log_value) :=
  [("server", LStr (sc_server cfg)); ("principals", LStr (join "," (lt_names (sc_tokens cfg))))] ++
  (if (0 <? List.length (sc_passNames cfg))%nat then [("upstream_env_pass", LStr (join "," (sc_passNames cfg)))] else []) ++ pl_attrs pl.

(** [runListener]; [order] is the order Go visits the tokens in. *)
Definition runListener (a : surroundings) (order : list (string * string)) (cfg : serveConfig) (pl : pipeline) (lns : list bound_socket) : list effect * Z :=
  match HTTPHandler lookup (an_built a) zero_options order with
  | Err _ => (map Closed lns ++ [ProxyClosed; Printed], exitUsage)
  | Ok _ =>
      let started := map Serving lns ++ map (λ l, Listening l (listening_attrs cfg pl)) lns in
      let '(code, said, pending) :=
        match an_end a with
        | ContextDone => (exitOK, [], List.length lns)
        | UpstreamGone => (exitFail, [Printed], List.length lns)
        | ListenerFailed _ => (exitFail, [ServeReturned; Printed], (List.length lns - 1)%nat)
        end in
      (started ++ said ++ [Shutdown (shutdownGrace + closeWait)] ++ (match an_shutdown a with Some _ => [Forced] | None => [] end) ++
        [HookDone] ++ repeat ServeReturned pending ++ [ProxyClosed], code)
  end.

Context (read : string → result string string) (goos : string).
Context (compile : string → option (string → bool)).
Context (read_dir : string → result string (list dir_entry)) (read_profile : string → string → result string string).
Context (decode_profile : string → option Profile) (read_config : string → result string string).
Context (decode_policy : string → option Policy) (decode_inventory : string → option File).
Context (os : nat → ip → Z → result listen_error (option Z)) (hold : option (nat → Z → result string unit)).

Notation load := (loadPipeline compile read_dir read_profile decode_profile read_config decode_policy decode_inventory).

(** The upstream and what runs on it, with the listeners bound. *)
Definition serve_upstream (a : surroundings) (order : list (string * string)) (cfg : serveConfig) (pl : pipeline) (lns : list bound_socket) : list effect * Z :=
  let spawned := Spawned (serve_command cfg) (pl_gate pl) in
  match an_new a with
  | Err _ => (spawned :: map Closed lns ++ [Printed], exitFail)
  | Ok _ =>
      match sc_listen cfg with
      | Some _ => let '(tr, code) := runListener a order cfg pl lns in (spawned :: tr, code)
      | None =>
          let attrs := [("server", LStr (sc_server cfg))] ++
            (if (0 <? List.length (sc_passNames cfg))%nat then [("upstream_env_pass", LStr (join "," (sc_passNames cfg)))] else []) ++ pl_attrs pl in
          let failed := match an_run a with Some (canceled, _) => negb canceled | None => false end in
          (spawned :: OnStdio attrs :: ProxyClosed :: (if failed then [Printed] else []), if failed then exitFail else exitOK)
      end
  end.

(** [serveBinding]; [None] only if the binding loop does not end. *)
Definition serveBinding (a : surroundings) (order : list (string * string)) (args : list string) : option (list effect * Z) :=
  match parseServe read lookup goos args with
  | Err ErrHelp => Some ([], exitOK)
  | Err _ => Some ([Printed], exitUsage)
  | Ok cfg =>
      match load (sc_pipeline cfg) (sc_server cfg) with
      | Err _ => Some ([Printed], exitUsage)
      | Ok pl =>
          let warned := Warned (pl_warns pl) in
          match sc_listen cfg with
          | None => let '(tr, code) := serve_upstream a order cfg pl [] in Some (warned :: tr, code)
          | Some addr =>
              if negb (checkListenEnvironment lookup) then Some ([warned; Printed], exitUsage)
              else
                match bind_listener os hold addr with
                | None => None
                | Some (Err _, _) => Some ([warned; Printed], exitFail)
                | Some (Ok lns, _) =>
                    let '(tr, code) := serve_upstream a order cfg pl lns in Some (warned :: Opened lns :: tr, code)
                end
          end
      end
  end.
End Run.

(** ** What a run does *)

Definition opened (tr : list effect) : list bound_socket := flat_map (λ e, match e with Opened l => l | _ => [] end) tr.
Definition is_serving (e : effect) : bool := match e with Serving _ => true | _ => false end.
Definition is_returned (e : effect) : bool := match e with ServeReturned => true | _ => false end.
Definition tally (P : effect → bool) (tr : list effect) : nat := List.length (List.filter P tr).
Definition starts (tr : list effect) : Prop := ∃ cmd g, Spawned cmd g ∈ tr.

(** Every listener is closed by hand or served and shut down; every Serve has
    returned; the proxy is closed after all but a last message. *)
Definition cleaned (lns : list bound_socket) (tr : list effect) : Prop :=
  (∀ l, l ∈ lns → Closed l ∈ tr ∨ (Serving l ∈ tr ∧ ∃ t, Shutdown t ∈ tr)) ∧
  tally is_returned tr = tally is_serving tr.
Definition ends_closed (tr : list effect) : Prop := ∃ pre post, tr = pre ++ ProxyClosed :: post ∧ Forall (λ e, e = Printed) post.

Lemma tally_app P a b : tally P (a ++ b) = (tally P a + tally P b)%nat.
Proof. unfold tally. by rewrite List.filter_app, length_app. Qed.
Lemma tally_none P l : (∀ e, e ∈ l → P e = false) → tally P l = 0%nat.
Proof.
  intros Hl. unfold tally. induction l as [|e l IH]; [done|]. cbn. rewrite (Hl e) by (by left). apply IH. intros x Hx. apply Hl. by right.
Qed.
Lemma tally_map {A} P (f : A → effect) l : (∀ x, P (f x) = true) → tally P (map f l) = List.length l.
Proof. intros Hf. unfold tally. induction l as [|x l IH]; [done|]. cbn. rewrite Hf. cbn. by rewrite IH. Qed.
Lemma tally_map_none {A} P (f : A → effect) l : (∀ x, P (f x) = false) → tally P (map f l) = 0%nat.
Proof. intros Hf. apply tally_none. intros e (x & -> & _)%list_elem_of_fmap. apply Hf. Qed.
Lemma tally_repeat P e n : P e = true → tally P (repeat e n) = n.
Proof. intros He. unfold tally. induction n as [|n IH]; [done|]. cbn. rewrite He. cbn. by rewrite IH. Qed.
Lemma tally_repeat_none P e n : P e = false → tally P (repeat e n) = 0%nat.
Proof. intros He. apply tally_none. intros x Hx%list_elem_of_In%repeat_spec. by subst. Qed.

Lemma opened_app a b : opened (a ++ b) = opened a ++ opened b.
Proof. apply flat_map_app. Qed.

Lemma no_spawn_map {A} (f : A → effect) l cmd g : (∀ x, f x ≠ Spawned cmd g) → Spawned cmd g ∉ map f l.
Proof. intros Hf (x & E & _)%list_elem_of_fmap. by apply (Hf x). Qed.

Section RunProofs.
Context `{Unicode} (lookup : string → option string).
Notation run_listener := (runListener lookup).

Lemma runListener_spec a order cfg pl lns : lns ≠ [] →
  let '(tr, code) := run_listener a order cfg pl lns in
  cleaned lns tr ∧ ends_closed tr ∧ opened tr = [] ∧ ¬ starts tr ∧
  (Prelude.is_ok (HTTPHandler lookup (an_built a) zero_options order) = true → code ≠ exitUsage) ∧
  (code = exitOK ↔ Prelude.is_ok (HTTPHandler lookup (an_built a) zero_options order) = true ∧ an_end a = ContextDone).
Proof.
  intros Hne. unfold runListener. destruct (HTTPHandler _ _ _ _) as [o|e]; cbn [Prelude.is_ok].
  - destruct (match an_end a with ContextDone => _ | UpstreamGone => _ | ListenerFailed _ => _ end) as [[code said] pending] eqn:E.
    assert (Hsaid : said = [] ∨ said = [Printed] ∨ said = [ServeReturned; Printed]) by (destruct (an_end a); injection E as <- <- <-; auto).
    assert (Hcount : (tally is_returned said + pending)%nat = List.length lns ∧ tally is_serving said = 0%nat).
    { destruct (an_end a); injection E as <- <- <-; cbn; (split; [|done]); [done|done|]. destruct lns; [done|]. cbn. lia. }
    assert (Hcode : code ≠ exitUsage ∧ (code = exitOK ↔ an_end a = ContextDone)) by (destruct (an_end a); injection E as <- <- <-; split; try done).
    set (sh := match an_shutdown a with Some _ => [Forced] | None => [] end).
    assert (Hsh : sh = [] ∨ sh = [Forced]) by (unfold sh; destruct (an_shutdown a); auto).
    split_and!.
    + split.
      * intros l Hl. right. split; [|exists (shutdownGrace + closeWait)].
        -- apply elem_of_app. left. apply elem_of_app. left. by apply list_elem_of_fmap_2.
        -- rewrite !elem_of_app. right. right. left. by left.
      * rewrite !tally_app, (tally_map_none is_returned Serving), (tally_map_none is_returned (λ l, Listening l _)) by done.
        rewrite (tally_map is_serving Serving), (tally_map_none is_serving (λ l, Listening l _)) by done.
        rewrite tally_repeat, (tally_repeat_none is_serving ServeReturned) by done.
        assert (Hs0 : tally is_returned sh = 0%nat ∧ tally is_serving sh = 0%nat) by (by destruct Hsh as [-> | ->]).
        destruct Hs0 as [-> ->]. destruct Hcount as [Hc ->]. change (tally is_returned [Shutdown (shutdownGrace + closeWait)]) with 0%nat.
        change (tally is_returned [HookDone]) with 0%nat. change (tally is_returned [ProxyClosed]) with 0%nat.
        change (tally is_serving [Shutdown (shutdownGrace + closeWait)]) with 0%nat.
        change (tally is_serving [HookDone]) with 0%nat. change (tally is_serving [ProxyClosed]) with 0%nat. lia.
    + eexists _, []. split; [|done]. by rewrite !app_assoc.
    + rewrite !opened_app. assert (Hr : opened (repeat ServeReturned pending) = []) by (clear; by induction pending). rewrite Hr.
      assert (Hm : ∀ f : bound_socket → effect, (∀ l, opened [f l] = []) → opened (map f lns) = []).
      { intros f Hf. clear -Hf. induction lns as [|l lns IH]; [done|]. cbn [map]. change (f l :: map f lns) with ([f l] ++ map f lns). by rewrite opened_app, Hf, IH. }
      rewrite !Hm by done. by destruct Hsaid as [->|[-> | ->]], Hsh as [-> | ->].
    + intros (cmd & g & Hin). rewrite !elem_of_app in Hin.
      destruct Hin as [[Hin|Hin]|[Hin|[Hin|[Hin|[Hin|[Hin|Hin]]]]]].
      * by apply no_spawn_map in Hin.
      * by apply no_spawn_map in Hin.
      * destruct Hsaid as [->|[-> | ->]]; set_solver.
      * set_solver.
      * destruct Hsh as [-> | ->]; set_solver.
      * set_solver.
      * by apply list_elem_of_In, repeat_spec in Hin.
      * set_solver.
    + intros _. apply Hcode.
    + destruct Hcode as [_ Hc]. rewrite Hc. naive_solver.
  - split_and!.
    + split; [intros l Hl; left; apply elem_of_app; left; by apply list_elem_of_fmap_2|].
      rewrite !tally_app, !(tally_map_none _ Closed) by done. done.
    + exists (map Closed lns), [Printed]. split; [done|by repeat constructor].
    + rewrite opened_app. clear. induction lns as [|l lns IH]; [done|]. cbn. exact IH.
    + intros (cmd & g & [Hin|Hin]%elem_of_app); [by apply no_spawn_map in Hin|set_solver].
    + done.
    + naive_solver.
Qed.
End RunProofs.

Lemma bound_sockets os hold addr : ∃ r w, bind_listener os hold addr = Some (r, w) ∧
  ∀ lns, r = Ok lns → lns ≠ [] ∧ (∀ l, l ∈ lns → bd_host l = la_host addr ∨ bd_host l = other addr).
Proof.
  unfold bind_listener. pose proof (bindLoopback_spec os addr hold (Z.to_nat bindAttempts) 1 no_sockets) as Hb.
  destruct (bindLoopback os hold _ 1 addr no_sockets) as [[r w]|].
  - exists r, w. split; [done|]. intros lns ->. destruct Hb as (_ & port & Hp & _).
    + intros n Hn. by apply not_elem_of_nil in Hn.
    + done.
    + destruct Hp as (_ & i & _ & [(j & x & _ & _ & ->)|(j & x & _ & ->)]); (split; [done|]); intros l; rewrite !elem_of_cons, elem_of_nil; naive_solver.
  - exfalso. assert (Hx : Z.of_nat (Z.to_nat bindAttempts) + 1 <= bindAttempts); [|unfold bindAttempts in Hx; lia].
    apply Hb; [intros n Hn; by apply not_elem_of_nil in Hn|done].
Qed.

Lemma other_loopback a : loopback (la_host a) → loopback (other a).
Proof. unfold loopback, other. intros [-> | ->]; [by right|by left]. Qed.

Section ServeProofs.
Context `{Unicode} (lookup : string → option string) (read : string → result string string) (goos : string).
Context (compile : string → option (string → bool)).
Context (read_dir : string → result string (list dir_entry)) (read_profile : string → string → result string string).
Context (decode_profile : string → option Profile) (read_config : string → result string string).
Context (decode_policy : string → option Policy) (decode_inventory : string → option File).
Context (os : nat → ip → Z → result listen_error (option Z)) (hold : option (nat → Z → result string unit)).
Notation load := (loadPipeline compile read_dir read_profile decode_profile read_config decode_policy decode_inventory).
Notation run := (serveBinding lookup read goos compile read_dir read_profile decode_profile read_config decode_policy decode_inventory os hold).
Notation handled a order := (Prelude.is_ok (HTTPHandler lookup (an_built a) zero_options order)).

Lemma serve_upstream_spec a order cfg pl lns : (sc_listen cfg = None ↔ lns = []) →
  let '(tr, code) := serve_upstream lookup a order cfg pl lns in
  cleaned lns tr ∧ opened tr = [] ∧ (∃ post, tr = Spawned (serve_command cfg) (pl_gate pl) :: post ∧ ¬ starts post) ∧
  (an_new a = Ok tt → ends_closed tr) ∧ (sc_listen cfg = None ∨ handled a order = true → code ≠ exitUsage).
Proof.
  intros Hl. unfold serve_upstream. destruct (an_new a) as [[]|e].
  - destruct (sc_listen cfg) as [addr|] eqn:El.
    + assert (Hne : lns ≠ []) by (intros ->; destruct Hl as [_ Hl]; discriminate (Hl eq_refl)).
      pose proof (runListener_spec lookup a order cfg pl lns Hne) as Hr. destruct (runListener _ _ _ _ _ _) as [tr code].
      destruct Hr as ((H1 & H2) & (pre & post & -> & Hp) & H4 & H5 & H6 & _). split_and!.
      * split; [|cbn; exact H2]. intros l Hin. destruct (H1 l Hin) as [?|[? (t & Ht)]]; [left; by right|right]. split; [by right|exists t; by right].
      * exact H4.
      * eexists. split; [reflexivity|exact H5].
      * intros _. eexists (_ :: pre), post. split; [reflexivity|exact Hp].
      * intros [?|?]; [done|by apply H6].
    + assert (lns = []) as -> by (by apply Hl). destruct (match an_run a with Some (canceled, _) => negb canceled | None => false end); split_and!; cbn.
      all: try done; try (by split; [intros l ?%not_elem_of_nil|]).
      all: try (eexists; split; [reflexivity|]; intros (cmd & g & Hin); set_solver).
      * intros _. eexists [_; _], [Printed]. split; [reflexivity|by repeat constructor].
      * intros _. eexists [_; _], []. split; [reflexivity|done].
  - split_and!.
    + split; [intros l Hin; left; right; apply elem_of_app; left; by apply list_elem_of_fmap_2|].
      unfold tally. cbn [List.filter is_returned is_serving]. change (tally is_returned (map Closed lns ++ [Printed]) = tally is_serving (map Closed lns ++ [Printed])).
      by rewrite !tally_app, !(tally_map_none _ Closed).
    + change (opened (map Closed lns ++ [Printed]) = []). rewrite opened_app. clear. induction lns as [|l lns IH]; [done|exact IH].
    + eexists. split; [reflexivity|]. intros (cmd & g & [Hin|Hin]%elem_of_app); [by apply no_spawn_map in Hin|set_solver].
    + done.
    + done.
Qed.

(** With the tokens serve loaded, the handler is built. *)
Lemma handler_built a order args cfg addr :
  parseServe read lookup goos args = Ok cfg → sc_listen cfg = Some addr → lookup "MCPGODEBUG" = None → an_built a = false →
  order ≡ₚ map_to_list (lt_byName (sc_tokens cfg)) →
  (∀ n m x y, lt_byName (sc_tokens cfg) !! n = Some x → lt_byName (sc_tokens cfg) !! m = Some y → sha256 x = sha256 y → x = y) →
  handled a order = true.
Proof.
  intros Hp Hl Hd Hb Ho Hc. apply serve_accepted in Hp as (_ & _ & _ & _ & _ & _ & Hp). rewrite Hl in Hp. destruct Hp as (_ & files & Hload).
  apply listen_tokens_accepted in Hload as (_ & _ & _ & _ & _ & Hacc). destruct (Hacc order Ho) as [_ Hent]. destruct (Hent Hc) as (entries & He & _).
  unfold HTTPHandler. rewrite Hd, He, Hb. done.
Qed.

End ServeProofs.

(** ** Worked cases *)

(** A run by the kinds of its effects. *)
Definition kind_of (e : effect) : string :=
  match e with
  | Warned _ => "warned" | Opened l => "opened " ++ itoa (Z.of_nat (List.length l)) | Closed _ => "closed" | Spawned _ _ => "spawned" | Serving _ => "serving"
  | Listening _ _ => "listening" | OnStdio _ => "stdio" | Shutdown _ => "shutdown" | Forced => "forced" | HookDone => "hook"
  | ServeReturned => "returned" | ProxyClosed => "closed proxy" | Printed => "printed"
  end%string.

Definition listen_token : string := "0123456789abcdef0123456789abcdef".
Definition sample_lookup (name : string) : option string := if String.eqb name listenTokenEnv then Some listen_token else None.
Definition sample_run (a : surroundings) (args : list string) : option (list string * Z) :=
  (λ p : list effect * Z, (map kind_of p.1, p.2)) <$> @serveBinding ascii_tables sample_lookup (λ _, Err "no file") "linux" (λ _, None) (λ _, Err "") (λ _ _, Err "") (λ _, None)
    (λ _, Err "no file") (λ _, None) (λ _, None) (λ n _ p, Ok (Some (if p =? 0 then 50000 else p))) None a [("env", listen_token)] args.
Definition quiet : surroundings := {| an_new := Ok tt; an_built := false; an_end := ContextDone; an_shutdown := None; an_run := None |}.

Example ex_serve_runs :
  let listen := ["--server"; "srv"; "--upstream"; "/bin/mcp"; "--no-policy"; "--listen"; "localhost:0"] in
  sample_run quiet ["--server"; "srv"; "--upstream"; "/bin/mcp"; "--no-policy"] = Some (["warned"; "spawned"; "stdio"; "closed proxy"], 0) ∧
  sample_run quiet listen = Some (["warned"; "opened 2"; "spawned"; "serving"; "serving"; "listening"; "listening"; "shutdown"; "hook"; "returned"; "returned"; "closed proxy"], 0) ∧
  sample_run {| an_new := Err "exited"; an_built := false; an_end := ContextDone; an_shutdown := None; an_run := None |} listen =
    Some (["warned"; "opened 2"; "spawned"; "closed"; "closed"; "printed"], 1) ∧
  sample_run quiet ["--server"; "srv"; "--upstream"; "/bin/mcp"; "--policy"; "p.yaml"] = Some (["printed"], 2).
Proof. vm_compute. done. Qed.
