(* ===== verification/InventoryCmd.v ===== *)
(** * The inventory commands: cmd/fathomgate/inventory.go

    [inventory lint] and [inventory resolve] from their arguments to the exit
    code and the lines they print, and [inventory import] up to the file it
    writes.  What they say of a file is what serve does with it. *)

From S2P Require Import Prelude GoStd GoPath Termsafe Inventory InventoryCsv GateArgs Flags Pipeline.

Open Scope string_scope.
Open Scope Z_scope.
Open Scope list_scope.

(** ** Reading *)

Inductive read_error := ReadIsCSV | ReadRefused (e : string).

Section Commands.
Context `{Unicode} (compile : string → option (string → bool)) (read_config : string → result string string) (decode : string → option File).

(** [configset.ReadInventory]. *)
Definition ReadInventory (path : string) : result read_error string :=
  if equal_fold (Ext path) ".csv" then Err ReadIsCSV
  else match read_config path with Err e => Err (ReadRefused e) | Ok b => Ok b end.

(** ** lint *)

(** A device no call can reach. *)
Definition bad_name (i : Z) (d : ITarget) : string :=
  ("inventory: devices[" ++ itoa i ++ "] " ++ quote_to_ascii (i_Name d) ++
   " is not a name the gate accepts as a target (a hostname or IP address), so no call can reach it")%string.

Fixpoint bad_names (i : Z) (ds : list ITarget) : list string :=
  match ds with
  | [] => []
  | d :: ds => if validTargetName (i_Name d) then bad_names (i + 1) ds else bad_name i d :: bad_names (i + 1) ds
  end.

(** What lint finds: nothing to read, a file that does not load, or its
    warnings, its problems, and how many devices and patterns there are. *)
Inductive lint :=
  | LintUsage | LintUnread (e : read_error) | LintBad (e : file_error)
  | Linted (warnings problems : list string) (devices patterns : Z).

Definition inventoryLint (args : list string) : Z * lint :=
  match args with
  | [path] =>
      match ReadInventory path with
      | Err e => (exitUsage, LintUnread e)
      | Ok b =>
          match ParseFile decode b with
          | Err e => (exitFail, LintBad e)
          | Ok f =>
              match File_Chain compile f with
              | Err e => (exitFail, LintBad e)
              | Ok _ =>
                  let problems := bad_names 0 (Devices f) ++ PatternWarnings compile f in
                  (if (0 <? List.length problems)%nat then exitFail else exitOK,
                   Linted (PatternEffects compile f) problems (Z.of_nat (List.length (Devices f))) (Z.of_nat (List.length (Roles f))))
              end
          end
      end
  | _ => (exitUsage, LintUsage)
  end.

(** The lines on standard error and standard output of a file that loads. *)
Definition lint_lines (path : string) (l : lint) : list string * list string :=
  match l with
  | Linted warnings problems devices patterns =>
      (map (λ w, "fathomgate: inventory lint: " ++ Quote path ++ ": warning: " ++ Text w)%string warnings ++
       map (λ p, "fathomgate: inventory lint: " ++ Quote path ++ ": " ++ Text p)%string problems,
       match problems with [] => [(path ++ ": ok (" ++ itoa devices ++ " devices, " ++ itoa patterns ++ " patterns)")%string] | _ => [] end)
  | _ => ([], [])
  end.

(** ** resolve *)

Record resolveResult := { rr_Name : string; rr_Reason : string; rr_Target : option ITarget; rr_Patterns : list string }.
Definition rr_Known (r : resolveResult) : bool := bool_decide (is_Some (rr_Target r)).

Definition unlisted_reason : string := "no name authority lists it".
Definition spelling_reason (listed : string) : string :=
  ("listed as " ++ Quote listed ++ "; a name is known only spelled exactly as listed (inventory-schema section 7)")%string.

(** A pattern an unknown name matches. *)
Definition matched (f : File) (i : Z) : string :=
  ("roles[" ++ itoa i ++ "] " ++ quote_to_ascii (from_option p_Match "" (Roles f !! Z.to_nat i)))%string.

Definition resolve_name (f : File) (c : Chain) (patterns : list ((string → bool) * Pattern)) (name : string) : resolveResult :=
  match Known_name (Some (Chain_Resolve c)) name with
  | Some t => {| rr_Name := name; rr_Reason := ""; rr_Target := Some t; rr_Patterns := [] |}
  | None =>
      match Chain_Resolve c name with
      | Some t => {| rr_Name := name; rr_Reason := spelling_reason (i_Name t); rr_Target := None; rr_Patterns := [] |}
      | None => {| rr_Name := name; rr_Reason := unlisted_reason; rr_Target := None; rr_Patterns := map (matched f) (Matching patterns name) |}
      end
  end.

Inductive resolve_error := ResolveUsage | ResolveUnread (e : read_error) | ResolveBad (e : file_error).

(** [inventoryResolve] after its flags are parsed. *)
Definition inventoryResolve (invPath : string) (names : list string) : Z * result resolve_error (list resolveResult) :=
  match names with
  | [] => (exitUsage, Err ResolveUsage)
  | _ =>
      match ReadInventory invPath with
      | Err e => (exitUsage, Err (ResolveUnread e))
      | Ok b =>
          match ParseFile decode b with
          | Err e => (exitUsage, Err (ResolveBad e))
          | Ok f =>
              match File_Chain compile f with
              | Err e => (exitUsage, Err (ResolveBad e))
              | Ok chain =>
                  match NewPatterns compile (Roles f) with
                  | Err e => (exitUsage, Err (ResolveBad (FilePattern e)))
                  | Ok patterns =>
                      let results := map (resolve_name f chain patterns) names in
                      (if forallb rr_Known results then exitOK else exitFail, Ok results)
                  end
              end
          end
      end
  end.

(** ** What resolve prints *)

(** fmt's left-justified string, which counts runes. *)
Definition pad_right (n : nat) (s : string) : string := (s ++ String.string_of_list_ascii (repeat " "%char (n - List.length (runes s))))%string.

Definition row (field value source : string) : string :=
  let '(value, source) := if String.eqb value "" then ("-", "") else (value, source) in
  trim_right (Ascii.eqb " ") ("  " ++ pad_right 7 field ++ " " ++ pad_right 24 (Quote value) ++ " " ++ Quote source)%string.

Definition tag_rows (tags : list string) (src : gmap string string) : list string :=
  match sort_strings tags with
  | [] => [row "tags" "" ""]
  | t :: rest => row "tags" t (default "" (src !! t)) :: map (λ t, row "" t (default "" (src !! t))) rest
  end.

Definition printResolved (r : resolveResult) : list string :=
  match rr_Target r with
  | None =>
      (Quote (rr_Name r) ++ ": unknown (" ++ rr_Reason r ++ ")")%string ::
      map (λ p, "  matches " ++ p ++ ", which never makes a name known (ADR 0031)")%string (rr_Patterns r)
  | Some t =>
      let src := default no_sources (i_Sources t) in
      (Quote (rr_Name r) ++ ": known (listed by " ++ Quote (i_Source t) ++ (if i_Stale t then ", stale" else "") ++ ")")%string ::
      row "name" (i_Name t) (src_Name src) :: row "role" (i_Role t) (src_Role src) :: row "site" (i_Site t) (src_Site src) ::
      row "status" (i_Status t) (src_Status src) :: tag_rows (i_Tags t) (src_Tags src)
  end.

(** ** import *)

Inductive import_error := ImportNoPath | ImportUnread (e : string) | ImportPanic | ImportCsv (e : csv_error) | ImportStatic (e : static_error).

(** [cmdInventoryImport] after its flags are parsed, up to the file it writes:
    the devices, or the error; [open] answers for the file and [records] splits it. *)
Definition cmdInventoryImport (open : string → result string string) (records : string → list (option (list string))) (csvPath : string) :
    result import_error File :=
  if String.eqb csvPath "" then Err ImportNoPath
  else match open csvPath with
  | Err e => Err (ImportUnread e)
  | Ok text =>
      match ImportCSV (records text) with
      | CsvPanic => Err ImportPanic
      | CsvErr e => Err (ImportCsv e)
      | CsvOk targets =>
          match NewStatic targets with
          | Err e => Err (ImportStatic e)
          | Ok _ => Ok {| Devices := targets; Roles := [] |}
          end
      end
  end.
End Commands.

(** ** What they say is what serve does *)

Section Serve.
Context `{Unicode} (compile : string → option (string → bool)) (read_config : string → result string string) (decode : string → option File).
Notation load := (inventory_of compile read_config decode).

Lemma inventory_of_read path unknown policy : path ≠ "" →
  match load path unknown policy with
  | Ok (r, _, warns) => ∃ b f c, ReadInventory read_config path = Ok b ∧ ParseFile decode b = Ok f ∧ File_Chain compile f = Ok c ∧
      r = Some (Chain_Resolve c) ∧ map wl_msg warns = PatternWarnings compile f
  | Err _ => ∀ b f, ReadInventory read_config path = Ok b → ParseFile decode b = Ok f → Prelude.is_ok (File_Chain compile f) = false
  end.
Proof.
  intros Hp. unfold inventory_of, ReadInventory. destruct (String.eqb_spec path ""); [done|]. destruct (equal_fold _ _); [done|].
  destruct (read_config path) as [b|e]; [|done]. destruct (ParseFile decode b) as [f|e] eqn:Ef; [|intros b' f' [= <-]; congruence].
  destruct (File_Chain compile f) as [c|e] eqn:Ec; [|intros b' f' [= <-] E; rewrite Ef in E; injection E as <-; by rewrite Ec].
  exists b, f, c. split_and!; try done. rewrite map_map. cbn. apply map_id.
Qed.

Lemma resolve_name_known f c ps name : rr_Name (resolve_name f c ps name) = name ∧ rr_Target (resolve_name f c ps name) = Known_name (Some (Chain_Resolve c)) name.
Proof. unfold resolve_name. destruct (Known_name _ _); [done|]. by destruct (Chain_Resolve c name). Qed.

Lemma chain_patterns f c : File_Chain compile f = Ok c → ∃ ps, NewPatterns compile (Roles f) = Ok ps.
Proof. unfold File_Chain. destruct (NewStatic _); [|done]. destruct (NewPatterns _ _) as [ps|]; [|done]. by exists ps. Qed.

Lemma bad_names_none i ds : bad_names i ds = [] ↔ ∀ d, d ∈ ds → validTargetName (i_Name d) = true.
Proof.
  induction ds as [|d ds IH] in i |- *; cbn [bad_names]; [split; [intros _ d ?%not_elem_of_nil; done|done]|].
  destruct (validTargetName (i_Name d)) eqn:Ev.
  - rewrite IH. split; [intros Ha x [->|Hx]%elem_of_cons; auto|intros Ha x Hx; apply Ha; by right].
  - split; [done|]. intros Ha. rewrite (Ha d) in Ev by (by left). done.
Qed.

(** C31: The inventory commands say what serve does with the file.  [resolve]
    fails to load a file exactly when serve refuses it, and otherwise answers
    for each name with the very record serve's rule of exact names gives, with
    exit code 0 exactly when serve would know every name.  [lint] exits 0
    exactly when serve loads the file without a warning and every name it then
    knows is one a call may carry as a target. *)
Theorem inventory_as_serve path unknown policy : path ≠ "" →
  (∀ names, names ≠ [] →
    match load path unknown policy with
    | Err _ => ∃ e, inventoryResolve compile read_config decode path names = (exitUsage, Err e)
    | Ok (r, _, _) => ∃ results,
        inventoryResolve compile read_config decode path names =
          (if forallb (λ n, bool_decide (is_Some (Known_name r n))) names then exitOK else exitFail, Ok results) ∧
        Forall2 (λ n x, rr_Name x = n ∧ rr_Target x = Known_name r n) names results
    end) ∧
  (fst (inventoryLint compile read_config decode [path]) = exitOK ↔
   ∃ r attrs, load path unknown policy = Ok (r, attrs, []) ∧ ∀ name, is_Some (Known_name r name) → validTargetName name = true).
Proof.
  intros Hp. pose proof (inventory_of_read path unknown policy Hp) as Hl. split.
  - intros names Hn. destruct names as [|n0 ns]; [done|]. unfold inventoryResolve. destruct (load path unknown policy) as [ [ [r attrs] warns]|e].
    + destruct Hl as (b & f & c & -> & -> & Hc & -> & _). rewrite Hc. destruct (chain_patterns f c Hc) as [ps ->].
      assert (Hfb : ∀ l, forallb rr_Known (map (resolve_name f c ps) l) = forallb (λ n, bool_decide (is_Some (Known_name (Some (Chain_Resolve c)) n))) l).
      { intros l. induction l as [|n l IH]; [done|]. cbn [map forallb]. rewrite IH. f_equal. unfold rr_Known. by rewrite (proj2 (resolve_name_known f c ps n)). }
      eexists. split; [by rewrite Hfb|].
      generalize (n0 :: ns). intros l. induction l as [|n l IH]; constructor; [apply resolve_name_known|done].
    + destruct (ReadInventory read_config path) as [b|]; [|by eexists]. destruct (ParseFile decode b) as [f|] eqn:Ef; [|by eexists].
      specialize (Hl b f eq_refl Ef). destruct (File_Chain compile f); [done|by eexists].
  - unfold inventoryLint. destruct (load path unknown policy) as [ [ [r attrs] warns]|e].
    + destruct Hl as (b & f & c & -> & -> & Hc & -> & Hw). rewrite Hc. cbn [fst].
      assert (Hkn : (∀ name, is_Some (Known_name (Some (Chain_Resolve c)) name) → validTargetName name = true) ↔ bad_names 0 (Devices f) = []).
      { rewrite bad_names_none. split; intros Ha.
        - intros d Hd. apply Ha, (File_Chain_known compile f c _ Hc). by apply list_elem_of_fmap_2.
        - intros name (d & -> & Hd)%(File_Chain_known compile f c _ Hc)%list_elem_of_fmap. by apply Ha. }
      split.
      * destruct (bad_names 0 (Devices f)) eqn:Eb; [|done]. destruct (PatternWarnings compile f) eqn:Ep; [|done]. intros _. exists (Some (Chain_Resolve c)), attrs.
        split; [by destruct warns|]. by apply Hkn.
      * intros (r & a & [= <- -> ->] & Ha). apply Hkn in Ha as ->. by rewrite <- Hw.
    + split; [|by intros (? & ? & ? & _)]. destruct (ReadInventory read_config path) as [b|]; [|done]. destruct (ParseFile decode b) as [f|] eqn:Ef; [|done].
      specialize (Hl b f eq_refl Ef). by destruct (File_Chain compile f).
Qed.
End Serve.

(** A file with two devices and a pattern. *)
Definition sample_read (path : string) : result string string := if String.eqb path "inv.yaml" then Ok "text" else Err "no such file".
Definition sample_decode (b : string) : option File := if String.eqb b "text" then Some sample_file else None.

Lemma inventory_as_serve_witness :
  fst (@inventoryLint ascii_tables prefix_regexp sample_read sample_decode ["inv.yaml"]) = exitOK ↔
  ∃ r attrs, @inventory_of ascii_tables prefix_regexp sample_read sample_decode "inv.yaml" "deny" "p.yaml" = Ok (r, attrs, []) ∧
    ∀ name, is_Some (Known_name r name) → validTargetName name = true.
Proof. apply (@inventory_as_serve ascii_tables prefix_regexp sample_read sample_decode "inv.yaml" "deny" "p.yaml"). discriminate. Defined.

Example ex_lint_clean : fst (@inventoryLint ascii_tables prefix_regexp sample_read sample_decode ["inv.yaml"]) = exitOK.
Proof. vm_compute. reflexivity. Qed.
Example ex_resolve_lines :
  (match @inventoryResolve ascii_tables prefix_regexp sample_read sample_decode "inv.yaml" ["lab-1"; "Lab-1"; "lab-9"] with
   | (code, Ok rs) => (code, map (@printResolved ascii_tables) rs) | (code, Err _) => (code, []) end) =
  (exitFail, [ ["lab-1: known (listed by static)"; "  name    lab-1                    static"; "  role    lab                      pattern"; "  site    -";
                "  status  -"; "  tags    lab                      pattern"];
               ["Lab-1: unknown (listed as lab-1; a name is known only spelled exactly as listed (inventory-schema section 7))"];
               ["lab-9: unknown (no name authority lists it)"; String.append "  matches roles[0] " (String.append (@quote_to_ascii ascii_tables "^lab-") ", which never makes a name known (ADR 0031)")] ]).
Proof. vm_compute. reflexivity. Qed.
