(* ===== verification/TestRun.v ===== *)
(** * Running policy test files: internal/policytest/run.go

    [RunFile] reads a test file, its policy and its inventory, and runs its
    cases against the run's profiles.  Opening a file, the YAML parser and the
    decoders are arguments.

    [policy_test_as_serve]: with the files serve has, a gate case passes exactly
    when serve's gate decides what the case asserts. *)

From S2P Require Import Prelude GoStd GoPath Termsafe ServerProfile Policy Evaluate Inventory GateArgs Gate PolicyTest TestArguments YamlStrict.
From S2P Require Import Classifier Values Flags ServeArgs Pipeline PolicyEval InventoryCmd.

Open Scope string_scope.
Open Scope Z_scope.
Open Scope list_scope.

(** ** filepath on Unix *)

(** One element of a path, on the elements before it, the last one first. *)
Definition clean_elem (rooted : bool) (out : list string) (e : string) : list string :=
  if String.eqb e "" || String.eqb e "." then out
  else if negb (String.eqb e "..") then e :: out
  else match out with
  | [] => if rooted then [] else [e]
  | top :: below => if String.eqb top ".." then e :: out else below
  end.

Definition Clean (path : string) : string :=
  let rooted := has_prefix path "/" in
  let out := join "/" (rev (foldl (clean_elem rooted) [] (split_b "/" path))) in
  if rooted then ("/" ++ out)%string else if String.eqb out "" then "." else out.

Definition Dir (path : string) : string :=
  match removelast (split_b "/" path) with
  | [] => Clean ""
  | dirs => Clean (join "/" dirs ++ "/")
  end.

Definition Join (dir p : string) : string :=
  if negb (String.eqb dir "") then Clean (dir ++ "/" ++ p) else if String.eqb p "" then "" else Clean p.

Definition IsAbs (p : string) : bool := has_prefix p "/".

Example ex_paths :
  map Clean ["a//b/./c/.."; "/../a"; "../../x/.."; ""; "/"; "a/../.."] = ["a/b"; "/a"; "../.."; "."; "/"; ".."] ∧
  map Dir ["tests/a.test.yaml"; "a.test.yaml"; "/a"; "x/y/"] = ["tests"; "."; "/"; "x/y"] ∧
  Join "tests" "../policy.yaml" = "policy.yaml".
Proof. vm_compute. done. Qed.

(** ** Running *)

(** configset.MaxFile. *)
Definition MaxFile : Z := 16777216.

(** io.ReadAll of an io.LimitReader. *)
Definition limited (n : Z) (s : string) : string := if slen s <=? n then s else s_take (Z.to_nat n) s.

Definition resolve (dir p : string) : string := if IsAbs p then p else Join dir p.

Inductive run_error :=
  | RunTestFile (e : string) | RunParse (e : string) | RunPolicyRead (e : string) | RunPolicy (e : policy_load_error)
  | RunInventoryRead (e : read_error) | RunInventory (e : file_error) | RunUnprofiled (i : Z) (name server : string) | RunGate (e : gate_error).

(** Why a gate case cannot run: its server has no profile. *)
Fixpoint unprofiled (i : Z) (profiles : gmap string Profile) (cases : list Case) : option run_error :=
  match cases with
  | [] => None
  | c :: cases =>
      if IsGate c && negb (is_set (profiles !! cr_Server (case_Request c)))
      then Some (RunUnprofiled i (case_Name c) (cr_Server (case_Request c)))
      else unprofiled (i + 1) profiles cases
  end.

Section TestRun.
Context `{Unicode, GoFloat} (compile : string → option (string → bool)).
Context (read_dir : string → result string (list dir_entry)) (read_profile : string → string → result string string).
Context (read_config : string → result string string).
Context (decode_profile : string → option Profile) (decode_policy : string → option Policy) (decode_inventory : string → option Inventory.File).
(** Opening a file: why it cannot be opened, or why it cannot be read, or what
    it holds. *)
Context (open : string → result string (result string string)).
Context (parse : string → option (list node)) (parse_docs : string → result string (list (option bool))) (decode_test : string → result string PolicyTest.File).

Definition readCapped (path : string) : result string string :=
  match open path with
  | Err e => Err ("cannot open it: " ++ e)%string
  | Ok (Err e) => Err ("cannot read it: " ++ e)%string
  | Ok (Ok content) =>
      let b := limited (MaxFile + 1) content in
      if MaxFile <? slen b then Err ("it is larger than " ++ itoa MaxFile ++ " bytes")%string else Ok b
  end.

(** [Runner]: the profiles and the name of their source. *)
Definition Runner : Type := gmap string Profile * string.

Definition NewRunner (dir : string) : result set_error Runner :=
  match Profiles read_dir read_profile decode_profile dir with
  | Err e => Err e
  | Ok (set, source) => Ok (ByServer set, source)
  end.

(** [loadInventory]. *)
Definition loadInventory (dir : string) (inv : inventory_source) : result run_error Chain :=
  let b := match inv with
    | InvPath path =>
        match ReadInventory read_config (resolve dir path) with Err e => Err (RunInventoryRead e) | Ok b => Ok b end
    | InvInline doc => Ok doc
    end in
  match b with
  | Err e => Err e
  | Ok b =>
      match ParseFile decode_inventory b with
      | Err e => Err (RunInventory e)
      | Ok f => match File_Chain compile f with Err e => Err (RunInventory e) | Ok chain => Ok chain end
      end
  end.

(** The test file at [path]. *)
Definition load_test (path : string) : result run_error PolicyTest.File :=
  match readCapped path with
  | Err e => Err (RunTestFile e)
  | Ok b => match ParseBytes parse parse_docs decode_test b with Err e => Err (RunParse e) | Ok f => Ok f end
  end.

Definition RunFile (r : Runner) (path : string) : result run_error (list TestResult) :=
  match load_test path with
  | Err e => Err e
  | Ok f =>
      let dir := Dir path in
      match readCapped (resolve dir (file_Policy f)) with
      | Err e => Err (RunPolicyRead e)
      | Ok pb =>
          match policy_Parse decode_policy pb with
          | Err e => Err (RunPolicy e)
          | Ok p =>
              match match file_Inventory f with
                | None => Ok None
                | Some inv => match loadInventory dir inv with Err e => Err e | Ok chain => Ok (Some (Chain_Resolve chain)) end
                end with
              | Err e => Err e
              | Ok resolver =>
                  match unprofiled 1 (fst r) (file_Cases f) with
                  | Some e => Err e
                  | None =>
                      match Gate.New {| cfg_Policy := Some p; cfg_Profiles := Some <$> fst r; cfg_Inventory := resolver |} with
                      | Err e => Err (RunGate e)
                      | Ok g => Ok (runCases p g (file_Cases f))
                      end
                  end
              end
          end
      end
  end.

(** ** Agreement with serve *)

Notation serve := (loadPipeline compile read_dir read_profile decode_profile read_config decode_policy decode_inventory).

Lemma serve_profiles pf server pl g :
  serve pf server = Ok pl → pl_gate pl = Some g →
  ∃ set source, Profiles read_dir read_profile decode_profile (pf_profiles pf) = Ok (set, source) ∧
    ∀ p, ByServer set !! server = Some p → g_profiles g !! server = Some p.
Proof.
  unfold loadPipeline. destruct (pf_noPolicy pf); [by intros [= <-]|].
  destruct (read_config (pf_policy pf)) as [b|]; [|done]. destruct (policy_Parse decode_policy b) as [p|] eqn:Ep; [|done].
  destruct (inventory_of _ _ _ _ _ _) as [[[r ia] iw]|] eqn:Ei; [|done].
  destruct (Profiles _ _ _ _) as [[set source]|]; [|done].
  destruct (profiles_of set source server) as [[m pa] pw] eqn:Eof.
  destruct (profiles_of_keyed _ _ _ _ _ _ Eof) as (Hk & _).
  destruct (Gate_New_keyed (Some p) m r Hk) as (g' & -> & G1 & G2 & G3). intros [= <-] [= <-].
  exists set, source. split; [done|]. intros q Hq. rewrite G2. unfold profiles_of in Eof. rewrite Hq in Eof. by injection Eof as <- _ _.
Qed.

Lemma unprofiled_None profiles cases : ∀ i, unprofiled i profiles cases = None →
  ∀ c, c ∈ cases → IsGate c = true → is_Some (profiles !! cr_Server (case_Request c)).
Proof.
  induction cases as [|c cases IH]; intros i; cbn [unprofiled]; [by intros _ c ?%not_elem_of_nil|].
  destruct (IsGate c && _) eqn:E; [done|]. intros Hu d [->|Hd]%elem_of_cons Hg; [|by eapply IH].
  rewrite Hg in E. cbn [andb] in E. destruct (profiles !! cr_Server (case_Request c)) eqn:Ep; [by eexists|done].
Qed.

(** The inventory of a test file is the one serve reads. *)
Definition same_inventory (path : string) (f : PolicyTest.File) (pf : pipelineFlags) : Prop :=
  match file_Inventory f with
  | None => pf_inventory pf = ""
  | Some (InvPath p) => resolve (Dir path) p = pf_inventory pf ∧ pf_inventory pf ≠ ""
  | Some (InvInline doc) => pf_inventory pf ≠ "" ∧ read_config (pf_inventory pf) = Ok doc
  end.

Lemma same_resolver path f pf r :
  same_inventory path f pf → eval_inventory compile read_config decode_inventory (pf_inventory pf) = Ok r →
  match file_Inventory f with
  | None => Ok None
  | Some inv => match loadInventory (Dir path) inv with Err e => Err e | Ok chain => Ok (Some (Chain_Resolve chain)) end
  end = Ok r.
Proof.
  unfold same_inventory, eval_inventory, loadInventory, ReadInventory. destruct (file_Inventory f) as [[p|doc]|].
  - intros [-> Hne]. apply String.eqb_neq in Hne as ->. intros Hr. repeat case_match; simplify_eq; done.
  - intros [Hne Hb]. apply String.eqb_neq in Hne as ->. rewrite Hb. intros Hr. repeat case_match; simplify_eq; done.
  - intros ->. cbn. by intros [= <-].
Qed.

(** C35: A policy test is a test of what serve does.  When the test file names
    the policy and the inventory serve is started with (the policy file read
    the same) and the run has serve's profiles, then for every gate case of a
    call to serve's server the result is of the verdict that serve's own gate
    gives the proxy for that call, and the case passes exactly when that verdict
    and the gate's decision are what the case asserts; and the run itself can
    fail only over the test file, the reading of its policy, or a case for a
    server without a profile. *)
Theorem policy_test_as_serve pf server pl g path f pb r :
  serve pf server = Ok pl → pl_gate pl = Some g → NewRunner (pf_profiles pf) = Ok r →
  load_test path = Ok f → readCapped (resolve (Dir path) (file_Policy f)) = Ok pb → read_config (pf_policy pf) = Ok pb →
  same_inventory path f pf →
  match RunFile r path with
  | Ok rs =>
      Forall2 (λ c res, IsGate c = true → cr_Server (case_Request c) = server →
        tr_Effect res = v_Effect (Decide g (call_of c)) ∧ tr_RuleID res = v_RuleID (Decide g (call_of c)) ∧
        (tr_Pass res = true ↔ asserted (case_Expect c) (Decide g (call_of c)) (gate_decide g (call_of c)))) (file_Cases f) rs
  | Err e => ∃ i name s, e = RunUnprofiled i name s ∧ fst r !! s = None
  end.
Proof.
  intros Hserve Hg Hr Hf Hpb Hcfg Hinv.
  destruct (serve_gate _ _ _ _ _ _ _ _ _ _ _ Hserve Hg) as (b & p & res & Hb & Hp & Hres & G1 & G3).
  destruct (serve_profiles _ _ _ _ Hserve Hg) as (set & source & Hset & Hlook).
  assert (b = pb) as -> by congruence. unfold RunFile. rewrite Hf, Hpb, Hp. rewrite (same_resolver _ _ _ _ Hinv Hres).
  unfold NewRunner in Hr. rewrite Hset in Hr. injection Hr as <-. cbn [fst].
  destruct (unprofiled 1 (ByServer set) (file_Cases f)) as [e|] eqn:Hu.
  { clear -Hu. revert Hu. generalize 1. induction (file_Cases f) as [|c cs IH]; intros i; cbn [unprofiled]; [done|].
    destruct (IsGate c && _) eqn:E; [|apply IH]. intros [= <-]. eexists _, _, _. split; [done|].
    apply andb_prop in E as [_ E]. by destruct (ByServer set !! cr_Server (case_Request c)). }
  destruct (Gate_New_keyed (Some p) (ByServer set) res (ByServer_keyed set)) as (g' & -> & N1 & N2 & N3).
  unfold runCases. apply Forall2_same_length_lookup_2; [by rewrite length_map|].
  intros i c x Hc (c' & -> & Hc')%list_lookup_fmap_Some Hgate Hs. assert (c' = c) as -> by congruence.
  apply list_elem_of_lookup_2 in Hc. destruct (unprofiled_None _ _ _ Hu c Hc Hgate) as [prof Hprof]. rewrite Hs in Hprof.
  assert (Ed : gate_decide g' (call_of c) = gate_decide g (call_of c)).
  { apply gate_decide_ext; [congruence|congruence|]. rewrite N2. cbn [call_of in_Server]. by rewrite Hs, Hprof, (Hlook _ Hprof). }
  assert (Ev : Decide g' (call_of c) = Decide g (call_of c)) by (unfold Decide; by rewrite Ed).
  rewrite case_passes, Hgate, Ed, Ev. split_and!; [| |done]; unfold run_case; rewrite Hgate; unfold runGate; cbn [tr_Effect tr_RuleID];
    unfold Explain; cbn [ex_Verdict]; rewrite Ed; done.
Qed.
End TestRun.

(** ** A worked case: the files of PolicyEval *)

Definition sample_expect : Expect :=
  {| e_Effect := Deny; e_Rule := RuleBadArguments; e_Obligations := None; e_Class := ""; e_ClassSource := "fallback"; e_Targets := None;
     e_UnknownTarget := None; e_ParseError := ""; e_UnnamedArgs := Some ["device"]; e_MalformedArgs := None; e_Forwarded := Some false; e_ToolError := None |}.

Definition sample_case : Case :=
  {| case_Name := "an argument the tool does not have";
     case_Request := {| cr_Server := "srv"; cr_Tool := "show"; cr_Class := ""; cr_Targets := None; cr_Session := {| DevicesTouched := 0; PendingHolds := 0 |};
       cr_Arguments := Some (marshal_map (parseArgs ["device=core-1"])); cr_ArgumentsJSON := None; cr_Annotations := None |};
     case_Expect := sample_expect |}.

Definition sample_test : PolicyTest.File := {| file_Policy := "../p.yaml"; file_Inventory := None; file_Cases := [sample_case] |}.

Definition sample_open (path : string) : result string (result string string) :=
  if String.eqb path "tests/a.test.yaml" then Ok (Ok "cases") else if String.eqb path "p.yaml" then Ok (Ok "p.yaml") else Err "no such file".

Definition sample_load : result run_error PolicyTest.File :=
  @load_test ascii_tables plain_floats sample_open (λ _, None) (λ _, Ok []) (λ _, Ok sample_test) "tests/a.test.yaml".

Definition sample_runner : result set_error Runner := @NewRunner ascii_tables files_dir files_profile (λ _, Some sample_profile) (pf_profiles served_flags).

Definition sample_run : result run_error (list TestResult) :=
  match sample_runner with
  | Err _ => Err (RunTestFile "")
  | Ok r => @RunFile ascii_tables plain_floats files_regexp files_config (λ _, Some careful_policy) (λ _, None) sample_open (λ _, None) (λ _, Ok []) (λ _, Ok sample_test) r "tests/a.test.yaml"
  end.

Lemma policy_test_as_serve_witness :
  ∃ rs res, sample_run = Ok rs ∧ rs = [res] ∧ tr_Pass res = true ∧
    asserted sample_expect (@Decide ascii_tables plain_floats served_gate (call_of sample_case)) (@gate_decide ascii_tables plain_floats served_gate (call_of sample_case)).
Proof.
  assert (Hs : ∃ pl, served = Ok pl ∧ pl_gate pl = Some served_gate).
  { unfold served_gate. destruct served as [pl|] eqn:E; [|by vm_compute in E].
    exists pl. split; [done|]. destruct (pl_gate pl) as [g|] eqn:Eg; [done|].
    assert (H : match served with Ok pl => negb (bool_decide (is_Some (pl_gate pl))) | Err _ => true end = false) by (vm_compute; reflexivity).
    rewrite E, Eg in H. done. }
  destruct Hs as (pl & Hs & Hg).
  assert (Hload : sample_load = Ok sample_test) by (vm_compute; reflexivity).
  assert (Hread : readCapped sample_open (resolve (Dir "tests/a.test.yaml") "../p.yaml") = Ok "p.yaml") by (vm_compute; reflexivity).
  assert (Hpass : match sample_run with Ok [res] => tr_Pass res | _ => false end = true) by (vm_compute; reflexivity).
  unfold sample_run in *. destruct sample_runner as [r|e] eqn:Er; [|discriminate Hpass].
  pose proof (@policy_test_as_serve ascii_tables plain_floats files_regexp files_dir files_profile files_config (λ _, Some sample_profile)
    (λ _, Some careful_policy) (λ _, None) sample_open (λ _, None) (λ _, Ok []) (λ _, Ok sample_test) served_flags "srv" pl served_gate
    "tests/a.test.yaml" sample_test "p.yaml" r Hs Hg Er Hload Hread eq_refl eq_refl) as Ht.
  destruct (RunFile _ _ _ _ _ _ _ _ r _) as [rs|e]; [|discriminate Hpass].
  destruct rs as [|res [|] ]; [discriminate Hpass| |discriminate Hpass]. exists [res], res. split; [reflexivity|]. split; [reflexivity|]. split; [exact Hpass|].
  inversion Ht as [|c x cs xs Hc _]; subst. destruct (Hc eq_refl eq_refl) as (_ & _ & Hiff). exact (proj1 Hiff Hpass).
Defined.
