(* ===== verification/Closing.v ===== *)
(** * Closing the proxy: internal/proxy/proxy.go

    [Close], the exit watchers of the upstreams and the goroutines the listener
    tracks, as an interleaving of steps; go-sdk's sessions end on their own or
    because they are closed, and the [Close] of a session returns.  The exit
    channel says only that an upstream ended by itself, and [Close] always can
    finish, with everything ended. *)

From S2P Require Import Prelude GoStd.

Open Scope string_scope.
Open Scope Z_scope.
Open Scope list_scope.

(** ** State *)

(** The exit watcher of an upstream: it waits for the session, then looks
    whether the proxy is closing, then closes [done]. *)
Inductive watcher := Waiting | Woken | Reported | Gone.
#[export] Instance watcher_dec : EqDecision watcher.
Proof. solve_decision. Defined.

(** An upstream: whether its session ended, whether it did before [closing]
    was set, and [closing]. *)
Record upstream_state := { up_ended : bool; up_own : bool; up_closing : bool; up_watch : watcher }.

(** A goroutine of [callLimits.track]: it waits for an agent session to end,
    or closes it. *)
Inductive tracked := WatchSession (ss : nat) | CloseEvicted (ss : nat).

(** Where [Close] is: before it; with the limits closed; closing the agent
    sessions it found; waiting for the tracked goroutines; before the next
    upstream; with its exit read; with [closing] set; waiting for its watcher;
    and done. *)
Inductive closer :=
  | Idle | LimitsClosed | ClosingSessions (l : list nat) | JoinTracked | Next (l : list string) | Read (n : string) (already : bool) (l : list string)
  | Marked (n : string) (already : bool) (l : list string) | Awaiting (n : string) (l : list string) | Finished.

(** The proxy: whether an HTTP handler was built and its limits closed, the
    agent sessions ever and still open, the tracked goroutines, the upstreams,
    whether [exited] is closed, [Close] and its errors. *)
Record proxy := {
  px_http : bool; px_closed : bool; px_known : gset nat; px_open : gset nat; px_tracked : gmap nat tracked;
  px_ups : gmap string upstream_state; px_exited : bool; px_closer : closer; px_errs : list (string * string);
}.

Definition set_sessions (p : proxy) (known open : gset nat) (t : gmap nat tracked) : proxy :=
  {| px_http := px_http p; px_closed := px_closed p; px_known := known; px_open := open; px_tracked := t; px_ups := px_ups p; px_exited := px_exited p;
     px_closer := px_closer p; px_errs := px_errs p |}.
Definition set_up (p : proxy) (n : string) (u : upstream_state) (exited : bool) : proxy :=
  {| px_http := px_http p; px_closed := px_closed p; px_known := px_known p; px_open := px_open p; px_tracked := px_tracked p; px_ups := <[n := u]> (px_ups p);
     px_exited := exited; px_closer := px_closer p; px_errs := px_errs p |}.
Definition set_closer (p : proxy) (closed : bool) (c : closer) (errs : list (string * string)) : proxy :=
  {| px_http := px_http p; px_closed := closed; px_known := px_known p; px_open := px_open p; px_tracked := px_tracked p; px_ups := px_ups p;
     px_exited := px_exited p; px_closer := c; px_errs := errs |}.

Definition new_upstream : upstream_state := {| up_ended := false; up_own := false; up_closing := false; up_watch := Waiting |}.
Definition new_proxy (http : bool) (names : gset string) : proxy :=
  {| px_http := http; px_closed := false; px_known := ∅; px_open := ∅; px_tracked := ∅; px_ups := gset_to_gmap new_upstream names; px_exited := false;
     px_closer := Idle; px_errs := [] |}.

Definition end_session (u : upstream_state) : upstream_state :=
  {| up_ended := true; up_own := up_own u || negb (up_ended u) && negb (up_closing u); up_closing := up_closing u; up_watch := up_watch u |}.
Definition set_closing (u : upstream_state) : upstream_state :=
  {| up_ended := up_ended u; up_own := up_own u; up_closing := true; up_watch := up_watch u |}.
Definition set_watch (u : upstream_state) (x : watcher) : upstream_state :=
  {| up_ended := up_ended u; up_own := up_own u; up_closing := up_closing u; up_watch := x |}.
(** [upstream.exited]. *)
Definition up_exited (u : upstream_state) : bool := bool_decide (up_watch u = Gone).

(** ** Steps *)

Inductive close_event :=
  | SOpen (ss : nat) | SEnd (ss : nat) | TStart (g : nat) (t : tracked) | TEnd (g : nat)
  | UEnd (n : string) | UWake (n : string) | UReport (n : string) | UGone (n : string)
  | CStep (err : option string).

(** A step of [Close]; [err] is what the session's Close returns. *)
Definition close_step (p : proxy) (err : option string) : option proxy :=
  let go c := Some (set_closer p (px_closed p) c (px_errs p)) in
  match px_closer p with
  | Idle => Some (if px_http p then set_closer p true LimitsClosed (px_errs p) else set_closer p (px_closed p) (Next (sort_strings (elements (dom (px_ups p))))) (px_errs p))
  | LimitsClosed => go (ClosingSessions (elements (px_open p)))
  | ClosingSessions (ss :: l) => Some (set_closer (set_sessions p (px_known p) (px_open p ∖ {[ss]}) (px_tracked p)) (px_closed p) (ClosingSessions l) (px_errs p))
  | ClosingSessions [] => go JoinTracked
  | JoinTracked => if decide (px_tracked p = ∅) then go (Next (sort_strings (elements (dom (px_ups p))))) else None
  | Next [] => go Finished
  | Next (n :: l) => match px_ups p !! n with Some u => go (Read n (up_exited u) l) | None => None end
  | Read n already l =>
      match px_ups p !! n with
      | Some u => Some (set_closer (set_up p n (set_closing u) (px_exited p)) (px_closed p) (Marked n already l) (px_errs p))
      | None => None
      end
  | Marked n already l =>
      match px_ups p !! n with
      | Some u =>
          let errs := match err with Some e => if already then px_errs p else px_errs p ++ [(n, e)] | None => px_errs p end in
          Some (set_closer (set_up p n (end_session u) (px_exited p)) (px_closed p) (Awaiting n l) errs)
      | None => None
      end
  | Awaiting n l => match px_ups p !! n with Some u => if up_exited u then go (Next l) else None | None => None end
  | Finished => None
  end.

(** A step of anyone; [None] when it cannot happen. *)
Definition proxy_step (p : proxy) (e : close_event) : option proxy :=
  match e with
  | SOpen ss => if decide (ss ∈ px_known p) then None else Some (set_sessions p ({[ss]} ∪ px_known p) ({[ss]} ∪ px_open p) (px_tracked p))
  | SEnd ss => Some (set_sessions p (px_known p) (px_open p ∖ {[ss]}) (px_tracked p))
  | TStart g t =>
      if px_closed p || bool_decide (is_Some (px_tracked p !! g)) || negb (px_http p) then None
      else match t with
      | WatchSession ss | CloseEvicted ss => if decide (ss ∈ px_known p) then Some (set_sessions p (px_known p) (px_open p) (<[g := t]> (px_tracked p))) else None
      end
  | TEnd g =>
      match px_tracked p !! g with
      | Some (WatchSession ss) => if decide (ss ∈ px_open p) then None else Some (set_sessions p (px_known p) (px_open p) (delete g (px_tracked p)))
      | Some (CloseEvicted ss) => Some (set_sessions p (px_known p) (px_open p ∖ {[ss]}) (delete g (px_tracked p)))
      | None => None
      end
  | UEnd n => match px_ups p !! n with Some u => Some (set_up p n (end_session u) (px_exited p)) | None => None end
  | UWake n =>
      match px_ups p !! n with
      | Some u => if up_ended u && bool_decide (up_watch u = Waiting) then Some (set_up p n (set_watch u Woken) (px_exited p)) else None
      | None => None
      end
  | UReport n =>
      match px_ups p !! n with
      | Some u => if bool_decide (up_watch u = Woken) then Some (set_up p n (set_watch u Reported) (px_exited p || negb (up_closing u))) else None
      | None => None
      end
  | UGone n =>
      match px_ups p !! n with
      | Some u => if bool_decide (up_watch u = Reported) then Some (set_up p n (set_watch u Gone) (px_exited p)) else None
      | None => None
      end
  | CStep err => close_step p err
  end.

Fixpoint proxy_run (p : proxy) (es : list close_event) : option proxy :=
  match es with [] => Some p | e :: es => match proxy_step p e with Some p => proxy_run p es | None => None end end.

(** ** Invariants *)

Definition up_ok (u : upstream_state) : Prop := (up_watch u ≠ Waiting → up_ended u = true) ∧ (up_own u = true → up_ended u = true) ∧
  (up_ended u = true → up_own u = true ∨ up_closing u = true).

(** The names Close is done with and those before it, in the order of names. *)
Definition names_of (p : proxy) : list string := sort_strings (elements (dom (px_ups p))).

Definition finished_up (p : proxy) (n : string) : Prop := ∃ u, px_ups p !! n = Some u ∧ up_watch u = Gone ∧ up_closing u = true.

Definition upstreams_done (p : proxy) (l : list string) : Prop :=
  px_tracked p = ∅ ∧ ∃ d, names_of p = d ++ l ∧ (∀ n, n ∈ d → finished_up p n) ∧ map fst (px_errs p) `sublist_of` d.

(** A watcher of a session that is still open waits for Close to close it. *)
Definition will_close (p : proxy) (l : list nat) : Prop := ∀ g ss, px_tracked p !! g = Some (WatchSession ss) → ss ∈ px_open p → ss ∈ l.

Definition closer_ok (p : proxy) : Prop :=
  match px_closer p with
  | Idle => px_errs p = [] ∧ (px_http p = false → px_tracked p = ∅)
  | LimitsClosed => px_errs p = [] ∧ px_closed p = true
  | ClosingSessions l => px_errs p = [] ∧ px_closed p = true ∧ will_close p l
  | JoinTracked => px_errs p = [] ∧ px_closed p = true ∧ will_close p []
  | Next l => (px_closed p = true ∨ px_http p = false) ∧ upstreams_done p l
  | Read n _ l => (px_closed p = true ∨ px_http p = false) ∧ upstreams_done p (n :: l)
  | Marked n _ l => (px_closed p = true ∨ px_http p = false) ∧ upstreams_done p (n :: l) ∧ ∃ u, px_ups p !! n = Some u ∧ up_closing u = true
  | Awaiting n l => (px_closed p = true ∨ px_http p = false) ∧ px_tracked p = ∅ ∧
      (∃ u, px_ups p !! n = Some u ∧ up_closing u = true ∧ up_ended u = true) ∧
      ∃ d, names_of p = d ++ n :: l ∧ (∀ m, m ∈ d → finished_up p m) ∧ map fst (px_errs p) `sublist_of` d ++ [n]
  | Finished => (px_closed p = true ∨ px_http p = false) ∧ upstreams_done p []
  end.

Record close_inv (p : proxy) : Prop := {
  ci_ups n u : px_ups p !! n = Some u → up_ok u;
  ci_exited : px_exited p = true → ∃ n u, px_ups p !! n = Some u ∧ up_own u = true;
  ci_open : px_open p ⊆ px_known p;
  ci_tracked g ss : px_tracked p !! g = Some (WatchSession ss) ∨ px_tracked p !! g = Some (CloseEvicted ss) → ss ∈ px_known p;
  ci_closer : closer_ok p;
}.

(** *** The upstreams *)

(** A change to one upstream that keeps what it was. *)
Definition up_grows (u u' : upstream_state) : Prop :=
  (up_own u = true → up_own u' = true) ∧ (up_ended u = true → up_ended u' = true) ∧ (up_closing u = true → up_closing u' = true) ∧
  (up_watch u = Gone → up_watch u' = Gone).

Lemma names_set_up p n u u' x : px_ups p !! n = Some u → names_of (set_up p n u' x) = names_of p.
Proof. intros Hn. unfold names_of. cbn. rewrite dom_insert_lookup_L; [done|]. by eexists. Qed.

Lemma finished_grows p n u u' x m : px_ups p !! n = Some u → up_grows u u' → finished_up p m → finished_up (set_up p n u' x) m.
Proof.
  intros Hn (_ & _ & G3 & G4) (v & Hm & Hw & Hc). unfold finished_up. cbn. destruct (decide (n = m)) as [->|].
  - rewrite lookup_insert_eq. exists u'. assert (v = u) as -> by congruence. auto.
  - rewrite lookup_insert_ne by done. by exists v.
Qed.

Lemma done_grows p n u u' x l : px_ups p !! n = Some u → up_grows u u' → upstreams_done p l → upstreams_done (set_up p n u' x) l.
Proof.
  intros Hn Hg (Ht & d & Hd & Hf & He). split; [done|]. exists d. rewrite (names_set_up p n u) by done. split; [done|]. split; [|done].
  intros m Hm. by apply (finished_grows p n u), Hf.
Qed.

Lemma closer_grows p n u u' x : px_ups p !! n = Some u → up_grows u u' → closer_ok p → closer_ok (set_up p n u' x).
Proof.
  intros Hn Hg. assert (Hone : ∀ m (P : upstream_state → Prop), (P u → P u') → (∃ v, px_ups p !! m = Some v ∧ P v) → ∃ v, px_ups (set_up p n u' x) !! m = Some v ∧ P v).
  { intros m P HP (v & Hm & Hv). cbn. destruct (decide (n = m)) as [->|]; [rewrite lookup_insert_eq; exists u'; split; [done|]; apply HP; congruence|].
    rewrite lookup_insert_ne by done. by exists v. }
  pose proof Hg as (_ & G2 & G3 & _). unfold closer_ok. cbn [px_closer set_up px_closed px_http px_errs px_tracked]. destruct (px_closer p); try done.
  - intros [? ?]. split; [done|by apply (done_grows _ _ u)].
  - intros [? ?]. split; [done|by apply (done_grows _ _ u)].
  - intros (? & ? & Hu). split; [done|]. split; [by apply (done_grows _ _ u)|]. apply Hone; [done|exact Hu].
  - intros (? & ? & Hu & d & Hd & Hf & He). split; [done|]. split; [done|]. split; [apply (Hone _ (λ v, up_closing v = true ∧ up_ended v = true)); [tauto|exact Hu]|].
    exists d. rewrite (names_set_up p n u) by done. split; [done|]. split; [|done]. intros m Hm. by apply (finished_grows p n u), Hf.
  - intros [? ?]. split; [done|by apply (done_grows _ _ u)].
Qed.

Lemma inv_grows p n u u' x : close_inv p → px_ups p !! n = Some u → up_ok u' → up_grows u u' →
  (x = true → px_exited p = true ∨ up_own u' = true) → close_inv (set_up p n u' x).
Proof.
  intros [I1 I2 I3 I4 I5] Hn Hok Hg Hx. split; [|intros Hx'|done|done|by eapply closer_grows].
  - intros m v. cbn. rewrite lookup_insert_Some. intros [ [_ <-]|[_ Hm] ]; [done|by eapply I1].
  - cbn in Hx'. destruct (Hx Hx') as [He|Ho].
    + destruct (I2 He) as (m & v & Hm & Hv). cbn. destruct (decide (n = m)) as [->|]; [|exists m, v; by rewrite lookup_insert_ne].
      exists m, u'. rewrite lookup_insert_eq. split; [done|]. destruct Hg as (G & _). apply G. congruence.
    + exists n, u'. cbn. by rewrite lookup_insert_eq.
Qed.

Lemma grows_end u : up_grows u (end_session u).
Proof. unfold up_grows, end_session; cbn. split_and!; try done. intros ->. done. Qed.
Lemma ok_end u : up_ok u → up_ok (end_session u).
Proof.
  intros (_ & _ & U3). unfold up_ok, end_session. cbn. split; [done|]. split; [done|]. intros _. destruct (up_closing u); [by right|left].
  destruct (up_ended u); [destruct (U3 eq_refl) as [->|?]; done|]. by rewrite orb_true_r.
Qed.
Lemma grows_closing u : up_grows u (set_closing u).
Proof. done. Qed.
Lemma ok_closing u : up_ok u → up_ok (set_closing u).
Proof. intros (U1 & U2 & _). split; [done|]. split; [done|]. by right. Qed.
Lemma ok_watch u x : up_ok u → up_ended u = true → up_ok (set_watch u x).
Proof. by intros (_ & U2 & U3) He. Qed.
Lemma grows_watch u x : up_watch u ≠ Gone → up_grows u (set_watch u x).
Proof. by unfold up_grows. Qed.

(** *** The sessions *)

Lemma inv_sessions p known open t : close_inv p → open ⊆ known → px_known p ⊆ known → (∀ g j, t !! g = Some j → px_tracked p !! g = Some j) →
  (∀ g ss, t !! g = Some (WatchSession ss) → ss ∈ open → ss ∈ px_open p) → close_inv (set_sessions p known open t).
Proof.
  intros [I1 I2 I3 I4 I5] Ho Hk Ht Hw. split; [done|done|done| |].
  - cbn. intros g ss [Hg|Hg]; apply Hk, (I4 g ss); [left|right]; by apply Ht.
  - assert (He : px_tracked p = ∅ → t = ∅).
    { intros E. apply map_empty. intros g. destruct (t !! g) as [j|] eqn:Hg; [|done]. apply Ht in Hg. rewrite E in Hg. done. }
    assert (Hwc : ∀ l, will_close p l → will_close (set_sessions p known open t) l).
    { intros l Hl g ss. cbn. intros Hg Hs. apply (Hl g ss); [by apply Ht|by eapply Hw]. }
    assert (Hd : ∀ l, upstreams_done p l → upstreams_done (set_sessions p known open t) l) by (intros l [Et Hr]; split; [by apply He|exact Hr]).
    unfold closer_ok in *. cbn [px_closer set_sessions px_closed px_http px_errs px_tracked px_ups]. destruct (px_closer p).
    + split; [apply I5|]. intros Hh. by apply He, I5.
    + done.
    + destruct I5 as (? & ? & ?). auto.
    + destruct I5 as (? & ? & ?). auto.
    + destruct I5 as [? ?]. auto.
    + destruct I5 as [? ?]. auto.
    + destruct I5 as (? & ? & ?). auto.
    + destruct I5 as (? & ? & ? & ?). auto.
    + destruct I5 as [? ?]. auto.
Qed.

Lemma inv_set_closer p b c errs : close_inv p → closer_ok (set_closer p b c errs) → close_inv (set_closer p b c errs).
Proof. intros [I1 I2 I3 I4 _] Hc. by split. Qed.

(** *** Close *)

Lemma names_dom p n : n ∈ names_of p → is_Some (px_ups p !! n).
Proof. unfold names_of, sort_strings. rewrite merge_sort_Permutation, elem_of_elements, elem_of_dom. done. Qed.

Lemma done_first p l n : upstreams_done p (n :: l) → is_Some (px_ups p !! n).
Proof. intros (_ & d & Hd & _). apply names_dom. rewrite Hd. set_solver. Qed.

Lemma inv_close_step p err p' : close_inv p → close_step p err = Some p' → close_inv p'.
Proof.
  intros Hi. pose proof Hi as [I1 I2 I3 I4 I5]. unfold close_step, closer_ok in *. destruct (px_closer p) as [| |l| |l|n already l|n already l|n l|] eqn:Ec; cbn zeta.
  - destruct I5 as [He Ht]. destruct (px_http p) eqn:Eh; intros [= <-]; apply inv_set_closer; try done. cbn. unfold closer_ok. cbn. split; [by right|].
    split; [by apply Ht|]. exists []. split; [done|]. split; [by intros n ?%not_elem_of_nil|]. by rewrite He.
  - intros [= <-]. apply inv_set_closer; [done|]. unfold closer_ok. cbn. destruct I5 as [? ?]. split; [done|]. split; [done|]. intros g ss _ Hs. by apply elem_of_elements.
  - destruct I5 as (He & Hc & Hw). destruct l as [|ss l]; intros [= <-].
    + apply inv_set_closer; [done|]. done.
    + apply inv_set_closer.
      * apply inv_sessions; [done|set_solver|done|done|set_solver].
      * unfold closer_ok. cbn. split; [done|]. split; [done|]. intros g s'. cbn. intros Hg Hs. assert (s' ∈ ss :: l) by (eapply Hw; [exact Hg|set_solver]). set_solver.
  - destruct I5 as (He & Hc & Hw). case_decide as Ht; [|done]. intros [= <-]. apply inv_set_closer; [done|]. unfold closer_ok. cbn. split; [by left|].
    split; [done|]. exists []. split; [done|]. split; [by intros n ?%not_elem_of_nil|]. by rewrite He.
  - destruct I5 as [Hc Hd]. destruct l as [|n l]; [intros [= <-]; by apply inv_set_closer|]. destruct (px_ups p !! n) as [u|]; [|done]. intros [= <-]. by apply inv_set_closer.
  - destruct I5 as [Hc Hd]. destruct (px_ups p !! n) as [u|] eqn:Hn; [|done]. intros [= <-]. apply inv_set_closer.
    + apply (inv_grows p n u); [done|done|by eapply ok_closing, I1|apply grows_closing|by left].
    + unfold closer_ok. cbn. split; [done|]. split; [by apply (done_grows _ _ u)|]. exists (set_closing u). by rewrite lookup_insert_eq.
  - destruct I5 as (Hc & Hd & u0 & Hn0 & Hcl). destruct (px_ups p !! n) as [u|] eqn:Hn; [|done]. injection Hn0 as <-. intros [= <-]. apply inv_set_closer.
    + apply (inv_grows p n u); [done|done|by eapply ok_end, I1|apply grows_end|by left].
    + unfold closer_ok. cbn. split; [done|]. apply (done_grows p n u (end_session u) (px_exited p)) in Hd; [|done|apply grows_end]. destruct Hd as (Ht & d & Hd & Hf & He).
      split; [done|]. split; [exists (end_session u); by rewrite lookup_insert_eq|]. exists d. split; [exact Hd|]. split; [exact Hf|].
      cbn in He. destruct err as [e|]; [destruct already|]; [by apply sublist_inserts_r| |by apply sublist_inserts_r]. rewrite map_app. by apply sublist_app.
  - destruct I5 as (Hc & Ht & (u0 & Hn0 & Hcl & Hen) & d & Hd & Hf & He). destruct (px_ups p !! n) as [u|] eqn:Hn; [|done]. injection Hn0 as <-. unfold up_exited.
    case_bool_decide as Hg; [|done]. intros [= <-]. apply inv_set_closer; [done|]. unfold closer_ok. cbn. split; [done|]. split; [done|]. exists (d ++ [n]).
    split; [cbn; by rewrite <- (assoc_L (++))|]. split; [|done]. intros m [Hm| ->%list_elem_of_singleton]%elem_of_app; [by apply Hf|]. exists u. done.
  - done.
Qed.

Lemma inv_proxy_step p e p' : close_inv p → proxy_step p e = Some p' → close_inv p'.
Proof.
  intros Hi. pose proof Hi as [I1 I2 I3 I4 I5]. destruct e as [ss|ss|g t|g|n|n|n|n|err]; cbn [proxy_step].
  - case_decide as Hk; [done|]. intros [= <-]. apply inv_sessions; [done|set_solver|set_solver|done|]. intros g s' Hg Hs. assert (s' ∈ px_known p) by eauto. set_solver.
  - intros [= <-]. apply inv_sessions; [done|set_solver|done|done|set_solver].
  - destruct (px_closed p) eqn:Ec; [done|]. destruct (bool_decide _); [done|]. destruct (px_http p) eqn:Eh; [|done]. cbn [orb negb].
    assert (Hidle : px_closer p = Idle) by (unfold closer_ok in I5; destruct (px_closer p); [done|exfalso; destruct_and?; destruct_or?; congruence..]).
    assert (Hone : ∀ ss, ss ∈ px_known p → t = WatchSession ss ∨ t = CloseEvicted ss → close_inv (set_sessions p (px_known p) (px_open p) (<[g := t]> (px_tracked p)))).
    { intros ss Hss Hts. split; [done|done|done| |].
      - cbn. intros g' s'. rewrite !lookup_insert_Some. intros [ [ [_ ->]|[_ ?] ]|[ [_ ->]|[_ ?] ] ]; [naive_solver|by eauto|naive_solver|by eauto].
      - unfold closer_ok in *. cbn. rewrite Hidle in *. split; [apply I5|]. by rewrite Eh. }
    destruct t as [ss|ss]; (case_decide; [|done]); intros [= <-]; apply (Hone ss); auto.
  - destruct (px_tracked p !! g) as [ [ss|ss]|] eqn:Hg; [case_decide; [done|]| |done]; intros [= <-].
    + apply inv_sessions; [done|done|done| |]; [intros g' j Hj; by apply lookup_delete_Some in Hj as [_ ?]|done].
    + apply inv_sessions; [done|set_solver|done| |]; [intros g' j Hj; by apply lookup_delete_Some in Hj as [_ ?]|set_solver].
  - destruct (px_ups p !! n) as [u|] eqn:Hn; [|done]. intros [= <-]. apply (inv_grows p n u); [done|done|by eapply ok_end, I1|apply grows_end|by left].
  - destruct (px_ups p !! n) as [u|] eqn:Hn; [|done]. destruct (up_ended u) eqn:Ee; [|done]. case_bool_decide as Hw; [|done]. intros [= <-].
    apply (inv_grows p n u); [done|done|by eapply ok_watch; [eapply I1|]|apply grows_watch; by rewrite Hw|by left].
  - destruct (px_ups p !! n) as [u|] eqn:Hn; [|done]. case_bool_decide as Hw; [|done]. intros [= <-]. destruct (I1 n u Hn) as (U1 & U2 & U3).
    assert (Ee : up_ended u = true) by (apply U1; by rewrite Hw).
    apply (inv_grows p n u); [done|done|by eapply ok_watch; [eapply I1|]|apply grows_watch; by rewrite Hw|]. intros [?|Hcl%negb_true_iff]%orb_true_iff; [by left|right].
    cbn. destruct (U3 Ee) as [?|?]; [done|congruence].
  - destruct (px_ups p !! n) as [u|] eqn:Hn; [|done]. case_bool_decide as Hw; [|done]. intros [= <-]. destruct (I1 n u Hn) as (U1 & _ & _).
    apply (inv_grows p n u); [done|done|eapply ok_watch; [by eapply I1|]; apply U1; by rewrite Hw|apply grows_watch; by rewrite Hw|by left].
  - by apply inv_close_step.
Qed.

Lemma inv_new http names : close_inv (new_proxy http names).
Proof.
  split; cbn; [|done|done|intros g ss [?|?]; done|done]. intros n u. rewrite lookup_gset_to_gmap_Some. intros [_ <-]. done.
Qed.

Lemma inv_run es p p' : close_inv p → proxy_run p es = Some p' → close_inv p'.
Proof.
  induction es as [|e es IH] in p |- *; cbn [proxy_run]; intros Hi; [by intros [= <-]|]. destruct (proxy_step p e) as [p1|] eqn:He; [|done].
  apply IH. by eapply inv_proxy_step.
Qed.

(** ** Close can finish *)

(** The steps of fathomgate's own goroutines. *)
Definition own_step (e : close_event) : Prop :=
  match e with TEnd _ | UWake _ | UReport _ | UGone _ => True | CStep err => err = None | _ => False end.

Definition finishes (p : proxy) : Prop := ∃ es p', Forall own_step es ∧ proxy_run p es = Some p' ∧ px_closer p' = Finished.

Lemma finishes_step e p p' : own_step e → proxy_step p e = Some p' → finishes p' → finishes p.
Proof. intros Ho He (es & q & Hes & Hr & Hf). exists (e :: es), q. split; [by constructor|]. cbn. by rewrite He. Qed.

(** An upstream that ended is reported and gone by its watcher's own steps. *)
Lemma finishes_watch n c p u : close_inv p → px_closer p = c → px_ups p !! n = Some u → up_ended u = true →
  (∀ p' u', close_inv p' → px_closer p' = c → px_ups p' !! n = Some u' → up_watch u' = Gone → finishes p') → finishes p.
Proof.
  intros Hi Hc Hn He Hk.
  assert (H3 : ∀ q v, close_inv q → px_closer q = c → px_ups q !! n = Some v → up_watch v = Reported → finishes q).
  { intros q v Hq Eq Hv Hw. assert (Hs : proxy_step q (UGone n) = Some (set_up q n (set_watch v Gone) (px_exited q))) by (cbn; by rewrite Hv, bool_decide_eq_true_2).
    eapply (finishes_step (UGone n)); [done|exact Hs|]. eapply (Hk _ (set_watch v Gone)); [by eapply inv_proxy_step|done|cbn; by rewrite lookup_insert_eq|done]. }
  assert (H2 : ∀ q v, close_inv q → px_closer q = c → px_ups q !! n = Some v → up_watch v = Woken → finishes q).
  { intros q v Hq Eq Hv Hw. assert (Hs : proxy_step q (UReport n) = Some (set_up q n (set_watch v Reported) (px_exited q || negb (up_closing v)))) by (cbn; by rewrite Hv, bool_decide_eq_true_2).
    eapply (finishes_step (UReport n)); [done|exact Hs|]. eapply (H3 _ (set_watch v Reported)); [by eapply inv_proxy_step|done|cbn; by rewrite lookup_insert_eq|done]. }
  destruct (up_watch u) eqn:Hw; [|by apply (H2 p u)|by apply (H3 p u)|by apply (Hk p u)].
  assert (Hs : proxy_step p (UWake n) = Some (set_up p n (set_watch u Woken) (px_exited p))) by (cbn; by rewrite Hn, He, bool_decide_eq_true_2).
  eapply (finishes_step (UWake n)); [done|exact Hs|]. eapply (H2 _ (set_watch u Woken)); [by eapply inv_proxy_step|done|cbn; by rewrite lookup_insert_eq|done].
Qed.

Lemma finishes_close p p' : close_step p None = Some p' → close_inv p → (close_inv p' → finishes p') → finishes p.
Proof. intros Hs Hi Hk. eapply (finishes_step (CStep None)); [done|exact Hs|]. apply Hk. by eapply inv_close_step. Qed.

(** Close's phases, from the last to the first. *)
Lemma finishes_awaiting p n l : px_closer p = Awaiting n l → close_inv p → (∀ p', px_closer p' = Next l → close_inv p' → finishes p') → finishes p.
Proof.
  intros Ec Hi Hk. pose proof (ci_closer _ Hi) as Hc. unfold closer_ok in Hc. rewrite Ec in Hc. destruct Hc as (_ & _ & (u & Hn & _ & He) & _).
  apply (finishes_watch n (Awaiting n l) p u Hi Ec Hn He). intros q v Hq Eq Hv Hg.
  apply (finishes_close q (set_closer q (px_closed q) (Next l) (px_errs q))); [|exact Hq|by apply Hk].
  unfold close_step. rewrite Eq, Hv. unfold up_exited. by rewrite bool_decide_eq_true_2.
Qed.

Lemma finishes_marked p n a l : px_closer p = Marked n a l → close_inv p → (∀ p', px_closer p' = Next l → close_inv p' → finishes p') → finishes p.
Proof.
  intros Ec Hi Hk. pose proof (ci_closer _ Hi) as Hc. unfold closer_ok in Hc. rewrite Ec in Hc. destruct Hc as (_ & _ & u & Hn & _).
  eapply finishes_close; [unfold close_step; by rewrite Ec, Hn|done|]. intros Hi'. by eapply finishes_awaiting.
Qed.

Lemma finishes_read p n a l : px_closer p = Read n a l → close_inv p → (∀ p', px_closer p' = Next l → close_inv p' → finishes p') → finishes p.
Proof.
  intros Ec Hi Hk. pose proof (ci_closer _ Hi) as Hc. unfold closer_ok in Hc. rewrite Ec in Hc. destruct Hc as (_ & Hd). destruct (done_first _ _ _ Hd) as [u Hn].
  eapply finishes_close; [unfold close_step; by rewrite Ec, Hn|done|]. intros Hi'. by eapply finishes_marked.
Qed.

Lemma finishes_next l p : px_closer p = Next l → close_inv p → finishes p.
Proof.
  induction l as [|n l IH] in p |- *; intros Ec Hi.
  - eapply finishes_close; [unfold close_step; by rewrite Ec|done|]. intros _. exists [], (set_closer p (px_closed p) Finished (px_errs p)). split_and!; [constructor|reflexivity|reflexivity].
  - pose proof (ci_closer _ Hi) as Hc. unfold closer_ok in Hc. rewrite Ec in Hc. destruct Hc as (_ & Hd). destruct (done_first _ _ _ Hd) as [u Hn].
    eapply finishes_close; [unfold close_step; by rewrite Ec, Hn|done|]. intros Hi'. eapply finishes_read; [reflexivity|done|]. intros p' E' Hp'. by apply IH.
Qed.

Lemma finishes_join p : px_closer p = JoinTracked → close_inv p → finishes p.
Proof.
  remember (size (px_tracked p)) as m eqn:Em. revert p Em. induction (lt_wf m) as [m _ IH]. intros p Em Ec Hi.
  destruct (decide (px_tracked p = ∅)) as [Ht|Ht].
  - eapply finishes_close; [unfold close_step; rewrite Ec, decide_True by done; reflexivity|done|]. intros Hi'. by eapply finishes_next.
  - apply map_choose in Ht as (g & j & Hg). pose proof (ci_closer _ Hi) as Hc. unfold closer_ok in Hc. rewrite Ec in Hc. destruct Hc as (_ & _ & Hw).
    assert (Hs : ∃ open, proxy_step p (TEnd g) = Some (set_sessions p (px_known p) open (delete g (px_tracked p)))).
    { cbn. rewrite Hg. destruct j as [ss|ss]; [|by eexists]. rewrite decide_False by (intros Ho; by apply (Hw g ss Hg), not_elem_of_nil in Ho). by eexists. }
    destruct Hs as [open Hs]. eapply (finishes_step (TEnd g)); [done|exact Hs|].
    eapply (IH (size (delete g (px_tracked p)))); [|reflexivity|done|by eapply inv_proxy_step].
    rewrite map_size_delete, Hg, Em. assert (size (px_tracked p) ≠ 0%nat) by (apply map_size_non_empty_iff; intros E; by rewrite E in Hg). cbn. lia.
Qed.

Lemma finishes_sessions l p : px_closer p = ClosingSessions l → close_inv p → finishes p.
Proof.
  induction l as [|ss l IH] in p |- *; intros Ec Hi; (eapply finishes_close; [unfold close_step; rewrite Ec; reflexivity|done|]); intros Hi'.
  - by apply finishes_join.
  - by apply IH.
Qed.

Lemma finishes_inv p : close_inv p → finishes p.
Proof.
  intros Hi. destruct (px_closer p) as [| |l| |l|n a l|n a l|n l|] eqn:Ec.
  - eapply finishes_close; [unfold close_step; rewrite Ec; reflexivity|done|]. destruct (px_http p); intros Hi'; [|by eapply finishes_next].
    eapply finishes_close; [unfold close_step; reflexivity|done|]. intros Hi2. by eapply finishes_sessions.
  - eapply finishes_close; [unfold close_step; rewrite Ec; reflexivity|done|]. intros Hi2. by eapply finishes_sessions.
  - by eapply finishes_sessions.
  - by apply finishes_join.
  - by eapply finishes_next.
  - eapply finishes_read; [exact Ec|done|]. intros. by eapply finishes_next.
  - eapply finishes_marked; [exact Ec|done|]. intros. by eapply finishes_next.
  - eapply finishes_awaiting; [exact Ec|done|]. intros. by eapply finishes_next.
  - exists [], p. by split_and!.
Qed.

(** C40: Closing the proxy always can finish, and ends everything.  From every
    state any interleaving reaches, of agent sessions, tracked goroutines,
    upstreams that end on their own, watchers and Close, the proxy's own
    goroutines can bring Close to its end; then every upstream has ended and its
    watcher is gone, no tracked goroutine is left, and Close's errors are of
    distinct upstreams in the order of their names.  The channel that stops the
    listener is closed only when some upstream ended before the proxy began to
    close it. *)
Theorem close_completes http names es p : proxy_run (new_proxy http names) es = Some p →
  (∃ es' p', Forall own_step es' ∧ proxy_run p es' = Some p' ∧ px_closer p' = Finished) ∧
  (px_closer p = Finished → px_tracked p = ∅ ∧ map fst (px_errs p) `sublist_of` names_of p ∧
    ∀ n, n ∈ names_of p → ∃ u, px_ups p !! n = Some u ∧ up_ended u = true ∧ up_closing u = true ∧ up_watch u = Gone) ∧
  (px_exited p = true → ∃ n u, px_ups p !! n = Some u ∧ up_own u = true).
Proof.
  intros Hr. assert (Hi : close_inv p) by (eapply inv_run; [apply inv_new|exact Hr]). split_and!; [by apply finishes_inv| |apply Hi].
  intros Ec. pose proof (ci_closer _ Hi) as Hc. unfold closer_ok in Hc. rewrite Ec in Hc. destruct Hc as (_ & Ht & d & Hd & Hf & He). rewrite app_nil_r in Hd. subst d.
  split_and!; [done|done|]. intros n (u & Hn & Hw & Hcl)%Hf. exists u. destruct (ci_ups _ Hi n u Hn) as (U1 & _). split_and!; try done. apply U1. by rewrite Hw.
Qed.

(** Two upstreams, of which one ends on its own while Close is waiting for the
    watcher of an agent session; the other's Close fails. *)
Definition sample_close : list close_event :=
  [SOpen 1; TStart 0 (WatchSession 1); CStep None; UEnd "b"; UWake "b"; CStep None; CStep None; CStep None; TEnd 0; UReport "b"; UGone "b"; CStep None;
   CStep None; CStep None; CStep (Some "signal: killed"); UWake "a"; UReport "a"; UGone "a"; CStep None; CStep None; CStep None; CStep (Some "gone"); CStep None; CStep None].
Definition sample_closed : proxy := default (new_proxy true ∅) (proxy_run (new_proxy true {["a"; "b"]}) sample_close).

Lemma close_completes_witness : px_closer sample_closed = Finished ∧ px_tracked sample_closed = ∅ ∧ px_errs sample_closed = [("a", "signal: killed")] ∧
  (px_exited sample_closed = true → ∃ n u, px_ups sample_closed !! n = Some u ∧ up_own u = true).
Proof.
  split; [vm_compute; reflexivity|]. split; [|split; [vm_compute; reflexivity|]].
  - apply (close_completes true {["a"; "b"]} sample_close sample_closed); vm_compute; reflexivity.
  - apply (close_completes true {["a"; "b"]} sample_close sample_closed). vm_compute. reflexivity.
Defined.
