(* ===== verification/Commands.v ===== *)
(** * The commands: cmd/fathomgate/main.go, policy.go, redact.go

    Which command runs, policy test from its files to the exit code, the lines
    policy eval prints, and redact. *)

From S2P Require Import Prelude GoStd GoPath GoCrypto Termsafe Redact ServerProfile Policy Evaluate PolicyTest Flags Pipeline PolicyEval TestRun.

Open Scope string_scope.
Open Scope Z_scope.
Open Scope list_scope.

(** ** Dispatch *)

Inductive command := CmdVersion | CmdServe | CmdPolicyTest | CmdPolicyEval | CmdAuditVerify | CmdAuditKeygen | CmdRedact | CmdImport | CmdLint | CmdResolve | CmdHelp.

(** A command's subcommands: [cmdPolicy], [cmdAudit] and [cmdInventory]. *)
Definition subcommand (subs : list (string * command)) (args : list string) : option (command * list string) :=
  match args with
  | [] => None
  | a :: rest => match List.find (λ s, String.eqb (fst s) a) subs with Some (_, c) => Some (c, rest) | None => None end
  end.

(** [run]: the command and its arguments; [None] is a usage error. *)
Definition dispatch_args (args : list string) : option (command * list string) :=
  match args with
  | [] => None
  | a :: rest =>
      if mem a ["version"; "--version"; "-v"] then Some (CmdVersion, rest)
      else if String.eqb a "serve" then Some (CmdServe, rest)
      else if String.eqb a "policy" then subcommand [("test", CmdPolicyTest); ("eval", CmdPolicyEval)] rest
      else if String.eqb a "audit" then subcommand [("verify", CmdAuditVerify); ("keygen", CmdAuditKeygen)] rest
      else if String.eqb a "redact" then Some (CmdRedact, rest)
      else if String.eqb a "inventory" then subcommand [("import", CmdImport); ("lint", CmdLint); ("resolve", CmdResolve)] rest
      else if mem a ["help"; "-h"; "--help"] then Some (CmdHelp, rest)
      else None
  end.

Definition run (command_exit : command → list string → Z) (args : list string) : Z :=
  match dispatch_args args with
  | None => exitUsage
  | Some (CmdHelp, _) => exitOK
  | Some (c, rest) => command_exit c rest
  end.

(** ** Lines *)

Section Lines.
Context `{Unicode}.

(** fmt's left-justified string of a width in runes. *)
Definition justified (n : nat) (s : string) : string := (s ++ String.string_of_list_ascii (repeat " "%char (n - List.length (runes s))))%string.

Definition labelWidth : nat := String.length "malformed_args:".

Definition field (label value : string) : string := (justified labelWidth (label ++ ":") ++ " " ++ value)%string.

Definition printTrace (trace : list TraceEntry) (indent : string) : list string :=
  map (λ e, indent ++ (if Matched e then "*" else "-") ++ " " ++ justified 32 (Quote (te_RuleID e)) ++ " " ++ Quote (Note e))%string trace.

Definition describeTarget (t : Target) : string :=
  let name := Quote (t_Name t) in
  if negb (t_Known t) then (name ++ " (unknown)")%string
  else
    let parts := (if String.eqb (t_Role t) "" then [] else [("role " ++ Quote (t_Role t))%string]) ++
      (if String.eqb (t_Site t) "" then [] else [("site " ++ Quote (t_Site t))%string]) ++
      (match t_Tags t with [] => [] | tags => [("tags " ++ Quote (join "," tags))%string] end) in
    match parts with [] => name | _ => (name ++ " (" ++ join ", " parts ++ ")")%string end.

(** [printDecision]; [show_ttl] is how package time prints a duration. *)
Definition printDecision (show_ttl : Z → string) (req : Request) (d : Decision) (classNote : string) (extra : list string) : list string :=
  [field "decision" (d_Effect d); field "class" (req_Class req ++ classNote)%string] ++
  (match req_Targets req with [] => [field "targets" "(none)"] | ts => map (λ t, field "target" (describeTarget t)) ts end) ++
  [field "rule" (Quote (d_RuleID d))] ++
  (if String.eqb (d_Reason d) "" then [] else [field "reason" (Quote (d_Reason d))]) ++
  (match d_Obligations d with [] => [] | os => [field "obligations" (join ", " os)] end) ++
  (match d_Approval d with
   | None => []
   | Some a => [field "approval" ("ttl " ++ show_ttl (TTL a) ++ ", approver must differ: " ++ bool_text (ApproverMustDiffer a))%string]
   end) ++
  extra ++ ["trace:"] ++ printTrace (Trace d) "  ".

(** The gate's fields of [evalGate]. *)
Definition gate_lines (v : gateView) : list string :=
  [field "class_source" (gv_ClassSource v)] ++
  (if String.eqb (gv_ParseError v) "" then [] else [field "parse_error" (gv_ParseError v)]) ++
  (match gv_UnnamedArgs v with [] => [] | l => [field "unnamed_args" (join ", " (QuoteEach l))] end) ++
  (match gv_MalformedArgs v with [] => [] | l => [field "malformed_args" (join ", " (QuoteEach l))] end) ++
  [field "forwarded" (bool_text (gv_Forwarded v))] ++
  (if String.eqb (gv_ToolError v) "" then [] else [field "tool error" (Quote (gv_ToolError v))]).

(** ** policy test *)

Inductive test_error := TestUsage | TestProfiles (e : set_error) | TestFile (path : string) (e : run_error).

(** The lines of one case. *)
Definition case_lines (verbose : bool) (r : TestResult) : list string :=
  if tr_Pass r then [("  PASS  " ++ Quote (tr_Name r))%string]
  else ("  FAIL  " ++ Quote (tr_Name r) ++ ": " ++ tr_Message r)%string ::
    (if verbose then
       (if tr_Gate r then [("        class " ++ tr_Class r ++ " (class_source " ++ tr_ClassSource r ++ ")")%string] else []) ++ printTrace (tr_Trace r) "        "
     else []).

Definition count_failed (rs : list TestResult) : Z := Z.of_nat (List.length (List.filter (λ r, negb (tr_Pass r)) rs)).

(** The loop over the files: the lines, with the totals, up to the first file
    that does not load. *)
Fixpoint test_files (run_file : string → result run_error (list TestResult)) (verbose : bool) (files : list string) (total failed : Z) :
    list string * result test_error (Z * Z) :=
  match files with
  | [] => ([(itoa total ++ " cases, " ++ itoa (total - failed) ++ " passed, " ++ itoa failed ++ " failed")%string], Ok (total, failed))
  | path :: files =>
      match run_file path with
      | Err e => ([], Err (TestFile path e))
      | Ok rs =>
          let '(lines, r) := test_files run_file verbose files (total + Z.of_nat (List.length rs)) (failed + count_failed rs) in
          (Quote path :: List.concat (map (case_lines verbose) rs) ++ lines, r)
      end
  end.

(** [cmdPolicyTest] after its flags; [runner] answers for the profiles. *)
Definition cmdPolicyTest (runner : result set_error (string → result run_error (list TestResult))) (verbose : bool) (files : list string) :
    Z * list string * option test_error :=
  match files with
  | [] => (exitUsage, [], Some TestUsage)
  | _ =>
      match runner with
      | Err e => (exitUsage, [], Some (TestProfiles e))
      | Ok run_file =>
          match test_files run_file verbose files 0 0 with
          | (lines, Err e) => (exitUsage, lines, Some e)
          | (lines, Ok (_, failed)) => (if 0 <? failed then exitFail else exitOK, lines, None)
          end
      end
  end.

(** ** redact *)

Inductive redact_error := RedactKeyRead (e : string) | RedactKeyEmpty (path : string) | RedactNoKey | RedactUsage | RedactInput (e : string) | RedactOutput (e : string).

Definition loadRedactKey (read : string → result string string) (getenv : string → string) (path : string) : result redact_error string :=
  if negb (String.eqb path "") then
    match read path with
    | Err e => Err (RedactKeyRead e)
    | Ok b => let b := trim_space b in if String.eqb b "" then Err (RedactKeyEmpty path) else Ok b
    end
  else let env := getenv "FATHOMGATE_REDACT_KEY" in if negb (String.eqb env "") then Ok env else Err RedactNoKey.
End Lines.

(** ** What policy test's exit code means *)

Lemma count_failed_0 rs : count_failed rs = 0 ↔ ∀ r, r ∈ rs → tr_Pass r = true.
Proof.
  unfold count_failed. induction rs as [|r rs IH]; [split; [by intros _ x ?%not_elem_of_nil|done]|]. cbn [List.filter]. destruct (tr_Pass r) eqn:E; cbn [negb].
  - rewrite IH. split; [intros Ha x [->|Hx]%elem_of_cons; auto|intros Ha x Hx; apply Ha; by right].
  - cbn [List.length]. split; [lia|]. intros Ha. rewrite (Ha r) in E by (by left). done.
Qed.
Lemma count_failed_nonneg rs : 0 <= count_failed rs.
Proof. unfold count_failed. lia. Qed.

Lemma test_files_spec `{Unicode} run_file verbose files : ∀ total failed, 0 <= failed →
  match snd (test_files run_file verbose files total failed) with
  | Ok (_, n) => 0 <= n ∧ (∀ p, p ∈ files → ∃ rs, run_file p = Ok rs) ∧
      (n = 0 ↔ failed = 0 ∧ ∀ p rs r, p ∈ files → run_file p = Ok rs → r ∈ rs → tr_Pass r = true)
  | Err (TestFile p e) => p ∈ files ∧ run_file p = Err e
  | Err _ => False
  end.
Proof.
  induction files as [|p files IH]; intros total failed Hf; cbn [test_files].
  { cbn. split; [done|]. split; [by intros q ?%not_elem_of_nil|]. split; [intros ->; split; [done|]; by intros q rs r ?%not_elem_of_nil|tauto]. }
  destruct (run_file p) as [rs|e] eqn:Ep; [|cbn; split; [by left|done]]. pose proof (count_failed_nonneg rs) as Hc.
  specialize (IH (total + Z.of_nat (List.length rs)) (failed + count_failed rs) ltac:(lia)).
  destruct (test_files _ _ _ _ _) as [lines [ [t n]|[|e|q e] ] ]; cbn in *; try done.
  - destruct IH as (H1 & H2 & H3). split; [done|]. split; [intros q [->|Hq]%elem_of_cons; [by exists rs|by apply H2]|]. rewrite H3. split.
    + intros [Hs Hr]. split; [lia|]. intros q rs' r [->|Hq]%elem_of_cons Hrun Hin; [|by eapply Hr]. assert (rs' = rs) as -> by congruence.
      assert (Hz : count_failed rs = 0) by lia. by apply (proj1 (count_failed_0 rs) Hz).
    + intros [-> Hr]. assert (Hz : count_failed rs = 0) by (apply count_failed_0; intros r Hin; apply (Hr p rs r); [by left|done|done]). split; [lia|].
      intros q rs' r Hq. apply Hr. by right.
  - split; [right; apply IH|apply IH].
Qed.

(** policy test exits 0 exactly when every file loads and every case passes,
    and 1 exactly when every file loads and some case fails. *)
Lemma policy_test_exit `{Unicode} run_file verbose files : files ≠ [] →
  let '(code, _, _) := cmdPolicyTest (Ok run_file) verbose files in
  (code = exitOK ↔ ∀ p, p ∈ files → ∃ rs, run_file p = Ok rs ∧ ∀ r, r ∈ rs → tr_Pass r = true) ∧
  (code = exitFail ↔ (∀ p, p ∈ files → ∃ rs, run_file p = Ok rs) ∧ ∃ p rs r, p ∈ files ∧ run_file p = Ok rs ∧ r ∈ rs ∧ tr_Pass r = false).
Proof.
  intros Hne. unfold cmdPolicyTest. destruct files as [|p0 fs]; [done|]. pose proof (test_files_spec run_file verbose (p0 :: fs) 0 0 ltac:(lia)) as Hs.
  set (files := p0 :: fs) in *. clearbody files. clear Hne. destruct (test_files _ _ files 0 0) as [lines [ [t n]|[|e|q e] ] ]; cbn [snd] in Hs; try done.
  - destruct Hs as (H1 & H2 & H3). assert (Hcode : (if 0 <? n then exitFail else exitOK) = exitOK ↔ n = 0) by (destruct (Z.ltb_spec 0 n); [split; [done|lia]|split; [lia|done]]).
    assert (Hcode' : (if 0 <? n then exitFail else exitOK) = exitFail ↔ n ≠ 0) by (destruct (Z.ltb_spec 0 n); [split; [lia|done]|split; [done|lia]]).
    rewrite Hcode, Hcode', H3. split.
    + split; [intros [_ Hr] p Hp; destruct (H2 p Hp) as [rs Hrs]; exists rs; split; [done|]; intros r; by apply (Hr p)|].
      intros Ha. split; [done|]. intros p rs r Hp Hrs Hin. destruct (Ha p Hp) as (rs' & Hrs' & Hall). apply Hall. congruence.
    + split.
      * intros Hn. split; [done|]. set (fails := λ p, match run_file p with Ok rs => existsb (λ r, negb (tr_Pass r)) rs | Err _ => false end).
        destruct (existsb fails files) eqn:Ex.
        -- apply existsb_elem in Ex as (p & Hp & Hfl). unfold fails in Hfl. destruct (run_file p) as [rs|] eqn:Hrs; [|done].
           apply existsb_elem in Hfl as (r & Hr & Hf%negb_true_iff). by exists p, rs, r.
        -- destruct Hn. split; [done|]. intros p rs r Hp Hrs Hin. rewrite existsb_false_elem in Ex. specialize (Ex p Hp). unfold fails in Ex. rewrite Hrs in Ex.
           rewrite existsb_false_elem in Ex. by apply negb_false_iff, (Ex r Hin).
      * intros [_ (p & rs & r & Hp & Hrs & Hin & Hf)] [_ Ha]. rewrite (Ha p rs r Hp Hrs Hin) in Hf. done.
  - destruct Hs as [Hq Hr]. split; [split; [done|]|split; [done|]].
    + intros Ha. destruct (Ha q Hq) as (rs & Hrs & _). congruence.
    + intros [Ha _]. destruct (Ha q Hq) as (rs & Hrs). congruence.
Qed.
