(* ===== verification/CallLimits.v ===== *)
(** * Calls in flight: internal/proxy/calls.go

    The admission and cancellation state of the tool calls running over the
    HTTP listener.  Every method runs under one lock, so a run is a sequence of
    operations.  Session entries are pointers, which a call's release function
    keeps: the heap of entries is explicit.  [callLimits_refines] shows that the
    tables implement a set of running calls. *)

From S2P Require Import Prelude GoStd.

Open Scope string_scope.
Open Scope Z_scope.
Open Scope list_scope.

(** An agent session: a pointer that may be nil. *)
Abbreviation session := (option nat) (only parsing).

Record sessionCalls := { sc_principal : string; sc_calls : gset nat }.

(** A call's release function, as a closure: the entry it captured, its
    session and its principal. *)
Record closure := { cl_entry : nat; cl_ss : session; cl_principal : string }.

Record callLimits := {
  perSession : Z;
  perPrincipal : Z;
  closed : bool;
  sessions : gmap session nat;         (* session to entry *)
  heap : gmap nat sessionCalls;        (* the entries *)
  principals : gmap string Z;
  retired : gset nat;
  cancelled : gset nat;                (* calls whose context was cancelled *)
  releases : gmap nat closure;         (* the release functions not run yet *)
  next_entry : nat;
  next_call : nat;
}.

Definition newCallLimits (perSession perPrincipal : Z) : callLimits :=
  {| perSession := perSession; perPrincipal := perPrincipal; closed := false; sessions := ∅; heap := ∅;
     principals := ∅; retired := ∅; cancelled := ∅; releases := ∅; next_entry := O; next_call := O |}.

Definition entry (l : callLimits) (ss : session) : option sessionCalls :=
  sessions l !! ss ≫= λ p, heap l !! p.

Definition entry_calls (l : callLimits) (ss : session) : gset nat :=
  match entry l ss with Some sc => sc_calls sc | None => ∅ end.

Definition isRetired (l : callLimits) (ss : session) : bool :=
  match ss with None => false | Some n => bool_decide (n ∈ retired l) end.

(** Why [admit_call] ([admit]) refuses; [errSessionRetired] is its own reason. *)
Inductive refused := RClosed | RRetired | RSession (n : Z) | RPrincipal (n : Z).

Definition errSessionRetired : string :=
  "its agent session has been closed (evicted at the session cap or idle); start a new session and call again".

Definition refused_text (l : callLimits) (principal tool : string) (r : refused) : string :=
  ("fathomgate refused " ++ tool ++ ": " ++
   match r with
   | RClosed => "fathomgate is shutting down"
   | RRetired => errSessionRetired
   | RSession n => itoa n ++ " calls are already in flight on this session (limit " ++ itoa (perSession l) ++
       "); retry when one finishes"
   | RPrincipal n => itoa n ++ " calls are already in flight for principal " ++ principal ++ " (limit " ++
       itoa (perPrincipal l) ++ "); retry when one finishes"
   end)%string.

Definition principal_count (l : callLimits) (principal : string) : Z := default 0 (principals l !! principal).

(** [l.sessions[ss]], opened when there is none. *)
Definition open_entry (l : callLimits) (principal : string) (ss : session) : callLimits :=
  match entry l ss with
  | Some _ => l
  | None =>
      {| perSession := perSession l; perPrincipal := perPrincipal l; closed := closed l;
         sessions := <[ss := next_entry l]> (sessions l);
         heap := <[next_entry l := {| sc_principal := principal; sc_calls := ∅ |}]> (heap l);
         principals := principals l; retired := retired l; cancelled := cancelled l; releases := releases l;
         next_entry := S (next_entry l); next_call := next_call l |}
  end.

Definition add_call (sc : sessionCalls) (a : nat) : sessionCalls :=
  {| sc_principal := sc_principal sc; sc_calls := {[ a ]} ∪ sc_calls sc |}.
Definition drop_call (sc : sessionCalls) (a : nat) : sessionCalls :=
  {| sc_principal := sc_principal sc; sc_calls := sc_calls sc ∖ {[ a ]} |}.

(** [admit_call] ([admit]), past its checks. *)
Definition register (l : callLimits) (principal : string) (ss : session) : callLimits * nat :=
  let l := open_entry l principal ss in
  let a := next_call l in
  let p := default O (sessions l !! ss) in
  ({| perSession := perSession l; perPrincipal := perPrincipal l; closed := closed l; sessions := sessions l;
      heap := alter (λ sc, add_call sc a) p (heap l);
      principals := <[principal := principal_count l principal + 1]> (principals l);
      retired := retired l; cancelled := cancelled l;
      releases := <[a := {| cl_entry := p; cl_ss := ss; cl_principal := principal |}]> (releases l);
      next_entry := next_entry l; next_call := S a |}, a).

Definition admit_check (l : callLimits) (principal : string) (ss : session) : option refused :=
  if closed l then Some RClosed
  else if isRetired l ss then Some RRetired
  else match entry l ss with
  | Some sc =>
      let n := Z.of_nat (size (sc_calls sc)) in
      if perSession l <=? n then Some (RSession n)
      else if perPrincipal l <=? principal_count l principal then Some (RPrincipal (principal_count l principal))
      else None
  | None =>
      if perPrincipal l <=? principal_count l principal then Some (RPrincipal (principal_count l principal))
      else None
  end.

Definition admit_call (l : callLimits) (principal : string) (ss : session) : callLimits * (refused + nat) :=
  match admit_check l principal ss with
  | Some r => (l, inl r)
  | None => let '(l, a) := register l principal ss in (l, inr a)
  end.

Definition cancel (l : callLimits) (cs : gset nat) : callLimits :=
  {| perSession := perSession l; perPrincipal := perPrincipal l; closed := closed l; sessions := sessions l;
     heap := heap l; principals := principals l; retired := retired l; cancelled := cs ∪ cancelled l;
     releases := releases l; next_entry := next_entry l; next_call := next_call l |}.

(** The release function of call [a]; running it again does nothing
    ([sync.Once]). *)
Definition release (l : callLimits) (a : nat) : callLimits :=
  match releases l !! a with
  | None => l
  | Some f =>
      let heap' := alter (λ sc, drop_call sc a) (cl_entry f) (heap l) in
      let empty := match heap' !! cl_entry f with Some sc => bool_decide (sc_calls sc = ∅) | None => false end in
      let n := principal_count l (cl_principal f) - 1 in
      {| perSession := perSession l; perPrincipal := perPrincipal l; closed := closed l;
         sessions := if empty && bool_decide (sessions l !! cl_ss f = Some (cl_entry f))
                     then delete (cl_ss f) (sessions l) else sessions l;
         heap := heap';
         principals := if n <=? 0 then delete (cl_principal f) (principals l)
                       else <[cl_principal f := n]> (principals l);
         retired := retired l; cancelled := {[ a ]} ∪ cancelled l; releases := delete a (releases l);
         next_entry := next_entry l; next_call := next_call l |}
  end.

Definition busy (l : callLimits) (ss : session) : bool := bool_decide (entry_calls l ss ≠ ∅).

Definition with_retired (l : callLimits) (r : gset nat) : callLimits :=
  {| perSession := perSession l; perPrincipal := perPrincipal l; closed := closed l; sessions := sessions l;
     heap := heap l; principals := principals l; retired := r; cancelled := cancelled l;
     releases := releases l; next_entry := next_entry l; next_call := next_call l |}.

Definition add_retired (l : callLimits) (ss : session) : callLimits :=
  match ss with Some n => with_retired l ({[ n ]} ∪ retired l) | None => l end.

Definition claimIdle (l : callLimits) (ss : session) : callLimits * bool :=
  if busy l ss then (l, false) else (add_retired l ss, true).

Definition retire (l : callLimits) (ss : session) : callLimits * nat :=
  let l := add_retired l ss in
  (cancel l (entry_calls l ss), size (entry_calls l ss)).

Definition forget (l : callLimits) (ss : session) : callLimits :=
  match ss with Some n => with_retired l (retired l ∖ {[ n ]}) | None => l end.

Definition close (l : callLimits) : callLimits :=
  let l := cancel l (⋃ (map (λ kv, entry_calls l (fst kv)) (map_to_list (sessions l)))) in
  {| perSession := perSession l; perPrincipal := perPrincipal l; closed := true; sessions := sessions l;
     heap := heap l; principals := principals l; retired := retired l; cancelled := cancelled l;
     releases := releases l; next_entry := next_entry l; next_call := next_call l |}.

(** [track]: whether the goroutine was started. *)
Definition track (l : callLimits) : bool := negb (closed l).

Definition inFlight (l : callLimits) : Z := foldr Z.add 0 (map snd (map_to_list (principals l))).

Section CancelSession.
(** go-sdk's [ServerSession.ID]. *)
Context (ID : nat → string).

Definition session_matches (l : callLimits) (sessionID principal : string) (ss : session) : bool :=
  match ss, entry l ss with
  | Some n, Some sc => String.eqb (ID n) sessionID && String.eqb (sc_principal sc) principal
  | _, _ => false
  end.

Definition session_calls (l : callLimits) (sessionID principal : string) : list (gset nat) :=
  map (entry_calls l) (List.filter (session_matches l sessionID principal) (map fst (map_to_list (sessions l)))).

Definition cancelSession (l : callLimits) (sessionID principal : string) : callLimits * nat :=
  if String.eqb sessionID "" then (l, O)
  else
    let cs := session_calls l sessionID principal in
    (cancel l (⋃ cs), foldr Nat.add O (map size cs)).
End CancelSession.

(** ** The specification: the set of running calls *)

Record running := {
  s_closed : bool;
  s_retired : gset nat;
  s_cancelled : gset nat;
  s_live : gmap nat (string * session);    (* call to principal and session *)
  s_next : nat;
}.

Definition on_session (ss : session) (m : gmap nat (string * session)) : gmap nat (string * session) :=
  filter (λ kv, kv.2.2 = ss) m.
Definition of_principal (p : string) (m : gmap nat (string * session)) : gmap nat (string * session) :=
  filter (λ kv, kv.2.1 = p) m.

Inductive op :=
  | OAdmit (principal : string) (ss : session) | ORelease (a : nat)
  | OCancelSession (id principal : string) | OClaimIdle (ss : session) | ORetire (ss : session)
  | OForget (ss : session) | OClose | OBusy (ss : session) | OInFlight.

Inductive out := OutRefused (r : refused) | OutCall (a : nat) | OutN (n : nat) | OutZ (z : Z) | OutB (b : bool) | OutU.

Definition set_retired (s : running) (r : gset nat) : running :=
  {| s_closed := s_closed s; s_retired := r; s_cancelled := s_cancelled s; s_live := s_live s; s_next := s_next s |}.
Definition set_cancelled (s : running) (c : gset nat) : running :=
  {| s_closed := s_closed s; s_retired := s_retired s; s_cancelled := c ∪ s_cancelled s; s_live := s_live s;
     s_next := s_next s |}.
Definition s_retire (s : running) (ss : session) : running :=
  match ss with Some n => set_retired s ({[ n ]} ∪ s_retired s) | None => s end.

Definition s_is_retired (s : running) (ss : session) : bool :=
  match ss with None => false | Some n => bool_decide (n ∈ s_retired s) end.

Section Spec.
Context (perSession perPrincipal : Z) (ID : nat → string).

Definition s_admit (s : running) (p : string) (ss : session) : running * out :=
  let onS := Z.of_nat (size (on_session ss (s_live s))) in
  let ofP := Z.of_nat (size (of_principal p (s_live s))) in
  if s_closed s then (s, OutRefused RClosed)
  else if s_is_retired s ss then (s, OutRefused RRetired)
  else if perSession <=? onS then (s, OutRefused (RSession onS))
  else if perPrincipal <=? ofP then (s, OutRefused (RPrincipal ofP))
  else ({| s_closed := s_closed s; s_retired := s_retired s; s_cancelled := s_cancelled s;
           s_live := <[s_next s := (p, ss)]> (s_live s); s_next := S (s_next s) |}, OutCall (s_next s)).

(** The calls a DELETE of session [id] by [p] cancels. *)
Definition s_matching (s : running) (id p : string) : gset nat :=
  dom (filter (λ kv : nat * (string * session), kv.2.1 = p ∧ id ≠ "" ∧ ID <$> kv.2.2 = Some id) (s_live s)).

Definition s_exec (s : running) (o : op) : running * out :=
  match o with
  | OAdmit p ss => s_admit s p ss
  | ORelease a =>
      match s_live s !! a with
      | None => (s, OutU)
      | Some _ => ({| s_closed := s_closed s; s_retired := s_retired s; s_cancelled := {[ a ]} ∪ s_cancelled s;
                      s_live := delete a (s_live s); s_next := s_next s |}, OutU)
      end
  | OCancelSession id p => (set_cancelled s (s_matching s id p), OutN (size (s_matching s id p)))
  | OClaimIdle ss =>
      if bool_decide (on_session ss (s_live s) = ∅) then (s_retire s ss, OutB true) else (s, OutB false)
  | ORetire ss => (set_cancelled (s_retire s ss) (dom (on_session ss (s_live s))), OutN (size (on_session ss (s_live s))))
  | OForget ss => (match ss with Some n => set_retired s (s_retired s ∖ {[ n ]}) | None => s end, OutU)
  | OClose => ({| s_closed := true; s_retired := s_retired s; s_cancelled := dom (s_live s) ∪ s_cancelled s;
                  s_live := s_live s; s_next := s_next s |}, OutU)
  | OBusy ss => (s, OutB (bool_decide (on_session ss (s_live s) ≠ ∅)))
  | OInFlight => (s, OutZ (Z.of_nat (size (s_live s))))
  end.

Definition exec (l : callLimits) (o : op) : callLimits * out :=
  match o with
  | OAdmit p ss => let '(l, r) := admit_call l p ss in
      (l, match r with inl r => OutRefused r | inr a => OutCall a end)
  | ORelease a => (release l a, OutU)
  | OCancelSession id p => let '(l, n) := cancelSession ID l id p in (l, OutN n)
  | OClaimIdle ss => let '(l, b) := claimIdle l ss in (l, OutB b)
  | ORetire ss => let '(l, n) := retire l ss in (l, OutN n)
  | OForget ss => (forget l ss, OutU)
  | OClose => (close l, OutU)
  | OBusy ss => (l, OutB (busy l ss))
  | OInFlight => (l, OutZ (inFlight l))
  end.
End Spec.

Definition running0 : running := {| s_closed := false; s_retired := ∅; s_cancelled := ∅; s_live := ∅; s_next := O |}.

Fixpoint run_ops {S} (f : S → op → S * out) (s : S) (ops : list op) : S * list out :=
  match ops with
  | [] => (s, [])
  | o :: ops => let '(s, x) := f s o in let '(s, xs) := run_ops f s ops in (s, x :: xs)
  end.

(** go-sdk binds a session to the principal that opened it. *)
Definition bound (owner : nat → string) (o : op) : Prop :=
  match o with OAdmit p (Some n) => p = owner n | _ => True end.

(** ** The refinement *)

Section Refines.
Context (ps pp : Z) (ID : nat → string) (owner : nat → string).

Record refines (l : callLimits) (s : running) : Prop := {
  r_limits : perSession l = ps ∧ perPrincipal l = pp;
  r_flags : closed l = s_closed s ∧ retired l = s_retired s ∧ cancelled l = s_cancelled s ∧ next_call l = s_next s;
  r_calls : ∀ ss, entry_calls l ss = dom (on_session ss (s_live s));
  r_entries : ∀ ss p, sessions l !! ss = Some p →
    (p < next_entry l)%nat ∧ ∃ sc, heap l !! p = Some sc ∧ sc_calls sc ≠ ∅ ∧
      ∀ n, ss = Some n → sc_principal sc = owner n;
  r_inj : ∀ ss ss' p, sessions l !! ss = Some p → sessions l !! ss' = Some p → ss = ss';
  r_principals : ∀ p, principals l !! p =
    let n := size (of_principal p (s_live s)) in if (n =? 0)%nat then None else Some (Z.of_nat n);
  r_releases : ∀ a f, releases l !! a = Some f →
    s_live s !! a = Some (cl_principal f, cl_ss f) ∧ sessions l !! cl_ss f = Some (cl_entry f);
  r_live : ∀ a, is_Some (s_live s !! a) → is_Some (releases l !! a) ∧ (a < next_call l)%nat;
  r_total : inFlight l = Z.of_nat (size (s_live s));
  r_bound : ∀ a p n, s_live s !! a = Some (p, Some n) → p = owner n;
}.

Lemma refines_count l s p : refines l s → principal_count l p = Z.of_nat (size (of_principal p (s_live s))).
Proof.
  intros Hr. unfold principal_count. rewrite (r_principals _ _ Hr). cbv zeta.
  destruct (size (of_principal p (s_live s))) eqn:E; done.
Qed.

Lemma refines_size l s ss : refines l s → size (entry_calls l ss) = size (on_session ss (s_live s)).
Proof. intros Hr. by rewrite (r_calls _ _ Hr), size_dom. Qed.

Lemma entry_Some l s ss :
  refines l s →
  match sessions l !! ss with
  | Some p => ∃ sc, heap l !! p = Some sc ∧ entry l ss = Some sc ∧ sc_calls sc = dom (on_session ss (s_live s)) ∧
      sc_calls sc ≠ ∅
  | None => entry l ss = None ∧ on_session ss (s_live s) = ∅
  end.
Proof.
  intros Hr. pose proof (r_calls _ _ Hr ss) as Hc. unfold entry_calls, entry in *.
  destruct (sessions l !! ss) as [p|] eqn:E; cbn in *.
  - destruct (r_entries _ _ Hr ss p E) as (_ & sc & Hh & Hne & _). exists sc. rewrite Hh in *. done.
  - split; [done|]. by apply dom_empty_inv_L.
Qed.

Lemma of_principal_insert p p' ss (m : gmap nat (string * session)) a :
  m !! a = None →
  size (of_principal p' (<[a := (p, ss)]> m)) = ((if decide (p = p') then 1 else 0) + size (of_principal p' m))%nat.
Proof.
  intros Ha. unfold of_principal. case_decide as Hp.
  - rewrite map_filter_insert_True by done. rewrite map_size_insert_None; [done|].
    apply map_lookup_filter_None. by left.
  - rewrite map_filter_insert_not' by (done || (intros y Hy; congruence)). done.
Qed.

Lemma of_principal_delete p p' ss (m : gmap nat (string * session)) a :
  m !! a = Some (p, ss) →
  size (of_principal p' m) = ((if decide (p = p') then 1 else 0) + size (of_principal p' (delete a m)))%nat.
Proof.
  intros Ha. assert (Hm : m = <[a := (p, ss)]> (delete a m)) by (by rewrite insert_delete_id).
  rewrite Hm at 1. by rewrite of_principal_insert by apply lookup_delete_eq.
Qed.

Definition total (m : gmap string Z) : Z := foldr Z.add 0 (map snd (map_to_list m)).

Lemma total_perm (l l' : list (string * Z)) : l ≡ₚ l' → foldr Z.add 0 (map snd l) = foldr Z.add 0 (map snd l').
Proof. induction 1; cbn; lia. Qed.

Lemma total_delete m k : total (delete k m) = total m - default 0 (m !! k).
Proof.
  unfold total. destruct (m !! k) as [v|] eqn:E.
  - rewrite <- (total_perm _ _ (map_to_list_delete m k v E)). cbn. lia.
  - rewrite delete_id by done. cbn. lia.
Qed.

Lemma total_insert m k v : total (<[k := v]> m) = total m - default 0 (m !! k) + v.
Proof.
  rewrite <- insert_delete_eq. unfold total at 1.
  rewrite (total_perm _ _ (map_to_list_insert _ k v (lookup_delete_eq m k))). cbn.
  fold (total (delete k m)). rewrite total_delete. lia.
Qed.

(** Changes of the flags alone. *)
Lemma refines_flags l s l' s' :
  refines l s →
  perSession l' = perSession l → perPrincipal l' = perPrincipal l → sessions l' = sessions l → heap l' = heap l →
  principals l' = principals l → releases l' = releases l → next_entry l' = next_entry l → next_call l' = next_call l →
  s_live s' = s_live s → s_next s' = s_next s →
  closed l' = s_closed s' → retired l' = s_retired s' → cancelled l' = s_cancelled s' →
  refines l' s'.
Proof.
  intros [Hlim Hf Hc He Hi Hp Hrel Hl Ht Hb]. intros E1 E2 E3 E4 E5 E6 E7 E8 E9 E10 F1 F2 F3.
  split; unfold inFlight, entry_calls, entry in *; rewrite ?E1, ?E2, ?E3, ?E4, ?E5, ?E6, ?E7, ?E8, ?E9, ?E10; try done.
  split_and!; try done. naive_solver.
Qed.

(** *** Admission *)

(** The session's entry, opened if need be. *)
Lemma open_entry_spec l s p ss :
  refines l s → (∀ n, ss = Some n → p = owner n) →
  let l' := open_entry l p ss in
  ∃ e sc, sessions l' = <[ss := e]> (sessions l) ∧ heap l' = <[e := sc]> (heap l) ∧ (e < next_entry l')%nat ∧
    (next_entry l <= next_entry l')%nat ∧
    sc_calls sc = dom (on_session ss (s_live s)) ∧ (∀ n, ss = Some n → sc_principal sc = owner n) ∧
    (∀ ss', sessions l !! ss' = Some e → ss' = ss) ∧
    (sessions l !! ss = Some e ∨ sessions l !! ss = None).
Proof.
  intros Hr Ho. cbv zeta. unfold open_entry. pose proof (entry_Some l s ss Hr) as He.
  destruct (sessions l !! ss) as [e|] eqn:E in He |- *.
  - destruct He as (sc & Hh & -> & Hc & _). exists e, sc. destruct (r_entries _ _ Hr ss e E) as (Hlt & sc' & Hh' & _ & Hown).
    rewrite Hh in Hh'. injection Hh' as <-. rewrite !insert_id by done. split_and!; try done; [|by left].
    intros ss' Hss'. by eapply (r_inj _ _ Hr).
  - destruct He as [-> Hem]. eexists _, _. cbn [sessions heap next_entry]. split_and!; [done|done|lia|lia| | |..].
    + cbn. rewrite Hem. by rewrite dom_empty_L.
    + cbn. intros n Hn. by apply Ho.
    + intros ss' Hss'. destruct (r_entries _ _ Hr ss' _ Hss') as [Hlt _]. lia.
    + by right.
Qed.

Lemma on_session_insert ss ss' a p m :
  m !! a = None →
  dom (on_session ss' (<[a := (p, ss)]> m)) = (if decide (ss = ss') then {[ a ]} else ∅) ∪ dom (on_session ss' m).
Proof.
  intros Ha. unfold on_session. case_decide as Hss.
  - rewrite map_filter_insert_True by done. by rewrite dom_insert_L.
  - rewrite map_filter_insert_not' by (done || (intros y Hy; congruence)). set_solver.
Qed.

Lemma on_session_delete ss a m : dom (on_session ss (delete a m)) = dom (on_session ss m) ∖ {[ a ]}.
Proof. unfold on_session. by rewrite map_filter_delete, dom_delete_L. Qed.

Lemma entry_calls_eq l ss e sc : sessions l !! ss = Some e → heap l !! e = Some sc → entry_calls l ss = sc_calls sc.
Proof. intros He Hh. unfold entry_calls, entry. rewrite He. cbn. by rewrite Hh. Qed.

Lemma register_refines l s p ss :
  refines l s → (∀ n, ss = Some n → p = owner n) →
  let '(l', a) := register l p ss in
  a = s_next s ∧
  refines l' {| s_closed := s_closed s; s_retired := s_retired s; s_cancelled := s_cancelled s;
                s_live := <[s_next s := (p, ss)]> (s_live s); s_next := S (s_next s) |}.
Proof.
  intros Hr Ho. unfold register. cbv zeta. destruct (open_entry_spec l s p ss Hr Ho) as (e & sc & Es & Eh & Hlt & Hmono & Hsc & Hown & Hu & Hd).
  set (l1 := open_entry l p ss) in *.
  assert (Esame : perSession l1 = perSession l ∧ perPrincipal l1 = perPrincipal l ∧ closed l1 = closed l ∧
    principals l1 = principals l ∧ retired l1 = retired l ∧ cancelled l1 = cancelled l ∧ releases l1 = releases l ∧
    next_call l1 = next_call l) by (unfold l1, open_entry; by destruct (entry l ss)).
  destruct Esame as (E1 & E2 & E3 & E4 & E5 & E6 & E7 & E8).
  destruct (r_flags _ _ Hr) as (F1 & F2 & F3 & F4). rewrite Es, lookup_insert_eq. cbn [default id].
  assert (Hc1 : principal_count l1 p = principal_count l p) by (unfold principal_count; by rewrite E4).
  assert (Hfree : s_live s !! s_next s = None).
  { destruct (s_live s !! s_next s) eqn:E; [|done]. destruct (r_live _ _ Hr (s_next s)) as [_ Hx]; [by rewrite E|]. lia. }
  assert (Hsess : ∀ ss' e', <[ss := e]> (sessions l) !! ss' = Some e' → e' = e ∧ ss' = ss ∨
    e' ≠ e ∧ ss' ≠ ss ∧ sessions l !! ss' = Some e').
  { intros ss' e'. destruct (decide (ss = ss')) as [<-|Hne].
    - rewrite lookup_insert_eq. intros [= <-]. by left.
    - rewrite lookup_insert_ne by done. intros Hs'. right. split_and!; [|done|done]. intros ->. by apply Hne; symmetry; apply Hu. }
  assert (Hheap : alter (λ sc, add_call sc (next_call l1)) e (heap l1) = <[e := add_call sc (next_call l)]> (heap l)).
  { rewrite Eh, E8. by rewrite alter_insert_eq. }
  rewrite Hheap, E8, F4, Hc1. split; [done|].
  split; cbn [perSession perPrincipal closed sessions heap principals retired cancelled releases next_entry next_call
    s_closed s_retired s_cancelled s_live s_next].
  - rewrite E1, E2. apply (r_limits _ _ Hr).
  - by rewrite E3, E5, E6.
  - intros ss'. rewrite on_session_insert by done. unfold entry_calls, entry. cbn [sessions heap].
    case_decide as Hss; [subst ss'|].
    + rewrite lookup_insert_eq. cbn. rewrite lookup_insert_eq. cbn. by rewrite Hsc.
    + rewrite lookup_insert_ne by done. rewrite union_empty_l_L, <- (r_calls _ _ Hr ss'). unfold entry_calls, entry.
      destruct (sessions l !! ss') as [e'|] eqn:E'; [|done]. cbn.
      rewrite lookup_insert_ne; [done|]. intros ->. by apply Hss; symmetry; apply Hu.
  - intros ss' e' [[-> ->]|(Hne & Hss & Hs')]%Hsess.
    + split; [done|]. exists (add_call sc (s_next s)). rewrite lookup_insert_eq. split; [done|].
      split; [cbn; set_solver|exact Hown].
    + destruct (r_entries _ _ Hr ss' e' Hs') as (Hl' & sc' & Hh' & Hrest). split; [lia|].
      exists sc'. by rewrite lookup_insert_ne.
  - intros ss1 ss2 e' [[-> ->]|(Hne & _ & H1)]%Hsess [[? ->]|(? & _ & H2)]%Hsess; try done. by eapply (r_inj _ _ Hr).
  - intros p'. cbv zeta. rewrite of_principal_insert by done. rewrite E4. case_decide as Hp.
    + subst p'. rewrite lookup_insert_eq, (refines_count _ _ _ Hr). cbn. f_equal. lia.
    + rewrite lookup_insert_ne by done. apply (r_principals _ _ Hr).
  - intros a f. rewrite E7. destruct (decide (s_next s = a)) as [<-|Hne].
    + rewrite !lookup_insert_eq. intros [= <-]. cbn. by rewrite lookup_insert_eq.
    + rewrite !lookup_insert_ne by done. intros Hf. destruct (r_releases _ _ Hr a f Hf) as [H1 H2]. split; [done|].
      destruct (decide (ss = cl_ss f)) as [Heq|]; [|by rewrite lookup_insert_ne].
      rewrite <- Heq, lookup_insert_eq in *. destruct Hd; congruence.
  - intros a. rewrite E7. destruct (decide (s_next s = a)) as [<-|Hne].
    + rewrite !lookup_insert_eq. intros _. split; [done|lia].
    + rewrite !lookup_insert_ne by done. intros [H1 H2]%(r_live _ _ Hr). split; [done|lia].
  - unfold inFlight. cbn [principals]. fold (total (<[p := principal_count l p + 1]> (principals l1))).
    rewrite E4, total_insert. fold (principal_count l p). rewrite map_size_insert_None by done.
    pose proof (r_total _ _ Hr) as Ht. unfold inFlight in Ht. fold (total (principals l)) in Ht. lia.
  - intros a p' n. destruct (decide (s_next s = a)) as [<-|Hne].
    + rewrite lookup_insert_eq. intros [= <- ->]. by apply Ho.
    + rewrite lookup_insert_ne by done. apply (r_bound _ _ Hr).
Qed.

Lemma admit_refines l s p ss :
  0 < ps → refines l s → (∀ n, ss = Some n → p = owner n) →
  let '(l', r) := admit_call l p ss in let '(s', o) := s_admit ps pp s p ss in
  o = match r with inl r => OutRefused r | inr a => OutCall a end ∧ refines l' s'.
Proof.
  intros H0 Hr Ho. unfold admit_call, admit_check, s_admit.
  destruct (r_flags _ _ Hr) as (F1 & F2 & F3 & F4), (r_limits _ _ Hr) as [L1 L2].
  assert (Hret : isRetired l ss = s_is_retired s ss) by (unfold isRetired, s_is_retired; by rewrite F2).
  rewrite F1, Hret, L1, L2. destruct (s_closed s) eqn:Ecl; [done|]. destruct (s_is_retired s ss); [done|].
  pose proof (entry_Some l s ss Hr) as He. rewrite (refines_count _ _ _ Hr).
  pose proof (register_refines l s p ss Hr Ho) as Hreg.
  destruct (sessions l !! ss) as [e|].
  - destruct He as (sc & _ & -> & Hc & _). rewrite Hc, size_dom.
    destruct (ps <=? _); [done|]. destruct (pp <=? _); [done|].
    destruct (register l p ss) as [l' a]. destruct Hreg as [-> Hl]. rewrite Ecl in Hl. exact (conj eq_refl Hl).
  - destruct He as [-> Hem]. rewrite Hem, map_size_empty. destruct (Z.leb_spec ps (Z.of_nat 0)); [lia|].
    destruct (pp <=? _); [done|]. destruct (register l p ss) as [l' a]. destruct Hreg as [-> Hl]. rewrite Ecl in Hl. exact (conj eq_refl Hl).
Qed.

(** *** Release *)

Lemma release_refines l s a :
  refines l s → let '(s', o) := s_exec ps pp ID s (ORelease a) in o = OutU ∧ refines (release l a) s'.
Proof.
  intros Hr. cbn [s_exec]. unfold release.
  destruct (releases l !! a) as [f|] eqn:Ef.
  2:{ destruct (s_live s !! a) eqn:E; [|done]. destruct (r_live _ _ Hr a) as [[f Hf] _]; [by rewrite E|]. congruence. }
  destruct (r_releases _ _ Hr a f Ef) as [Hlive Hsess]. rewrite Hlive.
  destruct (r_entries _ _ Hr _ _ Hsess) as (Hlt & sc & Hheap & Hne & Hown). destruct (r_flags _ _ Hr) as (F1 & F2 & F3 & F4).
  set (e := cl_entry f) in *. set (ss := cl_ss f) in *. set (p := cl_principal f) in *.
  assert (Halter : alter (λ sc, drop_call sc a) e (heap l) = <[e := drop_call sc a]> (heap l)).
  { apply map_eq. intros e'. destruct (decide (e = e')) as [<-|Hn].
    - by rewrite lookup_alter_eq, Hheap, lookup_insert_eq.
    - by rewrite lookup_alter_ne, lookup_insert_ne. }
  rewrite Halter, lookup_insert_eq. rewrite (bool_decide_eq_true_2 (sessions l !! ss = Some e)) by done.
  rewrite andb_true_r, (refines_count _ _ _ Hr).
  assert (Hcalls : sc_calls sc = dom (on_session ss (s_live s))).
  { rewrite <- (r_calls _ _ Hr). symmetry. by eapply entry_calls_eq. }
  assert (Hdrop : sc_calls (drop_call sc a) = dom (on_session ss (delete a (s_live s)))).
  { rewrite on_session_delete. cbn. by rewrite Hcalls. }
  pose proof (of_principal_delete p p ss (s_live s) a Hlive) as Hsz. rewrite decide_True in Hsz by done.
  set (sess' := if bool_decide _ then _ else _).
  assert (Hs' : ∀ ss' e', sess' !! ss' = Some e' ↔
    sessions l !! ss' = Some e' ∧ (ss' = ss → sc_calls (drop_call sc a) ≠ ∅)).
  { intros ss' e'. unfold sess'. case_bool_decide as Hem; [|naive_solver].
    rewrite lookup_delete_Some. naive_solver. }
  split; [done|]. split; cbn [perSession perPrincipal closed sessions heap principals retired cancelled releases
    next_entry next_call s_closed s_retired s_cancelled s_live s_next].
  - apply (r_limits _ _ Hr).
  - by rewrite F1, F2, F3, F4.
  - intros ss'. rewrite on_session_delete. unfold entry_calls, entry. cbn [sessions heap].
    destruct (sess' !! ss') as [e'|] eqn:E'.
    + apply Hs' in E' as [Hs1 Hne1]. cbn. destruct (decide (e = e')) as [<-|Hn].
      * rewrite lookup_insert_eq. assert (ss' = ss) as -> by (by eapply (r_inj _ _ Hr)). by rewrite Hdrop, on_session_delete.
      * rewrite lookup_insert_ne by done. assert (ss' ≠ ss) by (intros ->; congruence).
        assert (a ∉ dom (on_session ss' (s_live s))).
        { intros Hin. apply elem_of_dom in Hin as [[p1 s1] Hx]. apply map_lookup_filter_Some in Hx as [Hx1 Hx2]. cbn in Hx2. congruence. }
        destruct (r_entries _ _ Hr _ _ Hs1) as (_ & sc1 & Hh1 & _). rewrite Hh1.
        rewrite <- (r_calls _ _ Hr), (entry_calls_eq _ _ _ _ Hs1 Hh1) in *. set_solver.
    + cbn. destruct (decide (ss' = ss)) as [->|Hn].
      * unfold sess' in E'. case_bool_decide as Hem; [|congruence]. rewrite <- on_session_delete, <- Hdrop. done.
      * assert (sessions l !! ss' = None) as Hnone.
        { destruct (sessions l !! ss') as [e'|] eqn:E; [|done].
          assert (sess' !! ss' = Some e') by (apply Hs'; naive_solver). congruence. }
        pose proof (entry_Some l s ss' Hr) as He. rewrite Hnone in He. destruct He as [_ ->]. set_solver.
  - intros ss' e' [Hs1 Hne1]%Hs'. destruct (r_entries _ _ Hr _ _ Hs1) as (Hlt1 & sc1 & Hh1 & Hn1 & Ho1).
    split; [done|]. destruct (decide (e = e')) as [<-|Hn].
    + assert (ss' = ss) as -> by (by eapply (r_inj _ _ Hr)). exists (drop_call sc a).
      rewrite lookup_insert_eq. split; [done|]. split; [by apply Hne1|exact Hown].
    + exists sc1. by rewrite lookup_insert_ne.
  - intros ss1 ss2 e' [H1 _]%Hs' [H2 _]%Hs'. by eapply (r_inj _ _ Hr).
  - intros p'. pose proof (of_principal_delete p p' ss (s_live s) a Hlive) as Hsz'. cbv zeta.
    pose proof (r_principals _ _ Hr p') as Hp'. cbv zeta in Hp'.
    set (n' := size (of_principal p' (delete a (s_live s)))) in *. set (n := size (of_principal p (delete a (s_live s)))) in *.
    destruct (decide (p = p')) as [<-|Hn]; [|assert (n' = size (of_principal p' (s_live s))) as -> by lia].
    + destruct (Z.leb_spec (Z.of_nat (size (of_principal p (s_live s))) - 1) 0).
      * rewrite lookup_delete_eq. rewrite (proj2 (Nat.eqb_eq n' 0)) by lia. done.
      * rewrite lookup_insert_eq. rewrite (proj2 (Nat.eqb_neq n' 0)) by lia. f_equal. lia.
    + rewrite <- Hp'. destruct (_ <=? 0); [by rewrite lookup_delete_ne|by rewrite lookup_insert_ne].
  - intros a' f'. rewrite lookup_delete_Some. intros [Hna Hf']. destruct (r_releases _ _ Hr _ _ Hf') as [H1 H2].
    rewrite lookup_delete_ne by done. split; [done|]. apply Hs'. split; [done|]. intros Hss'.
    rewrite Hdrop, on_session_delete. intros Hem.
    assert (a' ∈ dom (on_session ss (s_live s))); [|set_solver].
    apply elem_of_dom. exists (cl_principal f', cl_ss f'). apply map_lookup_filter_Some. done.
  - intros a'. rewrite lookup_delete_is_Some. intros [Hna Hl']. rewrite lookup_delete_ne by done. by apply (r_live _ _ Hr).
  - pose proof (r_total _ _ Hr) as Ht. unfold inFlight in Ht |- *. cbn [principals]. fold (total (principals l)) in Ht.
    rewrite map_size_delete_Some by eauto.
    assert (0 < size (s_live s))%nat by (destruct (size (s_live s)) eqn:E0; [apply map_size_empty_inv in E0; by rewrite E0 in Hlive|lia]).
    pose proof (r_principals _ _ Hr p) as Hpp. cbv zeta in Hpp. rewrite Hsz in Hpp |- *. cbn [Nat.add Nat.eqb] in Hpp.
    destruct (_ <=? 0) eqn:E0; fold (total (delete p (principals l))).
    + fold (total (delete p (principals l))). rewrite total_delete, Hpp. apply Z.leb_le in E0.
      rewrite Nat2Z.inj_pred by done. cbn [default id]. lia.
    + match goal with |- foldr _ _ (map snd (map_to_list ?m)) = _ => fold (total m) end.
      rewrite total_insert, Hpp. rewrite Nat2Z.inj_pred by done. cbn [default id]. lia.
  - intros a' p' n. rewrite lookup_delete_Some. intros [_ Hl']. by eapply (r_bound _ _ Hr).
Qed.

(** *** Cancellation and the flags *)

Lemma refines_cancel l s cs : refines l s → refines (cancel l cs) (set_cancelled s cs).
Proof.
  intros Hr. destruct (r_flags _ _ Hr) as (F1 & F2 & F3 & F4).
  eapply (refines_flags l s); try done. cbn. by rewrite F3.
Qed.

Lemma refines_retired l s r r' : refines l s → r = r' → refines (with_retired l r) (set_retired s r').
Proof.
  intros Hr ->. destruct (r_flags _ _ Hr) as (F1 & F2 & F3 & F4). by eapply (refines_flags l s).
Qed.

Lemma refines_retire l s ss : refines l s → refines (add_retired l ss) (s_retire s ss).
Proof.
  intros Hr. destruct ss as [n|]; [|done]. apply refines_retired; [done|].
  destruct (r_flags _ _ Hr) as (_ & -> & _). done.
Qed.

Lemma on_session_live s ss a : a ∈ dom (on_session ss (s_live s)) ↔ ∃ p, s_live s !! a = Some (p, ss).
Proof.
  rewrite elem_of_dom. unfold on_session. split.
  - intros [[p ss'] Hx]. apply map_lookup_filter_Some in Hx as [Hx Heq]. cbn in Heq. subst. eauto.
  - intros [p Hp]. exists (p, ss). by apply map_lookup_filter_Some.
Qed.

(** A live call's session has an entry. *)
Lemma live_entry l s a p ss : refines l s → s_live s !! a = Some (p, ss) → is_Some (sessions l !! ss).
Proof.
  intros Hr Ha. pose proof (entry_Some l s ss Hr) as He. destruct (sessions l !! ss); [done|].
  destruct He as [_ He]. assert (a ∈ dom (on_session ss (s_live s))) by (apply on_session_live; eauto).
  rewrite He in *. set_solver.
Qed.

Lemma close_all l s :
  refines l s → ⋃ (map (λ kv, entry_calls l (fst kv)) (map_to_list (sessions l))) = dom (s_live s).
Proof.
  intros Hr. apply set_eq. intros a. rewrite elem_of_union_list, elem_of_dom. split.
  - intros (X & ([ss e] & -> & _)%list_elem_of_fmap & Ha). cbn in Ha.
    rewrite (r_calls _ _ Hr) in Ha. apply on_session_live in Ha as [p ->]. by eexists.
  - intros [[p ss] Ha]. exists (entry_calls l ss). split.
    + destruct (live_entry l s a p ss Hr Ha) as [e He]. apply list_elem_of_fmap. exists (ss, e). split; [done|].
      by apply elem_of_map_to_list.
    + rewrite (r_calls _ _ Hr). apply on_session_live. eauto.
Qed.

(** Calls of different sessions are different, so the sizes add up. *)
Lemma sessions_size l s L :
  refines l s → NoDup L → foldr Nat.add O (map size (map (entry_calls l) L)) = size (⋃ (map (entry_calls l) L)).
Proof.
  intros Hr. induction L as [|ss L IH]; intros Hn; [done|]. apply NoDup_cons in Hn as [Hss Hn]. cbn.
  rewrite IH by done. rewrite size_union; [done|]. intros a Ha1 Ha2.
  apply elem_of_union_list in Ha2 as (X & (ss' & -> & Hin)%list_elem_of_fmap & Ha2).
  rewrite (r_calls _ _ Hr) in Ha1, Ha2. apply on_session_live in Ha1 as [p1 H1], Ha2 as [p2 H2].
  rewrite H1 in H2. injection H2 as _ ->. done.
Qed.

Lemma matching_calls l s id p :
  refines l s → id ≠ "" → ⋃ (session_calls ID l id p) = s_matching ID s id p.
Proof.
  intros Hr Hid. apply set_eq. intros a. unfold session_calls, s_matching.
  rewrite elem_of_union_list, elem_of_dom. split.
  - intros (X & (ss & -> & Hin)%list_elem_of_fmap & Ha). rewrite (r_calls _ _ Hr) in Ha.
    apply list_elem_of_In, List.filter_In in Hin as [_ Hm]. unfold session_matches in Hm.
    destruct ss as [n|]; [|done]. pose proof (entry_Some l s (Some n) Hr) as He.
    destruct (sessions l !! Some n) as [e|] eqn:Es; [|by destruct He as [He _]; rewrite He in Hm].
    destruct He as (sc & Hh & He & _). rewrite He in Hm. breflect.
    destruct (r_entries _ _ Hr _ _ Es) as (_ & sc' & Hh' & _ & Hown). rewrite Hh in Hh'. injection Hh' as <-.
    apply on_session_live in Ha as [p' Ha]. exists (p', Some n). apply map_lookup_filter_Some. split; [done|]. cbn.
    pose proof (r_bound _ _ Hr _ _ _ Ha). rewrite (Hown n eq_refl) in *. split; [congruence|]. split; [done|]. congruence.
  - intros [[p' ss] Ha]. apply map_lookup_filter_Some in Ha as [Ha (Hp & _ & Hss)]. cbn in Hp, Hss. subst p'.
    destruct ss as [n|]; [|done]. injection Hss as HID. exists (entry_calls l (Some n)). split.
    + apply list_elem_of_fmap. exists (Some n). split; [done|]. destruct (live_entry l s a p _ Hr Ha) as [e He].
      apply list_elem_of_In, List.filter_In. split.
      { apply list_elem_of_In, list_elem_of_fmap. exists (Some n, e). split; [done|]. by apply elem_of_map_to_list. }
      unfold session_matches. pose proof (entry_Some l s (Some n) Hr) as Hes. rewrite He in Hes.
      destruct Hes as (sc & Hh & -> & _). destruct (r_entries _ _ Hr _ _ He) as (_ & sc' & Hh' & _ & Hown).
      rewrite Hh in Hh'. injection Hh' as <-. rewrite (Hown n eq_refl), <- (r_bound _ _ Hr _ _ _ Ha), HID.
      by rewrite !String.eqb_refl.
    + rewrite (r_calls _ _ Hr). apply on_session_live. eauto.
Qed.

Lemma cancelSession_refines l s id p :
  refines l s →
  let '(l', n) := cancelSession ID l id p in n = size (s_matching ID s id p) ∧ refines l' (set_cancelled s (s_matching ID s id p)).
Proof.
  intros Hr. unfold cancelSession. destruct (String.eqb_spec id "") as [->|Hid].
  - assert (s_matching ID s "" p = ∅) as ->.
    { apply dom_empty_iff_L, map_empty. intros a. apply map_lookup_filter_None_2. right. intros x _ (_ & Hne & _). done. }
    split; [done|]. eapply (refines_flags l s); try done; destruct (r_flags _ _ Hr) as (F1 & F2 & F3 & F4); cbn; try done.
    by rewrite union_empty_l_L.
  - rewrite (matching_calls l s) by done. split; [|by apply refines_cancel].
    rewrite <- (matching_calls l s) by done. unfold session_calls. apply (sessions_size l s); [done|].
    apply NoDup_ListNoDup, List.NoDup_filter, NoDup_ListNoDup, NoDup_fst_map_to_list.
Qed.

Lemma busy_refines l s ss : refines l s → busy l ss = negb (bool_decide (on_session ss (s_live s) = ∅)).
Proof.
  intros Hr. unfold busy. rewrite (r_calls _ _ Hr), bool_decide_not. f_equal. apply bool_decide_ext.
  apply dom_empty_iff_L.
Qed.

(** Every operation does what the specification says, with the same answer. *)
Lemma exec_refines l s o :
  0 < ps → refines l s → bound owner o →
  let '(l', x) := exec ID l o in let '(s', y) := s_exec ps pp ID s o in x = y ∧ refines l' s'.
Proof.
  intros H0 Hr Hb. destruct o as [p ss|a|id p|ss|ss|ss| |ss|]; cbn [exec].
  - cbn [s_exec]. pose proof (admit_refines l s p ss H0 Hr) as Ha. destruct (admit_call l p ss) as [l' r], (s_admit ps pp s p ss) as [s' y].
    destruct Ha as [-> Ha]; [by intros n ->|]. done.
  - pose proof (release_refines l s a Hr) as Ha. destruct (s_exec ps pp ID s (ORelease a)) as [s' y]. by destruct Ha as [-> Ha].
  - cbn [s_exec]. pose proof (cancelSession_refines l s id p Hr) as Ha. destruct (cancelSession ID l id p) as [l' n].
    by destruct Ha as [-> Ha].
  - cbn [s_exec]. unfold claimIdle. rewrite (busy_refines l s) by done. case_bool_decide; cbn [negb]; [|done].
    split; [done|by apply refines_retire].
  - cbn [s_exec]. unfold retire.
    assert (He : entry_calls (add_retired l ss) ss = entry_calls l ss) by (by destruct ss).
    rewrite He, (r_calls _ _ Hr). rewrite size_dom. split; [done|]. by apply refines_cancel, refines_retire.
  - cbn [s_exec]. split; [done|]. destruct ss as [n|]; [|done]. apply refines_retired; [done|].
    destruct (r_flags _ _ Hr) as (_ & -> & _). done.
  - cbn [s_exec]. split; [done|]. unfold close. rewrite (close_all l s) by done.
    destruct (r_flags _ _ Hr) as (F1 & F2 & F3 & F4). eapply (refines_flags l s); try done. cbn. by rewrite F3.
  - cbn [s_exec]. split; [|done]. by rewrite (busy_refines l s), bool_decide_not by done.
  - cbn [s_exec]. split; [|done]. by rewrite (r_total _ _ Hr).
Qed.

Lemma refines0 : refines (newCallLimits ps pp) running0.
Proof.
  split; try done.
  - intros a [? Ha]. cbn in Ha. by rewrite lookup_empty in Ha.
Qed.

Lemma run_refines ops l s :
  0 < ps → refines l s → Forall (bound owner) ops →
  let '(l', xs) := run_ops (exec ID) l ops in let '(s', ys) := run_ops (s_exec ps pp ID) s ops in xs = ys ∧ refines l' s'.
Proof.
  intros H0 Hr Hb. revert l s Hr. induction Hb as [|o ops Ho Hb IH]; intros l s Hr; cbn [run_ops]; [done|].
  pose proof (exec_refines l s o H0 Hr Ho) as He. destruct (exec ID l o) as [l' x], (s_exec ps pp ID s o) as [s' y].
  destruct He as [-> He]. specialize (IH l' s' He). destruct (run_ops _ l' ops) as [l2 xs], (run_ops _ s' ops) as [s2 ys].
  by destruct IH as [-> IH].
Qed.
End Refines.

(** ** Properties *)

Section Caps.
Context (ps pp : Z) (ID : nat → string).

(** What every reachable set of running calls satisfies. *)
Record bounded (s : running) : Prop := {
  b_session : ∀ ss, Z.of_nat (size (on_session ss (s_live s))) <= ps;
  b_principal : ∀ p, Z.of_nat (size (of_principal p (s_live s))) <= pp;
  b_closed : s_closed s = true → dom (s_live s) ⊆ s_cancelled s;
  b_fresh : ∀ a, s_live s !! a ≠ None → (a < s_next s)%nat;
}.

Lemma on_session_size_insert p ss ss' a m :
  m !! a = None →
  size (on_session ss' (<[a := (p, ss)]> m)) = ((if decide (ss = ss') then 1 else 0) + size (on_session ss' m))%nat.
Proof.
  intros Ha. rewrite <- !size_dom, on_session_insert by done. case_decide; [|by rewrite union_empty_l_L].
  rewrite size_union, size_singleton; [done|]. intros x ->%elem_of_singleton Hx.
  apply elem_of_dom in Hx as [v Hx]. apply map_lookup_filter_Some in Hx as [Hx _]. congruence.
Qed.

Lemma filter_delete_le (P : nat * (string * session) → Prop) `{∀ x, Decision (P x)} a (m : gmap nat (string * session)) :
  (size (filter P (delete a m)) ≤ size (filter P m))%nat.
Proof. rewrite map_filter_delete. destruct (filter P m !! a) eqn:E; [rewrite map_size_delete_Some by eauto; lia|by rewrite map_size_delete_None]. Qed.

Lemma s_exec_bounded s o : bounded s → bounded (fst (s_exec ps pp ID s o)).
Proof.
  intros Hb. pose proof Hb as [Hs Hp Hc Hf].
  assert (Hflags : ∀ s', s_live s' = s_live s → s_next s' = s_next s → s_cancelled s ⊆ s_cancelled s' →
    (s_closed s' = true → s_closed s = true ∨ dom (s_live s) ⊆ s_cancelled s') → bounded s').
  { intros s' E1 E2 E3 E4. split; rewrite ?E1, ?E2; try done. intros [Hcl|Hx]%E4; [|done]. etrans; [by apply Hc|done]. }
  assert (Hret : ∀ ss, bounded (s_retire s ss)).
  { intros [n|]; apply Hflags; try done; intros H1; by left. }
  destruct o as [p ss|a|id p|ss|ss|ss| |ss|]; cbn [s_exec fst].
  - unfold s_admit. destruct (s_closed s) eqn:Ecl; [done|]. destruct (s_is_retired s ss); [done|].
    destruct (Z.leb_spec ps (Z.of_nat (size (on_session ss (s_live s))))); [done|].
    destruct (Z.leb_spec pp (Z.of_nat (size (of_principal p (s_live s))))); [done|]. cbn [fst].
    assert (Hn : s_live s !! s_next s = None).
    { destruct (s_live s !! s_next s) eqn:E; [|done]. specialize (Hf (s_next s)). rewrite E in Hf. specialize (Hf ltac:(done)). lia. }
    split; cbn [s_live s_closed s_cancelled s_next]; [| |done|].
    + intros ss'. rewrite on_session_size_insert by done. specialize (Hs ss'). case_decide; subst; lia.
    + intros p'. rewrite of_principal_insert by done. specialize (Hp p'). case_decide; subst; lia.
    + intros a. destruct (decide (s_next s = a)) as [<-|]; [lia|rewrite lookup_insert_ne by done]. intros Ha%Hf. lia.
  - destruct (s_live s !! a) eqn:E; [|done]. clear p E. cbn [fst]. split; cbn [s_live s_closed s_cancelled s_next].
    + intros ss. pose proof (filter_delete_le (λ kv, kv.2.2 = ss) a (s_live s)). specialize (Hs ss). unfold on_session in *. lia.
    + intros p. pose proof (filter_delete_le (λ kv, kv.2.1 = p) a (s_live s)). specialize (Hp p). unfold of_principal in *. lia.
    + intros Hcl. rewrite dom_delete_L. specialize (Hc Hcl). set_solver.
    + intros a' Ha'. apply Hf. intros Hnone. apply Ha'. by apply lookup_delete_None; right.
  - apply Hflags; try done; [set_solver|]. by left.
  - case_bool_decide; cbn [fst]; [apply Hret|done].
  - destruct ss as [n|]; apply Hflags; try done; try set_solver; by left.
  - destruct ss as [n|]; [|done]. apply Hflags; try done. by left.
  - apply Hflags; try done; cbn; [set_solver|]. intros _. right. set_solver.
  - done.
  - done.
Qed.

Lemma run_bounded ops s : bounded s → bounded (fst (run_ops (s_exec ps pp ID) s ops)).
Proof.
  revert s. induction ops as [|o ops IH]; intros s Hb; cbn [run_ops]; [done|].
  pose proof (s_exec_bounded s o Hb) as Ho. destruct (s_exec ps pp ID s o) as [s' x]. specialize (IH s' Ho).
  by destruct (run_ops _ s' ops).
Qed.

(** A retired session with no call running stays so until it is forgotten. *)
Lemma s_exec_idle n s o :
  n ∈ s_retired s → on_session (Some n) (s_live s) = ∅ → o ≠ OForget (Some n) →
  n ∈ s_retired (fst (s_exec ps pp ID s o)) ∧ on_session (Some n) (s_live (fst (s_exec ps pp ID s o))) = ∅.
Proof.
  intros Hn He Ho. destruct o as [p ss|a|id p|ss|ss|ss| |ss|]; cbn [s_exec].
  - unfold s_admit. destruct (s_closed s); [done|]. destruct (s_is_retired s ss) eqn:Hr; [done|].
    destruct (ps <=? _); [done|]. destruct (pp <=? _); [done|]. cbn. split; [done|].
    unfold on_session. rewrite map_filter_insert_not'; [done| |].
    + cbn. intros ->. cbn in Hr. by apply bool_decide_eq_false in Hr.
    + intros [p' ss'] Hx Hss. cbn in Hss. subst ss'.
      apply (map_filter_empty_not_lookup _ _ _ _ He) in Hx; done.
  - destruct (s_live s !! a); [|done]. cbn. split; [done|]. unfold on_session in *. by rewrite map_filter_delete, He, delete_empty.
  - done.
  - case_bool_decide; [|done]. cbn. destruct ss as [m|]; cbn; [|done]. split; [set_solver|done].
  - destruct ss as [m|]; cbn; [|done]. split; [set_solver|done].
  - destruct ss as [m|]; cbn; [|done]. split; [|done]. assert (m ≠ n) by congruence. set_solver.
  - done.
  - done.
  - done.
Qed.

Lemma run_idle n ops s :
  n ∈ s_retired s → on_session (Some n) (s_live s) = ∅ → OForget (Some n) ∉ ops →
  let s' := fst (run_ops (s_exec ps pp ID) s ops) in n ∈ s_retired s' ∧ on_session (Some n) (s_live s') = ∅.
Proof.
  cbv zeta. revert s. induction ops as [|o ops IH]; intros s Hn He Ho; cbn [run_ops]; [done|].
  apply not_elem_of_cons in Ho as [Ho Hops].
  destruct (s_exec_idle n s o Hn He) as [H1 H2]; [congruence|].
  destruct (s_exec ps pp ID s o) as [s' x]. specialize (IH s' H1 H2 Hops). by destruct (run_ops _ s' ops).
Qed.
End Caps.

(** C16: the call tables implement the set of running calls, and the caps hold.
    Over any sequence of operations (admissions, releases run any number of
    times, session deletions, evictions, expiries, shutdown), every answer is
    the specification's; no session has more than the per-session cap of calls
    in flight and no principal more than its own; the number in flight is the
    number of calls admitted and not released; after shutdown every call still
    running has been cancelled; and when none runs the tables are empty. *)
Theorem callLimits_refines ps pp ID owner ops :
  0 < ps → 0 <= pp → Forall (bound owner) ops →
  let '(l, xs) := run_ops (exec ID) (newCallLimits ps pp) ops in
  let '(s, ys) := run_ops (s_exec ps pp ID) running0 ops in
  xs = ys ∧
  (∀ ss, Z.of_nat (size (entry_calls l ss)) <= ps) ∧
  (∀ p, principal_count l p = Z.of_nat (size (of_principal p (s_live s))) ∧ principal_count l p <= pp) ∧
  inFlight l = Z.of_nat (size (s_live s)) ∧
  (closed l = true → dom (s_live s) ⊆ cancelled l) ∧
  (inFlight l = 0 → sessions l = ∅ ∧ principals l = ∅ ∧ releases l = ∅).
Proof.
  intros H0 H1 Hb. pose proof (run_refines ps pp ID owner ops _ _ H0 (refines0 ps pp owner) Hb) as Hr.
  pose proof (run_bounded ps pp ID ops running0) as Hbd.
  destruct (run_ops (exec ID) _ ops) as [l xs], (run_ops (s_exec ps pp ID) _ ops) as [s ys]. destruct Hr as [-> Hr].
  destruct Hbd as [B1 B2 B3 B4].
  { split; cbn; [intros ss; unfold on_session; rewrite map_filter_empty, map_size_empty; lia|
      intros p; unfold of_principal; rewrite map_filter_empty, map_size_empty; lia|done|done]. }
  cbn [fst] in *. destruct (r_flags _ _ _ _ _ Hr) as (F1 & F2 & F3 & F4).
  split; [done|]. split; [|split; [|split; [|split]]].
  - intros ss. rewrite (refines_size _ _ _ _ _ _ Hr). apply B1.
  - intros p. rewrite (refines_count _ _ _ _ _ _ Hr). split; [done|apply B2].
  - apply (r_total _ _ _ _ _ Hr).
  - rewrite F1, F3. done.
  - rewrite (r_total _ _ _ _ _ Hr). intros Hz. assert (Hem : s_live s = ∅) by (apply map_size_empty_inv; lia).
    split; [|split]; apply map_empty.
    + intros ss. pose proof (entry_Some _ _ _ _ _ ss Hr) as He. destruct (sessions l !! ss); [|done].
      destruct He as (sc & _ & _ & Hc & Hne). rewrite Hem in Hc. unfold on_session in Hc.
      by rewrite map_filter_empty, dom_empty_L in Hc.
    + intros p. rewrite (r_principals _ _ _ _ _ Hr), Hem. unfold of_principal. by rewrite map_filter_empty, map_size_empty.
    + intros a. destruct (releases l !! a) eqn:E; [|done]. apply (r_releases _ _ _ _ _ Hr) in E as [E _].
      rewrite Hem in E. by rewrite lookup_empty in E.
Qed.

Lemma callLimits_refines_witness :
  let ops := [OAdmit "alice" (Some 1%nat); OAdmit "alice" (Some 1%nat); ORelease 0%nat; ORelease 0%nat; OInFlight] in
  snd (run_ops (exec (λ _, "id")) (newCallLimits 1 4) ops) =
    [OutCall 0%nat; OutRefused (RSession 1); OutU; OutU; OutZ 0] ∧
  let '(l, xs) := run_ops (exec (λ _, "id")) (newCallLimits 1 4) ops in
  let '(s, ys) := run_ops (s_exec 1 4 (λ _, "id")) running0 ops in xs = ys.
Proof.
  cbv zeta. split; [by vm_compute|].
  assert (Hb : Forall (bound (λ _, "alice"))
    [OAdmit "alice" (Some 1%nat); OAdmit "alice" (Some 1%nat); ORelease 0%nat; ORelease 0%nat; OInFlight])
    by (repeat constructor).
  pose proof (callLimits_refines 1 4 (λ _, "id") (λ _, "alice") _ eq_refl ltac:(lia) Hb) as Hr.
  destruct (run_ops (exec _) _ _), (run_ops (s_exec _ _ _) _ _). by destruct Hr as [Hr _].
Defined.

(** an idle session that is claimed for eviction is never called again.
    Once [claimIdle] has answered true, whatever happens next, short of the
    session having ended and been forgotten, no call runs on the session and
    every admission on it is refused as such, without any change. *)
Theorem claimIdle_final ps pp ID owner ops1 ops2 n principal :
  0 < ps → Forall (bound owner) (ops1 ++ ops2) → OForget (Some n) ∉ ops2 →
  let l1 := fst (run_ops (exec ID) (newCallLimits ps pp) ops1) in
  snd (claimIdle l1 (Some n)) = true →
  let l2 := fst (run_ops (exec ID) (fst (claimIdle l1 (Some n))) ops2) in
  entry_calls l2 (Some n) = ∅ ∧
  admit_call l2 principal (Some n) = (l2, inl (if closed l2 then RClosed else RRetired)).
Proof.
  cbv zeta. intros H0 Hb Hf. apply Forall_app in Hb as [Hb1 Hb2].
  pose proof (run_refines ps pp ID owner ops1 _ _ H0 (refines0 ps pp owner) Hb1) as Hr1.
  destruct (run_ops (exec ID) (newCallLimits ps pp) ops1) as [l1 xs1], (run_ops (s_exec ps pp ID) _ ops1) as [s1 ys1].
  destruct Hr1 as [_ Hr1]. cbn [fst].
  pose proof (exec_refines ps pp ID owner l1 s1 (OClaimIdle (Some n)) H0 Hr1 I) as Hc. cbn [exec s_exec] in Hc.
  destruct (claimIdle l1 (Some n)) as [l1' b]. cbn [fst snd]. intros ->.
  case_bool_decide as He; destruct Hc as [? Hr1']; [|done].
  pose proof (run_refines ps pp ID owner ops2 _ _ H0 Hr1' Hb2) as Hr2.
  destruct (run_idle ps pp ID n ops2 (s_retire s1 (Some n))) as [I1 I2]; [cbn; set_solver|done|done|].
  destruct (run_ops (exec ID) l1' ops2) as [l2 xs2], (run_ops (s_exec ps pp ID) _ ops2) as [s2 ys2].
  destruct Hr2 as [_ Hr2]. cbn [fst] in *. destruct (r_flags _ _ _ _ _ Hr2) as (F1 & F2 & F3 & F4).
  split; [by rewrite (r_calls _ _ _ _ _ Hr2), I2, dom_empty_L|].
  unfold admit_call, admit_check. destruct (closed l2); [done|]. unfold isRetired. by rewrite F2, bool_decide_eq_true_2.
Qed.

Lemma claimIdle_final_witness :
  let l1 := fst (run_ops (exec (λ _, "id")) (newCallLimits 2 4) [OAdmit "bob" (Some 2%nat)]) in
  let l2 := fst (claimIdle l1 (Some 1%nat)) in
  admit_call l2 "alice" (Some 1%nat) = (l2, inl RRetired).
Proof.
  cbv zeta. apply (claimIdle_final 2 4 (λ _, "id") (λ n, if (n =? 2)%nat then "bob" else "alice")
    [OAdmit "bob" (Some 2%nat)] [] 1%nat "alice"); [lia|by repeat constructor|apply not_elem_of_nil|by vm_compute].
Defined.
