(* ===== verification/Sessions.v ===== *)
(** * The listener's sessions: internal/proxy/http.go

    The caps on requests and on stateful sessions, the idle clock of each
    session, and the eviction of a principal's least recently used idle session
    when a cap is reached.  Every operation is one step: it runs under the
    handler's lock or, for the end of a request on a live session, the clock and
    the watcher's stop, under the session's.  Live sessions and slots are
    pointers, so the heap of both is explicit, and requests in progress keep
    what they captured.  Theorems: the caps hold and
    are counted exactly; a session is evicted or expires only when no request of
    its own is in progress; reserving a session always ends. *)

From S2P Require Import Prelude GoStd CallLimits Listener.

Open Scope string_scope.
Open Scope Z_scope.
Open Scope list_scope.

(** [liveSession]; [lv_timer] says the timer exists, [lv_running] that it
    counts down. *)
Record liveSession := {
  lv_ss : nat; lv_sid : string; lv_principal : string; lv_slot : nat; lv_evicted : bool;
  lv_active : Z; lv_gets : Z; lv_timer : bool; lv_stopped : bool; lv_running : bool; lv_lastSeq : Z;
}.

Record sessionSlot := { sl_principal : string; sl_released : bool }.

Record capLogState := { cl_last : option Z; cl_suppressed : Z }.

(** [httpHandler] with the calls limits of its proxy; [slots] and [heap] are
    the slots and live sessions by address. *)
Record httpHandler := {
  inFlightPOSTs : Z; perPrincipalPOSTs : gmap string Z;
  openSessions : Z; sessionsPerPrincipal : gmap string Z;
  live : gmap string nat; heap : gmap nat liveSession; slots : gmap nat sessionSlot;
  early : gmap (string * string) Z; earlyGets : gmap (string * string) Z;
  useSeq : Z; capLog : gmap string capLogState; limits : callLimits;
}.

Definition newHandler (l : callLimits) : httpHandler :=
  {| inFlightPOSTs := 0; perPrincipalPOSTs := ∅; openSessions := 0; sessionsPerPrincipal := ∅; live := ∅; heap := ∅; slots := ∅;
     early := ∅; earlyGets := ∅; useSeq := 0; capLog := ∅; limits := l |}.

(** A count that is deleted at zero. *)
Definition count_at {K} `{Countable K} (m : gmap K Z) (k : K) : Z := default 0 (m !! k).
Definition count_up {K} `{Countable K} (m : gmap K Z) (k : K) : gmap K Z := <[k := count_at m k + 1]> m.
Definition count_down {K} `{Countable K} (m : gmap K Z) (k : K) : gmap K Z :=
  if count_at m k - 1 <=? 0 then delete k m else <[k := count_at m k - 1]> m.

(** ** Field updates *)

Definition with_posts (h : httpHandler) (n : Z) (m : gmap string Z) : httpHandler :=
  {| inFlightPOSTs := n; perPrincipalPOSTs := m; openSessions := openSessions h; sessionsPerPrincipal := sessionsPerPrincipal h;
     live := live h; heap := heap h; slots := slots h; early := early h; earlyGets := earlyGets h; useSeq := useSeq h;
     capLog := capLog h; limits := limits h |}.
Definition with_slots (h : httpHandler) (n : Z) (m : gmap string Z) (s : gmap nat sessionSlot) : httpHandler :=
  {| inFlightPOSTs := inFlightPOSTs h; perPrincipalPOSTs := perPrincipalPOSTs h; openSessions := n; sessionsPerPrincipal := m;
     live := live h; heap := heap h; slots := s; early := early h; earlyGets := earlyGets h; useSeq := useSeq h;
     capLog := capLog h; limits := limits h |}.
Definition with_live (h : httpHandler) (l : gmap string nat) (m : gmap nat liveSession) (seq : Z) : httpHandler :=
  {| inFlightPOSTs := inFlightPOSTs h; perPrincipalPOSTs := perPrincipalPOSTs h; openSessions := openSessions h;
     sessionsPerPrincipal := sessionsPerPrincipal h; live := l; heap := m; slots := slots h; early := early h; earlyGets := earlyGets h;
     useSeq := seq; capLog := capLog h; limits := limits h |}.
Definition with_early (h : httpHandler) (e g : gmap (string * string) Z) : httpHandler :=
  {| inFlightPOSTs := inFlightPOSTs h; perPrincipalPOSTs := perPrincipalPOSTs h; openSessions := openSessions h;
     sessionsPerPrincipal := sessionsPerPrincipal h; live := live h; heap := heap h; slots := slots h; early := e; earlyGets := g;
     useSeq := useSeq h; capLog := capLog h; limits := limits h |}.
Definition with_limits (h : httpHandler) (l : callLimits) (c : gmap string capLogState) : httpHandler :=
  {| inFlightPOSTs := inFlightPOSTs h; perPrincipalPOSTs := perPrincipalPOSTs h; openSessions := openSessions h;
     sessionsPerPrincipal := sessionsPerPrincipal h; live := live h; heap := heap h; slots := slots h; early := early h;
     earlyGets := earlyGets h; useSeq := useSeq h; capLog := c; limits := l |}.

Definition set_counts (s : liveSession) (active gets : Z) (timer stopped running : bool) (seq : Z) : liveSession :=
  {| lv_ss := lv_ss s; lv_sid := lv_sid s; lv_principal := lv_principal s; lv_slot := lv_slot s; lv_evicted := lv_evicted s;
     lv_active := active; lv_gets := gets; lv_timer := timer; lv_stopped := stopped; lv_running := running; lv_lastSeq := seq |}.
Definition set_evicted (s : liveSession) : liveSession :=
  {| lv_ss := lv_ss s; lv_sid := lv_sid s; lv_principal := lv_principal s; lv_slot := lv_slot s; lv_evicted := true;
     lv_active := lv_active s; lv_gets := lv_gets s; lv_timer := lv_timer s; lv_stopped := lv_stopped s; lv_running := lv_running s;
     lv_lastSeq := lv_lastSeq s |}.

(** ** One session *)

(** [touchLocked] gives the session the next value of the uint64 counter. *)
Definition next_seq (h : httpHandler) : Z := (useSeq h + 1) mod 2 ^ 64.

Definition startPOST_s (s : liveSession) : liveSession :=
  set_counts s (lv_active s + 1) (lv_gets s) (lv_timer s) (lv_stopped s)
    (if (lv_active s =? 0) && lv_timer s then false else lv_running s) (lv_lastSeq s).
Definition endPOST_s (s : liveSession) (seq : Z) : liveSession :=
  let n := lv_active s - 1 in
  set_counts s n (lv_gets s) (lv_timer s) (lv_stopped s)
    (if (n =? 0) && lv_timer s && negb (lv_stopped s) then true else lv_running s) seq.
Definition startGET_s (s : liveSession) : liveSession :=
  set_counts s (lv_active s) (lv_gets s + 1) (lv_timer s) (lv_stopped s) (lv_running s) (lv_lastSeq s).
Definition endGET_s (s : liveSession) (seq : Z) : liveSession :=
  set_counts s (lv_active s) (lv_gets s - 1) (lv_timer s) (lv_stopped s) (lv_running s) seq.
Definition arm_s (s : liveSession) : liveSession :=
  if lv_stopped s || lv_timer s then s
  else set_counts s (lv_active s) (lv_gets s) true (lv_stopped s) (negb (0 <? lv_active s)) (lv_lastSeq s).
Definition stop_s (s : liveSession) : liveSession :=
  set_counts s (lv_active s) (lv_gets s) (lv_timer s) true false (lv_lastSeq s).
(** [idleState], its answer. *)
Definition idle_s (s : liveSession) : bool := (lv_active s =? 0) && (lv_gets s =? 0) && negb (lv_stopped s).

Definition update (h : httpHandler) (a : nat) (f : liveSession → liveSession) : httpHandler :=
  with_live h (live h) (alter f a (heap h)) (useSeq h).
(** An update that touches the session. *)
Definition update_touch (h : httpHandler) (a : nat) (f : liveSession → Z → liveSession) : httpHandler :=
  with_live h (live h) (alter (λ s, f s (next_seq h)) a (heap h)) (next_seq h).

Definition live_at (h : httpHandler) (sid : string) : option (nat * liveSession) :=
  match live h !! sid with Some a => (λ s, (a, s)) <$> heap h !! a | None => None end.

Definition arm (h : httpHandler) (a : nat) : httpHandler := update h a arm_s.
Definition stop (h : httpHandler) (a : nat) : httpHandler := update h a stop_s.

(** [expire]: whether it retired the session. *)
Definition expire (h : httpHandler) (a : nat) : httpHandler * bool :=
  match heap h !! a with
  | None => (h, false)
  | Some s =>
      if lv_stopped s || (0 <? lv_active s) then (h, false)
      else let h := stop h a in (with_limits h (fst (retire (limits h) (Some (lv_ss s)))) (capLog h), true)
  end.

(** ** Requests in progress *)

(** What a request captured: nothing, a live session, or an early count. *)
Inductive in_progress := PNothing | PLive (a : nat) | PEarly (sid principal : string).

Definition beginPOST (h : httpHandler) (sid principal : string) : option (httpHandler * in_progress) :=
  match live_at h sid with
  | Some (a, s) =>
      if negb (String.eqb (lv_principal s) principal) then Some (h, PNothing)
      else if lv_evicted s then None
      else Some (update h a startPOST_s, PLive a)
  | None => Some (with_early h (count_up (early h) (sid, principal)) (earlyGets h), PEarly sid principal)
  end.

Definition endPOST (h : httpHandler) (p : in_progress) : httpHandler :=
  match p with
  | PNothing => h
  | PLive a => update_touch h a endPOST_s
  | PEarly sid principal =>
      match live_at h sid with
      | Some (a, s) =>
          if String.eqb (lv_principal s) principal then update_touch h a endPOST_s
          else if 0 <? count_at (early h) (sid, principal) then with_early h (count_down (early h) (sid, principal)) (earlyGets h) else h
      | None => if 0 <? count_at (early h) (sid, principal) then with_early h (count_down (early h) (sid, principal)) (earlyGets h) else h
      end
  end.

Definition beginGET (h : httpHandler) (sid principal : string) : option (httpHandler * in_progress) :=
  match live_at h sid with
  | Some (a, s) =>
      if negb (String.eqb (lv_principal s) principal) then Some (h, PNothing)
      else if lv_evicted s then None
      else Some (update h a startGET_s, PLive a)
  | None => Some (with_early h (early h) (count_up (earlyGets h) (sid, principal)), PEarly sid principal)
  end.

Definition endGET (h : httpHandler) (p : in_progress) : httpHandler :=
  match p with
  | PNothing => h
  | PLive a => update_touch h a endGET_s
  | PEarly sid principal =>
      match live_at h sid with
      | Some (a, s) =>
          if String.eqb (lv_principal s) principal then update_touch h a endGET_s
          else if 0 <? count_at (earlyGets h) (sid, principal) then with_early h (early h) (count_down (earlyGets h) (sid, principal)) else h
      | None => if 0 <? count_at (earlyGets h) (sid, principal) then with_early h (early h) (count_down (earlyGets h) (sid, principal)) else h
      end
  end.

(** ** The POST caps *)

Definition acquirePOST (o : HTTPOptions) (h : httpHandler) (principal : string) : option httpHandler :=
  if (MaxInFlight o <=? inFlightPOSTs h) || (MaxInFlightPerPrincipal o <=? count_at (perPrincipalPOSTs h) principal) then None
  else Some (with_posts h (inFlightPOSTs h + 1) (count_up (perPrincipalPOSTs h) principal)).

Definition releasePOST (h : httpHandler) (principal : string) : httpHandler :=
  with_posts h (inFlightPOSTs h - 1) (count_down (perPrincipalPOSTs h) principal).

(** ** Slots *)

(** [releaseLocked]. *)
Definition release_slot (h : httpHandler) (s : nat) : httpHandler :=
  match slots h !! s with
  | None => h
  | Some sl =>
      if sl_released sl then h
      else with_slots h (openSessions h - 1) (count_down (sessionsPerPrincipal h) (sl_principal sl))
             (<[s := {| sl_principal := sl_principal sl; sl_released := true |}]> (slots h))
  end.

Definition cap_reason (o : HTTPOptions) (h : httpHandler) (principal : string) : string :=
  if MaxSessionsPerPrincipal o <=? count_at (sessionsPerPrincipal h) principal then "too many sessions open for this principal"
  else if MaxSessions o <=? openSessions h then "too many sessions open"
  else "".

Definition seq_le (a b : nat * liveSession) : Prop := lv_lastSeq (snd a) <= lv_lastSeq (snd b).
#[export] Instance seq_le_dec a b : Decision (seq_le a b).
Proof. unfold seq_le. apply _. Defined.

(** The principal's idle sessions, least recently used first. *)
Definition candidates (h : httpHandler) (principal : string) : list (nat * liveSession) :=
  merge_sort seq_le
    (List.filter (λ c, String.eqb (lv_principal (snd c)) principal && negb (lv_evicted (snd c)) && idle_s (snd c))
       (omap (λ kv, (λ s, (snd kv, s)) <$> heap h !! snd kv) (map_to_list (live h)))).

(** The first of them that callLimits retires. *)
Fixpoint claim_first (l : callLimits) (cs : list (nat * liveSession)) : callLimits * option nat :=
  match cs with
  | [] => (l, None)
  | (a, s) :: cs => match claimIdle l (Some (lv_ss s)) with (l, true) => (l, Some a) | (l, false) => claim_first l cs end
  end.

Definition claimEvictable (h : httpHandler) (principal : string) : httpHandler * option nat :=
  let '(l, r) := claim_first (limits h) (candidates h principal) in (with_limits h l (capLog h), r).

(** [evictLocked]. *)
Definition evict (h : httpHandler) (a : nat) : httpHandler :=
  let h := stop (update h a set_evicted) a in
  match heap h !! a with Some s => release_slot h (lv_slot s) | None => h end.

(** [capLogAllowLocked], [now] in nanoseconds. *)
Definition capLogAllow (h : httpHandler) (principal : string) (now : Z) : httpHandler * (bool * Z) :=
  let st := default {| cl_last := None; cl_suppressed := 0 |} (capLog h !! principal) in
  match cl_last st with
  | Some last =>
      if now - last <? 1000000000
      then (with_limits h (limits h) (<[principal := {| cl_last := Some last; cl_suppressed := cl_suppressed st + 1 |}]> (capLog h)), (false, 0))
      else (with_limits h (limits h) (<[principal := {| cl_last := Some now; cl_suppressed := 0 |}]> (capLog h)), (true, cl_suppressed st))
  | None => (with_limits h (limits h) (<[principal := {| cl_last := Some now; cl_suppressed := 0 |}]> (capLog h)), (true, cl_suppressed st))
  end.

(** The loop of [reserveSession]: evict until there is room; the reason if
    there is none to make. *)
Fixpoint make_room (fuel : nat) (o : HTTPOptions) (h : httpHandler) (principal : string) (evicted : list nat) :
    option (httpHandler * list nat * string) :=
  let reason := cap_reason o h principal in
  if String.eqb reason "" then Some (h, evicted, "")
  else match fuel with
  | O => None
  | S fuel =>
      match claimEvictable h principal with
      | (h, None) => Some (h, evicted, reason)
      | (h, Some a) => make_room fuel o (evict h a) principal (evicted ++ [a])
      end
  end.

(** [reserveSession] under its lock: the slot, or the reason of the 503 with
    what may be logged; the evicted sessions are closed afterwards. *)
Definition reserveSession (fuel : nat) (o : HTTPOptions) (h : httpHandler) (principal : string) (slot : nat) (now : Z) :
    option (httpHandler * list nat * (string + (string * bool * Z))) :=
  match make_room fuel o h principal [] with
  | None => None
  | Some (h, evicted, reason) =>
      if String.eqb reason "" then
        Some (with_slots h (openSessions h + 1) (count_up (sessionsPerPrincipal h) principal)
                (<[slot := {| sl_principal := principal; sl_released := false |}]> (slots h)), evicted, inl "")
      else
        let '(h, (log, suppressed)) := capLogAllow h principal now in
        Some (h, evicted, inr (reason, log, suppressed))
  end.

(** [sessionUse] and [useLocked]. *)
Record sessionUse := { us_sessions : Z; us_posting : Z; us_streaming : Z; us_calling : Z; us_closing : Z }.

Definition add_use (l : callLimits) (principal : string) (u : sessionUse) (s : liveSession) : sessionUse :=
  let n (b : bool) := if b then 1 else 0 in
  if negb (String.eqb (lv_principal s) principal) then u
  else if lv_stopped s || lv_evicted s then
    {| us_sessions := us_sessions u + 1; us_posting := us_posting u; us_streaming := us_streaming u; us_calling := us_calling u;
       us_closing := us_closing u + 1 |}
  else {| us_sessions := us_sessions u + 1; us_posting := us_posting u + n (0 <? lv_active s); us_streaming := us_streaming u + n (0 <? lv_gets s);
          us_calling := us_calling u + n (busy l (Some (lv_ss s))); us_closing := us_closing u |}.

Definition use (h : httpHandler) (principal : string) : sessionUse :=
  foldl (add_use (limits h) principal) {| us_sessions := 0; us_posting := 0; us_streaming := 0; us_calling := 0; us_closing := 0 |}
    (omap (λ kv, heap h !! snd kv) (map_to_list (live h))).

(** ** A session's life *)

(** [register]: the session at [a] takes over the early counts. *)
Definition register (h : httpHandler) (a : nat) (ss : nat) (sid principal : string) (slot : nat) : httpHandler :=
  let k := (sid, principal) in
  let s := {| lv_ss := ss; lv_sid := sid; lv_principal := principal; lv_slot := slot; lv_evicted := false;
              lv_active := count_at (early h) k; lv_gets := count_at (earlyGets h) k; lv_timer := false; lv_stopped := false;
              lv_running := false; lv_lastSeq := next_seq h |} in
  let h := with_live h (<[sid := a]> (live h)) (<[a := s]> (heap h)) (next_seq h) in
  with_early h (delete k (early h)) (delete k (earlyGets h)).

(** What settleSession's watcher does once the session has ended and its clock
    is stopped, under the lock. *)
Definition watcher_forget (h : httpHandler) (a : nat) : httpHandler :=
  match heap h !! a with
  | None => h
  | Some s =>
      let l := if bool_decide (live h !! lv_sid s = Some a) && negb (lv_evicted s) then delete (lv_sid s) (live h) else live h in
      let h := with_live h l (heap h) (useSeq h) in
      with_limits h (forget (limits h) (Some (lv_ss s))) (capLog h)
  end.

(** settleSession when the proxy is closing, under the lock. *)
Definition drop_unwatched (h : httpHandler) (a : nat) : httpHandler :=
  match heap h !! a with None => h | Some s => with_live h (delete (lv_sid s) (live h)) (heap h) (useSeq h) end.

Definition forgetEvicted (h : httpHandler) (a : nat) : httpHandler :=
  match heap h !! a with
  | None => h
  | Some s => if decide (live h !! lv_sid s = Some a) then with_live h (delete (lv_sid s) (live h)) (heap h) (useSeq h) else h
  end.
