(* ===== verification/SessionRun.v ===== *)
(** * The listener's sessions over time: internal/proxy/http.go

    The requests, clocks and watchers of the listener as events, each one step
    over the handler and what the requests in progress hold; their slots and
    POSTs are counted, a reservation always ends, and the table of sessions is
    kept. *)

From S2P Require Import Prelude GoStd CallLimits Listener Sessions.

Open Scope string_scope.
Open Scope Z_scope.
Open Scope list_scope.

(** ** Counting *)

Section Count.
Context {K : Type} `{Countable K} {V : Type}.

(** How many values of [m] satisfy [f]. *)
Definition count (f : V → bool) (m : gmap K V) : Z := Z.of_nat (size (filter (λ kv : K * V, f kv.2 = true) m)).

Definition b2z (b : bool) : Z := if b then 1 else 0.

Lemma count_empty f : count f ∅ = 0.
Proof. unfold count. by rewrite map_filter_empty, map_size_empty. Qed.

Lemma count_nonneg f m : 0 <= count f m.
Proof. unfold count. lia. Qed.

Lemma count_insert f m i x : m !! i = None → count f (<[i := x]> m) = count f m + b2z (f x).
Proof.
  intros Hi. unfold count, b2z. destruct (f x) eqn:Hx.
  - rewrite map_filter_insert_True by done. rewrite map_size_insert_None by (by apply map_lookup_filter_None_2; left). lia.
  - rewrite map_filter_insert_False by (cbn; congruence). rewrite delete_id by done. lia.
Qed.

Lemma count_delete f m i x : m !! i = Some x → count f (delete i m) = count f m - b2z (f x).
Proof.
  intros Hi. rewrite <- (insert_delete_id m i x Hi) at 2. rewrite count_insert by apply lookup_delete_eq. lia.
Qed.

Lemma count_update f m i x y : m !! i = Some x → count f (<[i := y]> m) = count f m - b2z (f x) + b2z (f y).
Proof.
  intros Hi. rewrite <- (insert_delete_eq m i y), count_insert by apply lookup_delete_eq. by rewrite (count_delete _ _ _ _ Hi).
Qed.

Lemma count_ext f g m : (∀ i x, m !! i = Some x → f x = g x) → count f m = count g m.
Proof.
  intros Hfg. unfold count. do 2 f_equal. apply map_filter_ext. intros i x Hx. cbn. by rewrite (Hfg i x Hx).
Qed.

Lemma count_zero f m : count f m = 0 → ∀ i x, m !! i = Some x → f x = false.
Proof.
  intros Hc i x Hx. destruct (f x) eqn:Hf; [|done]. pose proof (count_delete f m i x Hx) as Hd. rewrite Hf in Hd.
  pose proof (count_nonneg f (delete i m)). unfold b2z in Hd. lia.
Qed.

Lemma count_none f m : (∀ i x, m !! i = Some x → f x = false) → count f m = 0.
Proof.
  intros Hf. unfold count. replace (filter _ m) with (∅ : gmap K V); [by rewrite map_size_empty|]. symmetry. apply map_empty.
  intros i. apply map_lookup_filter_None_2. right. intros x Hx. cbn. by rewrite (Hf i x Hx).
Qed.
End Count.

#[export] Hint Rewrite @count_empty : count.

Section Tally.
Context {K : Type} `{Countable K}.

Lemma count_at_up (m : gmap K Z) k k' : count_at (count_up m k) k' = count_at m k' + b2z (bool_decide (k = k')).
Proof.
  unfold count_up, b2z. case_bool_decide as Hk; [subst k'|].
  - unfold count_at at 1. by rewrite lookup_insert_eq.
  - unfold count_at. rewrite lookup_insert_ne by done. lia.
Qed.

Lemma count_at_down (m : gmap K Z) k k' : 1 <= count_at m k → count_at (count_down m k) k' = count_at m k' - b2z (bool_decide (k = k')).
Proof.
  intros Hp. unfold count_down, b2z. destruct (Z.leb_spec (count_at m k - 1) 0); case_bool_decide as Hk; try subst k'.
  - unfold count_at at 1. rewrite lookup_delete_eq. cbn. lia.
  - unfold count_at. rewrite lookup_delete_ne by done. lia.
  - unfold count_at at 1. rewrite lookup_insert_eq. cbn. lia.
  - unfold count_at. rewrite lookup_insert_ne by done. lia.
Qed.
End Tally.

#[export] Instance in_progress_dec : EqDecision in_progress.
Proof. solve_decision. Defined.

Definition at_b (x y : in_progress) : bool := bool_decide (x = y).
Definition owned_b (p q : string) : bool := bool_decide (p = q).
Definition open_b (s : sessionSlot) : bool := negb (sl_released s).
Definition open_of (p : string) (s : sessionSlot) : bool := negb (sl_released s) && bool_decide (sl_principal s = p).

(** ** Events *)

(** Where a session is between its registration and the end of its watcher. *)
Inductive phase := Registered | Watched | Unwatched | Halted | Forgotten | Dropped.
#[export] Instance phase_dec : EqDecision phase.
Proof. solve_decision. Defined.

(** The handler, and what the requests in progress hold: the principals of
    the admitted POSTs, the POSTs and GETs on a session, the slots reserved and
    not settled, each session's phase, and the ids and sessions go-sdk has given out. *)
Record world := {
  w_h : httpHandler; w_held : gmap nat string; w_posts : gmap nat in_progress; w_gets : gmap nat in_progress;
  w_pending : gset nat; w_phase : gmap nat phase; w_sids : gset string; w_sessions : gset nat;
}.

Definition newWorld (l : callLimits) : world :=
  {| w_h := newHandler l; w_held := ∅; w_posts := ∅; w_gets := ∅; w_pending := ∅; w_phase := ∅; w_sids := ∅; w_sessions := ∅ |}.

Definition set_h (w : world) (h : httpHandler) : world :=
  {| w_h := h; w_held := w_held w; w_posts := w_posts w; w_gets := w_gets w; w_pending := w_pending w; w_phase := w_phase w; w_sids := w_sids w; w_sessions := w_sessions w |}.
Definition set_phase (w : world) (h : httpHandler) (a : nat) (p : phase) : world :=
  {| w_h := h; w_held := w_held w; w_posts := w_posts w; w_gets := w_gets w; w_pending := w_pending w; w_phase := <[a := p]> (w_phase w);
     w_sids := w_sids w; w_sessions := w_sessions w |}.
Definition set_held (w : world) (h : httpHandler) (m : gmap nat string) : world :=
  {| w_h := h; w_held := m; w_posts := w_posts w; w_gets := w_gets w; w_pending := w_pending w; w_phase := w_phase w; w_sids := w_sids w; w_sessions := w_sessions w |}.
Definition set_posts (w : world) (h : httpHandler) (m : gmap nat in_progress) : world :=
  {| w_h := h; w_held := w_held w; w_posts := m; w_gets := w_gets w; w_pending := w_pending w; w_phase := w_phase w; w_sids := w_sids w; w_sessions := w_sessions w |}.
Definition set_gets (w : world) (h : httpHandler) (m : gmap nat in_progress) : world :=
  {| w_h := h; w_held := w_held w; w_posts := w_posts w; w_gets := m; w_pending := w_pending w; w_phase := w_phase w; w_sids := w_sids w; w_sessions := w_sessions w |}.
Definition set_pending (w : world) (h : httpHandler) (s : gset nat) : world :=
  {| w_h := h; w_held := w_held w; w_posts := w_posts w; w_gets := w_gets w; w_pending := s; w_phase := w_phase w; w_sids := w_sids w; w_sessions := w_sessions w |}.

Inductive event :=
  | EAcquire (i : nat) (principal : string) | ERelease (i : nat)
  | EBeginPOST (i : nat) (sid principal : string) | EEndPOST (i : nat)
  | EBeginGET (i : nat) (sid principal : string) | EEndGET (i : nat)
  | EReserve (slot : nat) (principal : string) (now : Z) | EUnkept (slot : nat)
  | ERegister (a ss : nat) (sid : string) (slot : nat)
  | ETrack (a : nat) | EDrop (a : nat) | EArm (a : nat) | EHalt (a : nat) | EForget (a : nat) | EGiveBack (a : nat)
  | EExpire (a : nat) | EForgetEvicted (a : nat)
  | ECall (o : op).

(** What the proxy does with the calls outside this file. *)
Definition call_op (o : op) : Prop :=
  match o with OAdmit _ _ | ORelease _ | OCancelSession _ _ | OClose | OBusy _ | OInFlight => True | _ => False end.
#[export] Instance call_op_dec o : Decision (call_op o).
Proof. destruct o; apply _. Defined.

Section Exec.
Context (o : HTTPOptions) (ID : nat → string).

Definition when {A} (P : Prop) `{Decision P} (x : option A) : option A := if decide P then x else None.

(** Moves a session from one of the phases [from] with an update of the handler. *)
Definition move (w : world) (a : nat) (from : list phase) (f : httpHandler → httpHandler * phase) : option world :=
  match w_phase w !! a with
  | Some q => when (q ∈ from) (let '(h, q) := f (w_h w) in Some (set_phase w h a q))
  | None => None
  end.

(** One event; [None] when it cannot happen now: a request ends once, go-sdk
    never gives out an id or a session twice, a timer's callback runs only when
    there is a timer, and a watcher goes through its steps in order. *)
Definition exec_event (w : world) (e : event) : option world :=
  let h := w_h w in
  match e with
  | EAcquire i p => when (w_held w !! i = None)
      match acquirePOST o h p with Some h => Some (set_held w h (<[i := p]> (w_held w))) | None => Some w end
  | ERelease i => match w_held w !! i with Some p => Some (set_held w (releasePOST h p) (delete i (w_held w))) | None => None end
  | EBeginPOST i sid p => when (w_posts w !! i = None)
      match beginPOST h sid p with Some (h, x) => Some (set_posts w h (<[i := x]> (w_posts w))) | None => Some w end
  | EEndPOST i => match w_posts w !! i with Some x => Some (set_posts w (endPOST h x) (delete i (w_posts w))) | None => None end
  | EBeginGET i sid p => when (w_gets w !! i = None)
      match beginGET h sid p with Some (h, x) => Some (set_gets w h (<[i := x]> (w_gets w))) | None => Some w end
  | EEndGET i => match w_gets w !! i with Some x => Some (set_gets w (endGET h x) (delete i (w_gets w))) | None => None end
  | EReserve k p now => when (slots h !! k = None)
      match reserveSession (S (size (live h))) o h p k now with
      | None => None
      | Some (h, _, inl _) => Some (set_pending w h ({[ k ]} ∪ w_pending w))
      | Some (h, _, inr _) => Some (set_h w h)
      end
  | EUnkept k => when (k ∈ w_pending w) (Some (set_pending w (release_slot h k) (w_pending w ∖ {[ k ]})))
  | ERegister a ss sid k =>
      when (k ∈ w_pending w ∧ w_phase w !! a = None ∧ sid ∉ w_sids w ∧ ss ∉ w_sessions w)
      match slots h !! k with
      | None => None
      | Some sl =>
          Some {| w_h := Sessions.register h a ss sid (sl_principal sl) k; w_held := w_held w; w_posts := w_posts w; w_gets := w_gets w;
                  w_pending := w_pending w ∖ {[ k ]}; w_phase := <[a := Registered]> (w_phase w); w_sids := {[ sid ]} ∪ w_sids w;
                  w_sessions := {[ ss ]} ∪ w_sessions w |}
      end
  | ETrack a => move w a [Registered] (λ h, (h, if track (limits h) then Watched else Unwatched))
  | EDrop a => move w a [Unwatched] (λ h, (drop_unwatched h a, Dropped))
  | EArm a => match w_phase w !! a with Some q => when (q ∈ [Watched; Halted; Forgotten]) (Some (set_h w (arm h a))) | None => None end
  | EHalt a => move w a [Watched] (λ h, (stop h a, Halted))
  | EForget a => move w a [Halted] (λ h, (watcher_forget h a, Forgotten))
  | EGiveBack a =>
      match w_phase w !! a, Sessions.heap h !! a with
      | Some q, Some s => when (q ∈ [Forgotten; Dropped]) (Some (set_h w (release_slot h (lv_slot s))))
      | _, _ => None
      end
  | EExpire a =>
      match Sessions.heap h !! a with Some s => when (lv_timer s = true) (Some (set_h w (fst (expire h a)))) | None => None end
  | EForgetEvicted a =>
      match Sessions.heap h !! a with Some s => when (lv_evicted s = true) (Some (set_h w (forgetEvicted h a))) | None => None end
  | ECall c => when (call_op c) (Some (set_h w (with_limits h (fst (exec ID (limits h) c)) (capLog h))))
  end.

Fixpoint run_events (w : world) (es : list event) : option world :=
  match es with [] => Some w | e :: es => match exec_event w e with Some w => run_events w es | None => None end end.
End Exec.

(** ** Requests and slots are counted *)

Section Slots.
Context (o : HTTPOptions).

(** The POSTs in flight are counted and within both caps. *)
Record posts_ok (h : httpHandler) (held : gmap nat string) : Prop := {
  p_all : inFlightPOSTs h = count (λ _, true) held;
  p_each p : count_at (perPrincipalPOSTs h) p = count (owned_b p) held;
  p_cap : inFlightPOSTs h <= MaxInFlight o;
  p_cap_each p : count_at (perPrincipalPOSTs h) p <= MaxInFlightPerPrincipal o;
}.

(** So are the sessions' slots. *)
Record slots_ok (h : httpHandler) : Prop := {
  s_all : openSessions h = count open_b (slots h);
  s_each p : count_at (sessionsPerPrincipal h) p = count (open_of p) (slots h);
  s_cap : openSessions h <= MaxSessions o;
  s_cap_each p : count_at (sessionsPerPrincipal h) p <= MaxSessionsPerPrincipal o;
}.

Lemma acquire_ok h held i p h' : posts_ok h held → held !! i = None → acquirePOST o h p = Some h' → posts_ok h' (<[i := p]> held).
Proof.
  intros [Ha He Hc Hce] Hi. unfold acquirePOST. destruct (Z.leb_spec (MaxInFlight o) (inFlightPOSTs h)) as [|H1]; [done|].
  destruct (Z.leb_spec (MaxInFlightPerPrincipal o) (count_at (perPrincipalPOSTs h) p)) as [|H2]; [done|]. cbn [orb]. intros [= <-].
  split; cbn [with_posts inFlightPOSTs perPrincipalPOSTs].
  - rewrite count_insert by done. cbn. lia.
  - intros q. rewrite count_at_up, count_insert, He by done. unfold owned_b. f_equal. f_equal. apply bool_decide_ext. done.
  - lia.
  - intros q. rewrite count_at_up. unfold b2z. case_bool_decide; [subst|]; [lia|]. specialize (Hce q). lia.
Qed.

Lemma release_post_ok h held i p : posts_ok h held → held !! i = Some p → posts_ok (releasePOST h p) (delete i held).
Proof.
  intros [Ha He Hc Hce] Hi.
  assert (Hp : 1 <= count_at (perPrincipalPOSTs h) p).
  { rewrite He, <- (insert_delete_id held i p Hi), count_insert by apply lookup_delete_eq. unfold owned_b. rewrite bool_decide_eq_true_2 by done.
    pose proof (count_nonneg (owned_b p) (delete i held)). unfold owned_b in *. cbn. lia. }
  split; cbn [releasePOST with_posts inFlightPOSTs perPrincipalPOSTs].
  - rewrite (count_delete _ _ i p Hi). cbn. lia.
  - intros q. rewrite count_at_down, (count_delete _ _ i p Hi), He by done. unfold owned_b. do 2 f_equal. apply bool_decide_ext. done.
  - lia.
  - intros q. rewrite count_at_down by done. unfold b2z. specialize (Hce q). case_bool_decide; lia.
Qed.

Lemma release_slot_ok h k : slots_ok h → slots_ok (release_slot h k).
Proof.
  intros [Ha He Hc Hce]. unfold release_slot. destruct (slots h !! k) as [sl|] eqn:Hk; [|done]. destruct (sl_released sl) eqn:Hr; [done|].
  assert (Hd : ∀ f : sessionSlot → bool, f {| sl_principal := sl_principal sl; sl_released := true |} = false →
    count f (<[k := {| sl_principal := sl_principal sl; sl_released := true |}]> (slots h)) = count f (slots h) - b2z (f sl)).
  { intros f Hf. rewrite (count_update _ _ k sl) by done. rewrite Hf. cbn. lia. }
  assert (Hp : 1 <= count_at (sessionsPerPrincipal h) (sl_principal sl)).
  { rewrite He. pose proof (Hd (open_of (sl_principal sl)) eq_refl) as H1. unfold open_of at 3 in H1. rewrite Hr, bool_decide_eq_true_2 in H1 by done.
    pose proof (count_nonneg (open_of (sl_principal sl)) (<[k := {| sl_principal := sl_principal sl; sl_released := true |}]> (slots h))).
    cbn in H1. lia. }
  split; cbn [with_slots openSessions sessionsPerPrincipal slots].
  - rewrite Hd by done. unfold open_b at 2. rewrite Hr. cbn. lia.
  - intros q. rewrite count_at_down, He, Hd by done. unfold open_of at 3. by rewrite Hr.
  - lia.
  - intros q. rewrite count_at_down by done. specialize (Hce q). unfold b2z. case_bool_decide; lia.
Qed.

Lemma slots_ok_ext h h' : openSessions h' = openSessions h → sessionsPerPrincipal h' = sessionsPerPrincipal h → slots h' = slots h →
  slots_ok h → slots_ok h'.
Proof. intros E1 E2 E3 [Ha He Hc Hce]. split; rewrite ?E1, ?E2, ?E3; done. Qed.

Lemma evict_slots_ok h a : slots_ok h → slots_ok (evict h a).
Proof.
  intros Hs. unfold evict. match goal with |- slots_ok (match ?x with _ => _ end) => destruct x end;
    [apply release_slot_ok|]; by apply (slots_ok_ext h).
Qed.

Lemma new_slot_ok h p k : slots_ok h → slots h !! k = None → cap_reason o h p = "" →
  slots_ok (with_slots h (openSessions h + 1) (count_up (sessionsPerPrincipal h) p)
    (<[k := {| sl_principal := p; sl_released := false |}]> (slots h))).
Proof.
  intros [Ha He Hc Hce] Hk. unfold cap_reason. destruct (Z.leb_spec (MaxSessionsPerPrincipal o) (count_at (sessionsPerPrincipal h) p)); [done|].
  destruct (Z.leb_spec (MaxSessions o) (openSessions h)); [done|]. intros _.
  split; cbn [with_slots openSessions sessionsPerPrincipal slots].
  - rewrite count_insert by done. cbn. lia.
  - intros q. rewrite count_at_up, count_insert, He by done. done.
  - lia.
  - intros q. rewrite count_at_up. unfold b2z. case_bool_decide; [subst|]; [lia|]. specialize (Hce q). lia.
Qed.
End Slots.

(** ** Eviction *)

(** A live session of [p] that could be evicted but for its calls. *)
Definition candidate (h : httpHandler) (p : string) (a : nat) (s : liveSession) : Prop :=
  (∃ sid, live h !! sid = Some a) ∧ Sessions.heap h !! a = Some s ∧ lv_principal s = p ∧ lv_evicted s = false ∧
  lv_active s = 0 ∧ lv_gets s = 0 ∧ lv_stopped s = false.

Lemma candidates_spec h p a s : (a, s) ∈ candidates h p ↔ candidate h p a s.
Proof.
  unfold candidates, candidate, idle_s. rewrite merge_sort_Permutation, list_elem_of_In, List.filter_In, <- list_elem_of_In, list_elem_of_omap. cbn.
  rewrite !andb_true_iff, !negb_true_iff, String.eqb_eq, !Z.eqb_eq. split.
  - intros [([sid b] & Hin & Hs) H2]. apply elem_of_map_to_list in Hin. cbn in Hs. apply fmap_Some in Hs as (t & Ht & [= <- <-]).
    split; [by exists sid|]. naive_solver.
  - intros [(sid & Hl) (Hh & H2)]. split; [|naive_solver]. exists (sid, a). split; [by apply elem_of_map_to_list|]. cbn. by rewrite Hh.
Qed.

Lemma candidates_sorted h p : StronglySorted seq_le (candidates h p).
Proof.
  apply StronglySorted_merge_sort.
  - intros x y z. unfold seq_le. lia.
  - intros x y. unfold seq_le. lia.
Qed.

(** The session eviction takes: the least recently used of the candidates
    with no call in flight. *)
Definition victim (h : httpHandler) (p : string) (a : nat) (s : liveSession) : Prop :=
  candidate h p a s ∧ busy (limits h) (Some (lv_ss s)) = false ∧
  ∀ b t, candidate h p b t → busy (limits h) (Some (lv_ss t)) = false → lv_lastSeq s <= lv_lastSeq t.

Lemma claim_first_spec l cs l' r : claim_first l cs = (l', r) → StronglySorted seq_le cs →
  match r with
  | None => l' = l ∧ ∀ c, c ∈ cs → busy l (Some (lv_ss (snd c))) = true
  | Some a => ∃ s, (a, s) ∈ cs ∧ busy l (Some (lv_ss s)) = false ∧ l' = add_retired l (Some (lv_ss s)) ∧
      ∀ c, c ∈ cs → busy l (Some (lv_ss (snd c))) = false → lv_lastSeq s <= lv_lastSeq (snd c)
  end.
Proof.
  induction cs as [|[a s] cs IH]; cbn [claim_first].
  { intros [= <- <-] _. split; [done|]. intros c Hc. by apply not_elem_of_nil in Hc. }
  unfold claimIdle. intros Hc Hs. apply StronglySorted_cons in Hs as [Hle Hs]. destruct (busy l (Some (lv_ss s))) eqn:Hb.
  - specialize (IH Hc Hs). destruct r as [b|].
    + destruct IH as (t & Hin & Ht & -> & Hleast). exists t. split; [by right|]. split; [done|]. split; [done|].
      intros c [->|Hin']%elem_of_cons Hcb; [cbn in Hcb; congruence|by apply Hleast].
    + destruct IH as [-> Hall]. split; [done|]. intros c [->|Hin]%elem_of_cons; [done|by apply Hall].
  - injection Hc as <- <-. exists s. split; [by left|]. split; [done|]. split; [done|].
    intros c [->|Hin]%elem_of_cons _; [done|]. rewrite Forall_forall in Hle. by apply (Hle c).
Qed.

Definition retire_victim (h : httpHandler) (s : liveSession) : httpHandler :=
  with_limits h (add_retired (limits h) (Some (lv_ss s))) (capLog h).

Lemma claimEvictable_spec h p h' r : claimEvictable h p = (h', r) →
  match r with
  | None => h' = h ∧ ∀ a s, candidate h p a s → busy (limits h) (Some (lv_ss s)) = true
  | Some a => ∃ s, victim h p a s ∧ h' = retire_victim h s
  end.
Proof.
  unfold claimEvictable. destruct (claim_first (limits h) (candidates h p)) as [l r'] eqn:Hc. intros [= <- <-].
  pose proof (claim_first_spec _ _ _ _ Hc (candidates_sorted h p)) as Hspec. destruct r' as [a|].
  - destruct Hspec as (s & Hin & Hb & -> & Hleast). exists s. split; [|done]. apply candidates_spec in Hin. split; [done|]. split; [done|].
    intros b t Ht%candidates_spec. apply (Hleast (b, t) Ht).
  - destruct Hspec as [-> Hall]. split; [by destruct h|]. intros a s Hin%candidates_spec. apply (Hall (a, s) Hin).
Qed.

(** What holds of the handler before [make_room] and is kept by an eviction
    holds after it; when it gives up, every candidate has a call in flight. *)
Lemma make_room_ind (P : httpHandler → list nat → Prop) o p :
  (∀ h ev a s, P h ev → victim h p a s → cap_reason o h p ≠ "" → P (evict (retire_victim h s) a) (ev ++ [a])) →
  ∀ fuel h ev h' ev' r, P h ev → make_room fuel o h p ev = Some (h', ev', r) →
  P h' ev' ∧ r = cap_reason o h' p ∧ (r ≠ "" → ∀ a s, candidate h' p a s → busy (limits h') (Some (lv_ss s)) = true).
Proof.
  intros Hstep. induction fuel as [|fuel IH]; intros h ev h' ev' r HP; cbn [make_room].
  - destruct (String.eqb_spec (cap_reason o h p) ""); [|done]. by intros [= <- <- <-].
  - destruct (String.eqb_spec (cap_reason o h p) "") as [|Hne]; [by intros [= <- <- <-]|].
    destruct (claimEvictable h p) as [h1 [a|] ] eqn:Hc; apply claimEvictable_spec in Hc.
    + destruct Hc as (s & Hv & ->). intros Hm. eapply IH; [|exact Hm]. by apply Hstep.
    + destruct Hc as [-> Hall]. intros [= <- <- <-]. done.
Qed.

(** ** [reserveSession] always ends *)

(** The sessions an eviction can still take. *)
Definition serving_at (h : httpHandler) (a : nat) : Prop :=
  match Sessions.heap h !! a with Some s => lv_evicted s = false | None => False end.
#[export] Instance serving_at_dec h a : Decision (serving_at h a).
Proof. unfold serving_at. destruct (_ !! a); apply _. Defined.
Definition in_service (h : httpHandler) : gmap string nat := filter (λ kv : string * nat, serving_at h kv.2) (live h).

Lemma evict_heap h a b : Sessions.heap (evict h a) !! b = (if decide (a = b) then stop_s ∘ set_evicted else id) <$> Sessions.heap h !! b.
Proof.
  assert (Hh : Sessions.heap (evict h a) = alter stop_s a (alter set_evicted a (Sessions.heap h))).
  { unfold evict. cbn. destruct (alter stop_s a _ !! a); [|done]. unfold release_slot. cbn. by repeat case_match. }
  rewrite Hh. case_decide; [subst b|].
  - rewrite !lookup_alter_eq. by destruct (Sessions.heap h !! a).
  - rewrite !lookup_alter_ne by done. by rewrite option_fmap_id.
Qed.

Lemma evict_live h a : live (evict h a) = live h.
Proof. unfold evict. cbn. destruct (alter stop_s a _ !! a); [|done]. unfold release_slot. cbn. by repeat case_match. Qed.

Lemma evict_in_service h p a s : victim h p a s → (size (in_service (evict (retire_victim h s) a)) < size (in_service h))%nat.
Proof.
  intros (((sid & Hl) & Hh & _ & He & _) & _). apply map_subset_size. unfold in_service. rewrite evict_live. cbn.
  assert (Hev : ∀ b, serving_at (evict (retire_victim h s) a) b → b ≠ a ∧ serving_at h b).
  { intros b. unfold serving_at. rewrite evict_heap. cbn. destruct (Sessions.heap h !! b) eqn:Hb; [|done]. cbn. case_decide; by cbn. }
  apply map_subset_alt. split.
  - apply map_subseteq_spec. intros i b. rewrite !map_lookup_filter_Some. cbn. intros [? Hb]. split; [done|]. by apply Hev.
  - exists sid. split; [|exists a; apply map_lookup_filter_Some; cbn; unfold serving_at; by rewrite Hh].
    apply map_lookup_filter_None. right. intros b Hb [Hne _]%Hev. change (live h !! sid = Some b) in Hb. cbn in Hne. congruence.
Qed.

Lemma make_room_total o p : ∀ fuel h ev, (size (in_service h) < fuel)%nat → is_Some (make_room fuel o h p ev).
Proof.
  induction fuel as [|fuel IH]; intros h ev Hf; [lia|]. cbn [make_room]. destruct (String.eqb _ _); [by eexists|].
  destruct (claimEvictable h p) as [h1 [a|] ] eqn:Hc; [|by eexists]. apply claimEvictable_spec in Hc as (s & Hv & ->).
  apply IH. pose proof (evict_in_service h p a s Hv). lia.
Qed.

Lemma in_service_live h : (size (in_service h) < S (size (live h)))%nat.
Proof. apply Nat.lt_succ_r, map_subseteq_size, map_filter_subseteq. Qed.

Lemma evict_slots_none h a s k : slots h !! k = None → slots (evict (retire_victim h s) a) !! k = None.
Proof.
  intros Hk. unfold evict. cbn. destruct (alter stop_s a _ !! a) as [t|]; [|done]. unfold release_slot. cbn.
  destruct (slots h !! lv_slot t) as [sl|] eqn:Ht; [|done]. destruct (sl_released sl); [done|]. cbn. rewrite lookup_insert_ne; [done|congruence].
Qed.

(** ** The table of sessions *)

Definition serving (q : phase) : bool := match q with Registered | Watched | Unwatched | Halted => true | _ => false end.
Definition ended (q : phase) : bool := match q with Halted | Forgotten => true | _ => false end.
Definition unarmed (q : phase) : bool := match q with Registered | Unwatched | Dropped => true | _ => false end.

(** A session and its phase: its slot is its principal's and held while it is
    served; it is live exactly while it is served; evicted, or with its watcher
    past its stop, it is stopped; and it has a timer only once it is watched. *)
Definition session_ok (h : httpHandler) (a : nat) (s : liveSession) (q : phase) : Prop :=
  (∃ sl, slots h !! lv_slot s = Some sl ∧ sl_principal sl = lv_principal s ∧
     (serving q = true → lv_evicted s = false → sl_released sl = false)) ∧
  (lv_evicted s = false → (live h !! lv_sid s = Some a ↔ serving q = true)) ∧
  (lv_evicted s = true → lv_stopped s = true) ∧ (ended q = true → lv_stopped s = true) ∧ (unarmed q = true → lv_timer s = false).

Definition same_session (s t : liveSession) : Prop :=
  lv_ss t = lv_ss s ∧ lv_sid t = lv_sid s ∧ lv_principal t = lv_principal s ∧ lv_slot t = lv_slot s.

Record table_ok (h : httpHandler) (pending : gset nat) (ph : gmap nat phase) (sids : gset string) (sss : gset nat) : Prop := {
  t_phase a : is_Some (Sessions.heap h !! a) ↔ is_Some (ph !! a);
  t_live sid a : live h !! sid = Some a → ∃ s, Sessions.heap h !! a = Some s ∧ lv_sid s = sid;
  t_known a s : Sessions.heap h !! a = Some s → lv_sid s ∈ sids ∧ lv_ss s ∈ sss;
  t_inj a b s t : Sessions.heap h !! a = Some s → Sessions.heap h !! b = Some t →
    lv_sid s = lv_sid t ∨ lv_slot s = lv_slot t ∨ lv_ss s = lv_ss t → a = b;
  t_pending k : k ∈ pending →
    (∃ sl, slots h !! k = Some sl ∧ sl_released sl = false) ∧ ∀ a s, Sessions.heap h !! a = Some s → lv_slot s ≠ k;
  t_sess a s q : Sessions.heap h !! a = Some s → ph !! a = Some q → session_ok h a s q;
}.

Definition world_table (w : world) : Prop := table_ok (w_h w) (w_pending w) (w_phase w) (w_sids w) (w_sessions w).

(** A change to one session, its slot and its place in [live]. *)
Lemma table_change h h' pending ph sids sss a s s' q :
  table_ok h pending ph sids sss → Sessions.heap h !! a = Some s → same_session s s' →
  Sessions.heap h' = <[a := s']> (Sessions.heap h) → (∀ k, k ≠ lv_slot s → slots h' !! k = slots h !! k) →
  live h' = live h ∨ live h' = delete (lv_sid s) (live h) →
  session_ok h' a s' q → table_ok h' pending (<[a := q]> ph) sids sss.
Proof.
  intros [Tp Tl Tk Ti Tn Ts] Ha (E1 & E2 & E3 & E4) Hh Hsl Hl Hok.
  assert (Hb : ∀ b t, Sessions.heap h' !! b = Some t → (b = a ∧ t = s') ∨ (b ≠ a ∧ Sessions.heap h !! b = Some t)).
  { intros b t. rewrite Hh, lookup_insert_Some. naive_solver. }
  assert (Hold : ∀ b t, Sessions.heap h' !! b = Some t → ∃ t0, Sessions.heap h !! b = Some t0 ∧ same_session t0 t).
  { intros b t [ [-> ->]|[_ Ht] ]%Hb; [by exists s|by exists t]. }
  assert (Hother : ∀ b t, b ≠ a → Sessions.heap h !! b = Some t → lv_sid t ≠ lv_sid s ∧ lv_slot t ≠ lv_slot s).
  { intros b t Hne Ht. split; intros E; apply Hne; apply (Ti b a t s Ht Ha); tauto. }
  split.
  - intros b. rewrite Hh. destruct (decide (a = b)) as [<-|]; [rewrite !lookup_insert_eq; by split; eexists|]. by rewrite !lookup_insert_ne.
  - intros sid b Hlb. assert (Hlb' : live h !! sid = Some b) by (destruct Hl as [Hl|Hl]; rewrite Hl in Hlb; [done|by apply lookup_delete_Some in Hlb as []]).
    destruct (Tl _ _ Hlb') as (t & Ht & Hsid). rewrite Hh. destruct (decide (a = b)) as [<-|]; [|rewrite lookup_insert_ne by done; by exists t].
    rewrite lookup_insert_eq. exists s'. split; [done|]. congruence.
  - intros b t (t0 & Ht0 & F1 & F2 & _)%Hold. rewrite F1, F2. by apply (Tk b).
  - intros b c t u (t0 & Ht0 & F1 & F2 & _ & F4)%Hold (u0 & Hu0 & G1 & G2 & _ & G4)%Hold. rewrite F1, F2, F4, G1, G2, G4. by apply Ti.
  - intros k Hk. destruct (Tn k Hk) as [Hsk Hnk]. split; [|intros b t (t0 & Ht0 & _ & _ & _ & F4)%Hold; rewrite F4; by apply (Hnk b)].
    rewrite Hsl; [done|]. intros ->. by apply (Hnk a s).
  - intros b t r [ [-> ->]|[Hne Ht] ]%Hb; [rewrite lookup_insert_eq; by intros [= <-]|]. rewrite lookup_insert_ne by done. intros Hr.
    destruct (Hother b t Hne Ht) as [N1 N2]. unfold session_ok. rewrite (Hsl _ N2).
    assert (live h' !! lv_sid t = live h !! lv_sid t) as -> by (destruct Hl as [->| ->]; [done|by apply lookup_delete_ne]).
    by apply Ts.
Qed.

(** The same, when the phase stays. *)
Lemma table_step h h' pending ph sids sss a s s' q :
  table_ok h pending ph sids sss → Sessions.heap h !! a = Some s → ph !! a = Some q → same_session s s' →
  Sessions.heap h' = <[a := s']> (Sessions.heap h) → (∀ k, k ≠ lv_slot s → slots h' !! k = slots h !! k) →
  live h' = live h ∨ live h' = delete (lv_sid s) (live h) →
  session_ok h' a s' q → table_ok h' pending ph sids sss.
Proof. intros Ht Ha Hq. rewrite <- (insert_id ph a q Hq) at 1. by apply table_change. Qed.

Lemma table_ext h h' pending ph sids sss :
  Sessions.heap h' = Sessions.heap h → live h' = live h → slots h' = slots h → table_ok h pending ph sids sss → table_ok h' pending ph sids sss.
Proof.
  intros E1 E2 E3 [Tp Tl Tk Ti Tn Ts]. split; unfold session_ok; rewrite ?E1, ?E2, ?E3; done.
Qed.

Lemma alter_at {A} (m : gmap nat A) a f x : m !! a = Some x → alter f a m = <[a := f x]> m.
Proof.
  intros Ha. apply map_eq. intros b. destruct (decide (a = b)) as [<-|].
  - by rewrite lookup_alter_eq, lookup_insert_eq, Ha.
  - by rewrite lookup_alter_ne, lookup_insert_ne.
Qed.

Lemma alter_none {A} (m : gmap nat A) a f : m !! a = None → alter f a m = m.
Proof.
  intros Ha. apply map_eq. intros b. destruct (decide (a = b)) as [<-|].
  - by rewrite lookup_alter_eq, Ha.
  - by rewrite lookup_alter_ne.
Qed.

(** An update that keeps who the session is, its timer and its eviction, and
    never undoes its stop. *)
Definition gentle (f : liveSession → liveSession) : Prop :=
  ∀ s, same_session s (f s) ∧ lv_evicted (f s) = lv_evicted s ∧ lv_timer (f s) = lv_timer s ∧ (lv_stopped s = true → lv_stopped (f s) = true).

Lemma table_gentle h pending ph sids sss a f seq :
  gentle f → table_ok h pending ph sids sss → table_ok (with_live h (live h) (alter f a (Sessions.heap h)) seq) pending ph sids sss.
Proof.
  intros Hf Ht. destruct (Sessions.heap h !! a) as [s|] eqn:Ha.
  - destruct (proj1 (t_phase _ _ _ _ _ Ht a)) as [q Hq]; [by eexists|]. destruct (Hf s) as ((E1 & E2 & E3 & E4) & F1 & F2 & F3).
    eapply (table_step h _ pending ph sids sss a s (f s) q); try done; [by apply alter_at|by left|].
    destruct (t_sess _ _ _ _ _ Ht a s q Ha Hq) as (S1 & S2 & S3 & S4 & S5). unfold session_ok. cbn [with_live live slots]. rewrite E2, E3, E4, F1, F2. naive_solver.
  - eapply table_ext; [..|exact Ht]; try done. by apply alter_none.
Qed.

Lemma gentle_counts : gentle startPOST_s ∧ (∀ n, gentle (λ s, endPOST_s s n)) ∧ gentle startGET_s ∧ (∀ n, gentle (λ s, endGET_s s n)) ∧ gentle stop_s.
Proof. repeat split; done. Qed.

Section Table.
Context (pending : gset nat) (ph : gmap nat phase) (sids : gset string) (sss : gset nat).

Local Notation ok h := (table_ok h pending ph sids sss).

Lemma table_update h a f : gentle f → ok h → ok (update h a f).
Proof. apply table_gentle. Qed.

Lemma table_touch h a f : (∀ n, gentle (λ s, f s n)) → ok h → ok (update_touch h a f).
Proof. intros Hf. apply (table_gentle _ _ _ _ _ _ _ _ (Hf (next_seq h))). Qed.

Lemma beginPOST_table h sid p h' x : ok h → beginPOST h sid p = Some (h', x) → ok h'.
Proof.
  destruct gentle_counts as (G & _). unfold beginPOST. intros Ht. destruct (live_at h sid) as [ [a s]|].
  - destruct (negb _); [by intros [= <- <-]|]. destruct (lv_evicted s); [done|]. intros [= <- <-]. by apply table_update.
  - intros [= <- <-]. by apply (table_ext h).
Qed.

Lemma beginGET_table h sid p h' x : ok h → beginGET h sid p = Some (h', x) → ok h'.
Proof.
  destruct gentle_counts as (_ & _ & G & _). unfold beginGET. intros Ht. destruct (live_at h sid) as [ [a s]|].
  - destruct (negb _); [by intros [= <- <-]|]. destruct (lv_evicted s); [done|]. intros [= <- <-]. by apply table_update.
  - intros [= <- <-]. by apply (table_ext h).
Qed.

Lemma endPOST_table h x : ok h → ok (endPOST h x).
Proof.
  destruct gentle_counts as (_ & G & _). intros Ht. destruct x as [|a|sid p]; cbn [endPOST]; [done|by apply table_touch|].
  destruct (live_at h sid) as [ [a s]|]; [destruct (String.eqb _ _); [by apply table_touch|] |]; destruct (0 <? _); by try apply (table_ext h).
Qed.

Lemma endGET_table h x : ok h → ok (endGET h x).
Proof.
  destruct gentle_counts as (_ & _ & _ & G & _). intros Ht. destruct x as [|a|sid p]; cbn [endGET]; [done|by apply table_touch|].
  destruct (live_at h sid) as [ [a s]|]; [destruct (String.eqb _ _); [by apply table_touch|] |]; destruct (0 <? _); by try apply (table_ext h).
Qed.

Lemma expire_table h a : ok h → ok (fst (expire h a)).
Proof.
  intros Ht. unfold expire. destruct (Sessions.heap h !! a) as [s|]; [|done]. destruct (_ || _); [done|]. cbn.
  destruct gentle_counts as (_ & _ & _ & _ & G). eapply table_ext; [..|by apply (table_update h a stop_s)]; done.
Qed.

Lemma arm_table h a q : ok h → ph !! a = Some q → q ∈ [Watched; Halted; Forgotten] → ok (arm h a).
Proof.
  intros Ht Hq Hin. destruct (Sessions.heap h !! a) as [s|] eqn:Ha.
  - eapply (table_step h _ pending ph sids sss a s (arm_s s) q); try done; [by (unfold arm_s; case_match)|by apply alter_at|by left|].
    destruct (t_sess _ _ _ _ _ Ht a s q Ha Hq) as (S1 & S2 & S3 & S4 & S5). unfold session_ok.
    assert (lv_stopped (arm_s s) = lv_stopped s ∧ lv_evicted (arm_s s) = lv_evicted s) as [-> ->] by (unfold arm_s; by case_match).
    assert (same_session s (arm_s s)) as (_ & -> & -> & ->) by (by (unfold arm_s; case_match)).
    assert (unarmed q = false) as -> by (clear -Hin; set_unfold; naive_solver). done.
  - eapply table_ext; [..|exact Ht]; try done. by apply alter_none.
Qed.

Lemma release_slot_shape h k : Sessions.heap (release_slot h k) = Sessions.heap h ∧ live (release_slot h k) = live h ∧
  limits (release_slot h k) = limits h ∧ early (release_slot h k) = early h ∧ earlyGets (release_slot h k) = earlyGets h ∧
  inFlightPOSTs (release_slot h k) = inFlightPOSTs h ∧ perPrincipalPOSTs (release_slot h k) = perPrincipalPOSTs h ∧
  (∀ j, j ≠ k → slots (release_slot h k) !! j = slots h !! j) ∧
  ∀ sl, slots h !! k = Some sl → ∃ sl', slots (release_slot h k) !! k = Some sl' ∧ sl_principal sl' = sl_principal sl.
Proof.
  unfold release_slot. destruct (slots h !! k) as [sl|] eqn:Hk; [|naive_solver]. destruct (sl_released sl); [naive_solver|]. cbn.
  repeat split; [intros j Hj; by rewrite lookup_insert_ne|]. intros ? [= <-]. rewrite lookup_insert_eq. by eexists.
Qed.

(** A slot is given back for a session that is no longer served. *)
Lemma give_back_table h a s q : ok h → Sessions.heap h !! a = Some s → ph !! a = Some q → serving q = false → ok (release_slot h (lv_slot s)).
Proof.
  intros Ht Ha Hq Hser. destruct (release_slot_shape h (lv_slot s)) as (E1 & E2 & _ & _ & _ & _ & _ & E3 & E4).
  eapply (table_step h _ pending ph sids sss a s s q); try done; [rewrite E1; by rewrite insert_id|by left|].
  destruct (t_sess _ _ _ _ _ Ht a s q Ha Hq) as ((sl & Hsl & Hp & _) & S2 & S345). split; [|by rewrite E2].
  destruct (E4 sl Hsl) as (sl' & Hsl' & Hp'). exists sl'. split; [done|]. split; [congruence|]. rewrite Hser. done.
Qed.

Lemma unkept_table h k : ok h → k ∈ pending → table_ok (release_slot h k) (pending ∖ {[ k ]}) ph sids sss.
Proof.
  intros Ht Hk. destruct (release_slot_shape h k) as (E1 & E2 & _ & _ & _ & _ & _ & E3 & _). pose proof (t_pending _ _ _ _ _ Ht k Hk) as [_ Hno].
  destruct Ht as [Tp Tl Tk Ti Tn Ts]. split; rewrite ?E1, ?E2; try done.
  - intros j [Hj Hne%not_elem_of_singleton]%elem_of_difference. rewrite E3 by done. by apply Tn.
  - intros b t q Hb Hq. unfold session_ok. rewrite E2, E3 by (by apply (Hno b)). by apply Ts.
Qed.

(** An eviction. *)
Lemma evict_table h p a s : ok h → victim h p a s → ok (evict (retire_victim h s) a).
Proof.
  intros Ht ((Hlv & Ha & Hp & Hev & _) & _). destruct (proj1 (t_phase _ _ _ _ _ Ht a)) as [q Hq]; [by eexists|].
  destruct (t_sess _ _ _ _ _ Ht a s q Ha Hq) as ((sl & Hsl & Hsp & _) & S2 & S3 & S4 & S5).
  set (h0 := stop (update (retire_victim h s) a set_evicted) a).
  assert (Hh0 : Sessions.heap h0 = <[a := stop_s (set_evicted s)]> (Sessions.heap h)).
  { unfold h0, stop, update. cbn. rewrite (alter_at _ _ _ _ Ha), (alter_at _ _ _ (set_evicted s)) by apply lookup_insert_eq. by rewrite insert_insert_eq. }
  assert (He : evict (retire_victim h s) a = release_slot h0 (lv_slot s)).
  { unfold evict. fold h0. by rewrite Hh0, lookup_insert_eq. }
  rewrite He. destruct (release_slot_shape h0 (lv_slot s)) as (E1 & E2 & _ & _ & _ & _ & _ & E3 & E4).
  eapply (table_step h _ pending ph sids sss a s (stop_s (set_evicted s)) q); try done; [by rewrite E1|by left|].
  split.
  - destruct (E4 sl Hsl) as (sl' & Hsl' & Hp'). exists sl'. split; [done|]. split; [by rewrite Hp', Hsp|done].
  - done.
Qed.

Lemma new_slot_table h p k : ok h → slots h !! k = None →
  table_ok (with_slots h (openSessions h + 1) (count_up (sessionsPerPrincipal h) p)
    (<[k := {| sl_principal := p; sl_released := false |}]> (slots h))) ({[ k ]} ∪ pending) ph sids sss.
Proof.
  intros [Tp Tl Tk Ti Tn Ts] Hk.
  assert (Hsl : ∀ j sl, slots h !! j = Some sl → <[k := {| sl_principal := p; sl_released := false |}]> (slots h) !! j = Some sl).
  { intros j sl Hj. rewrite lookup_insert_ne; [done|]. congruence. }
  assert (Hno : ∀ a s, Sessions.heap h !! a = Some s → lv_slot s ≠ k).
  { intros a s Ha <-. destruct (proj1 (Tp a)) as [q Hq]; [by eexists|]. destruct (Ts a s q Ha Hq) as ((sl & ? & _) & _). congruence. }
  split; cbn [with_slots Sessions.heap live slots]; try done.
  - intros j [->%elem_of_singleton|Hj]%elem_of_union; [split; [rewrite lookup_insert_eq; by eexists|exact Hno]|].
    destruct (Tn j Hj) as [(sl & Hj1 & Hj2) Hj3]. split; [|done]. exists sl. split; [by apply Hsl|done].
  - intros a s q Ha Hq. destruct (Ts a s q Ha Hq) as ((sl & S1 & S1') & S2). split; [|done]. exists sl. split; [by apply Hsl|done].
Qed.

Lemma register_table h a ss sid k sl : ok h → k ∈ pending → ph !! a = None → sid ∉ sids → ss ∉ sss → slots h !! k = Some sl →
  table_ok (Sessions.register h a ss sid (sl_principal sl) k) (pending ∖ {[ k ]}) (<[a := Registered]> ph) ({[ sid ]} ∪ sids) ({[ ss ]} ∪ sss).
Proof.
  intros [Tp Tl Tk Ti Tn Ts] Hk Ha Hsid Hss Hsl. destruct (Tn k Hk) as [(sl' & Hsl' & Hrel) Hno].
  assert (Hah : Sessions.heap h !! a = None) by (apply eq_None_not_Some; rewrite Tp, Ha; by intros [? ?]).
  assert (Hb : ∀ b t, Sessions.heap h !! b = Some t → b ≠ a ∧ lv_sid t ≠ sid ∧ lv_slot t ≠ k ∧ lv_ss t ≠ ss).
  { intros b t Hb. destruct (Tk b t Hb). split; [congruence|]. split; [by intros <-|]. split; [by apply (Hno b)|by intros <-]. }
  assert (Hlv : live h !! sid = None) by (apply eq_None_not_Some; intros [b (t & Ht & <-)%Tl]; destruct (Hb b t Ht) as (_ & ? & _); done).
  split; unfold Sessions.register; cbn [with_early with_live Sessions.heap live slots].
  - intros b. destruct (decide (a = b)) as [<-|]; [rewrite !lookup_insert_eq; by split; eexists|]. by rewrite !lookup_insert_ne.
  - intros sid' b. rewrite lookup_insert_Some. intros [ [<- <-]|[Hne Hlb] ]; [rewrite lookup_insert_eq; by eexists|].
    destruct (Tl _ _ Hlb) as (t & Ht & Hs). destruct (Hb b t Ht). rewrite lookup_insert_ne by done. by exists t.
  - intros b t. rewrite lookup_insert_Some. intros [ [<- <-]|[Hne Ht] ]; [cbn; set_solver|]. destruct (Tk b t Ht). set_solver.
  - intros b c t u. rewrite !lookup_insert_Some. intros [ [<- <-]|[Hne Ht] ] [ [<- <-]|[Hne' Hu] ]; cbn; [done|..|by apply Ti].
    + destruct (Hb c u Hu) as (_ & ? & ? & ?). naive_solver.
    + destruct (Hb b t Ht) as (_ & ? & ? & ?). naive_solver.
  - intros j [Hj Hne%not_elem_of_singleton]%elem_of_difference. destruct (Tn j Hj) as [Hj1 Hj2]. split; [done|].
    intros b t. rewrite lookup_insert_Some. intros [ [<- <-]|[_ Ht] ]; [by cbn|by apply (Hj2 b)].
  - intros b t q. rewrite !lookup_insert_Some. intros [ [<- <-]|[Hne Ht] ] [ [? <-]|[Hne' Hq] ]; try done.
    + split; cbn; [exists sl; split; [done|]; split; [done|congruence]|]. rewrite lookup_insert_eq. done.
    + destruct (Ts b t q Ht Hq) as (S1 & S2 & S3). split; [done|]. split; [|done]. cbn. destruct (Hb b t Ht) as (_ & ? & _). by rewrite lookup_insert_ne.
Qed.
End Table.

Lemma make_room_table o p pending ph sids sss fuel h ev h' ev' r : table_ok h pending ph sids sss →
  make_room fuel o h p ev = Some (h', ev', r) → table_ok h' pending ph sids sss.
Proof.
  intros Ht Hm. eapply (make_room_ind (λ h _, table_ok h pending ph sids sss)) in Hm as [Hm _]; [done| |done].
  intros h0 ev0 a s H0 Hv _. by apply (evict_table _ _ _ _ h0 p).
Qed.

Lemma capLogAllow_shape h p now : ∃ c, fst (capLogAllow h p now) = with_limits h (limits h) c.
Proof. unfold capLogAllow. cbv zeta. case_match; [case_match|]; by eexists. Qed.
