(* ===== verification/SessionInv.v ===== *)
(** * The invariant of the listener's sessions: internal/proxy/http.go

    The requests in progress are counted on every live session, the idle clocks
    follow the counts, an evicted session runs no call; every event keeps the
    invariant. *)

From S2P Require Import Prelude GoStd CallLimits Listener Sessions SessionRun.

Open Scope string_scope.
Open Scope Z_scope.
Open Scope list_scope.

(** ** Requests in progress are counted *)

Section TallyOk.
Context (field : liveSession → Z).

(** [field] counts, on every live session, the requests [m] in progress on
    it, those that began before it was registered included; [e] counts them on
    the ids not given out yet. *)
Record tally_ok (lv : gmap string nat) (hp : gmap nat liveSession) (e : gmap (string * string) Z) (m : gmap nat in_progress) (sids : gset string) : Prop := {
  c_heap i a : m !! i = Some (PLive a) → is_Some (hp !! a);
  c_least a s : hp !! a = Some s → count (at_b (PLive a)) m <= field s;
  c_exact sid a s : lv !! sid = Some a → hp !! a = Some s →
    field s = count (at_b (PLive a)) m + count (at_b (PEarly sid (lv_principal s))) m;
  c_early sid p : sid ∉ sids → count_at e (sid, p) = count (at_b (PEarly sid p)) m;
}.

(** Sessions change without the count; some leave [live]. *)
Lemma tally_frame lv hp lv' hp' e m sids : tally_ok lv hp e m sids →
  (∀ a s', hp' !! a = Some s' → ∃ s, hp !! a = Some s ∧ field s' = field s ∧ lv_principal s' = lv_principal s) →
  (∀ a, is_Some (hp !! a) → is_Some (hp' !! a)) → (∀ sid a, lv' !! sid = Some a → lv !! sid = Some a) → tally_ok lv' hp' e m sids.
Proof.
  intros [Ch Cl Ce Cy] Hs Hdom Hlv. split; [intros i a Hi; apply Hdom, (Ch i a Hi)|..|done].
  - intros a s' (s & Ha & -> & _)%Hs. by apply Cl.
  - intros sid a s' Hl (s & Ha & -> & ->)%Hs. by apply Ce, Ha; apply Hlv.
Qed.

Lemma at_b_eq x : at_b x x = true.
Proof. unfold at_b. by apply bool_decide_eq_true_2. Qed.
Lemma at_b_ne x y : x ≠ y → at_b x y = false.
Proof. unfold at_b. by intros; apply bool_decide_eq_false_2. Qed.

(** One session's count changes by [d] as the requests change to [m']. *)
Lemma tally_alter lv hp e m m' sids a f d e' : tally_ok lv hp e m sids →
  (∀ s, hp !! a = Some s → lv_principal (f s) = lv_principal s ∧ field (f s) = field s + d) →
  (∀ i b, m' !! i = Some (PLive b) → is_Some (hp !! b)) →
  (∀ b s, hp !! b = Some s → count (at_b (PLive b)) m' <= field s + (if decide (b = a) then d else 0)) →
  (∀ sid b s, lv !! sid = Some b → hp !! b = Some s →
    count (at_b (PLive b)) m' + count (at_b (PEarly sid (lv_principal s))) m' = field s + (if decide (b = a) then d else 0)) →
  (∀ sid p, sid ∉ sids → count_at e' (sid, p) = count (at_b (PEarly sid p)) m') →
  tally_ok lv (alter f a hp) e' m' sids.
Proof.
  intros [Ch Cl Ce Cy] Hf Hdom Hleast Hexact Hearly.
  assert (Hx : ∀ b s', alter f a hp !! b = Some s' → ∃ s, hp !! b = Some s ∧ lv_principal s' = lv_principal s ∧ field s' = field s + (if decide (b = a) then d else 0)).
  { intros b s'. destruct (decide (b = a)) as [->|Hne].
    - rewrite lookup_alter_eq. intros (s & Hs & ->)%fmap_Some. exists s. split; [done|]. by apply Hf.
    - rewrite lookup_alter_ne by done. intros Hs. exists s'. split; [done|]. split; [done|lia]. }
  split; [|..|done].
  - intros i b Hi. destruct (Hdom i b Hi) as [s Hs]. destruct (decide (a = b)) as [<-|]; [rewrite lookup_alter_eq, Hs; by eexists|].
    rewrite lookup_alter_ne by done. by eexists.
  - intros b s' (s & Hs & _ & ->)%Hx. by apply Hleast.
  - intros sid b s' Hl (s & Hs & -> & ->)%Hx. by rewrite (Hexact sid b s).
Qed.

Lemma begin_live lv hp e m sids i a s f : tally_ok lv hp e m sids → m !! i = None → hp !! a = Some s →
  (∀ s, lv_principal (f s) = lv_principal s ∧ field (f s) = field s + 1) →
  tally_ok lv (alter f a hp) e (<[i := PLive a]> m) sids.
Proof.
  intros Ht Hi Ha Hf. apply (tally_alter lv hp e m _ sids a f 1); [done|by intros; apply Hf|..]; destruct Ht as [Ch Cl Ce Cy].
  - intros j b. rewrite lookup_insert_Some. intros [ [_ [= <-] ]|[_ Hj] ]; [by eexists|by apply (Ch j)].
  - intros b t Hb. rewrite count_insert by done. specialize (Cl b t Hb). case_decide; [subst; rewrite at_b_eq|rewrite at_b_ne by congruence]; cbn; lia.
  - intros sid b t Hl Hb. rewrite !count_insert, (Ce sid b t Hl Hb), (at_b_ne (PEarly _ _)) by done.
    case_decide; [subst; rewrite at_b_eq|rewrite at_b_ne by congruence]; cbn; lia.
  - intros sid p Hsid. rewrite count_insert, at_b_ne, Cy by done. cbn. lia.
Qed.

Lemma begin_early lv hp e m sids i sid p : tally_ok lv hp e m sids → m !! i = None → lv !! sid = None →
  tally_ok lv hp (count_up e (sid, p)) (<[i := PEarly sid p]> m) sids.
Proof.
  intros [Ch Cl Ce Cy] Hi Hl. split.
  - intros j b. rewrite lookup_insert_Some. intros [ [_ [=] ]|[_ Hj] ]. by apply (Ch j).
  - intros b t Hb. rewrite count_insert, at_b_ne by done. cbn. specialize (Cl b t Hb). lia.
  - intros sid' b t Hl' Hb. rewrite !count_insert, (at_b_ne (PLive _)), (at_b_ne (PEarly _ _)), (Ce sid' b t Hl' Hb) by (done || congruence). cbn. lia.
  - intros sid' q Hsid. rewrite count_at_up, count_insert, Cy by done. f_equal. f_equal. unfold at_b. apply bool_decide_ext. naive_solver.
Qed.

Lemma begin_nothing lv hp e m sids i : tally_ok lv hp e m sids → m !! i = None → tally_ok lv hp e (<[i := PNothing]> m) sids.
Proof.
  intros [Ch Cl Ce Cy] Hi. split.
  - intros j b. rewrite lookup_insert_Some. intros [ [_ [=] ]|[_ Hj] ]. by apply (Ch j).
  - intros b t Hb. rewrite count_insert, at_b_ne by done. cbn. specialize (Cl b t Hb). lia.
  - intros sid b t Hl Hb. rewrite !count_insert, !at_b_ne, (Ce sid b t Hl Hb) by done. cbn. lia.
  - intros sid q Hsid. rewrite count_insert, at_b_ne, Cy by done. cbn. lia.
Qed.

Lemma end_live lv hp e m sids i a f : tally_ok lv hp e m sids → m !! i = Some (PLive a) →
  (∀ s, lv_principal (f s) = lv_principal s ∧ field (f s) = field s - 1) → tally_ok lv (alter f a hp) e (delete i m) sids.
Proof.
  intros Ht Hi Hf. apply (tally_alter lv hp e m _ sids a f (-1)); [done|intros; apply Hf|..]; destruct Ht as [Ch Cl Ce Cy].
  - intros j b [_ Hj]%lookup_delete_Some. by apply (Ch j).
  - intros b t Hb. rewrite (count_delete _ _ _ _ Hi). specialize (Cl b t Hb).
    case_decide; [subst; rewrite at_b_eq|rewrite at_b_ne by congruence]; cbn; lia.
  - intros sid b t Hl Hb. rewrite !(count_delete _ _ _ _ Hi), (Ce sid b t Hl Hb), (at_b_ne (PEarly _ _)) by done.
    case_decide; [subst; rewrite at_b_eq|rewrite at_b_ne by congruence]; cbn; lia.
  - intros sid p Hsid. rewrite (count_delete _ _ _ _ Hi), at_b_ne, Cy by done. cbn. lia.
Qed.

Lemma end_nothing lv hp e m sids i : tally_ok lv hp e m sids → m !! i = Some PNothing → tally_ok lv hp e (delete i m) sids.
Proof.
  intros [Ch Cl Ce Cy] Hi. split.
  - intros j b [_ Hj]%lookup_delete_Some. by apply (Ch j).
  - intros b t Hb. rewrite (count_delete _ _ _ _ Hi), at_b_ne by done. cbn. specialize (Cl b t Hb). lia.
  - intros sid b t Hl Hb. rewrite !(count_delete _ _ _ _ Hi), !at_b_ne, (Ce sid b t Hl Hb) by done. cbn. lia.
  - intros sid q Hsid. rewrite (count_delete _ _ _ _ Hi), at_b_ne, Cy by done. cbn. lia.
Qed.

(** The end of a request that began before its session was registered. *)
Lemma end_early_live lv hp e m sids i a s sid f : tally_ok lv hp e m sids → m !! i = Some (PEarly sid (lv_principal s)) →
  lv !! sid = Some a → hp !! a = Some s → (∀ sid', lv !! sid' = Some a → sid' = sid) → sid ∈ sids →
  (∀ s, lv_principal (f s) = lv_principal s ∧ field (f s) = field s - 1) → tally_ok lv (alter f a hp) e (delete i m) sids.
Proof.
  intros Ht Hi Hla Ha Huniq Hin Hf. apply (tally_alter lv hp e m _ sids a f (-1)); [done|intros; apply Hf|..]; destruct Ht as [Ch Cl Ce Cy].
  - intros j b [_ Hj]%lookup_delete_Some. by apply (Ch j).
  - intros b t Hb. rewrite (count_delete _ _ _ _ Hi), at_b_ne by done. specialize (Cl b t Hb). cbn. case_decide; [subst b|lia].
    rewrite (Ce sid a t Hla Hb). pose proof (count_delete (at_b (PEarly sid (lv_principal s))) m i _ Hi) as Hd. rewrite at_b_eq in Hd. cbn in Hd.
    assert (t = s) as -> by congruence. pose proof (count_nonneg (at_b (PEarly sid (lv_principal s))) (delete i m)). lia.
  - intros sid' b t Hl Hb. rewrite !(count_delete _ _ _ _ Hi), (Ce sid' b t Hl Hb), (at_b_ne (PLive _)) by done. case_decide as Hd.
    + subst b. assert (t = s) as -> by congruence. rewrite (Huniq sid' Hl), at_b_eq. cbn. lia.
    + rewrite at_b_ne; [cbn; lia|]. intros [= -> _]. congruence.
  - intros sid' p Hsid. rewrite (count_delete _ _ _ _ Hi), at_b_ne, Cy by (done || congruence). cbn. lia.
Qed.

Lemma end_early_gone lv hp e m sids i sid p : tally_ok lv hp e m sids → m !! i = Some (PEarly sid p) →
  (∀ a s, lv !! sid = Some a → hp !! a = Some s → lv_principal s ≠ p) →
  tally_ok lv hp (if 0 <? count_at e (sid, p) then count_down e (sid, p) else e) (delete i m) sids.
Proof.
  intros [Ch Cl Ce Cy] Hi Hno. split.
  - intros j b [_ Hj]%lookup_delete_Some. by apply (Ch j).
  - intros b t Hb. rewrite (count_delete _ _ _ _ Hi), at_b_ne by done. specialize (Cl b t Hb). cbn. lia.
  - intros sid' b t Hl Hb. rewrite !(count_delete _ _ _ _ Hi), (Ce sid' b t Hl Hb), (at_b_ne (PLive _)) by done.
    rewrite at_b_ne; [cbn; lia|]. intros [= -> <-]. by apply (Hno b t).
  - intros sid' q Hsid. pose proof (count_delete (at_b (PEarly sid' q)) m i _ Hi) as Hd. specialize (Cy sid' q Hsid).
    unfold at_b in Hd at 3. unfold b2z in Hd. destruct (Z.ltb_spec 0 (count_at e (sid, p))) as [Hpos|Hpos].
    + rewrite count_at_down by lia. unfold b2z. rewrite (bool_decide_ext ((sid, p) = (sid', q)) (PEarly sid' q = PEarly sid p)) by naive_solver.
      case_bool_decide; lia.
    + case_bool_decide as Heq; [|lia]. injection Heq as -> ->. pose proof (count_nonneg (at_b (PEarly sid p)) (delete i m)). lia.
Qed.

Lemma register_tally lv hp e m sids a s sid : tally_ok lv hp e m sids → hp !! a = None → sid ∉ sids → lv_sid s = sid →
  (∀ sid' b, lv !! sid' = Some b → is_Some (hp !! b)) →
  field s = count_at e (sid, lv_principal s) →
  tally_ok (<[sid := a]> lv) (<[a := s]> hp) (delete (sid, lv_principal s) e) m ({[ sid ]} ∪ sids).
Proof.
  intros [Ch Cl Ce Cy] Ha Hsid Hs Hlive Hfield.
  assert (Hz : count (at_b (PLive a)) m = 0).
  { apply count_none. intros i x Hx. apply at_b_ne. intros <-. destruct (Ch i a Hx). congruence. }
  split.
  - intros i b Hi. destruct (Ch i b Hi) as [t Ht]. destruct (decide (a = b)) as [<-|]; [congruence|]. rewrite lookup_insert_ne by done. by eexists.
  - intros b t. rewrite lookup_insert_Some. intros [ [<- <-]|[_ Hb] ]; [|by apply Cl]. rewrite Hz, Hfield, Cy by done. apply count_nonneg.
  - intros sid' b t Hl Hb. apply lookup_insert_Some in Hl as [ [<- <-]|[Hne Hl] ].
    + rewrite lookup_insert_eq in Hb. injection Hb as <-. rewrite Hz, Hfield, Cy by done. done.
    + destruct (Hlive _ _ Hl) as [t' Ht']. rewrite lookup_insert_ne in Hb by congruence. by apply Ce.
  - intros sid' q [Hne%not_elem_of_singleton Hni]%not_elem_of_union. rewrite <- Cy by done. unfold count_at. rewrite lookup_delete_ne; [done|]. congruence.
Qed.
End TallyOk.

(** ** The invariant *)

Section Run.
Context (o : HTTPOptions) (ID : nat → string) (owner : nat → string) (ps pp : Z).

(** A clock counts down exactly when there is one, no POST is in progress and
    it was not stopped. *)
Definition clock_s (s : liveSession) : Prop := lv_running s = lv_timer s && (lv_active s =? 0) && negb (lv_stopped s).
Definition clock_ok (hp : gmap nat liveSession) : Prop := ∀ a s, hp !! a = Some s → clock_s s.

(** An evicted session is retired and has no call, until its watcher is done. *)
Definition calls_ok (h : httpHandler) (ph : gmap nat phase) : Prop :=
  ∃ st, refines ps pp owner (limits h) st ∧
  ∀ a s, Sessions.heap h !! a = Some s → ph !! a ≠ Some Forgotten → lv_evicted s = true →
    lv_ss s ∈ s_retired st ∧ on_session (Some (lv_ss s)) (s_live st) = ∅.

Record inv (w : world) : Prop := {
  v_posts : posts_ok o (w_h w) (w_held w);
  v_slots : slots_ok o (w_h w);
  v_table : world_table w;
  v_active : tally_ok lv_active (live (w_h w)) (Sessions.heap (w_h w)) (early (w_h w)) (w_posts w) (w_sids w);
  v_gets : tally_ok lv_gets (live (w_h w)) (Sessions.heap (w_h w)) (earlyGets (w_h w)) (w_gets w) (w_sids w);
  v_clock : clock_ok (Sessions.heap (w_h w));
  v_calls : calls_ok (w_h w) (w_phase w);
}.

Definition same_posts (h h' : httpHandler) : Prop := inFlightPOSTs h' = inFlightPOSTs h ∧ perPrincipalPOSTs h' = perPrincipalPOSTs h.
Definition same_slots (h h' : httpHandler) : Prop :=
  openSessions h' = openSessions h ∧ sessionsPerPrincipal h' = sessionsPerPrincipal h ∧ slots h' = slots h.
Definition same_early (h h' : httpHandler) : Prop := early h' = early h ∧ earlyGets h' = earlyGets h.

Lemma make_room_same p fuel h ev h' ev' r : make_room fuel o h p ev = Some (h', ev', r) → same_posts h h' ∧ same_early h h' ∧ live h' = live h.
Proof.
  intros Hm. eapply (make_room_ind (λ h' _, same_posts h h' ∧ same_early h h' ∧ live h' = live h)) in Hm as [Hm _]; [done| |done].
  intros h0 ev0 a s ([P1 P2] & [E1 E2] & Hl) _ _. rewrite evict_live. unfold evict. cbn. destruct (alter stop_s a _ !! a) as [t|]; [|done].
  match goal with |- context [release_slot ?g ?k] => destruct (release_slot_shape g k) as (_ & _ & _ & F1 & F2 & F3 & F4 & _) end.
  unfold same_posts, same_early. by rewrite F1, F2, F3, F4.
Qed.

(** What [reserveSession] does to the rest of the handler. *)
Lemma reserve_shape p k now h h' ev r : reserveSession (S (size (live h))) o h p k now = Some (h', ev, r) →
  ∃ h1 r1, make_room (S (size (live h))) o h p [] = Some (h1, ev, r1) ∧
  match r with
  | inl _ => cap_reason o h1 p = "" ∧ h' = with_slots h1 (openSessions h1 + 1) (count_up (sessionsPerPrincipal h1) p)
      (<[k := {| sl_principal := p; sl_released := false |}]> (slots h1))
  | inr (reason, _, _) => reason = cap_reason o h1 p ∧ reason ≠ "" ∧ ∃ c, h' = with_limits h1 (limits h1) c
  end.
Proof.
  unfold reserveSession. destruct (make_room _ o h p []) as [ [ [h1 ev1] r1]|] eqn:Hm; [|done].
  eapply (make_room_ind (λ _ _, True)) in Hm as Hi; [|done|done]. destruct Hi as (_ & Hr & _).
  destruct (String.eqb_spec r1 "") as [->|Hne].
  - intros [= <- <- <-]. exists h1, "". done.
  - destruct (capLogAllow_shape h1 p now) as [c Hc]. destruct (capLogAllow h1 p now) as [h2 [b n] ]. intros [= <- <- <-].
    exists h1, r1. split; [done|]. split; [done|]. split; [done|]. by exists c.
Qed.

Ltac shape := repeat (case_match || case_decide); simplify_eq/=; try done.

Lemma request_same h h' x sid p : (beginPOST h sid p = Some (h', x) ∨ beginGET h sid p = Some (h', x) ∨ h' = endPOST h x ∨ h' = endGET h x) →
  same_posts h h' ∧ same_slots h h' ∧ live h' = live h ∧ limits h' = limits h.
Proof.
  unfold beginPOST, beginGET, endPOST, endGET. intros [Hb|[Hb|[->| ->] ] ]; [shape..| |]; destruct x; shape.
Qed.

Lemma session_same h a : same_posts h (drop_unwatched h a) ∧ same_posts h (watcher_forget h a) ∧ same_posts h (forgetEvicted h a) ∧
  same_slots h (drop_unwatched h a) ∧ same_slots h (watcher_forget h a) ∧ same_slots h (forgetEvicted h a) ∧
  same_posts h (fst (expire h a)) ∧ same_slots h (fst (expire h a)).
Proof.
  unfold drop_unwatched, watcher_forget, forgetEvicted, expire.
  split_and!; destruct (Sessions.heap h !! a); try done; try (by case_decide); by case_match.
Qed.

Lemma exec_posts w e w' : posts_ok o (w_h w) (w_held w) → exec_event o ID w e = Some w' → posts_ok o (w_h w') (w_held w').
Proof.
  intros Hp.
  assert (Hsame : ∀ h', same_posts (w_h w) h' → posts_ok o h' (w_held w)).
  { intros h' [E1 E2]. destruct Hp as [Ha He Hc Hce]. split; rewrite ?E1, ?E2; done. }
  destruct e as [i p|i|i sid p|i|i sid p|i|k p now|k|a ss sid k|a|a|a|a|a|a|a|a|c]; cbn [exec_event]; unfold when, move.
  - case_decide; [|done]. destruct (acquirePOST o (w_h w) p) eqn:Ha; intros [= <-]; [by eapply acquire_ok|done].
  - destruct (w_held w !! i) eqn:Hi; [|done]. intros [= <-]. by apply release_post_ok.
  - case_decide; [|done]. destruct (beginPOST _ sid p) as [ [h x]|] eqn:Hb; intros [= <-]; [|done]. apply Hsame. eapply (request_same _ _ x sid p). by left.
  - destruct (w_posts w !! i) as [x|]; [|done]. intros [= <-]. apply Hsame. eapply (request_same _ _ x "" ""). tauto.
  - case_decide; [|done]. destruct (beginGET _ sid p) as [ [h x]|] eqn:Hb; intros [= <-]; [|done]. apply Hsame. eapply (request_same _ _ x sid p). tauto.
  - destruct (w_gets w !! i) as [x|]; [|done]. intros [= <-]. apply Hsame. eapply (request_same _ _ x "" ""). tauto.
  - case_decide; [|done]. destruct (reserveSession _ o _ p k now) as [ [ [h ev] r]|] eqn:Hr; [|done].
    apply reserve_shape in Hr as (h1 & r1 & Hm & Hr). apply make_room_same in Hm as ([P1 P2] & _).
    destruct r as [?|[ [rs b] n] ]; intros [= <-]; apply Hsame; [by destruct Hr as [_ ->]|by destruct Hr as (_ & _ & c & ->)].
  - case_decide; [|done]. intros [= <-]. apply Hsame. destruct (release_slot_shape (w_h w) k) as (_ & _ & _ & _ & _ & F3 & F4 & _). done.
  - case_decide; [|done]. case_match; [|done]. intros [= <-]. by apply Hsame.
  - case_match; [|done]. case_decide; [|done]. intros [= <-]. by apply Hsame.
  - case_match; [|done]. case_decide; [|done]. intros [= <-]. apply Hsame, session_same.
  - case_match; [|done]. case_decide; [|done]. intros [= <-]. by apply Hsame.
  - case_match; [|done]. case_decide; [|done]. intros [= <-]. by apply Hsame.
  - case_match; [|done]. case_decide; [|done]. intros [= <-]. apply Hsame, session_same.
  - case_match; [|done]. case_match; [|done]. case_decide; [|done]. intros [= <-]. apply Hsame.
    match goal with |- context [release_slot ?g ?k] => destruct (release_slot_shape g k) as (_ & _ & _ & _ & _ & F3 & F4 & _) end. done.
  - case_match; [|done]. case_decide; [|done]. intros [= <-]. apply Hsame, session_same.
  - case_match; [|done]. case_decide; [|done]. intros [= <-]. apply Hsame, session_same.
  - case_decide; [|done]. intros [= <-]. by apply Hsame.
Qed.

Lemma exec_slots w e w' : slots_ok o (w_h w) → exec_event o ID w e = Some w' → slots_ok o (w_h w').
Proof.
  intros Hs.
  assert (Hsame : ∀ h', same_slots (w_h w) h' → slots_ok o h') by (intros h' (E1 & E2 & E3); by apply (slots_ok_ext o (w_h w))).
  destruct e as [i p|i|i sid p|i|i sid p|i|k p now|k|a ss sid k|a|a|a|a|a|a|a|a|c]; cbn [exec_event]; unfold when, move.
  - case_decide; [|done]. unfold acquirePOST. destruct (_ || _); intros [= <-]; by apply Hsame.
  - destruct (w_held w !! i) eqn:Hi; [|done]. intros [= <-]. by apply Hsame.
  - case_decide; [|done]. destruct (beginPOST _ sid p) as [ [h x]|] eqn:Hb; intros [= <-]; [|done]. apply Hsame. eapply (request_same _ _ x sid p). by left.
  - destruct (w_posts w !! i) as [x|]; [|done]. intros [= <-]. apply Hsame. eapply (request_same _ _ x "" ""). tauto.
  - case_decide; [|done]. destruct (beginGET _ sid p) as [ [h x]|] eqn:Hb; intros [= <-]; [|done]. apply Hsame. eapply (request_same _ _ x sid p). tauto.
  - destruct (w_gets w !! i) as [x|]; [|done]. intros [= <-]. apply Hsame. eapply (request_same _ _ x "" ""). tauto.
  - case_decide as Hk; [|done]. destruct (reserveSession _ o _ p k now) as [ [ [h ev] r]|] eqn:Hr; [|done].
    apply reserve_shape in Hr as (h1 & r1 & Hm & Hr).
    eapply (make_room_ind (λ h _, slots_ok o h ∧ slots h !! k = None)) in Hm as [ [Hok Hk1] _]; [| |done].
    2:{ intros h0 ev0 a s [H0 Hk0] _ _. split; [by apply evict_slots_ok, (slots_ok_ext o h0)|]. by rewrite evict_slots_none. }
    destruct r as [?|[ [rs b] n] ]; intros [= <-]; [destruct Hr as [Hc ->]; by apply new_slot_ok|].
    destruct Hr as (_ & _ & c & ->). by apply (slots_ok_ext o h1).
  - case_decide; [|done]. intros [= <-]. by apply release_slot_ok.
  - case_decide; [|done]. case_match; [|done]. intros [= <-]. by apply Hsame.
  - case_match; [|done]. case_decide; [|done]. intros [= <-]. by apply Hsame.
  - case_match; [|done]. case_decide; [|done]. intros [= <-]. apply Hsame, session_same.
  - case_match; [|done]. case_decide; [|done]. intros [= <-]. by apply Hsame.
  - case_match; [|done]. case_decide; [|done]. intros [= <-]. by apply Hsame.
  - case_match; [|done]. case_decide; [|done]. intros [= <-]. apply Hsame, session_same.
  - case_match; [|done]. case_match; [|done]. case_decide; [|done]. intros [= <-]. by apply release_slot_ok.
  - case_match; [|done]. case_decide; [|done]. intros [= <-]. apply Hsame, session_same.
  - case_match; [|done]. case_decide; [|done]. intros [= <-]. apply Hsame, session_same.
  - case_decide; [|done]. intros [= <-]. by apply Hsame.
Qed.

(** The three ways a session leaves [live]. *)
Lemma drop_table h pending ph sids sss a q : table_ok h pending ph sids sss → ph !! a = Some q → q = Unwatched →
  table_ok (drop_unwatched h a) pending (<[a := Dropped]> ph) sids sss.
Proof.
  intros Ht Hq ->. destruct (proj2 (t_phase _ _ _ _ _ Ht a)) as [s Ha]; [by eexists|]. unfold drop_unwatched. rewrite Ha.
  eapply (table_change h _ pending ph sids sss a s s Dropped); try done; [by rewrite insert_id|by right|].
  destruct (t_sess _ _ _ _ _ Ht a s _ Ha Hq) as ((sl & S1 & S1' & _) & S2 & S3 & S4 & S5). split; [by exists sl|]. split; [|split; [done|split; [done|by auto] ] ].
  intros _. cbn. rewrite lookup_delete_eq. done.
Qed.

Lemma forget_table h pending ph sids sss a q : table_ok h pending ph sids sss → ph !! a = Some q → q = Halted →
  table_ok (watcher_forget h a) pending (<[a := Forgotten]> ph) sids sss.
Proof.
  intros Ht Hq ->. destruct (proj2 (t_phase _ _ _ _ _ Ht a)) as [s Ha]; [by eexists|]. unfold watcher_forget. rewrite Ha.
  eapply (table_change h _ pending ph sids sss a s s Forgotten); try done; [by rewrite insert_id|cbn; case_match; [by right|by left]|].
  destruct (t_sess _ _ _ _ _ Ht a s _ Ha Hq) as ((sl & S1 & S1' & _) & S2 & S3 & S4 & S5).
  split; [by exists sl|]. split; [|split; [done|split; [intros _; by apply S4|done] ] ].
  intros He. cbn. rewrite He, bool_decide_eq_true_2 by (by apply S2). cbn. rewrite lookup_delete_eq. done.
Qed.

Lemma forgetEvicted_table h pending ph sids sss a s : table_ok h pending ph sids sss → Sessions.heap h !! a = Some s → lv_evicted s = true →
  table_ok (forgetEvicted h a) pending ph sids sss.
Proof.
  intros Ht Ha He. unfold forgetEvicted. rewrite Ha. case_decide as Hl; [|done].
  destruct (proj1 (t_phase _ _ _ _ _ Ht a)) as [q Hq]; [by eexists|].
  eapply (table_step h _ pending ph sids sss a s s q); try done; [by rewrite insert_id|by right|].
  destruct (t_sess _ _ _ _ _ Ht a s _ Ha Hq) as (S1 & S2 & S3). split; [done|]. split; [congruence|done].
Qed.

Lemma move_table h pending ph sids sss a q q' : table_ok h pending ph sids sss → ph !! a = Some q →
  serving q' = serving q → ended q' = false → (unarmed q' = true → unarmed q = true) → table_ok h pending (<[a := q']> ph) sids sss.
Proof.
  intros Ht Hq E1 E2 E3. destruct (proj2 (t_phase _ _ _ _ _ Ht a)) as [s Ha]; [by eexists|].
  eapply (table_change h h pending ph sids sss a s s q'); try done; [by rewrite insert_id|by left|].
  destruct (t_sess _ _ _ _ _ Ht a s _ Ha Hq) as (S1 & S2 & S3 & S4 & S5). split; rewrite ?E1; [done|]. split; [done|]. split; [done|].
  rewrite E2. split; [done|]. auto.
Qed.

Lemma halt_table h pending ph sids sss a q : table_ok h pending ph sids sss → ph !! a = Some q → q = Watched →
  table_ok (stop h a) pending (<[a := Halted]> ph) sids sss.
Proof.
  intros Ht Hq ->. destruct (proj2 (t_phase _ _ _ _ _ Ht a)) as [s Ha]; [by eexists|].
  eapply (table_change h _ pending ph sids sss a s (stop_s s) Halted); try done; [by apply alter_at|by left|].
  destruct (t_sess _ _ _ _ _ Ht a s _ Ha Hq) as (S1 & S2 & S3 & S4 & S5). split; [done|]. split; [done|]. done.
Qed.

Lemma exec_table w e w' : world_table w → exec_event o ID w e = Some w' → world_table w'.
Proof.
  unfold world_table. intros Ht.
  destruct e as [i p|i|i sid p|i|i sid p|i|k p now|k|a ss sid k|a|a|a|a|a|a|a|a|c]; cbn [exec_event]; unfold when, move.
  - case_decide; [|done]. unfold acquirePOST. destruct (_ || _); intros [= <-]; by apply (table_ext (w_h w)).
  - destruct (w_held w !! i) eqn:Hi; [|done]. intros [= <-]. by apply (table_ext (w_h w)).
  - case_decide; [|done]. destruct (beginPOST _ sid p) as [ [h x]|] eqn:Hb; intros [= <-]; [|done]. by eapply beginPOST_table.
  - destruct (w_posts w !! i) as [x|]; [|done]. intros [= <-]. by apply endPOST_table.
  - case_decide; [|done]. destruct (beginGET _ sid p) as [ [h x]|] eqn:Hb; intros [= <-]; [|done]. by eapply beginGET_table.
  - destruct (w_gets w !! i) as [x|]; [|done]. intros [= <-]. by apply endGET_table.
  - case_decide as Hk; [|done]. destruct (reserveSession _ o _ p k now) as [ [ [h ev] r]|] eqn:Hr; [|done].
    apply reserve_shape in Hr as (h1 & r1 & Hm & Hr). pose proof (make_room_table _ _ _ _ _ _ _ _ _ _ _ _ Ht Hm) as Ht1.
    eapply (make_room_ind (λ h _, slots h !! k = None)) in Hm as [Hk1 _]; [| |done].
    2:{ intros h0 ev0 a s Hk0 _ _. by rewrite evict_slots_none. }
    destruct r as [?|[ [rs b] n] ]; intros [= <-]; [destruct Hr as [Hc ->]; by apply new_slot_table|].
    destruct Hr as (_ & _ & c & ->). by apply (table_ext h1).
  - case_decide; [|done]. intros [= <-]. by apply unkept_table.
  - case_decide as Hg; [|done]. destruct Hg as (Hk & Ha & Hsid & Hss). case_match; [|done]. intros [= <-]. by apply register_table.
  - destruct (w_phase w !! a) as [q|] eqn:Hq; [|done]. case_decide as Hin; [|done]. intros [= <-]. apply list_elem_of_singleton in Hin as ->.
    cbn. by destruct (track _); eapply move_table.
  - destruct (w_phase w !! a) as [q|] eqn:Hq; [|done]. case_decide as Hin; [|done]. intros [= <-]. apply list_elem_of_singleton in Hin as ->. by eapply drop_table.
  - destruct (w_phase w !! a) as [q|] eqn:Hq; [|done]. case_decide as Hin; [|done]. intros [= <-]. by eapply arm_table.
  - destruct (w_phase w !! a) as [q|] eqn:Hq; [|done]. case_decide as Hin; [|done]. intros [= <-]. apply list_elem_of_singleton in Hin as ->. by eapply halt_table.
  - destruct (w_phase w !! a) as [q|] eqn:Hq; [|done]. case_decide as Hin; [|done]. intros [= <-]. apply list_elem_of_singleton in Hin as ->. by eapply forget_table.
  - destruct (w_phase w !! a) as [q|] eqn:Hq; [|done]. destruct (Sessions.heap (w_h w) !! a) as [s|] eqn:Ha; [|done].
    case_decide as Hin; [|done]. intros [= <-]. eapply give_back_table; try done. clear -Hin; set_unfold; naive_solver.
  - destruct (Sessions.heap (w_h w) !! a) as [s|] eqn:Ha; [|done]. case_decide as Hin; [|done]. intros [= <-]. by apply expire_table.
  - destruct (Sessions.heap (w_h w) !! a) as [s|] eqn:Ha; [|done]. case_decide as Hin; [|done]. intros [= <-]. by eapply forgetEvicted_table.
  - case_decide; [|done]. intros [= <-]. by apply (table_ext (w_h w)).
Qed.

(** The requests in progress are counted, for POSTs and for GETs, and the
    clocks follow the counts. *)
Definition requests_ok (h : httpHandler) (posts gets : gmap nat in_progress) (sids : gset string) : Prop :=
  tally_ok lv_active (live h) (Sessions.heap h) (early h) posts sids ∧
  tally_ok lv_gets (live h) (Sessions.heap h) (earlyGets h) gets sids ∧ clock_ok (Sessions.heap h).

(** A change that leaves the counts alone. *)
Definition mild_s (s s' : liveSession) : Prop :=
  lv_active s' = lv_active s ∧ lv_gets s' = lv_gets s ∧ lv_principal s' = lv_principal s ∧ (clock_s s → clock_s s').
Definition mild (h h' : httpHandler) : Prop :=
  (∀ a s', Sessions.heap h' !! a = Some s' → ∃ s, Sessions.heap h !! a = Some s ∧ mild_s s s') ∧
  (∀ a, is_Some (Sessions.heap h !! a) → is_Some (Sessions.heap h' !! a)) ∧
  (∀ sid a, live h' !! sid = Some a → live h !! sid = Some a) ∧ same_early h h'.

Lemma mild_ok h h' posts gets sids : requests_ok h posts gets sids → mild h h' → requests_ok h' posts gets sids.
Proof.
  intros (Ha & Hg & Hc) (Hs & Hdom & Hl & E1 & E2). unfold requests_ok. rewrite E1, E2.
  split; [|split]; [apply (tally_frame lv_active _ _ _ _ _ _ _ Ha)|apply (tally_frame lv_gets _ _ _ _ _ _ _ Hg)|]; try done.
  1,2: intros a s' (s & Hs' & ? & ? & ? & _)%Hs; by exists s.
  intros a s' (s & Hs' & _ & _ & _ & Hcl)%Hs. by apply Hcl, (Hc a).
Qed.

Lemma mild_refl s : mild_s s s.
Proof. done. Qed.

Lemma mild_trans h h1 h2 : mild h h1 → mild h1 h2 → mild h h2.
Proof.
  intros (A1 & A2 & A3 & A4 & A5) (B1 & B2 & B3 & B4 & B5). split_and!; [|by intros; apply B2, A2|by intros; apply A3, B3|].
  - intros a s' (s1 & H1 & M1)%B1. apply A1 in H1 as (s & Hs & M). exists s. split; [done|]. unfold mild_s in *. naive_solver congruence.
  - unfold same_early. by rewrite B4, B5.
Qed.

Lemma mild_same h h' : Sessions.heap h' = Sessions.heap h → (∀ sid a, live h' !! sid = Some a → live h !! sid = Some a) → same_early h h' → mild h h'.
Proof. intros Hh Hl He. unfold mild. rewrite Hh. split_and!; try done. intros a s Ha. by exists s. Qed.

Lemma mild_update h a f : (∀ s, Sessions.heap h !! a = Some s → mild_s s (f s)) → mild h (update h a f).
Proof.
  intros Hf. split_and!; cbn; try done.
  - intros b s'. destruct (decide (a = b)) as [<-|]; [rewrite lookup_alter_eq|rewrite lookup_alter_ne by done; by exists s'].
    intros (s & Hs & ->)%fmap_Some. exists s. by auto.
  - intros b [s Hs]. destruct (decide (a = b)) as [<-|]; [rewrite lookup_alter_eq, Hs|rewrite lookup_alter_ne, Hs by done]; by eexists.
Qed.

Lemma mild_stop : ∀ s, mild_s s (stop_s s).
Proof. intros s. split_and!; try done. intros _. unfold clock_s. cbn. by rewrite andb_false_r. Qed.

Lemma mild_arm s : 0 <= lv_active s → mild_s s (arm_s s).
Proof.
  intros Hn. unfold arm_s. destruct (lv_stopped s) eqn:Hs; [done|]. destruct (lv_timer s); [done|]. cbn. split_and!; try done.
  intros _. unfold clock_s. cbn. rewrite andb_true_r. lia.
Qed.

Lemma mild_evict h s a : mild h (evict (retire_victim h s) a).
Proof.
  unfold evict. set (h0 := stop (update (retire_victim h s) a set_evicted) a).
  assert (Hm : mild h h0).
  { unfold h0, stop. eapply mild_trans; [|apply mild_update; intros; apply mild_stop].
    apply (mild_trans _ (retire_victim h s)); [by apply mild_same|]. by apply mild_update. }
  destruct (Sessions.heap h0 !! a) as [t|]; [|done]. eapply mild_trans; [exact Hm|].
  destruct (release_slot_shape h0 (lv_slot t)) as (E1 & E2 & _ & E3 & E4 & _). apply mild_same; [done|by rewrite E2|done].
Qed.

Lemma mild_drops h a : mild h (drop_unwatched h a) ∧ mild h (watcher_forget h a) ∧ mild h (forgetEvicted h a) ∧ mild h (fst (expire h a)).
Proof.
  unfold drop_unwatched, watcher_forget, forgetEvicted, expire. destruct (Sessions.heap h !! a) as [s|]; [|by split_and!; apply mild_same].
  split_and!.
  - apply mild_same; try done. cbn. by intros sid b [_ ?]%lookup_delete_Some.
  - apply mild_same; try done. cbn. intros sid b. by case_match; [intros [_ ?]%lookup_delete_Some|].
  - case_decide; [|by apply mild_same]. apply mild_same; try done. cbn. by intros sid b [_ ?]%lookup_delete_Some.
  - destruct (_ || _); [by apply mild_same|]. cbn. eapply mild_trans; [apply (mild_update h a stop_s); intros; apply mild_stop|]. by apply mild_same.
Qed.

Lemma count_active h posts gets sids a s : requests_ok h posts gets sids → Sessions.heap h !! a = Some s → 0 <= lv_active s.
Proof. intros (Ha & _) Hs. pose proof (c_least _ _ _ _ _ _ Ha a s Hs). pose proof (count_nonneg (at_b (PLive a)) posts). lia. Qed.

(** A POST or GET begins and ends. *)
Lemma live_at_spec h pending ph sids sss sid : table_ok h pending ph sids sss →
  match live_at h sid with
  | Some (a, s) => live h !! sid = Some a ∧ Sessions.heap h !! a = Some s ∧ lv_sid s = sid ∧ sid ∈ sids
  | None => live h !! sid = None
  end.
Proof.
  intros Ht. unfold live_at. destruct (live h !! sid) as [a|] eqn:Hl; [|done]. destruct (t_live _ _ _ _ _ Ht sid a Hl) as (s & Hs & Hsid).
  rewrite Hs. cbn. split_and!; try done. rewrite <- Hsid. by apply (t_known _ _ _ _ _ Ht a s).
Qed.

Lemma clock_alter hp a f : clock_ok hp → (∀ s, hp !! a = Some s → clock_s s → clock_s (f s)) → clock_ok (alter f a hp).
Proof.
  intros Hc Hf b s'. destruct (decide (a = b)) as [<-|]; [rewrite lookup_alter_eq|rewrite lookup_alter_ne by done; by apply Hc].
  intros (s & Hs & ->)%fmap_Some. by apply Hf, (Hc a s).
Qed.

Lemma clock_start s : 0 <= lv_active s → clock_s s → clock_s (startPOST_s s).
Proof.
  unfold clock_s. cbn. intros Hn Hc. destruct (Z.eqb_spec (lv_active s) 0), (lv_timer s); cbn in *; rewrite ?Hc; try done;
  destruct (Z.eqb_spec (lv_active s + 1) 0); try lia; done.
Qed.

Lemma clock_end s n : 1 <= lv_active s → clock_s s → clock_s (endPOST_s s n).
Proof.
  unfold clock_s. cbn. intros Hn Hc. destruct (Z.eqb_spec (lv_active s) 0); [lia|]. rewrite andb_false_r in Hc. cbn in Hc. rewrite Hc.
  destruct (Z.eqb_spec (lv_active s - 1) 0), (lv_timer s), (lv_stopped s); done.
Qed.

Lemma tally_keep field lv hp e m sids a f : tally_ok field lv hp e m sids →
  (∀ s, lv_principal (f s) = lv_principal s ∧ field (f s) = field s) → tally_ok field lv (alter f a hp) e m sids.
Proof.
  intros Ht Hf. apply (tally_frame _ _ _ _ _ _ _ _ Ht); [| |done].
  - intros b s'. destruct (decide (a = b)) as [<-|]; [rewrite lookup_alter_eq|rewrite lookup_alter_ne by done; by exists s'].
    intros (s & Hs & ->)%fmap_Some. exists s. destruct (Hf s). done.
  - intros b [s Hs]. destruct (decide (a = b)) as [<-|]; [rewrite lookup_alter_eq, Hs|rewrite lookup_alter_ne, Hs by done]; by eexists.
Qed.

Section Requests.
Context (h : httpHandler) (pending : gset nat) (ph : gmap nat phase) (sids : gset string) (sss : gset nat) (posts gets : gmap nat in_progress).
Context (Ht : table_ok h pending ph sids sss) (Hr : requests_ok h posts gets sids).

Lemma beginPOST_ok i sid p h' x : posts !! i = None → beginPOST h sid p = Some (h', x) → requests_ok h' (<[i := x]> posts) gets sids.
Proof.
  destruct Hr as (Ha & Hg & Hc). intros Hi. unfold beginPOST. pose proof (live_at_spec _ _ _ _ _ sid Ht) as Hl. destruct (live_at h sid) as [ [a s]|].
  - destruct Hl as (Hl & Hs & _). destruct (negb _); [intros [= <- <-]; split; [by apply begin_nothing|done] |].
    destruct (lv_evicted s); [done|]. intros [= <- <-]. split; [by eapply begin_live|]. split; [by apply tally_keep|].
    apply clock_alter; [done|]. intros t Hat. by apply clock_start, (count_active _ _ _ _ a t Hr).
  - intros [= <- <-]. split; [by apply begin_early|done].
Qed.

Lemma beginGET_ok i sid p h' x : gets !! i = None → beginGET h sid p = Some (h', x) → requests_ok h' posts (<[i := x]> gets) sids.
Proof.
  destruct Hr as (Ha & Hg & Hc). intros Hi. unfold beginGET. pose proof (live_at_spec _ _ _ _ _ sid Ht) as Hl. destruct (live_at h sid) as [ [a s]|].
  - destruct Hl as (Hl & Hs & _). destruct (negb _); [intros [= <- <-]; split; [done|split; [by apply begin_nothing|done] ] |].
    destruct (lv_evicted s); [done|]. intros [= <- <-]. split; [by apply tally_keep|]. split; [by eapply begin_live|].
    by apply clock_alter.
  - intros [= <- <-]. split; [done|]. split; [by apply begin_early|done].
Qed.

Lemma live_unique sid sid' a s : live h !! sid = Some a → Sessions.heap h !! a = Some s → live h !! sid' = Some a → sid' = sid.
Proof.
  intros H1 Hs H2. destruct (t_live _ _ _ _ _ Ht sid a H1) as (s1 & E1 & <-), (t_live _ _ _ _ _ Ht sid' a H2) as (s2 & E2 & <-). congruence.
Qed.

(** What a count is worth while its request is in progress. *)
Lemma in_progress_counted i x : posts !! i = Some x → ∀ a s, Sessions.heap h !! a = Some s →
  x = PLive a ∨ (∃ sid, live h !! sid = Some a ∧ x = PEarly sid (lv_principal s)) → 1 <= lv_active s.
Proof.
  destruct Hr as (Ha & _). intros Hi a s Hs Hx.
  assert (Hone : ∀ y, y = x → 1 <= count (at_b y) posts).
  { intros y ->. pose proof (count_delete (at_b x) posts i x Hi) as Hd. rewrite at_b_eq in Hd. cbn in Hd.
    pose proof (count_nonneg (at_b x) (delete i posts)). lia. }
  destruct Hx as [->|(sid & Hl & ->)].
  - pose proof (c_least _ _ _ _ _ _ Ha a s Hs). specialize (Hone _ eq_refl). lia.
  - rewrite (c_exact _ _ _ _ _ _ Ha sid a s Hl Hs). specialize (Hone _ eq_refl). pose proof (count_nonneg (at_b (PLive a)) posts). lia.
Qed.

Lemma endPOST_ok i x : posts !! i = Some x → requests_ok (endPOST h x) (delete i posts) gets sids.
Proof.
  intros Hi. destruct Hr as (Ha & Hg & Hc). destruct x as [|a|sid p]; cbn [endPOST].
  - split; [by apply end_nothing|done].
  - split; [by apply (end_live lv_active)|]. split; [by apply tally_keep|]. apply clock_alter; [done|]. intros s Hs. apply clock_end.
    apply (in_progress_counted i _ Hi a s Hs). by left.
  - pose proof (live_at_spec _ _ _ _ _ sid Ht) as Hl.
    assert (Hgone : (∀ a s, live h !! sid = Some a → Sessions.heap h !! a = Some s → lv_principal s ≠ p) →
      requests_ok (if 0 <? count_at (early h) (sid, p) then with_early h (count_down (early h) (sid, p)) (earlyGets h) else h) (delete i posts) gets sids).
    { intros Hno. split; [|by destruct (0 <? _)]. pose proof (end_early_gone lv_active _ _ _ _ _ i sid p Ha Hi Hno). by destruct (0 <? _). }
    destruct (live_at h sid) as [ [a s]|]; [|apply Hgone; congruence]. destruct Hl as (Hl & Hs & Hsid & Hin).
    destruct (String.eqb_spec (lv_principal s) p) as [<-|Hne]; [|apply Hgone; congruence].
    split; [by eapply end_early_live; eauto using live_unique|]. split; [by apply tally_keep|]. apply clock_alter; [done|].
    intros t Hat. apply clock_end. apply (in_progress_counted i _ Hi a t Hat). right. exists sid. split; [done|congruence].
Qed.

Lemma endGET_ok i x : gets !! i = Some x → requests_ok (endGET h x) posts (delete i gets) sids.
Proof.
  intros Hi. destruct Hr as (Ha & Hg & Hc). destruct x as [|a|sid p]; cbn [endGET].
  - split; [done|]. split; [by apply end_nothing|done].
  - split; [by apply tally_keep|]. split; [by apply (end_live lv_gets)|]. by apply clock_alter.
  - pose proof (live_at_spec _ _ _ _ _ sid Ht) as Hl.
    assert (Hgone : (∀ a s, live h !! sid = Some a → Sessions.heap h !! a = Some s → lv_principal s ≠ p) →
      requests_ok (if 0 <? count_at (earlyGets h) (sid, p) then with_early h (early h) (count_down (earlyGets h) (sid, p)) else h) posts (delete i gets) sids).
    { intros Hno. split; [by destruct (0 <? _)|]. split; [|by destruct (0 <? _)]. pose proof (end_early_gone lv_gets _ _ _ _ _ i sid p Hg Hi Hno). by destruct (0 <? _). }
    destruct (live_at h sid) as [ [a s]|]; [|apply Hgone; congruence]. destruct Hl as (Hl & Hs & Hsid & Hin).
    destruct (String.eqb_spec (lv_principal s) p) as [<-|Hne]; [|apply Hgone; congruence].
    split; [by apply tally_keep|]. split; [by eapply end_early_live; eauto using live_unique|]. by apply clock_alter.
Qed.
End Requests.

Lemma register_ok h pending ph sids sss posts gets a ss sid p k : table_ok h pending ph sids sss → requests_ok h posts gets sids →
  ph !! a = None → sid ∉ sids → requests_ok (Sessions.register h a ss sid p k) posts gets ({[ sid ]} ∪ sids).
Proof.
  intros Ht (Ha & Hg & Hc) Hph Hsid.
  assert (Hah : Sessions.heap h !! a = None) by (apply eq_None_not_Some; rewrite (t_phase _ _ _ _ _ Ht), Hph; by intros [? ?]).
  assert (Hlive : ∀ sid' b, live h !! sid' = Some b → is_Some (Sessions.heap h !! b)).
  { intros sid' b Hb. destruct (t_live _ _ _ _ _ Ht sid' b Hb) as (t & Hb' & _). by eexists. }
  unfold Sessions.register. cbn zeta.
  match goal with |- context [<[a := ?s]> (Sessions.heap h)] => set (s0 := s) end.
  split; [by apply (register_tally lv_active _ _ _ _ _ a s0 sid Ha)|]. split; [by apply (register_tally lv_gets _ _ _ _ _ a s0 sid Hg)|].
  intros b t. cbn. rewrite lookup_insert_Some. intros [ [_ <-]|[_ Hb] ]; [done|by apply (Hc b)].
Qed.

Definition world_requests (w : world) : Prop := requests_ok (w_h w) (w_posts w) (w_gets w) (w_sids w).

Lemma exec_requests w e w' : world_table w → world_requests w → exec_event o ID w e = Some w' → world_requests w'.
Proof.
  unfold world_table, world_requests. intros Ht Hr.
  assert (Hsame : ∀ h', mild (w_h w) h' → requests_ok h' (w_posts w) (w_gets w) (w_sids w)) by (intros h'; by apply mild_ok).
  destruct e as [i p|i|i sid p|i|i sid p|i|k p now|k|a ss sid k|a|a|a|a|a|a|a|a|c]; cbn [exec_event]; unfold when, move.
  - case_decide; [|done]. unfold acquirePOST. destruct (_ || _); intros [= <-]; [done|]. by apply Hsame, mild_same.
  - destruct (w_held w !! i) eqn:Hi; [|done]. intros [= <-]. by apply Hsame, mild_same.
  - case_decide; [|done]. destruct (beginPOST _ sid p) as [ [h x]|] eqn:Hb; intros [= <-]; [|done]. by eapply beginPOST_ok.
  - destruct (w_posts w !! i) as [x|] eqn:Hi; [|done]. intros [= <-]. by eapply endPOST_ok.
  - case_decide; [|done]. destruct (beginGET _ sid p) as [ [h x]|] eqn:Hb; intros [= <-]; [|done]. by eapply beginGET_ok.
  - destruct (w_gets w !! i) as [x|] eqn:Hi; [|done]. intros [= <-]. by eapply endGET_ok.
  - case_decide as Hk; [|done]. destruct (reserveSession _ o _ p k now) as [ [ [h ev] r]|] eqn:Hr'; [|done].
    apply reserve_shape in Hr' as (h1 & r1 & Hm & Hr').
    eapply (make_room_ind (λ h _, mild (w_h w) h)) in Hm as [Hm _]; [| |by apply mild_same].
    2:{ intros h0 ev0 a s Hm0 _ _. eapply mild_trans; [exact Hm0|apply mild_evict]. }
    destruct r as [?|[ [rs b] n] ]; intros [= <-]; apply Hsame; (eapply mild_trans; [exact Hm|]); [by destruct Hr' as [_ ->]; apply mild_same|].
    destruct Hr' as (_ & _ & c & ->). by apply mild_same.
  - case_decide; [|done]. intros [= <-]. destruct (release_slot_shape (w_h w) k) as (E1 & E2 & _ & E3 & E4 & _).
    apply (Hsame (release_slot (w_h w) k)), mild_same; [done|by rewrite E2|done].
  - case_decide as Hg; [|done]. destruct Hg as (Hk & Ha & Hsid & Hss). case_match; [|done]. intros [= <-]. by eapply register_ok.
  - case_match; [|done]. case_decide; [|done]. by intros [= <-].
  - case_match; [|done]. case_decide; [|done]. intros [= <-]. apply Hsame, mild_drops.
  - case_match; [|done]. case_decide; [|done]. intros [= <-]. apply Hsame, mild_update. intros s Hs. apply mild_arm. by eapply count_active.
  - case_match; [|done]. case_decide; [|done]. intros [= <-]. apply Hsame, mild_update. intros s Hs. apply mild_stop.
  - case_match; [|done]. case_decide; [|done]. intros [= <-]. apply Hsame, mild_drops.
  - case_match; [|done]. destruct (Sessions.heap (w_h w) !! a) as [s|]; [|done]. case_decide; [|done]. intros [= <-].
    destruct (release_slot_shape (w_h w) (lv_slot s)) as (E1 & E2 & _ & E3 & E4 & _).
    apply (Hsame (release_slot (w_h w) (lv_slot s))), mild_same; [done|by rewrite E2|done].
  - case_match; [|done]. case_decide; [|done]. intros [= <-]. apply Hsame, mild_drops.
  - case_match; [|done]. case_decide; [|done]. intros [= <-]. apply Hsame, mild_drops.
  - case_decide; [|done]. intros [= <-]. by apply Hsame, mild_same.
Qed.

(** ** Evicted sessions run no call *)

Lemma calls_frame h h' ph ph' : limits h' = limits h →
  (∀ a s', Sessions.heap h' !! a = Some s' → lv_evicted s' = true → ∃ s, Sessions.heap h !! a = Some s ∧ lv_ss s' = lv_ss s ∧ lv_evicted s = true) →
  (∀ a, is_Some (Sessions.heap h !! a) → ph' !! a ≠ Some Forgotten → ph !! a ≠ Some Forgotten) → calls_ok h ph → calls_ok h' ph'.
Proof.
  intros Hl Hs Hp (st & Hr & Hc). exists st. rewrite Hl. split; [done|]. intros a s' Ha Hph He.
  destruct (Hs a s' Ha He) as (s & Hs0 & -> & He'). apply (Hc a s); try done. apply Hp; [by eexists|done].
Qed.

Lemma evicted_calls_update h a f seq ph : (∀ s, lv_ss (f s) = lv_ss s ∧ lv_evicted (f s) = lv_evicted s) → calls_ok h ph →
  calls_ok (with_live h (live h) (alter f a (Sessions.heap h)) seq) ph.
Proof.
  intros Hf. apply calls_frame; try done. cbn. intros b s'. destruct (decide (a = b)) as [<-|].
  - rewrite lookup_alter_eq. intros (s & Hs & ->)%fmap_Some. destruct (Hf s) as [-> ->]. by exists s.
  - rewrite lookup_alter_ne by done. by exists s'.
Qed.

Lemma calls_step h ph c g : 0 < ps → bound owner c → calls_ok h ph →
  (∀ a s, Sessions.heap h !! a = Some s → ph !! a ≠ Some Forgotten → lv_evicted s = true → c ≠ OForget (Some (lv_ss s))) →
  calls_ok (with_limits h (fst (exec ID (limits h) c)) g) ph.
Proof.
  intros H0 Hb (st & Hr & Hc) Hno. pose proof (exec_refines ps pp ID owner (limits h) st c H0 Hr Hb) as Hx.
  exists (fst (s_exec ps pp ID st c)). split; [cbn; destruct (exec ID (limits h) c), (s_exec ps pp ID st c); by destruct Hx|].
  intros a s Ha Hph He. destruct (Hc a s Ha Hph He) as [H1 H2]. apply s_exec_idle; [done|done|]. by apply (Hno a).
Qed.

Lemma evict_limits h a : limits (evict h a) = limits h.
Proof.
  unfold evict. cbn. destruct (alter stop_s a _ !! a) as [t|]; [|done].
  match goal with |- context [release_slot ?g ?k] => destruct (release_slot_shape g k) as (_ & _ & F & _) end. done.
Qed.

Lemma calls_evict h ph p a s : 0 < ps → calls_ok h ph → victim h p a s → calls_ok (evict (retire_victim h s) a) ph.
Proof.
  intros H0 (st & Hr & Hc) ((_ & Ha & _) & Hbusy & _). pose proof (busy_refines ps pp owner _ _ (Some (lv_ss s)) Hr) as Hb. rewrite Hbusy in Hb.
  symmetry in Hb. apply negb_false_iff, bool_decide_eq_true in Hb.
  exists (s_retire st (Some (lv_ss s))). rewrite evict_limits. split; [by apply refines_retire|].
  intros b t. rewrite evict_heap. cbn. case_decide as Hab; [subst b|].
  - rewrite Ha. cbn. intros [= <-] _ _. cbn. split; [set_solver|done].
  - destruct (Sessions.heap h !! b) as [t0|] eqn:Ht; [|done]. cbn. intros [= <-] Hph He. destruct (Hc b t0 Ht Hph He). split; [set_solver|done].
Qed.

(** The events' calls are the sessions' own. *)
Definition event_bound (e : event) : Prop := match e with ECall c => bound owner c | _ => True end.

Lemma calls_same h h' ph : limits h' = limits h → Sessions.heap h' = Sessions.heap h → calls_ok h ph → calls_ok h' ph.
Proof. intros Hl Hh. apply calls_frame; [done| |done]. rewrite Hh. intros a s' Ha He. by exists s'. Qed.

Lemma calls_phase h ph a q : calls_ok h ph → ph !! a ≠ Some Forgotten → calls_ok h (<[a := q]> ph).
Proof.
  intros Hc Hq. eapply (calls_frame h h ph); [done|intros b s' Hb He; by exists s'| |done]. intros b _ Hb Hbf. destruct (decide (a = b)) as [->|]; [done|].
  by rewrite lookup_insert_ne in Hb.
Qed.

Lemma calls_request h h' x sid p ph : (beginPOST h sid p = Some (h', x) ∨ beginGET h sid p = Some (h', x) ∨ h' = endPOST h x ∨ h' = endGET h x) →
  calls_ok h ph → calls_ok h' ph.
Proof.
  intros Hx Hc. assert (Hu : ∀ a f, (∀ s, lv_ss (f s) = lv_ss s ∧ lv_evicted (f s) = lv_evicted s) → calls_ok (update h a f) ph) by (intros; by apply evicted_calls_update).
  assert (Ht : ∀ a f, (∀ s n, lv_ss (f s n) = lv_ss s ∧ lv_evicted (f s n) = lv_evicted s) → calls_ok (update_touch h a f) ph).
  { intros a f Hf. apply evicted_calls_update; [|done]. intros s. apply Hf. }
  unfold beginPOST, beginGET, endPOST, endGET in Hx. destruct Hx as [Hb|[Hb|[->| ->] ] ].
  - destruct (live_at h sid) as [ [a s]|]; [destruct (negb _); [|destruct (lv_evicted s); [done|] ] |]; injection Hb as <- _; [done|by apply Hu|by apply (calls_same h)].
  - destruct (live_at h sid) as [ [a s]|]; [destruct (negb _); [|destruct (lv_evicted s); [done|] ] |]; injection Hb as <- _; [done|by apply Hu|by apply (calls_same h)].
  - destruct x as [|a|sid' p']; [done|by apply Ht|]. destruct (live_at h sid') as [ [a s]|]; [destruct (String.eqb _ _); [by apply Ht|] |]; destruct (0 <? _); by try apply (calls_same h).
  - destruct x as [|a|sid' p']; [done|by apply Ht|]. destruct (live_at h sid') as [ [a s]|]; [destruct (String.eqb _ _); [by apply Ht|] |]; destruct (0 <? _); by try apply (calls_same h).
Qed.

Lemma calls_register h ph a ss sid p k : calls_ok h ph → ph !! a = None → calls_ok (Sessions.register h a ss sid p k) (<[a := Registered]> ph).
Proof.
  intros Hc Hph. apply (calls_frame (Sessions.register h a ss sid p k) _ ph); [done|intros b s' Hb He; by exists s'| |].
  { intros b _ Hb Hbf. destruct (decide (a = b)) as [->|]; [congruence|]. by rewrite lookup_insert_ne in Hb. }
  apply (calls_frame h _ ph); [done| |done|done]. intros b s'. unfold Sessions.register. cbn. rewrite lookup_insert_Some.
  intros [ [_ <-]|[_ Hb] ] He; [done|by exists s'].
Qed.

Lemma calls_forget h pending ph sids sss a : 0 < ps → table_ok h pending ph sids sss → calls_ok h ph → ph !! a = Some Halted →
  calls_ok (watcher_forget h a) (<[a := Forgotten]> ph).
Proof.
  intros H0 Ht Hc Hq. destruct (proj2 (t_phase _ _ _ _ _ Ht a)) as [s Ha]; [by eexists|].
  assert (Hc' : calls_ok h (<[a := Forgotten]> ph)) by (apply calls_phase; [done|congruence]).
  apply (calls_step h _ (OForget (Some (lv_ss s))) (capLog h)) in Hc'; [|done|done|].
  - unfold watcher_forget. rewrite Ha. eapply calls_same; [..|exact Hc']; done.
  - intros b t Hb Hph _ [= E]. apply Hph. assert (a = b) as <- by (apply (t_inj _ _ _ _ _ Ht a b s t); tauto). by rewrite lookup_insert_eq.
Qed.

Lemma calls_expire h ph a : 0 < ps → calls_ok h ph → calls_ok (fst (expire h a)) ph.
Proof.
  intros H0 Hc. unfold expire. destruct (Sessions.heap h !! a) as [s|]; [|done]. destruct (_ || _); [done|]. cbn.
  apply (calls_step h ph (ORetire (Some (lv_ss s))) (capLog h)) in Hc; [|done|done|done]. cbn [exec] in Hc.
  eapply evicted_calls_update in Hc; [eapply calls_same; [..|exact Hc]; done|done].
Qed.

Lemma exec_calls w e w' : 0 < ps → event_bound e → world_table w → calls_ok (w_h w) (w_phase w) → exec_event o ID w e = Some w' →
  calls_ok (w_h w') (w_phase w').
Proof.
  intros H0 Hb Ht Hc.
  destruct e as [i p|i|i sid p|i|i sid p|i|k p now|k|a ss sid k|a|a|a|a|a|a|a|a|c]; cbn [exec_event]; unfold when, move.
  - case_decide; [|done]. unfold acquirePOST. destruct (_ || _); intros [= <-]; [done|]. by apply (calls_same (w_h w)).
  - destruct (w_held w !! i) eqn:Hi; [|done]. intros [= <-]. by apply (calls_same (w_h w)).
  - case_decide; [|done]. destruct (beginPOST _ sid p) as [ [h x]|] eqn:Hx; intros [= <-]; [|done]. eapply (calls_request (w_h w) _ x sid p); [|done]. tauto.
  - destruct (w_posts w !! i) as [x|]; [|done]. intros [= <-]. eapply (calls_request (w_h w) _ x "" ""); [|done]. tauto.
  - case_decide; [|done]. destruct (beginGET _ sid p) as [ [h x]|] eqn:Hx; intros [= <-]; [|done]. eapply (calls_request (w_h w) _ x sid p); [|done]. tauto.
  - destruct (w_gets w !! i) as [x|]; [|done]. intros [= <-]. eapply (calls_request (w_h w) _ x "" ""); [|done]. tauto.
  - case_decide as Hk; [|done]. destruct (reserveSession _ o _ p k now) as [ [ [h ev] r]|] eqn:Hr; [|done].
    apply reserve_shape in Hr as (h1 & r1 & Hm & Hr).
    eapply (make_room_ind (λ h _, calls_ok h (w_phase w))) in Hm as [Hm _]; [| |done].
    2:{ intros h0 ev0 a s Hm0 Hv _. by eapply calls_evict. }
    destruct r as [?|[ [rs b] n] ]; intros [= <-]; [by destruct Hr as [_ ->]; apply (calls_same h1)|].
    destruct Hr as (_ & _ & c & ->). by apply (calls_same h1).
  - case_decide; [|done]. intros [= <-]. destruct (release_slot_shape (w_h w) k) as (E1 & _ & E3 & _). by apply (calls_same (w_h w)).
  - case_decide as Hg; [|done]. destruct Hg as (Hk & Ha & Hsid & Hss). case_match; [|done]. intros [= <-]. by apply calls_register.
  - destruct (w_phase w !! a) as [q|] eqn:Hq; [|done]. case_decide as Hin; [|done]. intros [= <-]. apply list_elem_of_singleton in Hin as ->. apply calls_phase; [done|congruence].
  - destruct (w_phase w !! a) as [q|] eqn:Hq; [|done]. case_decide as Hin; [|done]. intros [= <-]. apply list_elem_of_singleton in Hin as ->.
    apply calls_phase; [|congruence]. cbn. unfold drop_unwatched. destruct (Sessions.heap (w_h w) !! a); [|done]. by apply (calls_same (w_h w)).
  - case_match; [|done]. case_decide; [|done]. intros [= <-]. apply evicted_calls_update; [|done]. intros s. unfold arm_s. by case_match.
  - destruct (w_phase w !! a) as [q|] eqn:Hq; [|done]. case_decide as Hin; [|done]. intros [= <-]. apply list_elem_of_singleton in Hin as ->.
    apply calls_phase; [|congruence]. by apply evicted_calls_update.
  - destruct (w_phase w !! a) as [q|] eqn:Hq; [|done]. case_decide as Hin; [|done]. intros [= <-]. apply list_elem_of_singleton in Hin as ->.
    by eapply calls_forget.
  - destruct (w_phase w !! a) as [q|]; [|done]. destruct (Sessions.heap (w_h w) !! a) as [s|]; [|done]. case_decide; [|done]. intros [= <-].
    destruct (release_slot_shape (w_h w) (lv_slot s)) as (E1 & _ & E3 & _). by apply (calls_same (w_h w)).
  - destruct (Sessions.heap (w_h w) !! a) as [s|] eqn:Ha; [|done]. case_decide; [|done]. intros [= <-]. by apply calls_expire.
  - destruct (Sessions.heap (w_h w) !! a) as [s|] eqn:Ha; [|done]. case_decide; [|done]. intros [= <-]. unfold forgetEvicted. cbn. rewrite Ha.
    case_decide; [|done]. by apply (calls_same (w_h w)).
  - case_decide as Hop; [|done]. intros [= <-]. apply calls_step; [done|done|done|]. by intros a s _ _ _ ->.
Qed.

Lemma exec_inv w e w' : 0 < ps → event_bound e → inv w → exec_event o ID w e = Some w' → inv w'.
Proof.
  intros H0 Hb [V1 V2 V3 V4 V5 V6 V7] He.
  destruct (exec_requests w e w' V3 (conj V4 (conj V5 V6)) He) as (R1 & R2 & R3).
  split; [by eapply exec_posts|by eapply exec_slots|by eapply exec_table|done|done|done|by eapply exec_calls].
Qed.

Lemma run_inv es w w' : 0 < ps → Forall event_bound es → inv w → run_events o ID w es = Some w' → inv w'.
Proof.
  intros H0 Hb. revert w. induction Hb as [|e es He Hb IH]; intros w Hw; cbn [run_events]; [by intros [= <-]|].
  destruct (exec_event o ID w e) as [w1|] eqn:Hx; [|done]. by apply IH, (exec_inv w e w1).
Qed.

Lemma inv0 : 0 <= MaxInFlight o → 0 <= MaxInFlightPerPrincipal o → 0 <= MaxSessions o → 0 <= MaxSessionsPerPrincipal o → inv (newWorld (newCallLimits ps pp)).
Proof.
  intros ? ? ? ?. assert (Hz : ∀ {K} `{Countable K} (k : K), count_at ∅ k = 0) by (intros; unfold count_at; by rewrite lookup_empty).
  split; cbn.
  - split; cbn; intros; rewrite ?Hz, ?count_empty; lia.
  - split; cbn; intros; rewrite ?Hz, ?count_empty; lia.
  - split; cbn; [intros; rewrite !lookup_empty; split; by intros [? ?]|..]; intros; set_solver.
  - split; cbn; intros; rewrite ?count_empty, ?Hz; try done.
  - split; cbn; intros; rewrite ?count_empty, ?Hz; try done.
  - by intros a s Ha.
  - exists running0. split; [apply refines0|]. by intros a s Ha.
Qed.
End Run.
