(* ===== verification/SessionProps.v ===== *)
(** * What every run of the listener's sessions satisfies

    The caps and the exact counts, the idle clock, what a reservation evicts,
    and the end of an evicted session. *)

From S2P Require Import Prelude GoStd CallLimits Listener Sessions SessionRun SessionInv.

Open Scope string_scope.
Open Scope Z_scope.
Open Scope list_scope.

(** ** What every run satisfies *)

Lemma resolve_one_pos name v d r : 0 < d → resolve_one name v d = Ok r → 0 < r.
Proof. unfold resolve_one. intros Hd. destruct (Z.ltb_spec v 0); [done|]. destruct (Z.eqb_spec v 0); intros [= <-]; lia. Qed.

Lemma resolved_pos o0 o : resolved o0 = Ok o →
  0 < MaxInFlight o ∧ 0 < MaxInFlightPerPrincipal o ∧ 0 < MaxSessions o ∧ 0 < MaxSessionsPerPrincipal o ∧ 0 < MaxCallsPerSession o ∧ 0 < MaxCallsPerPrincipal o.
Proof.
  unfold resolved. repeat match goal with |- context [resolve_one ?n ?v ?d] => let E := fresh "E" in destruct (resolve_one n v d) eqn:E; cbn; [|done] end.
  intros [= <-]. cbn. split_and!; (eapply resolve_one_pos; [|eassumption]; lia).
Qed.

(** The states of a listener with valid options, over any events. *)
Definition listening (o : HTTPOptions) (ID : nat → string) (owner : nat → string) (w : world) : Prop :=
  (∃ o0, resolved o0 = Ok o) ∧
  ∃ es, Forall (event_bound owner) es ∧ run_events o ID (newWorld (newCallLimits (MaxCallsPerSession o) (MaxCallsPerPrincipal o))) es = Some w.

Lemma listening_inv o ID owner w : listening o ID owner w → inv o owner (MaxCallsPerSession o) (MaxCallsPerPrincipal o) w.
Proof.
  intros ([o0 Ho] & es & Hb & Hr). destruct (resolved_pos _ _ Ho) as (? & ? & ? & ? & ? & ?).
  eapply run_inv; [..|exact Hr]; [done|done|]. apply inv0; lia.
Qed.

(** The live sessions in service whose principal satisfies [Q] each hold a slot. *)
Definition served (h : httpHandler) (Q : string → bool) (a : nat) : Prop :=
  match Sessions.heap h !! a with Some s => lv_evicted s = false ∧ Q (lv_principal s) = true | None => False end.
#[export] Instance served_dec h Q a : Decision (served h Q a).
Proof. unfold served. destruct (_ !! a); apply _. Defined.
Definition sessions_of (h : httpHandler) (Q : string → bool) : gmap string nat := filter (λ kv : string * nat, served h Q kv.2) (live h).

Lemma sessions_of_slots h pending ph sids sss Q : table_ok h pending ph sids sss →
  Z.of_nat (size (sessions_of h Q)) <= count (λ sl, open_b sl && Q (sl_principal sl)) (slots h).
Proof.
  intros Ht. unfold count. match goal with |- context [filter ?P (slots h)] => set (M := filter P (slots h)) end.
  set (slot_of := λ kv : string * nat, match Sessions.heap h !! kv.2 with Some s => lv_slot s | None => O end).
  assert (Hel : ∀ kv, kv ∈ map_to_list (sessions_of h Q) → live h !! kv.1 = Some kv.2 ∧ ∃ s, Sessions.heap h !! kv.2 = Some s ∧ lv_sid s = kv.1 ∧
    lv_evicted s = false ∧ Q (lv_principal s) = true).
  { intros [sid a] Hin%elem_of_map_to_list. apply map_lookup_filter_Some in Hin as [Hl Hs]. cbn in *. split; [done|]. unfold served in Hs.
    destruct (t_live _ _ _ _ _ Ht sid a Hl) as (s & Ha & Hsid). rewrite Ha in Hs. by exists s. }
  cut (List.length (slot_of <$> map_to_list (sessions_of h Q)) ≤ List.length (elements (dom M)))%nat.
  { rewrite length_fmap, length_map_to_list. change (List.length (elements (dom M))) with (size (dom M)). rewrite size_dom. lia. }
  apply submseteq_length, NoDup_submseteq.
  - apply NoDup_fmap_2_strong; [|apply NoDup_map_to_list]. intros x y Hx Hy Hxy. destruct (Hel x Hx) as (_ & s & Hs & Es & _), (Hel y Hy) as (_ & t & Hy' & Et & _).
    unfold slot_of in Hxy. rewrite Hs, Hy' in Hxy. assert (x.2 = y.2) as E by (apply (t_inj _ _ _ _ _ Ht _ _ s t); tauto).
    destruct x, y; cbn in *; congruence.
  - intros k (kv & -> & Hin)%list_elem_of_fmap. destruct (Hel kv Hin) as (Hl & s & Hs & Hsid & He & Hq). unfold slot_of. rewrite Hs.
    destruct (proj1 (t_phase _ _ _ _ _ Ht kv.2)) as [q Hph]; [by eexists|].
    destruct (t_sess _ _ _ _ _ Ht _ s q Hs Hph) as ((sl & Hsl & Hp & Hrel) & Hlive & _).
    apply elem_of_elements, elem_of_dom. exists sl. apply map_lookup_filter_Some. split; [done|]. cbn. unfold open_b.
    rewrite Hrel, Hp, Hq; [done| |done]. apply Hlive; [done|]. by rewrite Hsid.
Qed.

(** What a reservation evicted, seen from the state [h] it began in. *)
Definition evicts (h : httpHandler) (p : string) (h' : httpHandler) (ev : list nat) : Prop :=
  live h' = live h ∧
  (∀ b, Sessions.heap h' !! b = (if decide (b ∈ ev) then stop_s ∘ set_evicted else id) <$> Sessions.heap h !! b) ∧
  (∀ b t, candidate h p b t → b ∉ ev → busy (limits h') (Some (lv_ss t)) = busy (limits h) (Some (lv_ss t))) ∧
  ∀ a, a ∈ ev → ∃ s, candidate h p a s ∧ busy (limits h) (Some (lv_ss s)) = false ∧
    ∀ b t, candidate h p b t → b ∉ ev → busy (limits h) (Some (lv_ss t)) = false → lv_lastSeq s <= lv_lastSeq t.

Lemma busy_retired l ss n : busy (add_retired l ss) n = busy l n.
Proof. by destruct ss. Qed.

Lemma evicts_step h p h0 ev a s : evicts h p h0 ev → victim h0 p a s → evicts h p (evict (retire_victim h0 s) a) (ev ++ [a]).
Proof.
  intros (E1 & E2 & E3 & E4) (Hc & Hb & Hleast).
  assert (Hcand : ∀ b t, candidate h0 p b t ↔ candidate h p b t ∧ b ∉ ev).
  { intros b t. unfold candidate. rewrite E1, E2. case_decide as Hin.
    - split; [|by intros [_ ?] ]. intros (_ & Ht & _ & He & _). destruct (Sessions.heap h !! b); [|done]. cbn in Ht. injection Ht as <-. done.
    - rewrite option_fmap_id. tauto. }
  apply Hcand in Hc as [Hc Hni]. rewrite (E3 a s Hc Hni) in Hb. split_and!.
  - by rewrite evict_live.
  - intros b. rewrite evict_heap. cbn. rewrite E2. destruct (decide (a = b)) as [<-|Hne].
    + rewrite decide_False by done. rewrite decide_True by set_solver. by rewrite option_fmap_id.
    + rewrite option_fmap_id. by rewrite (decide_ext (b ∈ ev ++ [a]) (b ∈ ev)) by set_solver.
  - intros b t Ht Hb'. rewrite evict_limits. cbn [retire_victim with_limits limits]. rewrite busy_retired. apply (E3 b); [done|set_solver].
  - intros b [Hin| ->%list_elem_of_singleton]%elem_of_app.
    + destruct (E4 b Hin) as (s' & Hs' & Hb' & Hl). exists s'. split; [done|]. split; [done|]. intros c t Ht Hc'. apply (Hl c t Ht). set_solver.
    + exists s. split; [done|]. split; [done|]. intros c t Ht Hc' Hbc. assert (c ∉ ev) by set_solver. apply (Hleast c t); [by apply Hcand|]. by rewrite (E3 c).
Qed.

Lemma evicts_refl h p : evicts h p h [].
Proof.
  split_and!; try done; [|by intros a Ha%not_elem_of_nil]. intros b. rewrite decide_False by apply not_elem_of_nil. by rewrite option_fmap_id.
Qed.

(** No request in progress on a session whose count is zero. *)
Lemma no_request (m : gmap nat in_progress) x y : count (at_b x) m + count (at_b y) m = 0 → ∀ i, m !! i ≠ Some x ∧ m !! i ≠ Some y.
Proof.
  intros Hz i. pose proof (count_nonneg (at_b x) m). pose proof (count_nonneg (at_b y) m).
  split; intros Hi; [pose proof (count_zero (at_b x) m ltac:(lia) i _ Hi) as Hf|pose proof (count_zero (at_b y) m ltac:(lia) i _ Hi) as Hf];
    by rewrite at_b_eq in Hf.
Qed.

(** C25: the listener's caps hold and its counts are exact, over any sequence
    of requests, registrations, expiries, evictions, closings and calls.  The
    POSTs in flight are those admitted and not finished, in all and for each
    principal, within the caps; the sessions counted are the slots not given
    back, each given back once, within the caps; and the sessions in service,
    in all and for each principal, never exceed them. *)
Theorem sessions_bounded o ID owner w : listening o ID owner w →
  let h := w_h w in
  (inFlightPOSTs h = count (λ _, true) (w_held w) ∧ inFlightPOSTs h <= MaxInFlight o ∧
   ∀ p, count_at (perPrincipalPOSTs h) p = count (owned_b p) (w_held w) ∧ count_at (perPrincipalPOSTs h) p <= MaxInFlightPerPrincipal o) ∧
  (openSessions h = count open_b (slots h) ∧ openSessions h <= MaxSessions o ∧
   ∀ p, count_at (sessionsPerPrincipal h) p = count (open_of p) (slots h) ∧ count_at (sessionsPerPrincipal h) p <= MaxSessionsPerPrincipal o) ∧
  Z.of_nat (size (sessions_of h (λ _, true))) <= MaxSessions o ∧
  ∀ p, Z.of_nat (size (sessions_of h (λ q, bool_decide (q = p)))) <= MaxSessionsPerPrincipal o.
Proof.
  intros Hl%listening_inv. cbv zeta. destruct Hl as [ [P1 P2 P3 P4] [S1 S2 S3 S4] Ht _ _ _ _]. split_and!; try done.
  - etransitivity; [apply (sessions_of_slots _ _ _ _ _ (λ _, true) Ht)|]. rewrite S1 in S3. etransitivity; [|exact S3].
    apply Z.eq_le_incl, count_ext. intros i x _. by rewrite andb_true_r.
  - intros p. etransitivity; [apply (sessions_of_slots _ _ _ _ _ _ Ht)|]. etransitivity; [|apply (S4 p)]. rewrite S2.
    apply Z.eq_le_incl, count_ext. done.
Qed.

(** C28: a session's idle clock counts down only while no request of its own
    principal is being served on it.  On every live session the POSTs and GET
    streams counted are those in progress, the ones that began before the
    session was registered included; a clock counts down exactly when it was
    started, no POST is in progress and nothing stopped it, and only on a
    session still live and not evicted; and when a timer retires a session, no
    POST is in progress on it. *)
Theorem idle_clock_exact o ID owner w a s : listening o ID owner w → Sessions.heap (w_h w) !! a = Some s →
  let on m := count (at_b (PLive a)) m + count (at_b (PEarly (lv_sid s) (lv_principal s))) m in
  (live (w_h w) !! lv_sid s = Some a → lv_active s = on (w_posts w) ∧ lv_gets s = on (w_gets w)) ∧
  (lv_running s = true → live (w_h w) !! lv_sid s = Some a ∧ lv_evicted s = false ∧ on (w_posts w) = 0) ∧
  (live (w_h w) !! lv_sid s = Some a → lv_timer s = true → lv_stopped s = false → on (w_posts w) = 0 → lv_running s = true) ∧
  (snd (expire (w_h w) a) = true → live (w_h w) !! lv_sid s = Some a →
   ∀ i, w_posts w !! i ≠ Some (PLive a) ∧ w_posts w !! i ≠ Some (PEarly (lv_sid s) (lv_principal s))).
Proof.
  intros Hl%listening_inv Ha. cbv zeta. destruct Hl as [_ _ Ht Hact Hget Hck _].
  destruct (proj1 (t_phase _ _ _ _ _ Ht a)) as [q Hq]; [by eexists|]. destruct (t_sess _ _ _ _ _ Ht a s q Ha Hq) as (_ & S2 & S3 & S4 & S5).
  assert (Hex : live (w_h w) !! lv_sid s = Some a → lv_active s = count (at_b (PLive a)) (w_posts w) + count (at_b (PEarly (lv_sid s) (lv_principal s))) (w_posts w)).
  { intros Hl. by rewrite (c_exact _ _ _ _ _ _ Hact _ a s Hl Ha). }
  pose proof (Hck a s Ha) as Hc. unfold clock_s in Hc. split_and!.
  - intros Hl. split; [by apply Hex|]. by rewrite (c_exact _ _ _ _ _ _ Hget _ a s Hl Ha).
  - rewrite Hc. intros [ [Hti Hz%Z.eqb_eq]%andb_true_iff Hst%negb_true_iff]%andb_true_iff.
    assert (He : lv_evicted s = false) by (destruct (lv_evicted s); [|done]; rewrite S3 in Hst; done).
    assert (Hlv : live (w_h w) !! lv_sid s = Some a).
    { apply S2; [done|]. destruct q; try done; [by rewrite S4 in Hst|by rewrite S5 in Hti]. }
    split; [done|]. split; [done|]. rewrite <- Hex; done.
  - intros Hl Hti Hst Hz. rewrite Hc, Hti, Hst, Hex, Hz by done. done.
  - unfold expire. rewrite Ha. destruct (lv_stopped s) eqn:Hst; [done|]. cbn [orb]. destruct (Z.ltb_spec 0 (lv_active s)); [done|]. cbn. intros _ Hl i.
    apply no_request. rewrite Hex in * by done. pose proof (count_nonneg (at_b (PLive a)) (w_posts w)).
    pose proof (count_nonneg (at_b (PEarly (lv_sid s) (lv_principal s))) (w_posts w)). lia.
Qed.

(** C27: a reservation always ends, and makes room only by evicting the
    principal's own idle sessions, least recently used first.  Every session
    it evicts is a live one of the same principal with no POST and no GET
    stream in progress, not stopped, and with no call in flight, and no idle
    session it spares was used before; every other session is untouched.  It
    gives a slot when the caps have room for one afterwards, and is refused
    only when every idle session left to the principal still runs a call. *)
Theorem reservation_evicts_idle o ID owner w p k now : listening o ID owner w → slots (w_h w) !! k = None →
  let h := w_h w in
  ∃ h' ev r, reserveSession (S (size (live h))) o h p k now = Some (h', ev, r) ∧
  (∀ a, a ∈ ev → ∃ s, Sessions.heap h !! a = Some s ∧ live h !! lv_sid s = Some a ∧ lv_principal s = p ∧
     lv_stopped s = false ∧ busy (limits h) (Some (lv_ss s)) = false ∧
     (∀ i, w_posts w !! i ≠ Some (PLive a) ∧ w_posts w !! i ≠ Some (PEarly (lv_sid s) p) ∧
           w_gets w !! i ≠ Some (PLive a) ∧ w_gets w !! i ≠ Some (PEarly (lv_sid s) p)) ∧
     ∀ b t, candidate h p b t → b ∉ ev → busy (limits h) (Some (lv_ss t)) = false → lv_lastSeq s <= lv_lastSeq t) ∧
  (∀ b, Sessions.heap h' !! b = (if decide (b ∈ ev) then stop_s ∘ set_evicted else id) <$> Sessions.heap h !! b) ∧
  match r with
  | inl _ => openSessions h' <= MaxSessions o ∧ count_at (sessionsPerPrincipal h') p <= MaxSessionsPerPrincipal o ∧
      slots h' !! k = Some {| sl_principal := p; sl_released := false |}
  | inr (reason, _, _) => (reason = "too many sessions open for this principal" ∨ reason = "too many sessions open") ∧
      ∀ a s, candidate h' p a s → busy (limits h') (Some (lv_ss s)) = true
  end.
Proof.
  intros Hl%listening_inv Hk. cbv zeta. set (h := w_h w) in *. destruct Hl as [_ Hs Ht Hact Hget _ _].
  destruct (make_room_total o p (S (size (live h))) h [] (in_service_live h)) as [ [ [h1 ev] r1] Hm].
  destruct (reserveSession (S (size (live h))) o h p k now) as [ [ [h' ev'] r]|] eqn:Hr.
  2:{ unfold reserveSession in Hr. rewrite Hm in Hr. repeat case_match; done. }
  apply reserve_shape in Hr as (h1' & r1' & Hm' & Hr). rewrite Hm' in Hm. injection Hm as -> -> ->.
  pose proof (make_room_ind (λ h1 ev, slots_ok o h1 ∧ slots h1 !! k = None ∧ evicts h p h1 ev) o p) as Hind.
  eapply Hind in Hm' as ((Hs1 & Hk1 & E1 & E2 & E3 & E4) & Hreason & Hrefused); [| |by split_and!; try apply evicts_refl].
  2:{ intros h0 e0 a s (H1 & H2 & H3) Hv _. split_and!; try (by apply evicts_step); [by apply evict_slots_ok, (slots_ok_ext o h0)|by apply evict_slots_none]. }
  exists h', ev, r. split; [done|]. split; [|split].
  - intros a Hin. destruct (E4 a Hin) as (s & ((sid & Hlv) & Ha & Hp & He & H0 & H1 & Hst) & Hb & Hleast). exists s.
    destruct (t_live _ _ _ _ _ Ht sid a Hlv) as (s' & Ha' & Hsid). assert (s' = s) as -> by (unfold h in *; congruence). subst sid p.
    split_and!; try done. intros i. rewrite (c_exact _ _ _ _ _ _ Hact _ a s Hlv Ha) in H0. rewrite (c_exact _ _ _ _ _ _ Hget _ a s Hlv Ha) in H1.
    destruct (no_request _ _ _ H0 i), (no_request _ _ _ H1 i). done.
  - intros b. rewrite <- E2. destruct r as [?|[ [? ?] ?] ]; [by destruct Hr as [_ ->]|by destruct Hr as (_ & _ & c & ->)].
  - destruct r as [?|[ [reason b] n] ].
    + destruct Hr as [Hc ->]. destruct (new_slot_ok o h1 p k Hs1 Hk1 Hc) as [_ _ T1 T2]. split_and!; [done|apply T2|apply lookup_insert_eq].
    + destruct Hr as (-> & Hne & c & ->). split; [|rewrite Hreason in Hrefused; exact (Hrefused Hne)]. unfold cap_reason in *. destruct (_ <=? _); [by left|]. destruct (_ <=? _); [by right|done].
Qed.


(** an evicted session never serves again.  Its clock is stopped for good
    and its expiry does nothing; while its id is still known, every POST and
    GET stream of its principal on it is answered 404; and until go-sdk has
    closed it and its watcher is done, no call runs on it and every admission
    of a call that arrived late is refused, without any change. *)
Theorem evicted_session_final o ID owner w a s principal : listening o ID owner w → Sessions.heap (w_h w) !! a = Some s → lv_evicted s = true →
  let h := w_h w in
  lv_running s = false ∧ expire h a = (h, false) ∧
  (live h !! lv_sid s = Some a → beginPOST h (lv_sid s) (lv_principal s) = None ∧ beginGET h (lv_sid s) (lv_principal s) = None) ∧
  (w_phase w !! a ≠ Some Forgotten →
   entry_calls (limits h) (Some (lv_ss s)) = ∅ ∧
   admit_call (limits h) principal (Some (lv_ss s)) = (limits h, inl (if closed (limits h) then RClosed else RRetired))).
Proof.
  intros Hl%listening_inv Ha He. cbv zeta. set (h := w_h w) in *. destruct Hl as [_ _ Ht _ _ Hck (st & Hr & Hc)].
  destruct (proj1 (t_phase _ _ _ _ _ Ht a)) as [q Hq]; [by eexists|]. destruct (t_sess _ _ _ _ _ Ht a s q Ha Hq) as (_ & _ & S3 & _).
  specialize (S3 He). split_and!.
  - rewrite (Hck a s Ha), S3. by rewrite andb_false_r.
  - unfold expire. fold h in Ha. by rewrite Ha, S3.
  - intros Hl. unfold beginPOST, beginGET, live_at. fold h in Ha. rewrite Hl, Ha. cbn. by rewrite String.eqb_refl, He.
  - intros Hph. destruct (Hc a s Ha Hph He) as [H1 H2]. fold h in Hr. destruct (r_flags _ _ _ _ _ Hr) as (F1 & F2 & _).
    split; [by rewrite (r_calls _ _ _ _ _ Hr), H2, dom_empty_L|].
    unfold admit_call, admit_check. destruct (closed (limits h)); [done|]. unfold isRetired. by rewrite F2, bool_decide_eq_true_2.
Qed.

(** ** Witnesses *)

Definition sample_raw : HTTPOptions :=
  {| MaxInFlight := 0; MaxInFlightPerPrincipal := 0; MaxSessions := 0; MaxSessionsPerPrincipal := 1; MaxCallsPerSession := 0;
     MaxCallsPerPrincipal := 0; SessionTimeout := 0; OrphanTTL := 0; WriteTimeout := 0; BodyReadTimeout := 0 |}.
Definition sample_options : HTTPOptions := match resolved sample_raw with Ok o => o | Err _ => sample_raw end.

(** alice opens a session, whose first POST began before it was registered,
    and calls a tool on it; the call ends. *)
Definition sample_events : list event :=
  [EAcquire 0 "alice"; EReserve 0 "alice" 5; EBeginPOST 0 "s1" "alice"; ERegister 7 1 "s1" 0; ETrack 7; EArm 7;
   ECall (OAdmit "alice" (Some 1%nat)); ECall (ORelease 0); EEndPOST 0; ERelease 0].

Definition run_sample (es : list event) : world :=
  let w := newWorld (newCallLimits (MaxCallsPerSession sample_options) (MaxCallsPerPrincipal sample_options)) in
  default w (run_events sample_options (λ _, "id") w es).

Lemma sample_listening n : listening sample_options (λ _, "id") (λ _, "alice") (run_sample (take n (sample_events ++ [EReserve 1 "alice" 6]))).
Proof.
  split; [exists sample_raw; vm_compute; reflexivity|]. exists (take n (sample_events ++ [EReserve 1 "alice" 6])). split.
  - apply Forall_take. repeat constructor.
  - do 12 (destruct n as [|n]; [vm_compute; reflexivity|]). vm_compute. reflexivity.
Qed.

Lemma sessions_bounded_witness : openSessions (w_h (run_sample sample_events)) = 1 ∧ openSessions (w_h (run_sample sample_events)) <= 16.
Proof.
  pose proof (sessions_bounded _ _ _ _ (sample_listening 10)) as (_ & (_ & Hc & _) & _). split; [vm_compute; reflexivity|exact Hc].
Defined.

Definition sample_session : liveSession := default {| lv_ss := 0; lv_sid := ""; lv_principal := ""; lv_slot := 0; lv_evicted := false;
  lv_active := 0; lv_gets := 0; lv_timer := false; lv_stopped := false; lv_running := false; lv_lastSeq := 0 |}
  (Sessions.heap (w_h (run_sample sample_events)) !! 7%nat).

Lemma idle_clock_exact_witness : lv_running sample_session = true.
Proof.
  assert (Ha : Sessions.heap (w_h (run_sample (take 10 (sample_events ++ [EReserve 1 "alice" 6])))) !! 7%nat = Some sample_session) by (vm_compute; reflexivity).
  destruct (idle_clock_exact _ _ _ _ 7%nat _ (sample_listening 10) Ha) as (_ & _ & Hrun & _). apply Hrun; vm_compute; reflexivity.
Defined.

Definition sample_h : httpHandler := w_h (run_sample (take 10 (sample_events ++ [EReserve 1 "alice" 6]))).

Lemma sample_evicts : (λ x, snd (fst x)) <$> reserveSession (S (size (live sample_h))) sample_options sample_h "alice" 1 6 = Some [7%nat].
Proof. vm_compute. reflexivity. Qed.

Lemma reservation_evicts_idle_witness :
  ∃ h' ev r, reserveSession (S (size (live sample_h))) sample_options sample_h "alice" 1 6 = Some (h', ev, r) ∧ ev = [7%nat].
Proof.
  assert (Hk : slots sample_h !! 1%nat = None) by (vm_compute; reflexivity).
  pose proof (reservation_evicts_idle _ _ _ _ "alice" 1%nat 6 (sample_listening 10) Hk) as Hr. cbv zeta in Hr. fold sample_h in Hr.
  pose proof sample_evicts as He. destruct Hr as (h' & ev & r & Hr & _). rewrite Hr in He. cbn in He. exists h', ev, r.
  split; [exact Hr|congruence].
Defined.

Definition sample_h' : httpHandler := w_h (run_sample (take 11 (sample_events ++ [EReserve 1 "alice" 6]))).

Lemma evicted_session_final_witness : beginPOST sample_h' "s1" "alice" = None.
Proof.
  assert (Ha : ∃ s, Sessions.heap sample_h' !! 7%nat = Some s ∧ lv_evicted s = true ∧ lv_sid s = "s1" ∧ lv_principal s = "alice")
    by (eexists; vm_compute; done).
  destruct Ha as (s & Ha & He & Es & Ep).
  pose proof (evicted_session_final _ _ _ _ 7%nat s "alice" (sample_listening 11) Ha He) as H. cbv zeta in H. fold sample_h' in H.
  destruct H as (_ & _ & H404 & _). rewrite Es, Ep in H404.
  assert (Hl : live sample_h' !! "s1" = Some 7%nat) by (vm_compute; reflexivity).
  exact (proj1 (H404 Hl)).
Defined.
