(* ===== verification/HttpRequest.v ===== *)
(** * One request of the listener: internal/proxy/http.go

    [ServeHTTP], [serveAuthed], [settleSession] and [closeEvicted] as the
    sequence of events ([SessionRun]) that one request makes, with the events of
    every other request, session and timer before each of them; and the
    connection deadlines around a response.  A request gives back what it took,
    on every path, and its session is not evicted while go-sdk serves it. *)

From S2P Require Import Prelude GoStd CallLimits Listener Sessions SessionRun SessionInv SessionProps.

Open Scope string_scope.
Open Scope Z_scope.
Open Scope list_scope.

(** ** The request *)

(** What the agent gets: a refusal with its status, text, whether it says
    Retry-After and the listener it was decided on; or go-sdk's answer, with the
    listener as go-sdk began and ended. *)
Inductive response :=
  | Refused (code : Z) (text : string) (retry : bool) (w : world)
  | Served (stateless : bool) (w1 w2 : world).

(** The state: how many times the others ran, and the listener. *)
Definition M (A : Type) : Type := nat * world → option (nat * world * A).
#[export] Instance M_ret : MRet M := λ A a st, Some (st, a).
#[export] Instance M_bind : MBind M := λ A B f m st, match m st with Some (st, a) => f a st | None => None end.

Section Serve.
Context (o : HTTPOptions) (ID : nat → string).
(** What the others do before each step of this request; events that cannot
    happen then do not. *)
Context (others : nat → list event).
(** The request, its principal and the time; its number, the slot it may
    reserve, and the session's address; the session go-sdk keeps of it, if any. *)
Context (rq : http_request) (principal : string) (now : Z) (i k a : nat) (kept : option (nat * string)).

Definition others_run (w : world) (es : list event) : world := foldl (λ w e, default w (exec_event o ID w e)) w es.

(** One event of the request's own; [None] only if it cannot happen. *)
Definition act (e : event) : M world := λ '(n, w),
  match exec_event o ID (others_run w (others n)) e with Some w => Some ((S n, w), w) | None => None end.

(** go-sdk's handler: the listener before and after. *)
Definition sdk : M (world * world) := λ '(n, w), let w' := others_run w (others n) in Some ((S n, w'), (w, w')).

(** The listener as the request looks at it. *)
Definition look : M world := λ '(n, w), let w := others_run w (others n) in Some ((S n, w), w).

(** [reserveSession]: the sessions it evicted, and the refusal if there is one. *)
Definition reserve : M (list nat * option response) := λ '(n, w),
  let w := others_run w (others n) in
  match reserveSession (S (size (live (w_h w)))) o (w_h w) principal k now, exec_event o ID w (EReserve k principal now) with
  | Some (_, ev, r), Some w => Some ((S n, w), (ev, match r with inl _ => None | inr (reason, _, _) => Some (Refused 503 ("Service Unavailable: " ++ reason)%string true w) end))
  | _, _ => None
  end.

(** [closeEvicted]: a goroutine closes the session and forgets it, or, when
    the proxy is closing, it is forgotten at once. *)
Definition closeEvicted (b : nat) : M unit :=
  w ← look;
  if track (limits (w_h w)) then mret tt else _ ← act (EForgetEvicted b); mret tt.

Fixpoint close_all (ev : list nat) : M unit :=
  match ev with [] => mret tt | b :: ev => _ ← closeEvicted b; close_all ev end.

(** [settleSession]. *)
Definition settleSession : M unit :=
  match kept with
  | None => _ ← act (EUnkept k); mret tt
  | Some (ss, sid) =>
      _ ← act (ERegister a ss sid k);
      w ← act (ETrack a);
      if bool_decide (w_phase w !! a = Some Watched) then _ ← act (EArm a); mret tt
      else _ ← act (EDrop a); _ ← act (EGiveBack a); mret tt
  end.

Definition is_method (m : string) : bool := String.eqb (hr_method rq) m.
Definition session_id : string := header_get rq "Mcp-Session-Id".

Definition served (stateless : bool) : M response := w ← sdk; mret (Served stateless (fst w) (snd w)).

Definition not_found (w : world) : response := Refused 404 "Not Found: session not found" false w.

(** [serveAuthed] for a request that is not stateless. *)
Definition stateful : M response :=
  if is_method "DELETE" && negb (String.eqb session_id "") then
    _ ← act (ECall (OCancelSession session_id principal)); served false
  else if is_method "POST" && negb (String.eqb session_id "") then
    w ← act (EBeginPOST i session_id principal);
    match w_posts w !! i with
    | None => mret (not_found w)
    | Some _ => r ← served false; _ ← act (EEndPOST i); mret r
    end
  else if is_method "GET" && negb (String.eqb session_id "") then
    w ← act (EBeginGET i session_id principal);
    match w_gets w !! i with
    | None => mret (not_found w)
    | Some _ => r ← served false; _ ← act (EEndGET i); mret r
    end
  else if is_method "POST" then
    x ← reserve;
    _ ← close_all (fst x);
    match snd x with
    | Some refusal => mret refusal
    | None => r ← served false; _ ← settleSession; mret r
    end
  else served false.

Definition dispatch : M response := if statelessRequest rq then served true else stateful.

(** [serveAuthed]. *)
Definition serveAuthed : M response :=
  if is_method "POST" then
    w ← act (EAcquire i principal);
    match w_held w !! i with
    | None => mret (Refused 503 "Service Unavailable: too many requests in flight" true w)
    | Some _ => r ← dispatch; _ ← act (ERelease i); mret r
    end
  else dispatch.
End Serve.

(** ** What one event does to the sessions *)

(** The sessions are still who they are, and none is evicted. *)
Definition calm (h h' : httpHandler) : Prop := ∀ b s, Sessions.heap h !! b = Some s →
  ∃ s', Sessions.heap h' !! b = Some s' ∧ same_session s s' ∧ lv_evicted s' = lv_evicted s.
#[export] Instance calm_preorder : PreOrder calm.
Proof.
  split; [intros h b s Hb; by exists s|]. intros h1 h2 h3 H1 H2 b s (s2 & Hb & (E1 & E2 & E3 & E4) & Ev)%H1.
  apply H2 in Hb as (s3 & Hb & (F1 & F2 & F3 & F4) & Fv). exists s3. unfold same_session. split; [done|]. split; [split_and!; congruence|congruence].
Qed.

Lemma calm_heap h h' : Sessions.heap h' = Sessions.heap h → calm h h'.
Proof. intros E b s Hb. exists s. by rewrite E. Qed.

Lemma calm_alter h h' b f : (∀ s, same_session s (f s) ∧ lv_evicted (f s) = lv_evicted s) → Sessions.heap h' = alter f b (Sessions.heap h) → calm h h'.
Proof.
  intros Hf E c s Hc. rewrite E. destruct (decide (b = c)) as [->|]; [|exists s; by rewrite lookup_alter_ne].
  exists (f s). rewrite lookup_alter_eq, Hc. split; [done|]. apply Hf.
Qed.

Lemma calm_request h h' x sid p : (beginPOST h sid p = Some (h', x) ∨ beginGET h sid p = Some (h', x) ∨ h' = endPOST h x ∨ h' = endGET h x) → calm h h'.
Proof.
  assert (Ht : ∀ c f, (∀ s n, same_session s (f s n) ∧ lv_evicted (f s n) = lv_evicted s) → calm h (update_touch h c f)) by (intros c f Hf; apply (calm_alter _ _ c (λ s, f s (next_seq h))); [intros s; apply Hf|done]).
  assert (Hu : ∀ c f, (∀ s, same_session s (f s) ∧ lv_evicted (f s) = lv_evicted s) → calm h (update h c f)) by (intros c f Hf; by apply (calm_alter _ _ c f)).
  unfold beginPOST, beginGET, endPOST, endGET. intros [Hb|[Hb|[->| ->] ] ].
  1,2: repeat case_match; simplify_eq; first [done|by apply Hu|by apply calm_heap].
  all: repeat case_match; first [done|by apply Ht|by apply calm_heap].
Qed.

Lemma calm_session h b : calm h (drop_unwatched h b) ∧ calm h (watcher_forget h b) ∧ calm h (forgetEvicted h b) ∧ calm h (fst (expire h b)) ∧
  calm h (arm h b) ∧ calm h (stop h b).
Proof.
  split_and!.
  - apply calm_heap. unfold drop_unwatched. by destruct (Sessions.heap h !! b).
  - apply calm_heap. unfold watcher_forget. by destruct (Sessions.heap h !! b).
  - apply calm_heap. unfold forgetEvicted. destruct (Sessions.heap h !! b); [|done]. by case_decide.
  - unfold expire. destruct (Sessions.heap h !! b) as [s|] eqn:Hb; [|done]. destruct (_ || _); [done|]. by apply (calm_alter _ _ b stop_s).
  - apply (calm_alter _ _ b arm_s); [|done]. intros s. unfold arm_s. by destruct (_ || _).
  - by apply (calm_alter _ _ b stop_s).
Qed.

Definition slot_mono (m : nat) (h h' : httpHandler) : Prop :=
  (slots h !! m = None → slots h' !! m = None) ∧
  ∀ sl, slots h !! m = Some sl → sl_released sl = true → ∃ sl', slots h' !! m = Some sl' ∧ sl_released sl' = true.
#[export] Instance slot_mono_preorder m : PreOrder (slot_mono m).
Proof.
  split; [intros h; unfold slot_mono; naive_solver|]. intros h1 h2 h3 [H1 H2] [H3 H4]. split; [tauto|].
  intros sl Hsl Hr. destruct (H2 sl Hsl Hr) as (sl2 & E & Hr2). by apply (H4 sl2).
Qed.

Lemma slot_mono_release m h n : slot_mono m h (release_slot h n).
Proof.
  unfold release_slot. destruct (slots h !! n) as [sl|] eqn:Hn; [|done]. destruct (sl_released sl) eqn:Hr; [done|]. unfold slot_mono. cbn.
  destruct (decide (n = m)) as [->|]; [|rewrite lookup_insert_ne by done; naive_solver]. rewrite lookup_insert_eq. split; [congruence|]. intros; by eexists.
Qed.

Lemma slot_mono_evict m h b s : slot_mono m h (evict (retire_victim h s) b).
Proof.
  unfold evict. match goal with |- context [match ?x with _ => _ end] => destruct x end; [|unfold slot_mono; cbn; naive_solver].
  etrans; [|apply slot_mono_release]. unfold slot_mono. cbn. naive_solver.
Qed.

Section Steps.
Context (o : HTTPOptions) (ID owner : nat → string).

(** After an event a session is the same one, and is evicted only if it was,
    or if it was idle. *)
Lemma exec_heap w e w' : listening o ID owner w → exec_event o ID w e = Some w' → ∀ b s, Sessions.heap (w_h w) !! b = Some s →
  ∃ s', Sessions.heap (w_h w') !! b = Some s' ∧ same_session s s' ∧
    (lv_evicted s' = lv_evicted s ∨ (lv_evicted s' = true ∧ ∃ p, candidate (w_h w) p b s)).
Proof.
  intros Hl%listening_inv He.
  assert (Hcalm : calm (w_h w) (w_h w') → ∀ b s, Sessions.heap (w_h w) !! b = Some s → ∃ s', Sessions.heap (w_h w') !! b = Some s' ∧ same_session s s' ∧
    (lv_evicted s' = lv_evicted s ∨ (lv_evicted s' = true ∧ ∃ p, candidate (w_h w) p b s))).
  { intros Hc b s (s' & H1 & H2 & H3)%Hc. exists s'. tauto. }
  destruct e as [j p|j|j sid p|j|j sid p|j|m p now|m|c ss sid m|c|c|c|c|c|c|c|c|c]; cbn [exec_event] in He; unfold when, move in He.
  - apply Hcalm, calm_heap. case_decide; [|done]. unfold acquirePOST in He. destruct (_ || _); by injection He as <-.
  - apply Hcalm, calm_heap. destruct (w_held w !! j); [|done]. by injection He as <-.
  - apply Hcalm. case_decide; [|done]. destruct (beginPOST _ sid p) as [ [h x]|] eqn:Hb; injection He as <-; [|done]. eapply (calm_request _ _ x sid p). tauto.
  - apply Hcalm. destruct (w_posts w !! j) as [x|]; [|done]. injection He as <-. eapply (calm_request _ _ x "" ""). tauto.
  - apply Hcalm. case_decide; [|done]. destruct (beginGET _ sid p) as [ [h x]|] eqn:Hb; injection He as <-; [|done]. eapply (calm_request _ _ x sid p). tauto.
  - apply Hcalm. destruct (w_gets w !! j) as [x|]; [|done]. injection He as <-. eapply (calm_request _ _ x "" ""). tauto.
  - case_decide as Hk; [|done]. destruct (reserveSession _ o _ p m now) as [ [ [h ev] r]|] eqn:Hr; [|done].
    apply reserve_shape in Hr as (h1 & r1 & Hm & Hr).
    eapply (make_room_ind (λ h ev, evicts (w_h w) p h ev)) in Hm as [(_ & E2 & _ & E4) _]; [|intros; by apply evicts_step|apply evicts_refl].
    intros b s Hb. assert (Hh : Sessions.heap (w_h w') = Sessions.heap h1).
    { destruct r as [?|[ [rs q] n] ]; injection He as <-; [by destruct Hr as [_ ->]|by destruct Hr as (_ & _ & c & ->)]. }
    rewrite Hh, E2, Hb. case_decide as Hin; cbn; (eexists; split; [reflexivity|]; split; [done|]); [right|by left].
    split; [done|]. exists p. destruct (E4 b Hin) as (s0 & Hs0 & _). assert (s0 = s) as -> by (destruct Hs0 as (_ & ? & _); congruence). done.
  - apply Hcalm, calm_heap. case_decide; [|done]. injection He as <-. by apply release_slot_shape.
  - case_decide as Hg; [|done]. destruct Hg as (_ & Hc & _). destruct (slots (w_h w) !! m) as [sl|]; [|done]. injection He as <-. intros b s Hb. exists s. cbn.
    rewrite lookup_insert_ne; [split; [done|]; split; [done|by left]|]. intros ->. destruct (proj1 (t_phase _ _ _ _ _ (v_table _ _ _ _ _ Hl) b)) as [q Hq]; [by eexists|congruence].
  - apply Hcalm. case_match; [|done]. case_decide; [|done]. by injection He as <-.
  - apply Hcalm. case_match; [|done]. case_decide; [|done]. injection He as <-. apply calm_session.
  - apply Hcalm. case_match; [|done]. case_decide; [|done]. injection He as <-. apply calm_session.
  - apply Hcalm. case_match; [|done]. case_decide; [|done]. injection He as <-. apply calm_session.
  - apply Hcalm. case_match; [|done]. case_decide; [|done]. injection He as <-. apply calm_session.
  - apply Hcalm, calm_heap. case_match; [|done]. destruct (Sessions.heap (w_h w) !! c) as [s0|]; [|done]. case_decide; [|done]. injection He as <-. by apply release_slot_shape.
  - apply Hcalm. destruct (Sessions.heap (w_h w) !! c) as [s|]; [|done]. case_decide; [|done]. injection He as <-. apply calm_session.
  - apply Hcalm. destruct (Sessions.heap (w_h w) !! c) as [s|]; [|done]. case_decide; [|done]. injection He as <-. apply calm_session.
  - apply Hcalm, calm_heap. case_decide; [|done]. by injection He as <-.
Qed.

(** A session comes to an id only by its registration. *)
Lemma exec_live w e w' : exec_event o ID w e = Some w' → ∀ sid b, live (w_h w') !! sid = Some b →
  live (w_h w) !! sid = Some b ∨ ∃ ss m, e = ERegister b ss sid m.
Proof.
  intros He. assert (Hsame : live (w_h w') = live (w_h w) → ∀ sid b, live (w_h w') !! sid = Some b → live (w_h w) !! sid = Some b ∨ ∃ ss m, e = ERegister b ss sid m).
  { intros E sid b. rewrite E. by left. }
  assert (Hless : ∀ q, live (w_h w') = delete q (live (w_h w)) → ∀ sid b, live (w_h w') !! sid = Some b → live (w_h w) !! sid = Some b ∨ ∃ ss m, e = ERegister b ss sid m).
  { intros q E sid b. rewrite E, lookup_delete_Some. intros [_ ?]. by left. }
  destruct e as [j p|j|j sid p|j|j sid p|j|m p now|m|c ss sid m|c|c|c|c|c|c|c|c|c]; cbn [exec_event] in He; unfold when, move in He.
  - apply Hsame. case_decide; [|done]. unfold acquirePOST in He. destruct (_ || _); by injection He as <-.
  - apply Hsame. destruct (w_held w !! j); [|done]. by injection He as <-.
  - apply Hsame. case_decide; [|done]. destruct (beginPOST _ sid p) as [ [h x]|] eqn:Hb; injection He as <-; [|done]. eapply (request_same _ _ x sid p). tauto.
  - apply Hsame. destruct (w_posts w !! j) as [x|]; [|done]. injection He as <-. eapply (request_same _ _ x "" ""). tauto.
  - apply Hsame. case_decide; [|done]. destruct (beginGET _ sid p) as [ [h x]|] eqn:Hb; injection He as <-; [|done]. eapply (request_same _ _ x sid p). tauto.
  - apply Hsame. destruct (w_gets w !! j) as [x|]; [|done]. injection He as <-. eapply (request_same _ _ x "" ""). tauto.
  - apply Hsame. case_decide as Hk; [|done]. destruct (reserveSession _ o _ p m now) as [ [ [h ev] r]|] eqn:Hr; [|done].
    apply reserve_shape in Hr as (h1 & r1 & Hm & Hr). apply make_room_same in Hm as (_ & _ & Hm).
    destruct r as [?|[ [rs q] n] ]; injection He as <-; [by destruct Hr as [_ ->]|by destruct Hr as (_ & _ & c & ->)].
  - apply Hsame. case_decide; [|done]. injection He as <-. by apply release_slot_shape.
  - case_decide; [|done]. destruct (slots (w_h w) !! m) as [sl|]; [|done]. injection He as <-. intros sid' b. cbn. rewrite lookup_insert_Some. intros [ [<- <-]|[_ ?] ]; [right; by exists ss, m|by left].
  - apply Hsame. case_match; [|done]. case_decide; [|done]. by injection He as <-.
  - case_match; [|done]. case_decide; [|done]. injection He as <-. cbn. unfold drop_unwatched in *. destruct (Sessions.heap (w_h w) !! c) as [s|]; [by apply (Hless (lv_sid s))|by apply Hsame].
  - apply Hsame. case_match; [|done]. case_decide; [|done]. by injection He as <-.
  - apply Hsame. case_match; [|done]. case_decide; [|done]. by injection He as <-.
  - case_match; [|done]. case_decide; [|done]. injection He as <-. cbn. unfold watcher_forget in *. destruct (Sessions.heap (w_h w) !! c) as [s|]; [|by apply Hsame].
    cbn in *. destruct (bool_decide _ && _); [by apply (Hless (lv_sid s))|by apply Hsame].
  - apply Hsame. case_match; [|done]. destruct (Sessions.heap (w_h w) !! c) as [s|]; [|done]. case_decide; [|done]. injection He as <-. by apply release_slot_shape.
  - apply Hsame. destruct (Sessions.heap (w_h w) !! c) as [s|] eqn:Hc; [|done]. case_decide; [|done]. injection He as <-. cbn. unfold expire. rewrite Hc. by destruct (_ || _).
  - destruct (Sessions.heap (w_h w) !! c) as [s|] eqn:Hc; [|done]. case_decide; [|done]. injection He as <-. cbn. unfold forgetEvicted in *. rewrite Hc in *. case_decide; [by apply (Hless (lv_sid s))|by apply Hsame].
  - apply Hsame. case_decide; [|done]. by injection He as <-.
Qed.

(** Slots only appear by a reservation, and are given back for good. *)
Lemma exec_slot w e w' m : exec_event o ID w e = Some w' → (∀ p now, e ≠ EReserve m p now) → slot_mono m (w_h w) (w_h w').
Proof.
  intros He Hm. assert (Hsame : slots (w_h w') = slots (w_h w) → slot_mono m (w_h w) (w_h w')) by (intros E; unfold slot_mono; rewrite E; naive_solver).
  destruct e as [j p|j|j sid p|j|j sid p|j|n p now|n|c ss sid n|c|c|c|c|c|c|c|c|c]; cbn [exec_event] in He; unfold when, move in He.
  - apply Hsame. case_decide; [|done]. unfold acquirePOST in He. destruct (_ || _); by injection He as <-.
  - apply Hsame. destruct (w_held w !! j); [|done]. by injection He as <-.
  - apply Hsame. case_decide; [|done]. destruct (beginPOST _ sid p) as [ [h x]|] eqn:Hb; injection He as <-; [|done]. eapply (request_same _ _ x sid p). tauto.
  - apply Hsame. destruct (w_posts w !! j) as [x|]; [|done]. injection He as <-. eapply (request_same _ _ x "" ""). tauto.
  - apply Hsame. case_decide; [|done]. destruct (beginGET _ sid p) as [ [h x]|] eqn:Hb; injection He as <-; [|done]. eapply (request_same _ _ x sid p). tauto.
  - apply Hsame. destruct (w_gets w !! j) as [x|]; [|done]. injection He as <-. eapply (request_same _ _ x "" ""). tauto.
  - case_decide as Hk; [|done]. assert (Hne : n ≠ m) by (intros ->; by apply (Hm p now)).
    destruct (reserveSession _ o _ p n now) as [ [ [h ev] r]|] eqn:Hr; [|done]. apply reserve_shape in Hr as (h1 & r1 & Hr1 & Hr).
    eapply (make_room_ind (λ h _, slot_mono m (w_h w) h)) in Hr1 as [Hr1 _]; [| |done].
    2:{ intros h0 ev0 b s Hs _ _. by etrans; [exact Hs|apply slot_mono_evict]. }
    destruct r as [?|[ [rs q] c] ]; injection He as <-; [destruct Hr as [_ ->]|by destruct Hr as (_ & _ & c' & ->)].
    unfold slot_mono in *. cbn. by rewrite lookup_insert_ne.
  - case_decide; [|done]. injection He as <-. apply slot_mono_release.
  - apply Hsame. case_decide; [|done]. destruct (slots (w_h w) !! n); [|done]. by injection He as <-.
  - apply Hsame. case_match; [|done]. case_decide; [|done]. by injection He as <-.
  - apply Hsame. case_match; [|done]. case_decide; [|done]. injection He as <-. apply session_same.
  - apply Hsame. case_match; [|done]. case_decide; [|done]. by injection He as <-.
  - apply Hsame. case_match; [|done]. case_decide; [|done]. by injection He as <-.
  - apply Hsame. case_match; [|done]. case_decide; [|done]. injection He as <-. apply session_same.
  - case_match; [|done]. destruct (Sessions.heap (w_h w) !! c) as [s|]; [|done]. case_decide; [|done]. injection He as <-. apply slot_mono_release.
  - apply Hsame. destruct (Sessions.heap (w_h w) !! c) as [s|]; [|done]. case_decide; [|done]. injection He as <-. apply session_same.
  - apply Hsame. destruct (Sessions.heap (w_h w) !! c) as [s|]; [|done]. case_decide; [|done]. injection He as <-. apply session_same.
  - apply Hsame. case_decide; [|done]. by injection He as <-.
Qed.

End Steps.

Section Mine.
(** The others' events: none of this request's own, nor of the session it
    makes before it is watched; and go-sdk names a session once. *)
Context (i k a : nat) (kept : option (nat * string)).

Definition foreign (e : event) : Prop :=
  match e with
  | EAcquire j _ | ERelease j | EBeginPOST j _ _ | EEndPOST j | EBeginGET j _ _ | EEndGET j => j ≠ i
  | EReserve m _ _ | EUnkept m => m ≠ k
  | ERegister b ss sid m => b ≠ a ∧ m ≠ k ∧ match kept with Some (ss', sid') => ss ≠ ss' ∧ sid ≠ sid' | None => True end
  | ETrack b | EDrop b => b ≠ a
  | _ => True
  end.

Definition watched : list (option phase) := [Some Watched; Some Halted; Some Forgotten].

(** What the others leave of this request's. *)
Record mine (w w' : world) : Prop := {
  m_held : w_held w' !! i = w_held w !! i;
  m_posts : w_posts w' !! i = w_posts w !! i;
  m_gets : w_gets w' !! i = w_gets w !! i;
  m_pending : k ∈ w_pending w' ↔ k ∈ w_pending w;
  m_slot : slot_mono k (w_h w) (w_h w');
  m_phase : w_phase w' !! a = w_phase w !! a ∨ (w_phase w !! a ∈ watched ∧ w_phase w' !! a ∈ watched);
  m_fresh : match kept with Some (ss, sid) => sid ∉ w_sids w ∧ ss ∉ w_sessions w → sid ∉ w_sids w' ∧ ss ∉ w_sessions w' | None => True end;
}.
#[export] Instance mine_preorder : PreOrder mine.
Proof.
  split; [intros w; split; try done; [by left|by destruct kept as [ [ss sid]|] ]|].
  intros w1 w2 w3 [H1 H2 H3 H4 H5 H6 H7] [F1 F2 F3 F4 F5 F6 F7]. split; try congruence; [tauto|by etrans| |].
  - destruct F6 as [->|[? ?] ], H6 as [H6|[? ?] ]; [by left|by right|right; split; [congruence|done]|by right].
  - destruct kept as [ [ss sid]|]; tauto.
Qed.

Lemma exec_foreign o ID w e w' : foreign e → exec_event o ID w e = Some w' → mine w w'.
Proof.
  intros Hf He. assert (Hslot : slot_mono k (w_h w) (w_h w')).
  { eapply (exec_slot o ID ID); [exact He|]. intros p now ->. by apply Hf. }
  assert (Hfr : match kept with Some (ss, sid) => sid ∉ w_sids w ∧ ss ∉ w_sessions w → sid ∉ w_sids w ∧ ss ∉ w_sessions w | None => True end) by (by destruct kept as [ [? ?]|]).
  destruct e as [j p|j|j sid p|j|j sid p|j|n p now|n|c ss sid n|c|c|c|c|c|c|c|c|c]; cbn [exec_event] in He; unfold when, move in He; cbn [foreign] in Hf.
  - case_decide; [|done]. destruct (acquirePOST _ _ _); injection He as <-; split; cbn; rewrite ?lookup_insert_ne by done; by try left.
  - destruct (w_held w !! j); [|done]. injection He as <-. split; cbn; rewrite ?lookup_delete_ne by done; by try left.
  - case_decide; [|done]. destruct (beginPOST _ sid p) as [ [h x]|]; injection He as <-; split; cbn; rewrite ?lookup_insert_ne by done; by try left.
  - destruct (w_posts w !! j); [|done]. injection He as <-. split; cbn; rewrite ?lookup_delete_ne by done; by try left.
  - case_decide; [|done]. destruct (beginGET _ sid p) as [ [h x]|]; injection He as <-; split; cbn; rewrite ?lookup_insert_ne by done; by try left.
  - destruct (w_gets w !! j); [|done]. injection He as <-. split; cbn; rewrite ?lookup_delete_ne by done; by try left.
  - case_decide; [|done]. destruct (reserveSession _ _ _ _ _ _) as [ [ [h ev] [x|x] ]|]; [..|done]; injection He as <-; split; cbn; try done; first [set_solver|by left].
  - case_decide; [|done]. injection He as <-. split; cbn; try done; first [set_solver|by left].
  - case_decide as Hg; [|done]. destruct Hf as (Hc & Hn & Hk). destruct (slots (w_h w) !! n); [|done]. injection He as <-.
    split; cbn; try done; [set_solver|left; by rewrite lookup_insert_ne|]. destruct kept as [ [ss' sid']|]; [|done]. set_solver.
  - destruct (w_phase w !! c); [|done]. case_decide; [|done]. injection He as <-. split; cbn; try done. left. by rewrite lookup_insert_ne.
  - destruct (w_phase w !! c); [|done]. case_decide; [|done]. injection He as <-. split; cbn; try done. left. by rewrite lookup_insert_ne.
  - destruct (w_phase w !! c); [|done]. case_decide; [|done]. injection He as <-. split; cbn; try done. by left.
  - destruct (w_phase w !! c) eqn:Hc; [|done]. case_decide as Hin; [|done]. injection He as <-. split; cbn; try done.
    destruct (decide (c = a)) as [->|]; [right|left; by rewrite lookup_insert_ne]. rewrite lookup_insert_eq, Hc. apply list_elem_of_singleton in Hin as ->.
    unfold watched. set_solver.
  - destruct (w_phase w !! c) eqn:Hc; [|done]. case_decide as Hin; [|done]. injection He as <-. split; cbn; try done.
    destruct (decide (c = a)) as [->|]; [right|left; by rewrite lookup_insert_ne]. rewrite lookup_insert_eq, Hc. apply list_elem_of_singleton in Hin as ->.
    unfold watched. set_solver.
  - destruct (w_phase w !! c); [|done]. destruct (Sessions.heap (w_h w) !! c); [|done]. case_decide; [|done]. injection He as <-. split; cbn; try done. by left.
  - destruct (Sessions.heap (w_h w) !! c); [|done]. case_decide; [|done]. injection He as <-. split; cbn; try done. by left.
  - destruct (Sessions.heap (w_h w) !! c); [|done]. case_decide; [|done]. injection He as <-. split; cbn; try done. by left.
  - case_decide; [|done]. injection He as <-. split; cbn; try done. by left.
Qed.
End Mine.

(** ** A session is not evicted under a request *)

(** What a request on id [sid] by [p] captured, over time. *)
Definition on_request (w : world) (sid p : string) (x : in_progress) : Prop :=
  match x with
  | PLive b => ∃ s, Sessions.heap (w_h w) !! b = Some s ∧ lv_sid s = sid ∧ lv_principal s = p
  | PEarly q r => q = sid ∧ r = p
  | PNothing => ∃ b s, Sessions.heap (w_h w) !! b = Some s ∧ lv_sid s = sid ∧ lv_principal s ≠ p
  end.

(** The live session with the id, if it is [p]'s, is not evicted. *)
Definition in_use (w : world) (sid p : string) : Prop :=
  ∀ b s, live (w_h w) !! sid = Some b → Sessions.heap (w_h w) !! b = Some s → lv_principal s = p → lv_evicted s = false.

Lemma begin_in_use w w' sid p h x : (beginPOST (w_h w) sid p = Some (h, x) ∨ beginGET (w_h w) sid p = Some (h, x)) → w_h w' = h → world_table w →
  on_request w' sid p x ∧ in_use w' sid p.
Proof.
  intros Hb Eh Ht. unfold on_request, in_use. rewrite Eh. clear Eh w'.
  assert (Hlive : live h = live (w_h w)) by (by eapply (request_same _ _ x sid p); tauto).
  assert (Hcalm : calm (w_h w) h) by (eapply (calm_request _ _ x sid p); tauto). rewrite Hlive.
  unfold beginPOST, beginGET, live_at in Hb. destruct (live (w_h w) !! sid) as [b|] eqn:El.
  2:{ cbn in Hb. assert (x = PEarly sid p) as -> by (destruct Hb as [Hb|Hb]; congruence). done. }
  destruct (t_live _ _ _ _ _ Ht sid b El) as (s & Hs & Hsid). rewrite Hs in Hb. cbn in Hb. destruct (Hcalm b s Hs) as (s' & Hs' & (_ & E2 & E3 & _) & Ev).
  destruct (String.eqb_spec (lv_principal s) p) as [E|E]; cbn in Hb.
  - destruct (lv_evicted s) eqn:He; [by destruct Hb|]. assert (x = PLive b) as -> by (destruct Hb as [Hb|Hb]; congruence). split; [exists s'; split_and!; congruence|].
    intros c t [= <-] Hc _. congruence.
  - assert (x = PNothing) as -> by (destruct Hb as [Hb|Hb]; congruence). split; [exists b, s'; split_and!; congruence|]. intros c t [= <-] Hc Hp. congruence.
Qed.

Lemma exec_in_use o ID owner w e w' i sid p x : listening o ID owner w → exec_event o ID w e = Some w' →
  w_posts w !! i = Some x ∨ w_gets w !! i = Some x → on_request w sid p x → in_use w sid p → on_request w' sid p x ∧ in_use w' sid p.
Proof.
  intros Hl He Hx Hon Huse. pose proof (exec_heap o ID owner w e w' Hl He) as Hh. pose proof (listening_inv _ _ _ _ Hl) as [_ _ Ht Hact Hget _ _].
  split.
  - destruct x as [|b|q r]; [| |done].
    + destruct Hon as (b & s & Hb & E1 & E2). destruct (Hh b s Hb) as (s' & Hb' & (_ & F1 & F2 & _) & _). exists b, s'. split_and!; congruence.
    + destruct Hon as (s & Hb & E1 & E2). destruct (Hh b s Hb) as (s' & Hb' & (_ & F1 & F2 & _) & _). exists s'. split_and!; congruence.
  - intros b s' Hlv Hb' Hp. assert (live (w_h w) !! sid = Some b ∨ ∃ ss m, e = ERegister b ss sid m) as [Hlv0|(ss & m & ->)] by (by eapply exec_live).
    + destruct (t_live _ _ _ _ _ Ht sid b Hlv0) as (s & Hb & Hsid). destruct (Hh b s Hb) as (s2 & Hb2 & (_ & F1 & F2 & _) & Hev).
      assert (s2 = s') as -> by congruence. assert (Hps : lv_principal s = p) by congruence. pose proof (Huse b s Hlv0 Hb Hps) as Hne.
      destruct Hev as [->|[_ (q & (_ & _ & _ & _ & Ha & Hg & _))] ]; [done|]. exfalso.
      rewrite (c_exact _ _ _ _ _ _ Hact sid b s Hlv0 Hb), Hps in Ha. rewrite (c_exact _ _ _ _ _ _ Hget sid b s Hlv0 Hb), Hps in Hg.
      assert (Hno : x ≠ PLive b ∧ x ≠ PEarly sid p).
      { destruct (no_request _ _ _ Ha i), (no_request _ _ _ Hg i). destruct Hx; split; congruence. }
      destruct x as [|c|q' r]; [| |by destruct Hon as [-> ->], Hno].
      * destruct Hon as (c & t & Hc & E1 & E2). assert (c = b) as -> by (apply (t_inj _ _ _ _ _ Ht c b t s); [done|done|left; congruence]). congruence.
      * destruct Hon as (t & Hc & E1 & E2). assert (c = b) as -> by (apply (t_inj _ _ _ _ _ Ht c b t s); [done|done|left; congruence]). by destruct Hno.
    + cbn [exec_event] in He. unfold when in He. case_decide; [|done]. destruct (slots (w_h w) !! m); [|done]. injection He as <-. cbn in Hb'.
      rewrite lookup_insert_eq in Hb'. by injection Hb' as <-.
Qed.

(** ** Running a request among the others *)

Lemma listening_exec o ID owner w e w' : listening o ID owner w → event_bound owner e → exec_event o ID w e = Some w' → listening o ID owner w'.
Proof.
  intros (Ho & es & Hb & Hr) He Hx. split; [done|]. exists (es ++ [e]). split; [by apply Forall_app_2; [|constructor]|].
  revert Hr. generalize (newWorld (newCallLimits (MaxCallsPerSession o) (MaxCallsPerPrincipal o))). clear Hb.
  induction es as [|e0 es IH]; intros w0; cbn; [intros [= ->]; by rewrite Hx|]. destruct (exec_event o ID w0 e0); [apply IH|done].
Qed.

Section Request.
Context (o : HTTPOptions) (ID owner : nat → string) (others : nat → list event).
Context (rq : http_request) (principal : string) (now : Z) (i k a : nat) (kept : option (nat * string)).
Hypothesis Hothers : ∀ n, Forall (λ e, foreign i k a kept e ∧ event_bound owner e) (others n).

(** What holds of the listener after the others ran. *)
Record far (w w' : world) : Prop := {
  f_listening : listening o ID owner w';
  f_mine : mine i k a kept w w';
  f_heap b s : Sessions.heap (w_h w) !! b = Some s → ∃ s', Sessions.heap (w_h w') !! b = Some s' ∧ same_session s s' ∧ (lv_evicted s = true → lv_evicted s' = true);
  f_use sid p x : w_posts w !! i = Some x ∨ w_gets w !! i = Some x → on_request w sid p x → in_use w sid p → on_request w' sid p x ∧ in_use w' sid p;
}.

#[local] Instance far_trans : Transitive far.
Proof.
  intros w1 w2 w3 [I1 I2 I3 I4] [J1 J2 J3 J4]. split; [done|by etrans| |].
  - intros b s Hs. destruct (I3 b s Hs) as (s1 & Hs1 & (E1 & E2 & E3 & E4) & Ev). destruct (J3 b s1 Hs1) as (s2 & Hs2 & (F1 & F2 & F3 & F4) & Fv).
    exists s2. split; [done|]. split; [unfold same_session; split_and!; congruence|tauto].
  - intros sid p x Hx Hon Hu. destruct (I4 sid p x Hx Hon Hu) as [Hon1 Hu1]. apply J4; [|done..]. by rewrite (m_posts _ _ _ _ _ _ I2), (m_gets _ _ _ _ _ _ I2).
Qed.

Lemma far_refl w : listening o ID owner w → far w w.
Proof. intros Hl. split; [done|reflexivity|intros b s Hs; by exists s|done]. Qed.

Lemma far_step w e w' : listening o ID owner w → foreign i k a kept e → event_bound owner e → exec_event o ID w e = Some w' → far w w'.
Proof.
  intros Hl Hf Hb He. split; [by eapply listening_exec|by eapply exec_foreign| |].
  - intros b s Hs. destruct (exec_heap _ _ _ _ _ _ Hl He b s Hs) as (s1 & Hs1 & Es & Ev). exists s1. split; [done|]. split; [done|]. intros Hev. destruct Ev as [->|[? _] ]; done.
  - intros sid p x Hx Hon Hu. by apply (exec_in_use _ _ _ _ _ _ i sid p x Hl He).
Qed.

Lemma far_others w n : listening o ID owner w → far w (others_run o ID w (others n)).
Proof.
  intros Hl. specialize (Hothers n). induction Hothers as [|e es [Hf Hb] _ IH] in w, Hl |- *; cbn; [by apply far_refl|].
  destruct (exec_event o ID w e) as [w1|] eqn:He; [|by apply IH]. cbn. pose proof (far_step _ _ _ Hl Hf Hb He) as H1.
  etrans; [exact H1|]. apply IH. apply H1.
Qed.

Definition runs {A} (m : M A) (w : world) (Q : world → A → Prop) : Prop := ∀ n, ∃ n' w' x, m (n, w) = Some ((n', w'), x) ∧ Q w' x.

Lemma runs_ret {A} (x : A) w (Q : world → A → Prop) : Q w x → runs (mret x) w Q.
Proof. intros HQ n. by exists n, w, x. Qed.

Lemma runs_bind {A B} (m : M A) (f : A → M B) w Q : runs m w (λ w' x, runs (f x) w' Q) → runs (m ≫= f) w Q.
Proof.
  intros Hm n. destruct (Hm n) as (n1 & w1 & x & E & Hf). destruct (Hf n1) as (n2 & w2 & y & E2 & HQ). exists n2, w2, y.
  split; [|done]. unfold mbind, M_bind. by rewrite E.
Qed.

Lemma runs_act e w Q : listening o ID owner w → event_bound owner e →
  (∀ w1, far w w1 → ∃ w2, exec_event o ID w1 e = Some w2 ∧ (listening o ID owner w2 → Q w2 w2)) → runs (act o ID others e) w Q.
Proof.
  intros Hl Hb He n. pose proof (far_others w n Hl) as Hf. destruct (He _ Hf) as (w2 & Hx & HQ). exists (S n), w2, w2. unfold act. rewrite Hx. split; [done|].
  apply HQ. eapply listening_exec; [apply Hf|done..].
Qed.

Lemma runs_look w Q : listening o ID owner w → (∀ w', far w w' → Q w' w') → runs (look o ID others) w Q.
Proof. intros Hl HQ n. eexists (S n), _, _. split; [reflexivity|]. apply HQ. by apply far_others. Qed.

Lemma runs_served b w Q : listening o ID owner w → (∀ w', far w w' → Q w' (Served b w w')) → runs (served o ID others b) w Q.
Proof.
  intros Hl HQ. apply runs_bind. intros n. eexists (S n), _, _. split; [reflexivity|]. apply runs_ret. apply HQ. by apply far_others.
Qed.

(** ** Giving back *)

Definition same_holdings (w w' : world) : Prop :=
  w_held w' !! i = w_held w !! i ∧ w_posts w' !! i = w_posts w !! i ∧ w_gets w' !! i = w_gets w !! i.

Lemma far_holdings w w' : far w w' → same_holdings w w'.
Proof. intros [_ [H1 H2 H3 _ _ _ _] _ _]. done. Qed.

Definition slot_returned (w : world) : Prop := ∃ sl, slots (w_h w) !! k = Some sl ∧ sl_released sl = true.

(** The session go-sdk kept is watched, or, when the proxy is closing, dropped
    and its slot given back; without one the slot is given back. *)
Definition settled (w : world) : Prop :=
  match kept with
  | None => slot_returned w
  | Some _ => w_phase w !! a ∈ watched ∨ (w_phase w !! a = Some Dropped ∧ slot_returned w)
  end.

Lemma returned_release h n sl : slots h !! n = Some sl → ∃ sl', slots (release_slot h n) !! n = Some sl' ∧ sl_released sl' = true.
Proof.
  intros Hn. unfold release_slot. rewrite Hn. destruct (sl_released sl) eqn:Hr; [by exists sl|]. cbn. rewrite lookup_insert_eq. by eexists.
Qed.

Lemma returned_mono w w' : slot_mono k (w_h w) (w_h w') → slot_returned w → slot_returned w'.
Proof. intros [_ H2] (sl & Hs & Hr). by apply (H2 sl). Qed.

Lemma runs_weaken {A} (m : M A) w (P Q : world → A → Prop) : (∀ w' x, P w' x → Q w' x) → runs m w P → runs m w Q.
Proof. intros HPQ Hm n. destruct (Hm n) as (n' & w' & x & E & HP). exists n', w', x. auto. Qed.

Lemma far_phase w w' q : far w w' → w_phase w !! a = Some q → q ∉ [Watched; Halted; Forgotten] → w_phase w' !! a = Some q.
Proof. intros [_ [_ _ _ _ _ [->|[Hw _] ] _] _ _]; [done|]. unfold watched in Hw. set_solver. Qed.

Lemma far_slot_of w w' : far w w' → (∃ s, Sessions.heap (w_h w) !! a = Some s ∧ lv_slot s = k) → ∃ s, Sessions.heap (w_h w') !! a = Some s ∧ lv_slot s = k.
Proof. intros Hf (s & Hs & <-). destruct (f_heap _ _ Hf a s Hs) as (s' & Hs' & (_ & _ & _ & E) & _). by exists s'. Qed.

(** The end of settleSession: the session is watched and its clock armed, or dropped. *)
Lemma watch_spec w : listening o ID owner w → (∃ s, Sessions.heap (w_h w) !! a = Some s ∧ lv_slot s = k) → w_phase w !! a = Some Registered →
  runs (w ← act o ID others (ETrack a);
        if bool_decide (w_phase w !! a = Some Watched) then _ ← act o ID others (EArm a); mret tt
        else _ ← act o ID others (EDrop a); _ ← act o ID others (EGiveBack a); mret tt) w
    (λ w' _, listening o ID owner w' ∧ same_holdings w w' ∧ (k ∈ w_pending w' ↔ k ∈ w_pending w) ∧
      (w_phase w' !! a ∈ watched ∨ (w_phase w' !! a = Some Dropped ∧ slot_returned w'))).
Proof.
  intros Hl Hs Hq. apply runs_bind, runs_act; [done|done|]. intros w1 Hf1. pose proof (far_phase _ _ _ Hf1 Hq ltac:(set_solver)) as Hq1.
  pose proof (far_holdings _ _ Hf1) as Hh1. pose proof (m_pending _ _ _ _ _ _ (f_mine _ _ Hf1)) as Hk1. apply (far_slot_of _ _ Hf1) in Hs.
  clear Hf1 Hl Hq. cbn [exec_event]. unfold move. rewrite Hq1. unfold when. rewrite decide_True by set_solver. eexists. split; [done|]. intros Hl2. cbn [w_phase set_phase].
  rewrite lookup_insert_eq. destruct (track (limits (w_h w1))) eqn:Ht; cbn -[act] in *.
  - rewrite bool_decide_eq_true_2 by done. apply runs_bind, runs_act; [done|done|]. intros w3 Hf3. pose proof (far_holdings _ _ Hf3) as Hh3.
    destruct Hf3 as [Hl3 [_ _ _ Hk3 _ Hp3 _] _ _]. assert (Hw : w_phase w3 !! a ∈ watched).
    { destruct Hp3 as [->|[_ Hp3] ]; [|done]. cbn. rewrite lookup_insert_eq. unfold watched. set_solver. }
    cbn [exec_event]. destruct (w_phase w3 !! a) as [q|] eqn:Hq3; [|unfold watched in Hw; set_solver]. unfold when. rewrite decide_True by (unfold watched in Hw; set_solver).
    eexists. split; [done|]. intros Hl4. apply runs_ret. split; [done|]. split; [|split].
    + destruct Hh1 as (? & ? & ?), Hh3 as (? & ? & ?). cbn in *. split_and!; cbn; congruence.
    + cbn in *. tauto.
    + left. cbn. by rewrite Hq3.
  - rewrite bool_decide_eq_false_2 by done. apply runs_bind, runs_act; [done|done|]. intros w3 Hf3. pose proof (far_holdings _ _ Hf3) as Hh3.
    pose proof (far_phase _ _ Unwatched Hf3 ltac:(cbn; by rewrite lookup_insert_eq) ltac:(set_solver)) as Hq3. pose proof (m_pending _ _ _ _ _ _ (f_mine _ _ Hf3)) as Hk3.
    apply (far_slot_of _ _ Hf3) in Hs. clear Hf3. cbn [exec_event]. unfold move. rewrite Hq3. unfold when. rewrite decide_True by set_solver. eexists. split; [done|]. intros Hl4.
    apply runs_bind, runs_act; [done|done|]. intros w5 Hf5. pose proof (far_holdings _ _ Hf5) as Hh5.
    pose proof (far_phase _ _ Dropped Hf5 ltac:(cbn; by rewrite lookup_insert_eq) ltac:(set_solver)) as Hq5. pose proof (m_pending _ _ _ _ _ _ (f_mine _ _ Hf5)) as Hk5.
    assert (Hs4 : ∃ s, Sessions.heap (drop_unwatched (w_h w3) a) !! a = Some s ∧ lv_slot s = k).
    { destruct Hs as (s & Hs & <-). unfold drop_unwatched. rewrite Hs. by exists s. }
    apply (far_slot_of _ _ Hf5) in Hs4 as (s & Hs5 & Esl). destruct Hf5 as [Hl5 _ _ _]. cbn [exec_event]. rewrite Hq5, Hs5. unfold when. rewrite decide_True by set_solver.
    eexists. split; [done|]. intros Hl6. apply runs_ret. split; [done|]. split; [|split].
    + destruct Hh1 as (? & ? & ?), Hh3 as (? & ? & ?), Hh5 as (? & ? & ?). cbn in *. split_and!; cbn; congruence.
    + cbn in *. tauto.
    + right. split; [done|]. destruct (t_sess _ _ _ _ _ (v_table _ _ _ _ _ (listening_inv _ _ _ _ Hl5)) a s Dropped Hs5 Hq5) as ((sl & Hsl & _) & _).
      rewrite Esl in *. by apply (returned_release _ _ sl).
Qed.

Lemma settle_spec w : listening o ID owner w → k ∈ w_pending w → w_phase w !! a = None →
  match kept with Some (ss, sid) => sid ∉ w_sids w ∧ ss ∉ w_sessions w | None => True end →
  runs (settleSession o ID others k a kept) w (λ w' _, listening o ID owner w' ∧ same_holdings w w' ∧ k ∉ w_pending w' ∧ settled w').
Proof.
  intros Hl Hk Ha Hfr. unfold settleSession, settled.
  assert (kept = None ∨ ∃ ss sid, kept = Some (ss, sid)) as [Ek|(ss & sid & Ek)] by (destruct kept as [ [? ?]|]; eauto); rewrite Ek in Hfr |- *.
  { apply runs_bind, runs_act; [done|done|]. intros w1 Hf. pose proof (far_holdings _ _ Hf) as Hh. destruct Hf as [Hl1 [_ _ _ H4 _ _ _] _ _]. rewrite <- H4 in Hk.
    cbn [exec_event]. unfold when. rewrite decide_True by done. eexists. split; [done|]. intros Hl2. apply runs_ret. split; [done|]. split; [exact Hh|]. split; [cbn; set_solver|].
    destruct (t_pending _ _ _ _ _ (v_table _ _ _ _ _ (listening_inv _ _ _ _ Hl1)) k Hk) as [(sl & Hsl & _) _]. by apply (returned_release _ _ sl). }
  apply runs_bind, runs_act; [done|done|]. intros w1 Hf1. pose proof (far_holdings _ _ Hf1) as Hh1. destruct Hf1 as [Hl1 [_ _ _ H4 _ H6 H7] _ _]. rewrite Ek in H7.
  rewrite <- H4 in Hk. rewrite Ha in H6. destruct H6 as [H6|[Hw _] ]; [|unfold watched in Hw; set_solver].
  destruct (t_pending _ _ _ _ _ (v_table _ _ _ _ _ (listening_inv _ _ _ _ Hl1)) k Hk) as [(sl & Hsl & _) _].
  cbn [exec_event]. unfold when. rewrite decide_True by (split_and!; [done|done|tauto|tauto]). rewrite Hsl. eexists. split; [done|]. intros Hl2.
  match goal with |- context [runs _ ?x _] => set (w2 := x) in * end.
  assert (Hs2 : ∃ s, Sessions.heap (w_h w2) !! a = Some s ∧ lv_slot s = k) by (eexists; cbn; rewrite lookup_insert_eq; done).
  assert (Hq2 : w_phase w2 !! a = Some Registered) by (cbn; by rewrite lookup_insert_eq).
  assert (Hk2 : k ∉ w_pending w2) by (cbn; set_solver).
  assert (Hh2 : same_holdings w w2) by exact Hh1. clearbody w2.
  apply (runs_weaken _ _ (λ w' _, listening o ID owner w' ∧ same_holdings w2 w' ∧ (k ∈ w_pending w' ↔ k ∈ w_pending w2) ∧
    (w_phase w' !! a ∈ watched ∨ (w_phase w' !! a = Some Dropped ∧ slot_returned w')))).
  { intros w' _ (H1 & (H2 & H3 & H4') & H5 & H6'). split; [done|]. destruct Hh2 as (G1 & G2 & G3). split; [split_and!; congruence|]. by rewrite H5. }
  by apply watch_spec.
Qed.

(** ** A reservation *)

Lemma runs_far e w (Q : world → world → Prop) : listening o ID owner w → foreign i k a kept e → event_bound owner e →
  (∀ w1, far w w1 → is_Some (exec_event o ID w1 e)) → (∀ w', far w w' → Q w' w') → runs (act o ID others e) w Q.
Proof.
  intros Hl Hf Hb Hx HQ. apply runs_act; [done|done|]. intros w1 H1. destruct (Hx w1 H1) as [w2 He]. exists w2. split; [done|]. intros _. apply HQ.
  etrans; [exact H1|]. eapply far_step; [apply H1|done..].
Qed.

Definition evicted_at (w : world) (b : nat) : Prop := ∃ s, Sessions.heap (w_h w) !! b = Some s ∧ lv_evicted s = true.

Lemma far_evicted w w' b : far w w' → evicted_at w b → evicted_at w' b.
Proof. intros Hf (s & Hs & He). destruct (f_heap _ _ Hf b s Hs) as (s' & Hs' & _ & Hev). exists s'. split; [done|]. by apply Hev. Qed.

Lemma close_spec ev w : listening o ID owner w → (∀ b, b ∈ ev → evicted_at w b) → runs (close_all o ID others ev) w (λ w' _, far w w').
Proof.
  induction ev as [|b ev IH] in w |- *; intros Hl Hev; cbn [close_all]; [by apply runs_ret, far_refl|].
  assert (Hrest : ∀ w', far w w' → runs (close_all o ID others ev) w' (λ w'' _, far w w'')).
  { intros w' Hf. eapply runs_weaken; [|apply IH; [apply Hf|]]; [cbv beta; intros w'' x Hf'; by etrans|]. intros c Hc. eapply far_evicted; [exact Hf|]. apply Hev. by right. }
  apply runs_bind. unfold closeEvicted. apply runs_bind, runs_look; [done|]. intros w1 Hf1. destruct (track _).
  - apply runs_ret. by apply Hrest.
  - apply runs_bind, runs_far; [apply Hf1|done|done| |].
    + intros w2 Hf2. destruct (far_evicted w w2 b) as (s & Hs & He); [by etrans|apply Hev; by left|]. cbn. rewrite Hs. unfold when. rewrite decide_True by done. by eexists.
    + intros w2 Hf2. apply runs_ret, Hrest. by etrans.
Qed.

(** Why a request is refused: a cap is reached, its session was evicted, or no
    session of its principal can be evicted for a new one. *)
Definition refused_for (code : Z) (text : string) (w : world) : Prop :=
  let h := w_h w in
  (code = 503 ∧ is_method rq "POST" = true ∧ text = "Service Unavailable: too many requests in flight" ∧
   (MaxInFlight o <= inFlightPOSTs h ∨ MaxInFlightPerPrincipal o <= count_at (perPrincipalPOSTs h) principal)) ∨
  (code = 404 ∧ ∃ b s, live h !! session_id rq = Some b ∧ Sessions.heap h !! b = Some s ∧ lv_principal s = principal ∧ lv_evicted s = true) ∨
  (code = 503 ∧ is_method rq "POST" = true ∧ cap_reason o h principal ≠ "" ∧ text = ("Service Unavailable: " ++ cap_reason o h principal)%string ∧
   ∀ b s, candidate h principal b s → busy (limits h) (Some (lv_ss s)) = true).

(** What go-sdk serves is counted and reserved throughout, on a session that
    is not evicted; [w'] is the listener after the request. *)
Definition answered (w' : world) (r : response) : Prop :=
  match r with
  | Refused code text _ w => refused_for code text w
  | Served b w1 w2 =>
      b = statelessRequest rq ∧
      (is_method rq "POST" = true → w_held w1 !! i = Some principal ∧ w_held w2 !! i = Some principal) ∧
      (b = false → session_id rq ≠ "" → is_method rq "POST" = true ∨ is_method rq "GET" = true →
        in_use w1 (session_id rq) principal ∧ in_use w2 (session_id rq) principal) ∧
      (b = false → is_method rq "POST" = true → session_id rq = "" → k ∈ w_pending w1 ∧ k ∈ w_pending w2 ∧ settled w')
  end.

Lemma cap_reason_ext h h' : openSessions h' = openSessions h → sessionsPerPrincipal h' = sessionsPerPrincipal h → cap_reason o h' principal = cap_reason o h principal.
Proof. intros E1 E2. unfold cap_reason. by rewrite E1, E2. Qed.

Lemma reserve_spec w : listening o ID owner w → slots (w_h w) !! k = None → is_method rq "POST" = true →
  runs (reserve o ID others principal now k) w (λ w' x, listening o ID owner w' ∧ same_holdings w w' ∧ (w_phase w !! a = None → w_phase w' !! a = None) ∧
    match kept with Some (ss, sid) => sid ∉ w_sids w ∧ ss ∉ w_sessions w → sid ∉ w_sids w' ∧ ss ∉ w_sessions w' | None => True end ∧
    (∀ b, b ∈ fst x → evicted_at w' b) ∧
    match snd x with
    | None => k ∈ w_pending w'
    | Some r => (k ∈ w_pending w' ↔ k ∈ w_pending w) ∧ ∃ text, r = Refused 503 text true w' ∧ refused_for 503 text w'
    end).
Proof.
  intros Hl Hk Hpost n. unfold reserve. pose proof (far_others w n Hl) as Hf. set (w1 := others_run o ID w (others n)) in *. clearbody w1.
  pose proof (far_holdings _ _ Hf) as Hh. destruct Hf as [Hl1 [_ _ _ M4 [Hk1 _] M6 M7] _ _]. specialize (Hk1 Hk).
  assert (M6' : w_phase w !! a = None → w_phase w1 !! a = None) by (intros E; destruct M6 as [->|[Hw _] ]; [done|rewrite E in Hw; unfold watched in Hw; set_solver]).
  destruct (make_room_total o principal (S (size (live (w_h w1)))) (w_h w1) [] (in_service_live (w_h w1))) as [ [ [h1 ev] r1] Hm].
  destruct (reserveSession (S (size (live (w_h w1)))) o (w_h w1) principal k now) as [ [ [h' ev'] r]|] eqn:Hr.
  2:{ unfold reserveSession in Hr. rewrite Hm in Hr. repeat case_match; done. }
  cbn [exec_event]. unfold when. rewrite decide_True by done. rewrite Hr.
  assert (Hw : ∃ w2, (match r with inl _ => Some (set_pending w1 h' ({[k]} ∪ w_pending w1)) | inr _ => Some (set_h w1 h') end) = Some w2 ∧
    w_h w2 = h' ∧ same_holdings w1 w2 ∧ w_phase w2 = w_phase w1 ∧ w_sids w2 = w_sids w1 ∧ w_sessions w2 = w_sessions w1 ∧
    match r with inl _ => k ∈ w_pending w2 | inr _ => w_pending w2 = w_pending w1 end).
  { destruct r; eexists; (split; [reflexivity|]); cbn; split_and!; try done; set_solver. }
  destruct Hw as (w2 & Ew & Eh & Hh2 & E1 & E2 & E3 & Ep). rewrite Ew.
  assert (Hl2 : listening o ID owner w2).
  { apply (listening_exec o ID owner w1 (EReserve k principal now)); [done|done|]. cbn [exec_event]. unfold when. rewrite decide_True by done. by rewrite Hr. }
  eexists (S n), w2, _. split; [reflexivity|]. cbn [fst snd]. split; [done|]. split; [destruct Hh as (?&?&?), Hh2 as (?&?&?); split_and!; congruence|].
  split; [intros E; rewrite E1; by apply M6'|]. split; [rewrite E2, E3; by destruct kept as [ [? ?]|]|].
  apply reserve_shape in Hr as (h2 & r2 & Hm2 & Hr). rewrite Hm2 in Hm. injection Hm as -> -> ->.
  eapply (make_room_ind (λ h ev, evicts (w_h w1) principal h ev)) in Hm2 as ((_ & Eheap & _ & E4) & Hreason & Hbusy); [|intros; by apply evicts_step|apply evicts_refl].
  split.
  - intros b Hin. unfold evicted_at. rewrite Eh. assert (Sessions.heap h' = Sessions.heap h1) as -> by (destruct r as [?|[ [? ?] ?] ]; [by destruct Hr as [_ ->]|by destruct Hr as (_ & _ & c & ->)]).
    destruct (E4 b Hin) as (s & (_ & Hs & _) & _). rewrite Eheap, Hs, decide_True by done. cbn. by eexists.
  - destruct r as [?|[ [reason lg] sup] ]; [done|]. split; [by rewrite Ep|]. destruct Hr as (-> & Hne & c & Ec). eexists. split; [reflexivity|]. right. right.
    rewrite Eh, Ec. rewrite <- Hreason in Hne. specialize (Hbusy Hne). rewrite Hreason in Hne. split_and!; done.
Qed.

(** ** The whole request *)

(** Nothing of the request's own is there yet; [hv] is its place among the POSTs. *)
Record new_request (w : world) (hv : option string) : Prop := {
  n_held : w_held w !! i = hv;
  n_posts : w_posts w !! i = None;
  n_gets : w_gets w !! i = None;
  n_pending : k ∉ w_pending w;
  n_slot : slots (w_h w) !! k = None;
  n_phase : w_phase w !! a = None;
  n_fresh : match kept with Some (ss, sid) => sid ∉ w_sids w ∧ ss ∉ w_sessions w | None => True end;
}.

Lemma far_new w w' hv : far w w' → new_request w hv → new_request w' hv.
Proof.
  intros [_ [M1 M2 M3 M4 [M5 _] M6 M7] _ _] [H1 H2 H3 H4 H5 H6 H7]. split; try congruence; [by rewrite M4|by apply M5| |by destruct kept as [ [? ?]|]; auto].
  destruct M6 as [->|[Hw _] ]; [done|]. rewrite H6 in Hw. unfold watched in Hw. set_solver.
Qed.

Definition returned (w : world) (hv : option string) : Prop :=
  listening o ID owner w ∧ w_held w !! i = hv ∧ w_posts w !! i = None ∧ w_gets w !! i = None ∧ k ∉ w_pending w.

Lemma far_returned w w' hv : far w w' → new_request w hv → returned w' hv.
Proof. intros Hf Hn. destruct (far_new _ _ _ Hf Hn). split; [apply Hf|done]. Qed.

(** [answered] with the POST's place given. *)
Definition answered_at (hv : option string) (w' : world) (r : response) : Prop :=
  match r with
  | Refused code text _ w => refused_for code text w
  | Served b w1 w2 =>
      b = statelessRequest rq ∧ w_held w1 !! i = hv ∧ w_held w2 !! i = hv ∧
      (b = false → session_id rq ≠ "" → is_method rq "POST" = true ∨ is_method rq "GET" = true →
        in_use w1 (session_id rq) principal ∧ in_use w2 (session_id rq) principal) ∧
      (b = false → is_method rq "POST" = true → session_id rq = "" → k ∈ w_pending w1 ∧ k ∈ w_pending w2 ∧ settled w')
  end.

Lemma settled_far w w' : w_phase w' !! a = w_phase w !! a → slot_mono k (w_h w) (w_h w') → settled w → settled w'.
Proof.
  intros Ep Hs. unfold settled. destruct kept; rewrite ?Ep; [|by apply returned_mono]. intros [?|[? ?] ]; [by left|right]. split; [done|by eapply returned_mono].
Qed.

(** A request that asks nothing of the listener. *)
Lemma plain_spec w hv b : listening o ID owner w → new_request w hv → b = statelessRequest rq →
  (b = false → (session_id rq ≠ "" → is_method rq "POST" = false ∧ is_method rq "GET" = false) ∧ (session_id rq = "" → is_method rq "POST" = false)) →
  runs (served o ID others b) w (λ w' r, returned w' hv ∧ answered_at hv w' r).
Proof.
  intros Hl Hn Eb Hm. apply runs_served; [done|]. intros w' Hf. split; [by eapply far_returned|]. pose proof (n_held _ _ (far_new _ _ _ Hf Hn)) as Hh'.
  split_and!; [done|apply Hn|done| |].
  - intros E Hs Hpg. destruct (Hm E) as [Hm1 _]. destruct (Hm1 Hs) as [? ?]. destruct Hpg; congruence.
  - intros E Hp Hs. destruct (Hm E) as [_ Hm1]. rewrite Hm1 in Hp by done. done.
Qed.

(** A POST or a GET on a session. *)
Lemma refused_evicted w : beginPOST (w_h w) (session_id rq) principal = None ∨ beginGET (w_h w) (session_id rq) principal = None →
  refused_for 404 "Not Found: session not found" w.
Proof.
  intros Hb. right. left. split; [done|]. unfold beginPOST, beginGET, live_at in Hb. destruct (live (w_h w) !! session_id rq) as [b|] eqn:Hl; [|by destruct Hb].
  cbn in Hb. destruct (Sessions.heap (w_h w) !! b) as [s|] eqn:Hs; cbn in Hb; [|by destruct Hb].
  destruct (String.eqb_spec (lv_principal s) principal) as [E|]; cbn in Hb; [|by destruct Hb]. exists b, s. split_and!; try done. destruct (lv_evicted s); [done|by destruct Hb].
Qed.

Lemma post_spec w hv : listening o ID owner w → new_request w hv → statelessRequest rq = false → session_id rq ≠ "" →
  runs (w ← act o ID others (EBeginPOST i (session_id rq) principal);
        match w_posts w !! i with
        | None => mret (not_found w)
        | Some _ => r ← served o ID others false; _ ← act o ID others (EEndPOST i); mret r
        end) w (λ w' r, returned w' hv ∧ answered_at hv w' r).
Proof.
  intros Hl Hn Hst Hsid. apply runs_bind, runs_act; [done|done|]. intros w1 Hf1. pose proof (far_new _ _ _ Hf1 Hn) as [N1 N2 N3 N4 N5 N6 N7].
  cbn [exec_event]. unfold when. rewrite decide_True by done. destruct (beginPOST (w_h w1) (session_id rq) principal) as [ [h x]|] eqn:Hb.
  2:{ exists w1. split; [done|]. intros Hl1. rewrite N2. apply runs_ret. split; [done|]. apply refused_evicted. by left. }
  eexists. split; [reflexivity|]. intros Hl2. match goal with |- context [runs _ ?y _] => set (w2 := y) in * end.
  assert (Hp2 : w_posts w2 !! i = Some x) by (cbn; by rewrite lookup_insert_eq). rewrite Hp2.
  destruct (begin_in_use w1 w2 (session_id rq) principal h x) as [Hon Hu]; [by left|done|apply (listening_inv _ _ _ _ (f_listening _ _ Hf1))|].
  apply runs_bind, runs_served; [done|]. intros w3 Hf3. destruct (f_use _ _ Hf3 (session_id rq) principal x) as [_ Hu3]; [by left|done|done|].
  pose proof (far_holdings _ _ Hf3) as Hh3. pose proof (m_pending _ _ _ _ _ _ (f_mine _ _ Hf3)) as Hk3.
  apply runs_bind, runs_act; [apply Hf3|done|]. intros w4 Hf4. pose proof (far_holdings _ _ Hf4) as Hh4. pose proof (m_pending _ _ _ _ _ _ (f_mine _ _ Hf4)) as Hk4.
  destruct Hh3 as (G1 & G2 & G3), Hh4 as (H1 & H2 & H3). cbn [exec_event]. assert (Hx : w_posts w4 !! i = Some x) by congruence. rewrite Hx. eexists. split; [reflexivity|].
  intros Hl5. apply runs_ret. cbn [w_held w_posts w_gets w_pending set_posts set_posts set_gets w2] in G1, G2, G3, H1, H2, H3, Hk3, Hk4. split.
  - split; [exact Hl5|]. cbn. rewrite ?lookup_delete_eq. split_and!; [congruence..|]. by rewrite Hk4, Hk3.
  - split; [done|]. split; [done|]. split; [congruence|]. split; [done|]. by intros _ _ ?.
Qed.

Lemma get_spec w hv : listening o ID owner w → new_request w hv → statelessRequest rq = false → session_id rq ≠ "" →
  runs (w ← act o ID others (EBeginGET i (session_id rq) principal);
        match w_gets w !! i with
        | None => mret (not_found w)
        | Some _ => r ← served o ID others false; _ ← act o ID others (EEndGET i); mret r
        end) w (λ w' r, returned w' hv ∧ answered_at hv w' r).
Proof.
  intros Hl Hn Hst Hsid. apply runs_bind, runs_act; [done|done|]. intros w1 Hf1. pose proof (far_new _ _ _ Hf1 Hn) as [N1 N2 N3 N4 N5 N6 N7].
  cbn [exec_event]. unfold when. rewrite decide_True by done. destruct (beginGET (w_h w1) (session_id rq) principal) as [ [h x]|] eqn:Hb.
  2:{ exists w1. split; [done|]. intros Hl1. rewrite N3. apply runs_ret. split; [done|]. apply refused_evicted. by right. }
  eexists. split; [reflexivity|]. intros Hl2. match goal with |- context [runs _ ?y _] => set (w2 := y) in * end.
  assert (Hp2 : w_gets w2 !! i = Some x) by (cbn; by rewrite lookup_insert_eq). rewrite Hp2.
  destruct (begin_in_use w1 w2 (session_id rq) principal h x) as [Hon Hu]; [by right|done|apply (listening_inv _ _ _ _ (f_listening _ _ Hf1))|].
  apply runs_bind, runs_served; [done|]. intros w3 Hf3. destruct (f_use _ _ Hf3 (session_id rq) principal x) as [_ Hu3]; [by right|done|done|].
  pose proof (far_holdings _ _ Hf3) as Hh3. pose proof (m_pending _ _ _ _ _ _ (f_mine _ _ Hf3)) as Hk3.
  apply runs_bind, runs_act; [apply Hf3|done|]. intros w4 Hf4. pose proof (far_holdings _ _ Hf4) as Hh4. pose proof (m_pending _ _ _ _ _ _ (f_mine _ _ Hf4)) as Hk4.
  destruct Hh3 as (G1 & G2 & G3), Hh4 as (H1 & H2 & H3). cbn [exec_event]. assert (Hx : w_gets w4 !! i = Some x) by congruence. rewrite Hx. eexists. split; [reflexivity|].
  intros Hl5. apply runs_ret. cbn [w_held w_posts w_gets w_pending set_gets set_posts set_gets w2] in G1, G2, G3, H1, H2, H3, Hk3, Hk4. split.
  - split; [exact Hl5|]. cbn. rewrite ?lookup_delete_eq. split_and!; [congruence..|]. by rewrite Hk4, Hk3.
  - split; [done|]. split; [done|]. split; [congruence|]. split; [done|]. by intros _ _ ?.
Qed.

(** A POST that may start a session. *)
Lemma open_spec w hv : listening o ID owner w → new_request w hv → statelessRequest rq = false → is_method rq "POST" = true → session_id rq = "" →
  runs (x ← reserve o ID others principal now k;
        _ ← close_all o ID others (fst x);
        match snd x with
        | Some refusal => mret refusal
        | None => r ← served o ID others false; _ ← settleSession o ID others k a kept; mret r
        end) w (λ w' r, returned w' hv ∧ answered_at hv w' r).
Proof.
  intros Hl Hn Hst Hpost Hsid. pose proof Hn as [N1 N2 N3 N4 N5 N6 N7]. apply runs_bind. eapply runs_weaken; [|by apply reserve_spec]. cbv beta.
  intros w1 [ev res] (Hl1 & (G1 & G2 & G3) & Hp1 & Hfr1 & Hev & Hres). cbn [fst snd] in *. specialize (Hp1 N6).
  apply runs_bind. eapply runs_weaken; [|by apply close_spec]. cbv beta. intros w2 _ Hf2.
  pose proof (far_holdings _ _ Hf2) as (H1 & H2 & H3). destruct Hf2 as [Hl2 [_ _ _ Hk2 _ Hp2 Hfr2] _ _].
  assert (Hq2 : w_phase w2 !! a = None) by (destruct Hp2 as [->|[Hw _] ]; [done|rewrite Hp1 in Hw; unfold watched in Hw; set_solver]).
  destruct res as [r|].
  { apply runs_ret. destruct Hres as [Hk1 (text & -> & Href)]. split; [|exact Href]. split; [done|]. split_and!; [congruence..|]. by rewrite Hk2, Hk1. }
  apply runs_bind, runs_served; [done|]. intros w3 Hf3. pose proof (far_holdings _ _ Hf3) as (I1 & I2 & I3). destruct Hf3 as [Hl3 [_ _ _ Hk3 _ Hp3 Hfr3] _ _].
  assert (Hq3 : w_phase w3 !! a = None) by (destruct Hp3 as [->|[Hw _] ]; [done|rewrite Hq2 in Hw; unfold watched in Hw; set_solver]).
  apply runs_bind. eapply runs_weaken; [|apply settle_spec; [done|tauto|done|by destruct kept as [ [? ?]|]; auto] ]. cbv beta.
  intros w4 _ (Hl4 & (J1 & J2 & J3) & Hk4 & Hset). apply runs_ret. split; [split; [done|]; split_and!; congruence|].
  split; [done|]. split; [congruence|]. split; [congruence|]. split; [by intros _ ?|]. intros _ _ _. tauto.
Qed.

Lemma dispatch_spec w hv : listening o ID owner w → new_request w hv →
  runs (dispatch o ID others rq principal now i k a kept) w (λ w' r, returned w' hv ∧ answered_at hv w' r).
Proof.
  intros Hl Hn. unfold dispatch. destruct (statelessRequest rq) eqn:Hst; [by apply plain_spec|]. unfold stateful.
  assert (Hdel : ∀ m, is_method rq "DELETE" = true → m ≠ "DELETE" → is_method rq m = false).
  { intros m Hd Hne. unfold is_method in *. apply String.eqb_eq in Hd. apply String.eqb_neq. congruence. }
  destruct (is_method rq "DELETE" && negb (String.eqb (session_id rq) "")) eqn:E1.
  { apply andb_true_iff in E1 as [E1 E2]. apply runs_bind, runs_far; [done|done|done|intros w1 _; cbn; by eexists|]. intros w1 Hf. apply plain_spec; [apply Hf|by eapply far_new|done|].
    intros _. rewrite (Hdel "POST") by done. by rewrite (Hdel "GET"). }
  destruct (String.eqb_spec (session_id rq) "") as [Hs|Hs]; cbn [negb andb] in *; rewrite ?andb_false_r, ?andb_true_r in *.
  - destruct (is_method rq "POST") eqn:E2; [by apply open_spec|]. by apply plain_spec.
  - destruct (is_method rq "POST") eqn:E2; [by apply post_spec|]. destruct (is_method rq "GET") eqn:E3; [by apply get_spec|]. by apply plain_spec.
Qed.

Lemma settled_mono w w' : w_phase w' !! a = w_phase w !! a ∨ (w_phase w !! a ∈ watched ∧ w_phase w' !! a ∈ watched) → slot_mono k (w_h w) (w_h w') → settled w → settled w'.
Proof.
  intros Hp Hs. unfold settled. destruct kept; [|by apply returned_mono]. intros [Hw|[Hd Hr] ].
  - left. destruct Hp as [->|[_ ?] ]; done.
  - right. destruct Hp as [->|[Hw _] ]; [split; [done|by eapply returned_mono]|]. rewrite Hd in Hw. unfold watched in Hw. set_solver.
Qed.

Lemma serve_spec w : listening o ID owner w → new_request w None →
  runs (serveAuthed o ID others rq principal now i k a kept) w (λ w' r, returned w' None ∧ answered w' r).
Proof.
  intros Hl Hn. unfold serveAuthed. destruct (is_method rq "POST") eqn:Hpost.
  2:{ eapply runs_weaken; [|by apply dispatch_spec]. cbv beta. intros w' r [Hr Ha]. split; [done|]. destruct r as [|b w1 w2]; [exact Ha|].
      destruct Ha as (A1 & A2 & A3 & A4 & A5). split; [done|]. rewrite Hpost in *. split; [done|]. by split. }
  apply runs_bind, runs_act; [done|done|]. intros w1 Hf1. pose proof (far_new _ _ _ Hf1 Hn) as [N1 N2 N3 N4 N5 N6 N7].
  cbn [exec_event]. unfold when. rewrite decide_True by done. destruct (acquirePOST o (w_h w1) principal) as [h|] eqn:Hq.
  2:{ exists w1. split; [done|]. intros Hl1. rewrite N1. apply runs_ret. split; [done|]. left. split_and!; try done. unfold acquirePOST in Hq.
      destruct (Z.leb_spec (MaxInFlight o) (inFlightPOSTs (w_h w1))); [by left|right]. cbn in Hq. by destruct (Z.leb_spec (MaxInFlightPerPrincipal o) (count_at (perPrincipalPOSTs (w_h w1)) principal)). }
  eexists. split; [reflexivity|]. intros Hl2. match goal with |- context [runs _ ?y _] => set (w2 := y) in * end.
  assert (Hh2 : w_held w2 !! i = Some principal) by (cbn; by rewrite lookup_insert_eq). rewrite Hh2.
  assert (Hn2 : new_request w2 (Some principal)).
  { split; try done. cbn. unfold acquirePOST in Hq. destruct (_ || _); [done|]. by injection Hq as <-. }
  clearbody w2. apply runs_bind. eapply runs_weaken; [|by apply dispatch_spec]. cbv beta. intros w3 r [(Hl3 & R1 & R2 & R3 & R4) Ha].
  apply runs_bind, runs_act; [done|done|]. intros w4 Hf4. pose proof (far_holdings _ _ Hf4) as (H1 & H2 & H3). destruct Hf4 as [Hl4 [_ _ _ Hk4 Hs4 Hp4 _] _ _].
  cbn [exec_event]. rewrite H1, R1. eexists. split; [reflexivity|]. intros Hl5. apply runs_ret. split.
  - split; [done|]. cbn. rewrite lookup_delete_eq. split_and!; [congruence..|]. by rewrite Hk4.
  - destruct r as [|b x y]; [exact Ha|]. destruct Ha as (A1 & A2 & A3 & A4 & A5). split; [done|]. split; [done|]. split; [done|].
    intros E1 E2 E3. destruct (A5 E1 E2 E3) as (B1 & B2 & B3). split; [done|]. split; [done|]. by apply (settled_mono w3).
Qed.
End Request.

(** C26: A request gives back everything it took from the listener, on every
    path, however the other requests, sessions and timers run in between.  Each
    of its steps can happen when it comes to it.  Afterwards it holds no place
    among the POSTs, no count on a session and no reserved slot; a session
    go-sdk kept of it is watched, or, when the proxy is closing, dropped with its
    slot given back.  It is refused only when a cap is reached, its session was
    evicted, or no session of its principal can make room; otherwise go-sdk
    serves it, as a POST within the caps, with a slot reserved if it may start a
    session, and the session it is on is not evicted meanwhile. *)
Theorem request_gives_back o ID owner others rq principal now i k a kept w :
  (∀ n, Forall (λ e, foreign i k a kept e ∧ event_bound owner e) (others n)) → listening o ID owner w → new_request i k a kept w None →
  ∃ n w' r, serveAuthed o ID others rq principal now i k a kept (0%nat, w) = Some ((n, w'), r) ∧
    listening o ID owner w' ∧ w_held w' !! i = None ∧ w_posts w' !! i = None ∧ w_gets w' !! i = None ∧ k ∉ w_pending w' ∧
    answered o rq principal i k a kept w' r.
Proof.
  intros Ho Hl Hn. destruct (serve_spec o ID owner others rq principal now i k a kept Ho w Hl Hn 0%nat) as (n & w' & r & E & (R1 & R2 & R3 & R4 & R5) & Ha).
  by exists n, w', r.
Qed.

(** alice starts a session while bob's POST is served. *)
Definition sample_rq : http_request :=
  {| hr_local := None; hr_host := "localhost"; hr_header := ∅; hr_path := "/mcp"; hr_method := "POST"; hr_bearer := None |}.
Definition sample_others (n : nat) : list event := match n with 1%nat => [EAcquire 5 "bob"] | 3%nat => [ERelease 5] | _ => [] end.

Lemma request_gives_back_witness :
  ∃ n w' r, serveAuthed sample_options (λ _, "id") sample_others sample_rq "alice" 0 0 0 7 (Some (1%nat, "s1")) (0%nat, run_sample []) = Some ((n, w'), r) ∧
    listening sample_options (λ _, "id") (λ _, "alice") w' ∧ w_held w' !! 0%nat = None ∧ w_posts w' !! 0%nat = None ∧ w_gets w' !! 0%nat = None ∧ 0%nat ∉ w_pending w' ∧
    answered sample_options sample_rq "alice" 0 0 7 (Some (1%nat, "s1")) w' r.
Proof.
  apply (request_gives_back sample_options (λ _, "id") (λ _, "alice") sample_others sample_rq "alice" 0 0 0 7 (Some (1%nat, "s1")) (run_sample [])).
  - intros n. destruct n as [|[|[|[|n] ] ] ]; repeat constructor; discriminate.
  - apply (sample_listening 0).
  - split; try reflexivity; [apply not_elem_of_empty|split; apply not_elem_of_empty].
Defined.

Example ex_request_session :
  (λ x, (w_phase (snd (fst x)) !! 7%nat, openSessions (w_h (snd (fst x))), inFlightPOSTs (w_h (snd (fst x))))) <$>
    serveAuthed sample_options (λ _, "id") sample_others sample_rq "alice" 0 0 0 7 (Some (1%nat, "s1")) (0%nat, run_sample []) = Some (Some Watched, 1, 0).
Proof. vm_compute. reflexivity. Qed.

(** ** The connection's deadlines *)

(** A kept-alive connection: its write and read deadlines, and whether the
    current request's body deadline was cleared. *)
Record connection := { cn_write : option Z; cn_read : option Z; cn_once : bool }.

(** What a handler does with its response and the body, with the time; [DRead]
    says whether the body ended or failed. *)
Inductive conn_op := DHeader (code : Z) | DWrite (now : Z) | DFlush (now : Z) | DRead (ended : bool).

(** What reaches net/http, with the deadline it runs under. *)
Inductive conn_event := SentHeader (code : Z) (close : bool) | Wrote (deadline : option Z) | Flushed (deadline : option Z) | ReadBody (deadline : option Z).

(** [deadlineWriter]'s arm and disarm. *)
Definition arm_write (timeout now : Z) (c : connection) : connection := {| cn_write := Some (now + timeout); cn_read := cn_read c; cn_once := cn_once c |}.
Definition disarm_write (c : connection) : connection := {| cn_write := None; cn_read := cn_read c; cn_once := cn_once c |}.

(** [WriteHeader], [Write], [FlushError] and [deadlineBody.Read]. *)
Definition conn_step (timeout : Z) (c : connection) (d : conn_op) : connection * conn_event :=
  match d with
  | DHeader code => (c, SentHeader code (closesConnection code))
  | DWrite now => let c := arm_write timeout now c in (disarm_write c, Wrote (cn_write c))
  | DFlush now => let c := arm_write timeout now c in (disarm_write c, Flushed (cn_write c))
  | DRead ended =>
      (if ended && negb (cn_once c) then {| cn_write := cn_write c; cn_read := None; cn_once := true |} else c, ReadBody (cn_read c))
  end.

Fixpoint conn_run (timeout : Z) (c : connection) (ds : list conn_op) : connection * list conn_event :=
  match ds with
  | [] => (c, [])
  | d :: ds => let '(c, e) := conn_step timeout c d in let '(c, es) := conn_run timeout c ds in (c, e :: es)
  end.

(** [ServeHTTP] around what its checks and handlers do: the deadline left by the
    request before is cleared, a body gets its own, and the final flush of
    net/http is armed; the connection can set deadlines. *)
Definition serve_conn (opts : HTTPOptions) (body : bool) (start finished : Z) (c : connection) (ds : list conn_op) : connection * list conn_event :=
  let c := {| cn_write := None; cn_read := if body then Some (start + BodyReadTimeout opts) else cn_read c; cn_once := negb body |} in
  let '(c, es) := conn_run (WriteTimeout opts) c ds in (arm_write (WriteTimeout opts) finished c, es).

(** Between two operations no write deadline is armed. *)
Lemma conn_run_spec timeout ds : ∀ c, cn_write c = None →
  let '(c', es) := conn_run timeout c ds in
  cn_write c' = None ∧
  Forall2 (λ d e, match d, e with
    | DHeader code, SentHeader code' close => code' = code ∧ close = closesConnection code
    | DWrite now, Wrote t | DFlush now, Flushed t => t = Some (now + timeout)
    | DRead _, ReadBody t => t = None ∨ t = cn_read c
    | _, _ => False end) ds es ∧
  (cn_read c' = cn_read c ∨ cn_read c' = None).
Proof.
  induction ds as [|d ds IH]; intros c Hc; cbn [conn_run]; [split_and!; [done|constructor|by left]|].
  destruct (conn_step timeout c d) as [c1 e] eqn:E.
  assert (Hc1 : cn_write c1 = None ∧ (cn_read c1 = cn_read c ∨ cn_read c1 = None)).
  { destruct d; cbn in E; [injection E as <- <-; split; [done|by left]..|]. destruct (_ && _); injection E as <- <-; (split; [done|first [by left|by right]]). }
  destruct Hc1 as [H1 H2]. specialize (IH c1 H1). destruct (conn_run timeout c1 ds) as [c2 es]. destruct IH as (I1 & I2 & I3). split_and!; [done| |destruct I3 as [->|]; [done|by right] ].
  constructor.
  - destruct d; cbn in E; [by injection E as <- <-..|]. injection E as _ <-. by right.
  - eapply Forall2_impl; [exact I2|]. intros [code|n|n|b] [code' cl|t|t|t]; try done. intros [?|?]; [by left|]. destruct H2 as [H2|H2]; [right; congruence|left; congruence].
Qed.
