(* ===== verification/Dispatch.v ===== *)
(** * One tools/call from end to end: internal/proxy/proxy.go, gate.go, era.go, http.go

    The handler of a route: what of the agent's request becomes a call, the
    refusal of an unauthenticated one, admission, the gate and forwarding,
    composed as the code composes them.  Theorem: the upstream is called only
    for an authenticated, admitted call whose verdict says forward, and then
    with the arguments the gate checked. *)

From S2P Require Import Prelude GoStd GoCrypto Json GoNetip ToolClass Command ServerProfile Values.
From S2P Require Import ConfigPayload Classifier GoPath Policy Evaluate Inventory GateArgs GateText Gate Names.
From S2P Require Import JsonStruct ReqState Scrub Schema Sanitize Label Prompts Attribution Forward ProxyGate CallLimits Progress SessionKeys.

Open Scope string_scope.
Open Scope Z_scope.
Open Scope list_scope.

(** ** The request *)

(** req.Params. *)
Record tool_params := {
  tp_arguments : string; tp_requestState : string; tp_responses : list (string * InputResponse); tp_progressToken : any_token;
}.

(** What the proxy reads of a *mcp.CallToolRequest and of its context:
    the listener's mark, the Extra's header and TokenInfo (its UserID), the
    session with its id and handshake version, the version of the request's
    _meta, and the elicitation capability (form, URL). *)
Record tool_request := {
  tr_listener : bool; tr_header : bool; tr_token : option string;
  tr_session : option nat; tr_session_id : string; tr_init_version : option string;
  tr_version : string; tr_elicitation : option (bool * bool); tr_params : option tool_params;
}.

Definition principalOf (r : tool_request) : string := default "" (tr_token r).

Definition transportOf (r : tool_request) : agentTransport :=
  if tr_listener r then ReqState.transportHTTP
  else if tr_header r || match tr_token r with Some _ => true | None => false end then ReqState.transportHTTP
  else ReqState.transportStdio.

Record agentPeer := { ap_session : option nat; ap_version : string; ap_canElicit : bool }.

Definition stateless (a : agentPeer) : bool := String.leb statelessVersion (ap_version a).

Definition agentOf (r : tool_request) : agentPeer :=
  let v := match tr_session r, tr_init_version r with Some _, Some v => v | _, _ => "" end in
  {| ap_session := tr_session r; ap_version := if String.eqb v "" then tr_version r else v;
     ap_canElicit := match tr_elicitation r with Some (form, url) => form || negb url | None => false end |}.

(** ** The call *)

(** The fields of a call that newCall fills. *)
Record pcall := {
  pc_up : upstream; pc_tool : string; pc_arguments : string; pc_agent : agentPeer; pc_progressToken : any_token;
  pc_transport : agentTransport; pc_principal : string;
  pc_responses : list (string * InputResponse); pc_requestState : string;
}.

(** [newCall]: also how many answers it cleared. *)
Definition newCall (up : upstream) (tool : string) (r : tool_request) : pcall * nat :=
  let c args responses state :=
    {| pc_up := up; pc_tool := tool; pc_arguments := args; pc_agent := agentOf r;
       pc_progressToken := match tr_params r with Some p => agentProgressToken (tp_progressToken p) | None => NoToken end;
       pc_transport := transportOf r; pc_principal := principalOf r; pc_responses := responses; pc_requestState := state |} in
  match tr_params r with
  | None => (c "" [] "", O)
  | Some p =>
      if String.eqb (tp_requestState p) "" then (c (tp_arguments p) [] "", List.length (tp_responses p))
      else (c (tp_arguments p) (tp_responses p) (tp_requestState p), O)
  end.

Definition binding (c : pcall) : stateBinding := {| sb_transport := pc_transport c; sb_principal := pc_principal c |}.

(** The call as agentSessionKey, the gate and resume read it. *)
Definition caller_of (r : tool_request) (c : pcall) : caller :=
  {| ca_session := ap_session (pc_agent c); ca_id := tr_session_id r; ca_stateless := stateless (pc_agent c); ca_principal := pc_principal c |}.

Definition gate_call (c : pcall) (key : string) : call :=
  {| c_up := pc_up c; c_tool := pc_tool c; c_arguments := pc_arguments c; c_agent_version := ap_version (pc_agent c);
     c_transport := transport_string (pc_transport c); c_principal := pc_principal c; c_sessionKey := key |}.

Definition retry_call (c : pcall) : retry :=
  {| rt_server := up_name (pc_up c); rt_tool := pc_tool c; rt_arguments := pc_arguments c; rt_binding := binding c;
     rt_requestState := pc_requestState c; rt_responses := pc_responses c |}.

(** ** Dispatch *)

(** What one call reads from outside: whether the upstream has exited, before
    the decision and before forwarding; whether the context ends while the call
    waits for its counter key's lock; the address of its in-flight entry; the
    clock at its end and the orphan TTL; the progress tokens drawn; the
    upstream's redactor. *)
Record surroundings := {
  su_exited : bool; su_exited_late : bool; su_lock_ended : bool; su_address : nat; su_ended : Z; su_ttl : Z;
  su_progress : gmap string nat; su_draws : nat → string; su_red : option Redactor;
}.

(** The token the upstream gets, if the agent asked for progress; the draws are
    bounded as in [watchProgress_fresh]. *)
Definition upstream_token (su : surroundings) (c : pcall) : option string :=
  match newProgressRelay (up_name (pc_up c)) (pc_progressToken c) (match ap_session (pc_agent c) with Some _ => true | None => false end) 0 with
  | None => None
  | Some _ => snd <$> watchProgress (S (size (su_progress su))) (su_progress su) (su_address su) "" (su_draws su)
  end.

Definition forward_call (su : surroundings) (routes : gmap string route) (c : pcall) (key : string)
    (upArguments : option string) (rs : option resumed) : fwd_call :=
  {| fc_server := up_name (pc_up c); fc_tool := pc_tool c; fc_arguments := pc_arguments c; fc_upArguments := upArguments;
     fc_stateless := stateless (pc_agent c); fc_canElicit := ap_canElicit (pc_agent c); fc_binding := binding c;
     fc_sessionKey := key; fc_requestState := pc_requestState c; fc_responses := pc_responses c; fc_resumed := rs;
     fc_closed := argumentsClosed routes (up_name (pc_up c)) (pc_tool c); fc_upToken := upstream_token su c; fc_red := su_red su |}.

(** The counters, the trace with the upstream's table, and the calls admitted. *)
Record pstate := { ps_keys : gmap string sessionCounter; ps_world : Forward.world }.

Section Dispatch.
Context `{Unicode} `{AEAD} `{Env} `{GateIface}.

Definition forward_with (su : surroundings) (routes : gmap string route) (c : pcall) (key : string)
    (upArguments : option string) (rs : option resumed) (st : pstate) : option (pstate * answer) :=
  (λ wa, ({| ps_keys := ps_keys st; ps_world := fst wa |}, snd wa)) <$>
  forward (S (Z.to_nat maxInputRounds)) (forward_call su routes c key upArguments rs) (su_exited_late su)
    (su_address su) (su_ended su) (su_ttl su) (ps_world st).

(** [gated], with [decide] and [decideAndRespond]; the decision line is left
    out. *)
Definition gated (su : surroundings) (routes : gmap string route) (c : pcall) (key : string) (st : pstate) :
    option (pstate * answer) :=
  match (if String.eqb (pc_requestState c) "" then Ok None
         else match snd (resume (env_now (w_trace (ps_world st))) (retry_call c)) with Ok rs => Ok (Some rs) | Err e => Err e end) with
  | Err e => Some (st, AError (je_Code e) (je_Message e) (je_Data e))
  | Ok rs =>
      if su_exited su then Some (st, upstreamDown (up_name (pc_up c)))
      else if negb (too_large (gate_call c key)) && su_lock_ended su then
        Some ({| ps_keys := snd (counters_get (ps_keys st) (counterKey (gate_call c key))); ps_world := ps_world st |}, ACancelled)
      else
        let '(d, keys) := decide_call routes (ps_keys st) (gate_call c key) in
        let st := {| ps_keys := keys; ps_world := ps_world st |} in
        match respond d with
        | Some text => Some (st, toolError text)
        | None => forward_with su routes c key (Some (default "" (pd_args d))) rs st
        end
  end.

(** [dispatch]: [gate] says whether the proxy has one. *)
Definition dispatch (gate : bool) (su : surroundings) (routes : gmap string route) (c : pcall) (key : string) (st : pstate) :
    option (pstate * answer) :=
  if gate then gated su routes c key st else forward_with su routes c key None None st.

(** [handler] for a route, over the listener's limits if there are any; [key]
    is what agentSessionKey gives.  The calls admitted are those after the
    call's release. *)
Definition handler (gate : bool) (su : surroundings) (routes : gmap string route) (up : upstream) (tool : string)
    (limits : option callLimits) (key : string) (r : tool_request) (st : pstate) : option (option callLimits * pstate * answer) :=
  let c := fst (newCall up tool r) in
  if bool_decide (pc_transport c = ReqState.transportHTTP) && String.eqb (pc_principal c) "" then
    Some (limits, st, toolError ("fathomgate refused " ++ prefixName (up_name up) tool ++
      ": the request arrived over the HTTP listener without an authenticated principal"))
  else match limits with
  | None => (λ sa, (None, fst sa, snd sa)) <$> dispatch gate su routes c key st
  | Some l =>
      match admit_call l (pc_principal c) (tr_session r) with
      | (l, inl why) => Some (Some l, st, toolError (refused_text l (pc_principal c) (prefixName (up_name up) tool) why))
      | (l, inr a) => (λ sa, (Some (release l a), fst sa, snd sa)) <$> dispatch gate su routes c key st
      end
  end.
End Dispatch.

(** ** Only what the gate allows *)

Section Facts.
Context `{Unicode} `{AEAD} `{E : Env} `{!EnvLaws E} `{GateIface}.

(** The gate lets the call through, and its arguments go up as [args]. *)
Definition allowed (routes : gmap string route) (keys : gmap string sessionCounter) (c : call) (args : option string) : Prop :=
  too_large c = false ∧
  (∃ v, iface_Decide (with_counter (callInfo routes c) (fst (counters_get keys (counterKey c)))) = Some v ∧ Gate.Forward v = true) ∧
  reencode (c_arguments c) = Ok args.

Lemma finish_forward c ci v sc : Gate.Forward (pd_v (fst (ProxyGate.finish c ci v sc))) = true →
  (∃ v0, v = Some v0 ∧ Gate.Forward v0 = true) ∧ reencode (c_arguments c) = Ok (pd_args (fst (ProxyGate.finish c ci v sc))).
Proof.
  unfold ProxyGate.finish. destruct v as [v|]; [|done]. destruct (Gate.Forward v) eqn:Hf; cbn [negb].
  - destruct (reencode (c_arguments c)) as [args|e]; [|done]. intros _. split; [by exists v|done].
  - destruct (String.eqb (v_Error v) ""); cbn [fst pd_v with_Error Gate.Forward]; by rewrite Hf.
Qed.

Lemma decide_call_allowed routes keys c d keys' : decide_call routes keys c = (d, keys') → respond d = None →
  allowed routes keys c (pd_args d).
Proof.
  unfold decide_call, respond. destruct (too_large c) eqn:Hl; [by intros [= <- _]|].
  destruct (counters_get keys (counterKey c)) as [sc keys1] eqn:Hk. unfold decideLocked.
  set (ci := with_counter (callInfo routes c) sc). destruct (ProxyGate.finish c ci (iface_Decide ci) sc) as [d' sc'] eqn:Hf. intros [= -> _].
  destruct (Gate.Forward (pd_v d)) eqn:Hfw; [|done]. intros _.
  pose proof (finish_forward c ci (iface_Decide ci) sc) as Hfin. rewrite Hf in Hfin. destruct (Hfin Hfw) as [Hv Hr].
  split; [done|]. split; [|done]. by rewrite Hk.
Qed.

Lemma events_elem c params past evs ev : events_ok c params past evs → ev ∈ evs →
  ∃ past', past' `prefix_of` past ++ evs ∧ event_ok c params past' ev.
Proof.
  revert past. induction evs as [|e evs IH]; intros past; cbn [events_ok]; [by intros _ ?%not_elem_of_nil|].
  intros [He Hevs] [->|Hin]%elem_of_cons.
  - exists past. split; [by apply prefix_app_r|done].
  - destruct (IH _ Hevs Hin) as (p & Hp & Hok). exists p. split; [|done]. by rewrite <- app_assoc in Hp.
Qed.

Lemma reencode_sent c args : reencode (fc_arguments c) = Ok args → fc_upArguments c = Some (default "" args) → sent_arguments c = args.
Proof.
  intros Hr Hu. unfold sent_arguments. rewrite Hu. cbn [default]. unfold reencode in Hr.
  destruct (_ || _); [by injection Hr as <-|]. destruct (run _ _ _ _ _ _) as [v rest| |]; [|done..].
  destruct v; try done; destruct rest; try done; injection Hr as <-; reflexivity.
Qed.

Lemma forward_with_ok su routes c key up rs st st' a :
  calls_ok (w_u (ps_world st)) → u_heap (w_u (ps_world st)) !! su_address su = None →
  resumed_ok (forward_call su routes c key up rs) (env_now (w_trace (ps_world st))) →
  forward_with su routes c key up rs st = Some (st', a) →
  ps_keys st' = ps_keys st ∧
  ∃ evs, w_trace (ps_world st') = w_trace (ps_world st) ++ evs ∧
    (evs = [] ∨ ∃ r, resumed_of (forward_call su routes c key up rs) (env_now (w_trace (ps_world st))) = Ok r ∧
       events_ok (forward_call su routes c key up rs) (first_params (forward_call su routes c key up rs) r) (w_trace (ps_world st)) evs).
Proof.
  intros Hc Hf Hres Hfw. unfold forward_with in Hfw. apply fmap_Some in Hfw as ([w' a'] & Hfw & [= -> ->]). cbn [fst snd ps_keys ps_world].
  split; [done|]. pose proof (forward_ok _ _ _ _ _ _ _ _ _ Hc Hf Hres Hfw) as Hok.
  destruct (resumed_of _ _) as [r|e].
  - destruct (su_exited_late su).
    + destruct Hok as [-> _]. exists []. rewrite app_nil_r. split; [done|by left].
    + destruct Hok as (evs & Htr & _ & _ & Hev & _). exists evs. split; [done|]. right. by exists r.
  - destruct Hok as [-> _]. exists []. rewrite app_nil_r. split; [done|by left].
Qed.

(** The call of a retry whose state opened earlier is resumed as it was then. *)
Definition retry_bounded (c : pcall) (now : Z) : Prop :=
  ∀ rs, pc_requestState c ≠ "" → snd (resume now (retry_call c)) = Ok rs → 0 <= rs_round rs <= maxInputRounds ∧ 0 <= rs_prompts rs <= maxPromptsPerCall.

(** What a gated call may send: nothing, or what the gate allowed. *)
Definition gated_events (su : surroundings) (routes : gmap string route) (c : pcall) (key : string) (st : pstate) (evs : list event) : Prop :=
  evs = [] ∨
  ∃ args rs, allowed routes (ps_keys st) (gate_call c key) args ∧
    (if String.eqb (pc_requestState c) "" then rs = {| rs_responses := ∅; rs_upState := ""; rs_round := 0; rs_prompts := 0 |}
     else snd (resume (env_now (w_trace (ps_world st))) (retry_call c)) = Ok rs) ∧
    (∀ p, ToUpstream p ∈ evs → pa_Name p = pc_tool c ∧ pa_Arguments p = args ∧ pa_ProgressToken p = upstream_token su c ∧
       ∀ id er, pa_InputResponses p !! id = Some er →
         rs_responses rs !! id = Some er ∨ (answer_ok er ∧ ∃ q, ToAgent id q ∈ w_trace (ps_world st) ++ evs)) ∧
    (∀ id q, ToAgent id q ∈ evs → argumentsClosed routes (up_name (pc_up c)) (pc_tool c) = false ∧
       ap_canElicit (pc_agent c) = true ∧ stateless (pc_agent c) = false ∧
       ∃ res ep, (id, InElicit (Some ep)) ∈ ct_InputRequests res ∧ prompt_ok (up_name (pc_up c)) ep q).

Lemma gated_ok su routes c key st st' a :
  calls_ok (w_u (ps_world st)) → u_heap (w_u (ps_world st)) !! su_address su = None →
  retry_bounded c (env_now (w_trace (ps_world st))) →
  gated su routes c key st = Some (st', a) →
  ∃ evs, w_trace (ps_world st') = w_trace (ps_world st) ++ evs ∧ gated_events su routes c key st evs.
Proof.
  intros Hc Hf Hb Hg. assert (Hnil : ∀ k, ps_world st' = ps_world st → k = true →
    ∃ evs, w_trace (ps_world st') = w_trace (ps_world st) ++ evs ∧ gated_events su routes c key st evs).
  { intros _ -> _. exists []. rewrite app_nil_r. split; [done|by left]. }
  unfold gated in Hg. set (ro := if String.eqb _ _ then _ else _) in Hg.
  assert (Hro : match ro with
    | Ok None => pc_requestState c = ""
    | Ok (Some rs) => pc_requestState c ≠ "" ∧ snd (resume (env_now (w_trace (ps_world st))) (retry_call c)) = Ok rs
    | Err _ => True end).
  { unfold ro. destruct (String.eqb_spec (pc_requestState c) ""); [done|]. by destruct (snd (resume _ _)). }
  destruct ro as [rs|e]; [|injection Hg as <- <-; by eapply (Hnil true)].
  destruct (su_exited su); [injection Hg as <- <-; by eapply (Hnil true)|].
  destruct (_ && _); [injection Hg as <- <-; by eapply (Hnil true)|].
  destruct (decide_call routes (ps_keys st) (gate_call c key)) as [d keys] eqn:Hd.
  destruct (respond d) as [text|] eqn:Hresp; [injection Hg as <- <-; by eapply (Hnil true)|]. clear Hnil.
  pose proof (decide_call_allowed _ _ _ _ _ Hd Hresp) as Hallowed. destruct Hallowed as (Hl & Hv & Hre).
  set (fc := forward_call su routes c key (Some (default "" (pd_args d))) rs) in *.
  assert (Hrs : ∀ r, resumed_of fc (env_now (w_trace (ps_world st))) = Ok r →
    if String.eqb (pc_requestState c) "" then r = {| rs_responses := ∅; rs_upState := ""; rs_round := 0; rs_prompts := 0 |}
    else snd (resume (env_now (w_trace (ps_world st))) (retry_call c)) = Ok r).
  { intros r. unfold resumed_of, fc. cbn [forward_call fc_requestState fc_resumed]. destruct (String.eqb_spec (pc_requestState c) ""); [by intros [= <-]|].
    destruct rs as [rs|]; [|congruence]. intros [= <-]. apply Hro. }
  assert (Hok : resumed_ok fc (env_now (w_trace (ps_world st)))).
  { intros r Hr. apply Hrs in Hr. destruct (String.eqb_spec (pc_requestState c) ""); [by subst r|]. by apply Hb. }
  destruct (forward_with_ok su routes c key _ rs {| ps_keys := keys; ps_world := ps_world st |} st' a Hc Hf Hok Hg) as (_ & evs & Htr & Hev). exists evs. split; [done|].
  destruct Hev as [->|(r & Hr & Hev)]; [by left|right]. exists (pd_args d), r. split; [by split|]. split; [by apply Hrs|]. fold fc in Hev. cbn [ps_world] in Hev. split.
  - intros p Hp. destruct (events_elem _ _ _ _ _ Hev Hp) as (past & Hpast & Hn & Ha & Ht & Hcase).
    rewrite Hn, Ha, Ht. split; [done|]. split; [by apply reencode_sent|]. split; [done|]. intros id er Her.
    destruct Hcase as [->|[_ Hans] ]; [by left|right]. destruct (Hans id er Her) as [Hok' [q Hq]]. split; [done|]. exists q.
    destruct Hpast as [k ->]. apply elem_of_app. by left.
  - intros id q Hq. destruct (events_elem _ _ _ _ _ Hev Hq) as (past & _ & Hst & Hcan & Hcl & _ & res & ep & _ & Hin & Hpr).
    split; [done|]. split; [done|]. split; [done|]. by exists res, ep.
Qed.
End Facts.

(** C2: With a gate, nothing reaches the upstream but an authenticated,
    admitted call the gate let through.  If a tools/call sends anything at all,
    it has a principal when it came over the listener, it was within the calls
    limits, its requestState, if any, was verified, the gate's verdict on
    exactly this call said forward, and every request that goes up names the
    route's tool, carries the arguments the gate checked, re-encoded, and only
    those answers of the agent that belong to the verified state or to a prompt
    this call put to it; prompts are put only to a stateful agent that takes
    them, for a tool whose arguments are open, and as labelled forms. *)
Theorem handler_gated `{Unicode} `{AEAD} `{E : Env} `{!EnvLaws E} `{GateIface} su routes up tool limits key r st limits' st' a :
  let c := fst (newCall up tool r) in
  calls_ok (w_u (ps_world st)) → u_heap (w_u (ps_world st)) !! su_address su = None →
  retry_bounded c (env_now (w_trace (ps_world st))) →
  handler true su routes up tool limits key r st = Some (limits', st', a) →
  ∃ evs, w_trace (ps_world st') = w_trace (ps_world st) ++ evs ∧
    (evs ≠ [] →
       (pc_transport c = ReqState.transportHTTP → principalOf r ≠ "") ∧
       (∀ l, limits = Some l → admit_check l (principalOf r) (tr_session r) = None) ∧
       gated_events su routes c key st evs).
Proof.
  intros c Hc Hf Hb Hh. unfold handler in Hh. fold c in Hh.
  assert (Hnil : ∃ evs, w_trace (ps_world st) = w_trace (ps_world st) ++ evs ∧
    (evs ≠ [] → (pc_transport c = ReqState.transportHTTP → principalOf r ≠ "") ∧
       (∀ l, limits = Some l → admit_check l (principalOf r) (tr_session r) = None) ∧ gated_events su routes c key st evs)).
  { exists []. by rewrite app_nil_r. }
  assert (Hprin : pc_principal c = principalOf r).
  { unfold c, newCall. destruct (tr_params r) as [p|]; [|done]. by destruct (String.eqb (tp_requestState p) ""). }
  destruct (bool_decide (pc_transport c = ReqState.transportHTTP) && String.eqb (pc_principal c) "") eqn:Hauth; [by injection Hh as _ <- _|].
  assert (Hauth' : pc_transport c = ReqState.transportHTTP → principalOf r ≠ "").
  { intros Ht Hp. rewrite bool_decide_true, Hprin, Hp in Hauth by done. done. }
  assert (Hgo : ∀ sa, dispatch true su routes c key st = Some sa → st' = fst sa →
    (∀ l, limits = Some l → admit_check l (principalOf r) (tr_session r) = None) →
    ∃ evs, w_trace (ps_world st') = w_trace (ps_world st) ++ evs ∧
    (evs ≠ [] → (pc_transport c = ReqState.transportHTTP → principalOf r ≠ "") ∧
       (∀ l, limits = Some l → admit_check l (principalOf r) (tr_session r) = None) ∧ gated_events su routes c key st evs)).
  { intros [st1 a1] Hd -> Hadm. destruct (gated_ok su routes c key st st1 a1 Hc Hf Hb Hd) as (evs & Htr & Hev). exists evs. split; [done|]. by intros _. }
  destruct limits as [l|].
  - unfold admit_call in Hh. rewrite Hprin in Hh. destruct (admit_check l (principalOf r) (tr_session r)) as [why|] eqn:Hadm; [by injection Hh as _ <- _|].
    destruct (register l _ _) as [l1 a1]. apply fmap_Some in Hh as (sa & Hd & [= _ -> _]). apply (Hgo sa); [done|done|]. by intros l' [= <-].
  - apply fmap_Some in Hh as (sa & Hd & [= _ -> _]). by apply (Hgo sa).
Qed.

(** ** A call over the listener *)

Definition sample_up : upstream := {| up_name := "srv"; up_version := "2025-11-25"; up_era := eraStateful |}.

Definition sample_tool_request : tool_request :=
  {| tr_listener := true; tr_header := true; tr_token := Some "alice"; tr_session := Some 1%nat; tr_session_id := "abc";
     tr_init_version := Some "2025-11-25"; tr_version := ""; tr_elicitation := Some (true, false);
     tr_params := Some {| tp_arguments := show_call "show version"; tp_requestState := ""; tp_responses := [];
                          tp_progressToken := TokString "t" |} |}.

Definition sample_around : surroundings :=
  {| su_exited := false; su_exited_late := false; su_lock_ended := false; su_address := O; su_ended := 2000; su_ttl := 600;
     su_progress := ∅; su_draws := λ _, "TOKEN"; su_red := None |}.

Definition sample_pstate : pstate := {| ps_keys := ∅; ps_world := sample_world |}.

Definition handle_sample : option (option callLimits * pstate * answer) :=
  @handler ascii_tables toy_AEAD sample_env (@gate_iface ascii_tables plain_floats capped_gate) true sample_around ∅ sample_up "run"
    (Some (newCallLimits 4 8)) "sabc" sample_tool_request sample_pstate.

Lemma sample_handled :
  (λ r, (List.length (w_trace (ps_world (snd (fst r)))), snd r)) <$> handle_sample = Some (3%nat, AResult [TextContent "ok"] ANil false).
Proof. vm_compute. reflexivity. Qed.

Lemma handler_gated_witness :
  match handle_sample with
  | Some (limits, st, a) => a = AResult [TextContent "ok"] ANil false ∧ admit_check (newCallLimits 4 8) "alice" (Some 1%nat) = None
  | None => False
  end.
Proof.
  pose proof sample_handled as Hs. destruct handle_sample as [[[limits st] a]|] eqn:Hh; [|discriminate Hs]. unfold handle_sample in Hh.
  assert (Hb : @retry_bounded ascii_tables toy_AEAD (fst (newCall sample_up "run" sample_tool_request)) 1000)
    by (intros rs Hne; exfalso; apply Hne; vm_compute; reflexivity).
  destruct (@handler_gated ascii_tables toy_AEAD sample_env sample_laws (@gate_iface ascii_tables plain_floats capped_gate) sample_around ∅
              sample_up "run" (Some (newCallLimits 4 8)) "sabc" sample_tool_request sample_pstate limits st a sample_calls_ok
              (lookup_empty _) Hb Hh) as (evs & Htr & Hev).
  cbn [fmap option_fmap option_map fst snd] in Hs. injection Hs as Hlen Ha. split; [exact Ha|].
  assert (Hne : evs ≠ []) by (intros ->; rewrite Htr in Hlen; discriminate Hlen).
  destruct (Hev Hne) as (_ & Hadm & _). exact (Hadm _ eq_refl).
Defined.
