(* ===== verification/AuditEvent.v ===== *)
(** * Audit events: internal/audit/event.go and hash.go

    The event as a record, its JSON tree, the canonical form and the chain
    hash, and what encoding/json reads back from a line. *)

From S2P Require Import Prelude GoStd GoCrypto Json JsonMarshal JsonStruct.

Open Scope string_scope.
Open Scope Z_scope.
Open Scope list_scope.

(** 64 zeros. *)
Definition GenesisHash : string := "0000000000000000000000000000000000000000000000000000000000000000".

Definition TypeEvent : string := "call".
Definition TypeCheckpoint : string := "checkpoint".

Record ApprovalRef := { ar_ID : string; ar_Approver : string; ar_Channel : string }.

(** A nil slice is [None]. *)
Record Event := {
  ev_Type : string; EventID : string; ev_Seq : Z; TS : string;
  ev_Principal : string; ev_SessionID : string;
  ev_Server : string; ev_Tool : string; ev_Class : string; ArgsSHA256 : string;
  ev_Targets : option (list string); Roles : option (list string);
  ev_Decision : string; ev_RuleID : string; ev_Reason : string; ev_Obligations : option (list string);
  ev_Approval : option ApprovalRef;
  Status : string; DurationMS : Z; Redactions : Z;
  PrevHash : string; ev_Hash : string;
}.

Record Checkpoint := { cp_Type : string; cp_Seq : Z; cp_Hash : string; cp_Sig : string }.

(** ** The JSON trees, in field order *)

Definition approval_tree (a : ApprovalRef) : any :=
  AObj [("id", AStr (ar_ID a)); ("approver", AStr (ar_Approver a)); ("channel", AStr (ar_Channel a))].

Definition event_fields (ev : Event) : list (string * any) :=
  [("type", AStr (ev_Type ev)); ("event_id", AStr (EventID ev)); ("seq", ANum (itoa (ev_Seq ev)));
   ("ts", AStr (TS ev)); ("principal", AStr (ev_Principal ev)); ("session_id", AStr (ev_SessionID ev));
   ("server", AStr (ev_Server ev)); ("tool", AStr (ev_Tool ev)); ("class", AStr (ev_Class ev));
   ("args_sha256", AStr (ArgsSHA256 ev)); ("targets", strs_tree (ev_Targets ev)); ("roles", strs_tree (Roles ev));
   ("decision", AStr (ev_Decision ev)); ("rule_id", AStr (ev_RuleID ev))] ++
  omit_empty "reason" (ev_Reason ev) ++
  [("obligations", strs_tree (ev_Obligations ev))] ++
  (match ev_Approval ev with None => [] | Some a => [("approval", approval_tree a)] end) ++
  [("status", AStr (Status ev)); ("duration_ms", ANum (itoa (DurationMS ev)));
   ("redactions", ANum (itoa (Redactions ev))); ("prev_hash", AStr (PrevHash ev))] ++
  omit_empty "hash" (ev_Hash ev).

Definition event_tree (ev : Event) : any := AObj (event_fields ev).

Definition checkpoint_tree (cp : Checkpoint) : any :=
  AObj ([("type", AStr (cp_Type cp)); ("seq", ANum (itoa (cp_Seq cp))); ("hash", AStr (cp_Hash cp))] ++
        omit_empty "sig" (cp_Sig cp)).

(** [Canonical]: marshal, decode generically, write with sorted keys and
    without HTML escaping ([writeCanonical] is [json_encode] on a decoded
    value). *)
Definition Canonical (tree : any) : option string :=
  json_encode <$> json_decode any_number (marshal tree).

(** ** The chain hash *)

Definition with_PrevHash (ev : Event) (prev : string) : Event :=
  {| ev_Type := if String.eqb (ev_Type ev) "" then TypeEvent else ev_Type ev;
     EventID := EventID ev; ev_Seq := ev_Seq ev; TS := TS ev;
     ev_Principal := ev_Principal ev; ev_SessionID := ev_SessionID ev; ev_Server := ev_Server ev; ev_Tool := ev_Tool ev;
     ev_Class := ev_Class ev; ArgsSHA256 := ArgsSHA256 ev; ev_Targets := ev_Targets ev; Roles := Roles ev;
     ev_Decision := ev_Decision ev; ev_RuleID := ev_RuleID ev; ev_Reason := ev_Reason ev;
     ev_Obligations := ev_Obligations ev; ev_Approval := ev_Approval ev; Status := Status ev;
     DurationMS := DurationMS ev; Redactions := Redactions ev; PrevHash := prev; ev_Hash := "" |}.

Definition with_Hash (ev : Event) (h : string) : Event :=
  {| ev_Type := ev_Type ev; EventID := EventID ev; ev_Seq := ev_Seq ev; TS := TS ev;
     ev_Principal := ev_Principal ev; ev_SessionID := ev_SessionID ev; ev_Server := ev_Server ev; ev_Tool := ev_Tool ev;
     ev_Class := ev_Class ev; ArgsSHA256 := ArgsSHA256 ev; ev_Targets := ev_Targets ev; Roles := Roles ev;
     ev_Decision := ev_Decision ev; ev_RuleID := ev_RuleID ev; ev_Reason := ev_Reason ev;
     ev_Obligations := ev_Obligations ev; ev_Approval := ev_Approval ev; Status := Status ev;
     DurationMS := DurationMS ev; Redactions := Redactions ev; PrevHash := PrevHash ev; ev_Hash := h |}.

(** [HashEvent]: the event as it is left, and the hash. *)
Definition HashEvent (ev : Event) (prevHash : string) : option (Event * string) :=
  let ev := with_PrevHash ev prevHash in
  match Canonical (event_tree ev) with
  | None => None
  | Some c => Some (ev, hex_encode (sha256 (c ++ prevHash)))
  end.

(** ** Checkpoints *)

(** crypto/ed25519, keys as byte strings. *)
Class Ed25519 := {
  ed_sign : string → string → string;              (* private key, message *)
  ed_verify : string → string → string → bool;     (* public key, message, signature *)
  ed_public : string → string;
}.

(** What the standard promises of it. *)
Class Ed25519Laws (E : Ed25519) : Prop := {
  ed_verify_sign priv msg : ed_verify (ed_public priv) msg (ed_sign priv msg) = true;
  ed_sign_length priv msg : String.length (ed_sign priv msg) = 64%nat;
}.

Definition checkpointMessage (seq : Z) (hash : string) : option string :=
  Canonical (checkpoint_tree {| cp_Type := TypeCheckpoint; cp_Seq := seq; cp_Hash := hash; cp_Sig := "" |}).

Definition SignCheckpoint `{Ed25519} (priv : string) (seq : Z) (hash : string) : option Checkpoint :=
  match checkpointMessage seq hash with
  | None => None
  | Some msg => Some {| cp_Type := TypeCheckpoint; cp_Seq := seq; cp_Hash := hash;
                        cp_Sig := base64_encode (ed_sign priv msg) |}
  end.

Inductive checkpoint_error := CpNoSignature | CpEncoding | CpMessage | CpBadSignature.

Definition VerifyCheckpoint `{Ed25519} (pub : string) (cp : Checkpoint) : option checkpoint_error :=
  if String.eqb (cp_Sig cp) "" then Some CpNoSignature
  else match base64_decode (cp_Sig cp) with
  | None => Some CpEncoding
  | Some sig =>
      match checkpointMessage (cp_Seq cp) (cp_Hash cp) with
      | None => Some CpMessage
      | Some msg => if ed_verify pub msg sig then None else Some CpBadSignature
      end
  end.

(** ** Decoding an event *)

(** The event under construction: the string, number and approval fields, and
    the three slices with their backing arrays. *)
Record decoding := {
  de_strings : string → string;           (* by field name *)
  de_seq : Z; de_duration : Z; de_redactions : Z;
  de_targets : slice; de_roles : slice; de_obligations : slice;
  de_approval : option ApprovalRef;
}.

Definition decoding0 : decoding :=
  {| de_strings := λ _, EmptyString; de_seq := 0; de_duration := 0; de_redactions := 0;
     de_targets := None; de_roles := None; de_obligations := None; de_approval := None |}.

Definition approval0 : ApprovalRef := {| ar_ID := ""; ar_Approver := ""; ar_Channel := "" |}.

Definition set_approval (n : string) (a : ApprovalRef) (ts : list token) : option ApprovalRef :=
  if String.eqb n "id" then
    match into_string (ar_ID a) ts with
    | Some s => Some {| ar_ID := s; ar_Approver := ar_Approver a; ar_Channel := ar_Channel a |} | None => None end
  else if String.eqb n "approver" then
    match into_string (ar_Approver a) ts with
    | Some s => Some {| ar_ID := ar_ID a; ar_Approver := s; ar_Channel := ar_Channel a |} | None => None end
  else
    match into_string (ar_Channel a) ts with
    | Some s => Some {| ar_ID := ar_ID a; ar_Approver := ar_Approver a; ar_Channel := s |} | None => None end.

Definition approval_names : list string := ["id"; "approver"; "channel"].

(** A pointer field: null clears it, an object is read into what it points to. *)
Definition into_approval (old : option ApprovalRef) (ts : list token) : option (option ApprovalRef) :=
  match ts with
  | [TNull] => Some None
  | _ => Some <$> into_struct true approval_names set_approval (default approval0 old) ts
  end.

Definition set_string (n : string) (d : decoding) (s : string) : decoding :=
  {| de_strings := λ m, if String.eqb m n then s else de_strings d m; de_seq := de_seq d; de_duration := de_duration d;
     de_redactions := de_redactions d; de_targets := de_targets d; de_roles := de_roles d;
     de_obligations := de_obligations d; de_approval := de_approval d |}.

Definition set_seq (d : decoding) (x : Z) : decoding :=
  {| de_strings := de_strings d; de_seq := x; de_duration := de_duration d; de_redactions := de_redactions d; de_targets := de_targets d; de_roles := de_roles d; de_obligations := de_obligations d; de_approval := de_approval d |}.
Definition set_duration (d : decoding) (x : Z) : decoding :=
  {| de_strings := de_strings d; de_seq := de_seq d; de_duration := x; de_redactions := de_redactions d; de_targets := de_targets d; de_roles := de_roles d; de_obligations := de_obligations d; de_approval := de_approval d |}.
Definition set_redactions (d : decoding) (x : Z) : decoding :=
  {| de_strings := de_strings d; de_seq := de_seq d; de_duration := de_duration d; de_redactions := x; de_targets := de_targets d; de_roles := de_roles d; de_obligations := de_obligations d; de_approval := de_approval d |}.
Definition set_targets (d : decoding) (x : slice) : decoding :=
  {| de_strings := de_strings d; de_seq := de_seq d; de_duration := de_duration d; de_redactions := de_redactions d; de_targets := x; de_roles := de_roles d; de_obligations := de_obligations d; de_approval := de_approval d |}.
Definition set_roles (d : decoding) (x : slice) : decoding :=
  {| de_strings := de_strings d; de_seq := de_seq d; de_duration := de_duration d; de_redactions := de_redactions d; de_targets := de_targets d; de_roles := x; de_obligations := de_obligations d; de_approval := de_approval d |}.
Definition set_obligations (d : decoding) (x : slice) : decoding :=
  {| de_strings := de_strings d; de_seq := de_seq d; de_duration := de_duration d; de_redactions := de_redactions d; de_targets := de_targets d; de_roles := de_roles d; de_obligations := x; de_approval := de_approval d |}.
Definition set_approvals (d : decoding) (x : option ApprovalRef) : decoding :=
  {| de_strings := de_strings d; de_seq := de_seq d; de_duration := de_duration d; de_redactions := de_redactions d; de_targets := de_targets d; de_roles := de_roles d; de_obligations := de_obligations d; de_approval := x |}.

Definition event_names : list string :=
  ["type"; "event_id"; "seq"; "ts"; "principal"; "session_id"; "server"; "tool"; "class"; "args_sha256";
   "targets"; "roles"; "decision"; "rule_id"; "reason"; "obligations"; "approval"; "status"; "duration_ms";
   "redactions"; "prev_hash"; "hash"].

Definition set_field (n : string) (d : decoding) (ts : list token) : option decoding :=
  if String.eqb n "seq" then set_seq d <$> into_number parse_uint64 (de_seq d) ts
  else if String.eqb n "duration_ms" then set_duration d <$> into_number parse_int64 (de_duration d) ts
  else if String.eqb n "redactions" then set_redactions d <$> into_number parse_int64 (de_redactions d) ts
  else if String.eqb n "targets" then set_targets d <$> into_slice (de_targets d) ts
  else if String.eqb n "roles" then set_roles d <$> into_slice (de_roles d) ts
  else if String.eqb n "obligations" then set_obligations d <$> into_slice (de_obligations d) ts
  else if String.eqb n "approval" then set_approvals d <$> into_approval (de_approval d) ts
  else set_string n d <$> into_string (de_strings d n) ts.

Definition decoded_event (d : decoding) : Event :=
  let s := de_strings d in
  {| ev_Type := s "type"; EventID := s "event_id"; ev_Seq := de_seq d; TS := s "ts";
     ev_Principal := s "principal"; ev_SessionID := s "session_id"; ev_Server := s "server";
     ev_Tool := s "tool"; ev_Class := s "class"; ArgsSHA256 := s "args_sha256";
     ev_Targets := slice_strings (de_targets d); Roles := slice_strings (de_roles d);
     ev_Decision := s "decision"; ev_RuleID := s "rule_id"; ev_Reason := s "reason";
     ev_Obligations := slice_strings (de_obligations d); ev_Approval := de_approval d; Status := s "status";
     DurationMS := de_duration d; Redactions := de_redactions d; PrevHash := s "prev_hash";
     ev_Hash := s "hash" |}.

(** Decode with DisallowUnknownFields, of a line that is valid JSON. *)
Definition decode_event (line : string) : option Event :=
  decoded_event <$> into_struct true event_names set_field decoding0 (tokens line).

Definition checkpoint_names : list string := ["type"; "seq"; "hash"; "sig"].

Definition set_checkpoint (n : string) (cp : Checkpoint) (ts : list token) : option Checkpoint :=
  let mk t q h g := {| cp_Type := t; cp_Seq := q; cp_Hash := h; cp_Sig := g |} in
  if String.eqb n "seq" then
    (λ q, mk (cp_Type cp) q (cp_Hash cp) (cp_Sig cp)) <$> into_number parse_uint64 (cp_Seq cp) ts
  else if String.eqb n "type" then
    (λ t, mk t (cp_Seq cp) (cp_Hash cp) (cp_Sig cp)) <$> into_string (cp_Type cp) ts
  else if String.eqb n "hash" then
    (λ h, mk (cp_Type cp) (cp_Seq cp) h (cp_Sig cp)) <$> into_string (cp_Hash cp) ts
  else (λ g, mk (cp_Type cp) (cp_Seq cp) (cp_Hash cp) g) <$> into_string (cp_Sig cp) ts.

Definition checkpoint0 : Checkpoint := {| cp_Type := ""; cp_Seq := 0; cp_Hash := ""; cp_Sig := "" |}.

Definition decode_checkpoint (line : string) : option Checkpoint :=
  into_struct false checkpoint_names set_checkpoint checkpoint0 (tokens line).

(** The type and seq every line is first read for; unknown fields are
    allowed. *)
Definition set_head (n : string) (h : string * Z) (ts : list token) : option (string * Z) :=
  if String.eqb n "type" then (λ t, (t, snd h)) <$> into_string (fst h) ts
  else (λ q, (fst h, q)) <$> into_number parse_uint64 (snd h) ts.

Definition decode_head (line : string) : option (string * Z) :=
  if json_valid line then into_struct false ["type"; "seq"] set_head (EmptyString, 0) (tokens line) else None.

(** ** The event the text says: invalid UTF-8 replaced *)

#[global] Arguments coerce_utf8 : simpl never.

Definition coerce_approval (a : ApprovalRef) : ApprovalRef :=
  {| ar_ID := coerce_utf8 (ar_ID a); ar_Approver := coerce_utf8 (ar_Approver a); ar_Channel := coerce_utf8 (ar_Channel a) |}.

Definition coerce_event (ev : Event) : Event :=
  {| ev_Type := coerce_utf8 (ev_Type ev); EventID := coerce_utf8 (EventID ev); ev_Seq := ev_Seq ev;
     TS := coerce_utf8 (TS ev); ev_Principal := coerce_utf8 (ev_Principal ev);
     ev_SessionID := coerce_utf8 (ev_SessionID ev); ev_Server := coerce_utf8 (ev_Server ev);
     ev_Tool := coerce_utf8 (ev_Tool ev); ev_Class := coerce_utf8 (ev_Class ev);
     ArgsSHA256 := coerce_utf8 (ArgsSHA256 ev); ev_Targets := coerce_strs (ev_Targets ev);
     Roles := coerce_strs (Roles ev); ev_Decision := coerce_utf8 (ev_Decision ev);
     ev_RuleID := coerce_utf8 (ev_RuleID ev); ev_Reason := coerce_utf8 (ev_Reason ev);
     ev_Obligations := coerce_strs (ev_Obligations ev); ev_Approval := coerce_approval <$> ev_Approval ev;
     Status := coerce_utf8 (Status ev); DurationMS := DurationMS ev; Redactions := Redactions ev;
     PrevHash := coerce_utf8 (PrevHash ev); ev_Hash := coerce_utf8 (ev_Hash ev) |}.

Lemma coerced_event_tree ev : coerced (event_tree ev) = event_tree (coerce_event ev).
Proof.
  unfold event_tree, event_fields. cbn [coerced]. rewrite !map_app, !coerce_omit_empty by reflexivity.
  cbn [map fst snd coerced]. rewrite !coerced_strs.
  change (ev_Approval (coerce_event ev)) with (coerce_approval <$> ev_Approval ev). by destruct (ev_Approval ev).
Qed.

Lemma coerced_checkpoint_tree cp :
  coerced (checkpoint_tree cp) =
  checkpoint_tree {| cp_Type := coerce_utf8 (cp_Type cp); cp_Seq := cp_Seq cp;
                     cp_Hash := coerce_utf8 (cp_Hash cp); cp_Sig := coerce_utf8 (cp_Sig cp) |}.
Proof. unfold checkpoint_tree. cbn [coerced]. by rewrite map_app, coerce_omit_empty. Qed.

(** ** The trees are shallow and their numbers are literals *)

Lemma event_tree_numbers ev : numbers_ok (event_tree ev) = true.
Proof.
  unfold event_tree, event_fields. cbn [numbers_ok]. rewrite !forallb_app, !forallb_omit_empty by reflexivity.
  cbn [forallb snd numbers_ok]. rewrite !strs_tree_numbers, !num_lit_itoa. by destruct (ev_Approval ev).
Qed.

Lemma checkpoint_tree_numbers cp : numbers_ok (checkpoint_tree cp) = true.
Proof.
  unfold checkpoint_tree. cbn [numbers_ok]. rewrite forallb_app, forallb_omit_empty by reflexivity.
  cbn [forallb snd numbers_ok]. by rewrite num_lit_itoa.
Qed.

Lemma event_tree_depth ev : (depth (event_tree ev) ≤ maxNestingDepth)%nat.
Proof.
  apply small_depth. etrans; [apply (depth_obj_le 1)|lia]. unfold event_fields. intros e. rewrite !elem_of_app.
  intros [He|[He|[He|[He|[He|He] ] ] ] ].
  all: try (rewrite (depth_omit_empty _ _ _ He); lia).
  all: try (destruct (ev_Approval ev); [apply list_elem_of_singleton in He as ->; cbn; lia|by apply not_elem_of_nil in He]).
  all: rewrite ?elem_of_cons in He; repeat (destruct He as [->|He]; [cbn [snd]; try apply depth_strs; cbn; lia|]).
  all: by apply not_elem_of_nil in He.
Qed.

Lemma checkpoint_tree_depth cp : (depth (checkpoint_tree cp) ≤ maxNestingDepth)%nat.
Proof.
  apply small_depth. etrans; [apply (depth_obj_le 1)|lia]. intros e. rewrite !elem_of_app. intros [He|He].
  - rewrite ?elem_of_cons in He. repeat (destruct He as [->|He]; [cbn; lia|]). by apply not_elem_of_nil in He.
  - rewrite (depth_omit_empty _ _ _ He). lia.
Qed.

(** ** The canonical form *)

(** The canonical form of a tree exists, depends only on the text the tree is
    written as, and says the whole tree. *)
Lemma Canonical_total t :
  numbers_ok t = true → (depth (coerced t) ≤ maxNestingDepth)%nat →
  ∃ c, Canonical t = Some c ∧ json_decode any_number c = Some (normal (coerced t)).
Proof.
  intros Hn Hd. unfold Canonical. pose proof (decode_marshal t Hn Hd) as Hm. rewrite Hm.
  eexists. split; [reflexivity|]. by apply (json_decode_canonical _ _ _ Hm).
Qed.

Lemma Canonical_coerced t u :
  numbers_ok t = true → numbers_ok u = true →
  (depth (coerced t) ≤ maxNestingDepth)%nat → (depth (coerced u) ≤ maxNestingDepth)%nat →
  coerced t = coerced u → Canonical t = Canonical u.
Proof.
  intros Ht Hu Hdt Hdu E. unfold Canonical. by rewrite (decode_marshal t), (decode_marshal u), E.
Qed.

Lemma Canonical_event ev :
  ∃ c, Canonical (event_tree ev) = Some c ∧
       json_decode any_number c = Some (normal (event_tree (coerce_event ev))).
Proof.
  destruct (Canonical_total (event_tree ev)) as (c & Hc & Hd).
  - apply event_tree_numbers.
  - rewrite coerced_event_tree. apply event_tree_depth.
  - exists c. by rewrite <- coerced_event_tree.
Qed.

Lemma checkpointMessage_total seq hash : ∃ msg, checkpointMessage seq hash = Some msg.
Proof.
  destruct (Canonical_total (checkpoint_tree {| cp_Type := TypeCheckpoint; cp_Seq := seq; cp_Hash := hash; cp_Sig := "" |}))
    as (c & Hc & _); [apply checkpoint_tree_numbers|rewrite coerced_checkpoint_tree; apply checkpoint_tree_depth|].
  by exists c.
Qed.

Lemma HashEvent_total ev prev : ∃ h, HashEvent ev prev = Some (with_PrevHash ev prev, h).
Proof.
  unfold HashEvent. destruct (Canonical_event (with_PrevHash ev prev)) as (c & -> & _). eauto.
Qed.

(** ** The tree says every field *)

Definition opt_str (s : string) : option any := if String.eqb s "" then None else Some (AStr s).

Definition event_members (ev : Event) : list (option any) :=
  [Some (AStr (ev_Type ev)); Some (AStr (EventID ev)); Some (ANum (itoa (ev_Seq ev))); Some (AStr (TS ev));
   Some (AStr (ev_Principal ev)); Some (AStr (ev_SessionID ev)); Some (AStr (ev_Server ev)); Some (AStr (ev_Tool ev));
   Some (AStr (ev_Class ev)); Some (AStr (ArgsSHA256 ev)); Some (strs_tree (ev_Targets ev)); Some (strs_tree (Roles ev));
   Some (AStr (ev_Decision ev)); Some (AStr (ev_RuleID ev)); opt_str (ev_Reason ev); Some (strs_tree (ev_Obligations ev));
   approval_tree <$> ev_Approval ev; Some (AStr (Status ev)); Some (ANum (itoa (DurationMS ev)));
   Some (ANum (itoa (Redactions ev))); Some (AStr (PrevHash ev)); opt_str (ev_Hash ev)].

Lemma event_fields_members ev :
  map (obj_get (rev (event_fields ev))) event_names = event_members ev.
Proof.
  destruct ev as [? ? ? ? ? ? ? ? ? ? ? ? ? ? reason ? approval ? ? ? ? hash]. unfold event_fields, event_members, omit_empty, opt_str.
  cbn [ev_Reason ev_Approval ev_Hash].
  destruct (String.eqb reason ""), approval, (String.eqb hash ""); reflexivity.
Qed.

Lemma opt_str_inj a b : normal <$> opt_str a = normal <$> opt_str b → a = b.
Proof.
  unfold opt_str. destruct (String.eqb_spec a "") as [->|]; destruct (String.eqb_spec b "") as [->|]; try done.
  by intros [= ->].
Qed.

Lemma approval_tree_inj (a b : option ApprovalRef) :
  normal <$> (approval_tree <$> a) = normal <$> (approval_tree <$> b) → a = b.
Proof. destruct a as [ [] |], b as [ [] |]; try done. cbn. by intros [= -> -> ->]. Qed.

(** Two events whose decoded trees agree are the same event. *)
Lemma event_tree_inj e1 e2 : normal (event_tree e1) = normal (event_tree e2) → e1 = e2.
Proof.
  intros E. assert (Hm : map (λ o, normal <$> o) (event_members e1) = map (λ o, normal <$> o) (event_members e2)).
  { rewrite <- !event_fields_members, !map_map. apply list_fmap_ext. intros i k _.
    rewrite <- !member_normal. fold (event_tree e1). fold (event_tree e2). by rewrite E. }
  unfold event_members in Hm. cbn [map] in Hm.
  clear E. injection Hm. clear Hm. intros. repeat match goal with
  | H : normal <$> opt_str _ = _ |- _ => apply opt_str_inj in H
  | H : normal <$> (approval_tree <$> _) = _ |- _ => apply approval_tree_inj in H
  | H : normal (strs_tree _) = _ |- _ => apply strs_tree_inj in H
  | H : itoa _ = itoa _ |- _ => apply itoa_inj in H end.
  destruct e1, e2. f_equal; assumption.
Qed.

Definition collision : Prop := ∃ x y, x ≠ y ∧ sha256 x = sha256 y.

(** The hash of an event binds the event, its missing type read as a call. *)
Lemma HashEvent_binds e1 p1 f1 e2 p2 f2 h :
  coerce_event e1 = e1 → coerce_event e2 = e2 → String.length p1 = String.length p2 →
  coerce_utf8 p1 = p1 → coerce_utf8 p2 = p2 →
  HashEvent e1 p1 = Some (f1, h) → HashEvent e2 p2 = Some (f2, h) →
  with_PrevHash e1 p1 = with_PrevHash e2 p2 ∨ collision.
Proof.
  intros Hu1 Hu2 Hlen Hp1 Hp2. unfold HashEvent.
  destruct (Canonical_event (with_PrevHash e1 p1)) as (c1 & -> & Hd1).
  destruct (Canonical_event (with_PrevHash e2 p2)) as (c2 & -> & Hd2).
  intros [= _ <-] [= _ H]. apply hex_encode_inj in H.
  destruct (decide ((c1 ++ p1)%string = (c2 ++ p2)%string)) as [E|E]; [left|right; by exists (c2 ++ p2)%string, (c1 ++ p1)%string].
  assert (Hw : ∀ e p, coerce_event e = e → coerce_utf8 p = p → coerce_event (with_PrevHash e p) = with_PrevHash e p).
  { clear. intros e p He Hp. destruct e. unfold coerce_event, with_PrevHash in *. cbn in *. injection He. intros.
    rewrite Hp. f_equal; try done. by destruct (String.eqb ev_Type0 ""). }
  rewrite Hw in Hd1, Hd2 by done.
  assert (Hc : c1 = c2) by by apply (app_same_length c1 c2 p1 p2).
  subst. rewrite Hd1 in Hd2. apply (inj Some) in Hd2. by apply event_tree_inj.
Qed.

(** ** What is read is UTF-8 *)

Definition approval_fixed (a : ApprovalRef) : Prop := fixed (ar_ID a) ∧ fixed (ar_Approver a) ∧ fixed (ar_Channel a).

Lemma set_approval_fixed n a ts a' :
  set_approval n a ts = Some a' → approval_fixed a → forallb good_token ts = true → approval_fixed a'.
Proof.
  unfold set_approval. intros Hs (H1 & H2 & H3) Hg.
  repeat (case_match; simplify_eq); repeat split; cbn; auto; eapply into_string_fixed; eauto.
Qed.

Definition decoding_fixed (d : decoding) : Prop :=
  (∀ n, fixed (de_strings d n)) ∧ slice_fixed (de_targets d) ∧ slice_fixed (de_roles d) ∧
  slice_fixed (de_obligations d) ∧ match de_approval d with Some a => approval_fixed a | None => True end.

Lemma into_approval_fixed old ts o :
  into_approval old ts = Some o → match old with Some a => approval_fixed a | None => True end →
  forallb good_token ts = true → match o with Some a => approval_fixed a | None => True end.
Proof.
  intros Hi Ho Hg. destruct o as [a|]; [|done].
  assert (Hs : into_struct true approval_names set_approval (default approval0 old) ts = Some a).
  { unfold into_approval in Hi. destruct ts as [|[] [|? ?] ]; try discriminate Hi;
      (destruct (into_struct _ _ _ _ _); [cbn in Hi; congruence|discriminate Hi]). }
  eapply (into_struct_inv approval_fixed); [apply set_approval_fixed|done| |done]. by destruct old.
Qed.

Lemma set_field_fixed n d ts d' :
  set_field n d ts = Some d' → decoding_fixed d → forallb good_token ts = true → decoding_fixed d'.
Proof.
  intros Hs (H1 & H2 & H3 & H4 & H5) Hg. unfold set_field in Hs.
  repeat match type of Hs with (if ?b then _ else _) = _ => destruct b end;
    (match type of Hs with _ <$> ?o = _ => destruct o as [x|] eqn:E; [|done] end); injection Hs as <-; repeat split; cbn; auto.
  1-3: by eapply into_slice_fixed.
  - by eapply into_approval_fixed.
  - intros m. destruct (String.eqb m n); [|done]. by eapply into_string_fixed.
Qed.

Lemma decode_event_fixed line ev : decode_event line = Some ev → coerce_event ev = ev.
Proof.
  unfold decode_event. destruct (into_struct _ _ _ _ _) as [d|] eqn:E; [|done]. intros [= <-].
  assert (Hd : decoding_fixed d).
  { eapply (into_struct_inv decoding_fixed); [apply set_field_fixed|exact E| |apply tokens_good]. by repeat split. }
  destruct Hd as (H1 & H2 & H3 & H4 & H5). unfold decoded_event, coerce_event.
  cbn. rewrite !H1, !slice_strings_fixed by done. f_equal. destruct (de_approval d) as [ [] |]; [|done].
  destruct H5 as (E1 & E2 & E3). unfold fixed in *. cbn in E1, E2, E3 |- *. unfold coerce_approval. cbn. by rewrite E1, E2, E3.
Qed.

(** ** A written event is read back *)

Lemma into_approval_tree a : into_approval None (toks (approval_tree a)) = Some (Some a).
Proof.
  change (into_approval None (toks (approval_tree a))) with
    (Some <$> into_struct true approval_names set_approval approval0 (toks (approval_tree a))).
  unfold approval_tree. rewrite into_struct_obj; [by destruct a|done|]. apply small_depth. cbn. lia.
Qed.

Definition ev_ranges (ev : Event) : Prop :=
  0 <= ev_Seq ev < 2 ^ 64 ∧ - 2 ^ 63 <= DurationMS ev < 2 ^ 63 ∧ - 2 ^ 63 <= Redactions ev < 2 ^ 63.

Abbreviation read := (into_fields true event_names set_field).

Lemma read_strs d k s es :
  field_of event_names k = Some k →
  forallb (λ n, negb (String.eqb k n)) ["seq"; "duration_ms"; "redactions"; "targets"; "roles"; "obligations"; "approval"] = true →
  read d (fields_toks ((k, AStr s) :: es)) = read (set_string k d s) (fields_toks es).
Proof.
  intros Hk Hn. cbn [fields_toks map fst snd toks into_fields]. rewrite Hk. unfold set_field.
  cbn [forallb] in Hn. rewrite !andb_true_iff, !negb_true_iff in Hn.
  destruct Hn as (-> & -> & -> & -> & -> & -> & -> & _). done.
Qed.

Lemma read_omit d k s es :
  field_of event_names k = Some k →
  forallb (λ n, negb (String.eqb k n)) ["seq"; "duration_ms"; "redactions"; "targets"; "roles"; "obligations"; "approval"] = true →
  read d (fields_toks (omit_empty k s ++ es)) = read (if String.eqb s "" then d else set_string k d s) (fields_toks es).
Proof. intros Hk Hn. unfold omit_empty. destruct (String.eqb s ""); [done|]. by apply read_strs. Qed.

Lemma read_seq d z es : 0 <= z < 2 ^ 64 →
  read d (fields_toks (("seq", ANum (itoa z)) :: es)) = read (set_seq d z) (fields_toks es).
Proof.
  intros Hz. change (read d (fields_toks (("seq", ANum (itoa z)) :: es))) with
    (match set_seq d <$> parse_uint64 (itoa z) with Some d => read d (fields_toks es) | None => None end).
  by rewrite parse_uint64_itoa.
Qed.

Lemma read_duration d z es : - 2 ^ 63 <= z < 2 ^ 63 →
  read d (fields_toks (("duration_ms", ANum (itoa z)) :: es)) = read (set_duration d z) (fields_toks es).
Proof.
  intros Hz. change (read d (fields_toks (("duration_ms", ANum (itoa z)) :: es))) with
    (match set_duration d <$> parse_int64 (itoa z) with Some d => read d (fields_toks es) | None => None end).
  by rewrite parse_int64_itoa.
Qed.

Lemma read_redactions d z es : - 2 ^ 63 <= z < 2 ^ 63 →
  read d (fields_toks (("redactions", ANum (itoa z)) :: es)) = read (set_redactions d z) (fields_toks es).
Proof.
  intros Hz. change (read d (fields_toks (("redactions", ANum (itoa z)) :: es))) with
    (match set_redactions d <$> parse_int64 (itoa z) with Some d => read d (fields_toks es) | None => None end).
  by rewrite parse_int64_itoa.
Qed.

Lemma read_targets d l es : de_targets d = None →
  read d (fields_toks (("targets", strs_tree l) :: es)) = read (set_targets d (strs_slice l)) (fields_toks es).
Proof.
  intros Hd. change (read d (fields_toks (("targets", strs_tree l) :: es))) with
    (match set_targets d <$> into_slice (de_targets d) (toks (strs_tree l)) with Some d => read d (fields_toks es) | None => None end).
  by rewrite Hd, into_slice_strs.
Qed.

Lemma read_roles d l es : de_roles d = None →
  read d (fields_toks (("roles", strs_tree l) :: es)) = read (set_roles d (strs_slice l)) (fields_toks es).
Proof.
  intros Hd. change (read d (fields_toks (("roles", strs_tree l) :: es))) with
    (match set_roles d <$> into_slice (de_roles d) (toks (strs_tree l)) with Some d => read d (fields_toks es) | None => None end).
  by rewrite Hd, into_slice_strs.
Qed.

Lemma read_obligations d l es : de_obligations d = None →
  read d (fields_toks (("obligations", strs_tree l) :: es)) = read (set_obligations d (strs_slice l)) (fields_toks es).
Proof.
  intros Hd. change (read d (fields_toks (("obligations", strs_tree l) :: es))) with
    (match set_obligations d <$> into_slice (de_obligations d) (toks (strs_tree l)) with Some d => read d (fields_toks es) | None => None end).
  by rewrite Hd, into_slice_strs.
Qed.

Lemma read_approval d a es : de_approval d = None →
  read d (fields_toks ((match a with None => [] | Some a => [("approval", approval_tree a)] end) ++ es)) =
  read (match a with None => d | Some a => set_approvals d (Some a) end) (fields_toks es).
Proof.
  intros Hd. destruct a as [a|]; [|done].
  change (read d (fields_toks ([("approval", approval_tree a)] ++ es))) with
    (match set_approvals d <$> into_approval (de_approval d) (toks (approval_tree a)) with Some d => read d (fields_toks es) | None => None end).
  by rewrite Hd, into_approval_tree.
Qed.

Lemma read_event ev : ev_ranges ev →
  ∃ d, read decoding0 (fields_toks (event_fields ev)) = Some d ∧ decoded_event d = ev.
Proof.
  intros (Hs & Hd & Hr). unfold event_fields. cbn [app].
  rewrite !read_strs, read_seq by done || reflexivity.
  rewrite !read_strs by reflexivity. rewrite read_targets, read_roles by reflexivity.
  rewrite !read_strs by reflexivity. rewrite read_omit by reflexivity.
  rewrite read_obligations by (by destruct (String.eqb (ev_Reason ev) "")).
  rewrite read_approval by (by destruct (String.eqb (ev_Reason ev) "")).
  rewrite read_strs, read_duration, read_redactions, read_strs by done || reflexivity.
  rewrite <- (app_nil_r (omit_empty "hash" (ev_Hash ev))), read_omit by reflexivity.
  eexists. split; [reflexivity|]. destruct ev as [? ? ? ? ? ? ? ? ? ? ? ? ? ? reason ? approval ? ? ? ? hash]. cbn [ev_Reason ev_Approval ev_Hash].
  unfold decoded_event.
  destruct (String.eqb_spec reason "") as [->|], approval, (String.eqb_spec hash "") as [->|]; cbn -[slice_strings strs_slice];
    by rewrite !slice_strings_strs.
Qed.

Lemma event_tree_plain ev : plain (event_tree ev) = true.
Proof.
  unfold event_tree, event_fields. cbn [plain]. rewrite !forallb_app, !forallb_omit_empty by reflexivity.
  cbn [forallb snd plain]. rewrite !strs_plain. by destruct (ev_Approval ev).
Qed.

Lemma decode_event_marshal ev : ev_ranges ev → decode_event (marshal (event_tree ev)) = Some (coerce_event ev).
Proof.
  intros Hr. unfold decode_event. rewrite tokens_marshal by apply event_tree_numbers.
  rewrite coerced_event_tree. unfold event_tree.
  rewrite into_struct_obj; [|apply (event_tree_plain (coerce_event ev))|apply (event_tree_depth (coerce_event ev))].
  destruct (read_event (coerce_event ev)) as (d & Hd & Hev); [done|]. unfold fields_toks in Hd. rewrite Hd. cbn. by rewrite Hev.
Qed.

(** The type and the seq of a written line. *)

Definition head_names : list string := ["type"; "seq"].

Lemma decode_head_event ev : 0 <= ev_Seq ev < 2 ^ 64 →
  decode_head (marshal (event_tree ev)) = Some (coerce_utf8 (ev_Type ev), ev_Seq ev).
Proof.
  intros Hs. unfold decode_head.
  rewrite json_valid_marshal; [|apply event_tree_numbers|rewrite coerced_event_tree; apply event_tree_depth].
  rewrite tokens_marshal by apply event_tree_numbers. rewrite coerced_event_tree. unfold event_tree.
  rewrite into_struct_obj; [|apply (event_tree_plain (coerce_event ev))|apply (event_tree_depth (coerce_event ev))].
  change (map (λ kv, (fst kv, toks (snd kv))) ?l) with (fields_toks l). fold head_names.
  set (tail := drop 3 (event_fields (coerce_event ev))).
  change (event_fields (coerce_event ev)) with
    (("type", AStr (coerce_utf8 (ev_Type ev))) :: ("event_id", AStr (coerce_utf8 (EventID ev))) ::
     ("seq", ANum (itoa (ev_Seq ev))) :: tail).
  assert (Ht : forallb (λ kv : string * any, match field_of head_names (fst kv) with Some _ => false | None => true end) tail = true).
  { unfold tail, event_fields. cbn [app drop]. cbn [forallb fst].
    rewrite forallb_app, forallb_omit_empty by reflexivity. cbn [app forallb].
    rewrite forallb_app. destruct (ev_Approval (coerce_event ev)); cbn [app forallb];
      rewrite forallb_omit_empty by reflexivity; reflexivity. }
  cbn [fields_toks map fst snd toks into_fields].
  change (field_of head_names "type") with (Some "type"). change (field_of head_names "event_id") with (@None string).
  change (field_of head_names "seq") with (Some "seq").
  cbn [set_head String.eqb Ascii.eqb Bool.eqb into_string into_number fst snd].
  change (set_head "seq" ?h [TNum ?z]) with ((λ q, (fst h, q)) <$> parse_uint64 z).
  rewrite parse_uint64_itoa by done. by apply (into_fields_unknown head_names set_head _ tail).
Qed.

Definition fixed_checkpoint (cp : Checkpoint) : Prop :=
  fixed (cp_Type cp) ∧ fixed (cp_Hash cp) ∧ fixed (cp_Sig cp) ∧ 0 <= cp_Seq cp < 2 ^ 64.

Lemma checkpoint_tree_plain cp : plain (checkpoint_tree cp) = true.
Proof. unfold checkpoint_tree. cbn [plain]. by rewrite forallb_app, forallb_omit_empty. Qed.

Lemma tokens_checkpoint cp : fixed_checkpoint cp → tokens (marshal (checkpoint_tree cp)) = toks (checkpoint_tree cp).
Proof.
  intros (Ht & Hh & Hg & _). rewrite tokens_marshal by apply checkpoint_tree_numbers.
  rewrite coerced_checkpoint_tree, Ht, Hh, Hg. by destruct cp.
Qed.

Lemma decode_head_checkpoint cp : fixed_checkpoint cp →
  decode_head (marshal (checkpoint_tree cp)) = Some (cp_Type cp, cp_Seq cp).
Proof.
  intros Hf. unfold decode_head.
  rewrite json_valid_marshal; [|apply checkpoint_tree_numbers|rewrite coerced_checkpoint_tree; apply checkpoint_tree_depth].
  rewrite tokens_checkpoint by done. unfold checkpoint_tree.
  rewrite into_struct_obj; [|apply (checkpoint_tree_plain cp)|apply (checkpoint_tree_depth cp)].
  change (map (λ kv, (fst kv, toks (snd kv))) ?l) with (fields_toks l). fold head_names. cbn [app].
  set (tail := ("hash", AStr (cp_Hash cp)) :: omit_empty "sig" (cp_Sig cp)).
  assert (Ht : forallb (λ kv : string * any, match field_of head_names (fst kv) with Some _ => false | None => true end) tail = true).
  { unfold tail. cbn [forallb]. by rewrite forallb_omit_empty by reflexivity. }
  cbn [fields_toks map fst snd toks into_fields].
  change (field_of head_names "type") with (Some "type"). change (field_of head_names "seq") with (Some "seq").
  cbn [set_head String.eqb Ascii.eqb Bool.eqb into_string into_number fst snd].
  change (set_head "seq" ?h [TNum ?z]) with ((λ q, (fst h, q)) <$> parse_uint64 z).
  rewrite parse_uint64_itoa by apply Hf. by apply (into_fields_unknown head_names set_head _ tail).
Qed.

Abbreviation read_cp := (into_fields false checkpoint_names set_checkpoint).

Lemma read_cp_type t c es :
  read_cp c (("type", [TStr t]) :: es) =
  read_cp {| cp_Type := t; cp_Seq := cp_Seq c; cp_Hash := cp_Hash c; cp_Sig := cp_Sig c |} es.
Proof. reflexivity. Qed.

Lemma read_cp_seq q c es : 0 <= q < 2 ^ 64 →
  read_cp c (("seq", [TNum (itoa q)]) :: es) =
  read_cp {| cp_Type := cp_Type c; cp_Seq := q; cp_Hash := cp_Hash c; cp_Sig := cp_Sig c |} es.
Proof.
  intros Hq. change (read_cp c (("seq", [TNum (itoa q)]) :: es)) with
    (match (λ q, {| cp_Type := cp_Type c; cp_Seq := q; cp_Hash := cp_Hash c; cp_Sig := cp_Sig c |}) <$> parse_uint64 (itoa q)
     with Some c => read_cp c es | None => None end).
  by rewrite parse_uint64_itoa.
Qed.

Lemma decode_checkpoint_marshal cp : fixed_checkpoint cp → decode_checkpoint (marshal (checkpoint_tree cp)) = Some cp.
Proof.
  intros Hf. unfold decode_checkpoint. rewrite tokens_checkpoint by done. unfold checkpoint_tree.
  rewrite into_struct_obj; [|apply (checkpoint_tree_plain cp)|apply (checkpoint_tree_depth cp)].
  destruct Hf as (_ & _ & _ & Hs). destruct cp as [t q h g]. cbn [cp_Type cp_Seq cp_Hash cp_Sig] in *.
  cbn [app map fst snd toks]. rewrite read_cp_type, read_cp_seq by done.
  unfold omit_empty. by destruct (String.eqb_spec g "") as [->|Hg].
Qed.

(** ** The length of a checkpoint line *)

Lemma checkpoint_line_length cp : 0 <= cp_Seq cp < 2 ^ 64 →
  (String.length (marshal (checkpoint_tree cp)) <=
   6 * String.length (cp_Type cp) + 6 * String.length (cp_Hash cp) + 6 * String.length (cp_Sig cp) + 70)%nat.
Proof.
  intros Hs. pose proof (itoa_length _ Hs). pose proof (html_string_length (cp_Type cp)).
  pose proof (html_string_length (cp_Hash cp)). pose proof (html_string_length (cp_Sig cp)).
  unfold checkpoint_tree, omit_empty. destruct (String.eqb (cp_Sig cp) ""); cbn [app marshal map join fst snd];
    rewrite !length_app_str.
  all: change (String.length (html_string "type")) with 6%nat; change (String.length (html_string "seq")) with 5%nat;
    change (String.length (html_string "hash")) with 6%nat; try change (String.length (html_string "sig")) with 5%nat;
    cbn [String.length]; lia.
Qed.

(** A checkpoint signed for a hash in ASCII is written and read unchanged. *)
Lemma SignCheckpoint_fixed `{Ed25519} priv seq hash cp :
  SignCheckpoint priv seq hash = Some cp → fixed hash → 0 <= seq < 2 ^ 64 →
  fixed_checkpoint cp ∧ cp_Type cp = TypeCheckpoint ∧ cp_Seq cp = seq ∧ cp_Hash cp = hash.
Proof.
  unfold SignCheckpoint. destruct (checkpointMessage seq hash) as [msg|]; [|done]. intros [= <-] Hh Hs.
  split; [|done]. split; [done|]. split; [done|]. split; [|done]. by apply valid_fixed, ascii_valid_utf8, base64_encode_ascii.
Qed.

(** A signed checkpoint verifies with the public key. *)
Lemma VerifyCheckpoint_Sign `{E : Ed25519} `{!Ed25519Laws E} priv seq hash cp :
  SignCheckpoint priv seq hash = Some cp → VerifyCheckpoint (ed_public priv) cp = None.
Proof.
  unfold SignCheckpoint, VerifyCheckpoint. destruct (checkpointMessage seq hash) as [msg|] eqn:Em; [|done].
  intros [= <-]. cbn [cp_Sig cp_Seq cp_Hash]. rewrite base64_decode_encode, Em, ed_verify_sign.
  destruct (String.eqb_spec (base64_encode (ed_sign priv msg)) "") as [E0|]; [|done].
  pose proof (ed_sign_length priv msg) as Hl. by destruct (ed_sign priv msg) as [|a [|b [|c s] ] ].
Qed.

(** ** The hash of what is read back *)

Lemma coerce_strs_idemp l : coerce_strs (coerce_strs l) = coerce_strs l.
Proof.
  destruct l as [l|]; [|done]. unfold coerce_strs. cbn. f_equal. rewrite map_map. apply map_ext. intros s. apply coerce_utf8_idemp.
Qed.

Lemma coerce_event_idemp ev : coerce_event (coerce_event ev) = coerce_event ev.
Proof.
  unfold coerce_event. cbn. rewrite !coerce_utf8_idemp, !coerce_strs_idemp. f_equal.
  destruct (ev_Approval ev) as [ [] |]; [|done]. cbn. unfold coerce_approval. cbn. by rewrite !coerce_utf8_idemp.
Qed.

Lemma Canonical_coerce_event ev : Canonical (event_tree (coerce_event ev)) = Canonical (event_tree ev).
Proof.
  apply Canonical_coerced; try apply event_tree_numbers; rewrite !coerced_event_tree; try apply event_tree_depth.
  by rewrite coerce_event_idemp.
Qed.

(** An event and the hash it was given, as read back, hash the same. *)
Lemma HashEvent_coerce ev prev h f :
  fixed prev → ev_Type ev = TypeEvent → HashEvent ev prev = Some (f, h) →
  HashEvent (coerce_event (with_Hash f h)) prev = Some (coerce_event f, h).
Proof.
  intros Hp Ht. unfold HashEvent. destruct (Canonical (event_tree (with_PrevHash ev prev))) as [c|] eqn:Ec; [|done].
  intros [= <- <-].
  assert (E : with_PrevHash (coerce_event (with_Hash (with_PrevHash ev prev) (hex_encode (sha256 (c ++ prev))))) prev =
              coerce_event (with_PrevHash ev prev)).
  { unfold coerce_event, with_PrevHash, with_Hash. cbn. rewrite Ht. cbn. rewrite Hp. done. }
  rewrite E, Canonical_coerce_event, Ec. done.
Qed.
