(* ===== verification/AuditLog.v ===== *)
(** * The audit log: internal/audit/verify.go and writer.go

    The file as a byte string; the verifier as a fold over its lines; the
    writer as a state with the file, the last sequence number and the last
    hash.  Theorems: a file the verifier accepts is a hash chain, two accepted
    files with one last hash hold the same events unless SHA-256 collides, and
    what [Append] writes is accepted again. *)

From S2P Require Import Prelude GoStd GoCrypto Json JsonMarshal JsonStruct AuditEvent.

Open Scope string_scope.
Open Scope Z_scope.
Open Scope list_scope.

(** ** The report *)

Inductive problem :=
  | NotJSON | BadCheckpoint
  | CheckpointSeq (got at_seq : Z) | CheckpointHash (got at_hash : string) | CheckpointSig (e : checkpoint_error)
  | BadEvent | WrongSeq (got want : Z) | WrongPrevHash (got want : string)
  | CannotHash | WrongHash (got want : string) | UnknownType (t : string).

(** [Problem] is the line number and the problem. *)
Record Report := {
  Events : Z; Checkpoints : Z; LastSeq : Z; LastHash : string;
  OK : bool; BrokenSeq : Z; Problem : option (Z * problem); SignaturesChecked : bool;
}.

Definition new_report (pub : option string) : Report :=
  {| Events := 0; Checkpoints := 0; LastSeq := 0; LastHash := GenesisHash; OK := true; BrokenSeq := 0;
     Problem := None; SignaturesChecked := match pub with Some _ => true | None => false end |}.

Definition with_BrokenSeq (r : Report) (q : Z) : Report :=
  {| Events := Events r; Checkpoints := Checkpoints r; LastSeq := LastSeq r; LastHash := LastHash r;
     OK := OK r; BrokenSeq := q; Problem := Problem r; SignaturesChecked := SignaturesChecked r |}.

Definition with_checkpoint (r : Report) : Report :=
  {| Events := Events r; Checkpoints := Checkpoints r + 1; LastSeq := LastSeq r; LastHash := LastHash r;
     OK := OK r; BrokenSeq := 0; Problem := Problem r; SignaturesChecked := SignaturesChecked r |}.

Definition with_event (r : Report) (seq : Z) (hash : string) : Report :=
  {| Events := Events r + 1; Checkpoints := Checkpoints r; LastSeq := seq; LastHash := hash;
     OK := OK r; BrokenSeq := 0; Problem := Problem r; SignaturesChecked := SignaturesChecked r |}.

Definition with_problem (r : Report) (line : Z) (p : problem) : Report :=
  {| Events := Events r; Checkpoints := Checkpoints r; LastSeq := LastSeq r; LastHash := LastHash r;
     OK := false; BrokenSeq := BrokenSeq r; Problem := Some (line, p); SignaturesChecked := SignaturesChecked r |}.

(** [x + 1] on a uint64. *)
Definition succ64 (x : Z) : Z := (x + 1) mod 2 ^ 64.

Definition short (h : string) : string :=
  if 12 <? slen h then (s_take 12 h ++ "…")%string else if String.eqb h "" then "(empty)" else h.

Section Verify.
Context `{Ed25519} (pub : option string).

(** The checkpoint's signature, when there is a key. *)
Definition check_signature (cp : Checkpoint) : option checkpoint_error :=
  match pub with Some k => VerifyCheckpoint k cp | None => None end.

Definition verify_checkpoint_line (rep : Report) (seq : Z) (line : string) : Report * option problem :=
  match decode_checkpoint line with
  | None => (with_BrokenSeq rep seq, Some BadCheckpoint)
  | Some cp =>
      let rep' := with_BrokenSeq rep (cp_Seq cp) in
      if negb (cp_Seq cp =? LastSeq rep) then (rep', Some (CheckpointSeq (cp_Seq cp) (LastSeq rep)))
      else if negb (String.eqb (cp_Hash cp) (LastHash rep))
      then (rep', Some (CheckpointHash (short (cp_Hash cp)) (short (LastHash rep))))
      else match check_signature cp with
           | Some e => (rep', Some (CheckpointSig e))
           | None => (with_checkpoint rep', None)
           end
  end.

Definition verify_event_line (rep : Report) (seq : Z) (line : string) : Report * option problem :=
  match decode_event line with
  | None => (with_BrokenSeq rep seq, Some BadEvent)
  | Some ev =>
      let rep' := with_BrokenSeq rep (ev_Seq ev) in
      if negb (ev_Seq ev =? succ64 (LastSeq rep)) then (rep', Some (WrongSeq (ev_Seq ev) (succ64 (LastSeq rep))))
      else if negb (String.eqb (PrevHash ev) (LastHash rep))
      then (rep', Some (WrongPrevHash (short (PrevHash ev)) (short (LastHash rep))))
      else match HashEvent ev (LastHash rep) with
           | None => (rep', Some CannotHash)
           | Some (_, want) =>
               if negb (String.eqb (ev_Hash ev) want)
               then (rep', Some (WrongHash (short (ev_Hash ev)) (short want)))
               else (with_event rep' (ev_Seq ev) (ev_Hash ev), None)
           end
  end.

Definition event_type (t : string) : bool := mem t [TypeEvent; "event"; ""].

Definition verifyLine (rep : Report) (line : string) : Report * option problem :=
  match decode_head line with
  | None => (with_BrokenSeq rep (succ64 (LastSeq rep)), Some NotJSON)
  | Some (t, seq) =>
      if String.eqb t TypeCheckpoint then verify_checkpoint_line rep seq line
      else if event_type t then verify_event_line rep seq line
      else (with_BrokenSeq rep (succ64 (LastSeq rep)), Some (UnknownType t))
  end.

(** bufio.Scanner with ScanLines: what is between newlines, a last piece that
    is empty left out, a trailing carriage return dropped. *)
Definition newline : ascii := "010"%char.

Fixpoint drop_cr (s : string) : string :=
  match s with
  | EmptyString => EmptyString
  | String c EmptyString => if bz c =? 13 then EmptyString else s
  | String c s => String c (drop_cr s)
  end.

Fixpoint drop_last_empty (l : list string) : list string :=
  match l with
  | [] => []
  | [x] => if String.eqb x "" then [] else [x]
  | x :: l => x :: drop_last_empty l
  end.

Definition scan_lines (content : string) : list string := drop_last_empty (split_b newline content).

(** A line that fills the buffer is an error. *)
Definition maxLine : Z := 16 * 1024 * 1024.

(** The loop; the flag is a read error. *)
Fixpoint verify_lines (lineNo : Z) (rep : Report) (ls : list string) : Report * bool :=
  match ls with
  | [] => (rep, false)
  | raw :: ls =>
      if maxLine <=? slen raw then (rep, true)
      else
        let line := trim_space (drop_cr raw) in
        if String.eqb line "" then verify_lines (lineNo + 1) rep ls
        else match verifyLine rep line with
             | (rep, Some p) => (with_problem rep lineNo p, false)
             | (rep, None) => verify_lines (lineNo + 1) rep ls
             end
  end.

Definition VerifyReader (content : string) : Report * bool :=
  verify_lines 1 (new_report pub) (scan_lines content).
End Verify.

(** Opening the file. *)
Inductive file := Missing | Unreadable | Holds (content : string).

Inductive verified := Verified (r : Report) | OpenFailed | ReadFailed (r : Report).

Definition verifyFile `{Ed25519} (f : file) (pub : option string) (missingOK : bool) : verified :=
  match f with
  | Missing => if missingOK then Verified (new_report pub) else OpenFailed
  | Unreadable => OpenFailed
  | Holds c => match VerifyReader pub c with (r, false) => Verified r | (r, true) => ReadFailed r end
  end.

Definition Verify `{Ed25519} (f : file) : verified := verifyFile f None true.
Definition VerifyWithKey `{Ed25519} (f : file) (pub : string) : verified := verifyFile f (Some pub) true.

(** ** The writer *)

(** [Key] [None] is a nil key. *)
Record Options := { CheckpointEvery : Z; Key : option string }.

Record Writer := { w_file : string; w_opts : Options; lastSeq : Z; lastHash : string }.

Inductive open_error := NeedsKey | LogNotOpened | LogUnreadable | ChainBroken (seq : Z) (p : option (Z * problem)) | NotRestricted.

(** [resumeLog] on the content read through the handle; [restricted] says
    whether the file could be restricted to its owner. *)
Definition resumeLog `{Ed25519} (content : string) (created restricted : bool) (opts : Options) : result open_error Writer :=
  let '(rep, read_error) := VerifyReader None content in
  if read_error then Err LogUnreadable
  else if negb (OK rep) then Err (ChainBroken (BrokenSeq rep) (Problem rep))
  else if negb created && negb restricted then Err NotRestricted
  else Ok {| w_file := content; w_opts := opts; lastSeq := LastSeq rep; lastHash := LastHash rep |}.

(** [opened]: the content and whether the file is new, [None] when [openLog]
    refused it. *)
Definition NewWriter `{Ed25519} (opts : Options) (opened : option (string * bool)) (restricted : bool) : result open_error Writer :=
  if (0 <? CheckpointEvery opts) && match Key opts with None => true | Some _ => false end then Err NeedsKey
  else match opened with
       | None => Err LogNotOpened
       | Some (content, created) => resumeLog content created restricted opts
       end.

(** A write: all of it, or an error after the first [n] bytes. *)
Inductive wrote := Whole | Part (n : nat).

Definition write (w : Writer) (text : string) (o : wrote) : Writer * bool :=
  let put t := {| w_file := (w_file w ++ t)%string; w_opts := w_opts w; lastSeq := lastSeq w; lastHash := lastHash w |} in
  match o with Whole => (put text, true) | Part n => (put (s_take n text), false) end.

Definition advance (w : Writer) (ev : Event) : Writer :=
  {| w_file := w_file w; w_opts := w_opts w; lastSeq := ev_Seq ev; lastHash := ev_Hash ev |}.

(** Nil slices become empty ones. *)
Definition non_nil (l : option (list string)) : option (list string) := Some (default [] l).

(** The fields Append sets before it hashes. *)
Definition prepare (ev : Event) (seq : Z) (ts id : string) : Event :=
  {| ev_Type := TypeEvent; EventID := id; ev_Seq := seq; TS := ts;
     ev_Principal := ev_Principal ev; ev_SessionID := ev_SessionID ev; ev_Server := ev_Server ev; ev_Tool := ev_Tool ev;
     ev_Class := ev_Class ev; ArgsSHA256 := ArgsSHA256 ev; ev_Targets := non_nil (ev_Targets ev); Roles := non_nil (Roles ev);
     ev_Decision := ev_Decision ev; ev_RuleID := ev_RuleID ev; ev_Reason := ev_Reason ev;
     ev_Obligations := non_nil (ev_Obligations ev); ev_Approval := ev_Approval ev; Status := Status ev;
     DurationMS := DurationMS ev; Redactions := Redactions ev; PrevHash := PrevHash ev; ev_Hash := ev_Hash ev |}.

Inductive append_error := NoRandom | HashFailed | WriteFailed | SignFailed | CheckpointWriteFailed | NoKeyPanic.

Section Append.
Context `{Ed25519}.

(** A checkpoint is due after the event with number [seq]. *)
Definition due (every seq : Z) : bool := (0 <? every) && (seq mod every =? 0).

Definition append_checkpoint (w : Writer) (o : wrote) : Writer * option append_error :=
  match Key (w_opts w) with
  | None => (w, Some NoKeyPanic)
  | Some k =>
      match SignCheckpoint k (lastSeq w) (lastHash w) with
      | None => (w, Some SignFailed)
      | Some cp =>
          match write w (marshal (checkpoint_tree cp) ++ String newline "")%string o with
          | (w, true) => (w, None)
          | (w, false) => (w, Some CheckpointWriteFailed)
          end
      end
  end.

(** [Append]: the clock's time, the random identifier ([None] when the random
    source fails) and what the two writes do.  The writer, the event as it is
    left, and the error. *)
Definition Append (w : Writer) (ev : Event) (now : string) (random : option string) (o1 o2 : wrote)
    : Writer * Event * option append_error :=
  let seq := succ64 (lastSeq w) in
  let ts := if String.eqb (TS ev) "" then now else TS ev in
  match (if String.eqb (EventID ev) "" then random else Some (EventID ev)) with
  | None =>
      (w, {| ev_Type := TypeEvent; EventID := EventID ev; ev_Seq := seq; TS := ts;
             ev_Principal := ev_Principal ev; ev_SessionID := ev_SessionID ev; ev_Server := ev_Server ev;
             ev_Tool := ev_Tool ev; ev_Class := ev_Class ev; ArgsSHA256 := ArgsSHA256 ev;
             ev_Targets := ev_Targets ev; Roles := Roles ev; ev_Decision := ev_Decision ev; ev_RuleID := ev_RuleID ev;
             ev_Reason := ev_Reason ev; ev_Obligations := ev_Obligations ev; ev_Approval := ev_Approval ev;
             Status := Status ev; DurationMS := DurationMS ev; Redactions := Redactions ev;
             PrevHash := PrevHash ev; ev_Hash := ev_Hash ev |}, Some NoRandom)
  | Some id =>
      let ev := prepare ev seq ts id in
      match HashEvent ev (lastHash w) with
      | None => (w, with_PrevHash ev (lastHash w), Some HashFailed)
      | Some (ev, hash) =>
          let ev := with_Hash ev hash in
          match write w (marshal (event_tree ev) ++ String newline "")%string o1 with
          | (w, false) => (w, ev, Some WriteFailed)
          | (w, true) =>
              let w := advance w ev in
              if due (CheckpointEvery (w_opts w)) (ev_Seq ev)
              then match append_checkpoint w o2 with (w, e) => (w, ev, e) end
              else (w, ev, None)
          end
      end
  end.
End Append.

Definition Writer_Seq (w : Writer) : Z := lastSeq w.
Definition Writer_Hash (w : Writer) : string := lastHash w.

(** ** What an accepted line says *)

(** The event a line holds, when it is not a checkpoint. *)
Definition line_event (raw : string) : option Event :=
  let line := trim_space (drop_cr raw) in
  match decode_head line with
  | Some (t, _) => if event_type t then decode_event line else None
  | None => None
  end.

(** The events of a log, in order. *)
Definition log_events (content : string) : list Event := omap line_event (scan_lines content).

(** The relation the hash chain is: the last number and hash after the events. *)
Inductive chain : list Event → Z → string → Prop :=
  | chain_nil : chain [] 0 GenesisHash
  | chain_snoc evs seq h ev f :
      chain evs seq h → coerce_event ev = ev →
      ev_Seq ev = succ64 seq → PrevHash ev = h → HashEvent ev h = Some (f, ev_Hash ev) →
      chain (evs ++ [ev]) (ev_Seq ev) (ev_Hash ev).

Section VerifyFacts.
Context `{Ed25519} (pub : option string).

Lemma verify_checkpoint_line_ok rep seq line rep' :
  verify_checkpoint_line pub rep seq line = (rep', None) →
  LastSeq rep' = LastSeq rep ∧ LastHash rep' = LastHash rep ∧ OK rep' = OK rep ∧
  Events rep' = Events rep ∧ Checkpoints rep' = Checkpoints rep + 1.
Proof.
  unfold verify_checkpoint_line. intros Hv. destruct (decode_checkpoint line) as [cp|]; [|done].
  destruct (negb (cp_Seq cp =? LastSeq rep)); [done|]. destruct (negb (String.eqb _ _)); [done|].
  destruct (check_signature pub cp); [done|]. by injection Hv as <-.
Qed.

Lemma verify_event_line_ok rep seq line rep' :
  verify_event_line rep seq line = (rep', None) →
  ∃ ev f, decode_event line = Some ev ∧ ev_Seq ev = succ64 (LastSeq rep) ∧ PrevHash ev = LastHash rep ∧
    HashEvent ev (LastHash rep) = Some (f, ev_Hash ev) ∧
    LastSeq rep' = ev_Seq ev ∧ LastHash rep' = ev_Hash ev ∧ OK rep' = OK rep ∧
    Events rep' = Events rep + 1 ∧ Checkpoints rep' = Checkpoints rep.
Proof.
  unfold verify_event_line. intros Hv. destruct (decode_event line) as [ev|]; [|done].
  destruct (Z.eqb_spec (ev_Seq ev) (succ64 (LastSeq rep))); [|done]. cbn [negb] in Hv.
  destruct (String.eqb_spec (PrevHash ev) (LastHash rep)); [|done]. cbn [negb] in Hv.
  destruct (HashEvent ev (LastHash rep)) as [ [f want]|] eqn:Eh; [|done].
  destruct (String.eqb_spec (ev_Hash ev) want); [|done]. cbn [negb] in Hv. injection Hv as <-. subst. by eexists ev, f.
Qed.

Lemma checkpoint_not_event t : String.eqb t TypeCheckpoint = true → event_type t = false.
Proof. by intros ->%String.eqb_eq. Qed.

(** An accepted line either advances the chain by its event or leaves it. *)
Lemma verifyLine_ok rep line rep' evs :
  verifyLine pub rep line = (rep', None) →
  chain evs (LastSeq rep) (LastHash rep) →
  OK rep' = OK rep ∧
  chain (evs ++ match match decode_head line with
                      | Some (t, _) => if event_type t then decode_event line else None | None => None end
                with Some ev => [ev] | None => [] end) (LastSeq rep') (LastHash rep').
Proof.
  unfold verifyLine. intros Hv Hc. destruct (decode_head line) as [ [t seq]|]; [|done].
  destruct (String.eqb t TypeCheckpoint) eqn:Ht.
  - rewrite (checkpoint_not_event t Ht), app_nil_r.
    apply verify_checkpoint_line_ok in Hv as (-> & -> & -> & _). done.
  - destruct (event_type t); [|done].
    apply verify_event_line_ok in Hv as (ev & f & Hd & Hs & Hp & Hh & -> & -> & -> & _). rewrite Hd.
    split; [done|]. eapply chain_snoc; [exact Hc|by eapply decode_event_fixed|done|done|done].
Qed.

Lemma decode_head_empty : decode_head "" = None.
Proof. reflexivity. Qed.

Lemma verify_lines_chain lineNo rep ls rep' evs :
  verify_lines pub lineNo rep ls = (rep', false) → OK rep' = true →
  chain evs (LastSeq rep) (LastHash rep) →
  chain (evs ++ omap line_event ls) (LastSeq rep') (LastHash rep').
Proof.
  revert lineNo rep evs. induction ls as [|raw ls IH]; intros n rep evs; cbn [verify_lines omap list_omap].
  { intros [= <-] _ Hc. by rewrite app_nil_r. }
  destruct (maxLine <=? slen raw); [done|]. change (omap line_event) with (list_omap _ _ line_event).
  unfold line_event at 1. set (line := trim_space (drop_cr raw)).
  destruct (String.eqb_spec line "") as [->|Hne].
  - rewrite decode_head_empty. apply IH.
  - destruct (verifyLine pub rep line) as [rep1 [p|] ] eqn:Ev; [by intros [= <-]|]. intros Hrest Hok Hc.
    destruct (verifyLine_ok _ _ _ _ Ev Hc) as [_ Hc1]. specialize (IH _ _ _ Hrest Hok Hc1).
    destruct (match decode_head line with Some (t, _) => if event_type t then decode_event line else None | None => None end);
      [by rewrite <- app_assoc in IH|by rewrite app_nil_r in IH].
Qed.

(** The events of an accepted log are a chain that ends in the report's
    number and hash. *)
Lemma VerifyReader_chain content rep :
  VerifyReader pub content = (rep, false) → OK rep = true →
  chain (log_events content) (LastSeq rep) (LastHash rep).
Proof. intros Hv Hok. apply (verify_lines_chain 1 (new_report pub) (scan_lines content) rep []); [done..|]. constructor. Qed.
End VerifyFacts.

(** ** The hash of a chain *)

Lemma hex_encode_ascii s : is_ascii (hex_encode s) = true.
Proof.
  induction s as [|c s IH]; [done|]. cbn [hex_encode]. unfold is_ascii in *. rewrite s_all_app, IH.
  by rewrite (hex_n_ascii 2 (bz c) : s_all _ _ = true).
Qed.

Lemma HashEvent_shape ev p f h : HashEvent ev p = Some (f, h) → String.length h = 64%nat ∧ fixed h ∧ ∃ x, h = hex_encode (sha256 x).
Proof.
  unfold HashEvent. destruct (Canonical _) as [c|]; [|done]. intros [= _ <-].
  split; [by rewrite hex_encode_length, sha256_length|]. split; [|eauto]. by apply valid_fixed, ascii_valid_utf8, hex_encode_ascii.
Qed.

Lemma chain_shape evs seq h : chain evs seq h → String.length h = 64%nat ∧ fixed h.
Proof. destruct 1 as [|evs seq h ev f _ _ _ _ Hh]; [done|]. by destruct (HashEvent_shape _ _ _ _ Hh) as (? & ? & _). Qed.

(** A missing type is hashed as a call. *)
Definition typed (ev : Event) : Event := with_Hash (with_PrevHash ev (PrevHash ev)) (ev_Hash ev).

(** Some text hashes to 64 zeros. *)
Definition zero_preimage : Prop := ∃ x, hex_encode (sha256 x) = GenesisHash.

Lemma chain_binds l1 s1 l2 s2 h :
  chain l1 s1 h → chain l2 s2 h → map typed l1 = map typed l2 ∨ collision ∨ zero_preimage.
Proof.
  intros H1. revert l2 s2. induction H1 as [|l1 s1 h1 e1 f1 Hc1 IH Hu1 Hs1 Hp1 Hh1]; intros l2 s2 H2.
  - inversion H2 as [E1 E2 E3|l s h2 e2 f2 Hc2 Hu2 Hs2 Hp2 Hh2 E1 E2 E3]; [by left|right; right].
    destruct (HashEvent_shape _ _ _ _ Hh2) as (_ & _ & x & Hx). exists x. by rewrite <- Hx.
  - inversion H2 as [E1 E2 E3|l s h2 e2 f2 Hc2 Hu2 Hs2 Hp2 Hh2 E1 E2 E3].
    { right. right. destruct (HashEvent_shape _ _ _ _ Hh1) as (_ & _ & x & Hx). exists x. by rewrite <- Hx. }
    rewrite E3 in Hh2. destruct (chain_shape _ _ _ Hc1) as [Hl1 Hf1]. destruct (chain_shape _ _ _ Hc2) as [Hl2 Hf2].
    destruct (HashEvent_binds e1 h1 f1 e2 h2 f2 (ev_Hash e1)) as [E|Hcol]; try done; [congruence| |by right; left].
    assert (Ep : h1 = h2) by (by apply (f_equal PrevHash) in E).
    destruct (IH l s ltac:(by rewrite <- Ep in Hc2)) as [Hmap|Hbad]; [left|by right].
    rewrite !map_app, Hmap. cbn [map]. unfold typed. by rewrite Hp1, Hp2, E, E3.
Qed.


(** ** Lines *)

Lemma drop_last_empty_snoc l : drop_last_empty (l ++ [""]) = l.
Proof.
  induction l as [|x l IH]; [done|]. cbn [app]. destruct (l ++ [""]) as [|y k] eqn:E; [by destruct l|].
  change (drop_last_empty (x :: y :: k)) with (x :: drop_last_empty (y :: k)). by rewrite IH.
Qed.

(** The file is empty or ends with a newline. *)
Definition terminated (c : string) : Prop := c = EmptyString ∨ ∃ c', c = (c' ++ String newline "")%string.

Lemma scan_lines_append c line :
  terminated c → contains_b newline line = false →
  scan_lines (c ++ line ++ String newline "")%string = scan_lines c ++ [line].
Proof.
  intros [->|(c' & ->)] Hl; unfold scan_lines.
  - cbn [String.append]. rewrite split_b_app_sep, (split_b_none _ line) by done. done.
  - rewrite <- app_assoc_str. change (String newline "" ++ ?x)%string with (String newline x).
    rewrite !split_b_app_sep, (split_b_none _ line) by done. cbn [split_b].
    by rewrite app_assoc, !drop_last_empty_snoc.
Qed.

Lemma terminated_append c line : terminated (c ++ line ++ String newline "")%string.
Proof. right. exists (c ++ line)%string. by rewrite app_assoc_str. Qed.

Lemma clean_no_newline s : clean s = true → contains_b newline s = false.
Proof.
  intros [_ Hs]%andb_prop. apply contains_b_all. eapply s_all_impl; [|exact Hs]. intros c Hc.
  destruct (Ascii.eqb_spec newline c) as [<-|]; [done|done].
Qed.

Lemma clean_drop_cr s : clean s = true → drop_cr s = s.
Proof.
  intros [_ Hs]%andb_prop. induction s as [|c s IH]; [done|]. cbn [s_all] in Hs. apply andb_prop in Hs as [Hc Hs].
  destruct s as [|d s]; [|change (drop_cr (String c (String d s))) with (String c (drop_cr (String d s))); by rewrite IH].
  cbn. destruct (Z.eqb_spec (bz c) 13) as [E|]; [|done]. rewrite E in Hc. done.
Qed.

(** What the verifier gets from a marshalled line. *)
Lemma marshal_line l : numbers_ok (AObj l) = true →
  contains_b newline (marshal (AObj l)) = false ∧ trim_space (drop_cr (marshal (AObj l))) = marshal (AObj l) ∧
  String.eqb (marshal (AObj l)) "" = false.
Proof.
  intros Hn. pose proof (marshal_clean _ Hn) as Hc. split; [by apply clean_no_newline|].
  split; [by rewrite clean_drop_cr, trim_marshal_object|done].
Qed.

(** ** The loop over appended lines *)

Section AppendFacts.
Context `{Ed25519} (pub : option string).

Lemma verifyLine_OK rep line rep' : verifyLine pub rep line = (rep', None) → OK rep' = OK rep.
Proof.
  unfold verifyLine. intros Hv. destruct (decode_head line) as [ [t seq]|]; [|done].
  destruct (String.eqb t TypeCheckpoint); [by apply verify_checkpoint_line_ok in Hv as (_ & _ & ? & _)|].
  destruct (event_type t); [|done]. by apply verify_event_line_ok in Hv as (ev & f & _ & _ & _ & _ & _ & _ & ? & _).
Qed.

Lemma verify_lines_app n rep l1 l2 rep' :
  verify_lines pub n rep l1 = (rep', false) → OK rep' = true →
  verify_lines pub n rep (l1 ++ l2) = verify_lines pub (n + Z.of_nat (List.length l1)) rep' l2.
Proof.
  revert n rep. induction l1 as [|raw l1 IH]; intros n rep; cbn [verify_lines app List.length].
  { intros [= ->] _. by rewrite Z.add_0_r. }
  replace (n + Z.of_nat (S (List.length l1))) with (n + 1 + Z.of_nat (List.length l1)) by lia.
  destruct (maxLine <=? slen raw); [done|]. destruct (String.eqb _ ""); [apply IH|].
  destruct (verifyLine pub rep _) as [rep1 [p|] ]; [by intros [= <-]|apply IH].
Qed.

(** A file that verifies, with one more line. *)
Lemma VerifyReader_append c rep l rep' :
  VerifyReader pub c = (rep, false) → OK rep = true → terminated c →
  numbers_ok (AObj l) = true → slen (marshal (AObj l)) < maxLine →
  verifyLine pub rep (marshal (AObj l)) = (rep', None) →
  VerifyReader pub (c ++ marshal (AObj l) ++ String newline "")%string = (rep', false) ∧ OK rep' = true.
Proof.
  intros Hc Hok Ht Hn Hlen Hv. destruct (marshal_line l Hn) as (Hnl & Htrim & Hne).
  split; [|by rewrite (verifyLine_OK _ _ _ Hv)]. unfold VerifyReader.
  rewrite scan_lines_append by done. rewrite (verify_lines_app _ _ _ _ _ Hc Hok). cbn [verify_lines].
  rewrite (proj2 (Z.leb_gt _ _) Hlen), Htrim, Hne, Hv. done.
Qed.

Lemma log_events_append c l : terminated c → numbers_ok (AObj l) = true →
  log_events (c ++ marshal (AObj l) ++ String newline "")%string =
  log_events c ++ match match decode_head (marshal (AObj l)) with
                        | Some (t, _) => if event_type t then decode_event (marshal (AObj l)) else None
                        | None => None end with Some ev => [ev] | None => [] end.
Proof.
  intros Ht Hn. destruct (marshal_line l Hn) as (Hnl & Htrim & Hne). unfold log_events.
  rewrite scan_lines_append, omap_app by done. f_equal. cbn [omap list_omap]. unfold line_event. by rewrite Htrim.
Qed.
End AppendFacts.

(** ** What Append writes is accepted *)

Section Appended.
Context `{E : Ed25519} `{!Ed25519Laws E} (pub : option string).

(** The file is whole lines that verify, and the writer is at their end. *)
Definition log_ok (w : Writer) : Prop :=
  terminated (w_file w) ∧
  ∃ rep, VerifyReader pub (w_file w) = (rep, false) ∧ OK rep = true ∧ LastSeq rep = lastSeq w ∧ LastHash rep = lastHash w.

(** Checkpoints are signed, and checked with that key if with any. *)
Definition key_ok (o : Options) : Prop :=
  CheckpointEvery o <= 0 ∨ ∃ k, Key o = Some k ∧ (pub = None ∨ pub = Some (ed_public k)).

Definition payload_ok (ev : Event) : Prop :=
  - 2 ^ 63 <= DurationMS ev < 2 ^ 63 ∧ - 2 ^ 63 <= Redactions ev < 2 ^ 63.

Definition written (w : Writer) (ev : Event) (ts id h : string) : Event :=
  with_Hash (with_PrevHash (prepare ev (succ64 (lastSeq w)) ts id) (lastHash w)) h.

Lemma log_ok_chain w : log_ok w → ∃ evs, chain evs (lastSeq w) (lastHash w).
Proof. intros (_ & rep & Hv & Hok & <- & <-). eexists. by eapply VerifyReader_chain. Qed.

(** The verifier accepts the line of a written event. *)
Lemma verifyLine_written w rep ev ts id h f :
  LastSeq rep = lastSeq w → LastHash rep = lastHash w → fixed (lastHash w) →
  payload_ok ev → 0 <= lastSeq w → lastSeq w + 1 < 2 ^ 64 →
  HashEvent (prepare ev (succ64 (lastSeq w)) ts id) (lastHash w) = Some (f, h) →
  let e := written w ev ts id h in
  decode_head (marshal (event_tree e)) = Some (TypeEvent, ev_Seq e) ∧
  decode_event (marshal (event_tree e)) = Some (coerce_event e) ∧
  ∃ rep', verifyLine pub rep (marshal (event_tree e)) = (rep', None) ∧ LastSeq rep' = ev_Seq e ∧ LastHash rep' = h.
Proof.
  intros Hs Hh Hf [Hd Hr] Hlo Hhi Hhash e.
  assert (Hseq : succ64 (lastSeq w) = lastSeq w + 1) by (unfold succ64; by rewrite Z.mod_small by lia).
  destruct (HashEvent_shape _ _ _ _ Hhash) as (_ & Hfh & _).
  assert (Hde : decode_event (marshal (event_tree e)) = Some (coerce_event e)).
  { apply decode_event_marshal. split; [cbn; rewrite Hseq; lia|]. by split. }
  assert (Hdh : decode_head (marshal (event_tree e)) = Some (TypeEvent, ev_Seq e)).
  { rewrite decode_head_event; [done|]. cbn. rewrite Hseq. lia. }
  split; [done|]. split; [done|]. unfold verifyLine. rewrite Hdh.
  change (String.eqb TypeEvent TypeCheckpoint) with false. change (event_type TypeEvent) with true. cbv iota.
  unfold verify_event_line. rewrite Hde, Hs, Hh. change (ev_Seq (coerce_event e)) with (succ64 (lastSeq w)).
  rewrite Z.eqb_refl. change (PrevHash (coerce_event e)) with (coerce_utf8 (lastHash w)). rewrite Hf, String.eqb_refl.
  assert (Hee : f = with_PrevHash (prepare ev (succ64 (lastSeq w)) ts id) (lastHash w)).
  { destruct (HashEvent_total (prepare ev (succ64 (lastSeq w)) ts id) (lastHash w)) as [h' E'].
    rewrite Hhash in E'. congruence. }
  pose proof (HashEvent_coerce (prepare ev (succ64 (lastSeq w)) ts id) _ _ _ Hf eq_refl Hhash) as Hce. rewrite Hee in Hce.
  change (with_Hash (with_PrevHash _ _) h) with e in Hce. rewrite Hce.
  change (ev_Hash (coerce_event e)) with (coerce_utf8 h). rewrite Hfh, String.eqb_refl. cbn [negb].
  eexists. split; [reflexivity|]. done.
Qed.

(** The verifier accepts the line of the checkpoint. *)
Lemma verifyLine_checkpoint k rep cp :
  pub = None ∨ pub = Some (ed_public k) → fixed (LastHash rep) → 0 <= LastSeq rep < 2 ^ 64 →
  SignCheckpoint k (LastSeq rep) (LastHash rep) = Some cp →
  decode_head (marshal (checkpoint_tree cp)) = Some (TypeCheckpoint, LastSeq rep) ∧
  ∃ rep', verifyLine pub rep (marshal (checkpoint_tree cp)) = (rep', None) ∧
    LastSeq rep' = LastSeq rep ∧ LastHash rep' = LastHash rep.
Proof.
  intros Hk Hf Hs Hcp. destruct (SignCheckpoint_fixed _ _ _ _ Hcp Hf Hs) as (Hfc & Ht & Hq & Hh).
  pose proof (decode_head_checkpoint _ Hfc) as Hd. rewrite Ht, Hq in Hd. split; [done|].
  unfold verifyLine. rewrite Hd. change (String.eqb TypeCheckpoint TypeCheckpoint) with true. cbv iota.
  unfold verify_checkpoint_line. rewrite decode_checkpoint_marshal by done. rewrite Hq, Hh, Z.eqb_refl, String.eqb_refl. cbn [negb].
  assert (check_signature pub cp = None) as ->.
  { unfold check_signature. destruct Hk as [->| ->]; [done|]. by eapply VerifyCheckpoint_Sign. }
  eexists. split; [reflexivity|]. done.
Qed.

Lemma advance_ok w ev ts id f h :
  log_ok w → payload_ok ev → 0 <= lastSeq w → lastSeq w + 1 < 2 ^ 64 →
  HashEvent (prepare ev (succ64 (lastSeq w)) ts id) (lastHash w) = Some (f, h) →
  let e := written w ev ts id h in
  slen (marshal (event_tree e)) < maxLine →
  let w1 := advance (fst (write w (marshal (event_tree e) ++ String newline "")%string Whole)) e in
  log_ok w1 ∧ log_events (w_file w1) = log_events (w_file w) ++ [coerce_event e].
Proof.
  intros Hw Hp Hlo Hhi Hh e Hlen w1. destruct (log_ok_chain w Hw) as [evs Hc].
  destruct (chain_shape _ _ _ Hc) as [_ Hf]. destruct Hw as (Ht & rep & Hv & Hok & Hs & Hl).
  destruct (verifyLine_written w rep ev ts id h f Hs Hl Hf Hp Hlo Hhi Hh) as (Hdh & Hde & rep' & Hvl & Hs' & Hh').
  fold e in Hdh, Hde, Hvl, Hs'. split; [split; [apply terminated_append|]|].
  - destruct (VerifyReader_append pub (w_file w) rep (event_fields e) rep') as [Hr Hok']; try done.
    { apply (event_tree_numbers e). }
    exists rep'. split; [exact Hr|]. split; [done|]. split; [done|]. by rewrite Hh'.
  - cbn [w1 advance w_file write fst]. pose proof (log_events_append (w_file w) (event_fields e) Ht (event_tree_numbers e)) as Hle.
    fold (event_tree e) in Hle. rewrite Hdh, Hde in Hle. exact Hle.
Qed.

Lemma append_checkpoint_ok w k :
  log_ok w → Key (w_opts w) = Some k → pub = None ∨ pub = Some (ed_public k) → 0 <= lastSeq w < 2 ^ 64 →
  ∃ w', append_checkpoint w Whole = (w', None) ∧ log_ok w' ∧ w_opts w' = w_opts w ∧ lastSeq w' = lastSeq w ∧
    lastHash w' = lastHash w ∧ log_events (w_file w') = log_events (w_file w).
Proof.
  intros Hw Hk Hpub Hs. destruct (log_ok_chain w Hw) as [evs Hc].
  destruct (chain_shape _ _ _ Hc) as [Hlen Hf]. destruct Hw as (Ht & rep & Hv & Hok & Hs1 & Hl1).
  unfold append_checkpoint. rewrite Hk. destruct (SignCheckpoint k (lastSeq w) (lastHash w)) as [cp|] eqn:Ecp.
  2:{ exfalso. unfold SignCheckpoint in Ecp. by destruct (checkpointMessage_total (lastSeq w) (lastHash w)) as [m Em]; rewrite Em in Ecp. }
  destruct (verifyLine_checkpoint k rep cp) as (Hd & rep' & Hvl & Hs' & Hh'); try congruence.
  assert (Hll : slen (marshal (checkpoint_tree cp)) < maxLine).
  { destruct (SignCheckpoint_fixed _ _ _ _ Ecp Hf Hs) as (_ & Et & Eq & Eh).
    pose proof (checkpoint_line_length cp ltac:(by rewrite Eq)) as Hb. rewrite Et, Eh, Hlen in Hb.
    assert (Hsig : (String.length (cp_Sig cp) <= 130)%nat).
    { unfold SignCheckpoint in Ecp. destruct (checkpointMessage _ _) as [m|]; [|done]. injection Ecp as <-. cbn [cp_Sig].
      etrans; [apply base64_encode_length|]. rewrite ed_sign_length. cbn. lia. }
    change (String.length TypeCheckpoint) with 10%nat in Hb. unfold slen, maxLine. lia. }
  cbn [write]. eexists. split; [reflexivity|]. cbn [w_opts lastSeq lastHash w_file].
  set (l := [("type", AStr (cp_Type cp)); ("seq", ANum (itoa (cp_Seq cp))); ("hash", AStr (cp_Hash cp))] ++ omit_empty "sig" (cp_Sig cp)).
  change (checkpoint_tree cp) with (AObj l) in *. pose proof (checkpoint_tree_numbers cp : numbers_ok (AObj l) = true) as Hn.
  split; [split; [apply terminated_append|]|split; [done|split; [done|split; [done|]]]].
  - destruct (VerifyReader_append pub (w_file w) rep l rep') as [Hr Hok']; try done.
    exists rep'. cbn [lastSeq lastHash w_file]. split; [exact Hr|]. split; [done|]. by rewrite Hs', Hh'.
  - rewrite log_events_append by done. rewrite Hd. by rewrite app_nil_r.
Qed.

(** One Append whose writes succeed. *)
Lemma Append_ok w ev now id w' e err :
  log_ok w → key_ok (w_opts w) → payload_ok ev → 0 <= lastSeq w → lastSeq w + 1 < 2 ^ 64 →
  Append w ev now (Some id) Whole Whole = (w', e, err) → slen (marshal (event_tree e)) < maxLine →
  err = None ∧ log_ok w' ∧ w_opts w' = w_opts w ∧ lastSeq w' = lastSeq w + 1 ∧
  log_events (w_file w') = log_events (w_file w) ++ [coerce_event e].
Proof.
  intros Hw Hk Hp Hlo Hhi. unfold Append.
  assert (Hseq : succ64 (lastSeq w) = lastSeq w + 1) by (unfold succ64; by rewrite Z.mod_small by lia).
  set (ts := if String.eqb (TS ev) "" then now else TS ev).
  assert (Hid : ∃ i, (if String.eqb (EventID ev) "" then Some id else Some (EventID ev)) = Some i).
  { destruct (String.eqb (EventID ev) ""); eauto. }
  destruct Hid as [i ->]. destruct (HashEvent_total (prepare ev (succ64 (lastSeq w)) ts i) (lastHash w)) as [h Hh].
  rewrite Hh. change (with_Hash _ h) with (written w ev ts i h). set (ew := written w ev ts i h).
  cbn [write]. destruct (due _ _) eqn:Ed.
  - pose proof (λ H, advance_ok w ev ts i _ h Hw Hp Hlo Hhi Hh H) as Hadv. cbv zeta in Hadv. fold ew in Hadv.
    cbn [write fst] in Hadv. set (w1 := advance _ ew) in *. destruct (append_checkpoint w1 Whole) as [w2 e2] eqn:Ec.
    intros [= <- <- <-] Hlen. destruct (Hadv Hlen) as [Hw1 Hev].
    destruct Hk as [Hk|(k & Hk & Hpub)]; [unfold due in Ed; change (w_opts w1) with (w_opts w) in Ed; lia|].
    destruct (append_checkpoint_ok w1 k) as (w3 & Hc & Hw3 & Ho & Hs3 & _ & Hl3); try done.
    { change (lastSeq w1) with (succ64 (lastSeq w)). lia. }
    rewrite Ec in Hc. injection Hc as <- ->. split; [done|]. split; [done|]. split; [by rewrite Ho|].
    split; [rewrite Hs3; exact Hseq|]. by rewrite Hl3.
  - intros [= <- <- <-] Hlen. destruct (advance_ok w ev ts i _ h Hw Hp Hlo Hhi Hh Hlen) as [Hw1 Hev].
    split; [done|]. split; [exact Hw1|]. split; [done|]. split; [exact Hseq|]. exact Hev.
Qed.
End Appended.

(** ** A session: a log opened, then appended to *)

Lemma chain_seq_range evs seq h : chain evs seq h → 0 <= seq < 2 ^ 64.
Proof. destruct 1 as [|evs seq h ev f _ _ -> _ _]; [lia|]. unfold succ64. apply Z.mod_pos_bound. lia. Qed.

(** Append after Append, every write whole; each with its clock and its random
    identifier. *)
Fixpoint append_all `{Ed25519} (w : Writer) (reqs : list (Event * string * string)) : Writer * list Event * option append_error :=
  match reqs with
  | [] => (w, [], None)
  | (ev, now, id) :: reqs =>
      match Append w ev now (Some id) Whole Whole with
      | (w, e, Some err) => (w, [e], Some err)
      | (w, e, None) => match append_all w reqs with (w, es, err) => (w, e :: es, err) end
      end
  end.

Lemma append_all_ok `{E : Ed25519} `{!Ed25519Laws E} pub w reqs w' evs err :
  log_ok pub w → key_ok pub (w_opts w) → 0 <= lastSeq w → lastSeq w + Z.of_nat (List.length reqs) < 2 ^ 64 →
  (∀ r, r ∈ reqs → payload_ok (fst (fst r))) → append_all w reqs = (w', evs, err) →
  (∀ e, e ∈ evs → slen (marshal (event_tree e)) < maxLine) →
  err = None ∧ log_ok pub w' ∧ lastSeq w' = lastSeq w + Z.of_nat (List.length reqs) ∧
  log_events (w_file w') = log_events (w_file w) ++ map coerce_event evs.
Proof.
  revert w evs. induction reqs as [|[ [ev now] id] reqs IH]; intros w evs Hw Hk Hlo Hhi Hp; cbn [append_all List.length].
  { intros [= <- <- <-] _. cbn. rewrite app_nil_r. split; [done|]. split; [done|]. split; [lia|done]. }
  destruct (Append w ev now (Some id) Whole Whole) as [ [w1 e] o] eqn:Ea.
  assert (Hpe : payload_ok ev) by (apply (Hp (ev, now, id)); by left).
  assert (Hstep : slen (marshal (event_tree e)) < maxLine → _) by
    (intros Hlen; exact (Append_ok pub w ev now id w1 e o Hw Hk Hpe Hlo ltac:(cbn in Hhi; lia) Ea Hlen)).
  destruct o as [err1|].
  - intros [= <- <- <-] Hlen. destruct (Hstep ltac:(apply Hlen; by left)) as [? _]. done.
  - destruct (append_all w1 reqs) as [ [w2 es] o2] eqn:Er. intros [= <- <- <-] Hlen.
    destruct (Hstep ltac:(apply Hlen; by left)) as (_ & Hw1 & Ho & Hs & Hl).
    destruct (IH w1 es Hw1) as (He & Hw2 & Hs2 & Hl2); try done.
    + by rewrite Ho.
    + lia.
    + rewrite Hs. cbn in Hhi. lia.
    + intros r Hr. apply Hp. by right.
    + intros x Hx. apply Hlen. by right.
    + split; [done|]. split; [done|]. split; [rewrite Hs2, Hs; lia|]. rewrite Hl2, Hl. by rewrite <- app_assoc.
Qed.

(** Verifying with a key can only refuse more. *)
Lemma verifyLine_nokey `{Ed25519} pub rep rep0 line rep' :
  Events rep0 = Events rep → LastSeq rep0 = LastSeq rep → LastHash rep0 = LastHash rep → OK rep0 = OK rep →
  verifyLine pub rep line = (rep', None) →
  ∃ rep0', verifyLine None rep0 line = (rep0', None) ∧ Events rep0' = Events rep' ∧ LastSeq rep0' = LastSeq rep' ∧
    LastHash rep0' = LastHash rep' ∧ OK rep0' = OK rep'.
Proof.
  intros He Hs Hh Ho. unfold verifyLine. destruct (decode_head line) as [ [t q]|]; [|done].
  destruct (String.eqb t TypeCheckpoint).
  - unfold verify_checkpoint_line. destruct (decode_checkpoint line) as [cp|]; [|done]. rewrite Hs, Hh.
    destruct (negb (cp_Seq cp =? LastSeq rep)); [done|]. destruct (negb (String.eqb _ (LastHash rep))); [done|].
    destruct (check_signature pub cp); [done|]. intros [= <-]. cbn [check_signature]. eexists. by split.
  - destruct (event_type t); [|done]. unfold verify_event_line. destruct (decode_event line) as [ev|]; [|done]. rewrite Hs, Hh.
    destruct (negb (ev_Seq ev =? _)); [done|]. destruct (negb (String.eqb _ (LastHash rep))); [done|].
    destruct (HashEvent ev (LastHash rep)) as [ [f want]|]; [|done]. destruct (negb _); [done|]. intros [= <-].
    eexists. split; [reflexivity|]. cbn. by rewrite He.
Qed.

Lemma verify_lines_nokey `{Ed25519} pub n rep rep0 ls rep' :
  Events rep0 = Events rep → LastSeq rep0 = LastSeq rep → LastHash rep0 = LastHash rep → OK rep0 = OK rep →
  verify_lines pub n rep ls = (rep', false) → OK rep' = true →
  ∃ rep0', verify_lines None n rep0 ls = (rep0', false) ∧ Events rep0' = Events rep' ∧ LastSeq rep0' = LastSeq rep' ∧
    LastHash rep0' = LastHash rep' ∧ OK rep0' = OK rep'.
Proof.
  revert n rep rep0. induction ls as [|raw ls IH]; intros n rep rep0 He Hs Hh Ho; cbn [verify_lines].
  { intros [= <-] _. by exists rep0. }
  destruct (maxLine <=? slen raw); [done|]. destruct (String.eqb _ ""); [by apply IH|].
  destruct (verifyLine pub rep _) as [rep1 [p|] ] eqn:Ev; [by intros [= <-]|].
  destruct (verifyLine_nokey pub rep rep0 _ rep1 He Hs Hh Ho Ev) as (rep01 & -> & ? & ? & ? & ?). by apply IH.
Qed.

(** A writer opened on whole lines that verify is at their end. *)
Lemma NewWriter_log_ok `{Ed25519} pub opts content created restricted w rep :
  NewWriter opts (Some (content, created)) restricted = Ok w → terminated content →
  VerifyReader pub content = (rep, false) → OK rep = true →
  log_ok pub w ∧ w_opts w = opts ∧ w_file w = content ∧ lastSeq w = LastSeq rep ∧
  (0 < CheckpointEvery opts → ∃ k, Key opts = Some k).
Proof.
  intros Hn Ht Hv Hok.
  destruct (verify_lines_nokey pub 1 (new_report pub) (new_report None) _ rep eq_refl eq_refl eq_refl eq_refl Hv Hok)
    as (rep0 & Hv0 & _ & Hs0 & Hh0 & Ho0).
  unfold NewWriter in Hn. destruct ((0 <? CheckpointEvery opts) && _) eqn:Ek; [done|].
  unfold resumeLog, VerifyReader in Hn. rewrite Hv0, Ho0, Hok in Hn. cbn [negb] in Hn.
  destruct (negb created && negb restricted); [done|]. injection Hn as <-. cbn [w_opts w_file lastSeq].
  split; [|split; [done|split; [done|split; [done|] ] ] ].
  - split; [done|]. exists rep. cbn. by rewrite Hs0, Hh0.
  - intros Hpos. destruct (Key opts) as [k|]; [by exists k|]. lia.
Qed.

(** C5: A log that ends in whole lines and verifies (a new one, or one
    resumed) is opened and appended to, the writes succeeding: no Append
    fails, and what is then in the file verifies, with the sequence numbers
    running on, every checkpoint signature accepted by the writer's public key, and
    holds exactly the events it held and the ones appended, as they were left
    by Append (with invalid UTF-8 replaced). *)
Theorem session_verifies `{E : Ed25519} `{!Ed25519Laws E} pub opts content created restricted w0 rep0 reqs w evs err :
  NewWriter opts (Some (content, created)) restricted = Ok w0 → terminated content →
  VerifyReader pub content = (rep0, false) → OK rep0 = true →
  pub = None ∨ (∃ k, Key opts = Some k ∧ pub = Some (ed_public k)) →
  LastSeq rep0 + Z.of_nat (List.length reqs) < 2 ^ 64 →
  (∀ r, r ∈ reqs → payload_ok (fst (fst r))) →
  append_all w0 reqs = (w, evs, err) →
  (∀ e, e ∈ evs → slen (marshal (event_tree e)) < maxLine) →
  err = None ∧
  ∃ rep, VerifyReader pub (w_file w) = (rep, false) ∧ OK rep = true ∧
    LastSeq rep = LastSeq rep0 + Z.of_nat (List.length reqs) ∧ LastHash rep = lastHash w ∧
    log_events (w_file w) = log_events content ++ map coerce_event evs.
Proof.
  intros Hn Ht Hv Hok Hpub Hhi Hp Ha Hlen.
  destruct (NewWriter_log_ok pub opts content created restricted w0 rep0 Hn Ht Hv Hok) as (Hw & Ho & Hf & Hs & Hk).
  destruct (log_ok_chain pub w0 Hw) as [l Hc]. pose proof (chain_seq_range _ _ _ Hc) as Hr.
  assert (Hko : key_ok pub (w_opts w0)).
  { rewrite Ho. destruct (Z.lt_ge_cases 0 (CheckpointEvery opts)) as [Hpos|Hle]; [right|by left].
    destruct Hpub as [->|(k & Hkk & ->)]; [destruct (Hk Hpos) as [k Hkk]|]; exists k; auto. }
  destruct (append_all_ok pub w0 reqs w evs err Hw Hko) as (-> & (_ & rep & Hv' & Hok' & Hs' & Hh') & Hseq & Hev);
    try done; [lia|by rewrite Hs|].
  split; [done|]. exists rep. split; [done|]. split; [done|]. split; [rewrite Hs', Hseq, Hs; done|]. split; [done|].
  by rewrite Hev, Hf.
Qed.

(** ** Errors of Append *)

(** When Append fails, it fails in one of three ways: without a random
    identifier nothing has happened; after a failed event write the chain
    state is as before and the file has grown by a prefix of the event's line
    at most; after a failed checkpoint write the event is in the file and the
    chain has moved on to it.  The other errors cannot occur for a writer that
    NewWriter made. *)
Theorem Append_errors `{E : Ed25519} opts opened restricted w0 w ev now random o1 o2 w' e err :
  NewWriter opts opened restricted = Ok w0 → w_opts w = opts →
  Append w ev now random o1 o2 = (w', e, Some err) →
  match err with
  | NoRandom => w' = w ∧ EventID ev = EmptyString ∧ random = None
  | WriteFailed => ∃ n, o1 = Part n ∧ lastSeq w' = lastSeq w ∧ lastHash w' = lastHash w ∧
      w_file w' = (w_file w ++ s_take n (marshal (event_tree e) ++ String newline ""))%string
  | CheckpointWriteFailed => ∃ n cp k, o1 = Whole ∧ o2 = Part n ∧ Key opts = Some k ∧
      SignCheckpoint k (ev_Seq e) (ev_Hash e) = Some cp ∧ lastSeq w' = ev_Seq e ∧ lastHash w' = ev_Hash e ∧
      w_file w' = (w_file w ++ (marshal (event_tree e) ++ String newline "") ++
                   s_take n (marshal (checkpoint_tree cp) ++ String newline ""))%string
  | HashFailed | SignFailed | NoKeyPanic => False
  end.
Proof.
  intros Hn Ho. unfold Append. destruct (if String.eqb (EventID ev) "" then random else Some (EventID ev)) as [id|] eqn:Eid.
  2:{ intros [= <- <- <-]. split; [done|]. by destruct (String.eqb_spec (EventID ev) ""). }
  destruct (HashEvent_total (prepare ev (succ64 (lastSeq w)) (if String.eqb (TS ev) "" then now else TS ev) id) (lastHash w))
    as [h ->].
  set (e' := with_Hash _ h). destruct o1 as [|n]; cbn [write]; [|intros [= <- <- <-]; by exists n].
  destruct (due _ _) eqn:Ed; [|done]. unfold append_checkpoint. cbn [advance w_opts lastSeq lastHash]. rewrite Ho.
  destruct (Key opts) as [k|] eqn:Ek.
  2:{ exfalso. unfold NewWriter in Hn. rewrite Ek, andb_true_r in Hn. unfold due in Ed. cbn [advance w_opts] in Ed. rewrite Ho in Ed.
      apply andb_prop in Ed as [Hpos _]. by rewrite Hpos in Hn. }
  destruct (SignCheckpoint k (ev_Seq e') (ev_Hash e')) as [cp|] eqn:Ecp.
  2:{ exfalso. unfold SignCheckpoint in Ecp. by destruct (checkpointMessage_total (ev_Seq e') (ev_Hash e')) as [m Em]; rewrite Em in Ecp. }
  destruct o2 as [|n]; cbn [write]; [done|]. intros [= <- <- <-]. exists n, cp, k. repeat split; try done.
  cbn [w_file]. by rewrite app_assoc_str.
Qed.

(** ** Witnesses *)

(** A signature scheme for the witnesses: the signature is a keyed hash. *)
Definition keyed_hash : Ed25519 :=
  {| ed_sign := λ k m, hex_encode (sha256 (k ++ m)); ed_public := λ k, k;
     ed_verify := λ k m s, String.eqb s (hex_encode (sha256 (k ++ m))) |}.

Lemma keyed_hash_laws : @Ed25519Laws keyed_hash.
Proof.
  constructor; intros priv msg; cbn; [apply String.eqb_refl|by rewrite hex_encode_length, sha256_length].
Qed.

Definition demo_event (tool : string) : Event :=
  {| ev_Type := ""; EventID := ""; ev_Seq := 0; TS := ""; ev_Principal := "ops"; ev_SessionID := "s1"; ev_Server := "mock";
     ev_Tool := tool; ev_Class := "READ_STATUS"; ArgsSHA256 := ""; ev_Targets := Some ["sw-1"]; Roles := None;
     ev_Decision := "allow"; ev_RuleID := "r1"; ev_Reason := "<b>"; ev_Obligations := None;
     ev_Approval := Some {| ar_ID := "a"; ar_Approver := "bob"; ar_Channel := "cli" |}; Status := "ok";
     DurationMS := 12; Redactions := 0; PrevHash := ""; ev_Hash := "" |}.

Definition demo_opts : Options := {| CheckpointEvery := 2; Key := Some "k" |}.
Definition demo_reqs : list (Event * string * string) :=
  [(demo_event "show_version", "2026-01-01T00:00:00Z", "id1"); (demo_event "ping", "2026-01-01T00:00:01Z", "id2")].
Definition demo_writer : Writer := {| w_file := ""; w_opts := demo_opts; lastSeq := 0; lastHash := GenesisHash |}.
Definition demo_session : Writer * list Event * option append_error := @append_all keyed_hash demo_writer demo_reqs.
Definition demo_log : string := w_file (fst (fst demo_session)).

Lemma session_verifies_witness :
  ∃ w evs rep, demo_session = (w, evs, None) ∧
    @VerifyReader keyed_hash (Some "k") (w_file w) = (rep, false) ∧ OK rep = true ∧ LastSeq rep = 2 ∧
    Checkpoints rep = 1 ∧ log_events (w_file w) = map coerce_event evs.
Proof.
  destruct demo_session as [ [w evs] err] eqn:Es.
  assert (Hlen : ∀ e, e ∈ evs → slen (marshal (event_tree e)) < maxLine).
  { replace evs with (snd (fst demo_session)) by (rewrite Es; reflexivity). intros e He.
    apply Z.ltb_lt. revert e He. apply forallb_elem. vm_compute. reflexivity. }
  destruct (@session_verifies keyed_hash keyed_hash_laws (Some "k") demo_opts "" true true demo_writer
    (new_report (Some "k")) demo_reqs w evs err) as (-> & rep & Hv & Hok & Hs & Hh & Hl).
  - reflexivity.
  - left. reflexivity.
  - reflexivity.
  - reflexivity.
  - right. exists "k". split; reflexivity.
  - reflexivity.
  - intros r Hr. unfold demo_reqs in Hr. repeat (apply elem_of_cons in Hr as [->|Hr]; [split; split; vm_compute; congruence|]).
    exfalso. exact (not_elem_of_nil _ Hr).
  - exact Es.
  - exact Hlen.
  - exists w, evs, rep. split; [reflexivity|]. split; [exact Hv|]. split; [exact Hok|]. split; [exact Hs|]. split; [|exact Hl].
    replace w with (fst (fst demo_session)) in Hv by (rewrite Es; reflexivity). revert Hv. vm_compute. intros [= <-]. reflexivity.
Defined.

(** The same events without checkpoints. *)
Definition plain_log : string :=
  w_file (fst (fst (@append_all keyed_hash
    {| w_file := ""; w_opts := {| CheckpointEvery := 0; Key := None |}; lastSeq := 0; lastHash := GenesisHash |} demo_reqs))).


Lemma Append_errors_witness :
  ∃ w e, @Append keyed_hash demo_writer (demo_event "ping") "" (Some "id") (Part 5) Whole = (w, e, Some WriteFailed) ∧
    lastSeq w = 0 ∧ w_file w = String "{" (String dquote "typ").
Proof.
  destruct (@Append keyed_hash demo_writer (demo_event "ping") "" (Some "id") (Part 5) Whole) as [ [w e] o] eqn:Ea.
  assert (Ho : o = Some WriteFailed) by (change o with (snd (w, e, o)); rewrite <- Ea; vm_compute; reflexivity). subst o.
  destruct (@Append_errors keyed_hash demo_opts (Some (EmptyString, true)) true demo_writer demo_writer (demo_event "ping") ""
    (Some "id") (Part 5) Whole w e WriteFailed eq_refl eq_refl Ea) as (n & Hn & Hs & _ & Hf).
  exists w, e. split; [reflexivity|]. split; [exact Hs|].
  change w with (fst (fst (w, e, Some WriteFailed))). rewrite <- Ea. vm_compute. reflexivity.
Defined.

(** A log whose last newline is missing verifies and is resumed, and the next
    Append, which reports success, leaves a file that does not verify and that
    NewWriter then refuses. *)
Definition cut_log : string := s_take (String.length plain_log - 1) plain_log.
Definition cut_opts : Options := {| CheckpointEvery := 0; Key := None |}.

Example unterminated_log_broken :
  match @NewWriter keyed_hash cut_opts (Some (cut_log, false)) true with
  | Ok w =>
      match @Append keyed_hash w (demo_event "ping") "2026-01-01T00:00:02Z" (Some "id3") Whole Whole with
      | (w, _, None) =>
          OK (fst (@VerifyReader keyed_hash None (w_file w))) = false ∧
          @NewWriter keyed_hash cut_opts (Some (w_file w, false)) true = Err (ChainBroken 2 (Some (2, NotJSON)))
      | _ => False
      end
  | Err _ => False
  end.
Proof. vm_compute. split; reflexivity. Qed.
