(* ===== verification/AuditFile.v ===== *)
(** * The audit log's file and the audit commands: internal/audit/writer.go,
    key_unix.go, cmd/fathomgate/audit.go

    Opening a log: created for its owner only, or an existing one that passes
    the checks on the open descriptor; then [NewWriter] as AuditLog has it on
    what the descriptor holds.  The commands audit verify and audit keygen, from
    their parsed flags to the exit code.

    [log_owner_only]: a writer's log is a file no other user can read or change.
    [audit_verify_exit]: what the exit code of audit verify means. *)

From S2P Require Import Prelude GoStd GoFile FileChecks GoCrypto Json JsonMarshal Flags AuditEvent AuditLog AuditKey.

Open Scope string_scope.
Open Scope Z_scope.
Open Scope list_scope.

Inductive log_error :=
  | LogSymlink | LogNotRegular | LogLinks (n : Z) | LogOwner (uid : Z) | LogAcl (e : create_error)
  | LogIrregular (e : create_error) | LogCreate (e : create_error) | LogStat (e : errno) | LogOpen (e : errno).

(** [errors.Is(err, errUnsafeLog)]. *)
Definition unsafe_log (e : log_error) : bool :=
  match e with LogCreate _ | LogStat _ | LogOpen _ => false | _ => true end.

Section Log.
Context (fails : nat → option string) (euid umask : Z) (inherits : string → bool).

(** stat through the descriptor. *)
Definition StatNode (f : Z) : M (result errno inode) :=
  sys fails CStat (λ o, (o, match fs_nodes (os_fs o) !! f with Some nd => Ok nd | None => Err ENOENT end)).

(** [checkLogFile]. *)
Definition checkLogFile (f : Z) : M (option log_error) :=
  fi ← StatNode f;
  match fi with
  | Err e => mret (Some (LogStat e))
  | Ok nd =>
      if negb (is_regular (nd_kind nd)) then mret (Some LogNotRegular)
      else if negb (nd_nlink nd =? 1) then mret (Some (LogLinks (nd_nlink nd)))
      else if negb (nd_uid nd =? euid) then mret (Some (LogOwner (nd_uid nd)))
      else r ← refuseExtendedACL fails f; mret (LogAcl <$> r)
  end.

(** [openExistingLog]. *)
Definition openExistingLog (path : string) : M (result log_error Z) :=
  r ← sys fails COpen (λ o, (o, open_nofollow (os_fs o) path));
  match r with
  | Err ELOOP => mret (Err LogSymlink)
  | Err e => mret (Err (LogOpen e))
  | Ok f =>
      c ← checkLogFile f;
      match c with
      | Some e => _ ← Close fails f; mret (Err e)
      | None => mret (Ok f)
      end
  end.

(** A name that is not a regular file's. *)
Definition irregular (fs : filesys) (e : entry) : bool :=
  match e with Symlink _ => true | Hard i => match fs_nodes fs !! i with Some nd => negb (is_regular (nd_kind nd)) | None => true end end.

Definition get_fs : M filesys := λ o, (o, os_fs o).

(** The error of a log that could not be created. *)
Definition create_refused (path : string) (e : create_error) : M (result log_error (Z * bool)) :=
  li ← Lstat fails path;
  fs ← get_fs;
  mret (match li with
    | Ok en => if irregular fs en then Err (LogIrregular e) else Err (LogCreate e)
    | Err _ => Err (LogCreate e)
    end).

(** [openLog]: the descriptor, and whether the log is new. *)
Definition openLog (path : string) : M (result log_error (Z * bool)) :=
  r ← createExclusive fails euid umask inherits path true;
  match r with
  | Ok f => mret (Ok (f, true))
  | Err (CreateSys EEXIST) =>
      x ← openExistingLog path;
      mret (match x with Ok f => Ok (f, false) | Err e => Err e end)
  | Err e => create_refused path e
  end.

(** [restrictOpenFile]. *)
Definition restrictOpenFile (f : Z) : M (result errno unit) := Chmod fails f ownerOnlyMode.

(** [NewWriter] over the file system: the options are checked, the log opened,
    verified as the descriptor holds it, and an existing one restricted. *)
Definition finish `{Ed25519} (opts : Options) (content : string) (created restricted : bool) (f : Z) : M (result open_error (Writer * Z)) :=
  match NewWriter opts (Some (content, created)) restricted with
  | Ok w => mret (Ok (w, f))
  | Err e => _ ← Close fails f; mret (Err e)
  end.

Definition NewWriter_at `{Ed25519} (opts : Options) (path : string) : M (result open_error (Writer * Z)) :=
  match NewWriter opts None true with
  | Err NeedsKey => mret (Err NeedsKey)
  | _ =>
      r ← openLog path;
      match r with
      | Err _ => mret (Err LogNotOpened)
      | Ok (f, created) =>
          fs ← get_fs;
          let content := from_option nd_data "" (fs_nodes fs !! f) in
          if is_ok (NewWriter opts (Some (content, created)) true) && negb created then
            c ← restrictOpenFile f; finish opts content created (is_ok c) f
          else finish opts content created true f
      end
  end.

(** ** What is opened *)

Lemma checkLogFile_spec f o :
  let '(o', r) := checkLogFile f o in
  os_fs o' = os_fs o ∧
  (r = None → ∃ nd, fs_nodes (os_fs o) !! f = Some nd ∧ nd_kind nd = KRegular ∧ nd_nlink nd = 1 ∧ nd_uid nd = euid ∧ nd_acl nd = false).
Proof.
  unfold checkLogFile, StatNode, refuseExtendedACL, read_acl, mbind, M_bind. unfold sys at 1. destruct (fails (os_calls o)); [done|]. cbn [os_fs].
  destruct (fs_nodes (os_fs o) !! f) as [nd|] eqn:E; [|done]. destruct (nd_kind nd) eqn:Ek; cbn; [|done..].
  destruct (Z.eqb_spec (nd_nlink nd) 1); [|done]. destruct (Z.eqb_spec (nd_uid nd) euid); [|done]. cbn. unfold sys. cbn.
  destruct (fails _); cbn; [done|]. rewrite E. cbn. destruct (nd_acl nd) eqn:Ea; [done|]. cbn. split; [done|]. intros _. by exists nd.
Qed.

Lemma create_refused_spec path e o o1 : undone o o1 →
  let '(o', r) := create_refused path e o1 in undone o o' ∧ is_ok r = false.
Proof.
  intros Hu. unfold create_refused, mbind, M_bind, Lstat, sys. destruct (fails (os_calls o1)); cbn.
  - split; [|done]. destruct Hu as (H1 & H2 & H3). split_and!; [done..|]. destruct H3 as [?|(c & Hc & Ht)]; [by left|right].
    exists c. cbn. split; [set_solver|done].
  - destruct (fs_names (os_fs o1) !! path); [destruct (irregular _ _)|]; by split.
Qed.

Lemma openLog_spec path o :
  let '(o', r) := openLog path o in
  match r with
  | Ok (f, true) => fs_names (os_fs o) !! path = None ∧ fs_nodes (os_fs o) !! f = None ∧
      os_fs o' = add_file path f (new_file euid inherits path true "") (os_fs o)
  | Ok (f, false) => os_fs o' = os_fs o ∧ fs_names (os_fs o) !! path = Some (Hard f) ∧
      ∃ nd, fs_nodes (os_fs o) !! f = Some nd ∧ nd_kind nd = KRegular ∧ nd_nlink nd = 1 ∧ nd_uid nd = euid ∧ nd_acl nd = false
  | Err _ => undone o o'
  end.
Proof.
  unfold openLog, mbind at 1, M_bind at 1. pose proof (createExclusive_spec fails 0 euid umask inherits path true o) as Hc.
  destruct (createExclusive _ _ _ _ _ _ o) as [o1 [f|e]] eqn:Hex.
  { destruct Hc as (_ & -> & Hn & E). cbn. split_and!; [done|apply next_inode_fresh|done]. }
  destruct Hc as [_ Hu]. destruct (decide (e = CreateSys EEXIST)) as [->|Hne].
  - apply createExclusive_exists in Hex. cbn iota. unfold openExistingLog, mbind, M_bind. unfold sys at 1. destruct (fails (os_calls o1)); [by apply undone_refl|].
    cbn [os_fs]. unfold open_nofollow. destruct (fs_names (os_fs o1) !! path) as [[t|i]|] eqn:En; [by apply undone_refl| |by apply undone_refl]. cbn iota.
    match goal with |- context [checkLogFile i ?x] => pose proof (checkLogFile_spec i x) as Hk; destruct (checkLogFile i x) as [o2 [e|]] end.
    + destruct Hk as [Hk _]. unfold Close, sys. destruct (fails (os_calls o2)); cbn; apply undone_refl; cbn; by rewrite Hk.
    + destruct Hk as [Hk Hnd]. cbn [mret M_ret] in *. cbn [os_fs] in *. rewrite Hk, Hex. split; [done|]. rewrite <- Hex. split; [done|]. by apply Hnd.
  - pose proof (create_refused_spec path e o o1 Hu) as Hl.
    destruct e as [[| | |t]|e|]; cbn iota; [|by destruct Hne|..].
    all: destruct (create_refused _ _ o1) as [o2 [x|y]]; by destruct Hl.
Qed.
Lemma NewWriter_file `{Ed25519} opts content created restricted w :
  NewWriter opts (Some (content, created)) restricted = Ok w → w_file w = content ∧ (created = false → restricted = true).
Proof.
  unfold NewWriter, resumeLog. destruct (_ && _); [done|]. destruct (VerifyReader None content) as [rep [|]]; [done|].
  destruct (negb (OK rep)); [done|]. destruct created, restricted; cbn; try done; by intros [= <-].
Qed.

Lemma NewWriter_empty `{Ed25519} opts content : NewWriter opts None true = Err content → content ≠ NeedsKey →
  is_ok (NewWriter opts (Some ("", true)) true) = true.
Proof. unfold NewWriter. destruct (_ && _); [congruence|]. intros _ _. reflexivity. Qed.

(** C21: The log a writer holds is a file no other user can read or change.
    If NewWriter succeeds, the descriptor it holds is a regular file of the
    effective user, with one link, mode 0600 and no extended list, under the
    path's own name (no symbolic link was followed), and the content that was
    verified is the file's; an existing file's content is as it was, and no other
    file was touched.  If it fails nothing was touched, and nothing new is left
    unless a close or a step of the clean-up failed. *)
Theorem log_owner_only `{Ed25519} opts path o :
  let '(o', r) := NewWriter_at opts path o in
  match r with
  | Ok (w, f) =>
      (∃ nd, fs_nodes (os_fs o') !! f = Some nd ∧ nd_kind nd = KRegular ∧ nd_uid nd = euid ∧ nd_nlink nd = 1 ∧
        nd_perm nd = ownerOnlyMode ∧ nd_acl nd = false ∧ nd_data nd = w_file w) ∧
      fs_names (os_fs o') !! path = Some (Hard f) ∧
      (∀ j, j ≠ f → fs_nodes (os_fs o') !! j = fs_nodes (os_fs o) !! j) ∧
      ((fs_names (os_fs o) !! path = None ∧ w_file w = "") ∨
       (fs_names (os_fs o') = fs_names (os_fs o) ∧ nd_data <$> fs_nodes (os_fs o) !! f = Some (w_file w)))
  | Err _ => undone o o'
  end.
Proof.
  unfold NewWriter_at. destruct (NewWriter opts None true) as [w|e] eqn:E0.
  { unfold NewWriter in E0. by destruct (_ && _). }
  assert (Hcase : e = NeedsKey ∨ e ≠ NeedsKey) by (destruct e; [by left|by right..]).
  destruct Hcase as [->|Hne]; [by apply undone_refl|].
  assert (Hgo : ∀ (g : M (result open_error (Writer * Z))), (match e with NeedsKey => mret (Err NeedsKey) | _ => g end) o = g o) by (intros g; by destruct e).
  rewrite Hgo. clear Hgo. unfold mbind at 1, M_bind at 1. pose proof (openLog_spec path o) as Hs.
  destruct (openLog path o) as [o1 [[f created]|le]]; [|exact Hs].
  unfold get_fs. unfold mbind at 1, M_bind at 1. set (content := from_option nd_data "" (fs_nodes (os_fs o1) !! f)).
  destruct created.
  - destruct Hs as (Hn & Hf & E). rewrite andb_false_r. cbn iota. unfold finish.
    assert (Hc : content = "") by (unfold content; rewrite E; cbn; by rewrite lookup_insert_eq).
    pose proof (NewWriter_empty opts e E0 Hne) as Hok. rewrite <- Hc in Hok. destruct (NewWriter opts (Some (content, true)) true) as [w|] eqn:Ew; [|done].
    apply NewWriter_file in Ew as [Ew _]. cbn [mret M_ret]. rewrite E, Ew, Hc. cbn. split_and!.
    + eexists. rewrite lookup_insert_eq. split_and!; reflexivity.
    + apply lookup_insert_eq.
    + intros j Hj. by rewrite lookup_insert_ne.
    + by left.
  - destruct Hs as (E & Hn & nd & Hnd & Hk & Hl & Hu & Ha). rewrite andb_true_r.
    assert (Hc : content = nd_data nd) by (unfold content; by rewrite E, Hnd).
    assert (Herr : ∀ restricted o2, os_fs o2 = os_fs o1 → match NewWriter opts (Some (content, false)) restricted with Ok _ => False | Err _ => True end →
      let '(o', r) := finish opts content false restricted f o2 in match r with Ok _ => False | Err _ => undone o o' end).
    { intros restricted o2 E2 Hw. unfold finish. destruct (NewWriter opts (Some (content, false)) restricted); [done|].
      unfold mbind, M_bind, Close, sys. destruct (fails (os_calls o2)); cbn; apply undone_refl; cbn; congruence. }
    destruct (NewWriter opts (Some (content, false)) true) as [w|e'] eqn:Ew; cbn [is_ok].
    + unfold mbind at 1, M_bind at 1, restrictOpenFile, Chmod, sys. destruct (fails (os_calls o1)) as [s|].
      * cbn [is_ok]. match goal with |- context [finish opts content false false f ?x] => specialize (Herr false x eq_refl); destruct (finish opts content false false f x) as [o2 [x'|]] end.
        -- destruct Herr. unfold NewWriter in *. destruct (_ && _); [done|]. unfold resumeLog in *. destruct (VerifyReader None content) as [rep [|]]; [done|]. by destruct (negb (OK rep)).
        -- apply Herr. unfold NewWriter in *. destruct (_ && _); [done|]. unfold resumeLog in *. destruct (VerifyReader None content) as [rep [|]]; [done|]. by destruct (negb (OK rep)).
      * cbn [is_ok]. unfold finish. rewrite Ew. cbn [mret M_ret]. apply NewWriter_file in Ew as [Ew _]. unfold set_fs. cbn [os_fs].
        rewrite E, (on_node_some _ _ _ _ Hnd), Ew, Hc. cbn. split_and!.
        -- eexists. rewrite lookup_insert_eq. split_and!; [reflexivity|done..].
        -- done.
        -- intros j Hj. by rewrite lookup_insert_ne.
        -- right. split; [done|]. by rewrite Hnd.
    + specialize (Herr true o1 eq_refl). rewrite Ew in Herr. destruct (finish opts content false true f o1) as [o2 [x|]]; [by destruct Herr|by apply Herr].
Qed.
End Log.

(** ** audit verify and audit keygen *)

Section Commands.
Context `{Ed25519}.

(** [loadVerifyKey]: a private key is refused with a message of its own. *)
Inductive verify_key_error := KeyIsPrivate (path : string) | KeyUnusable (e : key_error).
Definition loadVerifyKey (load : string → result key_error string) (path : string) : result verify_key_error string :=
  match load path with
  | Ok k => Ok k
  | Err ErrPrivateKey => Err (KeyIsPrivate path)
  | Err e => Err (KeyUnusable e)
  end.

(** [cmdAuditVerify] after its flags are parsed: the exit code and the report
    it prints; [log] is the file at a path. *)
Definition cmdAuditVerify (load : string → result key_error string) (log : string → file) (files : list string) (keyPath : string) : Z * option Report :=
  match files with
  | [path] =>
      match (if String.eqb keyPath "" then Ok None else match loadVerifyKey load keyPath with Ok k => Ok (Some k) | Err e => Err e end) with
      | Err _ => (exitUsage, None)
      | Ok pub =>
          match verifyFile (log path) pub true with
          | Verified rep => (if OK rep then exitOK else exitFail, Some rep)
          | OpenFailed | ReadFailed _ => (exitUsage, None)
          end
      end
  | _ => (exitUsage, None)
  end.

(** [cmdAuditKeygen] after its flags are parsed. *)
Definition cmdAuditKeygen {Pub Priv} (NewKey : result string (Pub * Priv)) (MarshalPKCS8 : Priv → result string string) (MarshalPKIX : Pub → result string string)
    (fails : nat → option string) (partial : nat) (euid umask : Z) (inherits : string → bool) (out pubOut : string) : M Z :=
  let pubPath := if String.eqb pubOut "" then (out ++ ".pub")%string else pubOut in
  a ← Lstat fails out;
  if is_ok a then mret exitUsage
  else
    b ← Lstat fails pubPath;
    if is_ok b then mret exitUsage
    else match NewKey with
    | Err _ => mret exitUsage
    | Ok (pub, priv) =>
        r ← WriteKeyPair MarshalPKCS8 MarshalPKIX fails partial euid umask inherits out pubPath pub priv;
        mret (match r with Some _ => exitUsage | None => exitOK end)
    end.

(** The exit code 0 means a chain that verifies, or no file, with every
    checkpoint's signature checked when a key is given; 1 means a broken chain. *)
Lemma audit_verify_exit load log files keyPath :
  match cmdAuditVerify load log files keyPath with
  | (code, Some rep) => code = (if OK rep then exitOK else exitFail) ∧
      ∃ path pub, files = [path] ∧ verifyFile (log path) pub true = Verified rep ∧
        match pub with None => keyPath = "" | Some k => keyPath ≠ "" ∧ load keyPath = Ok k end
  | (code, None) => code = exitUsage
  end.
Proof.
  unfold cmdAuditVerify, loadVerifyKey. destruct files as [|path [|p files]]; [done| |done].
  destruct (String.eqb_spec keyPath "") as [->|Hk].
  - destruct (verifyFile (log path) None true) as [r| |r] eqn:Ev; [|done..]. split; [done|]. by exists path, None.
  - destruct (load keyPath) as [k|[]] eqn:El; try done.
    destruct (verifyFile (log path) (Some k) true) as [r| |r] eqn:Ev; [|done..]. split; [done|]. by exists path, (Some k).
Qed.
End Commands.
